(* ===== verification/_CoqProject ===== *)
-Q . S2P
Prelude.v
SortedMap.v
Identifiers.v
AcctTypes.v
ChainTypes.v
Externals.v
CodecTypes.v
Varint64.v
DaFramework.v
DaQueue.v
OLDaTypes.v
OLDaSpec.v
LedgerTypes.v
Bridge.v
OLAccount.v
WriteBatch.v
OLState.v
StateAccessor.v
OLDaApply.v
IndexerLayer.v
DaLayer.v
LedgerSpec.v
MemoryLayer.v
BatchApply.v
WriteTracking.v
BatchDiff.v
SnarkSys.v
StfContext.v
StfTx.v
StfManifests.v
StfBlock.v
StfSim.v
IndexerSpec.v
DaSim.v
LayerProps.v
StfAgreement.v
StfLedger.v
StfUpdates.v
StfManifestSpec.v
DaReplay.v
StfValue.v
StfProgress.v
DaDiff.v
DaEpoch.v
Genesis.v
StfSafety.v
BlockSafety.v
SnarkProofs.v
CheckpointWorker.v
CheckpointSpec.v
CheckpointService.v
Mempool.v
MempoolSpec.v
MempoolOps.v
MempoolProps.v
Tracker.v
TrackerFinal.v
TipUpdate.v
ForkChoice.v
ForkChoiceSpec.v
ForkChoiceInit.v
DaSize.v
EpochSealing.v
BlockAssembly.v
BlockAssemblySpec.v
AssemblyLimits.v
TemplateService.v
TemplateSpec.v
ResourceReplay.v
SnarkRuntime.v
EeRuntime.v
EeSpec.v
Concrete.v
ConcreteDa.v
Witnesses.v
DaWitnesses.v
FcmWitnesses.v
MempoolWitnesses.v
AssemblyWitnesses.v
EeWitnesses.v
