(* ===== verification/Prelude.v ===== *)
(** * The orchestration layer of Alpen: a verification development

    ** The program

    The orchestration layer (OL) is the chain that keeps the ledger of the
    rollup.  A block carries transactions (messages to accounts, and updates of
    snark accounts with their proofs) and ASM manifests, the records of L1 blocks;
    the last block of an epoch, its terminal, processes the logs of the buffered
    manifests, which bring in deposits and key updates.  An execution environment
    (EE) is a snark account of that ledger.  The parts, under [src/crates], and how
    they interact:

    - [acct-types], [snark-acct-types], [ol/chain-types], [ledger-types],
      [bridge-params], [bridge-types]: data and its limits;
    - [snark-acct-sys]: the checks of a snark account update, against any proof
      verifier;
    - [ol/state-types]: the state (accounts table, global, epochal and
      intraepoch sections), write batches and their application;
    - [ol/state-support-types]: the layers through which the state is accessed
      (in memory, write tracking, batch diff, indexer, DA accumulating), all
      behind the traits of [ledger-types/src/state_accessor.rs];
    - [ol/stf]: the state transition function, written against these traits:
      block verification, block construction, and the verification of an epoch
      from its diff;
    - [ol/genesis]: the genesis state and block;
    - [da-framework], [ol/da]: the diff of an epoch, its wire format, and its
      application to a state;
    - [ol/checkpoint]: the worker that replays every finished epoch over the DA
      accumulating layer and stores a checkpoint payload;
    - [proof-impl/checkpoint]: the program that proves a checkpoint; it executes
      the blocks again, and rebuilds the epoch from the diff;
    - [ol/mempool]: the pending transactions, validated against the chain tip;
    - [ol/block-assembly]: the sequencer's assembler, which stages mempool
      transactions on a parent over a write-tracking and an accumulating layer,
      ends epochs before their checkpoint outgrows its limits, and keeps the
      templates that wait for a signature;
    - [consensus-logic]: the tree of unfinalized blocks, the plan of a tip update,
      and the fork choice manager that executes blocks, follows the highest tip
      and finalizes epochs;
    - [snark-acct-runtime]: the frame of every snark account program, with the
      verification of an update, its reconstruction outside the proof, and the
      builder of updates;
    - [ee-chain-types], [ee-acct-types], [ee-chunk-runtime], [ee-acct-runtime]: the
      program of an execution environment: chunks of blocks are proved one by one,
      and an update of the account is verified from these proofs.

    ** How the code is modelled

    Operations keep the names of the source, with the type in front where the name
    alone is ambiguous.  A fallible function returns [res E A] ([Ok], [Err], or
    [Panic] for [expect], [unwrap] and indexing out of range); a method on
    [&mut self] is in the monad [M E S A], which also says what the state is after
    a failure.  Machine integers are [Z] with the wrap-around, checks and
    saturation of each operation written out; [usize] counts of loops are natural
    numbers.  Traits are type classes, their implementors instances.  Code outside
    [src/] (hashes and SSZ roots, codecs, MMRs, Merkle proofs, predicates, ASM
    logs, Bitcoin amounts) consists of the fields of the classes [ExtTypes], [Ext],
    [ExtRoot], [CodecExt], [PredicateExt], [DaExt], [CheckpointExt], [RuntimeExt]
    and [EeExt].  The databases, indexes and services a component talks to are the
    methods of its context trait and make one class each: [FcmContext],
    [MempoolStorage], [BlockAssemblyContext], and the context of the checkpoint
    worker; an execution environment is an instance of [ExecutionEnvironment].
    What the code relies on is in the law classes next to them ([MmrLaws],
    [CodecLaws], [FcmLaws], [MempoolLaws], [RuntimeLaws], [EeLaws], ...), which are
    hypotheses of the theorems that need them.  Clock readings are arguments.  Hash
    maps are finite maps, iterated in an order nothing proved depends on.
    [Concrete] and [ConcreteDa], and the witness files for the contexts, have
    executable instances that satisfy all the laws.

    ** Files

    - [Prelude], [SortedMap]: integers, the monads with their tactics and hints,
      sorted association lists as finite maps.
    - [Identifiers], [Externals], [CodecTypes]: external types, functions, laws.
    - [AcctTypes], [ChainTypes], [LedgerTypes], [Bridge]: the data crates, [Bridge]
      with the deposit descriptor codec and its properties.
    - [OLAccount], [WriteBatch], [OLState]: [ol/state-types].
    - [StateAccessor]: the accessor traits, with simulations between
      implementors ([ReadSim], [StateSim]).
    - [MemoryLayer], [WriteTracking], [BatchDiff], [IndexerLayer], [DaLayer]:
      one file per layer of [ol/state-support-types].
    - [LedgerSpec]: the abstract ledger [LState], a finite map of accounts with
      an index by serial, the meaning [ls_apply] of a batch, and the promise that a
      layer refines them; [BatchApply]: [apply_write_batch] refines [ls_apply].
    - [SnarkSys]: [snark-acct-sys] and [ol/stf/src/proof_verification.rs];
      [SnarkProofs]: the two verifiers.
    - [StfContext], [StfTx], [StfManifests], [StfBlock]: the modules of [ol/stf],
      one operation per function.
    - [StfSim], [LayerProps], [IndexerSpec], [DaSim]: the STF over the layers.
    - [StfAgreement], [StfLedger], [StfUpdates], [StfManifestSpec], [StfValue],
      [StfProgress], [StfSafety], [BlockSafety]: the STF itself.
    - [Varint64], [DaFramework], [DaQueue]: [da-framework]; [OLDaTypes],
      [OLDaSpec], [OLDaApply]: [ol/da].
    - [DaDiff], [DaEpoch], [DaReplay]: from the accumulator to the blob and back to
      the state; [DaSize]: the size estimate of the accumulator.
    - [Genesis]: [ol/genesis].
    - [CheckpointWorker]: [proof-impl/checkpoint] and [ol/checkpoint];
      [CheckpointSpec], [CheckpointService]: their properties.
    - [Mempool]: [ol/mempool]; [MempoolSpec]: its invariants; [MempoolOps],
      [MempoolProps]: its commands and its runs.
    - [Tracker], [TrackerFinal]: [unfinalized_tracker], with attaching in the first
      and finalization in the second; [TipUpdate]: [tip_update.rs]; [ForkChoice]:
      [fcm] and the loading of the tracker; [ForkChoiceSpec], [ForkChoiceInit]: its
      messages and its startup.
    - [EpochSealing], [BlockAssembly], [TemplateService]: [ol/block-assembly];
      [BlockAssemblySpec], [AssemblyLimits], [ResourceReplay], [TemplateSpec]: what
      is assembled, its limits, the resources of an epoch, and the template cache.
    - [SnarkRuntime]: [snark-acct-runtime], with its theorems; [EeRuntime]: the
      crates of execution environments; [EeSpec]: what verified chunks and updates
      mean, and the builder.
    - [Concrete], [ConcreteDa], [Witnesses], [DaWitnesses], [FcmWitnesses],
      [MempoolWitnesses], [AssemblyWitnesses], [EeWitnesses]: a small chain, a node
      and an execution environment computed over the concrete instances, at which
      every theorem with hypotheses is applied.

    ** What the theorems show

    - Layers.  The STF has the same outcome, logs and final state over the
      in-memory layer, over a write-tracking layer whose batch is then committed,
      and over write tracking on batch diffs; the indexer layer changes nothing
      and records exactly what was written.  These follow from [StfSim]: the STF
      preserves every simulation of accessors.
    - Blocks.  A block that construction completes verifies.  Whatever the outcome,
      the ledger invariant holds afterwards; a verified block advances slot,
      epoch, last L1 block, L1 block MMR and pending logs as its header and
      manifests say, conserves
      value up to deposits and withdrawals, and emits the logs it should.  Updates
      are accepted once.  No block within its wire bounds makes verification
      panic, and every field stays within its machine type.
    - Epochs.  The blob that the DA accumulator yields for an epoch decodes, and
      applied to the state before the epoch it leads to the state after it.  The
      proof program accepts what the checkpoint worker extracts, and the blocks it
      accepts are blocks that verify.
    - Checkpoint service.  It catches up with all summarized epochs when their
      data is there, and otherwise stops in front of the first one it cannot
      build, to resume there.
    - Mempool.  Through starts, restarts and inputs over a database that does not
      fail, its views and the database agree and its limits hold, and transactions
      are handed out by age if they come in order; submitting, reporting and chain
      updates do what they promise on every branch.  Over a database that may fail
      at any time, its views of the entries and its limits still hold
      ([faulty_run_core]).
    - Fork choice.  The tracker stays a tree over its finalized block, finalization
      keeps exactly the descendants, tip updates follow the tree, and the manager
      follows the longest chain with the canonical index in step; startup on a
      consistent storage succeeds and establishes the invariant.
    - Block assembly.  Every template verifies on its parent with the logs that were
      counted; an epoch never passes the hard limits of its checkpoint; the
      resources threaded from block to block are those a replay rebuilds; the
      template cache is consistent, and a persisted parent is not reused.
    - Snark account programs.  An update that verifies is the one that is
      reconstructed from its manifest.  What the builder prepares, however its
      operations were used, verifies exactly if an undisturbed builder prepares
      the same.
    - Execution environments.  A chunk transition is accepted exactly if the blocks
      execute to it; an accepted update is an execution from the account's last
      block to the new one that takes in the pending deposits in order and sends
      exactly the declared outputs; what the builder builds is accepted.
    - Data structures and codecs.  The accounts table and serial map are finite
      maps; varints, deposit descriptors and DA payloads round-trip, and the bytes
      that decode as a varint are characterized exactly.
    - Divergences.  Some theorems show behaviour the code does not mean to have: the
      recorded total ledger balance is not maintained; varints drop bits past 64; a
      queue write that consumes its own entries loses others; the size estimate can
      be one byte too low; a finalized tip stays attachable; two transactions in the
      same microsecond, or a replaced one, corrupt the ordering index of the mempool,
      and a replaced one makes a restart delete its successor; and the private input
      an environment's builder builds is refused if the chunks it verifies have
      outputs.

    ** Bounds and fuel

    Loops over data are structural.  The others carry fuel: the varint encoder
    (ten rounds) and decoder (eleven), which shift seven bits per byte and for
    which [Varint64] shows the fuel is never used up, the decoder stopping at its
    own bound after at most eleven bytes; the walk of the checkpoint
    worker from a terminal back to its predecessor ([collect_blocks]), for which
    [CheckpointService] shows that the length of the chain is enough; the
    bisection of the accounts table, whose fuel is its length; the walks of the
    tracker along parents and descendants, whose fuel is the size of the table,
    which [TrackerFinal] shows is enough on every tracker that arises; the loading
    of blocks at startup and the collection of rejected blocks, for which
    [ForkChoiceInit] shows that the fuel it asks for makes startup succeed; the
    walk of the mempool back along new blocks, whose fuel is the distance of the
    slots, each step going back at least one; and the collection of an epoch's
    blocks in block assembly, for which [ResourceReplay] shows that one round more
    than the parent needed is enough for the next block.

    ** Not modelled

    The services that only move data: databases and their caches, RPC, Bitcoin
    reader and writer, checkpoint sync, chain worker, sequencer duties, signer,
    prover hosts, binaries and configuration, and the builders, channels and handles
    of the modelled services (of the mempool's builder, the loading is modelled).
    An operation of the mempool runs to its end: a process that dies in the middle
    of one is not modelled.  The ordering index of the mempool is a list searched
    from the front, which is what the source's tree map does as long as the keys
    are totally ordered; where they are not, the tree map may search in another
    order.  The EVM execution environment, which runs inside
    external engines, with its node, its DA and the guest programs that wrap the
    modelled runtimes.  SSZ, rkyv and codec derivations, which are generated code.
    Of the modelled crates, left out are the extractor that finds DA blobs in L1
    transactions, the setters of DA registers and the unchecked counter setters,
    the service builder and database context of the checkpoint worker, the zkVM I/O
    of the proof program, the input multiplexer of the fork choice manager, metrics
    and logging, the text of errors, and the commit segments and block assembler of
    execution environments. *)

From Stdlib Require Export ZArith Lia List Bool.
From stdpp Require Export base tactics option list sorting gmap.

#[global] Open Scope Z_scope.

(** ** Machine integers

    A [w]-bit unsigned integer is a [Z]; the operations below spell out what the
    source does at the edge of the width.  Plain [+] and [-] on machine integers
    wrap (the release profile of the workspace does not enable overflow checks),
    [checked_*] return an option. *)

Definition U16_MAX : Z := 65535.
Definition U32_MAX : Z := 4294967295.
Definition U64_MAX : Z := 18446744073709551615.
Definition I64_MIN : Z := -9223372036854775808.

Definition in_u8 (x : Z) : Prop := 0 <= x <= 255.
Definition in_u16 (x : Z) : Prop := 0 <= x <= U16_MAX.
Definition in_u32 (x : Z) : Prop := 0 <= x <= U32_MAX.
Definition in_u64 (x : Z) : Prop := 0 <= x <= U64_MAX.

Definition wrap_u32 (x : Z) : Z := x mod (U32_MAX + 1).
Definition wrap_u64 (x : Z) : Z := x mod (U64_MAX + 1).

(** [as i64]: reinterpret the low 64 bits as a two's complement integer. *)
Definition wrap_i64 (x : Z) : Z := (x - I64_MIN) mod (U64_MAX + 1) + I64_MIN.

Definition checked_add_u32 (x y : Z) : option Z :=
  if x + y <=? U32_MAX then Some (x + y) else None.
Definition checked_add_u64 (x y : Z) : option Z :=
  if x + y <=? U64_MAX then Some (x + y) else None.
Definition checked_sub (x y : Z) : option Z :=
  if y <=? x then Some (x - y) else None.
Definition saturating_add_u64 (x y : Z) : Z := Z.min (x + y) U64_MAX.

(** Length of a list as a machine integer ([usize] is 64 bits wide here). *)
Definition zlen {A} (l : list A) : Z := Z.of_nat (length l).

(** Unfolds the width constants, so that [lia] sees numerals. *)
Ltac unfold_widths :=
  unfold in_u8, in_u16, in_u32, in_u64, wrap_u32, wrap_u64, wrap_i64,
    checked_add_u32, checked_add_u64, checked_sub, saturating_add_u64,
    U16_MAX, U32_MAX, U64_MAX, I64_MIN in *.

(** Splits every boolean comparison of the goal and the context into the
    proposition it decides. *)
Ltac zbool :=
  repeat match goal with
  | H : (_ <=? _) = true |- _ => apply Z.leb_le in H
  | H : (_ <=? _) = false |- _ => apply Z.leb_gt in H
  | H : (_ <? _) = true |- _ => apply Z.ltb_lt in H
  | H : (_ <? _) = false |- _ => apply Z.ltb_ge in H
  | H : (_ =? _) = true |- _ => apply Z.eqb_eq in H
  | H : (_ =? _) = false |- _ => apply Z.eqb_neq in H
  | H : negb _ = true |- _ => apply negb_true_iff in H
  | H : negb _ = false |- _ => apply negb_false_iff in H
  | H : andb _ _ = true |- _ => apply andb_true_iff in H as [? ?]
  | H : orb _ _ = false |- _ => apply orb_false_iff in H as [? ?]
  end.

(** Case analysis on the scrutinee of the outermost [match]/[if] of a goal or
    hypothesis, remembering the equation. *)
Ltac case_step :=
  match goal with
  | |- context [match ?x with _ => _ end] => destruct x eqn:?
  | H : context [match ?x with _ => _ end] |- _ => destruct x eqn:?
  end.

(** ** Results

    Fallible code returns [res]: a value, an error, or [Panic] for every
    [expect], [assert!], [panic!] and for a live [Coin] being dropped. *)

Inductive res (E A : Type) : Type :=
| Ok (a : A)
| Err (e : E)
| Panic.
Arguments Ok {E A} a.
Arguments Err {E A} e.
Arguments Panic {E A}.

Definition res_bind {E A B} (r : res E A) (k : A -> res E B) : res E B :=
  match r with Ok a => k a | Err e => Err e | Panic => Panic end.

Definition res_map_err {E F A} (f : E -> F) (r : res E A) : res F A :=
  match r with Ok a => Ok a | Err e => Err (f e) | Panic => Panic end.

Definition res_ok {E A} (r : res E A) : option A :=
  match r with Ok a => Some a | _ => None end.

(** [Option::ok_or] and [Option::expect]. *)
Definition ok_or {E A} (o : option A) (e : E) : res E A :=
  match o with Some a => Ok a | None => Err e end.
Definition expect {E A} (o : option A) : res E A :=
  match o with Some a => Ok a | None => Panic end.

Definition is_ok {E A} (r : res E A) : bool :=
  match r with Ok _ => true | _ => false end.

(** ** Stateful computations

    [&mut] state is threaded explicitly.  The state is also returned next to an
    error, since the source mutates in place and leaves partial writes behind. *)

Definition M (E S A : Type) : Type := S -> res E A * S.

Definition mret {E S A} (a : A) : M E S A := fun s => (Ok a, s).
Definition merr {E S A} (e : E) : M E S A := fun s => (Err e, s).
Definition mpanic {E S A} : M E S A := fun s => (Panic, s).
Definition mlift {E S A} (r : res E A) : M E S A := fun s => (r, s).
Definition mreads {E S A} (f : S -> A) : M E S A := fun s => (Ok (f s), s).
Definition mreads_res {E S A} (f : S -> res E A) : M E S A := fun s => (f s, s).
Definition mmodify {E S} (f : S -> S) : M E S unit := fun s => (Ok tt, f s).

Definition mbind {E S A B} (m : M E S A) (k : A -> M E S B) : M E S B := fun s =>
  match m s with
  | (Ok a, s') => k a s'
  | (Err e, s') => (Err e, s')
  | (Panic, s') => (Panic, s')
  end.

Definition mmap_err {E F S A} (f : E -> F) (m : M E S A) : M F S A := fun s =>
  let '(r, s') := m s in (res_map_err f r, s').

(** [m.expect(..)]: an error becomes a panic. *)
Definition mexpect {E F S A} (m : M E S A) : M F S A := fun s =>
  match m s with
  | (Ok a, s') => (Ok a, s')
  | (_, s') => (Panic, s')
  end.

(** [match m { Ok(a) => a, Err(e) => h(e) }]: the state [m] leaves is kept. *)
Definition mcatch {E F S A} (m : M E S A) (h : E -> M F S A) : M F S A := fun s =>
  match m s with
  | (Ok a, s') => (Ok a, s')
  | (Err e, s') => h e s'
  | (Panic, s') => (Panic, s')
  end.

(** [for x in l { f(x)?; }] *)
Fixpoint miter {E S A} (f : A -> M E S unit) (l : list A) : M E S unit :=
  match l with
  | [] => mret tt
  | x :: l' => mbind (f x) (fun _ => miter f l')
  end.

(** [for (i, x) in l.iter().enumerate() { f(i, x)?; }], counting from [i]. *)
Fixpoint miteri {E S A} (f : Z -> A -> M E S unit) (i : Z) (l : list A) : M E S unit :=
  match l with
  | [] => mret tt
  | x :: l' => mbind (f i x) (fun _ => miteri f (i + 1) l')
  end.

Declare Scope m_scope.
Delimit Scope m_scope with M.

Notation "'let*' x := m 'in' k" := (mbind m (fun x => k))
  (at level 10, x pattern, m at level 100, k at level 200) : m_scope.
Notation "m ;;; k" := (mbind m (fun _ => k))
  (at level 199, right associativity) : m_scope.
Notation "'let!' x := m 'in' k" := (res_bind m (fun x => k))
  (at level 10, x pattern, m at level 100, k at level 200) : m_scope.

(** *** Loops with fuel

    [None] is a loop that has not ended within its fuel. *)
Definition dbind {E A B} (m : option (res E A)) (k : A -> option (res E B)) : option (res E B) :=
  match m with
  | Some (Ok a) => k a
  | Some (Err e) => Some (Err e)
  | Some Panic => Some Panic
  | None => None
  end.

(** A stateful computation that is run to its end, with the state it leaves. *)
Definition drun {E S A} (m : M E S A) (s : S) : option (res E (A * S)) :=
  match m s with
  | (Ok a, s') => Some (Ok (a, s'))
  | (Err e, _) => Some (Err e)
  | (Panic, _) => Some Panic
  end.

Notation "'let?' x := m 'in' k" := (dbind m (fun x => k))
  (at level 10, x pattern, m at level 100, k at level 200) : m_scope.

#[global] Open Scope m_scope.

(** ** Reasoning about computations *)

Lemma mbind_returns {E S A B} (m : M E S A) (k : A -> M E S B) s b s'' :
  mbind m k s = (Ok b, s'') ->
  exists a s', m s = (Ok a, s') /\ k a s' = (Ok b, s'').
Proof. unfold mbind. destruct (m s) as [[a|e|] s'] eqn:E'; intros ?; simplify_eq; eauto. Qed.

Lemma mbind_ok {E S A B} (m : M E S A) (k : A -> M E S B) s a s' :
  m s = (Ok a, s') -> mbind m k s = k a s'.
Proof. unfold mbind. intros ->. reflexivity. Qed.

Lemma mbind_mmodify {E S B} (f : S -> S) (k : unit -> M E S B) s :
  mbind (mmodify f) k s = k tt (f s).
Proof. reflexivity. Qed.

Lemma mbind_assoc {E S A B C} (m : M E S A) (k : A -> M E S B) (h : B -> M E S C) s :
  mbind (mbind m k) h s = mbind m (fun a => mbind (k a) h) s.
Proof. unfold mbind. destruct (m s) as [[]]; reflexivity. Qed.

Lemma mmap_err_returns {E F S A} (f : E -> F) (m : M E S A) s a s' :
  mmap_err f m s = (Ok a, s') -> m s = (Ok a, s').
Proof. unfold mmap_err. destruct (m s) as [[]]; simpl; intros; simplify_eq; reflexivity. Qed.

Lemma miter_app {E S A} (f : A -> M E S unit) (l1 l2 : list A) s :
  miter f (l1 ++ l2) s = mbind (miter f l1) (fun _ => miter f l2) s.
Proof.
  revert s. induction l1 as [|x l1 IH]; intros s; simpl; [reflexivity|].
  rewrite mbind_assoc. unfold mbind at 1 2. destruct (f x s) as [[]]; auto.
Qed.

(** Inverts a successful run of a sequence of binds into the runs of its parts. *)
Ltac minv :=
  repeat match goal with
  | H : mbind _ _ _ = (Ok _, _) |- _ =>
      let a := fresh "a" in let s := fresh "st" in let H1 := fresh "Hm" in
      apply mbind_returns in H as (a & s & H1 & H)
  | H : mret _ _ = (Ok _, _) |- _ => unfold mret in H; simplify_eq
  | H : mlift _ _ = (Ok _, _) |- _ => unfold mlift in H; simplify_eq
  | H : mreads _ _ = (Ok _, _) |- _ => unfold mreads in H; simplify_eq
  | H : merr _ _ = (Ok _, _) |- _ => unfold merr in H; simplify_eq
  | H : mpanic _ = (Ok _, _) |- _ => unfold mpanic in H; simplify_eq
  | H : mmodify _ _ = (Ok _, _) |- _ => unfold mmodify in H; simplify_eq
  end.

(** *** Relations a computation establishes between its pre- and post-state.

    [keeps R m]: whatever the outcome of [m], the state it leaves is related by
    [R] to the state it started from. *)
Section keeps.
Context {E S : Type} (R : relation S) `{!PreOrder R}.

Definition keeps {A} (m : M E S A) : Prop := forall s, R s (snd (m s)).

Lemma keeps_mret {A} (a : A) : keeps (mret a).
Proof. intros s. reflexivity. Qed.
Lemma keeps_merr {A} e : keeps (merr (A := A) e).
Proof. intros s. reflexivity. Qed.
Lemma keeps_mpanic {A} : keeps (mpanic (A := A)).
Proof. intros s. reflexivity. Qed.
Lemma keeps_mlift {A} (r : res E A) : keeps (mlift r).
Proof. intros s. reflexivity. Qed.
Lemma keeps_mreads {A} (f : S -> A) : keeps (mreads f).
Proof. intros s. reflexivity. Qed.
Lemma keeps_mreads_res {A} (f : S -> res E A) : keeps (mreads_res f).
Proof. intros s. reflexivity. Qed.

Lemma keeps_mbind {A B} (m : M E S A) (k : A -> M E S B) :
  keeps m -> (forall a, keeps (k a)) -> keeps (mbind m k).
Proof.
  intros Hm Hk s. unfold mbind. specialize (Hm s).
  destruct (m s) as [[a|e|] s']; simpl in *; auto. etransitivity; [exact Hm|apply Hk].
Qed.

Lemma keeps_miter {A} (f : A -> M E S unit) l :
  (forall x, keeps (f x)) -> keeps (miter f l).
Proof.
  intros Hf. induction l as [|x l IH]; simpl; [apply keeps_mret|].
  apply keeps_mbind; auto.
Qed.

Lemma keeps_miteri {A} (f : Z -> A -> M E S unit) i l :
  (forall j x, keeps (f j x)) -> keeps (miteri f i l).
Proof.
  intros Hf. revert i. induction l as [|x l IH]; intros i; simpl; [apply keeps_mret|].
  apply keeps_mbind; auto.
Qed.
End keeps.

Lemma keeps_mmap_err {E F S A} (R : relation S) (f : E -> F) (m : M E S A) :
  keeps R m -> keeps R (mmap_err f m).
Proof. intros Hm s. unfold mmap_err. specialize (Hm s). destruct (m s). exact Hm. Qed.

(** The step a successful computation took. *)
Lemma keeps_ok {E S A} (R : relation S) (m : M E S A) s a s' : keeps R m -> m s = (Ok a, s') -> R s s'.
Proof. intros Hk Hm. specialize (Hk s). by rewrite Hm in Hk. Qed.

(** *** Simulation between computations over two state types.

    [sim R m1 m2]: from related states both computations have the same outcome,
    and unless that outcome is a panic they leave related states. *)
Definition sim {E S1 S2 A} (R : S1 -> S2 -> Prop) (m1 : M E S1 A) (m2 : M E S2 A) : Prop :=
  forall s1 s2, R s1 s2 ->
    fst (m1 s1) = fst (m2 s2) /\ (fst (m1 s1) <> Panic -> R (snd (m1 s1)) (snd (m2 s2))).

Create HintDb sim discriminated.

Section sim.
Context {E S1 S2 : Type} (R : S1 -> S2 -> Prop).

Lemma sim_mret {A} (a : A) : sim (E := E) R (mret a) (mret a).
Proof. intros s1 s2 Hs. split; auto. Qed.
Lemma sim_merr {A} (e : E) : sim (A := A) R (merr e) (merr e).
Proof. intros s1 s2 Hs. split; auto. Qed.
Lemma sim_mpanic {A} : sim (E := E) (A := A) R mpanic mpanic.
Proof. intros s1 s2 Hs. split; auto. Qed.
Lemma sim_mlift {A} (r : res E A) : sim R (mlift r) (mlift r).
Proof. intros s1 s2 Hs. split; auto. Qed.
Lemma sim_mreads {A} (f1 : S1 -> A) (f2 : S2 -> A) :
  (forall s1 s2, R s1 s2 -> f1 s1 = f2 s2) -> sim (E := E) R (mreads f1) (mreads f2).
Proof. intros Hf s1 s2 Hs. unfold mreads. simpl. rewrite (Hf _ _ Hs). auto. Qed.
Lemma sim_mreads_res {A} (f1 : S1 -> res E A) (f2 : S2 -> res E A) :
  (forall s1 s2, R s1 s2 -> f1 s1 = f2 s2) -> sim R (mreads_res f1) (mreads_res f2).
Proof. intros Hf s1 s2 Hs. unfold mreads_res. simpl. rewrite (Hf _ _ Hs). auto. Qed.

Lemma sim_mbind {A B} (m1 : M E S1 A) (m2 : M E S2 A) (k1 : A -> M E S1 B) (k2 : A -> M E S2 B) :
  sim R m1 m2 -> (forall a, sim R (k1 a) (k2 a)) -> sim R (mbind m1 k1) (mbind m2 k2).
Proof.
  intros Hm Hk s1 s2 Hs. destruct (Hm _ _ Hs) as [Hr Hst]. unfold mbind.
  destruct (m1 s1) as [r1 t1], (m2 s2) as [r2 t2]; simpl in *; subst r2.
  destruct r1 as [a|e|]; simpl; [apply Hk, Hst; done|split; auto|split; [done|congruence]].
Qed.

Lemma sim_miter {A} (f1 : A -> M E S1 unit) (f2 : A -> M E S2 unit) l :
  (forall x, sim R (f1 x) (f2 x)) -> sim R (miter f1 l) (miter f2 l).
Proof.
  intros Hf. induction l as [|x l IH]; simpl; [apply sim_mret|]. apply sim_mbind; auto.
Qed.

Lemma sim_miteri {A} (f1 : Z -> A -> M E S1 unit) (f2 : Z -> A -> M E S2 unit) i l :
  (forall j x, sim R (f1 j x) (f2 j x)) -> sim R (miteri f1 i l) (miteri f2 i l).
Proof.
  intros Hf. revert i. induction l as [|x l IH]; intros i; simpl; [apply sim_mret|].
  apply sim_mbind; auto.
Qed.
End sim.

Lemma sim_mmap_err {E F S1 S2 A} (R : S1 -> S2 -> Prop) (f : E -> F)
    (m1 : M E S1 A) (m2 : M E S2 A) :
  sim R m1 m2 -> sim R (mmap_err f m1) (mmap_err f m2).
Proof.
  intros Hm s1 s2 Hs. destruct (Hm _ _ Hs) as [Hr Hst]. unfold mmap_err.
  destruct (m1 s1) as [r1 t1], (m2 s2) as [r2 t2]; simpl in *; subst r2.
  split; [done|]. intros Hp. apply Hst. destruct r1; simpl in *; congruence.
Qed.

#[export] Hint Resolve sim_mret sim_merr sim_mpanic sim_mlift : sim.

(** ** Lists *)

Lemma zlen_nonneg {A} (l : list A) : 0 <= zlen l.
Proof. unfold zlen. lia. Qed.

Lemma zlen_app {A} (l1 l2 : list A) : zlen (l1 ++ l2) = zlen l1 + zlen l2.
Proof. unfold zlen. rewrite length_app. lia. Qed.

Lemma zlen_cons {A} (x : A) l : zlen (x :: l) = zlen l + 1.
Proof. unfold zlen. simpl. lia. Qed.

Lemma zlen_nil {A} : zlen (@nil A) = 0.
Proof. reflexivity. Qed.

Create Rewrite HintDb zlen.
#[export] Hint Rewrite @zlen_app @zlen_cons @zlen_nil : zlen.

(** Sum of a list of integers. *)
Definition zsum (l : list Z) : Z := fold_right Z.add 0 l.

Lemma zsum_app l1 l2 : zsum (l1 ++ l2) = zsum l1 + zsum l2.
Proof. unfold zsum. induction l1 as [|x l1 IH]; simpl in *; lia. Qed.

Lemma zsum_nonneg l : Forall (fun x => 0 <= x) l -> 0 <= zsum l.
Proof. unfold zsum. induction 1; simpl in *; lia. Qed.

Lemma zsum_perm l1 l2 : Permutation l1 l2 -> zsum l1 = zsum l2.
Proof. unfold zsum. induction 1; simpl in *; lia. Qed.

(** ** Bits *)

(** Disjoint bits add up. *)
Lemma lor_shiftl_add a b n : 0 <= n -> 0 <= b < 2 ^ n -> Z.lor (Z.shiftl a n) b = a * 2 ^ n + b.
Proof.
  intros Hn Hb. rewrite <- Z.shiftl_mul_pow2 by done. symmetry. apply Z.add_nocarry_lor.
  apply Z.bits_inj'. intros i Hi. rewrite Z.land_spec, Z.bits_0, Z.shiftl_spec by done.
  destruct (Z.lt_ge_cases i n) as [Hlt|Hge].
  - by rewrite (Z.testbit_neg_r a) by lia.
  - destruct (Z.eq_dec b 0) as [->|Hnz]; [by rewrite Z.bits_0, andb_false_r|].
    rewrite (Z.bits_above_log2 b i); [by rewrite andb_false_r|lia|].
    apply Z.log2_lt_pow2; [lia|]. eapply Z.lt_le_trans; [apply Hb|]. by apply Z.pow_le_mono_r.
Qed.

Lemma land_low m n : 0 <= n -> Z.land m (2 ^ n - 1) = m mod 2 ^ n.
Proof. intros Hn. rewrite <- Z.land_ones by done. by rewrite Z.ones_equiv, Z.sub_1_r. Qed.

Lemma lor_lt_pow2 a b n : 0 <= a < 2 ^ n -> 0 <= b < 2 ^ n -> 0 <= Z.lor a b < 2 ^ n.
Proof.
  intros Ha Hb. split; [apply Z.lor_nonneg; lia|].
  destruct (Z.eq_dec (Z.lor a b) 0) as [->|Hnz]; [lia|].
  assert (0 < Z.lor a b) by (pose proof (Z.lor_nonneg a b); lia).
  apply Z.log2_lt_pow2; [done|]. rewrite Z.log2_lor by lia.
  assert (Hn : 0 <= n) by (apply Z.nlt_ge; intros ?; rewrite Z.pow_neg_r in Ha by done; lia).
  destruct (Z.eq_dec a 0) as [->|]; destruct (Z.eq_dec b 0) as [->|]; simpl.
  - by rewrite Z.lor_0_r in Hnz.
  - apply Z.max_lub_lt; [|apply Z.log2_lt_pow2; lia].
    eapply Z.le_lt_trans; [|apply (Z.log2_lt_pow2 b n); lia]. apply Z.log2_nonneg.
  - apply Z.max_lub_lt; [apply Z.log2_lt_pow2; lia|].
    eapply Z.le_lt_trans; [|apply (Z.log2_lt_pow2 a n); lia]. apply Z.log2_nonneg.
  - apply Z.max_lub_lt; apply Z.log2_lt_pow2; lia.
Qed.

(** A decidable property of the integers below [n], by evaluation. *)
Lemma below_forall (n : nat) (P : Z -> bool) :
  forallb P (map Z.of_nat (seq 0 n)) = true -> forall d, 0 <= d < Z.of_nat n -> P d = true.
Proof.
  intros Hf d Hd. rewrite forallb_forall in Hf. apply Hf, in_map_iff.
  exists (Z.to_nat d). split; [lia|]. apply in_seq. lia.
Qed.

(** ** Sorting *)

(** [slice::sort_by_key] with an integer key. *)
Definition by_key {T} (key : T -> Z) (a b : T) : Prop := key a <= key b.

#[export] Instance by_key_dec {T} (key : T -> Z) : RelDecision (by_key key).
Proof. intros a b. unfold by_key. apply _. Defined.
#[export] Instance by_key_total {T} (key : T -> Z) : Total (by_key key).
Proof. intros a b. unfold by_key. lia. Qed.
#[export] Instance by_key_trans {T} (key : T -> Z) : Transitive (by_key key).
Proof. intros a b c. unfold by_key. lia. Qed.

Definition sort_by_key {T} (key : T -> Z) : list T -> list T := merge_sort (by_key key).

Lemma sort_by_key_perm {T} (key : T -> Z) l : sort_by_key key l ≡ₚ l.
Proof. apply merge_sort_Permutation. Qed.

Lemma sort_by_key_sorted {T} (key : T -> Z) l : StronglySorted (by_key key) (sort_by_key key l).
Proof. apply StronglySorted_merge_sort; apply _. Qed.
