(* ===== verification/SortedMap.v ===== *)
(** * Sorted association lists and finite maps

    The source keeps tables both as vectors sorted by key and as [BTreeMap]s.
    This file relates a list of pairs with strictly increasing keys to the
    finite map it denotes, gives the ascending iteration order of a map, and
    sums a quantity over the values of a map. *)

From S2P Require Import Prelude.

Lemma strongly_sorted_lookup {A} (R : A -> A -> Prop) l :
  StronglySorted R l -> forall i j x y, l !! i = Some x -> l !! j = Some y -> (i < j)%nat -> R x y.
Proof.
  induction 1 as [|a l _ IH Ha]; intros [|i] [|j] x y Hx Hy Hij; simpl in *; try done; try lia.
  - injection Hx as <-. rewrite Forall_forall in Ha. by apply Ha, (list_elem_of_lookup_2 _ j).
  - apply (IH i j); [done..|lia].
Qed.

Section sorted_map.
Context {A : Type}.
Implicit Types (l : list (Z * A)) (m : gmap Z A) (k : Z) (v : A).

Definition key_lt (p q : Z * A) : Prop := p.1 < q.1.
Definition key_le (p q : Z * A) : Prop := p.1 <= q.1.

#[local] Instance key_le_dec p q : Decision (key_le p q).
Proof. unfold key_le. apply _. Defined.
#[local] Instance key_le_trans : Transitive key_le.
Proof. intros ???. unfold key_le. lia. Qed.
#[local] Instance key_le_total : Total key_le.
Proof. intros x y. unfold key_le. lia. Qed.

(** Strictly increasing keys. *)
Definition keys_sorted l : Prop := StronglySorted key_lt l.

(** Ascending iteration over a map ([BTreeMap::iter]). *)
Definition btree_iter m : list (Z * A) := merge_sort key_le (map_to_list m).

Lemma keys_sorted_lookup l i j p q :
  keys_sorted l -> l !! i = Some p -> l !! j = Some q -> (i < j)%nat -> p.1 < q.1.
Proof. intros Hs. apply (strongly_sorted_lookup _ _ Hs). Qed.

Lemma keys_sorted_NoDup l : keys_sorted l -> NoDup l.*1.
Proof.
  induction 1 as [|a l Hs IH Hall]; [constructor|]. simpl. constructor; [|done].
  intros ([k v] & Heq & Hin)%list_elem_of_fmap. rewrite Forall_forall in Hall.
  apply Hall in Hin. unfold key_lt in Hin. simpl in *. lia.
Qed.

Lemma keys_sorted_lookup_map l i k v :
  keys_sorted l -> l !! i = Some (k, v) -> (list_to_map l : gmap Z A) !! k = Some v.
Proof.
  intros Hs Hi. apply elem_of_list_to_map_1; [by apply keys_sorted_NoDup|].
  by eapply list_elem_of_lookup_2.
Qed.

Lemma map_lookup_index l k v :
  (list_to_map l : gmap Z A) !! k = Some v -> exists i, l !! i = Some (k, v).
Proof. intros H. apply elem_of_list_to_map_2 in H. by apply list_elem_of_lookup_1 in H. Qed.

(** Inserting a fresh key at the position that separates smaller from larger. *)
Lemma keys_sorted_insert_at l i k v :
  keys_sorted l ->
  (forall j p, l !! j = Some p -> (j < i)%nat -> p.1 < k) ->
  (forall j p, l !! j = Some p -> (i <= j)%nat -> k < p.1) ->
  keys_sorted (take i l ++ (k, v) :: drop i l) /\
  list_to_map (take i l ++ (k, v) :: drop i l) = <[k := v]> (list_to_map l : gmap Z A).
Proof.
  intros Hs Hlo Hhi. rewrite <- (take_drop i l) in Hs. apply StronglySorted_app in Hs as (Hx & H1 & H2).
  assert (Ht : forall p, p ∈ take i l -> p.1 < k).
  { intros p (j & Hj)%list_elem_of_lookup_1. apply lookup_take_Some in Hj as [Hj Hlt]. eauto. }
  assert (Hd : forall p, p ∈ drop i l -> k < p.1).
  { intros p (j & Hj)%list_elem_of_lookup_1. rewrite lookup_drop in Hj. eapply Hhi; [exact Hj|lia]. }
  split.
  - apply StronglySorted_app. repeat split; [|done|].
    + intros p q Hp Hq. apply elem_of_cons in Hq as [->|Hq]; [by apply Ht|by apply Hx].
    + constructor; [done|]. apply Forall_forall. intros q Hq. by apply Hd.
  - rewrite <- (take_drop i l) at 3. rewrite !list_to_map_app, list_to_map_cons.
    rewrite insert_union_r; [done|]. apply not_elem_of_list_to_map_1.
    intros ([k' v'] & Heq & Hin)%list_elem_of_fmap. apply Ht in Hin. simpl in *. lia.
Qed.

(** Updating the value at an index. *)
Lemma keys_sorted_alter_at l i k v v' :
  keys_sorted l -> l !! i = Some (k, v) ->
  keys_sorted (<[i := (k, v')]> l) /\
  list_to_map (<[i := (k, v')]> l) = <[k := v']> (list_to_map l : gmap Z A).
Proof.
  intros Hs Hi. assert (Hlen : (i < length l)%nat) by (by eapply lookup_lt_Some).
  assert (Hs' : keys_sorted (take i l ++ (k, v) :: drop (S i) l)).
  { by rewrite take_drop_middle. }
  rewrite insert_take_drop by done.
  apply StronglySorted_app in Hs' as (Hx & H1 & H2). apply StronglySorted_inv in H2 as [H2 H3].
  assert (Ht : k ∉ (take i l).*1).
  { intros ([k' w] & Heq & Hin)%list_elem_of_fmap. simpl in Heq. subst k'.
    specialize (Hx _ (k, v) Hin ltac:(by left)). unfold key_lt in Hx. simpl in Hx. lia. }
  split.
  - apply StronglySorted_app. repeat split; [|done|].
    + intros p q Hp Hq. apply elem_of_cons in Hq as [->|Hq]; [|apply Hx; [done|by right]].
      by apply (Hx _ (k, v) Hp); left.
    + constructor; [done|]. done.
  - rewrite <- (take_drop_middle l i (k, v)) at 3 by done.
    rewrite !list_to_map_app, !list_to_map_cons.
    rewrite insert_union_r by (by apply not_elem_of_list_to_map_1).
    by rewrite insert_insert_eq.
Qed.

(** Ascending iteration is sorted, denotes the map, and is the only such list. *)
Lemma btree_iter_perm m : btree_iter m ≡ₚ map_to_list m.
Proof. apply merge_sort_Permutation. Qed.

Lemma btree_iter_NoDup m : NoDup (btree_iter m).*1.
Proof. rewrite btree_iter_perm. apply NoDup_fst_map_to_list. Qed.

Lemma sorted_le_lt l : StronglySorted key_le l -> NoDup l.*1 -> keys_sorted l.
Proof.
  induction 1 as [|a l Hs IH Hall]; intros Hnd; [constructor|].
  simpl in Hnd. apply NoDup_cons in Hnd as [Hni Hnd]. constructor; [by apply IH|].
  rewrite Forall_forall in Hall |- *. intros q Hq. specialize (Hall q Hq). unfold key_le, key_lt in *.
  assert (a.1 <> q.1); [|lia]. intros Heq. apply Hni. rewrite Heq. by apply list_elem_of_fmap_2.
Qed.

Lemma btree_iter_sorted m : keys_sorted (btree_iter m).
Proof. apply sorted_le_lt; [apply StronglySorted_merge_sort; apply _|apply btree_iter_NoDup]. Qed.

Lemma btree_iter_map m : list_to_map (btree_iter m) = m.
Proof.
  rewrite (list_to_map_proper (btree_iter m) (map_to_list m)).
  - apply list_to_map_to_list.
  - apply btree_iter_NoDup.
  - apply btree_iter_perm.
Qed.

Lemma btree_iter_unique l : keys_sorted l -> btree_iter (list_to_map l) = l.
Proof.
  intros Hs. eapply (StronglySorted_unique_strong key_lt).
  - intros p q _ _. unfold key_lt. lia.
  - apply btree_iter_sorted.
  - done.
  - rewrite btree_iter_perm. apply map_to_list_to_map. by apply keys_sorted_NoDup.
Qed.

Lemma elem_of_btree_iter m k v : (k, v) ∈ btree_iter m <-> m !! k = Some v.
Proof. rewrite btree_iter_perm. apply elem_of_map_to_list. Qed.
End sorted_map.

(** ** Sums over the values of a map *)

Section map_sum.
Context {A : Type} (f : A -> Z).
Implicit Types (m : gmap Z A).

Definition map_sum m : Z := map_fold (fun _ v acc => f v + acc) 0 m.

Lemma map_sum_empty : map_sum ∅ = 0.
Proof. apply map_fold_empty. Qed.

Lemma map_sum_insert_new m k v : m !! k = None -> map_sum (<[k := v]> m) = f v + map_sum m.
Proof. intros Hk. unfold map_sum. rewrite map_fold_insert_L; [done|intros; lia|done]. Qed.

Lemma map_sum_delete m k v : m !! k = Some v -> map_sum m = f v + map_sum (delete k m).
Proof.
  intros Hk. rewrite <- (insert_delete_id m k v) at 1 by done.
  apply map_sum_insert_new, lookup_delete_eq.
Qed.

Lemma map_sum_insert m k v w :
  m !! k = Some w -> map_sum (<[k := v]> m) = map_sum m - f w + f v.
Proof.
  intros Hk. rewrite <- insert_delete_eq. rewrite map_sum_insert_new by apply lookup_delete_eq.
  rewrite (map_sum_delete m k w) by done. lia.
Qed.

Lemma map_sum_nonneg m : map_Forall (fun _ v => 0 <= f v) m -> 0 <= map_sum m.
Proof.
  induction m as [|k v m Hk IH] using map_ind; intros Hall; [by rewrite map_sum_empty|].
  rewrite map_sum_insert_new by done. apply map_Forall_insert in Hall as [Hv Hall]; [|done].
  specialize (IH Hall). lia.
Qed.

(** No value exceeds the sum of a map of non-negative values. *)
Lemma map_sum_lookup_le m k v :
  map_Forall (fun _ v => 0 <= f v) m -> m !! k = Some v -> f v <= map_sum m.
Proof.
  intros Hall Hk. rewrite (map_sum_delete m k v) by done.
  assert (0 <= map_sum (delete k m)); [|lia].
  apply map_sum_nonneg. by apply map_Forall_delete.
Qed.

Lemma map_sum_subseteq m1 m2 : map_Forall (fun _ v => 0 <= f v) m2 -> m1 ⊆ m2 -> map_sum m1 <= map_sum m2.
Proof.
  revert m2. induction m1 as [|k v m1 Hk IH] using map_ind; intros m2 Hall Hsub; [rewrite map_sum_empty; by apply map_sum_nonneg|].
  assert (Hk2 : m2 !! k = Some v) by (eapply lookup_weaken; [apply lookup_insert_eq|done]).
  rewrite map_sum_insert_new, (map_sum_delete m2 k v) by done. specialize (IH (delete k m2)).
  apply Zplus_le_compat_l, IH; [by apply map_Forall_delete|]. apply map_subseteq_spec. intros i w Hi.
  assert (i <> k) by congruence. rewrite lookup_delete_ne by done. eapply lookup_weaken; [|done]. by rewrite lookup_insert_ne.
Qed.

Lemma map_sum_list (l : list (Z * A)) :
  NoDup l.*1 -> map_sum (list_to_map l) = zsum (map (fun p => f p.2) l).
Proof.
  induction l as [|[k v] l IH]; intros Hnd; simpl; [apply map_sum_empty|].
  simpl in Hnd. apply NoDup_cons in Hnd as [Hni Hnd].
  rewrite map_sum_insert_new by (by apply not_elem_of_list_to_map_1).
  rewrite IH by done. reflexivity.
Qed.
End map_sum.

(** Sums depend on the summed values only. *)
Lemma map_sum_fmap {A} (f : A -> Z) (m : gmap Z A) : map_sum f m = map_sum id (f <$> m).
Proof.
  induction m as [|k v m Hk IH] using map_ind; [by rewrite fmap_empty, !map_sum_empty|].
  rewrite fmap_insert, !map_sum_insert_new, IH by (try done; by rewrite lookup_fmap, Hk). done.
Qed.
