(* ===== verification/Identifiers.v ===== *)
(** * Identifiers and external data

    The plain data the orchestration layer shares with its dependencies.  Types
    that are opaque to the code under [src/] (MMRs, Merkle proofs, predicate
    keys, ASM log entries, subject bytes, codec errors) are the fields of the
    class [ExtTypes]; every component is written against an arbitrary instance
    of it.  Fixed-width byte strings (account ids, hashes, block ids) are the
    non-negative integers their big-endian bytes denote, so that comparing them
    is the byte order the source uses. *)

From S2P Require Import Prelude.

Class ExtTypes := {
  Mmr64 : Type;
  RawMerkleProof : Type;
  PredicateKey : Type;
  AsmLogEntry : Type;
  SubjectIdBytes : Type;
  CodecError : Type;
}.

Abbreviation AccountId := Z (only parsing).
Abbreviation AccountSerial := Z (only parsing).
Abbreviation BitcoinAmount := Z (only parsing).
Abbreviation Buf32 := Z (only parsing).
Abbreviation Slot := Z (only parsing).
Abbreviation Epoch := Z (only parsing).
Abbreviation L1Height := Z (only parsing).
Abbreviation OLBlockId := Z (only parsing).
Abbreviation bytes := (list Z) (only parsing).

Definition buf32_zero : Buf32 := 0.

(** [OLBlockId::null] and [OLBlockId::is_null]. *)
Definition blkid_null : OLBlockId := 0.
Definition blkid_is_null (b : OLBlockId) : bool := b =? blkid_null.

(** Commitments: a block (or L1 block, or epoch) named by height and id. *)
Record OLBlockCommitment := { obc_slot : Slot; obc_blkid : OLBlockId }.
Record L1BlockCommitment := { l1c_height : L1Height; l1c_blkid : Buf32 }.
Record EpochCommitment := { ec_epoch : Epoch; ec_last_slot : Slot; ec_last_blkid : OLBlockId }.

#[export] Instance OLBlockCommitment_eq_dec : EqDecision OLBlockCommitment.
Proof. solve_decision. Defined.
#[export] Instance EpochCommitment_eq_dec : EqDecision EpochCommitment.
Proof. solve_decision. Defined.

Definition obc_null : OLBlockCommitment := {| obc_slot := 0; obc_blkid := blkid_null |}.

Inductive AccountTypeId := AcctTyEmpty | AcctTySnark.

#[export] Instance AccountTypeId_eq_dec : EqDecision AccountTypeId.
Proof. solve_decision. Defined.

(** An OL log: the serial of the emitting account and the encoded payload. *)
Record OLLog := { log_account_serial : AccountSerial; log_payload : bytes }.

(** Typed log payloads. *)
Record SimpleWithdrawalIntentLogData := {
  swi_amt : Z;
  swi_selected_operator : Z;
  swi_dest : bytes;
}.
Record SnarkAccountUpdateLogData := {
  sau_log_new_msg_idx : Z;
  sau_log_extra_data : bytes;
}.

(** ASM logs, as far as the OL decodes them. *)
Inductive AsmLogTypeId :=
| AsmDeposit
| AsmCheckpointTipUpdate
| AsmEePredicateKeyUpdate
| AsmOtherLog (ty : Z).

Record DepositLog := { dl_destination : bytes; dl_amount : Z }.
Record CheckpointTipUpdate := { ctu_epoch : Epoch; ctu_l2_commitment : OLBlockCommitment }.

Section ext.
Context {ET : ExtTypes}.

Record EePredicateKeyUpdate := {
  epku_account : AccountSerial;
  epku_new_predicate : PredicateKey;
}.

(** The manifest the ASM produces for one L1 block. *)
Record AsmManifest := {
  mf_height : L1Height;
  mf_blkid : Buf32;
  mf_wtxids_root : Buf32;
  mf_logs : list AsmLogEntry;
}.
End ext.
