(* ===== verification/AcctTypes.v ===== *)
(** * Account and snark account types ([crates/acct-types], [crates/snark-acct-types])

    Messages, transfers, transaction effects, accumulator claims and the
    account-error type; then sequence numbers, proof states, update outputs and
    the public parameters of an update proof. *)

From S2P Require Import Prelude Identifiers.

(** ** [accumulators.rs] *)

Record AccumulatorClaim := { claim_idx : Z; claim_entry_hash : Buf32 }.
Record L1BlockRecord := { l1r_block_hash : Buf32; l1r_wtxids_root : Buf32 }.

(** ** [messages.rs] *)

Definition MAX_MSG_PAYLOAD_DATA_BYTES : Z := Z.shiftl 1 20.

Record MsgPayload := { mp_value : BitcoinAmount; mp_data : bytes }.
Record SentMessage := { sm_dest : AccountId; sm_payload : MsgPayload }.
Record SentTransfer := { st_dest : AccountId; st_value : BitcoinAmount }.
Record MessageEntry := { me_source : AccountId; me_incl_epoch : Epoch; me_payload : MsgPayload }.

Inductive MsgPayloadError := DataTooLarge (len max : Z).

(** [VariableList::try_from] of the payload bytes. *)
Definition msg_payload_data_try_into (data : bytes) : option bytes :=
  if zlen data <=? MAX_MSG_PAYLOAD_DATA_BYTES then Some data else None.

Definition MsgPayload_from_bytes (value : BitcoinAmount) (data : bytes) : res MsgPayloadError MsgPayload :=
  match msg_payload_data_try_into data with
  | Some d => Ok {| mp_value := value; mp_data := d |}
  | None => Err (DataTooLarge (zlen data) MAX_MSG_PAYLOAD_DATA_BYTES)
  end.

Definition MsgPayload_from_bytes_valueless (data : bytes) : res MsgPayloadError MsgPayload :=
  MsgPayload_from_bytes 0 data.

(** ** [effects.rs] *)

Definition MAX_TRANSFERS : Z := 255.
Definition MAX_MESSAGES : Z := 255.

Record TxEffects := {
  fx_transfers : option (list SentTransfer);
  fx_messages : option (list SentMessage);
}.

Definition TxEffects_default : TxEffects := {| fx_transfers := None; fx_messages := None |}.

(** Appends to an optional bounded list, reporting whether there was room. *)
Definition opt_list_push {A} (max : Z) (o : option (list A)) (x : A) : bool * option (list A) :=
  match o with
  | Some l => if zlen l <? max then (true, Some (l ++ [x])) else (false, Some l)
  | None => (true, Some [x])
  end.

Definition TxEffects_add_transfer (fx : TxEffects) (xfr : SentTransfer) : bool * TxEffects :=
  let '(b, l) := opt_list_push MAX_TRANSFERS (fx_transfers fx) xfr in
  (b, {| fx_transfers := l; fx_messages := fx_messages fx |}).

Definition TxEffects_push_transfer (fx : TxEffects) (dest : AccountId) (sats : Z) : bool * TxEffects :=
  TxEffects_add_transfer fx {| st_dest := dest; st_value := sats |}.

Definition TxEffects_add_message (fx : TxEffects) (msg : SentMessage) : bool * TxEffects :=
  let '(b, l) := opt_list_push MAX_MESSAGES (fx_messages fx) msg in
  (b, {| fx_transfers := fx_transfers fx; fx_messages := l |}).

Definition TxEffects_push_message (fx : TxEffects) (dest : AccountId) (sats : Z) (data : bytes)
    : res MsgPayloadError (bool * TxEffects) :=
  let! payload := MsgPayload_from_bytes sats data in
  Ok (TxEffects_add_message fx {| sm_dest := dest; sm_payload := payload |}).

Definition transfers_iter (fx : TxEffects) : list SentTransfer :=
  match fx_transfers fx with Some l => l | None => [] end.
Definition messages_iter (fx : TxEffects) : list SentMessage :=
  match fx_messages fx with Some l => l | None => [] end.

(** The values of all effects, transfers first, as the iterator chain of
    [get_total_value_sent] and [verify_effects_safe] visits them. *)
Definition effect_values (fx : TxEffects) : list BitcoinAmount :=
  map st_value (transfers_iter fx) ++ map (fun m => mp_value (sm_payload m)) (messages_iter fx).

Fixpoint try_fold_amounts (add : Z -> Z -> option Z) (acc : Z) (l : list Z) : option Z :=
  match l with
  | [] => Some acc
  | v :: l' => match add acc v with Some acc' => try_fold_amounts add acc' l' | None => None end
  end.

(** ** [errors.rs] *)

Inductive AcctError :=
| MismatchedType (real asked : AccountTypeId)
| DecodeState (ty : AccountTypeId)
| AccountIdExists (id : AccountId)
| MissingExpectedAccount (id : AccountId)
| SerialSequence (serial next : AccountSerial)
| AccountSerialInconsistent (id : AccountId) (s1 s2 : AccountSerial)
| CreateExistingAccount (id : AccountId)
| UpdateNonexistentAccount (id : AccountId)
| InvalidUpdateSequence (account_id : AccountId) (expected got : Z)
| InvalidMsgIndex (account_id : AccountId) (expected got : Z)
| AcctInsufficientBalance (requested available : BitcoinAmount)
| InvalidMessageProof (account_id : AccountId) (msg_idx : Z)
| InvalidLedgerReference (account_id : AccountId) (ref_idx : Z)
| InvalidUpdateProof (account_id : AccountId)
| InvalidMsgProofsCount (account_id : AccountId)
| InvalidLedgerRefProofsCount (account_id : AccountId)
| InvalidAccumulatorProofMessageRef (account_id : AccountId) (msg_index : Z)
| MsgIndexOverflow (account_id : AccountId)
| BitcoinAmountOverflow.

(** * Snark account types ([crates/snark-acct-types])

    Sequence numbers, the proof state, the outputs of an update and the public
    parameters an update proof commits to. *)

(** ** [state.rs] *)

Abbreviation Seqno := Z (only parsing).

Definition Seqno_zero : Seqno := 0.

(** Panics at the largest sequence number. *)
Definition Seqno_incr {E} (s : Seqno) : res E Seqno :=
  if s =? U64_MAX then Panic else Ok (s + 1).

Record ProofState := { ps_inner_state : Buf32; ps_next_inbox_msg_idx : Z }.

(** ** [update.rs] *)

Definition MAX_PROCESSED_MESSAGES : Z := Z.shiftl 1 16.
Definition MAX_TYPE_LEDGER_REFS : Z := Z.shiftl 1 16.
Definition MAX_EXTRA_DATA_BYTES : Z := 1024.

Record LedgerRefs := { lr_l1_block_refs : list AccumulatorClaim }.

Definition LedgerRefs_new {E} (refs : list AccumulatorClaim) : res E LedgerRefs :=
  if zlen refs <=? MAX_TYPE_LEDGER_REFS then Ok {| lr_l1_block_refs := refs |} else Panic.
Definition LedgerRefs_new_empty {E} : res E LedgerRefs := LedgerRefs_new [].

(** ** [outputs.rs] *)

Definition OUT_MAX_TRANSFERS : Z := Z.shiftl 2 15.
Definition OUT_MAX_MESSAGES : Z := Z.shiftl 2 15.

Record OutputTransfer := { ot_dest : AccountId; ot_value : BitcoinAmount }.
Record OutputMessage := { om_dest : AccountId; om_payload : MsgPayload }.

Inductive OutputsError := TransfersCapacityExceeded | MessagesCapacityExceeded.

Section outputs.
Context {ET : ExtTypes}.

Record UpdateOutputs := {
  uo_transfers : list OutputTransfer;
  uo_messages : list OutputMessage;
  uo_new_predicate : option PredicateKey;
}.

Definition UpdateOutputs_new_empty : UpdateOutputs :=
  {| uo_transfers := []; uo_messages := []; uo_new_predicate := None |}.

Definition UpdateOutputs_with_transfers {E} (o : UpdateOutputs) (ts : list OutputTransfer)
    : res E UpdateOutputs :=
  if zlen ts <=? OUT_MAX_TRANSFERS then
    Ok {| uo_transfers := ts; uo_messages := uo_messages o; uo_new_predicate := uo_new_predicate o |}
  else Panic.

Definition UpdateOutputs_with_messages {E} (o : UpdateOutputs) (ms : list OutputMessage)
    : res E UpdateOutputs :=
  if zlen ms <=? OUT_MAX_MESSAGES then
    Ok {| uo_transfers := uo_transfers o; uo_messages := ms; uo_new_predicate := uo_new_predicate o |}
  else Panic.

Definition UpdateOutputs_set_new_predicate (o : UpdateOutputs) (k : option PredicateKey) : UpdateOutputs :=
  {| uo_transfers := uo_transfers o; uo_messages := uo_messages o; uo_new_predicate := k |}.

Definition UpdateOutputs_try_extend_transfers (o : UpdateOutputs) (ts : list OutputTransfer)
    : res OutputsError UpdateOutputs :=
  if OUT_MAX_TRANSFERS <? zlen (uo_transfers o) + zlen ts then Err TransfersCapacityExceeded
  else Ok {| uo_transfers := uo_transfers o ++ ts; uo_messages := uo_messages o;
             uo_new_predicate := uo_new_predicate o |}.

Definition UpdateOutputs_try_extend_messages (o : UpdateOutputs) (ms : list OutputMessage)
    : res OutputsError UpdateOutputs :=
  if OUT_MAX_MESSAGES <? zlen (uo_messages o) + zlen ms then Err MessagesCapacityExceeded
  else Ok {| uo_transfers := uo_transfers o; uo_messages := uo_messages o ++ ms;
             uo_new_predicate := uo_new_predicate o |}.

(** The result of [add_transfer]/[add_message] is ignored, as in the source. *)
Definition UpdateOutputs_to_tx_effects (o : UpdateOutputs) : TxEffects :=
  let fx1 := fold_left (fun fx t =>
    snd (TxEffects_add_transfer fx {| st_dest := ot_dest t; st_value := ot_value t |}))
    (uo_transfers o) TxEffects_default in
  fold_left (fun fx m =>
    snd (TxEffects_add_message fx {| sm_dest := om_dest m; sm_payload := om_payload m |}))
    (uo_messages o) fx1.

Record UpdateProofPubParams := {
  upp_seq_no : Z;
  upp_cur_state : ProofState;
  upp_new_state : ProofState;
  upp_message_inputs : list MessageEntry;
  upp_ledger_refs : LedgerRefs;
  upp_outputs : UpdateOutputs;
  upp_extra_data : bytes;
}.

(** ** [proof_interface.rs] *)

Definition UpdateProofPubParams_new {E} (seq_no : Seqno) (cur_state new_state : ProofState)
    (message_inputs : list MessageEntry) (ledger_refs : LedgerRefs) (outputs : UpdateOutputs)
    (extra_data : bytes) : res E UpdateProofPubParams :=
  if negb (zlen message_inputs <=? MAX_PROCESSED_MESSAGES) then Panic
  else if negb (zlen extra_data <=? MAX_EXTRA_DATA_BYTES) then Panic
  else Ok {| upp_seq_no := seq_no; upp_cur_state := cur_state; upp_new_state := new_state;
             upp_message_inputs := message_inputs; upp_ledger_refs := ledger_refs;
             upp_outputs := outputs; upp_extra_data := extra_data |}.
End outputs.
