(* ===== verification/ChainTypes.v ===== *)
(** * Chain types ([crates/ol/chain-types])

    Block flags, headers and bodies, transactions and the proofs they carry.
    The SSZ list bounds of [ssz/*.ssz] are collected in the [*_bounded]
    predicates: every value decoded from the wire satisfies them. *)

From S2P Require Import Prelude Identifiers AcctTypes.

(** ** [block_flags.rs] *)

Abbreviation BlockFlags := Z (only parsing).

Definition IS_TERMINAL : Z := 1.
Definition BlockFlags_zero : BlockFlags := 0.
Definition BlockFlags_set_is_terminal (f : BlockFlags) (b : bool) : BlockFlags :=
  if b then Z.lor f IS_TERMINAL else Z.land f (U16_MAX - IS_TERMINAL).
Definition BlockFlags_is_terminal (f : BlockFlags) : bool := negb (Z.land f IS_TERMINAL =? 0).

(** ** [block.rs]: headers *)

Record OLBlockHeader := {
  hdr_timestamp : Z;
  hdr_flags : BlockFlags;
  hdr_slot : Slot;
  hdr_epoch : Epoch;
  hdr_parent_blkid : OLBlockId;
  hdr_body_root : Buf32;
  hdr_state_root : Buf32;
  hdr_logs_root : Buf32;
}.

Definition hdr_is_terminal (h : OLBlockHeader) : bool := BlockFlags_is_terminal (hdr_flags h).

Definition header_bounded (h : OLBlockHeader) : Prop :=
  in_u64 (hdr_timestamp h) /\ in_u16 (hdr_flags h) /\ in_u64 (hdr_slot h) /\ in_u32 (hdr_epoch h).

Definition MAX_TXS_PER_BLOCK : Z := Z.shiftl 1 16.
Definition MAX_LOGS_PER_BLOCK : Z := Z.shiftl 1 12.
Definition MAX_SEALING_MANIFEST_COUNT : Z := 2048.

Inductive ChainTypesError :=
| TooManyTransactions (provided max : Z)
| TooManyManifests (provided max : Z).

Section chain.
Context {ET : ExtTypes}.

(** ** [proofs.rs] *)

Definition MAX_ACC_PROOF_COUNT : Z := 4096.
Definition MAX_SATISFIER_COUNT : Z := 255.
Definition SAU_MAX_PROCESSED_MESSAGES : Z := Z.shiftl 1 16.
Definition SAU_MAX_EXTRA_DATA_BYTES : Z := 1024.

Definition ClaimList_new (claims : list AccumulatorClaim) : option (list AccumulatorClaim) :=
  if zlen claims <=? MAX_ACC_PROOF_COUNT then Some claims else None.
Definition RawMerkleProofList_from_vec (buf : list RawMerkleProof) : option (list RawMerkleProof) :=
  if zlen buf <=? MAX_ACC_PROOF_COUNT then Some buf else None.
Definition RawMerkleProofList_from_vec_nonempty (buf : list RawMerkleProof)
    : option (list RawMerkleProof) :=
  match buf with [] => None | _ => RawMerkleProofList_from_vec buf end.

(** ** [transaction.rs] *)

Record GamTxPayload := { gam_target : AccountId }.

Record SauTxProofState := { sps_new_next_msg_idx : Z; sps_inner_state_root : Buf32 }.

Record SauTxUpdateData := {
  sud_seq_no : Z;
  sud_proof_state : SauTxProofState;
  sud_extra_data : bytes;
  sud_new_predicate : option PredicateKey;
}.

(** [SauTxLedgerRefs], whose claims are optional. *)
Record SauTxLedgerRefs := { slr_l1_block_ref_claims : option (list AccumulatorClaim) }.

Record SauTxOperationData := {
  sod_update_data : SauTxUpdateData;
  sod_messages : list MessageEntry;
  sod_ledger_refs : SauTxLedgerRefs;
}.

Record SauTxPayload := { sau_target : AccountId; sau_operation_data : SauTxOperationData }.

Inductive TransactionPayload :=
| GenericAccountMessage (gam : GamTxPayload)
| SnarkAccountUpdate (sau : SauTxPayload).

Definition payload_target (p : TransactionPayload) : option AccountId :=
  match p with
  | GenericAccountMessage gam => Some (gam_target gam)
  | SnarkAccountUpdate sau => Some (sau_target sau)
  end.

Record TxConstraints := { tc_min_slot : option Slot; tc_max_slot : option Slot }.
Definition TxConstraints_default : TxConstraints := {| tc_min_slot := None; tc_max_slot := None |}.

Record OLTransactionData := {
  txd_payload : TransactionPayload;
  txd_constraints : TxConstraints;
  txd_effects : TxEffects;
}.

Record TxProofs := {
  txp_predicate_satisfiers : option (list bytes);
  txp_accumulator_proofs : option (list RawMerkleProof);
}.
Definition TxProofs_new_empty : TxProofs :=
  {| txp_predicate_satisfiers := None; txp_accumulator_proofs := None |}.

Record OLTransaction := { tx_data : OLTransactionData; tx_proofs : TxProofs }.

Definition OLTransactionData_new_gam (dest : AccountId) (data : bytes) : OLTransactionData :=
  {| txd_payload := GenericAccountMessage {| gam_target := dest |};
     txd_constraints := TxConstraints_default;
     txd_effects := snd (TxEffects_add_message TxEffects_default
       {| sm_dest := dest; sm_payload := {| mp_value := 0; mp_data := data |} |}) |}.

(** SSZ bounds of a transaction. *)
Definition effects_bounded (fx : TxEffects) : Prop :=
  zlen (transfers_iter fx) <= MAX_TRANSFERS /\ zlen (messages_iter fx) <= MAX_MESSAGES /\
  Forall in_u64 (effect_values fx).

Definition sau_claims (r : SauTxLedgerRefs) : list AccumulatorClaim :=
  match slr_l1_block_ref_claims r with Some l => l | None => [] end.

Definition operation_bounded (op : SauTxOperationData) : Prop :=
  in_u64 (sud_seq_no (sod_update_data op)) /\
  in_u64 (sps_new_next_msg_idx (sud_proof_state (sod_update_data op))) /\
  zlen (sud_extra_data (sod_update_data op)) <= SAU_MAX_EXTRA_DATA_BYTES /\
  zlen (sod_messages op) <= SAU_MAX_PROCESSED_MESSAGES /\
  zlen (sau_claims (sod_ledger_refs op)) <= MAX_ACC_PROOF_COUNT.

Definition tx_bounded (tx : OLTransaction) : Prop :=
  effects_bounded (txd_effects (tx_data tx)) /\
  match txd_payload (tx_data tx) with
  | GenericAccountMessage _ => True
  | SnarkAccountUpdate sau => operation_bounded (sau_operation_data sau)
  end.

(** ** [block.rs]: bodies and blocks *)

Abbreviation OLTxSegment := (list OLTransaction) (only parsing).
Abbreviation OLAsmManifestContainer := (list AsmManifest) (only parsing).

Definition OLTxSegment_new (txs : list OLTransaction) : res ChainTypesError OLTxSegment :=
  if zlen txs <=? MAX_TXS_PER_BLOCK then Ok txs
  else Err (TooManyTransactions (zlen txs) MAX_TXS_PER_BLOCK).

Definition OLAsmManifestContainer_new (mfs : list AsmManifest)
    : res ChainTypesError OLAsmManifestContainer :=
  if zlen mfs <=? MAX_SEALING_MANIFEST_COUNT then Ok mfs
  else Err (TooManyManifests (zlen mfs) MAX_SEALING_MANIFEST_COUNT).

Record OLBlockBody := {
  body_tx_segment : option OLTxSegment;
  body_manifests : option OLAsmManifestContainer;
}.

Definition OLBlockBody_new (tx_segment : OLTxSegment) (mfs : option OLAsmManifestContainer)
    : OLBlockBody :=
  {| body_tx_segment := Some tx_segment; body_manifests := mfs |}.
Definition OLBlockBody_new_common (tx_segment : OLTxSegment) : OLBlockBody :=
  OLBlockBody_new tx_segment None.
Definition OLBlockBody_set_manifests (b : OLBlockBody) (mfs : OLAsmManifestContainer) : OLBlockBody :=
  {| body_tx_segment := body_tx_segment b; body_manifests := Some mfs |}.

Record OLBlock := {
  blk_header : OLBlockHeader;
  blk_signature : option Z;
  blk_body : OLBlockBody;
}.
End chain.

Abbreviation OLTxSegment := (list OLTransaction) (only parsing).
Abbreviation OLAsmManifestContainer := (list AsmManifest) (only parsing).

(** ** Facts *)

Lemma set_is_terminal_is_terminal b :
  BlockFlags_is_terminal (BlockFlags_set_is_terminal BlockFlags_zero b) = b.
Proof. destruct b; reflexivity. Qed.
