(* ===== verification/Externals.v ===== *)
(** * External functions

    The functions the orchestration layer calls in crates outside [src/]: hash
    and tree-hash commitments, SSZ and codec encoders, the message envelope
    format, MMRs, Merkle trees, predicate verification, checked Bitcoin amounts
    and the reserved account ids.  They are the fields of the class [Ext], an
    argument of every definition that calls them.  What the code relies on is
    stated separately, as small classes of laws that only the theorems needing
    them assume. *)

From S2P Require Import Prelude Identifiers AcctTypes ChainTypes.

(** Message data decoded from a withdrawal message ([ol/msg-types]). *)
Record WithdrawalMsgData := {
  wmd_fees : Z;
  wmd_selected_operator : Z;
  wmd_dest_desc : bytes;
}.

Class Ext {ET : ExtTypes} := {
  (** [BitcoinAmount::checked_add], [checked_sub] on satoshi amounts. *)
  amt_checked_add : Z -> Z -> option Z;
  amt_checked_sub : Z -> Z -> option Z;

  (** [AccountId::special], [is_special], [AccountSerial::reserved], [incr],
      [SYSTEM_RESERVED_ACCTS]. *)
  acct_special : Z -> AccountId;
  acct_is_special : AccountId -> bool;
  serial_reserved : Z -> AccountSerial;
  serial_incr : AccountSerial -> AccountSerial;
  system_reserved_accts : Z;

  (** Merkle mountain ranges; [None] is the capacity error of [add_leaf]. *)
  mmr_empty : Mmr64;
  mmr_new_repeated : Buf32 -> Z -> Mmr64;
  mmr_add_leaf : Mmr64 -> Buf32 -> option Mmr64;
  mmr_num_entries : Mmr64 -> Z;
  mmr_verify : Mmr64 -> RawMerkleProof -> Z -> Buf32 -> bool;

  (** [BinaryMerkleTree::from_leaves(..).root()]. *)
  merkle_tree_root : list Buf32 -> option Buf32;

  (** Predicate keys: verification, parsing through [try_as_buf_ref], and the
      raw bytes of a key ([as_buf_ref], which panics on an unregistered type). *)
  verify_claim_witness : PredicateKey -> bytes -> bytes -> bool;
  pred_try_as_buf : PredicateKey -> option PredicateKey;
  pred_as_buf_bytes : PredicateKey -> option bytes;

  (** Hash commitments. *)
  hash_raw : bytes -> Buf32;
  ssz_header : OLBlockHeader -> bytes;
  ssz_body : OLBlockBody -> bytes;
  ssz_pub_params : UpdateProofPubParams -> bytes;
  thr_message_entry : MessageEntry -> Buf32;
  thr_l1_block_record : L1BlockRecord -> Buf32;
  thr_tx_data : OLTransactionData -> Buf32;
  log_hash_commitment : OLLog -> Buf32;

  (** Message envelopes (SPS-52) and codecs. *)
  owned_msg_to_vec : Z -> bytes -> option bytes;
  msg_ref_parse : bytes -> option (Z * bytes);
  subject_id_encode : Z -> res CodecError bytes;
  predicate_update_encode : bytes -> res CodecError bytes;
  withdrawal_msg_decode : bytes -> option WithdrawalMsgData;
  descriptor_from_bytes_ok : bytes -> bool;

  (** [SubjectIdBytes]. *)
  subject_try_new : bytes -> option SubjectIdBytes;
  subject_as_bytes : SubjectIdBytes -> bytes;
  subject_to_id : SubjectIdBytes -> Z;

  (** OL logs: [encode_log] of the typed payloads, and the bounded constructor
      of the update log. *)
  withdrawal_log_encode : SimpleWithdrawalIntentLogData -> res CodecError bytes;
  sau_log_new : Z -> bytes -> option SnarkAccountUpdateLogData;
  sau_log_encode : SnarkAccountUpdateLogData -> res CodecError bytes;

  (** ASM logs. *)
  asm_log_msg_ty : AsmLogEntry -> option Z;
  asm_log_type_id : Z -> option AsmLogTypeId;
  asm_log_as_deposit : AsmLogEntry -> option DepositLog;
  asm_log_as_tip_update : AsmLogEntry -> option CheckpointTipUpdate;
  asm_log_as_predicate_update : AsmLogEntry -> option EePredicateKeyUpdate;

  (** [EpochCommitment::from_terminal]. *)
  epoch_commitment_from_terminal : Epoch -> OLBlockCommitment -> EpochCommitment;
}.

(** ** Laws *)

(** Amounts are 64-bit satoshi counts; the checked operations fail exactly when
    the mathematical result does not fit. *)
Class AmountLaws {ET : ExtTypes} (X : Ext) : Prop := {
  amt_add_spec a b : in_u64 a -> in_u64 b -> amt_checked_add a b = checked_add_u64 a b;
  amt_sub_spec a b : in_u64 a -> in_u64 b -> amt_checked_sub a b = checked_sub a b;
}.

(** Appending a leaf to an MMR increments its entry count.  The encoding reads a
    zero hash as an absent peak, so that this is said of other leaves only; the
    leaves the code appends are tree hashes, which are not zero. *)
Class MmrLaws {ET : ExtTypes} (X : Ext) : Prop := {
  mmr_add_leaf_entries m h m' :
    h <> 0 -> mmr_add_leaf m h = Some m' -> mmr_num_entries m' = mmr_num_entries m + 1;
  mmr_repeated_entries h n : h <> 0 -> 0 <= n -> mmr_num_entries (mmr_new_repeated h n) = n;
  thr_message_entry_nonzero e : thr_message_entry e <> 0;
  thr_l1_block_record_nonzero r : thr_l1_block_record r <> 0;
}.

(** The envelope parser recovers what the envelope writer wrote. *)
Class EnvelopeLaws {ET : ExtTypes} (X : Ext) : Prop := {
  envelope_roundtrip ty body data :
    owned_msg_to_vec ty body = Some data -> msg_ref_parse data = Some (ty, body);
}.

(** A binary Merkle tree accepts any power-of-two number of leaves. *)
Class MerkleLaws {ET : ExtTypes} (X : Ext) : Prop := {
  merkle_root_pow2 l (k : nat) :
    length l = (2 ^ k)%nat -> exists r, merkle_tree_root l = Some r;
}.

(** Incrementing a serial below the largest one adds one. *)
Class SerialLaws {ET : ExtTypes} (X : Ext) : Prop := {
  serial_incr_spec s : 0 <= s < U32_MAX -> serial_incr s = s + 1;
}.

(** Subject bytes are the bytes they were made of. *)
Class SubjectLaws {ET : ExtTypes} (X : Ext) : Prop := {
  subject_new_as_bytes l s : subject_try_new l = Some s -> subject_as_bytes s = l;
  subject_as_bytes_new s : subject_try_new (subject_as_bytes s) = Some s;
}.

(** The amount of a deposit log is a 64-bit satoshi count. *)
Class AsmLogLaws {ET : ExtTypes} (X : Ext) : Prop := {
  asm_deposit_amount l d : asm_log_as_deposit l = Some d -> in_u64 (dl_amount d);
}.

(** An MMR accepts leaves up to the range of its 64-bit entry count. *)
Class MmrCapacity {ET : ExtTypes} (X : Ext) : Prop := {
  mmr_add_leaf_capacity m h : mmr_num_entries m < U64_MAX -> exists m', mmr_add_leaf m h = Some m';
}.

(** Encoding a log returns a result, and the log of an update holds any extra
    data a transaction can carry. *)
Class LogCodecLaws {ET : ExtTypes} (X : Ext) : Prop := {
  withdrawal_log_encode_total i : withdrawal_log_encode i <> Panic;
  sau_log_encode_total l : sau_log_encode l <> Panic;
  sau_log_new_bounded idx data : zlen data <= SAU_MAX_EXTRA_DATA_BYTES -> exists l, sau_log_new idx data = Some l;
}.

(** The messages the OL writes itself are small: subject ids are 32 bytes, the raw
    bytes of a parsed predicate key are a type byte and a condition of at most
    1024 bytes, and length prefixes and envelope headers take a few bytes. *)
Class MsgCodecLaws {ET : ExtTypes} (X : Ext) : Prop := {
  subject_id_encode_small s : exists b, subject_id_encode s = Ok b /\ zlen b <= 32;
  pred_parsed_bytes k k' :
    pred_try_as_buf k = Some k' -> exists b, pred_as_buf_bytes k' = Some b /\ zlen b <= 1025;
  predicate_update_encode_small b :
    zlen b <= 2048 -> exists body, predicate_update_encode b = Ok body /\ zlen body <= zlen b + 4;
  owned_msg_small ty body :
    0 <= ty < 128 -> zlen body <= 4096 -> exists data, owned_msg_to_vec ty body = Some data /\ zlen data <= zlen body + 4;
}.

(** ** Derived notions *)

Section derived.
Context `{X : Ext}.

(** Reserved ids ([acct-types/src/constants.rs]). *)
Definition BRIDGE_GATEWAY_ACCT_ID : AccountId := acct_special 16.
Definition BRIDGE_GATEWAY_ACCT_SERIAL : AccountSerial := serial_reserved 16.
Definition ADMIN_MSG_ACCT_ID : AccountId := acct_special 1.

(** [OLBlockHeader::compute_blkid], [OLBlockBody::compute_hash_commitment]. *)
Definition compute_blkid (h : OLBlockHeader) : OLBlockId := hash_raw (ssz_header h).
Definition body_hash_commitment (b : OLBlockBody) : Buf32 := hash_raw (ssz_body b).

Definition compute_txid (tx : OLTransaction) : Buf32 := thr_tx_data (tx_data tx).

(** [L1BlockRecord::leaf_hash], [append_l1_block_rec_to_mmr]; exceeding the MMR
    capacity panics. *)
Definition append_l1_block_rec_to_mmr {E} (m : Mmr64) (rec : L1BlockRecord) : res E Mmr64 :=
  expect (mmr_add_leaf m (thr_l1_block_record rec)).

Definition get_total_value_sent (fx : TxEffects) : option BitcoinAmount :=
  try_fold_amounts amt_checked_add 0 (effect_values fx).

Definition UpdateOutputs_compute_total_value (o : UpdateOutputs) : option BitcoinAmount :=
  try_fold_amounts amt_checked_add 0
    (map ot_value (uo_transfers o) ++ map (fun m => mp_value (om_payload m)) (uo_messages o)).
End derived.

(** ** Amount arithmetic *)

Section amounts.
Context `{X : Ext} `{!AmountLaws X}.

Lemma amt_add_some a b c :
  in_u64 a -> in_u64 b -> amt_checked_add a b = Some c -> c = a + b /\ in_u64 c.
Proof.
  intros Ha Hb. rewrite amt_add_spec by done. unfold_widths.
  destruct (_ <=? _) eqn:H; intros; simplify_eq; zbool; lia.
Qed.

Lemma amt_add_none a b :
  in_u64 a -> in_u64 b -> amt_checked_add a b = None -> U64_MAX < a + b.
Proof.
  intros Ha Hb. rewrite amt_add_spec by done. unfold_widths.
  destruct (_ <=? _) eqn:H; intros; simplify_eq; zbool; lia.
Qed.

Lemma amt_add_fits a b :
  in_u64 a -> in_u64 b -> a + b <= U64_MAX -> amt_checked_add a b = Some (a + b).
Proof.
  intros Ha Hb Hle. rewrite amt_add_spec by done. unfold checked_add_u64.
  apply Z.leb_le in Hle. rewrite Hle. done.
Qed.

Lemma amt_sub_some a b c :
  in_u64 a -> in_u64 b -> amt_checked_sub a b = Some c -> c = a - b /\ b <= a /\ in_u64 c.
Proof.
  intros Ha Hb. rewrite amt_sub_spec by done. unfold_widths.
  destruct (_ <=? _) eqn:H; intros; simplify_eq; zbool; lia.
Qed.

Lemma amt_sub_fits a b :
  in_u64 a -> in_u64 b -> b <= a -> amt_checked_sub a b = Some (a - b).
Proof.
  intros Ha Hb Hle. rewrite amt_sub_spec by done. unfold checked_sub.
  apply Z.leb_le in Hle. rewrite Hle. done.
Qed.

Lemma try_fold_amounts_some l acc t :
  in_u64 acc -> Forall in_u64 l ->
  try_fold_amounts amt_checked_add acc l = Some t -> t = acc + zsum l /\ in_u64 t.
Proof.
  revert acc. induction l as [|v l IH]; intros acc Hacc Hl; simpl.
  - intros [= ->]. split; [unfold zsum; simpl; lia|done].
  - apply Forall_cons in Hl as [Hv Hl].
    destruct (amt_checked_add acc v) as [acc'|] eqn:Hadd; [|done].
    apply amt_add_some in Hadd as [-> Hin]; [|done..].
    intros Ht. apply IH in Ht as [-> ?]; [|done..]. split; [unfold zsum; simpl; lia|done].
Qed.

Lemma try_fold_amounts_none l acc :
  in_u64 acc -> Forall in_u64 l ->
  try_fold_amounts amt_checked_add acc l = None -> U64_MAX < acc + zsum l.
Proof.
  revert acc. induction l as [|v l IH]; intros acc Hacc Hl; simpl; [done|].
  apply Forall_cons in Hl as [Hv Hl].
  assert (0 <= zsum l) by (apply zsum_nonneg; eapply Forall_impl; [exact Hl|]; intros ? [? _]; done).
  destruct (amt_checked_add acc v) as [acc'|] eqn:Hadd.
  - apply amt_add_some in Hadd as [-> Hin]; [|done..].
    intros Ht. apply IH in Ht; [|done..]. unfold zsum in *; simpl in *; lia.
  - intros _. apply amt_add_none in Hadd; [|done..]. unfold zsum in *; simpl in *; lia.
Qed.
End amounts.
