(* ===== verification/CodecTypes.v ===== *)
(** * Codecs

    The [strata_codec] interface the data-availability types are written
    against.  Encoding into a byte vector either returns the bytes or an error;
    decoding consumes a prefix of the remaining bytes.  The codecs of the
    primitive types, the reader and the errors are outside [src/]: they are the
    fields of [CodecExt], with what the code relies on in [CodecLaws].  Fixed
    32-byte values are opaque here, as everywhere, so their round trip is stated
    for all of them; integers round-trip within their width, and the codecs of
    the sized integers take nothing outside of it. *)

From Stdlib Require Import String.
From S2P Require Import Prelude Identifiers AcctTypes.

Record CodecOf {ET : ExtTypes} (T : Type) := {
  encode : T -> res CodecError bytes;
  decode : M CodecError bytes T;
}.
Arguments encode {_ _} _ _.
Arguments decode {_ _} _ _.

Class CodecExt {ET : ExtTypes} := {
  (** The errors the code raises itself. *)
  malformed_field : string -> CodecError;
  overflow_container : CodecError;
  invalid_variant : string -> CodecError;

  (** [Decoder::read_arr::<1>] and [Decoder::read_buf]. *)
  read_byte : M CodecError bytes Z;
  read_buf : Z -> M CodecError bytes bytes;

  (** Primitive types. *)
  u8_codec : CodecOf Z;
  u16_codec : CodecOf Z;
  u32_codec : CodecOf Z;
  u64_codec : CodecOf Z;
  i8_codec : CodecOf Z;
  i16_codec : CodecOf Z;
  bool_codec : CodecOf bool;
  hash_codec : CodecOf Buf32;
  account_id_codec : CodecOf AccountId;
  account_serial_codec : CodecOf AccountSerial;
  amount_codec : CodecOf BitcoinAmount;

  (** [strata_codec::Varint]. *)
  varint_new_usize : Z -> option Z;
  varint_codec : CodecOf Z;

  (** Decoding that must consume all the input. *)
  decode_buf_exact : forall {T : Type}, CodecOf T -> bytes -> res CodecError T;
}.

(** Every value satisfying [P] encodes, and decodes to itself in front of
    whatever follows. *)
Definition roundtrips {ET : ExtTypes} {T} (c : CodecOf T) (P : T -> Prop) : Prop :=
  forall x, P x -> exists bs, encode c x = Ok bs /\ forall rest, decode c (bs ++ rest) = (Ok x, rest).

Class CodecLaws {ET : ExtTypes} (CE : CodecExt) : Prop := {
  read_byte_cons b rest : read_byte (b :: rest) = (Ok b, rest);
  read_byte_nil : exists e, read_byte [] = (Err e, []);
  read_buf_app l rest : read_buf (zlen l) (l ++ rest) = (Ok l, rest);
  u8_roundtrips : roundtrips u8_codec in_u8;
  u16_roundtrips : roundtrips u16_codec in_u16;
  u32_roundtrips : roundtrips u32_codec in_u32;
  u64_roundtrips : roundtrips u64_codec in_u64;
  i8_roundtrips : roundtrips i8_codec (fun x => -128 <= x <= 127);
  i16_roundtrips : roundtrips i16_codec (fun x => -32768 <= x <= 32767);
  bool_roundtrips : roundtrips bool_codec (fun _ => True);
  hash_roundtrips : roundtrips hash_codec (fun _ => True);
  account_id_roundtrips : roundtrips account_id_codec (fun _ => True);
  account_serial_roundtrips : roundtrips account_serial_codec in_u32;
  amount_roundtrips : roundtrips amount_codec in_u64;
  u32_encodes_only x bs : encode u32_codec x = Ok bs -> in_u32 x;
  amount_encodes_only x bs : encode amount_codec x = Ok bs -> in_u64 x;
  varint_new_small n : 0 <= n <= MAX_MSG_PAYLOAD_DATA_BYTES -> varint_new_usize n = Some n;
  varint_roundtrips : roundtrips varint_codec (fun n => 0 <= n <= MAX_MSG_PAYLOAD_DATA_BYTES);
  decode_buf_exact_all {T} (c : CodecOf T) bs x : decode c bs = (Ok x, []) -> decode_buf_exact c bs = Ok x;
}.

(** ** Combinators *)

Section combinators.
Context {ET : ExtTypes}.

(** One encoding after another. *)
Definition enc_app (e1 e2 : res CodecError bytes) : res CodecError bytes :=
  let! b1 := e1 in let! b2 := e2 in Ok (b1 ++ b2).

(** [for x in l { x.encode(enc)?; }] *)
Fixpoint encode_each {T} (c : CodecOf T) (l : list T) : res CodecError bytes :=
  match l with
  | [] => Ok []
  | x :: l' => enc_app (encode c x) (encode_each c l')
  end.

(** [for _ in 0..n { v.push(T::decode(dec)?); }] *)
Fixpoint decode_n {T} (c : CodecOf T) (n : nat) : M CodecError bytes (list T) :=
  match n with
  | O => mret []
  | S n' => let* x := decode c in let* l := decode_n c n' in mret (x :: l)
  end.
End combinators.

Notation "e1 +++ e2" := (enc_app e1 e2) (at level 60, right associativity) : m_scope.

Section combinator_lemmas.
Context {ET : ExtTypes}.

Lemma enc_app_ok e1 e2 (b1 b2 : bytes) : e1 = Ok b1 -> e2 = Ok b2 -> (e1 +++ e2) = Ok (b1 ++ b2).
Proof. by intros -> ->. Qed.

Lemma enc_app_inv e1 e2 (bs : bytes) :
  (e1 +++ e2) = Ok bs -> exists b1 b2, e1 = Ok b1 /\ e2 = Ok b2 /\ bs = b1 ++ b2.
Proof. unfold enc_app. destruct e1, e2; simpl; intros; simplify_eq; eauto. Qed.

Lemma roundtrips_impl {T} (c : CodecOf T) (P Q : T -> Prop) :
  (forall x, P x -> Q x) -> roundtrips c Q -> roundtrips c P.
Proof. intros HPQ Hc x Hx. by apply Hc, HPQ. Qed.

Lemma encode_each_roundtrips {T} (c : CodecOf T) (P : T -> Prop) l :
  roundtrips c P -> Forall P l ->
  exists bs, encode_each c l = Ok bs /\ forall rest, decode_n c (length l) (bs ++ rest) = (Ok l, rest).
Proof.
  intros Hc. induction 1 as [|x l Hx Hl IH]; simpl; [by exists []|].
  destruct (Hc x Hx) as (b1 & He & Hd), IH as (b2 & He2 & Hd2). exists (b1 ++ b2).
  rewrite (enc_app_ok _ _ b1 b2) by done. split; [done|]. intros rest.
  rewrite <- app_assoc, (mbind_ok _ _ _ _ _ (Hd _)), (mbind_ok _ _ _ _ _ (Hd2 _)). done.
Qed.

End combinator_lemmas.

(** ** [MsgPayload] ([crates/acct-types/src/messages.rs]) *)

Section payload.
Context {ET : ExtTypes} `{CE : !CodecExt}.

Definition MsgPayload_decode : M CodecError bytes MsgPayload :=
  let* value := decode amount_codec in
  let* len := decode varint_codec in
  if MAX_MSG_PAYLOAD_DATA_BYTES <? len then merr overflow_container else
  let* buf := read_buf len in
  let* data := mlift (ok_or (msg_payload_data_try_into buf) overflow_container) in
  mret {| mp_value := value; mp_data := data |}.

Definition MsgPayload_encode (p : MsgPayload) : res CodecError bytes :=
  encode amount_codec (mp_value p) +++
  (let! len := ok_or (varint_new_usize (zlen (mp_data p))) overflow_container in encode varint_codec len) +++
  Ok (mp_data p).

Definition msg_payload_codec : CodecOf MsgPayload :=
  {| encode := MsgPayload_encode; decode := MsgPayload_decode |}.

Definition msg_payload_bounded (p : MsgPayload) : Prop :=
  in_u64 (mp_value p) /\ zlen (mp_data p) <= MAX_MSG_PAYLOAD_DATA_BYTES.

Lemma msg_payload_roundtrips `{!CodecLaws CE} : roundtrips msg_payload_codec msg_payload_bounded.
Proof.
  intros p [Hv Hl]. pose proof (zlen_nonneg (mp_data p)) as Hn.
  destruct (amount_roundtrips _ Hv) as (b1 & He1 & Hd1).
  destruct (varint_roundtrips (zlen (mp_data p))) as (b2 & He2 & Hd2); [lia|].
  exists (b1 ++ b2 ++ mp_data p). simpl. unfold MsgPayload_encode.
  rewrite varint_new_small by lia. simpl. split.
  - apply enc_app_ok; [done|]. by apply enc_app_ok.
  - intros rest. unfold MsgPayload_decode. rewrite <- !app_assoc.
    rewrite (mbind_ok _ _ _ _ _ (Hd1 _)), (mbind_ok _ _ _ _ _ (Hd2 _)).
    rewrite (proj2 (Z.ltb_ge _ _)) by done. rewrite (mbind_ok _ _ _ _ _ (read_buf_app _ _)).
    unfold msg_payload_data_try_into. rewrite (proj2 (Z.leb_le _ _)) by done. by destruct p.
Qed.
End payload.
