(* ===== verification/Varint64.v ===== *)
(** * Variable-length integers ([crates/da-framework/src/varint64.rs])

    LEB128-style encodings of unsigned and signed 64-bit magnitudes.  Both loops
    shift by seven bits per byte, so ten rounds are enough to encode a 64-bit
    magnitude, and the decoding loop of the source ends by itself in its eleventh
    round at the latest.  [magnitude_loop_spec] characterises it for any fuel that
    reaches that round, so that the fuel plays no part in what is decoded. *)

From Stdlib Require Import String.
From S2P Require Import Prelude Identifiers CodecTypes.

Section varint.
Context {ET : ExtTypes} `{CE : !CodecExt}.

(** The loop of [encode_magnitude_tail], on the shifted magnitude. *)
Fixpoint magnitude_bytes (fuel : nat) (magnitude : Z) : bytes :=
  match fuel with
  | O => []
  | S fuel' =>
      if 0 <? magnitude then
        (if 127 <? magnitude then Z.lor 128 (Z.land magnitude 127) else Z.land magnitude 127)
          :: magnitude_bytes fuel' (Z.shiftr magnitude 7)
      else []
  end.

Definition encode_magnitude_tail (magnitude start_bits : Z) : res CodecError bytes :=
  Ok (magnitude_bytes 10 (Z.shiftr magnitude start_bits)).

(** The loop of [decode_magnitude_tail]; shifting a byte left keeps the low 64
    bits. *)
Fixpoint magnitude_loop (fuel : nat) (value shift : Z) : M CodecError bytes Z :=
  match fuel with
  | O => mpanic
  | S fuel' =>
      if 64 + 7 <=? shift then merr (malformed_field "varint64 too many bytes") else
      let* byte := read_byte in
      let data := Z.land byte 127 in
      if shift <? 64 then
        let value' := Z.lor value (wrap_u64 (Z.shiftl data shift)) in
        if Z.land byte 128 =? 0 then mret value' else magnitude_loop fuel' value' (shift + 7)
      else if negb (data =? 0) then merr (malformed_field "varint64 overflow")
      else if Z.land byte 128 =? 0 then mret value else magnitude_loop fuel' value (shift + 7)
  end.

Definition decode_magnitude_tail (value start_bits : Z) : M CodecError bytes Z :=
  magnitude_loop 11 value start_bits.

(** ** [UnsignedVarInt] *)

Definition UnsignedVarInt_encode (value : Z) : res CodecError bytes :=
  let first_data := Z.land value 127 in
  if value <? 128 then Ok [first_data]
  else Ok [Z.lor 128 first_data] +++ encode_magnitude_tail value 7.

Definition UnsignedVarInt_decode : M CodecError bytes Z :=
  let* first := read_byte in
  let value := Z.land first 127 in
  if Z.land first 128 =? 0 then mret value else decode_magnitude_tail value 7.

Definition unsigned_varint_codec : CodecOf Z :=
  {| encode := UnsignedVarInt_encode; decode := UnsignedVarInt_decode |}.

(** ** [SignedVarInt] *)

Record SignedVarInt := { svi_positive : bool; svi_magnitude : Z }.

Definition SignedVarInt_ZERO : SignedVarInt := {| svi_positive := true; svi_magnitude := 0 |}.
Definition SignedVarInt_default : SignedVarInt := {| svi_positive := false; svi_magnitude := 0 |}.

Definition SignedVarInt_new (positive : bool) (magnitude : Z) : SignedVarInt :=
  if magnitude =? 0 then SignedVarInt_ZERO else {| svi_positive := positive; svi_magnitude := magnitude |}.

Definition svi_is_zero (v : SignedVarInt) : bool := svi_magnitude v =? 0.

Definition SignedVarInt_encode (v : SignedVarInt) : res CodecError bytes :=
  let mag := svi_magnitude v in
  let sign_bit := if svi_positive v then 0 else 64 in
  let first_data := Z.land mag 63 in
  if mag <? 64 then Ok [Z.lor sign_bit first_data]
  else Ok [Z.lor (Z.lor 128 sign_bit) first_data] +++ encode_magnitude_tail mag 6.

Definition SignedVarInt_decode : M CodecError bytes SignedVarInt :=
  let* first := read_byte in
  let positive := Z.land first 64 =? 0 in
  let first_data := Z.land first 63 in
  let* magnitude := if Z.land first 128 =? 0 then mret first_data else decode_magnitude_tail first_data 6 in
  mret (SignedVarInt_new positive magnitude).

Definition signed_varint_codec : CodecOf SignedVarInt :=
  {| encode := SignedVarInt_encode; decode := SignedVarInt_decode |}.

(** The values the constructors build. *)
Definition svi_normal (v : SignedVarInt) : Prop :=
  in_u64 (svi_magnitude v) /\ (svi_magnitude v = 0 -> svi_positive v = true).

Lemma SignedVarInt_new_normal p m : in_u64 m -> svi_normal (SignedVarInt_new p m).
Proof. intros Hm. unfold SignedVarInt_new. destruct (m =? 0) eqn:Hz; zbool; split; simpl; lia || done. Qed.

Lemma SignedVarInt_new_id v : svi_normal v -> SignedVarInt_new (svi_positive v) (svi_magnitude v) = v.
Proof.
  intros [_ Hz]. unfold SignedVarInt_new, SignedVarInt_ZERO. destruct v as [p m]; simpl in *.
  destruct (m =? 0) eqn:He; zbool; [|done]. subst m. by rewrite Hz.
Qed.

(** ** The bytes *)

Lemma data_byte d : 0 <= d < 128 ->
  Z.land d 127 = d /\ Z.land d 128 = 0 /\
  Z.land (Z.lor 128 d) 127 = d /\ Z.land (Z.lor 128 d) 128 = 128.
Proof.
  intros Hd. pose proof (below_forall 128 (fun d => (Z.land d 127 =? d) && (Z.land d 128 =? 0) &&
    (Z.land (Z.lor 128 d) 127 =? d) && (Z.land (Z.lor 128 d) 128 =? 128)) ltac:(vm_compute; reflexivity) d) as H.
  specialize (H ltac:(lia)). cbv beta in H. zbool. done.
Qed.

Lemma sign_byte (b : bool) d : 0 <= d < 64 ->
  let s := if b then 0 else 64 in
  Z.land (Z.lor s d) 64 = s /\ Z.land (Z.lor s d) 63 = d /\ Z.land (Z.lor s d) 128 = 0 /\
  Z.land (Z.lor (Z.lor 128 s) d) 64 = s /\ Z.land (Z.lor (Z.lor 128 s) d) 63 = d /\
  Z.land (Z.lor (Z.lor 128 s) d) 128 = 128.
Proof.
  intros Hd s. pose proof (below_forall 64 (fun d => (Z.land (Z.lor s d) 64 =? s) && (Z.land (Z.lor s d) 63 =? d) &&
    (Z.land (Z.lor s d) 128 =? 0) && (Z.land (Z.lor (Z.lor 128 s) d) 64 =? s) &&
    (Z.land (Z.lor (Z.lor 128 s) d) 63 =? d) && (Z.land (Z.lor (Z.lor 128 s) d) 128 =? 128))
    ltac:(destruct b; vm_compute; reflexivity) d) as H.
  specialize (H ltac:(lia)). cbv beta in H. zbool. done.
Qed.

Lemma shiftr_lt m k n : 0 <= k -> 0 <= n -> m < 2 ^ (n + k) -> Z.shiftr m k < 2 ^ n.
Proof.
  intros Hk Hn Hm. rewrite Z.shiftr_div_pow2 by done. apply Z.div_lt_upper_bound; [lia|].
  by rewrite <- Z.pow_add_r, Z.add_comm by done.
Qed.

(** The number of bytes of a magnitude. *)
Lemma magnitude_bytes_length fuel m k : m < 2 ^ (7 * Z.of_nat k) -> zlen (magnitude_bytes fuel m) <= Z.of_nat k.
Proof.
  revert fuel m. induction k as [|k IH]; intros fuel m Hm; destruct fuel as [|fuel]; simpl.
  1,3: unfold zlen; simpl; lia.
  - rewrite (proj2 (Z.ltb_ge _ _)) by (change (2 ^ _) with 1 in Hm; lia). done.
  - destruct (0 <? m) eqn:H0; [|unfold zlen; simpl; lia]. rewrite zlen_cons.
    specialize (IH fuel (Z.shiftr m 7)). rewrite Nat2Z.inj_succ.
    enough (zlen (magnitude_bytes fuel (Z.shiftr m 7)) <= Z.of_nat k) by lia.
    apply IH, shiftr_lt; [lia..|]. eapply Z.lt_le_trans; [exact Hm|]. apply Z.pow_le_mono_r; lia.
Qed.

Context `{!CodecLaws CE}.

(** Decoding what was encoded, from any intermediate state of the loops. *)
Lemma magnitude_loop_bytes f fuel m v shift rest :
  (f <= fuel)%nat -> 0 < m < 2 ^ (7 * Z.of_nat f) -> 0 <= shift -> 0 <= v < 2 ^ shift ->
  v + m * 2 ^ shift <= U64_MAX ->
  magnitude_loop fuel v shift (magnitude_bytes f m ++ rest) = (Ok (v + m * 2 ^ shift), rest).
Proof.
  revert fuel m v shift. induction f as [|f IH]; intros fuel m v shift Hf Hm Hs Hv Hu.
  { change (2 ^ _) with 1 in Hm. lia. }
  destruct fuel as [|fuel]; [lia|]. cbn [magnitude_bytes magnitude_loop].
  rewrite (proj2 (Z.ltb_lt 0 m)) by lia.
  assert (Hs64 : shift < 64).
  { destruct (Z.lt_ge_cases shift 64) as [|Hge]; [done|]. exfalso.
    pose proof (Z.pow_le_mono_r 2 64 shift ltac:(lia) Hge). unfold U64_MAX in Hu. change (2 ^ 64) with 18446744073709551616 in *. nia. }
  rewrite (proj2 (Z.leb_gt _ _)) by lia. rewrite (proj2 (Z.ltb_lt shift 64)) by lia.
  pose proof (Z.pow_pos_nonneg 2 shift ltac:(lia) Hs) as Hp.
  assert (Hd : Z.land m 127 = m mod 128) by (change 127 with (2 ^ 7 - 1); by rewrite land_low).
  pose proof (Z.mod_pos_bound m 128 ltac:(lia)) as Hmod. pose proof (Z.div_mod m 128 ltac:(lia)) as Hdm.
  assert (Hq : Z.shiftr m 7 = m / 128) by (by rewrite Z.shiftr_div_pow2).
  assert (Hlor : Z.lor v (wrap_u64 (Z.shiftl (m mod 128) shift)) = v + m mod 128 * 2 ^ shift).
  { unfold wrap_u64. rewrite Z.mod_small; [|rewrite Z.shiftl_mul_pow2 by done; unfold U64_MAX in *; nia].
    rewrite Z.lor_comm, lor_shiftl_add by done. lia. }
  rewrite Hd, Hq. destruct (data_byte (m mod 128) Hmod) as (D1 & D2 & D3 & D4).
  destruct (127 <? m) eqn:Hbig; zbool; cbn [app]; rewrite (mbind_ok _ _ _ _ _ (read_byte_cons _ _)); cbv zeta.
  - rewrite D3, D4, Hlor. change (128 =? 0) with false. cbn iota.
    rewrite IH; [|lia| |lia| |].
    + rewrite Z.pow_add_r by lia. change (2 ^ 7) with 128. f_equal. f_equal. nia.
    + split; [apply Z.div_str_pos; lia|]. rewrite <- Hq. apply shiftr_lt; [lia..|].
      eapply Z.lt_le_trans; [apply Hm|]. apply Z.pow_le_mono_r; lia.
    + rewrite Z.pow_add_r by lia. change (2 ^ 7) with 128. nia.
    + rewrite Z.pow_add_r by lia. change (2 ^ 7) with 128. nia.
  - rewrite D1, D2, Hlor. change (0 =? 0) with true. cbn iota.
    assert (Hm0 : m / 128 = 0) by (apply Z.div_small; lia). rewrite Hm0.
    replace (magnitude_bytes f 0) with (@nil Z) by (by destruct f). unfold mret. cbn [app].
    f_equal. f_equal. nia.
Qed.

Lemma magnitude_tail_roundtrip m k rest :
  in_u64 m -> 2 ^ k <= m -> 0 <= k <= 64 ->
  exists bs, encode_magnitude_tail m k = Ok bs /\
    decode_magnitude_tail (Z.land m (2 ^ k - 1)) k (bs ++ rest) = (Ok m, rest).
Proof.
  intros Hm Hk Hr. eexists. split; [reflexivity|]. unfold decode_magnitude_tail. rewrite land_low by lia.
  pose proof (Z.pow_pos_nonneg 2 k ltac:(lia) ltac:(lia)) as Hp.
  pose proof (Z.mod_pos_bound m (2 ^ k) Hp). pose proof (Z.div_mod m (2 ^ k) ltac:(lia)) as Hdm.
  rewrite Z.shiftr_div_pow2 by lia. unfold in_u64, U64_MAX in *.
  assert (Hdiv : 0 < m / 2 ^ k < 2 ^ (7 * Z.of_nat 10)).
  { split; [apply Z.div_str_pos; lia|]. apply Z.div_lt_upper_bound; [lia|].
    change (2 ^ (7 * Z.of_nat 10)) with 1180591620717411303424. nia. }
  rewrite magnitude_loop_bytes; [|lia|done|lia|done|].
  - f_equal. f_equal. lia.
  - unfold U64_MAX. lia.
Qed.

Lemma unsigned_varint_roundtrips : roundtrips unsigned_varint_codec in_u64.
Proof.
  intros v Hv. simpl. unfold UnsignedVarInt_encode, UnsignedVarInt_decode.
  assert (Hd : Z.land v 127 = v mod 128) by (change 127 with (2 ^ 7 - 1); by rewrite land_low).
  pose proof (Z.mod_pos_bound v 128 ltac:(lia)) as Hmod.
  destruct (data_byte (v mod 128) Hmod) as (D1 & D2 & D3 & D4).
  destruct (v <? 128) eqn:Hlt; zbool; rewrite Hd.
  - eexists. split; [done|]. intros rest. cbn [app]. rewrite (mbind_ok _ _ _ _ _ (read_byte_cons _ _)).
    cbv zeta. rewrite D1, D2. change (0 =? 0) with true. cbn iota. rewrite Z.mod_small by (unfold in_u64 in *; lia). done.
  - destruct (magnitude_tail_roundtrip v 7 []) as (bs & He & _); [done|change (2 ^ 7) with 128; lia|lia|].
    rewrite He. eexists. split; [reflexivity|]. intros rest. cbn [app].
    rewrite (mbind_ok _ _ _ _ _ (read_byte_cons _ _)). cbv zeta. rewrite D3, D4.
    change (128 =? 0) with false. cbn iota.
    destruct (magnitude_tail_roundtrip v 7 rest) as (bs' & He' & Hdec); [done|change (2 ^ 7) with 128; lia|lia|].
    assert (bs' = bs) as -> by congruence. rewrite <- Hd. exact Hdec.
Qed.

Lemma signed_varint_roundtrips : roundtrips signed_varint_codec svi_normal.
Proof.
  intros v Hn. pose proof Hn as [Hv _]. simpl. unfold SignedVarInt_encode, SignedVarInt_decode.
  set (s := if svi_positive v then 0 else 64). set (m := svi_magnitude v) in *.
  assert (Hd : Z.land m 63 = m mod 64) by (change 63 with (2 ^ 6 - 1); by rewrite land_low).
  pose proof (Z.mod_pos_bound m 64 ltac:(lia)) as Hmod.
  destruct (sign_byte (svi_positive v) (m mod 64) Hmod) as (S1 & S2 & S3 & S4 & S5 & S6). fold s in S1, S2, S3, S4, S5, S6.
  assert (Hs : (s =? 0) = svi_positive v) by (subst s; by destruct (svi_positive v)).
  assert (Hfin : SignedVarInt_new (svi_positive v) m = v) by (by apply SignedVarInt_new_id).
  destruct (m <? 64) eqn:Hlt; zbool; rewrite Hd.
  - eexists. split; [done|]. intros rest. cbn [app]. rewrite (mbind_ok _ _ _ _ _ (read_byte_cons _ _)).
    cbv zeta. rewrite S1, S2, S3, Hs. change (0 =? 0) with true. cbn iota.
    rewrite (mbind_ok _ _ _ (m mod 64) rest) by done.
    rewrite Z.mod_small by (unfold in_u64 in *; lia). by rewrite Hfin.
  - destruct (magnitude_tail_roundtrip m 6 []) as (bs & He & _); [done|change (2 ^ 6) with 64; lia|lia|].
    rewrite He. eexists. split; [reflexivity|]. intros rest. cbn [app].
    rewrite (mbind_ok _ _ _ _ _ (read_byte_cons _ _)). cbv zeta. rewrite S4, S5, S6, Hs.
    change (128 =? 0) with false. cbn iota.
    destruct (magnitude_tail_roundtrip m 6 rest) as (bs' & He' & Hdec); [done|change (2 ^ 6) with 64; lia|lia|].
    assert (bs' = bs) as -> by congruence. rewrite <- Hd. rewrite (mbind_ok _ _ _ _ _ Hdec). by rewrite Hfin.
Qed.

(** ** Decoding arbitrary bytes *)

(** What a decoder does on any input: it stops without a panic, having consumed
    at most [n] bytes, and a value it returns satisfies [P]. *)
Definition decodes_within {T} (dec : M CodecError bytes T) (n : Z) (P : T -> Prop) : Prop :=
  forall bs, exists r used rest, dec bs = (r, rest) /\ bs = used ++ rest /\ zlen used <= n /\ r <> Panic /\
    (forall x, r = Ok x -> P x).

Lemma wrap_u64_range x : in_u64 (wrap_u64 x).
Proof. unfold in_u64, wrap_u64. pose proof (Z.mod_pos_bound x (U64_MAX + 1)). unfold U64_MAX in *. lia. Qed.

Lemma lor_u64 a b : in_u64 a -> in_u64 b -> in_u64 (Z.lor a b).
Proof.
  unfold in_u64, U64_MAX. intros Ha Hb. pose proof (lor_lt_pow2 a b 64) as H.
  change (2 ^ 64) with 18446744073709551616 in H. lia.
Qed.

Lemma decodes_within_ret {T} (x : T) n (P : T -> Prop) : 0 <= n -> P x -> decodes_within (mret x) n P.
Proof. intros Hn Hx bs. exists (Ok x), [], bs. split_and!; try done. by intros ? [= <-]. Qed.

Lemma decodes_within_err {T} e n (P : T -> Prop) : 0 <= n -> decodes_within (merr e) n P.
Proof. intros Hn bs. by exists (Err e), [], bs. Qed.

Lemma decodes_within_byte {T} (k : Z -> M CodecError bytes T) n P :
  0 <= n -> (forall b, decodes_within (k b) n P) -> decodes_within (let* b := read_byte in k b) (n + 1) P.
Proof.
  intros Hn Hk [|b bs].
  - destruct read_byte_nil as [e He]. exists (Err e), [], []. unfold mbind. rewrite He.
    split_and!; try done. unfold zlen. simpl. lia.
  - destruct (Hk b bs) as (r & used & rest & Hrun & -> & Hl & Hp & HP). exists r, (b :: used), rest.
    rewrite (mbind_ok _ _ _ _ _ (read_byte_cons _ _)). rewrite zlen_cons. split_and!; try done. lia.
Qed.

(** The loop reads at most [n] bytes when [n] groups of seven bits reach the limit
    of the shift, whatever the fuel beyond that. *)
Lemma magnitude_loop_within n fuel v shift :
  (n < fuel)%nat -> 64 + 7 <= shift + 7 * Z.of_nat n -> in_u64 v ->
  decodes_within (magnitude_loop fuel v shift) (Z.of_nat n) in_u64.
Proof.
  revert fuel v shift. induction n as [|n IH]; intros [|fuel] v shift Hf Hs Hv; try lia; cbn [magnitude_loop];
    (destruct (64 + 7 <=? shift) eqn:H71; zbool; [apply decodes_within_err; lia|]); [lia|].
  rewrite Nat2Z.inj_succ, <- Z.add_1_r. apply decodes_within_byte; [lia|]. intros b. cbv zeta.
  assert (Hor : in_u64 (Z.lor v (wrap_u64 (Z.shiftl (Z.land b 127) shift)))) by (by apply lor_u64, wrap_u64_range).
  destruct (shift <? 64).
  - destruct (_ =? 0); [apply decodes_within_ret; [lia|done]|apply IH; [lia|lia|done]].
  - destruct (negb _); [apply decodes_within_err; lia|].
    destruct (_ =? 0); [apply decodes_within_ret; [lia|done]|apply IH; [lia|lia|done]].
Qed.

(** ** What is decoded *)

(** A sequence of bytes of which exactly the last has no continuation bit. *)
Fixpoint terminated (l : bytes) : Prop :=
  match l with
  | [] => False
  | b :: l' => if Z.land b 128 =? 0 then l' = [] else terminated l'
  end.

(** The groups of seven bits of a tail as a number, the first at bit [shift]. *)
Fixpoint tail_value (shift : Z) (l : bytes) : Z :=
  match l with
  | [] => 0
  | b :: l' => Z.land b 127 * 2 ^ shift + tail_value (shift + 7) l'
  end.

(** No group starts at bit 71 or later, and one that starts at bit 64 or later is
    zero. *)
Fixpoint tail_fits (shift : Z) (l : bytes) : Prop :=
  match l with
  | [] => True
  | b :: l' => shift < 64 + 7 /\ (64 <= shift -> Z.land b 127 = 0) /\ tail_fits (shift + 7) l'
  end.

Lemma land_127_range b : 0 <= Z.land b 127 < 128.
Proof. change 127 with (2 ^ 7 - 1). rewrite land_low by lia. apply Z.mod_pos_bound. lia. Qed.

(** Taking over the bits of one byte that fit. *)
Lemma lor_group v d shift :
  0 <= shift < 64 -> 0 <= v < 2 ^ shift -> 0 <= d < 128 ->
  let v' := Z.lor v (wrap_u64 (Z.shiftl d shift)) in
  0 <= v' < 2 ^ Z.min (shift + 7) 64 /\ forall t, (v' + t) mod 2 ^ 64 = (v + (d * 2 ^ shift + t)) mod 2 ^ 64.
Proof.
  intros Hs Hv Hd v'. set (q := d mod 2 ^ (64 - shift)).
  assert (H64 : 2 ^ 64 = 2 ^ (64 - shift) * 2 ^ shift) by (rewrite <- Z.pow_add_r by lia; f_equal; lia).
  assert (Hp : 0 < 2 ^ shift) by (apply Z.pow_pos_nonneg; lia). assert (Hr : 0 < 2 ^ (64 - shift)) by (apply Z.pow_pos_nonneg; lia).
  assert (Hw : wrap_u64 (Z.shiftl d shift) = Z.shiftl q shift).
  { unfold wrap_u64. change (U64_MAX + 1) with (2 ^ 64). rewrite !Z.shiftl_mul_pow2 by lia. rewrite H64. apply Z.mul_mod_distr_r; lia. }
  assert (Hv' : v' = q * 2 ^ shift + v) by (unfold v'; rewrite Hw, Z.lor_comm; apply lor_shiftl_add; [lia|done]).
  pose proof (Z.mod_pos_bound d _ Hr) as Hq. fold q in Hq. pose proof (Z.mod_le d (2 ^ (64 - shift)) ltac:(lia) Hr) as Hqd. fold q in Hqd.
  rewrite Hv'. split; [split; [nia|]|].
  - destruct (Z.min_spec (shift + 7) 64) as [[_ ->]|[_ ->]]; [rewrite Z.pow_add_r by lia; change (2 ^ 7) with 128; nia|rewrite H64; nia].
  - intros t. rewrite (Z.div_mod d (2 ^ (64 - shift))) by lia. fold q.
    replace (v + ((2 ^ (64 - shift) * (d / 2 ^ (64 - shift)) + q) * 2 ^ shift + t))
      with (q * 2 ^ shift + v + t + d / 2 ^ (64 - shift) * 2 ^ 64) by (rewrite H64; ring).
    by rewrite Z_mod_plus_full.
Qed.

(** The loop from any intermediate state, for any fuel that reaches the limit. *)
Lemma magnitude_loop_spec fuel v shift bs w rest :
  78 <= shift + 7 * Z.of_nat fuel -> 0 <= shift -> 0 <= v < 2 ^ Z.min shift 64 ->
  magnitude_loop fuel v shift bs = (Ok w, rest) <->
  exists l, bs = l ++ rest /\ terminated l /\ tail_fits shift l /\ w = (v + tail_value shift l) mod 2 ^ 64.
Proof.
  revert v shift bs. induction fuel as [|fuel IH]; intros v shift bs Hf Hs Hv; cbn [magnitude_loop].
  { split; [done|]. intros ([|b l] & _ & Ht & Hl & _); [done|]. destruct Hl as [? _]. lia. }
  destruct (64 + 7 <=? shift) eqn:H71; zbool.
  { split; [done|]. intros ([|b l] & _ & Ht & Hl & _); [done|]. destruct Hl as [? _]. lia. }
  destruct bs as [|b bs].
  { destruct read_byte_nil as [e He]. unfold mbind. rewrite He. split; [done|].
    by intros ([|b l] & Hl & Ht & _). }
  rewrite (mbind_ok _ _ _ _ _ (read_byte_cons _ _)). cbv zeta.
  (* one byte: what it adds, and what is left to the rest of the loop *)
  assert (Hstep : forall v', 0 <= v' < 2 ^ Z.min (shift + 7) 64 -> (64 <= shift -> Z.land b 127 = 0) ->
    (forall t, (v' + t) mod 2 ^ 64 = (v + (Z.land b 127 * 2 ^ shift + t)) mod 2 ^ 64) ->
    (if Z.land b 128 =? 0 then mret v' else magnitude_loop fuel v' (shift + 7)) bs = (Ok w, rest) <->
    exists l, b :: bs = l ++ rest /\ terminated l /\ tail_fits shift l /\ w = (v + tail_value shift l) mod 2 ^ 64).
  { intros v' Hv' Hz Hadd. destruct (Z.land b 128 =? 0) eqn:Hb.
    - assert (Hw : v' = (v + tail_value shift [b]) mod 2 ^ 64).
      { simpl. rewrite <- Hadd, Z.add_0_r, Z.mod_small; [done|]. pose proof (Z.pow_le_mono_r 2 (Z.min (shift + 7) 64) 64). lia. }
      split.
      + intros [= <- <-]. exists [b]. simpl. rewrite Hb. split_and!; done || lia.
      + intros ([|b' l] & Hl & Ht & _ & Hv2); [done|]. simpl in Hl. injection Hl as <- Hl. simpl in Ht. rewrite Hb in Ht. subst l.
        simpl in Hl. subst bs. unfold mret. congruence.
    - rewrite IH by (done || lia). split.
      + intros (l & -> & Ht & Hl & ->). exists (b :: l). simpl. rewrite Hb, Hadd. split_and!; done || lia.
      + intros ([|b' l] & Hl & Ht & Hfit & ->); [done|]. simpl in Hl. injection Hl as <- ->. simpl in Ht. rewrite Hb in Ht.
        destruct Hfit as (_ & _ & Hfit). exists l. simpl. rewrite Hadd. done. }
  destruct (shift <? 64) eqn:H64; zbool.
  - rewrite Z.min_l in Hv by lia. destruct (lor_group v (Z.land b 127) shift ltac:(lia) Hv (land_127_range b)) as [Hv' Hadd].
    apply Hstep; [done|lia|done].
  - rewrite Z.min_r in Hv by lia. destruct (Z.land b 127 =? 0) eqn:Hd; zbool; simpl.
    + apply Hstep; [rewrite Z.min_r by lia; done|done|]. intros t. by rewrite Hd.
    + split; [done|]. intros ([|b' l] & Hl & Ht & Hfit & _); [done|]. simpl in Hl. injection Hl as <- _. destruct Hfit as (_ & Hz & _). by specialize (Hz H64).
Qed.

Lemma low_bits_u64 b n : 0 <= n <= 64 -> in_u64 (Z.land b (2 ^ n - 1)).
Proof.
  intros Hn. rewrite land_low by lia. pose proof (Z.pow_pos_nonneg 2 n ltac:(lia) ltac:(lia)).
  pose proof (Z.mod_pos_bound b (2 ^ n) ltac:(lia)). pose proof (Z.pow_le_mono_r 2 n 64 ltac:(lia) ltac:(lia)) as Hp.
  change (2 ^ 64) with 18446744073709551616 in Hp. unfold in_u64, U64_MAX. lia.
Qed.
(** The length of an encoding whose first byte carries [k] bits. *)
Lemma magnitude_tail_length m k j bs :
  m < 2 ^ (7 * Z.of_nat j + k) -> 0 <= k -> encode_magnitude_tail m k = Ok bs -> zlen bs <= Z.of_nat j.
Proof.
  intros Hm Hk He. assert (bs = magnitude_bytes 10 (Z.shiftr m k)) as -> by (unfold encode_magnitude_tail in He; congruence).
  apply magnitude_bytes_length, shiftr_lt; [done|lia|done].
Qed.

(** One round of the decoding loop on a byte that continues. *)
Lemma magnitude_loop_step fuel v shift b rest :
  shift < 64 -> Z.land b 128 <> 0 ->
  magnitude_loop (S fuel) v shift (b :: rest) =
  magnitude_loop fuel (Z.lor v (wrap_u64 (Z.shiftl (Z.land b 127) shift))) (shift + 7) rest.
Proof.
  intros Hs Hb. cbn [magnitude_loop]. rewrite (proj2 (Z.leb_gt _ _)), (proj2 (Z.ltb_lt _ _)) by lia.
  rewrite (mbind_ok _ _ _ _ _ (read_byte_cons _ _)). cbv zeta. by rewrite (proj2 (Z.eqb_neq _ _)).
Qed.

(** The last round, on a byte that does not. *)
Lemma magnitude_loop_last fuel v shift b rest :
  shift < 64 -> Z.land b 128 = 0 ->
  magnitude_loop (S fuel) v shift (b :: rest) = (Ok (Z.lor v (wrap_u64 (Z.shiftl (Z.land b 127) shift))), rest).
Proof.
  intros Hs Hb. cbn [magnitude_loop]. rewrite (proj2 (Z.leb_gt _ _)), (proj2 (Z.ltb_lt _ _)) by lia.
  rewrite (mbind_ok _ _ _ _ _ (read_byte_cons _ _)). cbv zeta. by rewrite Hb.
Qed.

Lemma unsigned_varint_length v bs : in_u64 v -> UnsignedVarInt_encode v = Ok bs -> 1 <= zlen bs <= 10.
Proof.
  intros Hv. unfold UnsignedVarInt_encode. destruct (v <? 128); [by intros [= <-]|].
  intros (b1 & b2 & [= <-] & H2 & ->)%enc_app_inv. cbn [app]. rewrite zlen_cons.
  pose proof (zlen_nonneg b2). apply (magnitude_tail_length v 7 9) in H2; [lia| |lia].
  unfold in_u64, U64_MAX in Hv. change (2 ^ _) with (2 ^ 70). lia.
Qed.

Lemma signed_varint_length s bs : in_u64 (svi_magnitude s) -> SignedVarInt_encode s = Ok bs -> 1 <= zlen bs <= 10.
Proof.
  intros Hv. unfold SignedVarInt_encode. destruct (_ <? 64); [by intros [= <-]|].
  intros (b1 & b2 & [= <-] & H2 & ->)%enc_app_inv. cbn [app]. rewrite zlen_cons.
  pose proof (zlen_nonneg b2). apply (magnitude_tail_length _ 6 9) in H2; [lia| |lia].
  unfold in_u64, U64_MAX in Hv. change (2 ^ _) with (2 ^ 69). lia.
Qed.

Lemma land_low_range b n : 0 <= n -> 0 <= Z.land b (2 ^ n - 1) < 2 ^ n.
Proof. intros Hn. rewrite land_low by done. apply Z.mod_pos_bound. by apply Z.pow_pos_nonneg. Qed.

Lemma unsigned_decodes_within : decodes_within UnsignedVarInt_decode 11 in_u64.
Proof.
  unfold UnsignedVarInt_decode. apply (decodes_within_byte _ 10); [lia|]. intros b. cbv zeta.
  change 127 with (2 ^ 7 - 1). assert (Hb : in_u64 (Z.land b (2 ^ 7 - 1))) by (apply low_bits_u64; lia).
  destruct (_ =? 0); [apply decodes_within_ret; [lia|done]|]. apply (magnitude_loop_within 10); lia || done.
Qed.

Lemma signed_decodes_within : decodes_within SignedVarInt_decode 11 svi_normal.
Proof.
  unfold SignedVarInt_decode. apply (decodes_within_byte _ 10); [lia|]. intros b. cbv zeta.
  change 63 with (2 ^ 6 - 1). assert (Hb : in_u64 (Z.land b (2 ^ 6 - 1))) by (apply low_bits_u64; lia).
  intros bs. destruct (_ =? 0); unfold mbind.
  - exists (Ok (SignedVarInt_new (Z.land b 64 =? 0) (Z.land b (2 ^ 6 - 1)))), [], bs. split_and!; try done.
    intros x [= <-]. by apply SignedVarInt_new_normal.
  - destruct (magnitude_loop_within 10 11 (Z.land b (2 ^ 6 - 1)) 6 ltac:(lia) ltac:(lia) Hb bs)
      as (r & used & rest & Hrun & -> & Hl & Hp & HP). unfold decode_magnitude_tail. rewrite Hrun.
    destruct r as [m|e|]; [|by exists (Err e), used, rest|done].
    eexists _, used, rest. split_and!; try done. intros x [= <-]. by apply SignedVarInt_new_normal, HP.
Qed.

(** The bits of the first byte with its tail, for both kinds of varint. *)
Lemma first_and_tail k first bs w rest :
  0 <= k <= 7 -> 6 <= k ->
  (if Z.land first 128 =? 0 then mret (Z.land first (2 ^ k - 1)) else decode_magnitude_tail (Z.land first (2 ^ k - 1)) k) bs
    = (Ok w, rest) <->
  exists l, bs = l ++ rest /\ (if Z.land first 128 =? 0 then l = [] else terminated l) /\ tail_fits k l /\
    w = (Z.land first (2 ^ k - 1) + tail_value k l) mod 2 ^ 64.
Proof.
  intros Hk Hk6. pose proof (land_low_range first k ltac:(lia)) as Hb. destruct (Z.land first 128 =? 0).
  - assert (Hm : Z.land first (2 ^ k - 1) = (Z.land first (2 ^ k - 1) + 0) mod 2 ^ 64).
    { rewrite Z.add_0_r, Z.mod_small; [done|]. pose proof (Z.pow_le_mono_r 2 k 64). lia. }
    split; [intros [= <- <-]; by exists []|]. by intros (l & -> & -> & _ & ->); unfold mret; rewrite Hm at 1.
  - unfold decode_magnitude_tail. rewrite magnitude_loop_spec; [done|lia|lia|]. by rewrite Z.min_l by lia.
Qed.

Lemma unsigned_decode_iff bs v rest :
  UnsignedVarInt_decode bs = (Ok v, rest) <->
  exists first l, bs = first :: l ++ rest /\ (if Z.land first 128 =? 0 then l = [] else terminated l) /\
    tail_fits 7 l /\ v = (Z.land first 127 + tail_value 7 l) mod 2 ^ 64.
Proof.
  unfold UnsignedVarInt_decode. destruct bs as [|first bs].
  { destruct read_byte_nil as [e He]. unfold mbind. rewrite He. split; [done|]. by intros (first & l & [=] & _). }
  rewrite (mbind_ok _ _ _ _ _ (read_byte_cons _ _)). cbv zeta. change 127 with (2 ^ 7 - 1). rewrite first_and_tail by lia.
  split; [intros (l & -> & H); by exists first, l|]. intros (first' & l & [= <- ->] & H). by exists l.
Qed.

Lemma signed_decode_iff bs v rest :
  SignedVarInt_decode bs = (Ok v, rest) <->
  exists first l, bs = first :: l ++ rest /\ (if Z.land first 128 =? 0 then l = [] else terminated l) /\
    tail_fits 6 l /\ v = SignedVarInt_new (Z.land first 64 =? 0) ((Z.land first 63 + tail_value 6 l) mod 2 ^ 64).
Proof.
  unfold SignedVarInt_decode. destruct bs as [|first bs].
  { destruct read_byte_nil as [e He]. unfold mbind. rewrite He. split; [done|]. by intros (first & l & [=] & _). }
  rewrite (mbind_ok _ _ _ _ _ (read_byte_cons _ _)). cbv zeta. change 63 with (2 ^ 6 - 1).
  pose proof (fun w => first_and_tail 6 first bs w rest ltac:(lia) ltac:(lia)) as Hft. split.
  - intros (m & bs1 & Hm & H)%mbind_returns. unfold mret in H. injection H as <- <-.
    apply Hft in Hm as (l & -> & Ht & Hf & ->). by exists first, l.
  - intros (first' & l & [= <- ->] & Ht & Hf & ->). assert (Hm := proj2 (Hft _) (ex_intro _ l (conj eq_refl (conj Ht (conj Hf eq_refl))))).
    by rewrite (mbind_ok _ _ _ _ _ Hm).
Qed.
End varint.

(** ** The properties *)

Section properties.
Context {ET : ExtTypes} `{CE : !CodecExt} `{!CodecLaws CE}.

(** Every 64-bit value encodes to at most ten bytes and decodes to itself,
    leaving what follows, for unsigned varints and for signed ones with the zero
    the constructors build. *)
Theorem varint_roundtrip v s rest :
  in_u64 v -> svi_normal s ->
  (exists bs, UnsignedVarInt_encode v = Ok bs /\ 1 <= zlen bs <= 10 /\ UnsignedVarInt_decode (bs ++ rest) = (Ok v, rest)) /\
  (exists bs, SignedVarInt_encode s = Ok bs /\ 1 <= zlen bs <= 10 /\ SignedVarInt_decode (bs ++ rest) = (Ok s, rest)).
Proof.
  intros Hv Hs. split.
  - destruct (unsigned_varint_roundtrips v Hv) as (bs & He & Hd). exists bs.
    split_and!; [done|by apply (unsigned_varint_length v)..|apply Hd].
  - destruct (signed_varint_roundtrips s Hs) as (bs & He & Hd). exists bs.
    split_and!; [done|by apply (signed_varint_length s); [apply Hs|]..|apply Hd].
Qed.

(** C38: decoding a varint from arbitrary bytes.  It reads at most eleven of them
    and never panics.  It succeeds exactly on a first byte followed, if its
    continuation bit is set, by a tail of which exactly the last byte has no
    continuation bit, which has no group of seven bits at bit 71 or later, and of
    which every group at bit 64 or later is zero.  What follows is left, and the
    value is that of the groups, the first at bit 7 (unsigned) or 6 (signed), modulo
    2^64; a signed one has the sign of the first byte, with zero positive. *)
Theorem varint_decode_spec :
  (decodes_within UnsignedVarInt_decode 11 in_u64 /\ decodes_within SignedVarInt_decode 11 svi_normal) /\
  (forall bs v rest, UnsignedVarInt_decode bs = (Ok v, rest) <->
     exists first l, bs = first :: l ++ rest /\ (if Z.land first 128 =? 0 then l = [] else terminated l) /\
       tail_fits 7 l /\ v = (Z.land first 127 + tail_value 7 l) mod 2 ^ 64) /\
  (forall bs v rest, SignedVarInt_decode bs = (Ok v, rest) <->
     exists first l, bs = first :: l ++ rest /\ (if Z.land first 128 =? 0 then l = [] else terminated l) /\
       tail_fits 6 l /\
       v = SignedVarInt_new (Z.land first 64 =? 0) ((Z.land first 63 + tail_value 6 l) mod 2 ^ 64)).
Proof.
  split; [split; [apply unsigned_decodes_within|apply signed_decodes_within]|].
  split; [apply unsigned_decode_iff|apply signed_decode_iff].
Qed.

(** The decoder accepts encodings of more than 64 bits: in the last byte
    that is shifted by less than 64 it drops the bits that do not fit, so ten
    bytes with excess bits decode to the same value as the encoding of that
    value. *)
Theorem unsigned_varint_drops_bits excess rest :
  0 <= excess < 64 ->
  UnsignedVarInt_encode U64_MAX = Ok (repeat 255 9 ++ [1]) /\
  UnsignedVarInt_decode (repeat 255 9 ++ [2 * excess + 1] ++ rest) = (Ok U64_MAX, rest).
Proof.
  intros He. split; [vm_compute; reflexivity|].
  assert (Hb : Z.land (2 * excess + 1) 128 = 0 /\ wrap_u64 (Z.shiftl (Z.land (2 * excess + 1) 127) 63) = 2 ^ 63).
  { pose proof (below_forall 64 (fun e => (Z.land (2 * e + 1) 128 =? 0) &&
      (wrap_u64 (Z.shiftl (Z.land (2 * e + 1) 127) 63) =? 2 ^ 63)) ltac:(vm_compute; reflexivity) excess) as H.
    specialize (H He). cbv beta in H. by zbool. }
  destruct Hb as [Hb1 Hb2]. unfold UnsignedVarInt_decode, decode_magnitude_tail.
  cbn [repeat app]. rewrite (mbind_ok _ _ _ _ _ (read_byte_cons _ _)).
  change (Z.land 255 128 =? 0) with false. cbn iota zeta.
  do 8 (rewrite magnitude_loop_step by done).
  rewrite magnitude_loop_last by done.
  change (7 + 7 + 7 + 7 + 7 + 7 + 7 + 7 + 7) with 63. rewrite Hb2. vm_compute. reflexivity.
Qed.
End properties.
