(* ===== verification/DaFramework.v ===== *)
(** * DA write primitives ([crates/da-framework/src])

    Registers, counters with their schemes and builder, linear accumulators, and
    the bitmap framing of compound types.  A DA write is a change to a target
    value; a compound member is a write that is encoded only when it changes
    something, with one mask bit saying so.  What a write promises (applying the
    difference of two values to the first gives the second, and it round-trips)
    is stated as classes that the primitives satisfy. *)

From Stdlib Require Import String.
From S2P Require Import Prelude Identifiers CodecTypes Varint64.

Inductive BuilderError := OutOfBoundsValue | Unimplemented.

(** ** [compound.rs]: members and the bitmap *)

Record CompoundMember {ET : ExtTypes} (C : Type) := {
  cm_default : C;
  cm_is_default : C -> bool;
  cm_decode_set : M CodecError bytes C;
  cm_encode_set : C -> res CodecError bytes;
}.
Arguments cm_default {_ _}.
Arguments cm_is_default {_ _}.
Arguments cm_decode_set {_ _}.
Arguments cm_encode_set {_ _}.

(** [Bitmap for u8] and the wider unsigned types, of [bits] bits. *)
Definition bitmap_get (mask off : Z) : bool := Z.land (Z.shiftr mask off) 1 =? 1.
Definition bitmap_put (bits mask off : Z) (b : bool) : Z :=
  let m := Z.shiftl 1 (off mod bits) in
  if b then Z.lor mask m else Z.ldiff mask m.

Record BitSeqWriter := { bsw_off : Z; bsw_mask : Z }.
Definition BitSeqWriter_new : BitSeqWriter := {| bsw_off := 0; bsw_mask := 0 |}.

Record BitSeqReader := { bsr_off : Z; bsr_mask : Z }.
Definition BitSeqReader_from_mask (mask : Z) : BitSeqReader := {| bsr_off := 0; bsr_mask := mask |}.

Section compound.
Context {ET : ExtTypes} (bits : Z).

Definition prepare_member {C} (m : CompoundMember C) (c : C) (w : BitSeqWriter) : BitSeqWriter :=
  {| bsw_off := bsw_off w + 1; bsw_mask := bitmap_put bits (bsw_mask w) (bsw_off w) (negb (cm_is_default m c)) |}.

(** [next_bit]: panics when the bits are used up. *)
Definition next_bit {E B} : M E (BitSeqReader * B) bool := fun s =>
  let '(r, b) := s in
  if bits <=? bsr_off r then (Panic, s)
  else (Ok (bitmap_get (bsr_mask r) (bsr_off r)), ({| bsr_off := bsr_off r + 1; bsr_mask := bsr_mask r |}, b)).

Definition decode_next_member {C} (m : CompoundMember C) : M CodecError (BitSeqReader * bytes) C :=
  let* set := next_bit in
  if set then (fun s => let '(r, b) := s in let '(x, b') := cm_decode_set m b in (x, (r, b')))
  else mret (cm_default m).

(** The part of a compound's encoding that belongs to one member. *)
Definition member_bytes {C} (m : CompoundMember C) (c : C) : res CodecError bytes :=
  if negb (cm_is_default m c) then cm_encode_set m c else Ok [].

(** Decoding a compound: the mask, then the members with the reader over it. *)
Definition decode_compound {T} (mask : CodecOf Z) (members : M CodecError (BitSeqReader * bytes) T)
    : M CodecError bytes T := fun b =>
  match decode mask b with
  | (Ok m, b') => let '(r, (_, b'')) := members (BitSeqReader_from_mask m, b') in (r, b'')
  | (Err e, b') => (Err e, b')
  | (Panic, b') => (Panic, b')
  end.
End compound.

(** ** [register.rs] *)

Record DaRegister (T : Type) := { dr_new_value : option T }.
Arguments dr_new_value {_}.
Arguments Build_DaRegister {_}.

Section register.
Context {ET : ExtTypes} `{CE : !CodecExt} {T : Type}.

Definition DaRegister_new_set (v : T) : DaRegister T := {| dr_new_value := Some v |}.
Definition DaRegister_new_unset : DaRegister T := {| dr_new_value := None |}.

Definition DaRegister_compare `{!EqDecision T} (orig new : T) : DaRegister T :=
  if decide (new = orig) then DaRegister_new_unset else DaRegister_new_set new.

Definition DaRegister_is_default (r : DaRegister T) : bool :=
  match dr_new_value r with None => true | Some _ => false end.

Definition DaRegister_apply {E} (r : DaRegister T) : M E T unit :=
  mmodify (fun t => match dr_new_value r with Some v => v | None => t end).

Definition DaRegister_encode_set (c : CodecOf T) (r : DaRegister T) : res CodecError bytes :=
  match dr_new_value r with
  | Some v => encode c v
  | None => Err (malformed_field "tried to encode unset register")
  end.

Definition register_member (c : CodecOf T) : CompoundMember (DaRegister T) := {|
  cm_default := DaRegister_new_unset;
  cm_is_default := DaRegister_is_default;
  cm_decode_set := let* v := decode c in mret (DaRegister_new_set v);
  cm_encode_set := DaRegister_encode_set c;
|}.

(** The standalone codec of a register, tagged with a flag. *)
Definition register_codec (c : CodecOf T) : CodecOf (DaRegister T) := {|
  encode r := match dr_new_value r with
              | Some v => encode bool_codec true +++ encode c v
              | None => encode bool_codec false
              end;
  decode := let* set := decode bool_codec in
            if set then let* v := decode c in mret (DaRegister_new_set v) else mret DaRegister_new_unset;
|}.
End register.

(** ** [counter.rs] *)

Record CounterScheme {ET : ExtTypes} := {
  cs_base : Type;
  cs_incr : Type;
  cs_is_zero : cs_incr -> bool;
  cs_update : cs_base -> cs_incr -> cs_base;
  cs_compare : cs_base -> cs_base -> option cs_incr;
  cs_codec : CodecOf cs_incr;
}.

Section counter.
Context {ET : ExtTypes} `{CE : !CodecExt} (S : CounterScheme).

Inductive DaCounter :=
| Unchanged
| Changed (v : cs_incr S).

Definition DaCounter_diff (c : DaCounter) : option (cs_incr S) :=
  match c with Unchanged => None | Changed v => Some v end.

Definition DaCounter_new_changed (v : cs_incr S) : DaCounter :=
  if cs_is_zero S v then Unchanged else Changed v.

Definition DaCounter_is_default (c : DaCounter) : bool :=
  match c with Unchanged => true | Changed _ => false end.

Definition DaCounter_apply {E} (c : DaCounter) : M E (cs_base S) unit :=
  mmodify (fun t => match c with Changed v => cs_update S t v | Unchanged => t end).

Definition counter_member : CompoundMember DaCounter := {|
  cm_default := Unchanged;
  cm_is_default := DaCounter_is_default;
  cm_decode_set := let* v := decode (cs_codec S) in mret (DaCounter_new_changed v);
  cm_encode_set c := match c with
                     | Unchanged => Err (invalid_variant "counter")
                     | Changed d => encode (cs_codec S) d
                     end;
|}.

Record DaCounterBuilder := { dcb_original : cs_base S; dcb_new : cs_base S }.

Definition DaCounterBuilder_from_source (t : cs_base S) : DaCounterBuilder :=
  {| dcb_original := t; dcb_new := t |}.

Definition DaCounterBuilder_set (v : cs_base S) : M BuilderError DaCounterBuilder unit := fun b =>
  match cs_compare S (dcb_original b) v with
  | None => (Err OutOfBoundsValue, b)
  | Some _ => (Ok tt, {| dcb_original := dcb_original b; dcb_new := v |})
  end.

Definition DaCounterBuilder_add (d : cs_incr S) : M BuilderError DaCounterBuilder unit := fun b =>
  DaCounterBuilder_set (cs_update S (dcb_new b) d) b.

Definition DaCounterBuilder_into_write (b : DaCounterBuilder) : res BuilderError DaCounter :=
  let! d := ok_or (cs_compare S (dcb_original b) (dcb_new b)) OutOfBoundsValue in
  Ok (if cs_is_zero S d then Unchanged else DaCounter_new_changed d).
End counter.

Arguments Unchanged {_ _}.
Arguments Changed {_ _}.
Arguments DaCounter_diff {_ _}.
Arguments DaCounter_is_default {_ _}.
Arguments DaCounter_apply {_ _ _}.
Arguments Build_DaCounterBuilder {_ _}.
Arguments dcb_original {_ _}.
Arguments dcb_new {_ _}.
Arguments DaCounterBuilder_set {_ _}.
Arguments DaCounterBuilder_add {_ _}.
Arguments DaCounterBuilder_into_write {_ _}.

(** *** Schemes *)

(** [x as T] for the integer type with values [lo..=hi]. *)
Definition wrap_to (lo hi x : Z) : Z := (x - lo) mod (hi - lo + 1) + lo.

(** [T::try_from]. *)
Definition try_from (lo hi x : Z) : option Z := if (lo <=? x) && (x <=? hi) then Some x else None.

Definition I64_MAX : Z := 9223372036854775807.

Section schemes.
Context {ET : ExtTypes} `{CE : !CodecExt}.

(** [inst_direct_ctr_schemes!]: base values in [blo..=bhi], increments in
    [ilo..=ihi]. *)
Definition direct_ctr_scheme (blo bhi ilo ihi : Z) (c : CodecOf Z) : CounterScheme := {|
  cs_base := Z; cs_incr := Z;
  cs_is_zero incr := incr =? 0;
  cs_update base incr := wrap_to blo bhi (base + incr);
  cs_compare a b := match try_from blo bhi (b - a) with Some d => try_from ilo ihi d | None => None end;
  cs_codec := c;
|}.

(** [inst_via_ctr_schemes!], via [i64]. *)
Definition via_ctr_scheme (blo bhi ilo ihi : Z) (c : CodecOf Z) : CounterScheme := {|
  cs_base := Z; cs_incr := Z;
  cs_is_zero incr := incr =? 0;
  cs_update base incr := wrap_to blo bhi (wrap_i64 (wrap_i64 base + incr));
  cs_compare a b :=
    match try_from I64_MIN I64_MAX a, try_from I64_MIN I64_MAX b with
    | Some aa, Some bb =>
        match try_from I64_MIN I64_MAX (bb - aa) with Some d => try_from ilo ihi d | None => None end
    | _, _ => None
    end;
  cs_codec := c;
|}.

Definition CtrU64ByU8 := direct_ctr_scheme 0 U64_MAX 0 255 u8_codec.
Definition CtrU64ByU16 := direct_ctr_scheme 0 U64_MAX 0 U16_MAX u16_codec.
Definition CtrU32ByU8 := direct_ctr_scheme 0 U32_MAX 0 255 u8_codec.
Definition CtrU32ByU16 := direct_ctr_scheme 0 U32_MAX 0 U16_MAX u16_codec.
Definition CtrI64ByI8 := direct_ctr_scheme I64_MIN I64_MAX (-128) 127 i8_codec.
Definition CtrI64ByI16 := direct_ctr_scheme I64_MIN I64_MAX (-32768) 32767 i16_codec.
Definition CtrU64ByI8 := via_ctr_scheme 0 U64_MAX (-128) 127 i8_codec.
Definition CtrU64ByI16 := via_ctr_scheme 0 U64_MAX (-32768) 32767 i16_codec.
Definition CtrU32ByI8 := via_ctr_scheme 0 U32_MAX (-128) 127 i8_codec.
Definition CtrU32ByI16 := via_ctr_scheme 0 U32_MAX (-32768) 32767 i16_codec.
Definition CtrI32ByI8 := via_ctr_scheme (-2147483648) 2147483647 (-128) 127 i8_codec.
Definition CtrI32ByI16 := via_ctr_scheme (-2147483648) 2147483647 (-32768) 32767 i16_codec.

Definition CtrU64ByUnsignedVarInt : CounterScheme := {|
  cs_base := Z; cs_incr := Z;
  cs_is_zero incr := incr =? 0;
  cs_update base incr := saturating_add_u64 base incr;
  cs_compare a b := checked_sub b a;
  cs_codec := unsigned_varint_codec;
|}.

Definition CtrU64BySignedVarInt : CounterScheme := {|
  cs_base := Z; cs_incr := SignedVarInt;
  cs_is_zero := svi_is_zero;
  cs_update base incr :=
    if svi_positive incr then saturating_add_u64 base (svi_magnitude incr)
    else Z.max (base - svi_magnitude incr) 0;
  cs_compare a b :=
    Some (if a <=? b then SignedVarInt_new true (b - a) else SignedVarInt_new false (a - b));
  cs_codec := signed_varint_codec;
|}.
End schemes.

(** ** [linear_acc.rs] *)

Record LinearAccumulator {ET : ExtTypes} := {
  la_acc : Type;
  la_entry : Type;
  la_insert : la_acc -> la_entry -> la_acc;
  la_cnt_type_max : Z;
  la_max_insert : Z;
  la_cnt_codec : CodecOf Z;
  la_entry_codec : CodecOf la_entry;
}.

Section linacc.
Context {ET : ExtTypes} `{CE : !CodecExt} (A : LinearAccumulator).

Record DaLinacc := { dla_new_entries : list (la_entry A) }.
Definition DaLinacc_new : DaLinacc := {| dla_new_entries := [] |}.

(** Panics if the count does not fit its type. *)
Definition is_write_full {E} (l : DaLinacc) : res E bool :=
  if la_cnt_type_max A <? zlen (dla_new_entries l) then Panic
  else Ok (la_max_insert A <=? zlen (dla_new_entries l)).

Definition append_entry {E} (e : la_entry A) : M E DaLinacc bool := fun l =>
  match is_write_full l with
  | Ok true => (Ok false, l)
  | Ok false => (Ok true, {| dla_new_entries := dla_new_entries l ++ [e] |})
  | Err e => (Err e, l)
  | Panic => (Panic, l)
  end.

Definition DaLinacc_is_default (l : DaLinacc) : bool :=
  match dla_new_entries l with [] => true | _ => false end.

Definition DaLinacc_apply {E} (l : DaLinacc) : M E (la_acc A) unit :=
  mmodify (fun t => fold_left (la_insert A) (dla_new_entries l) t).

Definition linacc_member : CompoundMember DaLinacc := {|
  cm_default := DaLinacc_new;
  cm_is_default := DaLinacc_is_default;
  cm_decode_set :=
    let* cnt := decode (la_cnt_codec A) in
    if la_max_insert A <? cnt then merr overflow_container else
    let* l := decode_n (la_entry_codec A) (Z.to_nat cnt) in
    mret {| dla_new_entries := l |};
  cm_encode_set l :=
    (if zlen (dla_new_entries l) <=? la_cnt_type_max A then encode (la_cnt_codec A) (zlen (dla_new_entries l))
     else Err overflow_container) +++
    encode_each (la_entry_codec A) (dla_new_entries l);
|}.
End linacc.

Arguments dla_new_entries {_ _}.
Arguments append_entry {_ _ _}.
Arguments DaLinacc_is_default {_ _}.
Arguments DaLinacc_apply {_ _ _}.

(** * What DA writes promise

    Counters: the increment between two values, applied to the first, gives the
    second, for every scheme; builders produce such writes.  Compound members
    decode to what was encoded, behind the mask bit that says whether they are
    present.  Linear accumulators insert their entries in order and never exceed
    their bound. *)

Section counters.
Context {ET : ExtTypes} `{CE : !CodecExt}.

(** ** Counter schemes *)

Class SchemeLaws (S : CounterScheme) (VB : cs_base S -> Prop) (VI : cs_incr S -> Prop) : Prop := {
  scheme_compare a b d : VB a -> VB b -> cs_compare S a b = Some d ->
    cs_update S a d = b /\ VI d /\ (cs_is_zero S d = true <-> a = b);
  scheme_codec : roundtrips (cs_codec S) VI;
}.

Lemma try_from_some lo hi x y : try_from lo hi x = Some y -> y = x /\ lo <= x <= hi.
Proof. unfold try_from. destruct (_ && _) eqn:H; intros; simplify_eq. zbool. done. Qed.

Lemma wrap_to_id lo hi x : lo <= x <= hi -> wrap_to lo hi x = x.
Proof. intros Hx. unfold wrap_to. rewrite Z.mod_small by lia. lia. Qed.

Lemma wrap_i64_id x : I64_MIN <= x <= I64_MAX -> wrap_i64 x = x.
Proof. intros Hx. unfold wrap_i64, I64_MIN, I64_MAX, U64_MAX in *. rewrite Z.mod_small by lia. lia. Qed.

Lemma direct_scheme_laws blo bhi ilo ihi c :
  roundtrips c (fun x => ilo <= x <= ihi) ->
  SchemeLaws (direct_ctr_scheme blo bhi ilo ihi c) (fun x => blo <= x <= bhi) (fun x => ilo <= x <= ihi).
Proof.
  intros Hc. split; [|done]. simpl. intros a b d Ha Hb H.
  destruct (try_from blo bhi (b - a)) as [d'|] eqn:H1; [|done].
  apply try_from_some in H1 as [-> H1]. apply try_from_some in H as [-> H].
  rewrite wrap_to_id by lia. split_and!; lia.
Qed.

Lemma via_scheme_laws blo bhi ilo ihi c :
  roundtrips c (fun x => ilo <= x <= ihi) ->
  SchemeLaws (via_ctr_scheme blo bhi ilo ihi c) (fun x => blo <= x <= bhi) (fun x => ilo <= x <= ihi).
Proof.
  intros Hc. split; [|done]. simpl. intros a b d Ha Hb H.
  destruct (try_from I64_MIN I64_MAX a) as [aa|] eqn:H1; [|done]. apply try_from_some in H1 as [-> H1].
  destruct (try_from I64_MIN I64_MAX b) as [bb|] eqn:H2; [|done]. apply try_from_some in H2 as [-> H2].
  destruct (try_from I64_MIN I64_MAX (b - a)) as [dd|] eqn:H3; [|done]. apply try_from_some in H3 as [-> H3].
  apply try_from_some in H as [-> H]. rewrite (wrap_i64_id a), wrap_i64_id by lia.
  rewrite wrap_to_id by lia. split_and!; lia.
Qed.

Context `{!CodecLaws CE}.

#[export] Instance unsigned_scheme_laws : SchemeLaws CtrU64ByUnsignedVarInt in_u64 in_u64.
Proof.
  split; [|apply unsigned_varint_roundtrips]. simpl. intros a b d Ha Hb H. unfold_widths.
  destruct (_ <=? _) eqn:Hle; [|done]. simplify_eq. zbool. rewrite Z.min_l by lia. split_and!; lia.
Qed.

#[export] Instance signed_scheme_laws : SchemeLaws CtrU64BySignedVarInt in_u64 svi_normal.
Proof.
  split; [|apply signed_varint_roundtrips]. simpl. intros a b d Ha Hb [= <-]. unfold in_u64 in *.
  unfold SignedVarInt_new, svi_is_zero, saturating_add_u64.
  destruct (a <=? b) eqn:Hle; zbool; destruct (_ =? 0) eqn:Hz; zbool; simpl.
  - rewrite Z.min_l by lia. split_and!; [lia|split; simpl; unfold in_u64, U64_MAX; lia || done|]. split; [lia|done].
  - rewrite Z.min_l by lia. split_and!; [lia|split; simpl; unfold in_u64; lia|]. rewrite Z.eqb_eq. lia.
  - lia.
  - rewrite Z.max_l by lia. split_and!; [lia|split; simpl; unfold in_u64; lia|]. rewrite Z.eqb_eq. lia.
Qed.

#[export] Instance CtrU64ByU16_laws : SchemeLaws CtrU64ByU16 in_u64 in_u16.
Proof. apply direct_scheme_laws, u16_roundtrips. Qed.

(** ** Builders *)

Lemma builder_set_write (S : CounterScheme) VB VI `{!SchemeLaws S VB VI} (b b' : DaCounterBuilder S) v :
  VB (dcb_original b) -> VB v -> DaCounterBuilder_set v b = (Ok tt, b') ->
  exists w, DaCounterBuilder_into_write b' = Ok w /\
    DaCounter_apply (E := unit) w (dcb_original b) = (Ok tt, v) /\
    (w = Unchanged <-> dcb_original b = v) /\ (forall d, w = Changed d -> VI d /\ cs_is_zero S d = false).
Proof.
  intros Hb Hv. unfold DaCounterBuilder_set. destruct (cs_compare S _ v) as [d|] eqn:Hc; [|done]. intros [= <-].
  unfold DaCounterBuilder_into_write. simpl. rewrite Hc. simpl. eexists. split; [done|].
  destruct (scheme_compare _ _ _ Hb Hv Hc) as (Hu & Hi & Hz). unfold DaCounter_new_changed.
  unfold DaCounter_apply, mmodify. destruct (cs_is_zero S d) eqn:Hd; simpl.
  - assert (Heq : dcb_original b = v) by (by apply Hz). rewrite Heq. by split_and!.
  - rewrite Hu. split; [done|]. split; [|by intros d' [= <-]].
    split; [done|]. intros Heq. apply Hz in Heq. congruence.
Qed.

(** ** Members *)

(** [P]-values are the default one or survive being encoded and decoded. *)
Record member_ok {C} (m : CompoundMember C) (P : C -> Prop) : Prop := {
  mo_default x : P x -> cm_is_default m x = true -> x = cm_default m;
  mo_set x : P x -> cm_is_default m x = false ->
    exists bs, cm_encode_set m x = Ok bs /\ forall rest, cm_decode_set m (bs ++ rest) = (Ok x, rest);
}.

Definition register_of {T} (P : T -> Prop) (r : DaRegister T) : Prop :=
  match dr_new_value r with Some v => P v | None => True end.

Lemma register_member_ok {T} (c : CodecOf T) P : roundtrips c P -> member_ok (register_member c) (register_of P).
Proof.
  intros Hc. split; intros [[v|]]; unfold register_of; simpl; try done.
  intros Hv _. destruct (Hc v Hv) as (bs & He & Hd). exists bs. split; [done|]. intros rest.
  by rewrite (mbind_ok _ _ _ _ _ (Hd _)).
Qed.

Definition counter_of (S : CounterScheme) (VI : cs_incr S -> Prop) (c : DaCounter S) : Prop :=
  match c with Unchanged => True | Changed d => VI d /\ cs_is_zero S d = false end.

Lemma counter_member_ok (S : CounterScheme) VB VI `{!SchemeLaws S VB VI} :
  member_ok (counter_member S) (counter_of S VI).
Proof.
  split; intros [|d]; simpl; try done. intros [Hd Hz] _. destruct (scheme_codec d Hd) as (bs & He & Hdec).
  exists bs. split; [done|]. intros rest. rewrite (mbind_ok _ _ _ _ _ (Hdec _)).
  unfold DaCounter_new_changed. by rewrite Hz.
Qed.

Definition linacc_of (A : LinearAccumulator) (P : la_entry A -> Prop) (l : DaLinacc A) : Prop :=
  zlen (dla_new_entries l) <= la_max_insert A /\ Forall P (dla_new_entries l).

Lemma linacc_member_ok (A : LinearAccumulator) P :
  la_max_insert A <= la_cnt_type_max A ->
  roundtrips (la_cnt_codec A) (fun n => 0 <= n <= la_max_insert A) -> roundtrips (la_entry_codec A) P ->
  member_ok (linacc_member A) (linacc_of A P).
Proof.
  intros Hm Hcnt Hent. split.
  - intros [[|e l]]; done.
  - intros [l] [Hl HP] _. simpl in *. pose proof (zlen_nonneg l).
    destruct (Hcnt (zlen l)) as (b1 & He1 & Hd1); [lia|].
    destruct (encode_each_roundtrips _ P l Hent HP) as (b2 & He2 & Hd2). exists (b1 ++ b2).
    rewrite (proj2 (Z.leb_le _ _)) by lia. split; [by apply enc_app_ok|]. intros rest.
    rewrite <- app_assoc, (mbind_ok _ _ _ _ _ (Hd1 _)), (proj2 (Z.ltb_ge _ _)) by lia.
    assert (Z.to_nat (zlen l) = length l) as -> by (unfold zlen; lia). by rewrite (mbind_ok _ _ _ _ _ (Hd2 _)).
Qed.

(** ** The bitmap *)

Lemma bitmap_get_testbit mask off : 0 <= off -> bitmap_get mask off = Z.testbit mask off.
Proof.
  intros Ho. unfold bitmap_get. change 1 with (2 ^ 1 - 1) at 1. rewrite land_low by done.
  change (2 ^ 1) with 2. rewrite <- Z.bit0_mod, Z.shiftr_spec, Z.add_0_l by done. by destruct (Z.testbit mask off).
Qed.

Lemma bitmap_put_testbit bits mask off b i :
  0 <= off < bits -> 0 <= i -> Z.testbit (bitmap_put bits mask off b) i = if i =? off then b else Z.testbit mask i.
Proof.
  intros Ho Hi. unfold bitmap_put. rewrite Z.mod_small by done.
  assert (Hs : Z.testbit (Z.shiftl 1 off) i = (i =? off)).
  { rewrite Z.shiftl_1_l, Z.pow2_bits_eqb by lia. apply Z.eqb_sym. }
  destruct b; [rewrite Z.lor_spec|rewrite Z.ldiff_spec]; rewrite Hs; destruct (i =? off), (Z.testbit mask i); done.
Qed.

(** What a writer has recorded after members with the flags [fs]. *)
Definition prepared (w : BitSeqWriter) (fs : list bool) : Prop :=
  bsw_off w = zlen fs /\ (forall i, 0 <= i -> Z.testbit (bsw_mask w) i = nth (Z.to_nat i) fs false) /\
  0 <= bsw_mask w < 2 ^ zlen fs.

Lemma prepared_new : prepared BitSeqWriter_new [].
Proof.
  split_and!; simpl; try done. intros i Hi. rewrite Z.bits_0. by destruct (Z.to_nat i).
Qed.

Lemma prepared_member bits {C} (m : CompoundMember C) c w fs :
  zlen fs < bits -> prepared w fs -> prepared (prepare_member bits m c w) (fs ++ [negb (cm_is_default m c)]).
Proof.
  intros Hb (Ho & Ht & Hr). pose proof (zlen_nonneg fs) as Hn. unfold prepare_member. simpl. rewrite Ho.
  assert (Hbits : forall i, 0 <= i -> Z.testbit (bitmap_put bits (bsw_mask w) (zlen fs) (negb (cm_is_default m c))) i =
    nth (Z.to_nat i) (fs ++ [negb (cm_is_default m c)]) false).
  { intros i Hi. rewrite bitmap_put_testbit by lia. destruct (i =? zlen fs) eqn:He; zbool.
    - subst i. unfold zlen. rewrite Nat2Z.id, app_nth2, Nat.sub_diag by lia. done.
    - rewrite Ht by done. destruct (Z.lt_ge_cases i (zlen fs)) as [Hlt|Hge].
      + rewrite app_nth1; [done|]. unfold zlen in Hlt. lia.
      + unfold zlen in *. rewrite !nth_overflow; [done| |]; rewrite ?length_app; simpl; lia. }
  split_and!; simpl; [by autorewrite with zlen|exact Hbits|..].
  - unfold bitmap_put. rewrite Z.mod_small by lia. rewrite Z.shiftl_1_l.
    destruct (negb _); [apply Z.lor_nonneg|apply Z.ldiff_nonneg]; lia.
  - autorewrite with zlen. rewrite Z.add_0_l. unfold bitmap_put. rewrite Z.mod_small, Z.shiftl_1_l by lia.
    assert (Hp : 2 ^ (zlen fs + 1) = 2 * 2 ^ zlen fs) by (rewrite Z.pow_add_r by lia; lia).
    destruct (negb _).
    + apply (lor_lt_pow2 (bsw_mask w) (2 ^ zlen fs) (zlen fs + 1)); lia.
    + assert (Z.ldiff (bsw_mask w) (2 ^ zlen fs) = bsw_mask w) as ->; [|lia].
      apply Z.bits_inj'. intros i Hi. rewrite Z.ldiff_spec, Z.pow2_bits_eqb by done.
      destruct (zlen fs =? i) eqn:He; zbool; [|by rewrite andb_true_r].
      subst i. rewrite Ht by done. unfold zlen. by rewrite Nat2Z.id, nth_overflow.
Qed.

(** Reading a member back. *)
Lemma decode_next_member_ok bits {C} (m : CompoundMember C) P c off mask bs rest :
  member_ok m P -> P c -> 0 <= off < bits -> Z.testbit mask off = negb (cm_is_default m c) ->
  member_bytes m c = Ok bs ->
  decode_next_member bits m ({| bsr_off := off; bsr_mask := mask |}, bs ++ rest) =
    (Ok c, ({| bsr_off := off + 1; bsr_mask := mask |}, rest)).
Proof.
  intros [Hd Hs] Hc Ho Ht Hb. unfold decode_next_member, next_bit, mbind. simpl.
  rewrite (proj2 (Z.leb_gt _ _)), bitmap_get_testbit, Ht by lia. unfold member_bytes in Hb.
  destruct (cm_is_default m c) eqn:Hdef; simpl in *.
  - simplify_eq. simpl. by rewrite (Hd c).
  - destruct (Hs c Hc Hdef) as (bs' & He & Hdec). assert (bs' = bs) as -> by congruence. by rewrite Hdec.
Qed.

Lemma member_bytes_ok {C} (m : CompoundMember C) P c :
  member_ok m P -> P c -> exists bs, member_bytes m c = Ok bs.
Proof.
  intros [_ Hs] Hc. unfold member_bytes. destruct (cm_is_default m c) eqn:Hdef; simpl; [eauto|].
  destruct (Hs c Hc Hdef) as (bs & He & _). eauto.
Qed.
End counters.
