(* ===== verification/DaQueue.v ===== *)
(** * The queue DA pattern ([crates/da-framework/src/queue.rs])

    A write that appends entries to the back of a queue and moves its front, the
    builder that accumulates one, and the view that reads a queue through the
    pending changes of a builder.  The view agrees with the queue the write leads
    to as long as only entries of the original queue are consumed; entries that
    were appended and consumed in the same write are counted twice. *)

From S2P Require Import Prelude Identifiers CodecTypes Varint64 DaFramework.

Definition HEAD_WORD_INCR_MASK : Z := 32767.
Definition TAIL_BIT_SHIFT : Z := 15.

Record DaQueueTarget {ET : ExtTypes} := {
  dqt_state : Type;
  dqt_entry : Type;
  cur_front : dqt_state -> Z;
  cur_next : dqt_state -> Z;
  increment_front : dqt_state -> Z -> dqt_state;
  dqt_get : dqt_state -> Z -> option dqt_entry;
  insert_entries : dqt_state -> list dqt_entry -> dqt_state;
  dqt_entry_codec : CodecOf dqt_entry;
}.

(** [decode_head] and [encode_head]. *)
Definition decode_head (v : Z) : bool * Z :=
  (0 <? Z.shiftr v TAIL_BIT_SHIFT, Z.land v HEAD_WORD_INCR_MASK).

Definition encode_head {E} (new_entries : bool) (v : Z) : res E Z :=
  if HEAD_WORD_INCR_MASK <? v then Panic
  else Ok (Z.lor (Z.shiftl (if new_entries then 1 else 0) TAIL_BIT_SHIFT) (Z.land v HEAD_WORD_INCR_MASK)).

Section queue.
Context {ET : ExtTypes} `{CE : !CodecExt} (Q : DaQueueTarget).

Record DaQueue := { dq_tail : list (dqt_entry Q); dq_incr_front : Z }.
Definition DaQueue_default : DaQueue := {| dq_tail := []; dq_incr_front := 0 |}.

Definition DaQueue_is_default (q : DaQueue) : bool :=
  match dq_tail q with [] => dq_incr_front q =? 0 | _ => false end.

Definition DaQueue_apply {E} (q : DaQueue) : M E (dqt_state Q) unit :=
  mmodify (fun t => insert_entries Q t (dq_tail q)) ;;;
  (if 0 <? dq_incr_front q then mmodify (fun t => increment_front Q t (dq_incr_front q)) else mret tt).

(** The tail length is cast to [u16]. *)
Definition queue_member : CompoundMember DaQueue := {|
  cm_default := DaQueue_default;
  cm_is_default := DaQueue_is_default;
  cm_decode_set :=
    let* head := decode u16_codec in
    let '(is_tail_entries, incr_front) := decode_head head in
    let* tail := if is_tail_entries
                 then let* n := decode u16_codec in decode_n (dqt_entry_codec Q) (Z.to_nat n)
                 else mret [] in
    mret {| dq_tail := tail; dq_incr_front := incr_front |};
  cm_encode_set q :=
    let is_tail_entries := match dq_tail q with [] => false | _ => true end in
    (let! head := encode_head is_tail_entries (dq_incr_front q) in encode u16_codec head) +++
    (if is_tail_entries
     then encode u16_codec (wrap_to 0 U16_MAX (zlen (dq_tail q))) +++ encode_each (dqt_entry_codec Q) (dq_tail q)
     else Ok []);
|}.

(** ** The builder *)

Record DaQueueBuilder := {
  dqb_original_front_pos : Z;
  dqb_new_front_pos : Z;
  dqb_original_next_pos : Z;
  dqb_new_entries : list (dqt_entry Q);
}.

Definition DaQueueBuilder_from_source (t : dqt_state Q) : DaQueueBuilder :=
  {| dqb_original_front_pos := cur_front Q t; dqb_new_front_pos := cur_front Q t;
     dqb_original_next_pos := cur_next Q t; dqb_new_entries := [] |}.

Definition next_idx (b : DaQueueBuilder) : Z := dqb_original_next_pos b + zlen (dqb_new_entries b).

Definition add_front_incr (b : DaQueueBuilder) (incr : Z) : bool * DaQueueBuilder :=
  if incr =? 0 then (true, b)
  else if next_idx b <=? dqb_new_front_pos b then (false, b)
  else
    let incr_front := dqb_new_front_pos b - dqb_original_front_pos b in
    let new_front := dqb_new_front_pos b + incr in
    if next_idx b <? new_front then (false, b)
    else if HEAD_WORD_INCR_MASK <=? incr + incr_front then (false, b)
    else (true, {| dqb_original_front_pos := dqb_original_front_pos b; dqb_new_front_pos := new_front;
                   dqb_original_next_pos := dqb_original_next_pos b; dqb_new_entries := dqb_new_entries b |}).

Definition DaQueueBuilder_append_entry (b : DaQueueBuilder) (e : dqt_entry Q) : bool * DaQueueBuilder :=
  if U16_MAX <=? zlen (dqb_new_entries b) then (false, b)
  else (true, {| dqb_original_front_pos := dqb_original_front_pos b; dqb_new_front_pos := dqb_new_front_pos b;
                 dqb_original_next_pos := dqb_original_next_pos b; dqb_new_entries := dqb_new_entries b ++ [e] |}).

Definition consumed_new_entries (b : DaQueueBuilder) : Z :=
  if dqb_new_front_pos b <=? dqb_original_next_pos b then 0
  else dqb_new_front_pos b - dqb_original_next_pos b.

(** [drain(..n)] panics when there are fewer than [n] entries. *)
Definition DaQueueBuilder_into_write (b : DaQueueBuilder) : res BuilderError DaQueue :=
  if zlen (dqb_new_entries b) <? consumed_new_entries b then Panic else
  let tail := drop (Z.to_nat (consumed_new_entries b)) (dqb_new_entries b) in
  let! incr_front := ok_or (try_from 0 U16_MAX (dqb_new_front_pos b - dqb_original_front_pos b)) OutOfBoundsValue in
  Ok {| dq_tail := tail; dq_incr_front := incr_front |}.

(** ** [QueueView]: a base queue through the changes of a builder *)

Definition view_front (b : DaQueueBuilder) : Z := dqb_new_front_pos b.
Definition view_next (b : DaQueueBuilder) : Z := next_idx b.
Definition view_len (b : DaQueueBuilder) : Z := Z.max (view_next b - view_front b) 0.
Definition view_get (base : dqt_state Q) (b : DaQueueBuilder) (idx : Z) : option (dqt_entry Q) :=
  if (idx <? view_front b) || (view_next b <=? idx) then None
  else if dqb_original_next_pos b <=? idx then dqb_new_entries b !! Z.to_nat (idx - dqb_original_next_pos b)
  else dqt_get Q base idx.
End queue.

Arguments dqb_original_front_pos {_ _}.
Arguments dqb_new_front_pos {_ _}.
Arguments dqb_original_next_pos {_ _}.
Arguments dqb_new_entries {_ _}.
Arguments dq_tail {_ _}.
Arguments dq_incr_front {_ _}.
Arguments DaQueue_apply {_ _ _}.
Arguments DaQueueBuilder_from_source {_ _}.
Arguments next_idx {_ _}.
Arguments add_front_incr {_ _}.
Arguments DaQueueBuilder_append_entry {_ _}.
Arguments consumed_new_entries {_ _}.
Arguments DaQueueBuilder_into_write {_ _}.
Arguments view_front {_ _}.
Arguments view_next {_ _}.
Arguments view_get {_ _}.

(** ** What a queue promises *)

(** A queue is a front index and the entries from there on. *)
Class QueueLaws {ET : ExtTypes} (Q : DaQueueTarget) := {
  q_front : dqt_state Q -> Z;
  q_entries : dqt_state Q -> list (dqt_entry Q);
  q_front_nonneg t : 0 <= q_front t;
  q_cur_front t : cur_front Q t = q_front t;
  q_cur_next t : cur_next Q t = q_front t + zlen (q_entries t);
  q_get t i : dqt_get Q t i = if i <? q_front t then None else q_entries t !! Z.to_nat (i - q_front t);
  q_insert t l : q_front t + zlen (q_entries t) + zlen l <= U16_MAX ->
    q_front (insert_entries Q t l) = q_front t /\ q_entries (insert_entries Q t l) = q_entries t ++ l;
  q_increment t n : 0 <= n <= zlen (q_entries t) ->
    q_front (increment_front Q t n) = q_front t + n /\
    q_entries (increment_front Q t n) = drop (Z.to_nat n) (q_entries t);
}.

Section spec.
Context {ET : ExtTypes} `{CE : !CodecExt} (Q : DaQueueTarget) `{!QueueLaws Q}.

(** The operations of a builder, and what they are run for. *)
Inductive QueueOp :=
| QAppend (e : dqt_entry Q)
| QIncr (n : Z).

Definition run_op (b : DaQueueBuilder Q) (op : QueueOp) : DaQueueBuilder Q :=
  match op with QAppend e => snd (DaQueueBuilder_append_entry b e) | QIncr n => snd (add_front_incr b n) end.

Definition op_ok (op : QueueOp) : Prop := match op with QAppend _ => True | QIncr n => in_u16 n end.

(** What holds of a builder made from [t] by any operations. *)
Record builder_inv (t : dqt_state Q) (b : DaQueueBuilder Q) : Prop := {
  bi_orig_front : dqb_original_front_pos b = q_front t;
  bi_orig_next : dqb_original_next_pos b = q_front t + zlen (q_entries t);
  bi_front : q_front t <= dqb_new_front_pos b <= next_idx b;
  bi_incr : dqb_new_front_pos b - q_front t < HEAD_WORD_INCR_MASK;
  bi_tail : zlen (dqb_new_entries b) <= U16_MAX;
}.

Lemma builder_inv_source t : builder_inv t (DaQueueBuilder_from_source t).
Proof.
  pose proof (zlen_nonneg (q_entries t)). split; unfold next_idx; simpl; rewrite ?q_cur_front, ?q_cur_next;
    autorewrite with zlen; unfold HEAD_WORD_INCR_MASK, U16_MAX; lia.
Qed.

Lemma builder_inv_op t b op : op_ok op -> builder_inv t b -> builder_inv t (run_op b op).
Proof.
  intros Hop Hb. pose proof Hb as [H1 H2 H3 H4 H5]. destruct op as [e|n]; simpl.
  - unfold DaQueueBuilder_append_entry. destruct (_ <=? _) eqn:Hf; zbool; [done|].
    split; unfold next_idx in *; simpl; autorewrite with zlen; lia || done.
  - unfold add_front_incr, op_ok, in_u16 in *. destruct (n =? 0) eqn:Hn; zbool; [done|].
    destruct (next_idx b <=? _) eqn:E1; zbool; [done|]. destruct (next_idx b <? _) eqn:E2; zbool; [done|].
    destruct (_ <=? n + _) eqn:E3; zbool; [done|]. split; unfold next_idx in *; simpl in *; lia || done.
Qed.

Lemma builder_inv_ops t ops b : Forall op_ok ops -> builder_inv t b -> builder_inv t (fold_left run_op ops b).
Proof. intros Hops. revert b. induction Hops as [|op ops Hop _ IH]; intros b Hb; simpl; [done|]. by apply IH, builder_inv_op. Qed.

(** A queue write that only consumes entries of the original queue.  Whatever
    was appended and consumed, building the write succeeds, and applying it to the
    queue leads to exactly what the view over the builder shows: the same front,
    the same next index and the same entry under every index. *)
Theorem queue_write_matches_view t ops :
  Forall op_ok ops ->
  let b := fold_left run_op ops (DaQueueBuilder_from_source t) in
  view_front b <= cur_next Q t -> view_next b <= U16_MAX ->
  exists w t', DaQueueBuilder_into_write b = Ok w /\ DaQueue_apply (E := unit) w t = (Ok tt, t') /\
    cur_front Q t' = view_front b /\ cur_next Q t' = view_next b /\
    forall i, dqt_get Q t' i = view_get t b i.
Proof.
  intros Hops b Hc Hn. pose proof (builder_inv_ops t ops _ Hops (builder_inv_source t)) as Hinv. fold b in Hinv.
  destruct Hinv as [H1 H2 H3 H4 H5]. unfold view_front, view_next, next_idx in *. rewrite q_cur_next in Hc.
  pose proof (q_front_nonneg t) as Hnn. pose proof (zlen_nonneg (dqb_new_entries b)) as Hl.
  set (n := dqb_new_front_pos b - q_front t) in *.
  assert (Hcons : consumed_new_entries b = 0).
  { unfold consumed_new_entries. by rewrite (proj2 (Z.leb_le _ _)) by lia. }
  destruct (q_insert t (dqb_new_entries b)) as [Hf1 He1]; [lia|]. set (t1 := insert_entries Q t (dqb_new_entries b)) in *.
  assert (Hrun : exists t', DaQueue_apply (E := unit) {| dq_tail := dqb_new_entries b; dq_incr_front := n |} t = (Ok tt, t')
    /\ q_front t' = q_front t + n /\ q_entries t' = drop (Z.to_nat n) (q_entries t ++ dqb_new_entries b)).
  { unfold DaQueue_apply. rewrite mbind_mmodify. simpl. fold t1. destruct (0 <? n) eqn:Hpos; zbool.
    - destruct (q_increment t1 n) as [Hf2 He2]; [rewrite He1, zlen_app; lia|].
      exists (increment_front Q t1 n). rewrite Hf2, He2, Hf1, He1. done.
    - assert (n = 0) as -> by lia. exists t1. rewrite Hf1, He1. split_and!; [done|lia|done]. }
  destruct Hrun as (t' & Hrun & Hf' & He'). exists {| dq_tail := dqb_new_entries b; dq_incr_front := n |}, t'.
  split_and!; [|done|rewrite q_cur_front; lia| |].
  - unfold DaQueueBuilder_into_write. rewrite Hcons, (proj2 (Z.ltb_ge _ _)) by lia. simpl.
    unfold try_from. rewrite H1. fold n. unfold HEAD_WORD_INCR_MASK, U16_MAX in *.
    by rewrite (proj2 (Z.leb_le _ _)), (proj2 (Z.leb_le _ _)) by lia.
  - rewrite q_cur_next, Hf', He'. unfold zlen. rewrite length_drop, length_app. unfold zlen in *. lia.
  - intros i. rewrite q_get, Hf', He'. unfold view_get, view_front, view_next, next_idx. rewrite H2.
    replace (q_front t + n) with (dqb_new_front_pos b) by lia.
    destruct (i <? dqb_new_front_pos b) eqn:Hi; zbool; simpl; [done|]. rewrite lookup_drop.
    replace (Z.to_nat n + Z.to_nat (i - dqb_new_front_pos b))%nat with (Z.to_nat (i - q_front t)) by lia.
    destruct (_ <=? i) eqn:Hhi; zbool.
    + apply lookup_ge_None. rewrite length_app. unfold zlen in *. lia.
    + destruct (_ <=? i) eqn:Hnew; zbool.
      * rewrite lookup_app_r by (unfold zlen in *; lia). f_equal. unfold zlen in *. lia.
      * rewrite lookup_app_l by (unfold zlen in *; lia). rewrite q_get.
        by rewrite (proj2 (Z.ltb_ge _ _)) by lia.
Qed.

(** Consuming an entry appended in the same write.  Appending two entries to
    an empty queue and consuming the first, the view has the second entry at the
    front; the queue the write leads to has lost it. *)
Theorem queue_write_loses_entries t e1 e2 :
  q_entries t = [] -> q_front t + 2 <= U16_MAX ->
  let b := fold_left run_op [QAppend e1; QAppend e2; QIncr 1] (DaQueueBuilder_from_source t) in
  view_front b = q_front t + 1 /\ view_next b = q_front t + 2 /\ view_get t b (q_front t + 1) = Some e2 /\
  exists w t', DaQueueBuilder_into_write b = Ok w /\ DaQueue_apply (E := unit) w t = (Ok tt, t') /\
    cur_front Q t' = q_front t + 1 /\ cur_next Q t' = q_front t + 1 /\ forall i, dqt_get Q t' i = None.
Proof.
  intros Hemp Hle. pose proof (q_front_nonneg t) as Hnn.
  assert (Hb : fold_left run_op [QAppend e1; QAppend e2; QIncr 1] (DaQueueBuilder_from_source t) =
    {| dqb_original_front_pos := q_front t; dqb_new_front_pos := q_front t + 1;
       dqb_original_next_pos := q_front t; dqb_new_entries := [e1; e2] |}).
  { unfold DaQueueBuilder_from_source. rewrite q_cur_front, q_cur_next, Hemp. autorewrite with zlen.
    rewrite Z.add_0_r. simpl. unfold add_front_incr, next_idx. simpl. unfold zlen. simpl.
    rewrite (proj2 (Z.leb_gt _ _)), (proj2 (Z.ltb_ge _ _)), (proj2 (Z.leb_gt _ _)); [done|..];
      unfold HEAD_WORD_INCR_MASK; lia. }
  cbv zeta. rewrite Hb. unfold view_front, view_next, view_get, next_idx, zlen. simpl. split_and!; [done..| |].
  - unfold view_front, view_next, next_idx, zlen. simpl.
    rewrite (proj2 (Z.ltb_ge _ _)), (proj2 (Z.leb_gt _ _)), (proj2 (Z.leb_le _ _)) by lia. simpl.
    by replace (Z.to_nat (q_front t + 1 - q_front t)) with 1%nat by lia.
  - unfold DaQueueBuilder_into_write, consumed_new_entries, zlen. simpl.
    rewrite (proj2 (Z.leb_gt _ _)) by lia. replace (q_front t + 1 - q_front t) with 1 by lia. simpl.
    destruct (q_insert t [e2]) as [Hf1 He1]; [rewrite Hemp; unfold zlen; simpl; lia|].
    destruct (q_increment (insert_entries Q t [e2]) 1) as [Hf2 He2]; [rewrite He1, Hemp; unfold zlen; simpl; lia|].
    eexists _, (increment_front Q (insert_entries Q t [e2]) 1). split_and!; [done|done| | |].
    + by rewrite q_cur_front, Hf2, Hf1.
    + rewrite q_cur_next, Hf2, He2, Hf1, He1, Hemp. unfold zlen. simpl. lia.
    + intros i. rewrite q_get, He2, He1, Hemp. simpl. by destruct (i <? _).
Qed.

(** A head word carries the flag and the increment. *)
Lemma head_roundtrip E flag v : 0 <= v <= HEAD_WORD_INCR_MASK ->
  exists h, encode_head (E := E) flag v = Ok h /\ in_u16 h /\ decode_head h = (flag, v).
Proof.
  intros Hv. unfold encode_head, decode_head, HEAD_WORD_INCR_MASK, TAIL_BIT_SHIFT in *.
  rewrite (proj2 (Z.ltb_ge _ _)) by lia. eexists. split; [done|].
  change 32767 with (2 ^ 15 - 1). rewrite !land_low by lia. rewrite (Z.mod_small v) by (change (2 ^ 15) with 32768; lia).
  rewrite lor_shiftl_add by (change (2 ^ 15) with 32768; lia). rewrite Z.shiftr_div_pow2 by lia.
  change (2 ^ 15) with 32768. set (k := if flag then 1 else 0). assert (Hk : 0 <= k <= 1) by (subst k; destruct flag; lia).
  unfold in_u16, U16_MAX. split; [lia|]. rewrite Z.div_add_l, Z.div_small by lia.
  rewrite (Z.add_comm (k * 32768)), Z.mod_add, Z.mod_small by lia. f_equal. subst k. by destruct flag.
Qed.

Definition queue_write_of (P : dqt_entry Q -> Prop) (q : DaQueue Q) : Prop :=
  Forall P (dq_tail q) /\ zlen (dq_tail q) <= U16_MAX /\ 0 <= dq_incr_front q <= HEAD_WORD_INCR_MASK.

Lemma queue_member_ok `{!CodecLaws CE} P :
  roundtrips (dqt_entry_codec Q) P -> member_ok (queue_member Q) (queue_write_of P).
Proof.
  intros Hent. split.
  - intros [[|e l] n] _; unfold DaQueue_default; simpl; [|done]. unfold DaQueue_is_default. simpl. intros Hn. zbool. by subst.
  - intros [l n] (HP & Hl & Hn) _. simpl in *. pose proof (zlen_nonneg l).
    set (flag := match l with [] => false | _ => true end).
    destruct (head_roundtrip CodecError flag n Hn) as (h & Hh & Hh16 & Hdh). rewrite Hh.
    unfold decode_head in Hdh. injection Hdh as Hd0 Hd0'. simpl.
    destruct (u16_roundtrips h Hh16) as (b1 & He1 & Hd1).
    destruct (u16_roundtrips (zlen l)) as (b2 & He2 & Hd2); [done|].
    destruct (encode_each_roundtrips _ P l Hent HP) as (b3 & He3 & Hd3).
    rewrite wrap_to_id by done. rewrite He1, He2, He3. destruct l as [|e l']; subst flag; simpl.
    + eexists. split; [done|]. intros rest. rewrite app_nil_r, (mbind_ok _ _ _ _ _ (Hd1 _)). by rewrite Hd0, Hd0'.
    + eexists. split; [done|]. intros rest. rewrite <- !app_assoc, (mbind_ok _ _ _ _ _ (Hd1 _)). rewrite Hd0, Hd0'.
      erewrite mbind_ok; [reflexivity|]. rewrite (mbind_ok _ _ _ _ _ (Hd2 _)). unfold zlen. rewrite Nat2Z.id. apply Hd3.
Qed.
End spec.
