(* ===== verification/OLDaTypes.v ===== *)
(** * OL DA diff types ([crates/ol/da/src/types])

    The state diff of an epoch and its wire encoding: global counters, new
    accounts, and per-account diffs of balance and snark state.  The compound
    types follow the expansion of [make_compound_impl!]: a mask byte with one bit
    per field, then the fields that are set. *)

From Stdlib Require Import String.
From S2P Require Import Prelude Identifiers AcctTypes CodecTypes Varint64 DaFramework.

Definition MAX_VK_BYTES : Z := 65535.
Definition MAX_MSG_PAYLOAD_BYTES : Z := 4096.

Section da_types.
Context {ET : ExtTypes} `{CE : !CodecExt}.

(** ** [encoding.rs] *)

Definition u16_len_bytes_codec : CodecOf bytes := {|
  encode b := (let! len := ok_or (try_from 0 U16_MAX (zlen b)) overflow_container in encode u16_codec len) +++ Ok b;
  decode := let* len := decode u16_codec in read_buf len;
|}.

Definition u16_len_list_codec {T} (c : CodecOf T) : CodecOf (list T) := {|
  encode l := (let! len := ok_or (try_from 0 U16_MAX (zlen l)) overflow_container in encode u16_codec len) +++
              encode_each c l;
  decode := let* len := decode u16_codec in decode_n c (Z.to_nat len);
|}.

(** ** [inbox.rs] *)

Record DaMessageEntry := { dme_source : AccountId; dme_incl_epoch : Epoch; dme_payload : MsgPayload }.

Definition da_message_entry_codec : CodecOf DaMessageEntry := {|
  encode e := encode account_id_codec (dme_source e) +++ encode u32_codec (dme_incl_epoch e) +++
              encode msg_payload_codec (dme_payload e);
  decode := let* source := decode account_id_codec in
            let* incl_epoch := decode u32_codec in
            let* payload := decode msg_payload_codec in
            if MAX_MSG_PAYLOAD_BYTES <? zlen (mp_data payload) then merr overflow_container
            else mret {| dme_source := source; dme_incl_epoch := incl_epoch; dme_payload := payload |};
|}.

Definition InboxBuffer : LinearAccumulator := {|
  la_acc := list DaMessageEntry; la_entry := DaMessageEntry;
  la_insert l e := l ++ [e];
  la_cnt_type_max := U16_MAX; la_max_insert := U16_MAX;
  la_cnt_codec := u16_codec; la_entry_codec := da_message_entry_codec;
|}.

(** ** [snark.rs] *)

Record DaProofStateDiff := {
  dpd_inner_state : DaRegister Buf32;
  dpd_next_inbox_msg_idx : DaCounter CtrU64ByUnsignedVarInt;
}.

Definition DaProofStateDiff_default : DaProofStateDiff :=
  {| dpd_inner_state := DaRegister_new_unset; dpd_next_inbox_msg_idx := Unchanged |}.

Definition DaProofStateDiff_is_default (d : DaProofStateDiff) : bool :=
  DaRegister_is_default (dpd_inner_state d) && DaCounter_is_default (dpd_next_inbox_msg_idx d).

Definition DaProofStateDiff_encode (d : DaProofStateDiff) : res CodecError bytes :=
  let m1 := register_member hash_codec in
  let m2 := counter_member CtrU64ByUnsignedVarInt in
  let bitw := prepare_member 8 m1 (dpd_inner_state d) BitSeqWriter_new in
  let bitw := prepare_member 8 m2 (dpd_next_inbox_msg_idx d) bitw in
  encode u8_codec (bsw_mask bitw) +++ member_bytes m1 (dpd_inner_state d) +++
  member_bytes m2 (dpd_next_inbox_msg_idx d).

Definition DaProofStateDiff_decode : M CodecError bytes DaProofStateDiff :=
  decode_compound u8_codec (
    let* inner_state := decode_next_member 8 (register_member hash_codec) in
    let* idx := decode_next_member 8 (counter_member CtrU64ByUnsignedVarInt) in
    mret {| dpd_inner_state := inner_state; dpd_next_inbox_msg_idx := idx |}).

Definition DaProofStateDiff_apply {E} (d : DaProofStateDiff) : M E ProofState unit := fun target =>
  let inner_state := match dr_new_value (dpd_inner_state d) with Some v => v | None => ps_inner_state target end in
  match DaCounter_apply (dpd_next_inbox_msg_idx d) (ps_next_inbox_msg_idx target) with
  | (Ok _, idx) => (Ok tt, {| ps_inner_state := inner_state; ps_next_inbox_msg_idx := idx |})
  | (Err e, _) => (Err e, target)
  | (Panic, _) => (Panic, target)
  end.

Definition proof_state_diff_member : CompoundMember DaProofStateDiff := {|
  cm_default := DaProofStateDiff_default;
  cm_is_default := DaProofStateDiff_is_default;
  cm_decode_set := DaProofStateDiff_decode;
  cm_encode_set d := if DaProofStateDiff_is_default d then Err (invalid_variant "proof_state_diff")
                     else DaProofStateDiff_encode d;
|}.

Record SnarkAccountDiff := {
  sad_update_vk : DaRegister bytes;
  sad_proof_state : DaProofStateDiff;
  sad_seq_no : DaCounter CtrU64ByU16;
  sad_inbox : DaLinacc InboxBuffer;
}.

Definition SnarkAccountDiff_default : SnarkAccountDiff :=
  {| sad_update_vk := DaRegister_new_unset; sad_proof_state := DaProofStateDiff_default;
     sad_seq_no := Unchanged; sad_inbox := DaLinacc_new InboxBuffer |}.

Definition SnarkAccountDiff_is_default (d : SnarkAccountDiff) : bool :=
  DaRegister_is_default (sad_update_vk d) && DaProofStateDiff_is_default (sad_proof_state d) &&
  DaCounter_is_default (sad_seq_no d) && DaLinacc_is_default (sad_inbox d).

Definition SnarkAccountDiff_encode (d : SnarkAccountDiff) : res CodecError bytes :=
  let m1 := register_member u16_len_bytes_codec in
  let m2 := proof_state_diff_member in
  let m3 := counter_member CtrU64ByU16 in
  let m4 := linacc_member InboxBuffer in
  let bitw := prepare_member 8 m1 (sad_update_vk d) BitSeqWriter_new in
  let bitw := prepare_member 8 m2 (sad_proof_state d) bitw in
  let bitw := prepare_member 8 m3 (sad_seq_no d) bitw in
  let bitw := prepare_member 8 m4 (sad_inbox d) bitw in
  encode u8_codec (bsw_mask bitw) +++ member_bytes m1 (sad_update_vk d) +++ member_bytes m2 (sad_proof_state d) +++
  member_bytes m3 (sad_seq_no d) +++ member_bytes m4 (sad_inbox d).

Definition SnarkAccountDiff_decode : M CodecError bytes SnarkAccountDiff :=
  decode_compound u8_codec (
    let* update_vk := decode_next_member 8 (register_member u16_len_bytes_codec) in
    let* proof_state := decode_next_member 8 proof_state_diff_member in
    let* seq_no := decode_next_member 8 (counter_member CtrU64ByU16) in
    let* inbox := decode_next_member 8 (linacc_member InboxBuffer) in
    mret {| sad_update_vk := update_vk; sad_proof_state := proof_state; sad_seq_no := seq_no; sad_inbox := inbox |}).

Definition snark_account_diff_member : CompoundMember SnarkAccountDiff := {|
  cm_default := SnarkAccountDiff_default;
  cm_is_default := SnarkAccountDiff_is_default;
  cm_decode_set := SnarkAccountDiff_decode;
  cm_encode_set d := if SnarkAccountDiff_is_default d then Err (invalid_variant "snark_account_diff")
                     else SnarkAccountDiff_encode d;
|}.

(** ** [account.rs] *)

Record AccountDiff := {
  ad_balance : DaCounter CtrU64BySignedVarInt;
  ad_snark : SnarkAccountDiff;
}.

Definition AccountDiff_is_default (d : AccountDiff) : bool :=
  DaCounter_is_default (ad_balance d) && SnarkAccountDiff_is_default (ad_snark d).

Definition account_diff_codec : CodecOf AccountDiff := {|
  encode d :=
    let m1 := counter_member CtrU64BySignedVarInt in
    let m2 := snark_account_diff_member in
    let bitw := prepare_member 8 m1 (ad_balance d) BitSeqWriter_new in
    let bitw := prepare_member 8 m2 (ad_snark d) bitw in
    encode u8_codec (bsw_mask bitw) +++ member_bytes m1 (ad_balance d) +++ member_bytes m2 (ad_snark d);
  decode := decode_compound u8_codec (
    let* balance := decode_next_member 8 (counter_member CtrU64BySignedVarInt) in
    let* snark := decode_next_member 8 snark_account_diff_member in
    mret {| ad_balance := balance; ad_snark := snark |});
|}.

(** ** [global.rs] *)

Record GlobalStateDiff := {
  gsd_cur_slot : DaCounter CtrU64ByU16;
  gsd_limbo_funds_sats : DaCounter CtrU64BySignedVarInt;
}.

Definition GlobalStateDiff_is_default (d : GlobalStateDiff) : bool :=
  DaCounter_is_default (gsd_cur_slot d) && DaCounter_is_default (gsd_limbo_funds_sats d).

Definition global_state_diff_codec : CodecOf GlobalStateDiff := {|
  encode d :=
    let m1 := counter_member CtrU64ByU16 in
    let m2 := counter_member CtrU64BySignedVarInt in
    let bitw := prepare_member 8 m1 (gsd_cur_slot d) BitSeqWriter_new in
    let bitw := prepare_member 8 m2 (gsd_limbo_funds_sats d) bitw in
    encode u8_codec (bsw_mask bitw) +++ member_bytes m1 (gsd_cur_slot d) +++ member_bytes m2 (gsd_limbo_funds_sats d);
  decode := decode_compound u8_codec (
    let* cur_slot := decode_next_member 8 (counter_member CtrU64ByU16) in
    let* limbo := decode_next_member 8 (counter_member CtrU64BySignedVarInt) in
    mret {| gsd_cur_slot := cur_slot; gsd_limbo_funds_sats := limbo |});
|}.

(** ** [ledger.rs] *)

Record SnarkAccountInit := { sai_initial_state_root : Buf32; sai_update_vk : bytes }.

Definition snark_account_init_codec : CodecOf SnarkAccountInit := {|
  encode i := encode hash_codec (sai_initial_state_root i) +++ encode u16_len_bytes_codec (sai_update_vk i);
  decode := let* root := decode hash_codec in
            let* vk := decode u16_len_bytes_codec in
            if MAX_VK_BYTES <? zlen vk then merr overflow_container
            else mret {| sai_initial_state_root := root; sai_update_vk := vk |};
|}.

Inductive AccountTypeInit :=
| InitEmpty
| InitSnark (init : SnarkAccountInit).

Record AccountInit := { ai_balance : BitcoinAmount; ai_type_state : AccountTypeInit }.

Definition account_init_codec : CodecOf AccountInit := {|
  encode i := encode amount_codec (ai_balance i) +++
    encode u8_codec (match ai_type_state i with InitEmpty => 0 | InitSnark _ => 1 end) +++
    (match ai_type_state i with InitEmpty => Ok [] | InitSnark init => encode snark_account_init_codec init end);
  decode := let* balance := decode amount_codec in
            let* raw_type_id := decode u8_codec in
            let* type_state :=
              if raw_type_id =? 0 then mret InitEmpty
              else if raw_type_id =? 1 then let* init := decode snark_account_init_codec in mret (InitSnark init)
              else merr (invalid_variant "account_type_id") in
            mret {| ai_balance := balance; ai_type_state := type_state |};
|}.

Record NewAccountEntry := { nae_account_id : AccountId; nae_init : AccountInit }.
Record AccountDiffEntry := { ade_account_serial : AccountSerial; ade_diff : AccountDiff }.

Definition new_account_entry_codec : CodecOf NewAccountEntry := {|
  encode e := encode account_id_codec (nae_account_id e) +++ encode account_init_codec (nae_init e);
  decode := let* id := decode account_id_codec in
            let* init := decode account_init_codec in
            mret {| nae_account_id := id; nae_init := init |};
|}.

Definition account_diff_entry_codec : CodecOf AccountDiffEntry := {|
  encode e := encode account_serial_codec (ade_account_serial e) +++ encode account_diff_codec (ade_diff e);
  decode := let* serial := decode account_serial_codec in
            let* diff := decode account_diff_codec in
            mret {| ade_account_serial := serial; ade_diff := diff |};
|}.

Record LedgerDiff := {
  ld_new_accounts : list NewAccountEntry;
  ld_account_diffs : list AccountDiffEntry;
}.

Definition LedgerDiff_is_empty (d : LedgerDiff) : bool :=
  match ld_new_accounts d, ld_account_diffs d with [], [] => true | _, _ => false end.

Definition ledger_diff_codec : CodecOf LedgerDiff := {|
  encode d := encode (u16_len_list_codec new_account_entry_codec) (ld_new_accounts d) +++
              encode (u16_len_list_codec account_diff_entry_codec) (ld_account_diffs d);
  decode := let* new_accounts := decode (u16_len_list_codec new_account_entry_codec) in
            let* account_diffs := decode (u16_len_list_codec account_diff_entry_codec) in
            mret {| ld_new_accounts := new_accounts; ld_account_diffs := account_diffs |};
|}.

(** ** [payload.rs] *)

Record StateDiff := { sd_global : GlobalStateDiff; sd_ledger : LedgerDiff }.

Definition state_diff_codec : CodecOf StateDiff := {|
  encode d := encode global_state_diff_codec (sd_global d) +++ encode ledger_diff_codec (sd_ledger d);
  decode := let* global := decode global_state_diff_codec in
            let* ledger := decode ledger_diff_codec in
            mret {| sd_global := global; sd_ledger := ledger |};
|}.

(** [OLDaPayloadV1] has the state diff as its only field. *)
Record OLDaPayloadV1 := { pl_state_diff : StateDiff }.

Definition payload_codec : CodecOf OLDaPayloadV1 := {|
  encode p := encode state_diff_codec (pl_state_diff p);
  decode := let* d := decode state_diff_codec in mret {| pl_state_diff := d |};
|}.

Definition decode_ol_da_payload_bytes (b : bytes) : res CodecError OLDaPayloadV1 :=
  decode_buf_exact payload_codec b.
End da_types.
