(* ===== verification/OLDaSpec.v ===== *)
(** * The DA payload round-trips

    Every payload within the wire bounds encodes, and the encoding decodes to it:
    the codecs of the diff types, put together from those of their fields. *)

From Stdlib Require Import String.
From S2P Require Import Prelude Identifiers AcctTypes CodecTypes Varint64 DaFramework OLDaTypes.

Section da_spec.
Context {ET : ExtTypes} `{CE : !CodecExt} `{!CodecLaws CE}.

(** ** Compounds of two and four members *)

Lemma mask_byte (w : BitSeqWriter) fs : prepared w fs -> zlen fs <= 8 -> in_u8 (bsw_mask w).
Proof.
  intros (_ & _ & Hm) Hl. pose proof (Z.pow_le_mono_r 2 (zlen fs) 8 ltac:(lia) Hl) as Hp.
  change (2 ^ 8) with 256 in Hp. unfold in_u8. lia.
Qed.

(** One member read back after [k] others. *)
Lemma read_member {C B} (m : CompoundMember C) P c w fs k bs rest (next : C -> M CodecError (BitSeqReader * bytes) B) :
  member_ok m P -> P c -> prepared w fs -> 0 <= k < 8 -> nth (Z.to_nat k) fs false = negb (cm_is_default m c) ->
  member_bytes m c = Ok bs ->
  (let* x := decode_next_member 8 m in next x) ({| bsr_off := k; bsr_mask := bsw_mask w |}, bs ++ rest) =
  next c ({| bsr_off := k + 1; bsr_mask := bsw_mask w |}, rest).
Proof.
  intros Hm Hc (_ & Ht & _) Hk Hn Hb. apply mbind_ok.
  eapply decode_next_member_ok; try done. by rewrite Ht by lia.
Qed.

Lemma compound2_roundtrip {C1 C2 T} (m1 : CompoundMember C1) (m2 : CompoundMember C2) P1 P2 (mk : C1 -> C2 -> T) c1 c2 :
  member_ok m1 P1 -> member_ok m2 P2 -> P1 c1 -> P2 c2 ->
  exists bs,
    (encode u8_codec (bsw_mask (prepare_member 8 m2 c2 (prepare_member 8 m1 c1 BitSeqWriter_new))) +++
     member_bytes m1 c1 +++ member_bytes m2 c2) = Ok bs /\
    forall rest, decode_compound u8_codec
      (let* x1 := decode_next_member 8 m1 in let* x2 := decode_next_member 8 m2 in mret (mk x1 x2)) (bs ++ rest)
      = (Ok (mk c1 c2), rest).
Proof.
  intros H1 H2 Hc1 Hc2. set (w := prepare_member 8 m2 c2 (prepare_member 8 m1 c1 BitSeqWriter_new)).
  assert (Hw : prepared w [negb (cm_is_default m1 c1); negb (cm_is_default m2 c2)]).
  { apply (prepared_member 8 m2 c2 _ [_]); [done|]. apply (prepared_member 8 m1 c1 _ []); [done|]. apply prepared_new. }
  destruct (u8_roundtrips (bsw_mask w)) as (b0 & He0 & Hd0); [by eapply mask_byte|].
  destruct (member_bytes_ok m1 P1 c1 H1 Hc1) as [b1 Hb1]. destruct (member_bytes_ok m2 P2 c2 H2 Hc2) as [b2 Hb2].
  exists (b0 ++ b1 ++ b2). split; [rewrite He0, Hb1, Hb2; reflexivity|]. intros rest.
  unfold decode_compound. rewrite <- !app_assoc, Hd0. unfold BitSeqReader_from_mask.
  rewrite (read_member m1 P1 c1 w _ 0 b1) by done. rewrite (read_member m2 P2 c2 w _ (0 + 1) b2) by done. done.
Qed.

Lemma compound4_roundtrip {C1 C2 C3 C4 T} (m1 : CompoundMember C1) (m2 : CompoundMember C2)
    (m3 : CompoundMember C3) (m4 : CompoundMember C4) P1 P2 P3 P4 (mk : C1 -> C2 -> C3 -> C4 -> T) c1 c2 c3 c4 :
  member_ok m1 P1 -> member_ok m2 P2 -> member_ok m3 P3 -> member_ok m4 P4 -> P1 c1 -> P2 c2 -> P3 c3 -> P4 c4 ->
  exists bs,
    (encode u8_codec (bsw_mask (prepare_member 8 m4 c4 (prepare_member 8 m3 c3
       (prepare_member 8 m2 c2 (prepare_member 8 m1 c1 BitSeqWriter_new))))) +++
     member_bytes m1 c1 +++ member_bytes m2 c2 +++ member_bytes m3 c3 +++ member_bytes m4 c4) = Ok bs /\
    forall rest, decode_compound u8_codec
      (let* x1 := decode_next_member 8 m1 in let* x2 := decode_next_member 8 m2 in
       let* x3 := decode_next_member 8 m3 in let* x4 := decode_next_member 8 m4 in mret (mk x1 x2 x3 x4)) (bs ++ rest)
      = (Ok (mk c1 c2 c3 c4), rest).
Proof.
  intros H1 H2 H3 H4 Hc1 Hc2 Hc3 Hc4.
  set (w := prepare_member 8 m4 c4 (prepare_member 8 m3 c3 (prepare_member 8 m2 c2 (prepare_member 8 m1 c1 BitSeqWriter_new)))).
  assert (Hw : prepared w [negb (cm_is_default m1 c1); negb (cm_is_default m2 c2);
                           negb (cm_is_default m3 c3); negb (cm_is_default m4 c4)]).
  { apply (prepared_member 8 m4 c4 _ [_; _; _]); [done|]. apply (prepared_member 8 m3 c3 _ [_; _]); [done|].
    apply (prepared_member 8 m2 c2 _ [_]); [done|]. apply (prepared_member 8 m1 c1 _ []); [done|]. apply prepared_new. }
  destruct (u8_roundtrips (bsw_mask w)) as (b0 & He0 & Hd0); [by eapply mask_byte|].
  destruct (member_bytes_ok m1 P1 c1 H1 Hc1) as [b1 Hb1]. destruct (member_bytes_ok m2 P2 c2 H2 Hc2) as [b2 Hb2].
  destruct (member_bytes_ok m3 P3 c3 H3 Hc3) as [b3 Hb3]. destruct (member_bytes_ok m4 P4 c4 H4 Hc4) as [b4 Hb4].
  exists (b0 ++ b1 ++ b2 ++ b3 ++ b4). split; [rewrite He0, Hb1, Hb2, Hb3, Hb4; reflexivity|]. intros rest.
  unfold decode_compound. rewrite <- !app_assoc, Hd0. unfold BitSeqReader_from_mask.
  rewrite (read_member m1 P1 c1 w _ 0 b1) by done. rewrite (read_member m2 P2 c2 w _ (0 + 1) b2) by done.
  rewrite (read_member m3 P3 c3 w _ (0 + 1 + 1) b3) by done. rewrite (read_member m4 P4 c4 w _ (0 + 1 + 1 + 1) b4) by done.
  done.
Qed.

(** ** Sequences of fields *)

Lemma fields2_roundtrip {A B T} (ca : CodecOf A) (cb : CodecOf B) PA PB a b (k : A -> B -> M CodecError bytes T) t :
  roundtrips ca PA -> roundtrips cb PB -> PA a -> PB b -> (forall s, k a b s = (Ok t, s)) ->
  exists bs, (encode ca a +++ encode cb b) = Ok bs /\
    forall rest, (let* x := decode ca in let* y := decode cb in k x y) (bs ++ rest) = (Ok t, rest).
Proof.
  intros Ha Hb HA HB Hk. destruct (Ha a HA) as (b1 & He1 & Hd1), (Hb b HB) as (b2 & He2 & Hd2).
  exists (b1 ++ b2). split; [by apply enc_app_ok|]. intros rest.
  rewrite <- app_assoc, (mbind_ok _ _ _ _ _ (Hd1 _)), (mbind_ok _ _ _ _ _ (Hd2 _)). apply Hk.
Qed.

Lemma len_prefix l : in_u16 l -> (let! len := ok_or (try_from 0 U16_MAX l) overflow_container in encode u16_codec len)
  = encode u16_codec l.
Proof. intros [H1 H2]. unfold try_from. by rewrite (proj2 (Z.leb_le _ _)), (proj2 (Z.leb_le _ _)). Qed.

Lemma u16_len_bytes_roundtrips : roundtrips u16_len_bytes_codec (fun b => zlen b <= U16_MAX).
Proof.
  intros b Hb. pose proof (zlen_nonneg b). simpl. rewrite len_prefix by done.
  destruct (u16_roundtrips (zlen b)) as (b1 & He1 & Hd1); [done|]. exists (b1 ++ b).
  split; [by apply enc_app_ok|]. intros rest. rewrite <- app_assoc, (mbind_ok _ _ _ _ _ (Hd1 _)). apply read_buf_app.
Qed.

Lemma u16_len_list_roundtrips {T} (c : CodecOf T) P :
  roundtrips c P -> roundtrips (u16_len_list_codec c) (fun l => zlen l <= U16_MAX /\ Forall P l).
Proof.
  intros Hc l [Hl HP]. pose proof (zlen_nonneg l). simpl. rewrite len_prefix by done.
  destruct (u16_roundtrips (zlen l)) as (b1 & He1 & Hd1); [done|].
  destruct (encode_each_roundtrips c P l Hc HP) as (b2 & He2 & Hd2). exists (b1 ++ b2).
  split; [by apply enc_app_ok|]. intros rest. rewrite <- app_assoc, (mbind_ok _ _ _ _ _ (Hd1 _)).
  unfold zlen. rewrite Nat2Z.id. apply Hd2.
Qed.

(** ** The diff types *)

Definition da_message_ok (e : DaMessageEntry) : Prop :=
  in_u32 (dme_incl_epoch e) /\ in_u64 (mp_value (dme_payload e)) /\ zlen (mp_data (dme_payload e)) <= MAX_MSG_PAYLOAD_BYTES.

Lemma da_message_roundtrips : roundtrips da_message_entry_codec da_message_ok.
Proof.
  intros [src ep pl] (He & Hv & Hl). simpl in *.
  destruct (account_id_roundtrips src I) as (b1 & E1 & D1), (u32_roundtrips ep He) as (b2 & E2 & D2).
  destruct (msg_payload_roundtrips pl) as (b3 & E3 & D3).
  { split; [done|]. unfold MAX_MSG_PAYLOAD_BYTES, MAX_MSG_PAYLOAD_DATA_BYTES in *. change (Z.shiftl 1 20) with 1048576. lia. }
  exists (b1 ++ b2 ++ b3). simpl in E3, D3. rewrite E1, E2, E3. split; [done|]. intros rest. rewrite <- !app_assoc.
  rewrite (mbind_ok _ _ _ _ _ (D1 _)), (mbind_ok _ _ _ _ _ (D2 _)), (mbind_ok _ _ _ _ _ (D3 _)).
  by rewrite (proj2 (Z.ltb_ge _ _)) by done.
Qed.

Definition proof_diff_ok (d : DaProofStateDiff) : Prop :=
  counter_of CtrU64ByUnsignedVarInt in_u64 (dpd_next_inbox_msg_idx d).

Lemma hash_register_ok : member_ok (register_member hash_codec) (fun _ => True).
Proof.
  destruct (register_member_ok hash_codec (fun _ => True) hash_roundtrips) as [H1 H2].
  split; intros [[v|]] _; [by apply H1|by apply H1|by apply H2|by apply H2].
Qed.

Lemma proof_diff_member_ok : member_ok proof_state_diff_member proof_diff_ok.
Proof.
  split.
  - intros [[[v|]] [|d]] _; simpl; done.
  - intros [r c] Hok Hdef. simpl in *. rewrite Hdef. unfold proof_diff_ok in Hok. simpl in Hok.
    apply (compound2_roundtrip (register_member hash_codec) (counter_member CtrU64ByUnsignedVarInt) _ _
      Build_DaProofStateDiff r c hash_register_ok (counter_member_ok CtrU64ByUnsignedVarInt in_u64 in_u64) I Hok).
Qed.

Definition snark_diff_ok (d : SnarkAccountDiff) : Prop :=
  register_of (fun b => zlen b <= U16_MAX) (sad_update_vk d) /\ proof_diff_ok (sad_proof_state d) /\
  counter_of CtrU64ByU16 in_u16 (sad_seq_no d) /\ linacc_of InboxBuffer da_message_ok (sad_inbox d).

Lemma inbox_member_ok : member_ok (linacc_member InboxBuffer) (linacc_of InboxBuffer da_message_ok).
Proof. apply linacc_member_ok; [done|exact u16_roundtrips|exact da_message_roundtrips]. Qed.

Lemma snark_diff_member_ok : member_ok snark_account_diff_member snark_diff_ok.
Proof.
  split.
  - intros [[[v|]] [[[h|]] [|n]] [|s] [[|e l]]] _; simpl; done.
  - intros [vk ps sq ib] (H1 & H2 & H3 & H4) Hdef. simpl in *. rewrite Hdef.
    apply (compound4_roundtrip (register_member u16_len_bytes_codec) proof_state_diff_member
      (counter_member CtrU64ByU16) (linacc_member InboxBuffer) _ _ _ _ Build_SnarkAccountDiff vk ps sq ib
      (register_member_ok _ _ u16_len_bytes_roundtrips) proof_diff_member_ok
      (counter_member_ok CtrU64ByU16 in_u64 in_u16) inbox_member_ok H1 H2 H3 H4).
Qed.

Definition account_diff_ok (d : AccountDiff) : Prop :=
  counter_of CtrU64BySignedVarInt svi_normal (ad_balance d) /\ snark_diff_ok (ad_snark d).

Lemma account_diff_roundtrips : roundtrips account_diff_codec account_diff_ok.
Proof.
  intros [b s] [H1 H2]. apply (compound2_roundtrip (counter_member CtrU64BySignedVarInt) snark_account_diff_member
    _ _ Build_AccountDiff b s (counter_member_ok CtrU64BySignedVarInt in_u64 svi_normal) snark_diff_member_ok H1 H2).
Qed.

Definition global_diff_ok (d : GlobalStateDiff) : Prop :=
  counter_of CtrU64ByU16 in_u16 (gsd_cur_slot d) /\ counter_of CtrU64BySignedVarInt svi_normal (gsd_limbo_funds_sats d).

Lemma global_diff_roundtrips : roundtrips global_state_diff_codec global_diff_ok.
Proof.
  intros [sl lb] [H1 H2]. apply (compound2_roundtrip (counter_member CtrU64ByU16) (counter_member CtrU64BySignedVarInt)
    _ _ Build_GlobalStateDiff sl lb (counter_member_ok CtrU64ByU16 in_u64 in_u16) (counter_member_ok CtrU64BySignedVarInt in_u64 svi_normal) H1 H2).
Qed.

Definition account_init_ok (i : AccountInit) : Prop :=
  in_u64 (ai_balance i) /\
  match ai_type_state i with InitEmpty => True | InitSnark s => zlen (sai_update_vk s) <= MAX_VK_BYTES end.

Lemma snark_init_roundtrips : roundtrips snark_account_init_codec (fun s => zlen (sai_update_vk s) <= MAX_VK_BYTES).
Proof.
  intros [root vk] Hl. simpl in *.
  apply (fields2_roundtrip hash_codec u16_len_bytes_codec _ _ root vk _ _ hash_roundtrips u16_len_bytes_roundtrips I Hl).
  intros s. by rewrite (proj2 (Z.ltb_ge _ _)).
Qed.

Lemma account_init_roundtrips : roundtrips account_init_codec account_init_ok.
Proof.
  intros [bal ts] [Hb Ht]. simpl in Hb, Ht. destruct (amount_roundtrips bal Hb) as (b1 & E1 & D1).
  destruct (u8_roundtrips (match ts with InitEmpty => 0 | InitSnark _ => 1 end)) as (b2 & E2 & D2).
  { destruct ts; unfold in_u8; lia. }
  unfold account_init_codec at 1 2. cbn [encode decode ai_balance ai_type_state]. rewrite E1, E2.
  destruct ts as [|s].
  - exists (b1 ++ b2 ++ []). split; [done|]. intros rest. rewrite <- !app_assoc.
    by rewrite (mbind_ok _ _ _ _ _ (D1 _)), (mbind_ok _ _ _ _ _ (D2 _)).
  - destruct (snark_init_roundtrips s Ht) as (b3 & E3 & D3). rewrite E3.
    exists (b1 ++ b2 ++ b3). split; [done|]. intros rest. rewrite <- !app_assoc.
    rewrite (mbind_ok _ _ _ _ _ (D1 _)), (mbind_ok _ _ _ _ _ (D2 _)). change (1 =? 0) with false.
    change (1 =? 1) with true. cbn iota.
    rewrite (mbind_ok _ _ _ (InitSnark s) rest); [done|]. by rewrite (mbind_ok _ _ _ _ _ (D3 _)).
Qed.

Definition ledger_diff_ok (d : LedgerDiff) : Prop :=
  (zlen (ld_new_accounts d) <= U16_MAX /\ Forall (fun e => account_init_ok (nae_init e)) (ld_new_accounts d)) /\
  (zlen (ld_account_diffs d) <= U16_MAX /\
   Forall (fun e => in_u32 (ade_account_serial e) /\ account_diff_ok (ade_diff e)) (ld_account_diffs d)).

Lemma new_account_entry_roundtrips : roundtrips new_account_entry_codec (fun e => account_init_ok (nae_init e)).
Proof.
  intros [id i] Hi. by apply (fields2_roundtrip account_id_codec account_init_codec _ _ id i _ _
    account_id_roundtrips account_init_roundtrips I Hi).
Qed.

Lemma account_diff_entry_roundtrips :
  roundtrips account_diff_entry_codec (fun e => in_u32 (ade_account_serial e) /\ account_diff_ok (ade_diff e)).
Proof.
  intros [n d] [Hn Hd]. by apply (fields2_roundtrip account_serial_codec account_diff_codec _ _ n d _ _
    account_serial_roundtrips account_diff_roundtrips Hn Hd).
Qed.

Lemma ledger_diff_roundtrips : roundtrips ledger_diff_codec ledger_diff_ok.
Proof.
  intros [l1 l2] [H1 H2]. by apply (fields2_roundtrip (u16_len_list_codec new_account_entry_codec)
    (u16_len_list_codec account_diff_entry_codec) _ _ l1 l2 _ _ (u16_len_list_roundtrips _ _ new_account_entry_roundtrips)
    (u16_len_list_roundtrips _ _ account_diff_entry_roundtrips) H1 H2).
Qed.

Definition state_diff_ok (d : StateDiff) : Prop := global_diff_ok (sd_global d) /\ ledger_diff_ok (sd_ledger d).

Lemma state_diff_roundtrips : roundtrips state_diff_codec state_diff_ok.
Proof.
  intros [g l] [H1 H2]. by apply (fields2_roundtrip global_state_diff_codec ledger_diff_codec _ _ g l _ _
    global_diff_roundtrips ledger_diff_roundtrips H1 H2).
Qed.

Lemma payload_roundtrips : roundtrips payload_codec (fun p => state_diff_ok (pl_state_diff p)).
Proof.
  intros [d] Hd. destruct (state_diff_roundtrips d Hd) as (bs & He & Hdec). exists bs. split; [done|].
  intros rest. change (decode payload_codec) with (let* d := decode state_diff_codec in mret (Build_OLDaPayloadV1 d)).
  by rewrite (mbind_ok _ _ _ _ _ (Hdec rest)).
Qed.

Lemma payload_decodes p bs :
  state_diff_ok (pl_state_diff p) -> encode payload_codec p = Ok bs -> decode_ol_da_payload_bytes bs = Ok p.
Proof.
  intros Hp He. destruct (payload_roundtrips p Hp) as (bs' & He' & Hd). assert (bs' = bs) as -> by congruence.
  apply decode_buf_exact_all. rewrite <- (app_nil_r bs) at 1. apply Hd.
Qed.

(** ** What has been encoded is within the bounds

    The encoders refuse keys and lists whose length does not fit and the codecs of
    the sized integers take nothing outside their width, so these bounds hold of
    every value that has been encoded. *)

Lemma len_prefix_inv l bs :
  (let! len := ok_or (try_from 0 U16_MAX l) overflow_container in encode u16_codec len) = Ok bs -> l <= U16_MAX.
Proof. destruct (try_from 0 U16_MAX l) eqn:H; [|done]. apply try_from_some in H. lia. Qed.

Lemma encode_each_inv {T} (c : CodecOf T) l bs :
  encode_each c l = Ok bs -> Forall (fun x => exists b, encode c x = Ok b) l.
Proof.
  revert bs. induction l as [|x l IH]; intros bs H; constructor; apply enc_app_inv in H as (b1 & b2 & H1 & H2 & _); eauto.
Qed.

Lemma u16_len_list_inv {T} (c : CodecOf T) l bs :
  encode (u16_len_list_codec c) l = Ok bs -> zlen l <= U16_MAX /\ Forall (fun x => exists b, encode c x = Ok b) l.
Proof. intros (b1 & b2 & H1%len_prefix_inv & H2%encode_each_inv & _)%enc_app_inv. done. Qed.

Lemma member_bytes_inv {C} (m : CompoundMember C) c bs :
  member_bytes m c = Ok bs -> cm_is_default m c = true \/ cm_encode_set m c = Ok bs.
Proof. unfold member_bytes. destruct (cm_is_default m c); [by left|by right]. Qed.

Lemma vk_register_inv r bs :
  member_bytes (register_member u16_len_bytes_codec) r = Ok bs -> register_of (fun b => zlen b <= U16_MAX) r.
Proof.
  destruct r as [[vk|]]; [|done]. intros [?|H]%member_bytes_inv; [done|].
  by apply enc_app_inv in H as (b1 & b2 & H1%len_prefix_inv & _).
Qed.

Lemma inbox_inv l bs :
  member_bytes (linacc_member InboxBuffer) l = Ok bs ->
  Forall (fun e => in_u32 (dme_incl_epoch e) /\ in_u64 (mp_value (dme_payload e))) (dla_new_entries l).
Proof.
  destruct l as [[|e l]]; [constructor|]. intros [?|H]%member_bytes_inv; [done|].
  apply enc_app_inv in H as (b1 & b2 & _ & H%encode_each_inv & _). eapply Forall_impl; [exact H|].
  intros x [b Hx]. apply enc_app_inv in Hx as (? & ? & _ & Hx & _).
  apply enc_app_inv in Hx as (? & ? & Hep%u32_encodes_only & Hp & _).
  by apply enc_app_inv in Hp as (? & ? & Hv%amount_encodes_only & _).
Qed.

Lemma snark_member_inv d bs :
  member_bytes snark_account_diff_member d = Ok bs ->
  register_of (fun b => zlen b <= U16_MAX) (sad_update_vk d) /\
  Forall (fun e => in_u32 (dme_incl_epoch e) /\ in_u64 (mp_value (dme_payload e))) (dla_new_entries (sad_inbox d)).
Proof.
  intros [H|H]%member_bytes_inv; simpl in H.
  - destruct d as [[[vk|]] ps sq [[|e l]]]; simpl in *; repeat split; try done.
    unfold SnarkAccountDiff_is_default in H. simpl in H. by rewrite andb_false_r in H.
  - destruct (SnarkAccountDiff_is_default d); [done|].
    apply enc_app_inv in H as (? & ? & _ & H & _). apply enc_app_inv in H as (? & ? & H1%vk_register_inv & H & _).
    apply enc_app_inv in H as (? & ? & _ & H & _). by apply enc_app_inv in H as (? & ? & _ & H4%inbox_inv & _).
Qed.

(** C37: a DA payload within the wire bounds (counters in the range of their
    increments and not zero, messages of at most 4 KiB, keys and lists with a
    16-bit length) encodes, and decoding exactly the encoded bytes gives the
    payload back. *)
Theorem da_payload_roundtrip p :
  state_diff_ok (pl_state_diff p) ->
  exists bs, encode payload_codec p = Ok bs /\ decode_ol_da_payload_bytes bs = Ok p.
Proof.
  intros Hp. destruct (payload_roundtrips p Hp) as (bs & He & _). exists bs. split; [done|]. by apply payload_decodes.
Qed.
End da_spec.
