(* ===== verification/LedgerTypes.v ===== *)
(** * Ledger interface types ([crates/ledger-types])

    Error types, the linear [Coin], the data of new accounts, buffered ASM logs,
    and the interface of transaction proof verifiers with the indexing
    implementation. *)

From Stdlib Require String.
From S2P Require Import Prelude Identifiers AcctTypes ChainTypes Externals.

(** ** [errors.rs] *)

Inductive StateError :=
| MissingAccount (id : AccountId)
| AccountSanityCheckFail (id : AccountId)
| AccountExists (id : AccountId)
| UnavailableAccount (id : AccountId)
| InsufficientState
| MismatchedAcctType (got expected : AccountTypeId)
| InsufficientBalance (need have : BitcoinAmount)
| InsufficientLimboFunds (need have : BitcoinAmount)
| LimboFundsOverflow (cur add : BitcoinAmount)
| OooSeqnoChange (cur new : Seqno)
| AcctSerialInconsistent (id : AccountId) (in_acct in_table : AccountSerial)
| NextSerialSequence (cur new : AccountSerial)
| AccountExistsWithSerial (serial : AccountSerial) (existing new : AccountId)
| PendingAsmLogsFull
| PendingAsmLogsOverflow (current adding max : Z).

Section errors.
Context {ET : ExtTypes}.

Inductive ExecError :=
| HeaderEpochMismatch (header state : Epoch)
| ContextEpochMismatch (context state : Epoch)
| SignatureInvalid (what : String.string)
| AmountOverflow
| BalanceUnderflow
| TxConditionCheckFailed
| TxStructureCheckFailed (what : String.string)
| TransactionExpired (max_slot cur_slot : Slot)
| TransactionNotMature (min_slot cur_slot : Slot)
| ChainIntegrity
| AsmManifestHeightMismatch (expected actual : L1Height) (index : Z)
| AsmManifestHeightOverflow
| EpochOverflow
| SlotOverflow
| UnknownAccount (id : AccountId)
| IncorrectTxTargetType
| BlockStructureMismatch
| BlockParentMismatch
| GenesisParentNonnull
| GenesisCoordsNonzero
| SkipEpochs (parent current : Epoch)
| SkipTooManySlots (parent current : Slot)
| IncorrectEpoch (parent self : Epoch) (parent_terminal : bool)
| IncorrectSlot (expected got : Slot)
| GenesisNonterminal
| InsufficientAccountBalance (id : AccountId) (need : BitcoinAmount)
| InvalidSequenceNumber (id : AccountId) (exp actual : Z)
| MaxSeqNumberReached (account_id : AccountId)
| LogsOverflow (count max : Z)
| TxExec (txid : Buf32) (idx : Z) (inner : ExecError)
| State (e : StateError)
| Acct (e : AcctError)
| Codec (e : CodecError).

Definition with_tx (e : ExecError) (txid : Buf32) (idx : Z) : ExecError := TxExec txid idx e.

Fixpoint base (e : ExecError) : ExecError :=
  match e with TxExec _ _ inner => base inner | _ => e end.

Definition into_base (e : ExecError) : ExecError :=
  match e with TxExec _ _ inner => inner | _ => e end.
End errors.

(** ** [coin.rs] *)

(** A linear coin.  Dropping a live coin panics; a function that takes a coin
    consumes it on every path, and the paths of the source that would drop one
    are modelled as [Panic]. *)
Record Coin := { coin_amt : BitcoinAmount }.

Inductive CoinError := InsufficientValue (have want : Z).

Definition Coin_zero : Coin := {| coin_amt := 0 |}.

(** [split_out]: the split-off coin, next to what remains in the receiver. *)
Definition Coin_split_out `{X : Ext} (c : Coin) (amt : BitcoinAmount) : res CoinError Coin * Coin :=
  match amt_checked_sub (coin_amt c) amt with
  | None => (Err (InsufficientValue (coin_amt c) amt), c)
  | Some remainder => (Ok {| coin_amt := amt |}, {| coin_amt := remainder |})
  end.

Definition Coin_consume_zero {E} (c : Coin) : res E unit :=
  if coin_amt c =? 0 then Ok tt else Panic.

(** ** [account.rs]: new accounts; [pending_asm_log.rs] *)

Section ledger.
Context {ET : ExtTypes}.

Inductive NewAccountTypeState :=
| NewEmpty
| NewSnark (update_vk : PredicateKey) (initial_state_root : Buf32).

Record NewAccountData := {
  nad_initial_balance : BitcoinAmount;
  nad_type_state : NewAccountTypeState;
}.

Definition NewAccountData_new_snark (b : BitcoinAmount) (vk : PredicateKey) (root : Buf32) : NewAccountData :=
  {| nad_initial_balance := b; nad_type_state := NewSnark vk root |}.

Record PendingAsmLog := { pal_height : L1Height; pal_log : AsmLogEntry }.
End ledger.

(** ** [proofs.rs] *)

Inductive ProofVerifyError := NoNextProof | InvalidProof | InvalidContext.

(** What the snark-account logic asks of a proof verifier: each call consumes
    the next proof of its kind. *)
Class TxProofVerifier (V : Type) := {
  verify_inbox_mmr_proof_next : AccumulatorClaim -> M ProofVerifyError V unit;
  verify_l1_block_ref_mmr_proof_next : AccumulatorClaim -> M ProofVerifyError V unit;
  verify_local_predicate_next : bytes -> M ProofVerifyError V unit;
  is_exhausted : V -> bool;
}.

Inductive AccProofCheck :=
| CheckInbox (claim : AccumulatorClaim)
| CheckL1BlockRef (claim : AccumulatorClaim).

Record TxProofIndexer := {
  ix_accumulator_checks : list AccProofCheck;
  ix_predicate_checks : list bytes;
}.
Definition TxProofIndexer_new_fresh : TxProofIndexer :=
  {| ix_accumulator_checks := []; ix_predicate_checks := [] |}.

Definition ix_push_acc (c : AccProofCheck) (ix : TxProofIndexer) : TxProofIndexer :=
  {| ix_accumulator_checks := ix_accumulator_checks ix ++ [c];
     ix_predicate_checks := ix_predicate_checks ix |}.
Definition ix_push_pred (c : bytes) (ix : TxProofIndexer) : TxProofIndexer :=
  {| ix_accumulator_checks := ix_accumulator_checks ix;
     ix_predicate_checks := ix_predicate_checks ix ++ [c] |}.

#[export] Instance TxProofIndexer_verifier : TxProofVerifier TxProofIndexer := {
  verify_inbox_mmr_proof_next claim := mmodify (ix_push_acc (CheckInbox claim));
  verify_l1_block_ref_mmr_proof_next claim := mmodify (ix_push_acc (CheckL1BlockRef claim));
  verify_local_predicate_next claim := mmodify (ix_push_pred claim);
  is_exhausted _ := true;
}.
