(* ===== verification/Bridge.v ===== *)
(** * Bridge parameters and the deposit descriptor wire format
    ([crates/bridge-params], [crates/bridge-types])

    The withdrawal policy, and the compact encoding of a deposit destination: a
    control byte (length bits and top nibble of the serial), one to three serial
    bytes, and the subject bytes.  Descriptors round-trip, and a valid policy
    admits what it says. *)

From S2P Require Import Prelude Identifiers AcctTypes ChainTypes Externals.

(** ** [bridge-params/src/lib.rs] *)

Record BridgeParams := {
  bp_denomination : Z;
  bp_max_withdrawal_amount : option Z;
  bp_max_withdrawal_descriptor_len : Z;
}.

Definition MAX_WITHDRAWAL_DESCRIPTOR_LEN : Z := 255.

Inductive BridgeParamsError :=
| ZeroDenomination
| MaxBelowDenomination (denomination max : Z)
| MaxNotMultiple (denomination max : Z)
| ZeroMaxWithdrawalDescriptorLen
| MaxWithdrawalDescriptorLenTooLarge (max cap : Z).

Definition BridgeParams_new_with_descriptor_limit (denomination : Z) (max_amount : option Z)
    (max_desc_len : Z) : res BridgeParamsError BridgeParams :=
  if denomination =? 0 then Err ZeroDenomination else
  let! _ :=
    match max_amount with
    | Some max =>
        if max <? denomination then Err (MaxBelowDenomination denomination max)
        else if negb (max mod denomination =? 0) then Err (MaxNotMultiple denomination max)
        else Ok tt
    | None => Ok tt
    end in
  if max_desc_len =? 0 then Err ZeroMaxWithdrawalDescriptorLen
  else if MAX_WITHDRAWAL_DESCRIPTOR_LEN <? max_desc_len then
    Err (MaxWithdrawalDescriptorLenTooLarge max_desc_len MAX_WITHDRAWAL_DESCRIPTOR_LEN)
  else Ok {| bp_denomination := denomination; bp_max_withdrawal_amount := max_amount;
             bp_max_withdrawal_descriptor_len := max_desc_len |}.

(** [u64::is_multiple_of]: only zero is a multiple of zero. *)
Definition is_multiple_of (x y : Z) : bool := if y =? 0 then x =? 0 else x mod y =? 0.

Definition validate_withdrawal_amount (bp : BridgeParams) (amount_sats : Z) : bool :=
  (0 <? amount_sats) && is_multiple_of amount_sats (bp_denomination bp) &&
  match bp_max_withdrawal_amount bp with None => true | Some cap => amount_sats <=? cap end.

Definition validate_withdrawal_descriptor_len (bp : BridgeParams) (len : Z) : bool :=
  (0 <? len) && (len <=? bp_max_withdrawal_descriptor_len bp).

(** ** [bridge-types/src/deposit.rs] *)

Definition MAX_SERIAL_12_BITS : Z := Z.shiftl 1 12 - 1.
Definition MAX_SERIAL_20_BITS : Z := Z.shiftl 1 20 - 1.
Definition MAX_SERIAL_28_BITS : Z := Z.shiftl 1 28 - 1.
Definition MAX_SERIAL_VALUE : Z := MAX_SERIAL_28_BITS.

Inductive DepositDescriptorError :=
| EmptyDescriptor
| InsufficientLength (expected actual : Z)
| ReservedControlBits (byte : Z)
| ReservedSerialLengthBits (byte : Z)
| SubjectTooLong (len : Z)
| SerialTooLarge (value max : Z).

Definition RESERVED_MASK : Z := 192.
Definition LEN_MASK : Z := 48.
Definition MSB_NIBBLE_MASK : Z := 15.

Definition ControlByte_serial_len (c : Z) : nat := Z.to_nat (Z.shiftr (Z.land c LEN_MASK) 4 + 1).
Definition ControlByte_serial_msb (c : Z) : Z := Z.land c MSB_NIBBLE_MASK.
(** Both setters OR into a byte; the shift drops bits beyond the byte. *)
Definition ControlByte_set_serial_len (c len : Z) : Z := Z.lor c (Z.land (Z.shiftl len 4) 255).
Definition ControlByte_set_serial_msb (c msb : Z) : Z := Z.lor c msb.

Definition ControlByte_try_from (byte : Z) : res DepositDescriptorError Z :=
  if negb (Z.land byte RESERVED_MASK =? 0) then Err (ReservedControlBits byte)
  else if Z.shiftr (Z.land byte LEN_MASK) 4 =? 3 then Err (ReservedSerialLengthBits byte)
  else Ok byte.

(** Bytes of a [u32], big-endian. *)
Definition u32_byte (v : Z) (i : Z) : Z := Z.land (Z.shiftr v (8 * (3 - i))) 255.
Definition u32_from_be_bytes (b0 b1 b2 b3 : Z) : Z :=
  Z.lor (Z.shiftl b0 24) (Z.lor (Z.shiftl b1 16) (Z.lor (Z.shiftl b2 8) b3)).

(** Control byte and the additional serial bytes ([EncodedSerial]). *)
Record EncodedSerial := { es_control : Z; es_additional_bytes : list Z }.

(** [EncodedSerial::additional_bytes]: the slice the control byte announces. *)
Definition es_additional (e : EncodedSerial) : list Z :=
  take (ControlByte_serial_len (es_control e)) (es_additional_bytes e).

Definition EncodedSerial_from_account_serial (value : AccountSerial)
    : res DepositDescriptorError EncodedSerial :=
  let b := u32_byte value in
  if value <=? MAX_SERIAL_12_BITS then
    Ok {| es_control := ControlByte_set_serial_msb (ControlByte_set_serial_len 0 0) (b 2);
          es_additional_bytes := [b 3; 0; 0] |}
  else if value <=? MAX_SERIAL_20_BITS then
    Ok {| es_control := ControlByte_set_serial_msb (ControlByte_set_serial_len 0 1) (b 1);
          es_additional_bytes := [b 2; b 3; 0] |}
  else if value <=? MAX_SERIAL_28_BITS then
    Ok {| es_control := ControlByte_set_serial_msb (ControlByte_set_serial_len 0 2) (b 0);
          es_additional_bytes := [b 1; b 2; b 3] |}
  else Err (SerialTooLarge value MAX_SERIAL_VALUE).

(** The additional bytes go to the end of a zeroed big-endian [u32]; the nibble
    is ORed into the byte before them. *)
Definition EncodedSerial_to_account_serial (e : EncodedSerial) : AccountSerial :=
  let msb_nibble := ControlByte_serial_msb (es_control e) in
  let additional_len := ControlByte_serial_len (es_control e) in
  let u32_bytes := replicate (4 - additional_len) 0 ++ take additional_len (es_additional_bytes e) in
  let msb_index := (4 - additional_len - 1)%nat in
  let u32_bytes := alter (fun x => Z.lor x msb_nibble) msb_index u32_bytes in
  u32_from_be_bytes (nth 0 u32_bytes 0) (nth 1 u32_bytes 0) (nth 2 u32_bytes 0) (nth 3 u32_bytes 0).

Section descriptor.
Context `{X : Ext}.

Record DepositDescriptor := {
  dd_dest_acct_serial : AccountSerial;
  dd_dest_subject : SubjectIdBytes;
}.

Definition DepositDescriptor_new (serial : AccountSerial) (subject : SubjectIdBytes)
    : res DepositDescriptorError DepositDescriptor :=
  if MAX_SERIAL_VALUE <? serial then Err (SerialTooLarge serial MAX_SERIAL_VALUE)
  else Ok {| dd_dest_acct_serial := serial; dd_dest_subject := subject |}.

Definition DepositDescriptor_encode_to_vec {E} (d : DepositDescriptor) : res E bytes :=
  match EncodedSerial_from_account_serial (dd_dest_acct_serial d) with
  | Ok e => Ok (es_control e :: es_additional e ++ subject_as_bytes (dd_dest_subject d))
  | _ => Panic
  end.

Definition DepositDescriptor_decode_from_slice (bs : bytes)
    : res DepositDescriptorError DepositDescriptor :=
  match bs with
  | [] => Err EmptyDescriptor
  | b0 :: rest =>
      let! control := ControlByte_try_from b0 in
      let serial_len := ControlByte_serial_len control in
      if zlen bs <? 1 + Z.of_nat serial_len then
        Err (InsufficientLength (1 + Z.of_nat serial_len) (zlen bs))
      else
        let additional_bytes := take serial_len rest ++ replicate (3 - serial_len) 0 in
        let dest_acct_serial := EncodedSerial_to_account_serial
          {| es_control := control; es_additional_bytes := additional_bytes |} in
        let subject_bytes := drop serial_len rest in
        match subject_try_new subject_bytes with
        | None => Err (SubjectTooLong (zlen subject_bytes))
        | Some dest_subject =>
            Ok {| dd_dest_acct_serial := dest_acct_serial; dd_dest_subject := dest_subject |}
        end
  end.
End descriptor.

(** * Properties of the bridge types

    The deposit descriptor round-trips through its wire format, decoded serials
    are in range, and accepted bridge parameters give a meaningful withdrawal
    policy. *)

(** Linear arithmetic with division by constants. *)
Ltac divmod_lia := Z.to_euclidean_division_equations; lia.

(** ** Bytes and nibbles *)

Lemma u32_byte_div v i : 0 <= i <= 3 -> u32_byte v i = (v / 2 ^ (8 * (3 - i))) mod 256.
Proof.
  intros Hi. unfold u32_byte. rewrite Z.shiftr_div_pow2 by lia.
  change 255 with (Z.ones 8). by rewrite Z.land_ones by lia.
Qed.

Lemma u32_from_be_bytes_add b0 b1 b2 b3 :
  0 <= b1 < 256 -> 0 <= b2 < 256 -> 0 <= b3 < 256 ->
  u32_from_be_bytes b0 b1 b2 b3 = b0 * 16777216 + b1 * 65536 + b2 * 256 + b3.
Proof.
  intros H1 H2 H3. unfold u32_from_be_bytes.
  rewrite (lor_shiftl_add b2 b3 8) by (change (2 ^ 8) with 256; lia). change (2 ^ 8) with 256.
  rewrite (lor_shiftl_add b1 _ 16) by (change (2 ^ 16) with 65536; lia). change (2 ^ 16) with 65536.
  rewrite (lor_shiftl_add b0 _ 24) by (change (2 ^ 24) with 16777216; lia). change (2 ^ 24) with 16777216. lia.
Qed.

(** A control byte carries its length and nibble. *)
Lemma control_byte_fields k b :
  0 <= k <= 2 -> 0 <= b < 16 ->
  let c := ControlByte_set_serial_msb (ControlByte_set_serial_len 0 k) b in
  ControlByte_try_from c = Ok c /\ Z.of_nat (ControlByte_serial_len c) = k + 1 /\ ControlByte_serial_msb c = b.
Proof.
  intros Hk Hb.
  assert (b = 0 \/ b = 1 \/ b = 2 \/ b = 3 \/ b = 4 \/ b = 5 \/ b = 6 \/ b = 7 \/ b = 8 \/ b = 9 \/
    b = 10 \/ b = 11 \/ b = 12 \/ b = 13 \/ b = 14 \/ b = 15) as Hb16 by lia.
  assert (k = 0 \/ k = 1 \/ k = 2) as Hk3 by lia. clear Hk Hb.
  destruct Hk3 as [->|[->| ->]]; repeat destruct Hb16 as [->|Hb16]; try subst b; vm_compute; done.
Qed.

(** A decidable property of bytes can be checked on all of them. *)
Lemma byte_forall (P : Z -> bool) :
  forallb P (map Z.of_nat (seq 0 256)) = true -> forall b, in_u8 b -> P b = true.
Proof.
  intros H b Hb. apply (below_forall 256 P H). unfold in_u8 in Hb. lia.
Qed.

(** A byte that passes the control check has a length of one to three bytes. *)
Lemma control_byte_ok byte c :
  in_u8 byte -> ControlByte_try_from byte = Ok c ->
  c = byte /\ (1 <= ControlByte_serial_len c <= 3)%nat /\ 0 <= ControlByte_serial_msb c < 16.
Proof.
  intros Hb H. pose proof (byte_forall (fun b => match ControlByte_try_from b with
    | Ok c => (c =? b) && (1 <=? ControlByte_serial_len c)%nat && (ControlByte_serial_len c <=? 3)%nat
              && (0 <=? ControlByte_serial_msb c) && (ControlByte_serial_msb c <? 16)
    | _ => true end) eq_refl byte Hb) as Hc. cbv beta in Hc. rewrite H in Hc. zbool.
  repeat match goal with H : (_ <=? _)%nat = true |- _ => apply Nat.leb_le in H end. lia.
Qed.

(** ** The descriptor *)

Section descriptor.
Context `{X : Ext} `{!SubjectLaws X}.

Lemma serial_bytes v :
  0 <= v < 268435456 ->
  u32_byte v 3 = v mod 256 /\ u32_byte v 2 = (v / 256) mod 256 /\
  u32_byte v 1 = (v / 65536) mod 256 /\ u32_byte v 0 = v / 16777216.
Proof.
  intros Hv. rewrite !u32_byte_div by lia.
  change (2 ^ (8 * (3 - 3))) with 1. change (2 ^ (8 * (3 - 2))) with 256.
  change (2 ^ (8 * (3 - 1))) with 65536. change (2 ^ (8 * (3 - 0))) with 16777216.
  rewrite Z.div_1_r. split_and!; try done. apply Z.mod_small.
  split; [by apply Z.div_pos; lia|apply Z.div_lt_upper_bound; lia].
Qed.

(** The serial read back from a nibble and additional bytes. *)
Lemma to_account_serial_bytes c b0 b1 b2 msb :
  ControlByte_serial_msb c = msb ->
  EncodedSerial_to_account_serial {| es_control := c; es_additional_bytes := [b0; b1; b2] |} =
  match ControlByte_serial_len c with
  | 1%nat => u32_from_be_bytes 0 0 msb b0
  | 2%nat => u32_from_be_bytes 0 msb b0 b1
  | 3%nat => u32_from_be_bytes msb b0 b1 b2
  | _ => EncodedSerial_to_account_serial {| es_control := c; es_additional_bytes := [b0; b1; b2] |}
  end.
Proof.
  intros Hm. destruct (ControlByte_serial_len c) as [|[|[|[|n]]]] eqn:Hl; try done.
  all: unfold EncodedSerial_to_account_serial; cbn [es_control es_additional_bytes]; rewrite Hl, Hm; reflexivity.
Qed.

(** What the encoder produces: a valid control byte announcing the additional
    bytes that follow, from which the serial is recovered. *)
Lemma encoded_serial_roundtrip v :
  0 <= v <= MAX_SERIAL_VALUE ->
  exists e, EncodedSerial_from_account_serial v = Ok e /\
    ControlByte_try_from (es_control e) = Ok (es_control e) /\
    length (es_additional_bytes e) = 3%nat /\
    (ControlByte_serial_len (es_control e) <= 3)%nat /\
    es_additional e ++ replicate (3 - ControlByte_serial_len (es_control e)) 0 = es_additional_bytes e /\
    EncodedSerial_to_account_serial e = v.
Proof.
  intros Hv. change MAX_SERIAL_VALUE with 268435455 in Hv.
  destruct (serial_bytes v) as (H3 & H2 & H1 & H0); [lia|].
  unfold EncodedSerial_from_account_serial. change MAX_SERIAL_12_BITS with 4095.
  change MAX_SERIAL_20_BITS with 1048575. change MAX_SERIAL_28_BITS with 268435455.
  assert (Hmk : forall k b bs, 0 <= k <= 2 -> 0 <= b < 16 -> length bs = 3%nat ->
    take (Z.to_nat (k + 1)) bs ++ replicate (3 - Z.to_nat (k + 1)) 0 = bs ->
    let e := {| es_control := ControlByte_set_serial_msb (ControlByte_set_serial_len 0 k) b;
                es_additional_bytes := bs |} in
    ControlByte_try_from (es_control e) = Ok (es_control e) /\ length (es_additional_bytes e) = 3%nat /\
    (ControlByte_serial_len (es_control e) <= 3)%nat /\
    es_additional e ++ replicate (3 - ControlByte_serial_len (es_control e)) 0 = es_additional_bytes e /\
    ControlByte_serial_len (es_control e) = Z.to_nat (k + 1) /\ ControlByte_serial_msb (es_control e) = b).
  { intros k b bs Hk Hb Hlen Hpad. destruct (control_byte_fields k b Hk Hb) as (Hc1 & Hc2 & Hc3). simpl.
    assert (Hsl : ControlByte_serial_len (ControlByte_set_serial_msb (ControlByte_set_serial_len 0 k) b) = Z.to_nat (k + 1))
      by lia. unfold es_additional. simpl. rewrite Hsl. split_and!; try done. lia. }
  destruct (v <=? 4095) eqn:E1; [|destruct (v <=? 1048575) eqn:E2; [|destruct (v <=? 268435455) eqn:E3; [|zbool; lia]]]; zbool.
  - destruct (Hmk 0 (u32_byte v 2) [u32_byte v 3; 0; 0]) as (? & ? & ? & ? & Hsl & Hmsb); [lia| |done|done|].
    { rewrite H2. divmod_lia. }
    eexists. split; [done|]. split_and!; try done.
    rewrite (to_account_serial_bytes _ _ _ _ _ Hmsb), Hsl.
    change (Z.to_nat (0 + 1)) with 1%nat. cbv iota.
    rewrite u32_from_be_bytes_add, H2, H3 by (rewrite ?H2, ?H3; divmod_lia). divmod_lia.
  - destruct (Hmk 1 (u32_byte v 1) [u32_byte v 2; u32_byte v 3; 0]) as (? & ? & ? & ? & Hsl & Hmsb); [lia| |done|done|].
    { rewrite H1. divmod_lia. }
    eexists. split; [done|]. split_and!; try done.
    rewrite (to_account_serial_bytes _ _ _ _ _ Hmsb), Hsl.
    change (Z.to_nat (1 + 1)) with 2%nat. cbv iota.
    rewrite u32_from_be_bytes_add, H1, H2, H3 by (rewrite ?H1, ?H2, ?H3; divmod_lia). divmod_lia.
  - destruct (Hmk 2 (u32_byte v 0) [u32_byte v 1; u32_byte v 2; u32_byte v 3]) as (? & ? & ? & ? & Hsl & Hmsb); [lia| |done|done|].
    { rewrite H0. divmod_lia. }
    eexists. split; [done|]. split_and!; try done.
    rewrite (to_account_serial_bytes _ _ _ _ _ Hmsb), Hsl.
    change (Z.to_nat (2 + 1)) with 3%nat. cbv iota.
    rewrite u32_from_be_bytes_add, H0, H1, H2, H3 by (rewrite ?H1, ?H2, ?H3; divmod_lia). divmod_lia.
Qed.

Lemma zlen_cons_app (b : Z) l1 l2 : zlen (b :: l1 ++ l2) = 1 + zlen l1 + zlen l2.
Proof. autorewrite with zlen. lia. Qed.

(** Every deposit descriptor that can be made encodes without panicking,
    and its encoding decodes to the descriptor. *)
Theorem deposit_descriptor_roundtrip serial subject d :
  0 <= serial -> DepositDescriptor_new serial subject = Ok d ->
  exists bs, DepositDescriptor_encode_to_vec (E := DepositDescriptorError) d = Ok bs /\
    DepositDescriptor_decode_from_slice bs = Ok d.
Proof.
  intros Hs. unfold DepositDescriptor_new. destruct (_ <? _) eqn:Hmax; [done|]. zbool. intros [= <-].
  destruct (encoded_serial_roundtrip serial) as (e & He & Hc & Hlen & Hsl & Hpad & Hto); [lia|].
  unfold DepositDescriptor_encode_to_vec. simpl. rewrite He. eexists. split; [reflexivity|].
  unfold DepositDescriptor_decode_from_slice. rewrite Hc. cbn [res_bind].
  assert (Hal : length (es_additional e) = ControlByte_serial_len (es_control e)).
  { unfold es_additional. rewrite length_take. lia. }
  rewrite zlen_cons_app. unfold zlen at 1 2 3. rewrite Hal.
  rewrite (proj2 (Z.ltb_ge _ _)) by lia.
  rewrite <- Hal, take_app_length, drop_app_length, Hal, Hpad, subject_as_bytes_new.
  destruct e as [c bs]. simpl in *. by rewrite Hto.
Qed.

(** The serial of a decoded descriptor is within the encodable range, so a
    decoded descriptor is one that could have been made. *)
Theorem deposit_descriptor_decode_bounded bs d :
  Forall in_u8 bs -> DepositDescriptor_decode_from_slice bs = Ok d ->
  0 <= dd_dest_acct_serial d /\ DepositDescriptor_new (dd_dest_acct_serial d) (dd_dest_subject d) = Ok d.
Proof.
  intros Hall. destruct bs as [|b0 rest]; [done|]. apply Forall_cons in Hall as [Hb0 Hall].
  unfold DepositDescriptor_decode_from_slice. destruct (ControlByte_try_from b0) as [c| |] eqn:Hc; simpl; [|done..].
  apply control_byte_ok in Hc as (-> & Hsl & Hmsb); [|done].
  destruct (_ <? _) eqn:Hlen; [done|]. zbool. autorewrite with zlen in Hlen.
  destruct (subject_try_new _) as [subj|]; [|done]. intros [= <-]. simpl.
  assert (Hpad : exists x y z, take (ControlByte_serial_len b0) rest ++ replicate (3 - ControlByte_serial_len b0) 0
    = [x; y; z] /\ 0 <= x < 256 /\ 0 <= y < 256 /\ 0 <= z < 256).
  { unfold zlen in Hlen.
    destruct (ControlByte_serial_len b0) as [|[|[|[|n]]]]; try lia;
      destruct rest as [|r0 [|r1 [|r2 rest]]]; simpl in Hlen; try lia;
      repeat match goal with H : Forall _ (_ :: _) |- _ => apply Forall_cons in H as [? H] end;
      unfold in_u8 in *; simpl; do 3 eexists; (split; [reflexivity|]); lia. }
  destruct Hpad as (x & y & z & -> & Hx & Hy & Hz). rewrite (to_account_serial_bytes _ _ _ _ _ eq_refl).
  assert (Hbound : forall v, 0 <= v <= 268435455 -> 0 <= v /\ DepositDescriptor_new v subj = Ok
    {| dd_dest_acct_serial := v; dd_dest_subject := subj |}).
  { intros v Hv. split; [lia|]. unfold DepositDescriptor_new. change MAX_SERIAL_VALUE with 268435455.
    by rewrite (proj2 (Z.ltb_ge _ _)) by lia. }
  destruct (ControlByte_serial_len b0) as [|[|[|[|n]]]]; try lia; apply Hbound; rewrite u32_from_be_bytes_add by lia; lia.
Qed.
End descriptor.

(** ** The withdrawal policy *)

(** Bridge parameters that were accepted define a usable policy: an amount is
    valid exactly if it is a positive multiple of the denomination within the cap,
    the denomination itself is valid, and so is a cap if there is one. *)
Theorem bridge_params_policy denomination max_amount max_desc_len bp :
  in_u64 denomination -> BridgeParams_new_with_descriptor_limit denomination max_amount max_desc_len = Ok bp ->
  (forall amt, 0 <= amt ->
    validate_withdrawal_amount bp amt = true <->
    0 < amt /\ (denomination | amt) /\ (forall cap, max_amount = Some cap -> amt <= cap)) /\
  validate_withdrawal_amount bp denomination = true /\
  (forall cap, max_amount = Some cap -> validate_withdrawal_amount bp cap = true).
Proof.
  intros Hd. unfold BridgeParams_new_with_descriptor_limit. destruct (denomination =? 0) eqn:Hz; [done|]. zbool.
  intros H.
  assert (Hbp : bp_denomination bp = denomination /\ bp_max_withdrawal_amount bp = max_amount /\
    forall cap, max_amount = Some cap -> denomination <= cap /\ (denomination | cap)).
  { destruct max_amount as [max|]; simpl in H.
    - destruct (max <? denomination) eqn:H1; [done|]. destruct (max mod denomination =? 0) eqn:H2; simpl in H; [|done].
      zbool. repeat case_match; simplify_eq. simpl. split_and!; [done..|]. intros cap [= <-]. split; [done|].
      by apply Z.mod_divide.
    - repeat case_match; simplify_eq. done. }
  destruct Hbp as (Hbd & Hbm & Hcap).
  assert (Hiff : forall amt, 0 <= amt -> validate_withdrawal_amount bp amt = true <->
    0 < amt /\ (denomination | amt) /\ (forall cap, max_amount = Some cap -> amt <= cap)).
  { intros amt Ha. unfold validate_withdrawal_amount, is_multiple_of. rewrite Hbd, Hbm, !andb_true_iff.
    rewrite (proj2 (Z.eqb_neq denomination 0)) by done. rewrite Z.ltb_lt, Z.eqb_eq, Z.mod_divide by done.
    destruct max_amount as [cap|]; [rewrite Z.leb_le|].
    - split; [intros [[? ?] ?]; split_and!; try done; intros ? [= <-]; done|intros (? & ? & Hc); auto].
    - split; [intros [[? ?] _]; done|intros (? & ? & _); done]. }
  unfold in_u64 in Hd. split; [done|]. split.
  - apply Hiff; [lia|]. split_and!; [lia|reflexivity|]. intros cap Hc. by apply Hcap.
  - intros cap Hc. destruct (Hcap cap Hc). apply Hiff; [lia|]. split_and!; [lia|done|]. intros ? Hc'. simplify_eq. lia.
Qed.
