(* ===== verification/OLAccount.v ===== *)
(** * Account states and the ledger table
    ([crates/ol/state-types/src/{account,snark_account,ledger}.rs])

    Accounts, snark accounts, and the accounts table kept sorted by account id
    and searched by bisection. *)

From S2P Require Import Prelude SortedMap Identifiers AcctTypes ChainTypes Externals.
From S2P Require Import LedgerTypes.

Section account.
Context `{X : Ext}.

(** ** [snark_account.rs] *)

Record OLSnarkAccountState := {
  sas_update_vk : PredicateKey;
  sas_seqno : Seqno;
  sas_proof_state : ProofState;
  sas_inbox_mmr : Mmr64;
}.

Definition OLSnarkAccountState_new_fresh (update_vk : PredicateKey) (initial_state_root : Buf32)
    : OLSnarkAccountState :=
  {| sas_update_vk := update_vk; sas_seqno := Seqno_zero;
     sas_proof_state := {| ps_inner_state := initial_state_root; ps_next_inbox_msg_idx := 0 |};
     sas_inbox_mmr := mmr_empty |}.

Definition sas_inner_state_root (s : OLSnarkAccountState) : Buf32 := ps_inner_state (sas_proof_state s).
Definition sas_next_inbox_msg_idx (s : OLSnarkAccountState) : Z :=
  ps_next_inbox_msg_idx (sas_proof_state s).

Definition set_proof_state (s : OLSnarkAccountState) (state : Buf32) (next_read_idx : Z) (seqno : Seqno)
    : OLSnarkAccountState :=
  {| sas_update_vk := sas_update_vk s; sas_seqno := seqno;
     sas_proof_state := {| ps_inner_state := state; ps_next_inbox_msg_idx := next_read_idx |};
     sas_inbox_mmr := sas_inbox_mmr s |}.

Definition insert_inbox_message (s : OLSnarkAccountState) (entry : MessageEntry)
    : res StateError OLSnarkAccountState :=
  match mmr_add_leaf (sas_inbox_mmr s) (thr_message_entry entry) with
  | None => Panic
  | Some mmr =>
      Ok {| sas_update_vk := sas_update_vk s; sas_seqno := sas_seqno s;
            sas_proof_state := sas_proof_state s; sas_inbox_mmr := mmr |}
  end.

Definition set_update_vk (s : OLSnarkAccountState) (new_vk : PredicateKey) : OLSnarkAccountState :=
  {| sas_update_vk := new_vk; sas_seqno := sas_seqno s;
     sas_proof_state := sas_proof_state s; sas_inbox_mmr := sas_inbox_mmr s |}.

(** ** [account.rs] *)

Inductive OLAccountTypeState :=
| TyEmpty
| TySnark (s : OLSnarkAccountState).

Record OLAccountState := {
  acct_serial : AccountSerial;
  acct_balance : BitcoinAmount;
  acct_state : OLAccountTypeState;
}.

Definition OLAccountState_new_with_serial (d : NewAccountData) (serial : AccountSerial) : OLAccountState :=
  {| acct_serial := serial; acct_balance := nad_initial_balance d;
     acct_state :=
       match nad_type_state d with
       | NewEmpty => TyEmpty
       | NewSnark vk root => TySnark (OLSnarkAccountState_new_fresh vk root)
       end |}.

Definition acct_ty (a : OLAccountState) : AccountTypeId :=
  match acct_state a with TyEmpty => AcctTyEmpty | TySnark _ => AcctTySnark end.

Definition as_snark_account (a : OLAccountState) : res StateError OLSnarkAccountState :=
  match acct_state a with
  | TySnark s => Ok s
  | TyEmpty => Err (MismatchedAcctType (acct_ty a) AcctTySnark)
  end.

Definition acct_with_balance (a : OLAccountState) (b : BitcoinAmount) : OLAccountState :=
  {| acct_serial := acct_serial a; acct_balance := b; acct_state := acct_state a |}.
Definition acct_with_state (a : OLAccountState) (t : OLAccountTypeState) : OLAccountState :=
  {| acct_serial := acct_serial a; acct_balance := acct_balance a; acct_state := t |}.

(** [add_balance] consumes the coin; an overflow panics. *)
Definition add_balance {E} (coin : Coin) : M E OLAccountState unit := fun a =>
  match amt_checked_add (acct_balance a) (coin_amt coin) with
  | None => (Panic, a)
  | Some b => (Ok tt, acct_with_balance a b)
  end.

Definition take_balance (amt : BitcoinAmount) : M StateError OLAccountState Coin := fun a =>
  match amt_checked_sub (acct_balance a) amt with
  | None => (Err (InsufficientBalance amt (acct_balance a)), a)
  | Some b => (Ok {| coin_amt := amt |}, acct_with_balance a b)
  end.

(** ** [ledger.rs] *)

Record TsnlAccountEntry := { ent_id : AccountId; ent_state : OLAccountState }.

(** The accounts table: a list of entries sorted by id, at most
    [MAX_LEDGER_ACCOUNTS] of them. *)
Record TsnlLedgerAccountsTable := { tbl_accounts : list TsnlAccountEntry }.

Definition MAX_LEDGER_ACCOUNTS : Z := Z.shiftl 1 24.

Definition TsnlLedgerAccountsTable_new_empty : TsnlLedgerAccountsTable := {| tbl_accounts := [] |}.

(** [slice::binary_search_by_key]: [inl i] is the index of a match, [inr i] the
    index at which the key can be inserted.  [lo] and [hi] delimit the range
    still searched; the fuel is its length. *)
Fixpoint bsearch (l : list TsnlAccountEntry) (id : AccountId) (lo hi : nat) (fuel : nat) : nat + nat :=
  match fuel with
  | O => inr lo
  | S fuel' =>
      if (lo <? hi)%nat then
        let mid := (lo + (hi - lo) / 2)%nat in
        match l !! mid with
        | None => inr lo
        | Some e =>
            if ent_id e =? id then inl mid
            else if ent_id e <? id then bsearch l id (S mid) hi fuel'
            else bsearch l id lo mid fuel'
        end
      else inr lo
  end.

Definition binary_search_by_id (l : list TsnlAccountEntry) (id : AccountId) : nat + nat :=
  bsearch l id 0 (length l) (S (length l)).

Definition get_acct_entry_idx (t : TsnlLedgerAccountsTable) (id : AccountId) : option nat :=
  match binary_search_by_id (tbl_accounts t) id with inl i => Some i | inr _ => None end.

Definition tbl_get_account_state (t : TsnlLedgerAccountsTable) (id : AccountId) : option OLAccountState :=
  match get_acct_entry_idx t id with
  | None => None
  | Some i => match tbl_accounts t !! i with Some e => Some (ent_state e) | None => None end
  end.

(** Writes through the reference [get_account_state_mut] hands out. *)
Definition tbl_set_account_state (t : TsnlLedgerAccountsTable) (i : nat) (st : OLAccountState)
    : TsnlLedgerAccountsTable :=
  {| tbl_accounts :=
       alter (fun e => {| ent_id := ent_id e; ent_state := st |}) i (tbl_accounts t) |}.

Definition tbl_iter_account_states (t : TsnlLedgerAccountsTable) : list (AccountId * OLAccountState) :=
  map (fun e => (ent_id e, ent_state e)) (tbl_accounts t).

(** [is_sorted_by_key]: neighbours are in non-decreasing order. *)
Fixpoint is_sorted_by_id (l : list TsnlAccountEntry) : bool :=
  match l with
  | e1 :: ((e2 :: _) as l') => (ent_id e1 <=? ent_id e2) && is_sorted_by_id l'
  | _ => true
  end.

Definition tbl_create_account (id : AccountId) (st : OLAccountState)
    : M StateError TsnlLedgerAccountsTable unit := fun t =>
  match binary_search_by_id (tbl_accounts t) id with
  | inl _ => (Err (AccountExists id), t)
  | inr i =>
      let l := take i (tbl_accounts t) ++ {| ent_id := id; ent_state := st |} :: drop i (tbl_accounts t) in
      if negb (zlen l <=? MAX_LEDGER_ACCOUNTS) then (Panic, t)
      else if is_sorted_by_id l then (Ok tt, {| tbl_accounts := l |})
      else (Panic, {| tbl_accounts := l |})
  end.

Definition tbl_create_new_account (id : AccountId) (serial : AccountSerial) (d : NewAccountData)
    : M StateError TsnlLedgerAccountsTable unit :=
  tbl_create_account id (OLAccountState_new_with_serial d serial).

(** Sum of all balances; overflowing panics. *)
Definition calculate_total_funds {E} (t : TsnlLedgerAccountsTable) : res E BitcoinAmount :=
  expect (try_fold_amounts amt_checked_add 0
    (map (fun e => acct_balance (ent_state e)) (tbl_accounts t))).

(** ** The table as a finite map *)

Definition tbl_map (t : TsnlLedgerAccountsTable) : gmap AccountId OLAccountState :=
  list_to_map (tbl_iter_account_states t).

(** Strictly increasing ids. *)
Definition tbl_wf (t : TsnlLedgerAccountsTable) : Prop := keys_sorted (tbl_iter_account_states t).

(** The sum of all account balances. *)
Definition tbl_total (t : TsnlLedgerAccountsTable) : Z :=
  zsum (map (fun e => acct_balance (ent_state e)) (tbl_accounts t)).

(** ** Correctness of the table *)

Lemma tbl_iter_lookup t i :
  tbl_iter_account_states t !! i = (fun e => (ent_id e, ent_state e)) <$> (tbl_accounts t !! i).
Proof. apply list_lookup_fmap. Qed.

Lemma tbl_entries_ordered t i j e1 e2 :
  tbl_wf t -> tbl_accounts t !! i = Some e1 -> tbl_accounts t !! j = Some e2 -> (i < j)%nat ->
  ent_id e1 < ent_id e2.
Proof.
  intros Hwf H1 H2 Hlt.
  eapply (keys_sorted_lookup _ i j (ent_id e1, ent_state e1) (ent_id e2, ent_state e2) Hwf);
    [rewrite tbl_iter_lookup, H1|rewrite tbl_iter_lookup, H2|]; done.
Qed.

(** Outcome of a search over a sorted table. *)
Definition search_result (l : list TsnlAccountEntry) (id : AccountId) (r : nat + nat) : Prop :=
  match r with
  | inl i => exists e, l !! i = Some e /\ ent_id e = id
  | inr i =>
      (forall j e, l !! j = Some e -> (j < i)%nat -> ent_id e < id) /\
      (forall j e, l !! j = Some e -> (i <= j)%nat -> id < ent_id e)
  end.

Lemma bsearch_correct t id lo hi fuel :
  tbl_wf t -> (lo <= hi <= length (tbl_accounts t))%nat -> (hi - lo < fuel)%nat ->
  (forall j e, tbl_accounts t !! j = Some e -> (j < lo)%nat -> ent_id e < id) ->
  (forall j e, tbl_accounts t !! j = Some e -> (hi <= j)%nat -> id < ent_id e) ->
  search_result (tbl_accounts t) id (bsearch (tbl_accounts t) id lo hi fuel).
Proof.
  intros Hwf. revert lo hi. induction fuel as [|fuel IH]; intros lo hi Hr Hf Hlo Hhi; [lia|].
  cbn [bsearch]. destruct (lo <? hi)%nat eqn:Hlt.
  2: { apply Nat.ltb_ge in Hlt. assert (lo = hi) as -> by lia. split; auto. }
  apply Nat.ltb_lt in Hlt. set (mid := (lo + (hi - lo) / 2)%nat).
  assert (Hmid : (lo <= mid < hi)%nat).
  { subst mid. assert ((hi - lo) / 2 < hi - lo)%nat by (apply Nat.div_lt; lia). lia. }
  destruct (lookup_lt_is_Some_2 (tbl_accounts t) mid) as [e He]; [lia|]. rewrite He.
  destruct (ent_id e =? id) eqn:Heq; zbool; [by exists e|].
  destruct (ent_id e <? id) eqn:Hlt'; zbool.
  - apply IH; [lia..| |done]. intros j e' Hj Hjm.
    destruct (decide (j = mid)) as [->|]; [by simplify_eq|].
    assert (ent_id e' < ent_id e) by (eapply (tbl_entries_ordered t j mid); eauto; lia). lia.
  - apply IH; [lia..|done|]. intros j e' Hj Hjm.
    destruct (decide (j = mid)) as [->|]; [simplify_eq; lia|].
    assert (ent_id e < ent_id e') by (eapply (tbl_entries_ordered t mid j); eauto; lia). lia.
Qed.

Lemma binary_search_correct t id :
  tbl_wf t -> search_result (tbl_accounts t) id (binary_search_by_id (tbl_accounts t) id).
Proof.
  intros Hwf. apply bsearch_correct; [done|lia..|intros; lia|].
  intros j e Hj Hle. apply lookup_lt_Some in Hj. lia.
Qed.

Lemma tbl_map_lookup_entry t i e :
  tbl_wf t -> tbl_accounts t !! i = Some e -> tbl_map t !! ent_id e = Some (ent_state e).
Proof.
  intros Hwf He. eapply (keys_sorted_lookup_map _ i); [exact Hwf|]. by rewrite tbl_iter_lookup, He.
Qed.

Lemma tbl_map_lookup_none t id i :
  tbl_wf t -> search_result (tbl_accounts t) id (inr i) -> tbl_map t !! id = None.
Proof.
  intros Hwf [Hlo Hhi]. destruct (tbl_map t !! id) as [st|] eqn:Hl; [|done]. exfalso.
  apply map_lookup_index in Hl as [j Hj]. rewrite tbl_iter_lookup in Hj.
  destruct (tbl_accounts t !! j) as [e|] eqn:He; simplify_eq/=.
  destruct (Nat.lt_ge_cases j i) as [Hlt|Hge];
    [specialize (Hlo _ _ He Hlt)|specialize (Hhi _ _ He Hge)]; lia.
Qed.

(** A lookup in the table is a lookup in the map it denotes. *)
Lemma tbl_get_account_state_map t id :
  tbl_wf t -> tbl_get_account_state t id = tbl_map t !! id.
Proof.
  intros Hwf. unfold tbl_get_account_state, get_acct_entry_idx.
  pose proof (binary_search_correct t id Hwf) as Hs.
  destruct (binary_search_by_id (tbl_accounts t) id) as [i|i].
  - destruct Hs as (e & He & <-). rewrite He. symmetry. by eapply tbl_map_lookup_entry.
  - symmetry. by eapply tbl_map_lookup_none.
Qed.

Lemma get_acct_entry_idx_Some t id st :
  tbl_wf t -> tbl_map t !! id = Some st ->
  exists i, get_acct_entry_idx t id = Some i /\
    tbl_accounts t !! i = Some {| ent_id := id; ent_state := st |}.
Proof.
  intros Hwf Hl. unfold get_acct_entry_idx. pose proof (binary_search_correct t id Hwf) as Hs.
  destruct (binary_search_by_id (tbl_accounts t) id) as [i|i].
  - destruct Hs as ([id' st'] & He & Heq). simpl in Heq. subst id'. exists i. split; [done|].
    apply (tbl_map_lookup_entry t i) in He as He'; [|done]. by simplify_eq/=.
  - apply tbl_map_lookup_none in Hs; [congruence|done].
Qed.

(** Overwriting an entry inserts into the denoted map and keeps the order. *)
Lemma tbl_set_account_state_spec t id i old st :
  tbl_wf t -> tbl_accounts t !! i = Some {| ent_id := id; ent_state := old |} ->
  tbl_wf (tbl_set_account_state t i st) /\
  tbl_map (tbl_set_account_state t i st) = <[id := st]> (tbl_map t).
Proof.
  intros Hwf Hi. unfold tbl_wf, tbl_map.
  assert (tbl_iter_account_states (tbl_set_account_state t i st) =
          <[i := (id, st)]> (tbl_iter_account_states t)) as ->.
  { apply list_eq. intros j. rewrite tbl_iter_lookup. unfold tbl_set_account_state. simpl.
    destruct (decide (i = j)) as [<-|Hne].
    - rewrite list_lookup_alter_eq, Hi, list_lookup_insert_eq; [done|].
      unfold tbl_iter_account_states. rewrite length_map. by eapply lookup_lt_Some.
    - rewrite list_lookup_alter_ne, list_lookup_insert_ne by done. by rewrite tbl_iter_lookup. }
  eapply keys_sorted_alter_at; [exact Hwf|]. by rewrite tbl_iter_lookup, Hi.
Qed.

Lemma keys_sorted_is_sorted_by_id (l : list TsnlAccountEntry) :
  keys_sorted (map (fun e => (ent_id e, ent_state e)) l) -> is_sorted_by_id l = true.
Proof.
  induction l as [|e1 [|e2 l] IH]; intros Hs; [done|done|]. cbn [map] in Hs.
  apply StronglySorted_inv in Hs as [Hs Hall]. apply Forall_cons in Hall as [Hlt _].
  cbn [is_sorted_by_id]. apply andb_true_iff. split; [|by apply IH].
  unfold key_lt in Hlt. simpl in Hlt. apply Z.leb_le. lia.
Qed.

(** Creating an account: the duplicate is refused and leaves the table alone;
    otherwise the account is inserted, in order. *)
Lemma tbl_create_account_exists t id st old :
  tbl_wf t -> tbl_map t !! id = Some old ->
  tbl_create_account id st t = (Err (AccountExists id), t).
Proof.
  intros Hwf Hl. destruct (get_acct_entry_idx_Some t id old Hwf Hl) as (i & Hi & _).
  unfold tbl_create_account. unfold get_acct_entry_idx in Hi.
  destruct (binary_search_by_id _ _); by simplify_eq.
Qed.

Lemma tbl_create_account_fresh t id st :
  tbl_wf t -> tbl_map t !! id = None -> zlen (tbl_accounts t) < MAX_LEDGER_ACCOUNTS ->
  exists t', tbl_create_account id st t = (Ok tt, t') /\ tbl_wf t' /\
    tbl_map t' = <[id := st]> (tbl_map t) /\ zlen (tbl_accounts t') = zlen (tbl_accounts t) + 1.
Proof.
  intros Hwf Hl Hlen. unfold tbl_create_account.
  pose proof (binary_search_correct t id Hwf) as Hs.
  destruct (binary_search_by_id (tbl_accounts t) id) as [i|i].
  { destruct Hs as (e & He & <-). apply (tbl_map_lookup_entry t i) in He; [congruence|done]. }
  destruct Hs as [Hlo Hhi].
  set (l := take i (tbl_accounts t) ++ {| ent_id := id; ent_state := st |} :: drop i (tbl_accounts t)).
  assert (Hl' : zlen l = zlen (tbl_accounts t) + 1).
  { unfold l. rewrite <- (take_drop i (tbl_accounts t)) at 3. autorewrite with zlen. lia. }
  destruct (keys_sorted_insert_at (tbl_iter_account_states t) i id st Hwf) as [Hsort Hmap].
  - intros j p Hj Hlt. rewrite tbl_iter_lookup in Hj.
    destruct (tbl_accounts t !! j) eqn:He; simplify_eq/=. eauto.
  - intros j p Hj Hge. rewrite tbl_iter_lookup in Hj.
    destruct (tbl_accounts t !! j) eqn:He; simplify_eq/=. eauto.
  - assert (Hiter : map (fun e => (ent_id e, ent_state e)) l =
      take i (tbl_iter_account_states t) ++ (id, st) :: drop i (tbl_iter_account_states t)).
    { unfold l, tbl_iter_account_states. rewrite map_app, firstn_map, skipn_map. done. }
    assert ((zlen l <=? MAX_LEDGER_ACCOUNTS) = true) as -> by (apply Z.leb_le; lia). cbn [negb].
    rewrite <- Hiter in Hsort, Hmap. rewrite (keys_sorted_is_sorted_by_id l Hsort).
    exists {| tbl_accounts := l |}. repeat split; done.
Qed.

Lemma tbl_map_sum t : tbl_wf t -> map_sum acct_balance (tbl_map t) = tbl_total t.
Proof.
  intros Hwf. unfold tbl_map. rewrite map_sum_list by (by apply keys_sorted_NoDup).
  unfold tbl_iter_account_states, tbl_total. by rewrite map_map.
Qed.
End account.
