(* ===== verification/WriteBatch.v ===== *)
(** * Serial maps and write batches
    ([crates/ol/state-types/src/{serial_map,write_batch}.rs])

    The map from contiguous account serials to account ids that a write batch
    keeps for the accounts it creates, the first serial and the ids in order; and
    the batch itself, the writes to the global, epochal and intraepoch sections
    and to the accounts. *)

From S2P Require Import Prelude SortedMap Identifiers AcctTypes ChainTypes Externals LedgerTypes OLAccount.

Record SerialMap := { smap_first : AccountSerial; smap_ids : list AccountId }.

Definition SerialMap_new : SerialMap := {| smap_first := 0; smap_ids := [] |}.
Definition SerialMap_new_first (serial : AccountSerial) (id : AccountId) : SerialMap :=
  {| smap_first := serial; smap_ids := [id] |}.

Definition SerialMap_is_empty (m : SerialMap) : bool :=
  match smap_ids m with [] => true | _ => false end.

(** Addition on [u32] wraps. *)
Definition offset_serial_by (serial : AccountSerial) (amt : Z) : AccountSerial :=
  wrap_u32 (serial + wrap_u32 amt).

(** Asserts that there is a first serial. *)
Definition offset_from_first {E} (m : SerialMap) (off : Z) : res E AccountSerial :=
  if SerialMap_is_empty m then Panic else Ok (offset_serial_by (smap_first m) off).

Definition last_serial {E} (m : SerialMap) : res E (option AccountSerial) :=
  if SerialMap_is_empty m then Ok None
  else let! s := offset_from_first m (zlen (smap_ids m) - 1) in Ok (Some s).

Definition next_expected_serial {E} (m : SerialMap) : res E (option AccountSerial) :=
  if SerialMap_is_empty m then Ok None
  else let! s := offset_from_first m (zlen (smap_ids m)) in Ok (Some s).

Definition check_next_serial {E} (m : SerialMap) (serial : AccountSerial) : res E bool :=
  let! next := next_expected_serial m in
  Ok (match next with None => true | Some n => serial =? n end).

Definition insert_next {E} (serial : AccountSerial) (id : AccountId) : M E SerialMap bool := fun m =>
  match check_next_serial m serial with
  | Ok false => (Ok false, m)
  | Ok true =>
      (Ok true,
       {| smap_first := if SerialMap_is_empty m then serial else smap_first m;
          smap_ids := smap_ids m ++ [id] |})
  | Err e => (Err e, m)
  | Panic => (Panic, m)
  end.

Definition insert_next_unchecked {E} (id : AccountId) : M E SerialMap unit := fun m =>
  if SerialMap_is_empty m then (Panic, m)
  else (Ok tt, {| smap_first := smap_first m; smap_ids := smap_ids m ++ [id] |}).

(** Linear scan for the serial of an id, counting from [off]. *)
Fixpoint find_serial_from (first off : Z) (ids : list AccountId) (query : AccountId) : option AccountSerial :=
  match ids with
  | [] => None
  | id :: ids' =>
      if id =? query then Some (offset_serial_by first off)
      else find_serial_from first (off + 1) ids' query
  end.
Definition find_account_serial (m : SerialMap) (query : AccountId) : option AccountSerial :=
  find_serial_from (smap_first m) 0 (smap_ids m) query.

Definition SerialMap_get (m : SerialMap) (serial : AccountSerial) : option AccountId :=
  if SerialMap_is_empty m then None
  else if serial <? smap_first m then None
  else smap_ids m !! Z.to_nat (serial - smap_first m).

Definition SerialMap_iter (m : SerialMap) : list (AccountSerial * AccountId) :=
  imap (fun idx id => (offset_serial_by (smap_first m) (Z.of_nat idx), id)) (smap_ids m).

(** ** Invariant

    The serials in use fit the width, so no addition wraps. *)
Definition smap_wf (m : SerialMap) : Prop :=
  0 <= smap_first m /\ (smap_ids m <> [] -> smap_first m + zlen (smap_ids m) <= U32_MAX).

Lemma SerialMap_is_empty_false m : SerialMap_is_empty m = false <-> smap_ids m <> [].
Proof. unfold SerialMap_is_empty. destruct (smap_ids m); naive_solver. Qed.

Lemma SerialMap_is_empty_true m : SerialMap_is_empty m = true <-> smap_ids m = [].
Proof. unfold SerialMap_is_empty. destruct (smap_ids m); naive_solver. Qed.

Lemma offset_serial_by_small first off :
  0 <= first -> 0 <= off -> first + off <= U32_MAX -> offset_serial_by first off = first + off.
Proof.
  intros. unfold offset_serial_by, wrap_u32. rewrite (Z.mod_small off), Z.mod_small; lia.
Qed.

(** The checks never panic, and the next serial expected is one past the last. *)
Lemma check_next_serial_wf {E} m serial :
  smap_wf m ->
  check_next_serial (E := E) m serial =
    Ok (SerialMap_is_empty m || (serial =? smap_first m + zlen (smap_ids m))).
Proof.
  intros [Hf Hb]. unfold check_next_serial, next_expected_serial, offset_from_first.
  destruct (SerialMap_is_empty m) eqn:He; simpl; [done|].
  apply SerialMap_is_empty_false in He. rewrite offset_serial_by_small; [done|lia|apply zlen_nonneg|auto].
Qed.

Lemma insert_next_wf {E} m serial id :
  smap_wf m -> 0 <= serial -> serial < U32_MAX ->
  (smap_ids m <> [] -> serial = smap_first m + zlen (smap_ids m)) ->
  exists m', insert_next (E := E) serial id m = (Ok true, m') /\ smap_wf m' /\
    smap_ids m' = smap_ids m ++ [id] /\
    smap_first m' = (if SerialMap_is_empty m then serial else smap_first m).
Proof.
  intros Hwf H0 Hlt Heq. unfold insert_next. rewrite check_next_serial_wf by done.
  assert (SerialMap_is_empty m || (serial =? smap_first m + zlen (smap_ids m)) = true) as ->.
  { destruct (SerialMap_is_empty m) eqn:He; [done|]. apply SerialMap_is_empty_false in He.
    simpl. apply Z.eqb_eq. auto. }
  eexists. split; [done|]. split; [|done]. destruct Hwf as [Hf Hb]. unfold smap_wf. simpl.
  destruct (SerialMap_is_empty m) eqn:He.
  - apply SerialMap_is_empty_true in He. rewrite He. split; [done|]. intros _.
    unfold zlen. simpl. lia.
  - apply SerialMap_is_empty_false in He. split; [done|]. intros _. rewrite Heq in Hlt by done.
    autorewrite with zlen. lia.
Qed.

(** Lookup of a serial is indexing from the first one. *)
Lemma SerialMap_get_wf m serial id :
  smap_wf m ->
  SerialMap_get m serial = Some id <->
  exists i : nat, smap_ids m !! i = Some id /\ serial = smap_first m + Z.of_nat i.
Proof.
  intros [Hf Hb]. unfold SerialMap_get. destruct (SerialMap_is_empty m) eqn:He.
  { apply SerialMap_is_empty_true in He. rewrite He. split; [done|]. intros (i & Hi & _).
    by rewrite lookup_nil in Hi. }
  destruct (serial <? smap_first m) eqn:Hlt; zbool.
  - split; [done|]. intros (i & _ & ->). lia.
  - split.
    + intros Hi. eexists. split; [exact Hi|]. rewrite Z2Nat.id; lia.
    + intros (i & Hi & ->). rewrite Z.add_simpl_l, Nat2Z.id. done.
Qed.

Lemma SerialMap_iter_wf m :
  smap_wf m -> SerialMap_iter m = imap (fun i id => (smap_first m + Z.of_nat i, id)) (smap_ids m).
Proof.
  intros [Hf Hb]. unfold SerialMap_iter. apply imap_ext. intros i id Hi. f_equal.
  assert (Hlen := lookup_lt_Some _ _ _ Hi).
  assert (smap_ids m <> []) by (intros He; rewrite He in Hi; by rewrite lookup_nil in Hi).
  specialize (Hb H). apply offset_serial_by_small; [done|lia|]. unfold zlen in Hb. lia.
Qed.

(** * Write batches ([crates/ol/state-types/src/write_batch.rs])

    The record of all modifications a block makes: optional new values for the
    global and epochal fields, appended pending logs with a reset flag, written
    accounts and the serials of the accounts created. *)

Record GlobalStateWrites := { gw_cur_slot : option Slot; gw_limbo_funds_sats : option Z }.

Section batch.
Context `{X : Ext}.

Record IntraepochStateWrites := {
  iw_reset : bool;
  iw_appended : list PendingAsmLog;
}.

Record EpochalStateWrites := {
  ew_cur_epoch : option Epoch;
  ew_last_l1_blkid : option Buf32;
  ew_last_l1_height : option L1Height;
  ew_asm_recorded_epoch : option EpochCommitment;
  ew_total_ledger_balance : option BitcoinAmount;
  ew_l1_block_refs_mmr : option Mmr64;
}.

Record LedgerWriteBatch := {
  lwb_account_writes : gmap AccountId OLAccountState;
  lwb_serial_to_id : SerialMap;
}.

Record WriteBatch := {
  wb_global_writes : GlobalStateWrites;
  wb_epochal_writes : EpochalStateWrites;
  wb_intraepoch_writes : IntraepochStateWrites;
  wb_ledger : LedgerWriteBatch;
}.

Definition WriteBatch_default : WriteBatch := {|
  wb_global_writes := {| gw_cur_slot := None; gw_limbo_funds_sats := None |};
  wb_epochal_writes := {|
    ew_cur_epoch := None; ew_last_l1_blkid := None; ew_last_l1_height := None;
    ew_asm_recorded_epoch := None; ew_total_ledger_balance := None; ew_l1_block_refs_mmr := None |};
  wb_intraepoch_writes := {| iw_reset := false; iw_appended := [] |};
  wb_ledger := {| lwb_account_writes := ∅; lwb_serial_to_id := SerialMap_new |};
|}.

Definition wb_set_global (w : WriteBatch) (g : GlobalStateWrites) : WriteBatch :=
  {| wb_global_writes := g; wb_epochal_writes := wb_epochal_writes w;
     wb_intraepoch_writes := wb_intraepoch_writes w; wb_ledger := wb_ledger w |}.
Definition wb_set_epochal (w : WriteBatch) (e : EpochalStateWrites) : WriteBatch :=
  {| wb_global_writes := wb_global_writes w; wb_epochal_writes := e;
     wb_intraepoch_writes := wb_intraepoch_writes w; wb_ledger := wb_ledger w |}.
Definition wb_set_intraepoch (w : WriteBatch) (i : IntraepochStateWrites) : WriteBatch :=
  {| wb_global_writes := wb_global_writes w; wb_epochal_writes := wb_epochal_writes w;
     wb_intraepoch_writes := i; wb_ledger := wb_ledger w |}.
Definition wb_set_ledger (w : WriteBatch) (l : LedgerWriteBatch) : WriteBatch :=
  {| wb_global_writes := wb_global_writes w; wb_epochal_writes := wb_epochal_writes w;
     wb_intraepoch_writes := wb_intraepoch_writes w; wb_ledger := l |}.

(** ** Ledger writes *)

(** The duplicate and contiguity checks of [create_account_raw] are debug
    assertions; a serial that is not the next one is not recorded. *)
Definition create_account_raw {E} (id : AccountId) (st : OLAccountState) (serial : AccountSerial)
    : M E LedgerWriteBatch unit := fun l =>
  match insert_next serial id (lwb_serial_to_id l) with
  | (Ok _, sm) =>
      (Ok tt, {| lwb_account_writes := <[id := st]> (lwb_account_writes l); lwb_serial_to_id := sm |})
  | (Err e, _) => (Err e, l)
  | (Panic, _) => (Panic, l)
  end.

Definition create_account_from_data {E} (id : AccountId) (d : NewAccountData) (serial : AccountSerial)
    : M E LedgerWriteBatch unit :=
  create_account_raw id (OLAccountState_new_with_serial d serial) serial.

Definition lwb_update_account (l : LedgerWriteBatch) (id : AccountId) (st : OLAccountState) : LedgerWriteBatch :=
  {| lwb_account_writes := <[id := st]> (lwb_account_writes l); lwb_serial_to_id := lwb_serial_to_id l |}.

Definition lwb_get_account (l : LedgerWriteBatch) (id : AccountId) : option OLAccountState :=
  lwb_account_writes l !! id.
Definition lwb_contains_account (l : LedgerWriteBatch) (id : AccountId) : bool :=
  match lwb_account_writes l !! id with Some _ => true | None => false end.
Definition lwb_find_id_by_serial (l : LedgerWriteBatch) (serial : AccountSerial) : option AccountId :=
  SerialMap_get (lwb_serial_to_id l) serial.
Definition lwb_iter_new_accounts (l : LedgerWriteBatch) : list (AccountSerial * AccountId) :=
  SerialMap_iter (lwb_serial_to_id l).
Definition lwb_new_accounts (l : LedgerWriteBatch) : list AccountId := smap_ids (lwb_serial_to_id l).
Definition lwb_iter_accounts (l : LedgerWriteBatch) : list (AccountId * OLAccountState) :=
  btree_iter (lwb_account_writes l).

(** Takes the new accounts out of the written ones, in serial order. *)
Fixpoint take_new_accounts (ids : list AccountId) (writes : gmap AccountId OLAccountState)
    : list (AccountId * OLAccountState) * gmap AccountId OLAccountState :=
  match ids with
  | [] => ([], writes)
  | id :: ids' =>
      match writes !! id with
      | Some st =>
          let '(news, rest) := take_new_accounts ids' (delete id writes) in ((id, st) :: news, rest)
      | None => take_new_accounts ids' writes
      end
  end.

Definition into_new_and_updated (l : LedgerWriteBatch)
    : list (AccountId * OLAccountState) * gmap AccountId OLAccountState :=
  take_new_accounts (lwb_new_accounts l) (lwb_account_writes l).
End batch.
