(* ===== verification/OLState.v ===== *)
(** * The toplevel state
    ([crates/ol/state-types/src/{global,epochal,intraepoch,toplevel}.rs])

    The three state sections and the ledger table, genesis, and the application
    of write batches. *)

From S2P Require Import Prelude SortedMap Identifiers AcctTypes ChainTypes Externals.
From S2P Require Import LedgerTypes Bridge OLAccount WriteBatch.

(** ** [global.rs] *)

Record GlobalState := {
  gs_cur_slot : Slot;
  gs_next_avail_serial : Z;
  gs_limbo_funds_sats : Z;
}.

Definition GlobalState_new (cur_slot : Slot) (next_avail_serial : AccountSerial) : GlobalState :=
  {| gs_cur_slot := cur_slot; gs_next_avail_serial := next_avail_serial; gs_limbo_funds_sats := 0 |}.

Definition gs_set_cur_slot (g : GlobalState) (slot : Slot) : GlobalState :=
  {| gs_cur_slot := slot; gs_next_avail_serial := gs_next_avail_serial g;
     gs_limbo_funds_sats := gs_limbo_funds_sats g |}.
(** The [u64] field is truncated to a [u32] serial. *)
Definition get_next_avail_serial (g : GlobalState) : AccountSerial := wrap_u32 (gs_next_avail_serial g).
Definition set_next_avail_serial (g : GlobalState) (serial : AccountSerial) : GlobalState :=
  {| gs_cur_slot := gs_cur_slot g; gs_next_avail_serial := serial;
     gs_limbo_funds_sats := gs_limbo_funds_sats g |}.
Definition gs_set_limbo (g : GlobalState) (sats : Z) : GlobalState :=
  {| gs_cur_slot := gs_cur_slot g; gs_next_avail_serial := gs_next_avail_serial g;
     gs_limbo_funds_sats := sats |}.

Section global.
Context `{X : Ext}.

Definition gs_add_limbo_funds (g : GlobalState) (amt : BitcoinAmount) : bool * GlobalState :=
  match amt_checked_add (gs_limbo_funds_sats g) amt with
  | None => (false, g)
  | Some new_lf => (true, gs_set_limbo g new_lf)
  end.

Definition gs_add_limbo_funds_coin {E} (coin : Coin) : M E GlobalState unit := fun g =>
  match gs_add_limbo_funds g (coin_amt coin) with
  | (true, g') => (Ok tt, g')
  | (false, g') => (Panic, g')
  end.

(** [None] is returned when the funds do not suffice; the sanity assertion
    compares the sum of the parts with what was there. *)
Definition gs_take_limbo_funds_coin {E} (amt : BitcoinAmount) : M E GlobalState (option Coin) := fun g =>
  let lf := gs_limbo_funds_sats g in
  match amt_checked_sub lf amt with
  | None => (Ok None, g)
  | Some new_lf =>
      match amt_checked_add new_lf amt with
      | Some x => if x =? lf then (Ok (Some {| coin_amt := amt |}), gs_set_limbo g new_lf) else (Panic, g)
      | None => (Panic, g)
      end
  end.

(** ** [epochal.rs] *)

Record EpochalState := {
  es_total_ledger_funds : BitcoinAmount;
  es_cur_epoch : Epoch;
  es_last_l1_block : L1BlockCommitment;
  es_checkpointed_epoch : EpochCommitment;
  es_l1_block_refs_mmr : Mmr64;
}.

Definition es_set_cur_epoch (e : EpochalState) (epoch : Epoch) : EpochalState :=
  {| es_total_ledger_funds := es_total_ledger_funds e; es_cur_epoch := epoch;
     es_last_l1_block := es_last_l1_block e; es_checkpointed_epoch := es_checkpointed_epoch e;
     es_l1_block_refs_mmr := es_l1_block_refs_mmr e |}.
Definition es_set_last_l1_block (e : EpochalState) (b : L1BlockCommitment) : EpochalState :=
  {| es_total_ledger_funds := es_total_ledger_funds e; es_cur_epoch := es_cur_epoch e;
     es_last_l1_block := b; es_checkpointed_epoch := es_checkpointed_epoch e;
     es_l1_block_refs_mmr := es_l1_block_refs_mmr e |}.
Definition es_set_asm_recorded_epoch (e : EpochalState) (ec : EpochCommitment) : EpochalState :=
  {| es_total_ledger_funds := es_total_ledger_funds e; es_cur_epoch := es_cur_epoch e;
     es_last_l1_block := es_last_l1_block e; es_checkpointed_epoch := ec;
     es_l1_block_refs_mmr := es_l1_block_refs_mmr e |}.
Definition es_set_total_ledger_balance (e : EpochalState) (amt : BitcoinAmount) : EpochalState :=
  {| es_total_ledger_funds := amt; es_cur_epoch := es_cur_epoch e;
     es_last_l1_block := es_last_l1_block e; es_checkpointed_epoch := es_checkpointed_epoch e;
     es_l1_block_refs_mmr := es_l1_block_refs_mmr e |}.
Definition es_set_mmr (e : EpochalState) (m : Mmr64) : EpochalState :=
  {| es_total_ledger_funds := es_total_ledger_funds e; es_cur_epoch := es_cur_epoch e;
     es_last_l1_block := es_last_l1_block e; es_checkpointed_epoch := es_checkpointed_epoch e;
     es_l1_block_refs_mmr := m |}.

(** The assertion that the height is the next MMR index is a debug assertion;
    [es_height_indexed] below states it as an invariant. *)
Definition es_append_l1_block_rec {E} (height : L1Height) (rec : L1BlockRecord)
    : M E EpochalState unit := fun e =>
  match append_l1_block_rec_to_mmr (es_l1_block_refs_mmr e) rec with
  | Ok mmr =>
      (Ok tt, es_set_last_l1_block (es_set_mmr e mmr)
                {| l1c_height := height; l1c_blkid := l1r_block_hash rec |})
  | Err x => (Err x, e)
  | Panic => (Panic, e)
  end.

(** ** [intraepoch.rs] *)

Record IntraepochState := { is_pending_asm_logs : list PendingAsmLog }.

Definition MAX_PENDING_ASM_LOGS : Z := Z.shiftl 1 18.

Definition try_append_pending_log (ent : PendingAsmLog) : M StateError IntraepochState unit := fun s =>
  if zlen (is_pending_asm_logs s) <? MAX_PENDING_ASM_LOGS
  then (Ok tt, {| is_pending_asm_logs := is_pending_asm_logs s ++ [ent] |})
  else (Err PendingAsmLogsFull, s).

Definition is_pending_logs_full (s : IntraepochState) : bool :=
  zlen (is_pending_asm_logs s) =? MAX_PENDING_ASM_LOGS.

Definition IntraepochState_reset : IntraepochState := {| is_pending_asm_logs := [] |}.

(** ** [toplevel.rs] *)

Record OLState := {
  ol_epoch : EpochalState;
  ol_global : GlobalState;
  ol_intraepoch : IntraepochState;
  ol_ledger : TsnlLedgerAccountsTable;
}.

Definition ol_set_epoch (s : OLState) (e : EpochalState) : OLState :=
  {| ol_epoch := e; ol_global := ol_global s; ol_intraepoch := ol_intraepoch s; ol_ledger := ol_ledger s |}.
Definition ol_set_global (s : OLState) (g : GlobalState) : OLState :=
  {| ol_epoch := ol_epoch s; ol_global := g; ol_intraepoch := ol_intraepoch s; ol_ledger := ol_ledger s |}.
Definition ol_set_intraepoch (s : OLState) (i : IntraepochState) : OLState :=
  {| ol_epoch := ol_epoch s; ol_global := ol_global s; ol_intraepoch := i; ol_ledger := ol_ledger s |}.
Definition ol_set_ledger (s : OLState) (t : TsnlLedgerAccountsTable) : OLState :=
  {| ol_epoch := ol_epoch s; ol_global := ol_global s; ol_intraepoch := ol_intraepoch s; ol_ledger := t |}.

(** Runs a computation on one section of the state. *)
Definition on_epoch {E A} (m : M E EpochalState A) : M E OLState A := fun s =>
  let '(r, e) := m (ol_epoch s) in (r, ol_set_epoch s e).
Definition on_global {E A} (m : M E GlobalState A) : M E OLState A := fun s =>
  let '(r, g) := m (ol_global s) in (r, ol_set_global s g).
Definition on_intraepoch {E A} (m : M E IntraepochState A) : M E OLState A := fun s =>
  let '(r, i) := m (ol_intraepoch s) in (r, ol_set_intraepoch s i).
Definition on_ledger {E A} (m : M E TsnlLedgerAccountsTable A) : M E OLState A := fun s =>
  let '(r, t) := m (ol_ledger s) in (r, ol_set_ledger s t).

(** *** Genesis *)

Record GenesisSnarkAccountData := {
  gsd_predicate : PredicateKey;
  gsd_inner_state : Buf32;
  gsd_balance : BitcoinAmount;
}.

Record OLParams := {
  olp_slot : Slot;
  olp_epoch : Epoch;
  olp_parent_blkid : OLBlockId;
  olp_timestamp : Z;
  olp_accounts : gmap AccountId GenesisSnarkAccountData;
  olp_last_l1_block : L1BlockCommitment;
  olp_bridge_params : BridgeParams;
}.

Definition checkpointed_epoch (p : OLParams) : EpochCommitment :=
  {| ec_epoch := olp_epoch p; ec_last_slot := olp_slot p; ec_last_blkid := olp_parent_blkid p |}.

(** The sentinel leaf [[0xff; 32]] as a number. *)
Definition MMR_SENTINEL_DUMMY_LEAF : Buf32 := 2 ^ 256 - 1.

Fixpoint genesis_accounts (l : list (AccountId * GenesisSnarkAccountData)) (next_serial : AccountSerial)
    : M StateError TsnlLedgerAccountsTable AccountSerial :=
  match l with
  | [] => mret next_serial
  | (id, p) :: l' =>
      let serial := next_serial in
      let next_serial := serial_incr next_serial in
      let snark := OLSnarkAccountState_new_fresh (gsd_predicate p) (gsd_inner_state p) in
      tbl_create_account id
        {| acct_serial := serial; acct_balance := gsd_balance p; acct_state := TySnark snark |} ;;;
      genesis_accounts l' next_serial
  end.

Definition from_genesis_params (p : OLParams) : res StateError OLState :=
  let prefill_count := l1c_height (olp_last_l1_block p) + 1 in
  let mmr := mmr_new_repeated MMR_SENTINEL_DUMMY_LEAF prefill_count in
  let '(r, ledger) := genesis_accounts (btree_iter (olp_accounts p)) system_reserved_accts
                        TsnlLedgerAccountsTable_new_empty in
  let! next_serial := r in
  let! total := calculate_total_funds ledger in
  Ok {| ol_epoch := {| es_total_ledger_funds := total; es_cur_epoch := olp_epoch p;
                       es_last_l1_block := olp_last_l1_block p;
                       es_checkpointed_epoch := checkpointed_epoch p;
                       es_l1_block_refs_mmr := mmr |};
        ol_global := GlobalState_new (olp_slot p) next_serial;
        ol_intraepoch := {| is_pending_asm_logs := [] |};
        ol_ledger := ledger |}.

(** *** Write batches *)

Definition ensure_pending_asm_logs_fit (current adding : Z) : res StateError unit :=
  if MAX_PENDING_ASM_LOGS <? saturating_add_u64 current adding
  then Err (PendingAsmLogsOverflow current adding MAX_PENDING_ASM_LOGS) else Ok tt.

(** First loop of [check_write_batch_safe]: serials of the new accounts. *)
Fixpoint check_new_accounts (s : OLState) (b : LedgerWriteBatch) (next_serial : AccountSerial)
    (l : list (AccountSerial * AccountId)) : res StateError unit :=
  match l with
  | [] => Ok tt
  | (serial, id) :: l' =>
      match lwb_get_account b id with
      | None => Panic
      | Some st =>
          if negb (acct_serial st =? serial) then Err (AcctSerialInconsistent id (acct_serial st) serial)
          else if negb (serial =? next_serial) then Err (NextSerialSequence serial next_serial)
          else match tbl_get_account_state (ol_ledger s) id with
               | Some _ => Err (AccountExists id)
               | None => check_new_accounts s b (serial_incr next_serial) l'
               end
      end
  end.

(** Second loop: accounts with an old serial exist. *)
Fixpoint check_existing_accounts (s : OLState) (l : list (AccountId * OLAccountState)) : res StateError unit :=
  match l with
  | [] => Ok tt
  | (id, st) :: l' =>
      if get_next_avail_serial (ol_global s) <=? acct_serial st then check_existing_accounts s l'
      else match tbl_get_account_state (ol_ledger s) id with
           | None => Err (AccountSanityCheckFail id)
           | Some _ => check_existing_accounts s l'
           end
  end.

Definition check_write_batch_safe (s : OLState) (b : WriteBatch) : res StateError unit :=
  let! _ := check_new_accounts s (wb_ledger b) (get_next_avail_serial (ol_global s))
              (lwb_iter_new_accounts (wb_ledger b)) in
  let! _ := check_existing_accounts s (lwb_iter_accounts (wb_ledger b)) in
  let iw := wb_intraepoch_writes b in
  let starting_logs := if iw_reset iw then 0 else zlen (is_pending_asm_logs (ol_intraepoch s)) in
  ensure_pending_asm_logs_fit starting_logs (zlen (iw_appended iw)).

Definition opt_apply {A} (f : OLState -> A -> OLState) (o : option A) : OLState -> OLState := fun s =>
  match o with Some a => f s a | None => s end.

Definition apply_new_account (p : AccountId * OLAccountState) : M StateError OLState unit :=
  mexpect (on_ledger (tbl_create_account p.1 p.2)).

Definition apply_updated_account (p : AccountId * OLAccountState) : M StateError OLState unit := fun s =>
  match get_acct_entry_idx (ol_ledger s) p.1 with
  | None => (Panic, s)
  | Some i => (Ok tt, ol_set_ledger s (tbl_set_account_state (ol_ledger s) i p.2))
  end.

Definition apply_global_writes (w : GlobalStateWrites) (s : OLState) : OLState :=
  let s := opt_apply (fun s slot => ol_set_global s (gs_set_cur_slot (ol_global s) slot)) (gw_cur_slot w) s in
  opt_apply (fun s x => ol_set_global s (gs_set_limbo (ol_global s) x)) (gw_limbo_funds_sats w) s.

Definition apply_epochal_writes (w : EpochalStateWrites) (s : OLState) : OLState :=
  let s := opt_apply (fun s e => ol_set_epoch s (es_set_cur_epoch (ol_epoch s) e)) (ew_cur_epoch w) s in
  let s :=
    match ew_last_l1_blkid w with
    | Some blkid =>
        let height := match ew_last_l1_height w with
                      | Some h => h
                      | None => l1c_height (es_last_l1_block (ol_epoch s))
                      end in
        ol_set_epoch s (es_set_last_l1_block (ol_epoch s) {| l1c_height := height; l1c_blkid := blkid |})
    | None =>
        opt_apply (fun s h => ol_set_epoch s (es_set_last_l1_block (ol_epoch s)
            {| l1c_height := h; l1c_blkid := l1c_blkid (es_last_l1_block (ol_epoch s)) |}))
          (ew_last_l1_height w) s
    end in
  let s := opt_apply (fun s ec => ol_set_epoch s (es_set_asm_recorded_epoch (ol_epoch s) ec))
             (ew_asm_recorded_epoch w) s in
  let s := opt_apply (fun s amt => ol_set_epoch s (es_set_total_ledger_balance (ol_epoch s) amt))
             (ew_total_ledger_balance w) s in
  opt_apply (fun s m => ol_set_epoch s (es_set_mmr (ol_epoch s) m)) (ew_l1_block_refs_mmr w) s.

Definition bump_next_serial (num_new : Z) (s : OLState) : OLState :=
  if 0 <? num_new then
    ol_set_global s (set_next_avail_serial (ol_global s)
      (wrap_u32 (get_next_avail_serial (ol_global s) + wrap_u32 num_new)))
  else s.

Definition apply_write_batch (b : WriteBatch) : M StateError OLState unit :=
  mreads_res (fun s => check_write_batch_safe s b) ;;;
  let '(new_accounts, updated_accounts) := into_new_and_updated (wb_ledger b) in
  miter apply_new_account new_accounts ;;;
  mmodify (bump_next_serial (zlen new_accounts)) ;;;
  miter apply_updated_account (btree_iter updated_accounts) ;;;
  mmodify (apply_global_writes (wb_global_writes b)) ;;;
  mmodify (apply_epochal_writes (wb_epochal_writes b)) ;;;
  mmodify (fun s => if iw_reset (wb_intraepoch_writes b)
                    then ol_set_intraepoch s IntraepochState_reset else s) ;;;
  miter (fun e => mexpect (on_intraepoch (try_append_pending_log e)))
    (iw_appended (wb_intraepoch_writes b)).

(** [OLState::create_new_account]; the serial comparison is a debug assertion. *)
Definition ol_create_new_account (id : AccountId) (serial : AccountSerial) (d : NewAccountData)
    : M StateError OLState unit :=
  on_ledger (tbl_create_new_account id serial d) ;;;
  mmodify (fun s => ol_set_global s (set_next_avail_serial (ol_global s) (serial_incr serial))).

(** ** Invariant *)

(** The L1 block refs MMR is height indexed. *)
Definition es_height_indexed (e : EpochalState) : Prop :=
  mmr_num_entries (es_l1_block_refs_mmr e) = l1c_height (es_last_l1_block e) + 1.
End global.

(** The tree-hash root of a state is an external function of it. *)
Class ExtRoot `{X : Ext} := { thr_ol_state : OLState -> Buf32 }.
