(* ===== verification/StateAccessor.v ===== *)
(** * State accessors ([crates/ledger-types/src/state_accessor.rs])

    The interface between the state transition function and the state layers,
    as type classes: reads, writes, and the two auxiliary traits of the layers.
    The associated type of accounts that are read is [OLAccountState] in all the
    layers; the type of accounts that are updated is a layer's own, an account
    type in the sense of [crates/ledger-types/src/account.rs].  An account update
    runs a computation on the account; its outcome is returned, a panic
    propagates. *)

From S2P Require Import Prelude SortedMap Identifiers AcctTypes ChainTypes Externals.
From S2P Require Import LedgerTypes OLAccount WriteBatch OLState.

(** ** Accounts

    [ISnarkAccountStateMut] and [IAccountStateMut].  The immutable reads of an
    account are those of the [OLAccountState] it stands for.  A mutable borrow of
    the snark part is the part together with the account that results from
    putting a changed part back. *)

Class ISnarkAccountStateMut `{X : Ext} (A : Type) := {
  snark_reads : A -> OLSnarkAccountState;
  snark_set_proof_state : A -> Buf32 -> Z -> Seqno -> A;
  snark_insert_inbox_message : A -> MessageEntry -> res StateError A;
  snark_set_update_vk : A -> PredicateKey -> A;
}.

Class IAccountStateMut `{X : Ext} (A : Type) := {
  acct_reads : A -> OLAccountState;
  SnarkMut : Type;
  snark_mut :: ISnarkAccountStateMut SnarkMut;
  acct_add_balance : forall {E : Type}, Coin -> M E A unit;
  acct_take_balance : BitcoinAmount -> M StateError A Coin;
  as_snark_account_mut : A -> res StateError (SnarkMut * (SnarkMut -> A));
}.

(** Runs a computation on a borrowed snark part. *)
Definition on_snark_account `{X : Ext} {A B E R : Type} (f : M E B R) (borrow : B * (B -> A)) : res E R * A :=
  let '(r, s') := f (fst borrow) in (r, snd borrow s').

#[export] Instance OLSnarkAccountState_mut `{X : Ext} : ISnarkAccountStateMut OLSnarkAccountState := {
  snark_reads s := s;
  snark_set_proof_state := set_proof_state;
  snark_insert_inbox_message := insert_inbox_message;
  snark_set_update_vk := set_update_vk;
}.

#[export] Instance OLAccountState_mut `{X : Ext} : IAccountStateMut OLAccountState := {
  acct_reads a := a;
  SnarkMut := OLSnarkAccountState;
  acct_add_balance E := add_balance;
  acct_take_balance := take_balance;
  as_snark_account_mut a :=
    match acct_state a with
    | TySnark s => Ok (s, fun s' => acct_with_state a (TySnark s'))
    | TyEmpty => Err (MismatchedAcctType (acct_ty a) AcctTySnark)
    end;
}.

(** ** States *)

Class IStateAccessor `{X : Ext} (S : Type) := {
  cur_slot : S -> Slot;
  limbo_funds : S -> BitcoinAmount;
  cur_epoch : S -> Epoch;
  last_l1_blkid : S -> Buf32;
  last_l1_height : S -> L1Height;
  asm_recorded_epoch : S -> EpochCommitment;
  total_ledger_balance : S -> BitcoinAmount;
  l1_block_refs_mmr : S -> Mmr64;
  pending_asm_logs_len : S -> Z;
  get_pending_asm_log : S -> Z -> option PendingAsmLog;
  pending_asm_logs_full : S -> bool;
  check_account_exists : S -> AccountId -> res StateError bool;
  get_account_state : S -> AccountId -> res StateError (option OLAccountState);
  find_account_id_by_serial : S -> AccountSerial -> res StateError (option AccountId);
  next_account_serial : S -> AccountSerial;
  compute_state_root : S -> res StateError Buf32;
}.

Class IStateAccessorMut `{X : Ext} (S : Type) := {
  mut_accessor :: IStateAccessor S;
  AcctMut : Type;
  acct_mut :: IAccountStateMut AcctMut;
  set_cur_slot : Slot -> M StateError S unit;
  add_limbo_funds_coin : Coin -> M StateError S unit;
  take_limbo_funds_coin : BitcoinAmount -> M StateError S Coin;
  set_cur_epoch : Epoch -> M StateError S unit;
  append_l1_block_rec : L1Height -> L1BlockRecord -> M StateError S unit;
  set_asm_recorded_epoch : EpochCommitment -> M StateError S unit;
  set_total_ledger_balance : BitcoinAmount -> M StateError S unit;
  try_append_pending_asm_log : PendingAsmLog -> M StateError S unit;
  reset_intraepoch_state : M StateError S unit;
  update_account : forall {E R : Type}, AccountId -> M E AcctMut R -> M StateError S (res E R);
  create_new_account : AccountId -> NewAccountData -> M StateError S AccountSerial;
}.

(** [IComputeStateRootWithWrites]: the root as if the batches had been applied. *)
Class IComputeStateRootWithWrites `{X : Ext} (S : Type) := {
  compute_state_root_with_writes : S -> list WriteBatch -> res StateError Buf32;
}.

(** [IStateBatchApplicable]. *)
Class IStateBatchApplicable `{X : Ext} (S : Type) := {
  apply_batch : WriteBatch -> M StateError S unit;
}.

(** Runs an account computation inside a state that stores the new account with
    [put]. *)
Definition run_account {E R S A} (f : M E A R) (a : A) (put : A -> S) : res StateError (res E R) * S :=
  match f a with
  | (Panic, a') => (Panic, put a')
  | (r, a') => (Ok r, put a')
  end.

(** ** Simulation between accessors

    [ReadSim R]: related states answer every read alike.  [StateSim R]: in
    addition every write the transition function performs has the same outcome
    on both and keeps the states related. *)

Class ReadSim `{X : Ext} {S1 S2} `{!IStateAccessor S1, !IStateAccessor S2} (R : S1 -> S2 -> Prop) : Prop := {
  rs_cur_slot s1 s2 : R s1 s2 -> cur_slot s1 = cur_slot s2;
  rs_limbo_funds s1 s2 : R s1 s2 -> limbo_funds s1 = limbo_funds s2;
  rs_cur_epoch s1 s2 : R s1 s2 -> cur_epoch s1 = cur_epoch s2;
  rs_last_l1_blkid s1 s2 : R s1 s2 -> last_l1_blkid s1 = last_l1_blkid s2;
  rs_last_l1_height s1 s2 : R s1 s2 -> last_l1_height s1 = last_l1_height s2;
  rs_asm_recorded_epoch s1 s2 : R s1 s2 -> asm_recorded_epoch s1 = asm_recorded_epoch s2;
  rs_total_ledger_balance s1 s2 : R s1 s2 -> total_ledger_balance s1 = total_ledger_balance s2;
  rs_l1_block_refs_mmr s1 s2 : R s1 s2 -> l1_block_refs_mmr s1 = l1_block_refs_mmr s2;
  rs_pending_asm_logs_len s1 s2 : R s1 s2 -> pending_asm_logs_len s1 = pending_asm_logs_len s2;
  rs_get_pending_asm_log s1 s2 i : R s1 s2 -> 0 <= i ->
    get_pending_asm_log s1 i = get_pending_asm_log s2 i;
  rs_pending_asm_logs_full s1 s2 : R s1 s2 -> pending_asm_logs_full s1 = pending_asm_logs_full s2;
  rs_check_account_exists s1 s2 id : R s1 s2 -> check_account_exists s1 id = check_account_exists s2 id;
  rs_get_account_state s1 s2 id : R s1 s2 -> get_account_state s1 id = get_account_state s2 id;
  rs_find_account_id_by_serial s1 s2 n : R s1 s2 ->
    find_account_id_by_serial s1 n = find_account_id_by_serial s2 n;
  rs_next_account_serial s1 s2 : R s1 s2 -> next_account_serial s1 = next_account_serial s2;
  rs_compute_state_root s1 s2 : R s1 s2 -> compute_state_root s1 = compute_state_root s2;
}.

(** Keys of a registered type: parsed ones, and those that have bytes.  No other
    keys are written to an account. *)
Definition key_registered `{X : Ext} (vk : PredicateKey) : Prop :=
  (exists k, pred_try_as_buf k = Some vk) \/ (exists b, pred_as_buf_bytes vk = Some b).

(** Simulation between account types: a computation that goes through the
    interface has the same outcome on related accounts and keeps them related. *)
Class SnarkSim `{X : Ext} {A1 A2} `{!ISnarkAccountStateMut A1, !ISnarkAccountStateMut A2}
    (R : A1 -> A2 -> Prop) : Prop := {
  sns_set_proof_state s1 s2 root idx seqno : R s1 s2 ->
    R (snark_set_proof_state s1 root idx seqno) (snark_set_proof_state s2 root idx seqno);
  sns_insert_inbox_message s1 s2 msg : R s1 s2 ->
    match snark_insert_inbox_message s1 msg, snark_insert_inbox_message s2 msg with
    | Ok s1', Ok s2' => R s1' s2'
    | Err e1, Err e2 => e1 = e2
    | Panic, Panic => True
    | _, _ => False
    end;
  sns_set_update_vk s1 s2 vk : R s1 s2 -> key_registered vk ->
    R (snark_set_update_vk s1 vk) (snark_set_update_vk s2 vk);
}.

(** Borrows that stand for each other. *)
Inductive borrow_sim `{X : Ext} {A1 A2 B1 B2} `{!ISnarkAccountStateMut B1, !ISnarkAccountStateMut B2}
    (RA : A1 -> A2 -> Prop) : res StateError (B1 * (B1 -> A1)) -> res StateError (B2 * (B2 -> A2)) -> Prop :=
| borrow_sim_ok (RS : B1 -> B2 -> Prop) s1 s2 put1 put2 :
    SnarkSim RS -> RS s1 s2 -> (forall s1' s2', RS s1' s2' -> RA (put1 s1') (put2 s2')) ->
    borrow_sim RA (Ok (s1, put1)) (Ok (s2, put2))
| borrow_sim_err e : borrow_sim RA (Err e) (Err e).

Class AccountSim `{X : Ext} {A1 A2} `{!IAccountStateMut A1, !IAccountStateMut A2}
    (R : A1 -> A2 -> Prop) : Prop := {
  acs_add_balance E c : sim R (acct_add_balance (E := E) c) (acct_add_balance c);
  acs_take_balance amt : sim R (acct_take_balance amt) (acct_take_balance amt);
  acs_borrow a1 a2 : R a1 a2 -> borrow_sim R (as_snark_account_mut a1) (as_snark_account_mut a2);
}.

(** Account computations that agree whatever the accounts are. *)
Definition acct_agree `{X : Ext} {A1 A2} `{!IAccountStateMut A1, !IAccountStateMut A2} {E Q}
    (f1 : M E A1 Q) (f2 : M E A2 Q) : Prop :=
  forall R : A1 -> A2 -> Prop, AccountSim R -> sim R f1 f2.

(** What executing transactions and buffering manifests needs: everything up to
    the drain of an epoch. *)
Class PredrainSim `{X : Ext} {S1 S2} `{!IStateAccessorMut S1, !IStateAccessorMut S2}
    (R : S1 -> S2 -> Prop) : Prop := {
  ss_read :: ReadSim R;
  ss_set_cur_slot v : sim R (set_cur_slot v) (set_cur_slot v);
  ss_add_limbo_funds_coin c : sim R (add_limbo_funds_coin c) (add_limbo_funds_coin c);
  ss_append_l1_block_rec h r : sim R (append_l1_block_rec h r) (append_l1_block_rec h r);
  ss_try_append_pending_asm_log l : sim R (try_append_pending_asm_log l) (try_append_pending_asm_log l);
  ss_update_account {E Q} id (f1 : M E (AcctMut (S := S1)) Q) (f2 : M E (AcctMut (S := S2)) Q) :
    acct_agree f1 f2 -> sim R (update_account id f1) (update_account id f2);
}.

Class StateSim `{X : Ext} {S1 S2} `{!IStateAccessorMut S1, !IStateAccessorMut S2}
    (R : S1 -> S2 -> Prop) : Prop := {
  ss_predrain :: PredrainSim R;
  ss_set_cur_epoch v : sim R (set_cur_epoch v) (set_cur_epoch v);
  ss_set_asm_recorded_epoch v : sim R (set_asm_recorded_epoch v) (set_asm_recorded_epoch v);
  ss_set_total_ledger_balance v : sim R (set_total_ledger_balance v) (set_total_ledger_balance v);
  ss_reset_intraepoch_state : sim R reset_intraepoch_state reset_intraepoch_state;
}.

(** ** Accounts that are equal and keep their serial *)

Definition same_with_serial `{X : Ext} (n : AccountSerial) (a1 a2 : OLAccountState) : Prop :=
  a1 = a2 /\ acct_serial a1 = n.

#[export] Instance snark_eq_sim `{X : Ext} : SnarkSim (@eq OLSnarkAccountState).
Proof.
  split; [by intros s1 s2 root idx seqno ->| |by intros s1 s2 vk ->].
  intros s1 s2 msg ->. simpl. by destruct (insert_inbox_message s2 msg).
Qed.

#[export] Instance same_with_serial_sim `{X : Ext} n : AccountSim (same_with_serial n).
Proof.
  split.
  - intros E c a1 a2 [-> Hn]. simpl. unfold add_balance. by destruct (amt_checked_add _ _).
  - intros amt a1 a2 [-> Hn]. simpl. unfold take_balance. by destruct (amt_checked_sub _ _).
  - intros a1 a2 [-> Hn]. simpl. destruct (acct_state a2) as [|s]; [apply borrow_sim_err|].
    eapply borrow_sim_ok; [apply snark_eq_sim|done|]. by intros s1' s2' ->.
Qed.

