(* ===== verification/OLDaApply.v ===== *)
(** * Applying a DA diff to a state ([crates/ol/da/src/{types/payload,scheme,errors}.rs])

    A decoded payload is checked against the state it applies to and then
    written through the state accessor: the slot, the limbo funds, the new
    accounts, and the account diffs in the order of their serials.  Parsing a
    predicate key from its bytes is outside [src/]: the fields of
    [PredicateExt]. *)

From Stdlib Require Import String.
From S2P Require Import Prelude Identifiers AcctTypes ChainTypes Externals.
From S2P Require Import CodecTypes Varint64 DaFramework OLDaTypes LedgerTypes OLAccount StateAccessor.

(** [strata_predicate]: [PredicateKeyBuf::try_from], [condition], [to_owned]
    (which panics on a condition longer than the bound of the owned type), and
    the parsing error. *)
Class PredicateExt {ET : ExtTypes} := {
  PredicateKeyBuf : Type;
  PredicateError : Type;
  pkb_try_from : bytes -> res PredicateError PredicateKeyBuf;
  pkb_condition_len : PredicateKeyBuf -> Z;
  pkb_to_owned : PredicateKeyBuf -> option PredicateKey;
  condition_parsing_failed : PredicateKeyBuf -> PredicateError;
  MAX_CONDITION_LEN : Z;
}.

(** The bytes of a key with a registered type parse back to the key. *)
Class PredicateLaws {ET : ExtTypes} (X : Ext) (PE : PredicateExt) : Prop := {
  pred_bytes_parse k b : pred_as_buf_bytes k = Some b ->
    exists buf, pkb_try_from b = Ok buf /\ pkb_condition_len buf <= MAX_CONDITION_LEN /\ pkb_to_owned buf = Some k;
}.

(** ** Errors *)

Inductive FrameworkDaError := InsufficientContext.

Inductive DaError `{PE : PredicateExt} :=
| FrameworkError (e : FrameworkDaError)
| InvalidPredicateKey (e : PredicateError)
| InvalidStateDiff (what : string)
| InvalidLedgerDiff (what : string)
| UnknownSerial (serial : AccountSerial)
| Other (what : string).

Section apply.
Context `{X : Ext} `{CE : !CodecExt} `{PE : !PredicateExt}.

(** The value a write leaves in a target that starts as [t]. *)
Definition applied {E T} (w : M E T unit) (t : T) : res E T :=
  match w t with (Ok _, t') => Ok t' | (Err e, _) => Err e | (Panic, _) => Panic end.

(** ** Accounts *)

Definition owned_predicate_key (vk_bytes : bytes) : res DaError PredicateKey :=
  let! buf := res_map_err InvalidPredicateKey (pkb_try_from vk_bytes) in
  if MAX_CONDITION_LEN <? pkb_condition_len buf then Err (InvalidPredicateKey (condition_parsing_failed buf))
  else expect (pkb_to_owned buf).

Definition new_account_data_from_init (init : AccountInit) : res DaError NewAccountData :=
  let! type_state :=
    match ai_type_state init with
    | InitEmpty => Ok NewEmpty
    | InitSnark snark =>
        let! update_vk := owned_predicate_key (sai_update_vk snark) in
        Ok (NewSnark update_vk (sai_initial_state_root snark))
    end in
  Ok {| nad_initial_balance := ai_balance init; nad_type_state := type_state |}.

Definition apply_balance_delta {A} `{!IAccountStateMut A} (incr : SignedVarInt) : M DaError A unit :=
  let delta := svi_magnitude incr in
  if svi_positive incr then acct_add_balance {| coin_amt := delta |}
  else
    mmap_err (fun _ => InvalidStateDiff "insufficient balance for diff") (acct_take_balance delta) ;;;
    mret tt.

Definition insert_da_message {A} `{!ISnarkAccountStateMut A} (entry : DaMessageEntry) : M DaError A unit :=
  fun s =>
  let msg := {| me_source := dme_source entry; me_incl_epoch := dme_incl_epoch entry;
                me_payload := dme_payload entry |} in
  match snark_insert_inbox_message s msg with
  | Ok s' => (Ok tt, s')
  | Err _ => (Err (InvalidStateDiff "failed to insert inbox message"), s)
  | Panic => (Panic, s)
  end.

(** The part of [apply_snark_diff] that works on the borrowed snark account. *)
Definition write_snark_diff {A} `{!ISnarkAccountStateMut A} (diff : SnarkAccountDiff) : M DaError A unit :=
  let* cur := mreads snark_reads in
  let* next_seqno := mlift (applied (DaCounter_apply (sad_seq_no diff)) (sas_seqno cur)) in
  let* next_proof_state := mlift (applied (DaProofStateDiff_apply (sad_proof_state diff))
    {| ps_inner_state := sas_inner_state_root cur; ps_next_inbox_msg_idx := sas_next_inbox_msg_idx cur |}) in
  mmodify (fun s => snark_set_proof_state s (ps_inner_state next_proof_state)
                      (ps_next_inbox_msg_idx next_proof_state) next_seqno) ;;;
  (match dr_new_value (sad_update_vk diff) with
   | Some vk_bytes =>
       let* vk := mlift (owned_predicate_key vk_bytes) in
       mmodify (fun s => snark_set_update_vk s vk)
   | None => mret tt
   end) ;;;
  miter insert_da_message (dla_new_entries (sad_inbox diff)).

Definition apply_snark_diff {A} `{!IAccountStateMut A} (diff : SnarkAccountDiff) : M DaError A unit := fun a =>
  match as_snark_account_mut a with
  | Ok borrow => on_snark_account (write_snark_diff diff) borrow
  | Err _ => (Err (InvalidStateDiff "snark diff applied to non-snark account"), a)
  | Panic => (Panic, a)
  end.

Definition apply_account_diff_to_account {A} `{!IAccountStateMut A} (diff : AccountDiff) : M DaError A unit :=
  (match DaCounter_diff (ad_balance diff) with
   | Some incr => apply_balance_delta incr
   | None => mret tt
   end) ;;;
  if negb (SnarkAccountDiff_is_default (ad_snark diff)) then apply_snark_diff (ad_snark diff) else mret tt.

(** ** Validation *)

(** [seen_new_ids.insert] in a loop. *)
Fixpoint check_new_ids (seen : gset AccountId) (l : list NewAccountEntry) : res DaError unit :=
  match l with
  | [] => Ok tt
  | e :: l' =>
      if decide (nae_account_id e ∈ seen) then Err (InvalidLedgerDiff "duplicate new account id")
      else check_new_ids ({[nae_account_id e]} ∪ seen) l'
  end.

Fixpoint check_diff_serials (pre_serial : Z) (last_serial : option Z) (l : list AccountDiffEntry)
    : res DaError unit :=
  match l with
  | [] => Ok tt
  | e :: l' =>
      let serial := ade_account_serial e in
      if pre_serial <=? serial then Err (InvalidLedgerDiff "account diff serial out of range")
      else if match last_serial with Some prev => serial <=? prev | None => false end then
        Err (InvalidLedgerDiff "account diff serials not strictly increasing")
      else check_diff_serials pre_serial (Some serial) l'
  end.

Definition validate_ledger_entries (pre_state_next_serial : AccountSerial) (diff : StateDiff) : res DaError unit :=
  let! _ := check_new_ids ∅ (ld_new_accounts (sd_ledger diff)) in
  let new_count := wrap_u32 (zlen (ld_new_accounts (sd_ledger diff))) in
  let! _ :=
    if 0 <? new_count then
      let! _ := ok_or (checked_add_u32 pre_state_next_serial (new_count - 1))
                  (InvalidLedgerDiff "new account serial range overflows") in Ok tt
    else Ok tt in
  check_diff_serials pre_state_next_serial None (ld_account_diffs (sd_ledger diff)).

(** ** States *)

Section state.
Context {S : Type} `{!IStateAccessorMut S}.

Definition account_absent (id : AccountId) : M DaError S unit :=
  let* exists_ := mreads_res (fun s =>
    res_map_err (fun _ => FrameworkError InsufficientContext) (check_account_exists s id)) in
  if exists_ then merr (InvalidLedgerDiff "new account already exists") else mret tt.

Definition account_of_serial (serial : AccountSerial) : M DaError S AccountId :=
  let* o := mreads_res (fun s =>
    res_map_err (fun _ => FrameworkError InsufficientContext) (find_account_id_by_serial s serial)) in
  mlift (ok_or o (FrameworkError InsufficientContext)).

Definition apply_account_diff (id : AccountId) (diff : AccountDiff) : M DaError S unit :=
  let* inner := mmap_err (fun _ => InvalidStateDiff "failed to update account diff")
    (update_account id (apply_account_diff_to_account diff)) in
  mlift inner.

Definition OLStateDiff_is_default (diff : StateDiff) : bool :=
  GlobalStateDiff_is_default (sd_global diff) && LedgerDiff_is_empty (sd_ledger diff).

Definition OLStateDiff_poll_context (diff : StateDiff) : M DaError S unit :=
  let* pre_state_next_serial := mreads next_account_serial in
  mlift (validate_ledger_entries pre_state_next_serial diff) ;;;
  miter (fun entry =>
    mlift (new_account_data_from_init (nae_init entry)) ;;;
    account_absent (nae_account_id entry)) (ld_new_accounts (sd_ledger diff)) ;;;
  miter (fun entry => account_of_serial (ade_account_serial entry) ;;; mret tt) (ld_account_diffs (sd_ledger diff)).

Definition apply_global_diff (diff : GlobalStateDiff) : M DaError S unit :=
  let* cur := mreads cur_slot in
  let* slot := mlift (applied (DaCounter_apply (gsd_cur_slot diff)) cur) in
  mexpect (set_cur_slot slot) ;;;
  match DaCounter_diff (gsd_limbo_funds_sats diff) with
  | Some d =>
      let amt := svi_magnitude d in
      if svi_positive d then
        mmap_err (fun _ => InvalidStateDiff "failed to apply limbo funds diff")
          (add_limbo_funds_coin {| coin_amt := amt |})
      else
        mmap_err (fun _ => InvalidStateDiff "insufficient limbo funds for diff") (take_limbo_funds_coin amt) ;;;
        mret tt
  | None => mret tt
  end.

(** Creates the new accounts; the serials must be consecutive from [expected]. *)
Fixpoint create_accounts (expected_serial : AccountSerial) (l : list NewAccountEntry) : M DaError S unit :=
  match l with
  | [] => mret tt
  | entry :: l' =>
      account_absent (nae_account_id entry) ;;;
      let* new_acct := mlift (new_account_data_from_init (nae_init entry)) in
      let* serial := mmap_err (fun _ => InvalidLedgerDiff "failed to create new account")
        (create_new_account (nae_account_id entry) new_acct) in
      if negb (serial =? expected_serial) then merr (InvalidLedgerDiff "new account serial mismatch")
      else create_accounts (serial_incr expected_serial) l'
  end.

Definition OLStateDiff_apply (diff : StateDiff) : M DaError S unit :=
  apply_global_diff (sd_global diff) ;;;
  let* pre_state_next_serial := mreads next_account_serial in
  create_accounts pre_state_next_serial (ld_new_accounts (sd_ledger diff)) ;;;
  miter (fun entry =>
    let* account_id := account_of_serial (ade_account_serial entry) in
    apply_account_diff account_id (ade_diff entry)) (ld_account_diffs (sd_ledger diff)).

(** [OLDaSchemeV1]: check, then write. *)
Definition apply_to_state (payload : OLDaPayloadV1) : M DaError S unit :=
  OLStateDiff_poll_context (pl_state_diff payload) ;;;
  OLStateDiff_apply (pl_state_diff payload).
End state.
End apply.
