(* ===== verification/IndexerLayer.v ===== *)
(** * The indexer layer
    ([crates/ol/state-support-types/src/{indexer_layer,index_types}.rs])

    Wrappers around accounts and states that record what is written: inbox
    messages with their index, proof state updates, key updates, L1 block records
    and created accounts.  An account update runs on an owned copy, and the copy
    replaces the account only if something was written to it. *)

From S2P Require Import Prelude Identifiers AcctTypes ChainTypes Externals.
From S2P Require Import LedgerTypes OLAccount OLState StateAccessor.

(** The wrappers below are instances over any account and any state: searching
    for an instance starts only once the type is known. *)
#[export] Hint Mode ISnarkAccountStateMut - - ! : typeclass_instances.
#[export] Hint Mode IAccountStateMut - - ! : typeclass_instances.
#[export] Hint Mode IStateAccessor - - ! : typeclass_instances.
#[export] Hint Mode IStateAccessorMut - - ! : typeclass_instances.

(** ** [index_types.rs] *)

Record InboxMessageWrite := { imw_account_id : AccountId; imw_entry : MessageEntry; imw_index : Z }.

Record SnarkAcctStateUpdate := {
  asu_account_id : AccountId;
  asu_state : option Buf32;
  asu_prev_next_read_idx : Z;
  asu_next_read_idx : Z;
  asu_seqno : Seqno;
}.

Record L1BlockRecordWrite := { lrw_height : L1Height; lrw_record : L1BlockRecord }.
Record AccountCreatedWrite := { acw_account_id : AccountId }.

Section writes.
Context {ET : ExtTypes}.

Record PredicateKeyUpdate := { pku_account_id : AccountId; pku_new_vk : PredicateKey }.

Record IndexerWrites := {
  iw_created_accounts : list AccountCreatedWrite;
  iw_inbox_messages : list InboxMessageWrite;
  iw_l1_block_records : list L1BlockRecordWrite;
  iw_snark_acct_state_updates : list SnarkAcctStateUpdate;
  iw_predicate_key_updates : list PredicateKeyUpdate;
}.

Definition IndexerWrites_new : IndexerWrites :=
  {| iw_created_accounts := []; iw_inbox_messages := []; iw_l1_block_records := [];
     iw_snark_acct_state_updates := []; iw_predicate_key_updates := [] |}.

Definition IndexerWrites_extend (w o : IndexerWrites) : IndexerWrites :=
  {| iw_created_accounts := iw_created_accounts w ++ iw_created_accounts o;
     iw_inbox_messages := iw_inbox_messages w ++ iw_inbox_messages o;
     iw_l1_block_records := iw_l1_block_records w ++ iw_l1_block_records o;
     iw_snark_acct_state_updates := iw_snark_acct_state_updates w ++ iw_snark_acct_state_updates o;
     iw_predicate_key_updates := iw_predicate_key_updates w ++ iw_predicate_key_updates o |}.

Definition push_created_account (c : AccountCreatedWrite) (w : IndexerWrites) : IndexerWrites :=
  {| iw_created_accounts := iw_created_accounts w ++ [c]; iw_inbox_messages := iw_inbox_messages w;
     iw_l1_block_records := iw_l1_block_records w;
     iw_snark_acct_state_updates := iw_snark_acct_state_updates w;
     iw_predicate_key_updates := iw_predicate_key_updates w |}.

Definition push_inbox_message (m : InboxMessageWrite) (w : IndexerWrites) : IndexerWrites :=
  {| iw_created_accounts := iw_created_accounts w; iw_inbox_messages := iw_inbox_messages w ++ [m];
     iw_l1_block_records := iw_l1_block_records w;
     iw_snark_acct_state_updates := iw_snark_acct_state_updates w;
     iw_predicate_key_updates := iw_predicate_key_updates w |}.

Definition push_l1_block_record (r : L1BlockRecordWrite) (w : IndexerWrites) : IndexerWrites :=
  {| iw_created_accounts := iw_created_accounts w; iw_inbox_messages := iw_inbox_messages w;
     iw_l1_block_records := iw_l1_block_records w ++ [r];
     iw_snark_acct_state_updates := iw_snark_acct_state_updates w;
     iw_predicate_key_updates := iw_predicate_key_updates w |}.

Definition push_snark_acct_update (u : SnarkAcctStateUpdate) (w : IndexerWrites) : IndexerWrites :=
  {| iw_created_accounts := iw_created_accounts w; iw_inbox_messages := iw_inbox_messages w;
     iw_l1_block_records := iw_l1_block_records w;
     iw_snark_acct_state_updates := iw_snark_acct_state_updates w ++ [u];
     iw_predicate_key_updates := iw_predicate_key_updates w |}.

Definition push_predicate_key_update (u : PredicateKeyUpdate) (w : IndexerWrites) : IndexerWrites :=
  {| iw_created_accounts := iw_created_accounts w; iw_inbox_messages := iw_inbox_messages w;
     iw_l1_block_records := iw_l1_block_records w;
     iw_snark_acct_state_updates := iw_snark_acct_state_updates w;
     iw_predicate_key_updates := iw_predicate_key_updates w ++ [u] |}.
End writes.

Section indexer.
Context `{X : Ext}.

(** ** Snark accounts *)

Section snark.
Context {B : Type} `{!ISnarkAccountStateMut B}.

Record IndexerSnarkAccountStateMut := {
  isn_inner : B;
  isn_account_id : AccountId;
  isn_writes : IndexerWrites;
  isn_modified : bool;
}.

Definition IndexerSnarkAccountStateMut_new (inner : B) (id : AccountId) : IndexerSnarkAccountStateMut :=
  {| isn_inner := inner; isn_account_id := id; isn_writes := IndexerWrites_new; isn_modified := false |}.

(** Every write goes through to the inner account, marks the wrapper and is
    recorded. *)
Definition isn_wrote (s : IndexerSnarkAccountStateMut) (inner : B) (record : IndexerWrites -> IndexerWrites)
    : IndexerSnarkAccountStateMut :=
  {| isn_inner := inner; isn_account_id := isn_account_id s; isn_writes := record (isn_writes s);
     isn_modified := true |}.

#[export] Instance indexer_snark_mut : ISnarkAccountStateMut IndexerSnarkAccountStateMut := {
  snark_reads s := snark_reads (isn_inner s);
  snark_set_proof_state s state next_read_idx seqno :=
    let update := {| asu_account_id := isn_account_id s; asu_state := Some state;
                     asu_prev_next_read_idx := sas_next_inbox_msg_idx (snark_reads (isn_inner s));
                     asu_next_read_idx := next_read_idx; asu_seqno := seqno |} in
    isn_wrote s (snark_set_proof_state (isn_inner s) state next_read_idx seqno) (push_snark_acct_update update);
  snark_insert_inbox_message s entry :=
    let index := mmr_num_entries (sas_inbox_mmr (snark_reads (isn_inner s))) in
    let! inner := snark_insert_inbox_message (isn_inner s) entry in
    Ok (isn_wrote s inner (push_inbox_message
          {| imw_account_id := isn_account_id s; imw_entry := entry; imw_index := index |}));
  snark_set_update_vk s new_vk :=
    isn_wrote s (snark_set_update_vk (isn_inner s) new_vk)
      (push_predicate_key_update {| pku_account_id := isn_account_id s; pku_new_vk := new_vk |});
}.
End snark.
Arguments IndexerSnarkAccountStateMut B : clear implicits.

(** ** Accounts *)

Section account.
Context {A : Type} `{!IAccountStateMut A}.

Record IndexerAccountStateMut := {
  iam_inner : A;
  iam_account_id : AccountId;
  iam_writes : IndexerWrites;
  iam_modified : bool;
  iam_snark_wrapper : option (IndexerSnarkAccountStateMut (SnarkMut (A := A)));
}.

Definition IndexerAccountStateMut_new (inner : A) (id : AccountId) : IndexerAccountStateMut :=
  {| iam_inner := inner; iam_account_id := id; iam_writes := IndexerWrites_new; iam_modified := false;
     iam_snark_wrapper := None |}.

Definition iam_with_inner (a : IndexerAccountStateMut) (inner : A) (modified : bool) : IndexerAccountStateMut :=
  {| iam_inner := inner; iam_account_id := iam_account_id a; iam_writes := iam_writes a; iam_modified := modified;
     iam_snark_wrapper := iam_snark_wrapper a |}.

Definition iam_with_snark (a : IndexerAccountStateMut) s : IndexerAccountStateMut :=
  {| iam_inner := iam_inner a; iam_account_id := iam_account_id a; iam_writes := iam_writes a;
     iam_modified := iam_modified a; iam_snark_wrapper := Some s |}.

Definition IndexerAccountStateMut_was_modified (a : IndexerAccountStateMut) : bool :=
  iam_modified a || match iam_snark_wrapper a with Some s => isn_modified s | None => false end.

(** The inner account with the changes of the snark wrapper put back, the
    recorded writes, and whether anything was modified. *)
Definition IndexerAccountStateMut_into_parts (a : IndexerAccountStateMut) : A * IndexerWrites * bool :=
  match iam_snark_wrapper a with
  | None => (iam_inner a, iam_writes a, iam_modified a)
  | Some s =>
      let writes := IndexerWrites_extend (iam_writes a) (isn_writes s) in
      if isn_modified s then
        (match as_snark_account_mut (iam_inner a) with
         | Ok (_, put) => put (isn_inner s)
         | _ => iam_inner a
         end, writes, true)
      else (iam_inner a, writes, iam_modified a)
  end.

(** A computation on the inner account, which marks the wrapper first. *)
Definition on_inner_account {E R} (m : M E A R) : M E IndexerAccountStateMut R := fun a =>
  let '(r, inner) := m (iam_inner a) in (r, iam_with_inner a inner true).

(** The reads are those of the inner account, also after the snark wrapper has
    been written to. *)
#[export] Instance indexer_account_mut : IAccountStateMut IndexerAccountStateMut := {
  acct_reads a := acct_reads (iam_inner a);
  SnarkMut := IndexerSnarkAccountStateMut (SnarkMut (A := A));
  acct_add_balance E coin := on_inner_account (acct_add_balance coin);
  acct_take_balance amt := on_inner_account (acct_take_balance amt);
  as_snark_account_mut a :=
    match iam_snark_wrapper a with
    | Some s => Ok (s, iam_with_snark a)
    | None =>
        let! (inner_snark, _) := as_snark_account_mut (iam_inner a) in
        Ok (IndexerSnarkAccountStateMut_new inner_snark (iam_account_id a), iam_with_snark a)
    end;
}.

(** The closure that wraps an account, runs [f] on the wrapper, and writes the
    account back if it was modified. *)
Definition indexed {E R T} (id : AccountId) (f : M E IndexerAccountStateMut R)
    (out : res E R -> A * IndexerWrites * bool -> T) : M E A T := fun inner =>
  match f (IndexerAccountStateMut_new inner id) with
  | (Panic, _) => (Panic, inner)
  | (r, wrapped) =>
      let '(modified_inner, writes, was_modified) := IndexerAccountStateMut_into_parts wrapped in
      (Ok (out r (modified_inner, writes, was_modified)), if was_modified then modified_inner else inner)
  end.
End account.
Arguments IndexerAccountStateMut A {_}.

(** ** States *)

Section state.
Context {S : Type}.

Record IndexerState := { ixs_inner : S; ixs_writes : IndexerWrites }.

Definition IndexerState_new (inner : S) : IndexerState := {| ixs_inner := inner; ixs_writes := IndexerWrites_new |}.

Definition on_indexed {E R} (m : M E S R) : M E IndexerState R := fun x =>
  let '(r, s) := m (ixs_inner x) in (r, {| ixs_inner := s; ixs_writes := ixs_writes x |}).

Definition record_writes {E} (f : IndexerWrites -> IndexerWrites) : M E IndexerState unit :=
  mmodify (fun x => {| ixs_inner := ixs_inner x; ixs_writes := f (ixs_writes x) |}).

#[export] Instance indexer_accessor `{!IStateAccessor S} : IStateAccessor IndexerState := {
  cur_slot x := cur_slot (ixs_inner x);
  limbo_funds x := limbo_funds (ixs_inner x);
  cur_epoch x := cur_epoch (ixs_inner x);
  last_l1_blkid x := last_l1_blkid (ixs_inner x);
  last_l1_height x := last_l1_height (ixs_inner x);
  asm_recorded_epoch x := asm_recorded_epoch (ixs_inner x);
  total_ledger_balance x := total_ledger_balance (ixs_inner x);
  l1_block_refs_mmr x := l1_block_refs_mmr (ixs_inner x);
  pending_asm_logs_len x := pending_asm_logs_len (ixs_inner x);
  get_pending_asm_log x i := get_pending_asm_log (ixs_inner x) i;
  pending_asm_logs_full x := pending_asm_logs_full (ixs_inner x);
  check_account_exists x id := check_account_exists (ixs_inner x) id;
  get_account_state x id := get_account_state (ixs_inner x) id;
  find_account_id_by_serial x n := find_account_id_by_serial (ixs_inner x) n;
  next_account_serial x := next_account_serial (ixs_inner x);
  compute_state_root x := compute_state_root (ixs_inner x);
}.

Context `{!IStateAccessorMut S}.

Definition indexer_update_account {E R} (id : AccountId)
    (f : M E (IndexerAccountStateMut (AcctMut (S := S))) R) : M StateError IndexerState (res E R) :=
  let* outcome := on_indexed (update_account id (indexed id f (fun r parts => (r, snd (fst parts))))) in
  match outcome with
  | Ok (result, local_writes) =>
      record_writes (fun w => IndexerWrites_extend w local_writes) ;;; mret result
  | Err e => mret (Err e)
  | Panic => mpanic
  end.

Definition indexer_create_new_account (id : AccountId) (d : NewAccountData)
    : M StateError IndexerState AccountSerial :=
  let* serial := on_indexed (create_new_account id d) in
  record_writes (push_created_account {| acw_account_id := id |}) ;;;
  mret serial.

#[export] Instance indexer_accessor_mut : IStateAccessorMut IndexerState := {
  mut_accessor := indexer_accessor;
  AcctMut := IndexerAccountStateMut (AcctMut (S := S));
  set_cur_slot slot := on_indexed (set_cur_slot slot);
  add_limbo_funds_coin coin := on_indexed (add_limbo_funds_coin coin);
  take_limbo_funds_coin amt := on_indexed (take_limbo_funds_coin amt);
  set_cur_epoch epoch := on_indexed (set_cur_epoch epoch);
  append_l1_block_rec height rec :=
    record_writes (push_l1_block_record {| lrw_height := height; lrw_record := rec |}) ;;;
    on_indexed (append_l1_block_rec height rec);
  set_asm_recorded_epoch ec := on_indexed (set_asm_recorded_epoch ec);
  set_total_ledger_balance amt := on_indexed (set_total_ledger_balance amt);
  try_append_pending_asm_log entry := on_indexed (try_append_pending_asm_log entry);
  reset_intraepoch_state := on_indexed reset_intraepoch_state;
  update_account E R := indexer_update_account;
  create_new_account := indexer_create_new_account;
}.
End state.
Arguments IndexerState S : clear implicits.
End indexer.

Arguments IndexerSnarkAccountStateMut {_} B.
Arguments IndexerAccountStateMut {_ _} A {_}.
Arguments IndexerState {_} S.
