(* ===== verification/DaLayer.v ===== *)
(** * The DA accumulating layer
    ([crates/ol/state-support-types/src/da_accumulating_layer.rs])

    A layer that watches an epoch's writes and condenses them into the state diff
    that is posted: the first value of every slot, limbo and account field it
    sees, the last one, and the inbox messages in between.  An accumulation
    error is kept until the blob is asked for. *)

From S2P Require Import Prelude SortedMap Identifiers AcctTypes ChainTypes Externals.
From S2P Require Import CodecTypes Varint64 DaFramework OLDaTypes LedgerTypes OLAccount OLState.
From S2P Require Import StateAccessor IndexerLayer.

(** [strata_asm_checkpoint_types::OL_DA_DIFF_MAX_SIZE], and the length of a
    predicate key's condition. *)
Class DaExt {ET : ExtTypes} := {
  OL_DA_DIFF_MAX_SIZE : Z;
  pred_condition_len : PredicateKey -> Z;
}.

Inductive DaAccumulationError {ET : ExtTypes} :=
| Builder (e : BuilderError)
| DaCodec (e : CodecError)
| MissingAccountState (id : AccountId)
| MissingPreState (id : AccountId)
| AccountTypeChanged (account_id : AccountId) (expected actual : AccountTypeId)
| MissingSnarkState (id : AccountId)
| InboxAccountMismatch (expected actual : AccountId)
| MessageSourceMissing (id : AccountId)
| DuplicateAccountSerial (serial : AccountSerial)
| DuplicateNewAccountId (id : AccountId)
| NewAccountSerialGap (expected got : AccountSerial)
| VkTooLarge (provided max : Z)
| MessagePayloadTooLarge (provided max : Z)
| InboxBufferFull (account_id : AccountId) (max : Z)
| PayloadTooLarge (provided max : Z).

Section da.
Context `{X : Ext} `{CE : !CodecExt} `{DE : !DaExt}.

(** ** Deltas *)

Record SnarkDelta := {
  sdl_base_seq_no : Z;
  sdl_final_seq_no : Z;
  sdl_base_proof_state : ProofState;
  sdl_final_proof_state : ProofState;
  sdl_inbox : DaLinacc InboxBuffer;
  sdl_base_update_vk : bytes;
  sdl_final_update_vk : bytes;
}.

(** [update_vk().as_buf_ref().to_bytes()]. *)
Definition update_vk_bytes {E} (s : OLSnarkAccountState) : res E bytes := expect (pred_as_buf_bytes (sas_update_vk s)).

Definition SnarkDelta_from_state {E} (s : OLSnarkAccountState) : res E SnarkDelta :=
  let! vk := update_vk_bytes s in
  Ok {| sdl_base_seq_no := sas_seqno s; sdl_final_seq_no := sas_seqno s;
        sdl_base_proof_state := sas_proof_state s; sdl_final_proof_state := sas_proof_state s;
        sdl_inbox := DaLinacc_new InboxBuffer; sdl_base_update_vk := vk; sdl_final_update_vk := vk |}.

Definition SnarkDelta_update_from_state {E} (d : SnarkDelta) (s : OLSnarkAccountState) : res E SnarkDelta :=
  let! vk := update_vk_bytes s in
  Ok {| sdl_base_seq_no := sdl_base_seq_no d; sdl_final_seq_no := sas_seqno s;
        sdl_base_proof_state := sdl_base_proof_state d; sdl_final_proof_state := sas_proof_state s;
        sdl_inbox := sdl_inbox d; sdl_base_update_vk := sdl_base_update_vk d; sdl_final_update_vk := vk |}.

Definition sdl_with_inbox (d : SnarkDelta) (inbox : DaLinacc InboxBuffer) : SnarkDelta :=
  {| sdl_base_seq_no := sdl_base_seq_no d; sdl_final_seq_no := sdl_final_seq_no d;
     sdl_base_proof_state := sdl_base_proof_state d; sdl_final_proof_state := sdl_final_proof_state d;
     sdl_inbox := inbox; sdl_base_update_vk := sdl_base_update_vk d;
     sdl_final_update_vk := sdl_final_update_vk d |}.

(** [from_source(base)], [set(final)?], [into_write()?]. *)
Definition build_counter (S : CounterScheme) (base final : cs_base S) : res DaAccumulationError (DaCounter S) :=
  let '(r, b) := DaCounterBuilder_set final (DaCounterBuilder_from_source S base) in
  let! _ := res_map_err Builder r in
  res_map_err Builder (DaCounterBuilder_into_write b).

Definition bytes_eqb (a b : bytes) : bool := bool_decide (a = b).

Definition SnarkDelta_build_diff (d : SnarkDelta) : res DaAccumulationError SnarkAccountDiff :=
  let! seq_no := build_counter CtrU64ByU16 (sdl_base_seq_no d) (sdl_final_seq_no d) in
  let inner_state := DaRegister_compare (ps_inner_state (sdl_base_proof_state d))
                       (ps_inner_state (sdl_final_proof_state d)) in
  let! next_inbox_msg_idx := build_counter CtrU64ByUnsignedVarInt
    (ps_next_inbox_msg_idx (sdl_base_proof_state d)) (ps_next_inbox_msg_idx (sdl_final_proof_state d)) in
  let proof_state := {| dpd_inner_state := inner_state; dpd_next_inbox_msg_idx := next_inbox_msg_idx |} in
  let update_vk := DaRegister_compare (sdl_base_update_vk d) (sdl_final_update_vk d) in
  Ok {| sad_update_vk := update_vk; sad_proof_state := proof_state; sad_seq_no := seq_no;
        sad_inbox := sdl_inbox d |}.

Record AccountDelta := {
  adl_serial : AccountSerial;
  adl_base_balance : BitcoinAmount;
  adl_final_balance : BitcoinAmount;
  adl_ty : AccountTypeId;
  adl_snark : option SnarkDelta;
}.

Definition AccountDelta_from_state {E} (a : OLAccountState) : res E AccountDelta :=
  let! snark :=
    match acct_state a with
    | TySnark s => let! d := SnarkDelta_from_state s in Ok (Some d)
    | TyEmpty => Ok None
    end in
  Ok {| adl_serial := acct_serial a; adl_base_balance := acct_balance a; adl_final_balance := acct_balance a;
        adl_ty := acct_ty a; adl_snark := snark |}.

Definition adl_with_snark (d : AccountDelta) (snark : option SnarkDelta) : AccountDelta :=
  {| adl_serial := adl_serial d; adl_base_balance := adl_base_balance d;
     adl_final_balance := adl_final_balance d; adl_ty := adl_ty d; adl_snark := snark |}.

Definition adl_with_final_balance (d : AccountDelta) (b : BitcoinAmount) : AccountDelta :=
  {| adl_serial := adl_serial d; adl_base_balance := adl_base_balance d; adl_final_balance := b;
     adl_ty := adl_ty d; adl_snark := adl_snark d |}.

Record NewAccountRecord := {
  nar_serial : AccountSerial;
  nar_account_id : AccountId;
  nar_update_vk : option PredicateKey;
}.

(** ** The accumulator *)

Record EpochDaAccumulator := {
  acc_slot_builder : option (DaCounterBuilder CtrU64ByU16);
  acc_limbo_funds_builder : option (DaCounterBuilder CtrU64BySignedVarInt);
  acc_expected_first_serial : option AccountSerial;
  acc_new_account_records : list NewAccountRecord;
  acc_new_account_ids : gset AccountId;
  acc_account_deltas : gmap AccountId AccountDelta;
}.

Definition EpochDaAccumulator_default : EpochDaAccumulator :=
  {| acc_slot_builder := None; acc_limbo_funds_builder := None; acc_expected_first_serial := None;
     acc_new_account_records := []; acc_new_account_ids := ∅; acc_account_deltas := ∅ |}.

Definition acc_with_slot (c : EpochDaAccumulator) b : EpochDaAccumulator :=
  {| acc_slot_builder := b; acc_limbo_funds_builder := acc_limbo_funds_builder c;
     acc_expected_first_serial := acc_expected_first_serial c;
     acc_new_account_records := acc_new_account_records c; acc_new_account_ids := acc_new_account_ids c;
     acc_account_deltas := acc_account_deltas c |}.

Definition acc_with_limbo (c : EpochDaAccumulator) b : EpochDaAccumulator :=
  {| acc_slot_builder := acc_slot_builder c; acc_limbo_funds_builder := b;
     acc_expected_first_serial := acc_expected_first_serial c;
     acc_new_account_records := acc_new_account_records c; acc_new_account_ids := acc_new_account_ids c;
     acc_account_deltas := acc_account_deltas c |}.

Definition acc_with_deltas (c : EpochDaAccumulator) m : EpochDaAccumulator :=
  {| acc_slot_builder := acc_slot_builder c; acc_limbo_funds_builder := acc_limbo_funds_builder c;
     acc_expected_first_serial := acc_expected_first_serial c;
     acc_new_account_records := acc_new_account_records c; acc_new_account_ids := acc_new_account_ids c;
     acc_account_deltas := m |}.

(** A change of a counter: the builder starts at the first prior value. *)
Definition record_change (S : CounterScheme) (b : option (DaCounterBuilder S)) (prior new : cs_base S)
    : res BuilderError unit * option (DaCounterBuilder S) :=
  let builder := match b with Some b => b | None => DaCounterBuilder_from_source S prior end in
  let '(r, builder') := DaCounterBuilder_set new builder in (r, Some builder').

Definition record_slot_change (prior new : Z) : M DaAccumulationError EpochDaAccumulator unit := fun c =>
  let '(r, b) := record_change CtrU64ByU16 (acc_slot_builder c) prior new in
  (res_map_err Builder r, acc_with_slot c b).

Definition record_limbo_funds_change (prior new : Z) : M DaAccumulationError EpochDaAccumulator unit := fun c =>
  let '(r, b) := record_change CtrU64BySignedVarInt (acc_limbo_funds_builder c) prior new in
  (res_map_err Builder r, acc_with_limbo c b).

Definition ensure_account_delta {E} (id : AccountId) (a : OLAccountState) : M E EpochDaAccumulator unit := fun c =>
  match acc_account_deltas c !! id with
  | Some _ => (Ok tt, c)
  | None =>
      match AccountDelta_from_state a with
      | Ok d => (Ok tt, acc_with_deltas c (<[id := d]> (acc_account_deltas c)))
      | Err e => (Err e, c)
      | Panic => (Panic, c)
      end
  end.

(** Special accounts have no ledger record; any other source must exist. *)
Definition check_message_source {S} `{!IStateAccessor S} (state : S) (source_id : AccountId)
    : res DaAccumulationError unit :=
  if negb (acct_is_special source_id) then
    let! exists_ := res_map_err (fun _ => MessageSourceMissing source_id) (check_account_exists state source_id) in
    if negb exists_ then Err (MessageSourceMissing source_id) else Ok tt
  else Ok tt.

(** One inbox message of an update. *)
Definition record_message {S} `{!IStateAccessor S} (state : S) (account_id : AccountId) (msg : InboxMessageWrite)
    : M DaAccumulationError AccountDelta unit := fun delta =>
  if negb (imw_account_id msg =? account_id) then
    (Err (InboxAccountMismatch account_id (imw_account_id msg)), delta) else
  match adl_snark delta with
  | None => (Err (MissingSnarkState account_id), delta)
  | Some snark_delta =>
      let entry := imw_entry msg in
      let payload_len := zlen (mp_data (me_payload entry)) in
      if MAX_MSG_PAYLOAD_BYTES <? payload_len then
        (Err (MessagePayloadTooLarge payload_len MAX_MSG_PAYLOAD_BYTES), delta) else
      let source_id := me_source entry in
      match check_message_source state source_id with
      | Ok _ =>
          let da_entry := {| dme_source := source_id; dme_incl_epoch := me_incl_epoch entry;
                             dme_payload := me_payload entry |} in
          match append_entry (A := InboxBuffer) da_entry (sdl_inbox snark_delta) with
          | (Ok true, inbox) => (Ok tt, adl_with_snark delta (Some (sdl_with_inbox snark_delta inbox)))
          | (Ok false, _) => (Err (InboxBufferFull account_id (la_max_insert InboxBuffer)), delta)
          | (Err e, _) => (Err e, delta)
          | (Panic, _) => (Panic, delta)
          end
      | Err e => (Err e, delta)
      | Panic => (Panic, delta)
      end
  end.

(** The part of [record_account_update] that works on the account's delta. *)
Definition update_delta {S} `{!IStateAccessor S} (state : S) (account_id : AccountId) (post_state : OLAccountState)
    (writes : IndexerWrites) : M DaAccumulationError AccountDelta unit := fun delta =>
  let actual_ty := acct_ty post_state in
  if negb (bool_decide (actual_ty = adl_ty delta)) then
    (Err (AccountTypeChanged account_id (adl_ty delta) actual_ty), delta) else
  let delta := adl_with_final_balance delta (acct_balance post_state) in
  match
    match adl_snark delta, acct_state post_state with
    | Some snark_delta, TySnark snark_state =>
        let! snark_delta' := SnarkDelta_update_from_state snark_delta snark_state in
        Ok (adl_with_snark delta (Some snark_delta'))
    | _, _ => Ok delta
    end
  with
  | Ok delta => miter (record_message state account_id) (iw_inbox_messages writes) delta
  | Err e => (Err e, delta)
  | Panic => (Panic, delta)
  end.

Definition record_account_update {S} `{!IStateAccessor S} (state : S) (account_id : AccountId)
    (post_state : OLAccountState) (writes : IndexerWrites) : M DaAccumulationError EpochDaAccumulator unit := fun c =>
  match acc_account_deltas c !! account_id with
  | None => (Err (MissingPreState account_id), c)
  | Some delta =>
      let '(r, delta') := update_delta state account_id post_state writes delta in
      (r, acc_with_deltas c (<[account_id := delta']> (acc_account_deltas c)))
  end.

Definition record_new_account (expected_first_serial serial : AccountSerial) (account_id : AccountId)
    (update_vk : option PredicateKey) : M DaAccumulationError EpochDaAccumulator unit := fun c =>
  let first := match acc_expected_first_serial c with Some n => Some n | None => Some expected_first_serial end in
  let c' records ids :=
    {| acc_slot_builder := acc_slot_builder c; acc_limbo_funds_builder := acc_limbo_funds_builder c;
       acc_expected_first_serial := first; acc_new_account_records := records; acc_new_account_ids := ids;
       acc_account_deltas := acc_account_deltas c |} in
  if decide (account_id ∈ acc_new_account_ids c) then
    (Err (DuplicateNewAccountId account_id), c' (acc_new_account_records c) (acc_new_account_ids c))
  else
    (Ok tt, c' (acc_new_account_records c ++
                [{| nar_serial := serial; nar_account_id := account_id; nar_update_vk := update_vk |}])
              ({[account_id]} ∪ acc_new_account_ids c)).

(** ** The size estimate *)

Definition NEW_ACCT_BASE : Z := 32 + 8 + 1.
Definition NEW_ACCT_SNARK_FIXED : Z := 32 + 2.
Definition DIFF_FIXED : Z := 4 + 1 + 10 + 1 + 2 + 1 + 32 + 10.
Definition MSG_FIXED : Z := 32 + 4 + 8 + 2.

Definition snark_delta_size (s : SnarkDelta) : Z :=
  let entries := dla_new_entries (sdl_inbox s) in
  (if zlen entries =? 0 then 0 else 2) +
  zsum (map (fun e => MSG_FIXED + zlen (mp_data (dme_payload e))) entries) +
  (if bytes_eqb (sdl_final_update_vk s) (sdl_base_update_vk s) then 0 else 2 + zlen (sdl_final_update_vk s)).

Definition estimated_encoded_size (c : EpochDaAccumulator) : Z :=
  let global_size := 1 + 2 + 9 in
  let new_accounts_size := 2 + zsum (map (fun r =>
    NEW_ACCT_BASE + match nar_update_vk r with
                    | Some vk => NEW_ACCT_SNARK_FIXED + 1 + pred_condition_len vk
                    | None => 0
                    end) (acc_new_account_records c)) in
  let deltas := map snd (btree_iter (acc_account_deltas c)) in
  let account_diffs_size := 2 + zlen deltas * DIFF_FIXED +
    zsum (map (fun d => match adl_snark d with Some s => snark_delta_size s | None => 0 end) deltas) in
  global_size + new_accounts_size + account_diffs_size.

(** ** Finalization *)

Definition account_init_from_state {E} (a : OLAccountState) : res E AccountInit :=
  match acct_state a with
  | TyEmpty => Ok {| ai_balance := acct_balance a; ai_type_state := InitEmpty |}
  | TySnark s =>
      let! vk := update_vk_bytes s in
      Ok {| ai_balance := acct_balance a;
            ai_type_state := InitSnark {| sai_initial_state_root := sas_inner_state_root s; sai_update_vk := vk |} |}
  end.

(** The builders are taken out of the accumulator. *)
Definition build_global_diff : M DaAccumulationError EpochDaAccumulator GlobalStateDiff := fun c =>
  let finish {S} (b : option (DaCounterBuilder S)) : res DaAccumulationError (DaCounter S) :=
    match b with Some b => res_map_err Builder (DaCounterBuilder_into_write b) | None => Ok Unchanged end in
  match finish (acc_slot_builder c) with
  | Ok cur_slot =>
      (let! limbo_funds_sats := finish (acc_limbo_funds_builder c) in
       Ok {| gsd_cur_slot := cur_slot; gsd_limbo_funds_sats := limbo_funds_sats |},
       acc_with_limbo (acc_with_slot c None) None)
  | Err e => (Err e, acc_with_slot c None)
  | Panic => (Panic, acc_with_slot c None)
  end.

Fixpoint check_contiguous (expected : AccountSerial) (l : list NewAccountRecord) : res DaAccumulationError unit :=
  match l with
  | [] => Ok tt
  | e :: l' =>
      if negb (nar_serial e =? expected) then Err (NewAccountSerialGap expected (nar_serial e))
      else check_contiguous (serial_incr expected) l'
  end.

Definition check_new_serials (expected_first : option AccountSerial) (l : list NewAccountRecord)
    : res DaAccumulationError unit :=
  match l with
  | [] => Ok tt
  | first :: _ =>
      if match expected_first with Some expected => negb (nar_serial first =? expected) | None => false end then
        Err (NewAccountSerialGap (default 0 expected_first) (nar_serial first))
      else check_contiguous (nar_serial first) l
  end.

Section ledger.
Context {S : Type} `{!IStateAccessor S} (state : S).

Fixpoint build_new_accounts (serials : gset AccountSerial) (l : list NewAccountRecord)
    : res DaAccumulationError (gset AccountSerial * list NewAccountEntry) :=
  match l with
  | [] => Ok (serials, [])
  | e :: l' =>
      if decide (nar_serial e ∈ serials) then Err (DuplicateAccountSerial (nar_serial e)) else
      let missing := MissingAccountState (nar_account_id e) in
      let! o := res_map_err (fun _ => missing) (get_account_state state (nar_account_id e)) in
      let! state_ref := ok_or o missing in
      let! init := account_init_from_state state_ref in
      let! _ := match ai_type_state init with
                | InitSnark i =>
                    let vk_len := zlen (sai_update_vk i) in
                    if MAX_VK_BYTES <? vk_len then Err (VkTooLarge vk_len MAX_VK_BYTES) else Ok tt
                | InitEmpty => Ok tt
                end in
      let! (serials', entries) := build_new_accounts ({[nar_serial e]} ∪ serials) l' in
      Ok (serials', {| nae_account_id := nar_account_id e; nae_init := init |} :: entries)
  end.

(** The diff of one account. *)
Definition delta_diff (account_id : AccountId) (delta : AccountDelta) : res DaAccumulationError AccountDiff :=
  let! d := expect (cs_compare CtrU64BySignedVarInt (adl_base_balance delta) (adl_final_balance delta)) in
  let balance := DaCounter_new_changed CtrU64BySignedVarInt d in
  let! snark_state :=
    match adl_ty delta with
    | AcctTyEmpty => Ok SnarkAccountDiff_default
    | AcctTySnark =>
        let! snark := ok_or (adl_snark delta) (MissingSnarkState account_id) in
        SnarkDelta_build_diff snark
    end in
  Ok {| ad_balance := balance; ad_snark := snark_state |}.

Fixpoint build_account_diffs (new_ids : gset AccountId) (new_serials seen : gset AccountSerial)
    (l : list (AccountId * AccountDelta)) : res DaAccumulationError (list AccountDiffEntry) :=
  match l with
  | [] => Ok []
  | (account_id, delta) :: l' =>
      if decide (account_id ∈ new_ids) then build_account_diffs new_ids new_serials seen l' else
      let! diff := delta_diff account_id delta in
      if AccountDiff_is_default diff then build_account_diffs new_ids new_serials seen l' else
      let serial := adl_serial delta in
      if decide (serial ∈ new_serials \/ serial ∈ seen) then Err (DuplicateAccountSerial serial) else
      let! entries := build_account_diffs new_ids new_serials ({[serial]} ∪ seen) l' in
      Ok ({| ade_account_serial := serial; ade_diff := diff |} :: entries)
  end.

Definition build_ledger_diff (c : EpochDaAccumulator) : res DaAccumulationError LedgerDiff :=
  let new_records := sort_by_key nar_serial (acc_new_account_records c) in
  let! _ := check_new_serials (acc_expected_first_serial c) new_records in
  let! (new_account_serials, new_accounts) := build_new_accounts ∅ new_records in
  let! account_diffs := build_account_diffs (acc_new_account_ids c) new_account_serials ∅
                          (btree_iter (acc_account_deltas c)) in
  Ok {| ld_new_accounts := new_accounts; ld_account_diffs := sort_by_key ade_account_serial account_diffs |}.

Definition finalize : M DaAccumulationError EpochDaAccumulator StateDiff :=
  let* global_diff := build_global_diff in
  let* ledger_diff := mreads_res build_ledger_diff in
  mret {| sd_global := global_diff; sd_ledger := ledger_diff |}.
End ledger.

Definition encode_payload (d : StateDiff) : res DaAccumulationError bytes :=
  let! encoded := res_map_err DaCodec (encode payload_codec {| pl_state_diff := d |}) in
  if OL_DA_DIFF_MAX_SIZE <? zlen encoded then Err (PayloadTooLarge (zlen encoded) OL_DA_DIFF_MAX_SIZE)
  else Ok encoded.

(** ** The state accessor *)

Section state.
Context {S : Type}.

Record DaAccumulatingState := {
  das_inner : S;
  das_epoch_acc : EpochDaAccumulator;
  das_pending_epoch_diffs : list StateDiff;
  das_pending_epoch_blobs : list bytes;
  das_pending_epoch_error : option DaAccumulationError;
}.

Definition DaAccumulatingState_new_with_accumulator (inner : S) (acc : EpochDaAccumulator) : DaAccumulatingState :=
  {| das_inner := inner; das_epoch_acc := acc; das_pending_epoch_diffs := []; das_pending_epoch_blobs := [];
     das_pending_epoch_error := None |}.

Definition DaAccumulatingState_new (inner : S) : DaAccumulatingState :=
  DaAccumulatingState_new_with_accumulator inner EpochDaAccumulator_default.

Definition das_with_inner (d : DaAccumulatingState) (s : S) : DaAccumulatingState :=
  {| das_inner := s; das_epoch_acc := das_epoch_acc d; das_pending_epoch_diffs := das_pending_epoch_diffs d;
     das_pending_epoch_blobs := das_pending_epoch_blobs d; das_pending_epoch_error := das_pending_epoch_error d |}.

Definition das_with_acc (d : DaAccumulatingState) (c : EpochDaAccumulator) : DaAccumulatingState :=
  {| das_inner := das_inner d; das_epoch_acc := c; das_pending_epoch_diffs := das_pending_epoch_diffs d;
     das_pending_epoch_blobs := das_pending_epoch_blobs d; das_pending_epoch_error := das_pending_epoch_error d |}.

Definition das_with_error (d : DaAccumulatingState) (o : option DaAccumulationError) : DaAccumulatingState :=
  {| das_inner := das_inner d; das_epoch_acc := das_epoch_acc d;
     das_pending_epoch_diffs := das_pending_epoch_diffs d; das_pending_epoch_blobs := das_pending_epoch_blobs d;
     das_pending_epoch_error := o |}.

Definition das_with_diffs (d : DaAccumulatingState) (l : list StateDiff) : DaAccumulatingState :=
  {| das_inner := das_inner d; das_epoch_acc := das_epoch_acc d; das_pending_epoch_diffs := l;
     das_pending_epoch_blobs := das_pending_epoch_blobs d; das_pending_epoch_error := das_pending_epoch_error d |}.

Definition das_with_blobs (d : DaAccumulatingState) (l : list bytes) : DaAccumulatingState :=
  {| das_inner := das_inner d; das_epoch_acc := das_epoch_acc d;
     das_pending_epoch_diffs := das_pending_epoch_diffs d; das_pending_epoch_blobs := l;
     das_pending_epoch_error := das_pending_epoch_error d |}.

Definition on_da {E R} (m : M E S R) : M E DaAccumulatingState R := fun d =>
  let '(r, s) := m (das_inner d) in (r, das_with_inner d s).

(** Keeps the first error. *)
Definition set_epoch_error (e : DaAccumulationError) (d : DaAccumulatingState) : DaAccumulatingState :=
  match das_pending_epoch_error d with None => das_with_error d (Some e) | Some _ => d end.

(** Runs an accumulator operation and keeps its error for later. *)
Definition accumulate {E} (m : M DaAccumulationError EpochDaAccumulator unit) : M E DaAccumulatingState unit :=
  fun d =>
  match m (das_epoch_acc d) with
  | (Ok _, c) => (Ok tt, das_with_acc d c)
  | (Err e, c) => (Ok tt, set_epoch_error e (das_with_acc d c))
  | (Panic, c) => (Panic, das_with_acc d c)
  end.

#[export] Instance da_accessor `{!IStateAccessor S} : IStateAccessor DaAccumulatingState := {
  cur_slot d := cur_slot (das_inner d);
  limbo_funds d := limbo_funds (das_inner d);
  cur_epoch d := cur_epoch (das_inner d);
  last_l1_blkid d := last_l1_blkid (das_inner d);
  last_l1_height d := last_l1_height (das_inner d);
  asm_recorded_epoch d := asm_recorded_epoch (das_inner d);
  total_ledger_balance d := total_ledger_balance (das_inner d);
  l1_block_refs_mmr d := l1_block_refs_mmr (das_inner d);
  pending_asm_logs_len d := pending_asm_logs_len (das_inner d);
  get_pending_asm_log d i := get_pending_asm_log (das_inner d) i;
  pending_asm_logs_full d := pending_asm_logs_full (das_inner d);
  check_account_exists d id := check_account_exists (das_inner d) id;
  get_account_state d id := get_account_state (das_inner d) id;
  find_account_id_by_serial d n := find_account_id_by_serial (das_inner d) n;
  next_account_serial d := next_account_serial (das_inner d);
  compute_state_root d := compute_state_root (das_inner d);
}.

(** The next blob: a kept error first, then finished blobs and diffs, and
    otherwise what has been accumulated. *)
Definition take_completed_epoch_da_blob `{!IStateAccessor S}
    : M DaAccumulationError DaAccumulatingState (option bytes) := fun d =>
  match das_pending_epoch_error d with
  | Some err => (Err err, das_with_error d None)
  | None =>
  match das_pending_epoch_blobs d with
  | blob :: blobs => (Ok (Some blob), das_with_blobs d blobs)
  | [] =>
  match das_pending_epoch_diffs d with
  | state_diff :: diffs =>
      (let! blob := encode_payload state_diff in Ok (Some blob), das_with_diffs d diffs)
  | [] =>
      match finalize (das_inner d) (das_epoch_acc d) with
      | (Ok state_diff, _) =>
          (let! blob := encode_payload state_diff in Ok (Some blob), das_with_acc d EpochDaAccumulator_default)
      | (Err err, acc) => (Err err, das_with_acc d acc)
      | (Panic, acc) => (Panic, das_with_acc d acc)
      end
  end end end.

Context `{!IStateAccessorMut S}.

Definition da_set_cur_slot (slot : Slot) : M StateError DaAccumulatingState unit :=
  let* prior := mreads cur_slot in
  accumulate (record_slot_change prior slot) ;;;
  on_da (set_cur_slot slot).

Definition da_add_limbo_funds_coin (coin : Coin) : M StateError DaAccumulatingState unit :=
  let* prior := mreads limbo_funds in
  on_da (add_limbo_funds_coin coin) ;;;
  let* new := mreads limbo_funds in
  accumulate (record_limbo_funds_change prior new).

Definition da_take_limbo_funds_coin (amt : BitcoinAmount) : M StateError DaAccumulatingState Coin :=
  let* prior := mreads limbo_funds in
  let* coin := on_da (take_limbo_funds_coin amt) in
  let* new := mreads limbo_funds in
  accumulate (record_limbo_funds_change prior new) ;;;
  mret coin.

(** A change of the epoch finalizes what has been accumulated. *)
Definition da_set_cur_epoch (epoch : Epoch) : M StateError DaAccumulatingState unit :=
  let* prev := mreads cur_epoch in
  (if negb (epoch =? prev) then fun d =>
     let d0 := das_with_acc d EpochDaAccumulator_default in
     match finalize (das_inner d) (das_epoch_acc d) with
     | (Ok state_diff, _) => (Ok tt, das_with_diffs d0 (das_pending_epoch_diffs d ++ [state_diff]))
     | (Err err, _) => (Ok tt, set_epoch_error err d0)
     | (Panic, _) => (Panic, d0)
     end
   else mret tt) ;;;
  on_da (set_cur_epoch epoch).

Definition da_update_account {E R} (id : AccountId) (f : M E (IndexerAccountStateMut (AcctMut (S := S))) R)
    : M StateError DaAccumulatingState (res E R) :=
  let* o := mreads_res (fun d : DaAccumulatingState => get_account_state d id) in
  (match o with
   | Some account_state => accumulate (ensure_account_delta id account_state)
   | None => mret tt
   end) ;;;
  let* outcome := on_da (update_account id (indexed id f (fun r parts =>
    let '(modified_inner, writes, was_modified) := parts in
    (r, writes, if was_modified : bool then Some modified_inner else None)))) in
  match outcome with
  | Ok (result, local_writes, post_state) =>
      (match post_state with
       | Some post => fun d : DaAccumulatingState =>
           accumulate (record_account_update (das_inner d) id (acct_reads post) local_writes) d
       | None => mret tt
       end) ;;;
      mret result
  | Err e => mret (Err e)
  | Panic => mpanic
  end.

Definition da_create_new_account (id : AccountId) (d : NewAccountData)
    : M StateError DaAccumulatingState AccountSerial :=
  let update_vk := match nad_type_state d with NewEmpty => None | NewSnark update_vk _ => Some update_vk end in
  let* expected_first_serial := mreads next_account_serial in
  let* serial := on_da (create_new_account id d) in
  accumulate (record_new_account expected_first_serial serial id update_vk) ;;;
  mret serial.

#[export] Instance da_accessor_mut : IStateAccessorMut DaAccumulatingState := {
  mut_accessor := da_accessor;
  AcctMut := IndexerAccountStateMut (AcctMut (S := S));
  set_cur_slot := da_set_cur_slot;
  add_limbo_funds_coin := da_add_limbo_funds_coin;
  take_limbo_funds_coin := da_take_limbo_funds_coin;
  set_cur_epoch := da_set_cur_epoch;
  append_l1_block_rec height rec := on_da (append_l1_block_rec height rec);
  set_asm_recorded_epoch ec := on_da (set_asm_recorded_epoch ec);
  set_total_ledger_balance amt := on_da (set_total_ledger_balance amt);
  update_account E R := da_update_account;
  create_new_account := da_create_new_account;
  try_append_pending_asm_log entry := on_da (try_append_pending_asm_log entry);
  reset_intraepoch_state := on_da reset_intraepoch_state;
}.
End state.
Arguments DaAccumulatingState S : clear implicits.
End da.

Arguments DaAccumulatingState {_ _} S.
