(* ===== verification/LedgerSpec.v ===== *)
(** * The abstract ledger

    What every state layer promises: a state is a finite map of accounts with
    an index by serial, next to the global, epochal and intraepoch fields.
    [LState] is that specification, an accessor of its own, and [ls_apply] is
    what a write batch means on it.  The concrete layers are related to it by
    simulations, stated as the class of ledger layers, and the properties of the
    transition function are proved against it. *)

From S2P Require Import Prelude SortedMap Identifiers AcctTypes ChainTypes Externals LedgerTypes OLAccount.
From S2P Require Import WriteBatch OLState StateAccessor.

Section spec.
Context `{XR : ExtRoot}.

Record LState := {
  ls_epoch : EpochalState;
  ls_global : GlobalState;
  ls_pending : list PendingAsmLog;
  ls_accts : gmap AccountId OLAccountState;
  ls_serials : gmap AccountSerial AccountId;
}.

Definition ls_set_epoch (a : LState) (e : EpochalState) : LState :=
  {| ls_epoch := e; ls_global := ls_global a; ls_pending := ls_pending a;
     ls_accts := ls_accts a; ls_serials := ls_serials a |}.
Definition ls_set_global (a : LState) (g : GlobalState) : LState :=
  {| ls_epoch := ls_epoch a; ls_global := g; ls_pending := ls_pending a;
     ls_accts := ls_accts a; ls_serials := ls_serials a |}.
Definition ls_set_pending (a : LState) (p : list PendingAsmLog) : LState :=
  {| ls_epoch := ls_epoch a; ls_global := ls_global a; ls_pending := p;
     ls_accts := ls_accts a; ls_serials := ls_serials a |}.
Definition ls_set_accts (a : LState) (m : gmap AccountId OLAccountState) : LState :=
  {| ls_epoch := ls_epoch a; ls_global := ls_global a; ls_pending := ls_pending a;
     ls_accts := m; ls_serials := ls_serials a |}.

(** The concrete state an abstract one stands for: the table lists the accounts
    in ascending order of their ids. *)
Definition table_of (m : gmap AccountId OLAccountState) : TsnlLedgerAccountsTable :=
  {| tbl_accounts := map (fun p => {| ent_id := p.1; ent_state := p.2 |}) (btree_iter m) |}.

Definition concretize (a : LState) : OLState :=
  {| ol_epoch := ls_epoch a; ol_global := ls_global a;
     ol_intraepoch := {| is_pending_asm_logs := ls_pending a |}; ol_ledger := table_of (ls_accts a) |}.

Definition ls_root (a : LState) : Buf32 := thr_ol_state (concretize a).

#[export] Instance LState_accessor : IStateAccessor LState := {
  cur_slot a := gs_cur_slot (ls_global a);
  limbo_funds a := gs_limbo_funds_sats (ls_global a);
  cur_epoch a := es_cur_epoch (ls_epoch a);
  last_l1_blkid a := l1c_blkid (es_last_l1_block (ls_epoch a));
  last_l1_height a := l1c_height (es_last_l1_block (ls_epoch a));
  asm_recorded_epoch a := es_checkpointed_epoch (ls_epoch a);
  total_ledger_balance a := es_total_ledger_funds (ls_epoch a);
  l1_block_refs_mmr a := es_l1_block_refs_mmr (ls_epoch a);
  pending_asm_logs_len a := zlen (ls_pending a);
  get_pending_asm_log a i := ls_pending a !! Z.to_nat i;
  pending_asm_logs_full a := zlen (ls_pending a) =? MAX_PENDING_ASM_LOGS;
  check_account_exists a id := Ok (match ls_accts a !! id with Some _ => true | None => false end);
  get_account_state a id := Ok (ls_accts a !! id);
  find_account_id_by_serial a n := Ok (ls_serials a !! n);
  next_account_serial a := gs_next_avail_serial (ls_global a);
  compute_state_root a := Ok (ls_root a);
}.

#[export] Instance LState_accessor_mut : IStateAccessorMut LState := {
  mut_accessor := LState_accessor;
  set_cur_slot slot := mmodify (fun a => ls_set_global a (gs_set_cur_slot (ls_global a) slot));
  add_limbo_funds_coin coin a :=
    match amt_checked_add (gs_limbo_funds_sats (ls_global a)) (coin_amt coin) with
    | None => (Err (LimboFundsOverflow (gs_limbo_funds_sats (ls_global a)) (coin_amt coin)), a)
    | Some new => (Ok tt, ls_set_global a (gs_set_limbo (ls_global a) new))
    end;
  take_limbo_funds_coin amt a :=
    match amt_checked_sub (gs_limbo_funds_sats (ls_global a)) amt with
    | None => (Err (InsufficientLimboFunds amt (gs_limbo_funds_sats (ls_global a))), a)
    | Some new => (Ok {| coin_amt := amt |}, ls_set_global a (gs_set_limbo (ls_global a) new))
    end;
  set_cur_epoch epoch := mmodify (fun a => ls_set_epoch a (es_set_cur_epoch (ls_epoch a) epoch));
  append_l1_block_rec height rec a :=
    match append_l1_block_rec_to_mmr (es_l1_block_refs_mmr (ls_epoch a)) rec with
    | Ok mmr => (Ok tt, ls_set_epoch a (es_set_last_l1_block (es_set_mmr (ls_epoch a) mmr)
                  {| l1c_height := height; l1c_blkid := l1r_block_hash rec |}))
    | Err x => (Err x, a)
    | Panic => (Panic, a)
    end;
  set_asm_recorded_epoch ec := mmodify (fun a => ls_set_epoch a (es_set_asm_recorded_epoch (ls_epoch a) ec));
  set_total_ledger_balance amt :=
    mmodify (fun a => ls_set_epoch a (es_set_total_ledger_balance (ls_epoch a) amt));
  try_append_pending_asm_log e a :=
    if zlen (ls_pending a) <? MAX_PENDING_ASM_LOGS then (Ok tt, ls_set_pending a (ls_pending a ++ [e]))
    else (Err PendingAsmLogsFull, a);
  reset_intraepoch_state := mmodify (fun a => ls_set_pending a []);
  AcctMut := OLAccountState;
  update_account E R id f a :=
    match ls_accts a !! id with
    | None => (Err (MissingAccount id), a)
    | Some acct => run_account f acct (fun acct' => ls_set_accts a (<[id := acct']> (ls_accts a)))
    end;
  create_new_account id d a :=
    match ls_accts a !! id with
    | Some _ => (Err (AccountExists id), a)
    | None =>
        let serial := gs_next_avail_serial (ls_global a) in
        (Ok serial,
         {| ls_epoch := ls_epoch a; ls_global := set_next_avail_serial (ls_global a) (serial + 1);
            ls_pending := ls_pending a;
            ls_accts := <[id := OLAccountState_new_with_serial d serial]> (ls_accts a);
            ls_serials := <[serial := id]> (ls_serials a) |})
    end;
}.

(** ** Well-formedness *)

Record ls_wf (a : LState) : Prop := {
  wf_serials n id : ls_serials a !! n = Some id <->
    exists acct, ls_accts a !! id = Some acct /\ acct_serial acct = n;
  wf_serial_range id acct : ls_accts a !! id = Some acct ->
    0 <= acct_serial acct < gs_next_avail_serial (ls_global a);
  wf_next_serial : in_u32 (gs_next_avail_serial (ls_global a));
  wf_size : Z.of_nat (size (ls_accts a)) <= MAX_LEDGER_ACCOUNTS;
  wf_pending : zlen (ls_pending a) <= MAX_PENDING_ASM_LOGS;
}.

(** ** What a write batch means *)

Definition or_base {A} (o : option A) (d : A) : A := match o with Some a => a | None => d end.

Definition apply_gw (w : GlobalStateWrites) (num_new : Z) (g : GlobalState) : GlobalState :=
  {| gs_cur_slot := or_base (gw_cur_slot w) (gs_cur_slot g);
     gs_next_avail_serial := gs_next_avail_serial g + num_new;
     gs_limbo_funds_sats := or_base (gw_limbo_funds_sats w) (gs_limbo_funds_sats g) |}.

Definition apply_ew (w : EpochalStateWrites) (e : EpochalState) : EpochalState :=
  {| es_total_ledger_funds := or_base (ew_total_ledger_balance w) (es_total_ledger_funds e);
     es_cur_epoch := or_base (ew_cur_epoch w) (es_cur_epoch e);
     es_last_l1_block := {|
       l1c_height := or_base (ew_last_l1_height w) (l1c_height (es_last_l1_block e));
       l1c_blkid := or_base (ew_last_l1_blkid w) (l1c_blkid (es_last_l1_block e)) |};
     es_checkpointed_epoch := or_base (ew_asm_recorded_epoch w) (es_checkpointed_epoch e);
     es_l1_block_refs_mmr := or_base (ew_l1_block_refs_mmr w) (es_l1_block_refs_mmr e) |}.

Definition ls_apply (a : LState) (b : WriteBatch) : LState :=
  let iw := wb_intraepoch_writes b in
  {| ls_epoch := apply_ew (wb_epochal_writes b) (ls_epoch a);
     ls_global := apply_gw (wb_global_writes b) (zlen (lwb_new_accounts (wb_ledger b))) (ls_global a);
     ls_pending := (if iw_reset iw then [] else ls_pending a) ++ iw_appended iw;
     ls_accts := lwb_account_writes (wb_ledger b) ∪ ls_accts a;
     ls_serials := list_to_map (lwb_iter_new_accounts (wb_ledger b)) ∪ ls_serials a |}.

(** A batch that fits the state it is applied to: new accounts have the next
    serials and fresh ids, all other written accounts exist and keep their
    serial, and the pending logs fit the buffer. *)
Record batch_fits (a : LState) (b : WriteBatch) : Prop := {
  bf_smap : smap_wf (lwb_serial_to_id (wb_ledger b));
  bf_first : lwb_new_accounts (wb_ledger b) <> [] ->
    smap_first (lwb_serial_to_id (wb_ledger b)) = gs_next_avail_serial (ls_global a);
  bf_nodup : NoDup (lwb_new_accounts (wb_ledger b));
  bf_new i id : lwb_new_accounts (wb_ledger b) !! i = Some id ->
    ls_accts a !! id = None /\
    exists acct, lwb_account_writes (wb_ledger b) !! id = Some acct /\
      acct_serial acct = gs_next_avail_serial (ls_global a) + Z.of_nat i;
  bf_upd id acct : lwb_account_writes (wb_ledger b) !! id = Some acct ->
    id ∉ lwb_new_accounts (wb_ledger b) ->
    exists acct0, ls_accts a !! id = Some acct0 /\ acct_serial acct = acct_serial acct0;
  bf_size : Z.of_nat (size (ls_accts a)) + zlen (lwb_new_accounts (wb_ledger b)) <= MAX_LEDGER_ACCOUNTS;
  bf_pending : zlen (if iw_reset (wb_intraepoch_writes b) then [] else ls_pending a)
    + zlen (iw_appended (wb_intraepoch_writes b)) <= MAX_PENDING_ASM_LOGS;
}.

Fixpoint batches_fit (a : LState) (bs : list WriteBatch) : Prop :=
  match bs with [] => True | b :: bs' => batch_fits a b /\ batches_fit (ls_apply a b) bs' end.

(** ** Consequences of fitting *)

Section fits.
Context (a : LState) (b : WriteBatch) (Hwf : ls_wf a) (Hfit : batch_fits a b).

Let ids := lwb_new_accounts (wb_ledger b).
Let first := gs_next_avail_serial (ls_global a).
Let writes := lwb_account_writes (wb_ledger b).

Lemma fits_next_serial : first + zlen ids <= U32_MAX.
Proof.
  pose proof (wf_next_serial a Hwf) as Hn. destruct (decide (ids = [])) as [He|Hne].
  - rewrite He. autorewrite with zlen. unfold first. unfold in_u32 in Hn. lia.
  - pose proof (bf_first a b Hfit Hne) as Hf. destruct (bf_smap a b Hfit) as [_ Hb].
    specialize (Hb Hne). rewrite Hf in Hb. exact Hb.
Qed.

Lemma fits_iter :
  lwb_iter_new_accounts (wb_ledger b) = imap (fun i id => (first + Z.of_nat i, id)) ids.
Proof.
  unfold lwb_iter_new_accounts. rewrite SerialMap_iter_wf by apply Hfit.
  unfold ids, lwb_new_accounts. apply imap_ext. intros i id Hi. do 2 f_equal.
  apply (bf_first a b Hfit). intros He. unfold lwb_new_accounts in He. rewrite He in Hi.
  by rewrite lookup_nil in Hi.
Qed.

Lemma fits_serials_lookup n id :
  (list_to_map (lwb_iter_new_accounts (wb_ledger b)) : gmap Z Z) !! n = Some id <->
  exists i : nat, ids !! i = Some id /\ n = first + Z.of_nat i.
Proof.
  rewrite fits_iter. rewrite <- elem_of_list_to_map.
  - rewrite list_elem_of_lookup. setoid_rewrite list_lookup_imap. split.
    + intros (i & Hi). destruct (ids !! i) eqn:Hl; simplify_eq/=. eauto.
    + intros (i & Hi & ->). exists i. by rewrite Hi.
  - apply NoDup_alt. intros i j x. rewrite !list_lookup_fmap, !list_lookup_imap.
    destruct (ids !! i), (ids !! j); simpl; intros; simplify_eq. lia.
Qed.

Lemma fits_serials_none n :
  n < first -> (list_to_map (lwb_iter_new_accounts (wb_ledger b)) : gmap Z Z) !! n = None.
Proof.
  intros Hlt. destruct (_ !! n) as [id|] eqn:Hl; [|done].
  apply fits_serials_lookup in Hl as (i & _ & ->). lia.
Qed.

Lemma fits_get_serial n :
  SerialMap_get (lwb_serial_to_id (wb_ledger b)) n =
  (list_to_map (lwb_iter_new_accounts (wb_ledger b)) : gmap Z Z) !! n.
Proof.
  apply option_eq. intros id. rewrite fits_serials_lookup. rewrite SerialMap_get_wf by apply Hfit.
  assert (Hf : forall i, ids !! i = Some id -> smap_first (lwb_serial_to_id (wb_ledger b)) = first).
  { intros i Hi. apply (bf_first a b Hfit). fold ids. intros He. rewrite He in Hi.
    by rewrite lookup_nil in Hi. }
  unfold ids, lwb_new_accounts in *.
  split; intros (i & Hi & ->); exists i; split; try done; by rewrite (Hf i Hi).
Qed.

(** Every written account has the serial of the old account, or a new one. *)
Lemma fits_write_cases id acct :
  writes !! id = Some acct ->
  (exists i : nat, ids !! i = Some id /\ acct_serial acct = first + Z.of_nat i /\ ls_accts a !! id = None) \/
  ((id ∉ ids) /\ exists acct0, ls_accts a !! id = Some acct0 /\ acct_serial acct = acct_serial acct0).
Proof.
  intros Hw. destruct (decide (id ∈ ids)) as [Hin|Hni].
  - left. apply list_elem_of_lookup in Hin as [i Hi]. exists i.
    destruct (bf_new a b Hfit i id Hi) as (Hn & acct' & Hw' & Hs). fold writes in Hw'. by simplify_eq.
  - right. split; [done|]. by apply (bf_upd a b Hfit).
Qed.

(** The size of the resulting ledger. *)
Lemma fits_size : Z.of_nat (size (writes ∪ ls_accts a)) = Z.of_nat (size (ls_accts a)) + zlen ids.
Proof.
  assert (Hd : dom (writes ∪ ls_accts a) = list_to_set ids ∪ dom (ls_accts a)).
  { apply set_eq. intros id. rewrite dom_union, !elem_of_union, elem_of_list_to_set, !elem_of_dom. split.
    - intros [[acct Hw]|]; [|by right]. destruct (fits_write_cases id acct Hw) as [(i & Hi & _)|(_ & acct0 & Ha & _)].
      + left. by eapply list_elem_of_lookup_2.
      + right. by eexists.
    - intros [Hin|]; [|by right]. left. apply list_elem_of_lookup in Hin as [i Hi].
      destruct (bf_new a b Hfit i id Hi) as (_ & acct & Hw & _). by eexists. }
  rewrite <- !size_dom, Hd, size_union.
  - rewrite size_list_to_set by apply Hfit. unfold zlen, ids. lia.
  - intros id. rewrite elem_of_list_to_set, elem_of_dom. intros Hin [acct Ha].
    apply list_elem_of_lookup in Hin as [i Hi]. destruct (bf_new a b Hfit i id Hi) as [Hn _]. congruence.
Qed.

Lemma ls_apply_wf : ls_wf (ls_apply a b).
Proof.
  pose proof fits_next_serial as Hns. pose proof (wf_next_serial a Hwf) as Hn.
  pose proof (zlen_nonneg ids) as Hz.
  assert (Hrange : forall id acct, ls_accts (ls_apply a b) !! id = Some acct ->
    0 <= acct_serial acct < first + zlen ids).
  { simpl. intros id acct Hl. apply lookup_union_Some_raw in Hl as [Hw|[Hw Ha]].
    - destruct (fits_write_cases id acct Hw) as [(i & Hi & Hs & _)|(_ & acct0 & Ha & Hs)].
      + apply lookup_lt_Some in Hi. unfold zlen, in_u32 in *. fold first in Hn. lia.
      + pose proof (wf_serial_range a Hwf _ _ Ha). unfold first. lia.
    - pose proof (wf_serial_range a Hwf _ _ Ha). unfold first. lia. }
  split; simpl.
  - intros n id. rewrite lookup_union_Some_raw, fits_serials_lookup. split.
    + intros [(i & Hi & ->)|[Hnone Hs]].
      * destruct (bf_new a b Hfit i id Hi) as (_ & acct & Hw & Hs). exists acct.
        rewrite lookup_union_l' by (by eexists). done.
      * apply (wf_serials a Hwf) in Hs as (acct & Ha & <-).
        destruct (writes !! id) as [acct'|] eqn:Hw.
        -- destruct (fits_write_cases id acct' Hw) as [(i & _ & _ & Hno)|(_ & acct0 & Ha0 & Hs)]; [congruence|].
           exists acct'. rewrite lookup_union_l' by (by eexists). split; [done|congruence].
        -- exists acct. by rewrite lookup_union_r.
    + intros (acct & Hl & <-). apply lookup_union_Some_raw in Hl as [Hw|[Hw Ha]].
      * destruct (fits_write_cases id acct Hw) as [(i & Hi & Hs & _)|(_ & acct0 & Ha & Hs)].
        -- left. eauto.
        -- right. split.
           ++ apply fits_serials_none. pose proof (wf_serial_range a Hwf _ _ Ha). unfold first. lia.
           ++ apply (wf_serials a Hwf). eauto.
      * right. split; [|apply (wf_serials a Hwf); eauto].
        apply fits_serials_none. pose proof (wf_serial_range a Hwf _ _ Ha). unfold first. lia.
  - exact Hrange.
  - unfold in_u32 in *. fold first ids. fold first in Hn. lia.
  - fold writes. rewrite fits_size. apply Hfit.
  - rewrite zlen_app. apply Hfit.
Qed.
End fits.
End spec.

(** * Layers of the ledger

    What an account type promises when it stands for [OLAccountState], and what
    a state layer promises when it stands for the abstract ledger and updates
    accounts one at a time.  The layers that wrap another layer are verified
    against these promises. *)

(** ** Accounts *)

Class SnarkRefines `{X : Ext} {B} `{!ISnarkAccountStateMut B} (SR : B -> OLSnarkAccountState -> Prop) : Prop := {
  sr_sim :: SnarkSim SR;
  sr_reads b s : SR b s -> snark_reads b = s;
}.

Class AccountRefines `{X : Ext} {A} `{!IAccountStateMut A} (AR : A -> OLAccountState -> Prop)
    (SR : SnarkMut (A := A) -> OLSnarkAccountState -> Prop) : Prop := {
  ar_snark :: SnarkRefines SR;
  ar_reads a1 a : AR a1 a -> acct_reads a1 = a;
  ar_add_balance E c : sim AR (acct_add_balance (E := E) c) (acct_add_balance c);
  ar_take_balance amt : sim AR (acct_take_balance amt) (acct_take_balance amt);
  ar_borrow a1 a : AR a1 a ->
    match acct_state a with
    | TySnark s => exists s1 put, as_snark_account_mut a1 = Ok (s1, put) /\ SR s1 s /\
        forall s1' s', SR s1' s' -> AR (put s1') (acct_with_state a (TySnark s'))
    | TyEmpty => as_snark_account_mut a1 = Err (MismatchedAcctType AcctTyEmpty AcctTySnark)
    end;
}.

#[export] Instance snark_eq_refines `{X : Ext} : SnarkRefines (@eq OLSnarkAccountState).
Proof. split; [apply _|done]. Qed.

#[export] Instance account_eq_refines `{X : Ext} : AccountRefines (@eq OLAccountState) eq.
Proof.
  split; [apply _|done|..].
  - intros E c a ? <-. split; [done|]. done.
  - intros amt a ? <-. split; [done|]. done.
  - intros a ? <-. simpl. unfold acct_ty. destruct (acct_state a) as [|s]; [done|].
    eexists _, _. split_and!; [done..|]. by intros ? s' ->.
Qed.

Definition with_serial `{X : Ext} {A} (AR : A -> OLAccountState -> Prop) (n : AccountSerial) (a1 : A) (a : OLAccountState) :=
  AR a1 a /\ acct_serial a = n.

(** Every account type that refines accounts runs computations alike, and keeps
    the serial. *)
#[export] Instance with_serial_sim `{X : Ext} {A} `{!IAccountStateMut A} (AR : A -> OLAccountState -> Prop) SR
    `{!AccountRefines AR SR} n : AccountSim (with_serial AR n).
Proof.
  split.
  - intros E c a1 a [Ha Hn]. destruct (ar_add_balance (E) c a1 a Ha) as [Hr Hs]. split; [done|]. intros Hp.
    split; [by apply Hs|]. simpl. unfold add_balance. by destruct (amt_checked_add _ _).
  - intros amt a1 a [Ha Hn]. destruct (ar_take_balance amt a1 a Ha) as [Hr Hs]. split; [done|]. intros Hp.
    split; [by apply Hs|]. simpl. unfold take_balance. by destruct (amt_checked_sub _ _).
  - intros a1 a [Ha Hn]. pose proof (ar_borrow a1 a Ha) as Hb. simpl. unfold acct_ty.
    destruct (acct_state a) as [|s]; [rewrite Hb; apply borrow_sim_err|].
    destruct Hb as (s1 & put & -> & Hs & Hput). eapply borrow_sim_ok; [apply ar_snark|exact Hs|].
    intros s1' s' Hs'. split; [by apply Hput|done].
Qed.

Section layer.
Context `{XR : ExtRoot} {S : Type} `{!IStateAccessorMut S}.
Context (R : S -> LState -> Prop) (AR : AcctMut (S := S) -> OLAccountState -> Prop).

(** Updating an account runs the computation on an account that stands for the
    one of the ledger, and stores what it leaves. *)
Definition updates_like {E Q} (id : AccountId) (f : M E (AcctMut (S := S)) Q) (s : S) (l : LState) : Prop :=
  match ls_accts l !! id with
  | None => exists s', update_account id f s = (Err (MissingAccount id), s') /\ R s' l
  | Some a => exists a1 put, AR a1 a /\ update_account id f s = run_account f a1 put /\
      forall a1' a', AR a1' a' -> acct_serial a' = acct_serial a ->
        R (put a1') (ls_set_accts l (<[id := a']> (ls_accts l)))
  end.

Lemma updates_like_sim {SR} `{!AccountRefines AR SR} {E Q} id (f1 : M E (AcctMut (S := S)) Q) f2 s l :
  updates_like id f1 s l -> acct_agree f1 f2 ->
  fst (update_account id f1 s) = fst (update_account (S := LState) id f2 l) /\
  (fst (update_account id f1 s) <> Panic ->
   R (snd (update_account id f1 s)) (snd (update_account (S := LState) id f2 l))).
Proof.
  unfold updates_like. intros Hu Hf. simpl. destruct (ls_accts l !! id) as [a|].
  - destruct Hu as (a1 & put & Ha & -> & Hput).
    destruct (Hf (with_serial AR (acct_serial a)) _ a1 a) as [Hr Hs]; [done|]. unfold run_account.
    destruct (f1 a1) as [r1 a1'], (f2 a) as [r2 a']; simpl in *. subst r2.
    destruct r1; simpl; split; try done; intros _; destruct Hs as [Ha' Hn]; auto.
  - by destruct Hu as (s' & -> & Hs').
Qed.
End layer.

(** A layer that behaves like the ledger up to the drain of an epoch, and updates
    accounts one at a time. *)
Class LedgerLayer `{XR : ExtRoot} {S} `{!IStateAccessorMut S} (R : S -> LState -> Prop)
    (AR : AcctMut (S := S) -> OLAccountState -> Prop)
    (SR : SnarkMut (A := AcctMut (S := S)) -> OLSnarkAccountState -> Prop) : Prop := {
  ll_predrain :: PredrainSim R;
  ll_accounts :: AccountRefines AR SR;
  ll_update {E Q} id (f : M E (AcctMut (S := S)) Q) s l : R s l -> updates_like R AR id f s l;
}.
