(* ===== verification/MemoryLayer.v ===== *)
(** * The in-memory base layer
    ([crates/ol/state-support-types/src/memory_state_layer.rs])

    An [OLState] with an index from serials to ids, its accessor operations and
    batch application, and the proof that it refines the abstract ledger: reads,
    writes, batch application and state roots. *)

From S2P Require Import Prelude SortedMap Identifiers AcctTypes ChainTypes Externals.
From S2P Require Import LedgerTypes OLAccount WriteBatch OLState StateAccessor LedgerSpec.

Section memory.
Context `{XR : ExtRoot}.

Record MemoryStateBaseLayer := {
  mem_state : OLState;
  mem_serials : gmap AccountSerial AccountId;
}.

Definition mem_set_state (m : MemoryStateBaseLayer) (s : OLState) : MemoryStateBaseLayer :=
  {| mem_state := s; mem_serials := mem_serials m |}.

(** Indexes the serials; a duplicated serial panics. *)
Definition MemoryStateBaseLayer_new {E} (s : OLState) : res E MemoryStateBaseLayer :=
  let accounts := tbl_accounts (ol_ledger s) in
  let serials := fold_left (fun m e => <[acct_serial (ent_state e) := ent_id e]> m) accounts ∅ in
  if Z.of_nat (size serials) =? zlen accounts
  then Ok {| mem_state := s; mem_serials := serials |} else Panic.

Definition on_state {E A} (m : M E OLState A) : M E MemoryStateBaseLayer A := fun x =>
  let '(r, s) := m (mem_state x) in (r, mem_set_state x s).

#[export] Instance mem_accessor : IStateAccessor MemoryStateBaseLayer := {
  cur_slot m := gs_cur_slot (ol_global (mem_state m));
  limbo_funds m := gs_limbo_funds_sats (ol_global (mem_state m));
  cur_epoch m := es_cur_epoch (ol_epoch (mem_state m));
  last_l1_blkid m := l1c_blkid (es_last_l1_block (ol_epoch (mem_state m)));
  last_l1_height m := l1c_height (es_last_l1_block (ol_epoch (mem_state m)));
  asm_recorded_epoch m := es_checkpointed_epoch (ol_epoch (mem_state m));
  total_ledger_balance m := es_total_ledger_funds (ol_epoch (mem_state m));
  l1_block_refs_mmr m := es_l1_block_refs_mmr (ol_epoch (mem_state m));
  pending_asm_logs_len m := zlen (is_pending_asm_logs (ol_intraepoch (mem_state m)));
  get_pending_asm_log m idx := is_pending_asm_logs (ol_intraepoch (mem_state m)) !! Z.to_nat idx;
  pending_asm_logs_full m := is_pending_logs_full (ol_intraepoch (mem_state m));
  check_account_exists m id :=
    Ok (match tbl_get_account_state (ol_ledger (mem_state m)) id with Some _ => true | None => false end);
  get_account_state m id := Ok (tbl_get_account_state (ol_ledger (mem_state m)) id);
  find_account_id_by_serial m serial := Ok (mem_serials m !! serial);
  next_account_serial m := get_next_avail_serial (ol_global (mem_state m));
  compute_state_root m := Ok (thr_ol_state (mem_state m));
}.

Definition mem_add_limbo_funds_coin (coin : Coin) : M StateError MemoryStateBaseLayer unit := fun m =>
  let cur := gs_limbo_funds_sats (ol_global (mem_state m)) in
  match amt_checked_add cur (coin_amt coin) with
  | None => (Err (LimboFundsOverflow cur (coin_amt coin)), m)
  | Some _ => on_state (on_global (gs_add_limbo_funds_coin coin)) m
  end.

Definition mem_take_limbo_funds_coin (amt : BitcoinAmount) : M StateError MemoryStateBaseLayer Coin :=
  let* o := on_state (on_global (gs_take_limbo_funds_coin amt)) in
  mreads_res (fun m =>
    ok_or o (InsufficientLimboFunds amt (gs_limbo_funds_sats (ol_global (mem_state m))))).

Definition mem_update_account {E R} (id : AccountId) (f : M E OLAccountState R)
    : M StateError MemoryStateBaseLayer (res E R) := fun m =>
  let t := ol_ledger (mem_state m) in
  match get_acct_entry_idx t id with
  | None => (Err (MissingAccount id), m)
  | Some i =>
      match tbl_accounts t !! i with
      | None => (Err (MissingAccount id), m)
      | Some e =>
          run_account f (ent_state e) (fun acct =>
            mem_set_state m (ol_set_ledger (mem_state m) (tbl_set_account_state t i acct)))
      end
  end.

Definition mem_create_new_account (id : AccountId) (d : NewAccountData)
    : M StateError MemoryStateBaseLayer AccountSerial :=
  let* serial := mreads (fun m => get_next_avail_serial (ol_global (mem_state m))) in
  on_state (ol_create_new_account id serial d) ;;;
  mmodify (fun m => {| mem_state := mem_state m; mem_serials := <[serial := id]> (mem_serials m) |}) ;;;
  mret serial.

#[export] Instance mem_accessor_mut : IStateAccessorMut MemoryStateBaseLayer := {
  mut_accessor := mem_accessor;
  set_cur_slot slot := on_state (on_global (mmodify (fun g => gs_set_cur_slot g slot)));
  add_limbo_funds_coin := mem_add_limbo_funds_coin;
  take_limbo_funds_coin := mem_take_limbo_funds_coin;
  set_cur_epoch epoch := on_state (on_epoch (mmodify (fun e => es_set_cur_epoch e epoch)));
  append_l1_block_rec height rec := on_state (on_epoch (es_append_l1_block_rec height rec));
  set_asm_recorded_epoch ec := on_state (on_epoch (mmodify (fun e => es_set_asm_recorded_epoch e ec)));
  set_total_ledger_balance amt := on_state (on_epoch (mmodify (fun e => es_set_total_ledger_balance e amt)));
  try_append_pending_asm_log entry := on_state (on_intraepoch (try_append_pending_log entry));
  reset_intraepoch_state := on_state (on_intraepoch (mmodify (fun _ => IntraepochState_reset)));
  AcctMut := OLAccountState;
  update_account E R := mem_update_account;
  create_new_account := mem_create_new_account;
}.

(** Serial conflicts are looked for before anything is modified. *)
Fixpoint check_serials_free (serials : gmap AccountSerial AccountId)
    (l : list (AccountSerial * AccountId)) : res StateError unit :=
  match l with
  | [] => Ok tt
  | (serial, id) :: l' =>
      match serials !! serial with
      | Some existing => Err (AccountExistsWithSerial serial existing id)
      | None => check_serials_free serials l'
      end
  end.

Definition mem_apply_write_batch (b : WriteBatch) : M StateError MemoryStateBaseLayer unit :=
  let new_accounts := lwb_iter_new_accounts (wb_ledger b) in
  mreads_res (fun m => check_serials_free (mem_serials m) new_accounts) ;;;
  on_state (apply_write_batch b) ;;;
  mmodify (fun m => {| mem_state := mem_state m;
    mem_serials := fold_left (fun s p => <[p.1 := p.2]> s) new_accounts (mem_serials m) |}).

#[export] Instance mem_batch_applicable : IStateBatchApplicable MemoryStateBaseLayer :=
  {| apply_batch := mem_apply_write_batch |}.

#[export] Instance mem_root_with_writes : IComputeStateRootWithWrites MemoryStateBaseLayer := {
  compute_state_root_with_writes m writes :=
    match miter apply_write_batch writes (mem_state m) with
    | (Ok _, s) => Ok (thr_ol_state s)
    | (Err e, _) => Err e
    | (Panic, _) => Panic
    end;
}.

(** ** Refinement *)

Definition ol_abs (s : OLState) (serials : gmap AccountSerial AccountId) : LState :=
  {| ls_epoch := ol_epoch s; ls_global := ol_global s;
     ls_pending := is_pending_asm_logs (ol_intraepoch s);
     ls_accts := tbl_map (ol_ledger s); ls_serials := serials |}.

Record mem_refines (m : MemoryStateBaseLayer) (a : LState) : Prop := {
  mr_table : tbl_wf (ol_ledger (mem_state m));
  mr_abs : a = ol_abs (mem_state m) (mem_serials m);
  mr_wf : ls_wf a;
}.

(** A sorted table is the canonical table of the map it denotes. *)
Lemma table_of_tbl_map t : tbl_wf t -> table_of (tbl_map t) = t.
Proof.
  intros Hwf. unfold table_of, tbl_map. rewrite btree_iter_unique by exact Hwf.
  unfold tbl_iter_account_states. rewrite map_map. destruct t as [l]. simpl. f_equal.
  rewrite <- (map_id l) at 2. apply map_ext. by intros [].
Qed.

Lemma concretize_abs s serials : tbl_wf (ol_ledger s) -> concretize (ol_abs s serials) = s.
Proof.
  intros Hwf. unfold concretize, ol_abs. simpl. rewrite table_of_tbl_map by done.
  by destruct s as [? ? [] ?].
Qed.

Lemma wrap_u32_id x : in_u32 x -> wrap_u32 x = x.
Proof. unfold_widths. intros. apply Z.mod_small. lia. Qed.

Lemma mem_next_serial m a :
  mem_refines m a -> get_next_avail_serial (ol_global (mem_state m)) = gs_next_avail_serial (ls_global a).
Proof. intros [_ -> Hwf]. apply wrap_u32_id, Hwf. Qed.

#[export] Instance mem_read_sim : ReadSim mem_refines.
Proof.
  split; intros s1 s2; try done; try (intros [_ -> _]; done).
  - intros i [_ -> _] _. done.
  - intros id [Ht -> _]. simpl. by rewrite tbl_get_account_state_map.
  - intros id [Ht -> _]. simpl. by rewrite tbl_get_account_state_map.
  - intros n [_ -> _]. done.
  - apply mem_next_serial.
  - intros [Ht -> _]. simpl. unfold ls_root. by rewrite concretize_abs.
Qed.

(** Changing a section other than the ledger, or an account without its serial,
    keeps the abstract state well formed. *)
Lemma ls_wf_fields a e g p :
  ls_wf a -> gs_next_avail_serial g = gs_next_avail_serial (ls_global a) ->
  zlen p <= MAX_PENDING_ASM_LOGS ->
  ls_wf {| ls_epoch := e; ls_global := g; ls_pending := p; ls_accts := ls_accts a; ls_serials := ls_serials a |}.
Proof. intros [H1 H2 H3 H4 H5] Hg Hp. split; simpl; rewrite ?Hg; done. Qed.

Lemma ls_wf_update a id acct acct' :
  ls_wf a -> ls_accts a !! id = Some acct -> acct_serial acct = acct_serial acct' ->
  ls_wf (ls_set_accts a (<[id := acct']> (ls_accts a))).
Proof.
  intros [H1 H2 H3 H4 H5] Hl Hs. split; simpl; try done.
  - intros n id'. rewrite H1. destruct (decide (id = id')) as [<-|Hne].
    + rewrite lookup_insert_eq. split; intros (x & Hx & Hn); simplify_eq; eauto.
    + by rewrite lookup_insert_ne.
  - intros id' x. destruct (decide (id = id')) as [<-|Hne].
    + rewrite lookup_insert_eq. intros; simplify_eq. rewrite <- Hs. eauto.
    + rewrite lookup_insert_ne by done. apply H2.
  - rewrite map_size_insert_Some by (by eexists). done.
Qed.

Lemma mem_update_account_run {E Q} id (f : M E OLAccountState Q) m a :
  mem_refines m a ->
  updates_like (S := MemoryStateBaseLayer) mem_refines (@eq OLAccountState) id f m a.
Proof.
  intros Hr. pose proof Hr as [Ht -> Hwf]. unfold updates_like. simpl. unfold mem_update_account.
  destruct (tbl_map (ol_ledger (mem_state m)) !! id) as [acct|] eqn:Hl.
  - destruct (get_acct_entry_idx_Some _ _ _ Ht Hl) as (i & Hi & He). rewrite Hi, He. simpl.
    eexists _, _. split_and!; [done|done|]. intros ? a' -> Hn.
    destruct (tbl_set_account_state_spec _ _ i _ a' Ht He) as [Hwf' Hmap].
    split; simpl; [done| |].
    + unfold ls_set_accts, ol_abs. simpl. by rewrite Hmap.
    + eapply ls_wf_update; [done|exact Hl|done].
  - assert (Hi : get_acct_entry_idx (ol_ledger (mem_state m)) id = None).
    { unfold get_acct_entry_idx. pose proof (binary_search_correct _ id Ht) as Hs.
      destruct (binary_search_by_id _ _) as [i|]; [|done]. destruct Hs as (e & He & <-).
      apply (tbl_map_lookup_entry _ i) in He; [congruence|done]. }
    rewrite Hi. by eexists.
Qed.

Lemma mem_update_account_sim {E Q} id (f1 f2 : M E OLAccountState Q) :
  acct_agree f1 f2 -> sim mem_refines (mem_update_account id f1) (update_account (S := LState) id f2).
Proof. intros Hf m a Hr. apply (@updates_like_sim _ _ _ _ mem_accessor_mut mem_refines eq eq account_eq_refines _ _ id f1 f2); [by apply mem_update_account_run|done]. Qed.

(** Closes a well-formedness goal after a change outside the ledger. *)
Ltac wf_fields m Hwf :=
  first [exact Hwf
        |apply (ls_wf_fields (ol_abs (mem_state m) (mem_serials m))); [exact Hwf|done|apply Hwf]].

#[export] Instance mem_predrain_sim : PredrainSim mem_refines.
Proof.
  split.
  - apply _.
  - intros v m a [Ht -> Hwf]. simpl. split; [done|]. intros _. split; [done..|wf_fields m Hwf].
  - intros c m a [Ht -> Hwf]. simpl. unfold mem_add_limbo_funds_coin, on_state, on_global,
      gs_add_limbo_funds_coin, gs_add_limbo_funds. simpl.
    destruct (amt_checked_add _ _); simpl; (split; [done|]); intros _; split; try done; wf_fields m Hwf.
  - intros h r m a [Ht -> Hwf]. simpl. unfold on_state, on_epoch, es_append_l1_block_rec. simpl.
    destruct (append_l1_block_rec_to_mmr _ _); simpl; (split; [done|]); intros Hp; try done;
      (split; [done|done|wf_fields m Hwf]).
  - intros l m a [Ht -> Hwf]. simpl. unfold on_state, on_intraepoch, try_append_pending_log. simpl.
    destruct (_ <? _) eqn:Hlt; simpl; (split; [done|]); intros _; split; try done.
    apply (ls_wf_fields (ol_abs (mem_state m) (mem_serials m))); [done..|].
    simpl. autorewrite with zlen. zbool. lia.
  - intros E Q id f1 f2 Hf. by apply mem_update_account_sim.
Qed.

#[export] Instance mem_state_sim : StateSim mem_refines.
Proof.
  split; [apply _|..].
  1-3: intros v m a [Ht -> Hwf]; simpl; split; [done|]; intros _; split; [done..|wf_fields m Hwf].
  intros m a [Ht -> Hwf]. simpl. split; [done|]. intros _. split; [done..|].
  apply (ls_wf_fields (ol_abs (mem_state m) (mem_serials m))); done.
Qed.
#[export] Instance mem_ledger_layer : LedgerLayer mem_refines (@eq OLAccountState) (@eq OLSnarkAccountState).
Proof. split; [apply _..|]. intros E Q id f m a Hr. by apply mem_update_account_run. Qed.
End memory.
