(* ===== verification/BatchApply.v ===== *)
(** * Applying write batches

    [OLState::apply_write_batch] against its abstract meaning [ls_apply]: a batch
    that fits is applied completely, without panicking; an error leaves the state
    as it was. *)

From S2P Require Import Prelude SortedMap Identifiers AcctTypes ChainTypes Externals.
From S2P Require Import LedgerTypes OLAccount WriteBatch OLState StateAccessor LedgerSpec.
From S2P Require Import MemoryLayer.

Section apply.
Context `{XR : ExtRoot} `{!SerialLaws X}.

(** ** The safety check *)

Lemma check_new_accounts_fits s lwb ids f :
  tbl_wf (ol_ledger s) -> 0 <= f -> f + zlen ids <= U32_MAX ->
  (forall i id, ids !! i = Some id -> tbl_map (ol_ledger s) !! id = None /\
     exists acct, lwb_account_writes lwb !! id = Some acct /\ acct_serial acct = f + Z.of_nat i) ->
  check_new_accounts s lwb f (imap (fun i id => (f + Z.of_nat i, id)) ids) = Ok tt.
Proof.
  intros Ht. revert f. induction ids as [|id ids IH]; intros f Hf Hb Hnew; [done|].
  rewrite imap_cons. cbn [check_new_accounts].
  destruct (Hnew 0%nat id eq_refl) as (Hnone & acct & Hw & Hs).
  unfold lwb_get_account. rewrite Hw, Hs, !Z.add_0_r, !Z.eqb_refl. cbn [negb].
  rewrite tbl_get_account_state_map, Hnone by done.
  autorewrite with zlen in Hb. pose proof (zlen_nonneg ids).
  rewrite serial_incr_spec by lia.
  rewrite (imap_ext _ (fun i id => (f + 1 + Z.of_nat i, id))); [|intros; simpl; f_equal; lia].
  apply IH; [lia..|]. intros i id' Hi. destruct (Hnew (S i) id' Hi) as (Hn & acct' & Hw' & Hs').
  split; [done|]. exists acct'. split; [done|lia].
Qed.

Lemma check_existing_accounts_fits s l :
  tbl_wf (ol_ledger s) ->
  (forall id st, (id, st) ∈ l -> acct_serial st < get_next_avail_serial (ol_global s) ->
     is_Some (tbl_map (ol_ledger s) !! id)) ->
  check_existing_accounts s l = Ok tt.
Proof.
  intros Ht. induction l as [|[id st] l IH]; intros Hex; [done|]. cbn [check_existing_accounts].
  assert (IH' : check_existing_accounts s l = Ok tt).
  { apply IH. intros id' st' Hin. apply Hex. by right. }
  destruct (_ <=? _) eqn:Hle; zbool; [done|].
  destruct (Hex id st) as [acct Ha]; [by left|done|].
  rewrite tbl_get_account_state_map, Ha by done. done.
Qed.

Lemma check_write_batch_safe_fits m a b :
  mem_refines m a -> batch_fits a b -> check_write_batch_safe (mem_state m) b = Ok tt.
Proof.
  intros Hr Hfit. pose proof Hr as [Ht Ha Hwf]. unfold check_write_batch_safe.
  pose proof (fits_next_serial a b Hwf Hfit) as Hns. pose proof (wf_next_serial a Hwf) as Hn.
  rewrite (mem_next_serial m a Hr), (fits_iter a b Hfit).
  assert (Haccts : ls_accts a = tbl_map (ol_ledger (mem_state m))) by (by rewrite Ha).
  rewrite check_new_accounts_fits; [|done|unfold in_u32 in Hn; lia|done|].
  2: { intros i id Hi. rewrite <- Haccts. exact (bf_new a b Hfit i id Hi). }
  cbn [res_bind]. rewrite check_existing_accounts_fits; [|done|].
  2: { intros id st Hin Hlt. rewrite <- Haccts. rewrite (mem_next_serial m a Hr) in Hlt.
       apply elem_of_btree_iter in Hin.
       destruct (fits_write_cases a b Hfit id st Hin) as [(i & _ & Hs & _)|(_ & acct0 & Ha0 & _)];
         [lia|by eexists]. }
  cbn [res_bind]. unfold ensure_pending_asm_logs_fit, saturating_add_u64.
  pose proof (bf_pending a b Hfit) as Hp. rewrite Ha in Hp. simpl in Hp.
  assert (MAX_PENDING_ASM_LOGS = 262144) as Hmax by reflexivity.
  replace (if iw_reset (wb_intraepoch_writes b) then 0 else _)
    with (zlen (if iw_reset (wb_intraepoch_writes b) then []
                else is_pending_asm_logs (ol_intraepoch (mem_state m)))) by (by case_match).
  destruct (_ <? _) eqn:Hlt; [|done]. zbool. rewrite Hmax in *. unfold_widths. lia.
Qed.

(** ** The new and the updated accounts *)

Lemma take_new_accounts_spec ids (writes : gmap AccountId OLAccountState) news rest :
  NoDup ids -> (forall id, id ∈ ids -> is_Some (writes !! id)) ->
  take_new_accounts ids writes = (news, rest) ->
  news.*1 = ids /\ (forall id st, (id, st) ∈ news -> writes !! id = Some st) /\
  (forall id, rest !! id = if decide (id ∈ ids) then None else writes !! id).
Proof.
  revert writes news rest. induction ids as [|id ids IH]; intros writes news rest Hnd Hall Heq.
  { simpl in Heq. simplify_eq. split_and!; [done| |done]. intros id st Hin. by apply not_elem_of_nil in Hin. }
  apply NoDup_cons in Hnd as [Hni Hnd]. cbn [take_new_accounts] in Heq.
  destruct (Hall id) as [st Hst]; [by left|]. rewrite Hst in Heq.
  destruct (take_new_accounts ids (delete id writes)) as [news' rest'] eqn:Hrec. simplify_eq.
  apply IH in Hrec as (Hids & Hin & Hrest); [|done|].
  2: { intros id' Hid'. rewrite lookup_delete_ne by (intros ->; done). apply Hall. by right. }
  split_and!.
  - rewrite fmap_cons, Hids. done.
  - intros id' st' [Heq|Hin']%elem_of_cons; [by simplify_eq|].
    apply Hin in Hin'. apply lookup_delete_Some in Hin' as [_ ?]. done.
  - intros id'. rewrite Hrest. destruct (decide (id = id')) as [<-|Hne].
    + rewrite decide_False by done. rewrite decide_True by (by left). apply lookup_delete_eq.
    + rewrite lookup_delete_ne by done.
      destruct (decide (id' ∈ ids)), (decide (id' ∈ id :: ids)) as [Hd|Hd]; try done; exfalso.
      * apply Hd. by right.
      * apply elem_of_cons in Hd as [|]; congruence.
Qed.

Lemma apply_new_accounts_run news s :
  tbl_wf (ol_ledger s) -> NoDup news.*1 ->
  (forall id, id ∈ news.*1 -> tbl_map (ol_ledger s) !! id = None) ->
  zlen (tbl_accounts (ol_ledger s)) + zlen news <= MAX_LEDGER_ACCOUNTS ->
  exists t', miter apply_new_account news s = (Ok tt, ol_set_ledger s t') /\ tbl_wf t' /\
    tbl_map t' = list_to_map news ∪ tbl_map (ol_ledger s).
Proof.
  revert s. induction news as [|[id st] news IH]; intros s Ht Hnd Hnone Hlen.
  { exists (ol_ledger s). simpl. unfold mret. split; [by destruct s|]. split; [done|].
    by rewrite map_empty_union. }
  simpl in Hnd. apply NoDup_cons in Hnd as [Hni Hnd]. autorewrite with zlen in Hlen.
  pose proof (zlen_nonneg news).
  destruct (tbl_create_account_fresh (ol_ledger s) id st Ht) as (t1 & Hc & Ht1 & Hm1 & Hl1).
  { apply Hnone. by left. }
  { lia. }
  destruct (IH (ol_set_ledger s t1)) as (t' & Hrun & Ht' & Hm').
  - done.
  - done.
  - intros id' Hin. simpl. rewrite Hm1, lookup_insert_ne by (intros ->; done). apply Hnone. by right.
  - simpl. lia.
  - exists t'. cbn [miter]. rewrite (mbind_ok _ _ _ tt (ol_set_ledger s t1)).
    + split; [rewrite Hrun; done|]. split; [done|]. simpl in Hm'. rewrite Hm', Hm1. simpl.
      rewrite <- insert_union_l. symmetry. apply insert_union_r. by apply not_elem_of_list_to_map_1.
    + unfold apply_new_account, mexpect, on_ledger. simpl. by rewrite Hc.
Qed.

Lemma apply_updated_accounts_run l s :
  tbl_wf (ol_ledger s) -> NoDup l.*1 ->
  (forall id, id ∈ l.*1 -> is_Some (tbl_map (ol_ledger s) !! id)) ->
  exists t', miter apply_updated_account l s = (Ok tt, ol_set_ledger s t') /\ tbl_wf t' /\
    tbl_map t' = list_to_map l ∪ tbl_map (ol_ledger s).
Proof.
  revert s. induction l as [|[id st] l IH]; intros s Ht Hnd Hsome.
  { exists (ol_ledger s). simpl. unfold mret. split; [by destruct s|]. split; [done|].
    by rewrite map_empty_union. }
  simpl in Hnd. apply NoDup_cons in Hnd as [Hni Hnd].
  destruct (Hsome id) as [old Hold]; [by left|].
  destruct (get_acct_entry_idx_Some _ _ _ Ht Hold) as (i & Hi & He).
  destruct (tbl_set_account_state_spec _ _ i _ st Ht He) as [Ht1 Hm1].
  destruct (IH (ol_set_ledger s (tbl_set_account_state (ol_ledger s) i st))) as (t' & Hrun & Ht' & Hm').
  - done.
  - done.
  - intros id' Hin. simpl. rewrite Hm1, lookup_insert_ne by (intros ->; done). apply Hsome. by right.
  - exists t'. cbn [miter]. rewrite (mbind_ok _ _ _ tt
      (ol_set_ledger s (tbl_set_account_state (ol_ledger s) i st))).
    + split; [rewrite Hrun; done|]. split; [done|]. simpl in Hm'. rewrite Hm', Hm1. simpl.
      rewrite <- insert_union_l. symmetry. apply insert_union_r. by apply not_elem_of_list_to_map_1.
    + unfold apply_updated_account. simpl. by rewrite Hi.
Qed.

Lemma apply_pending_run l s :
  zlen (is_pending_asm_logs (ol_intraepoch s)) + zlen l <= MAX_PENDING_ASM_LOGS ->
  miter (fun e => mexpect (F := StateError) (on_intraepoch (try_append_pending_log e))) l s =
  (Ok tt, ol_set_intraepoch s {| is_pending_asm_logs := is_pending_asm_logs (ol_intraepoch s) ++ l |}).
Proof.
  revert s. induction l as [|e l IH]; intros s Hlen.
  { rewrite app_nil_r. by destruct s as [? ? [] ?]. }
  autorewrite with zlen in Hlen. pose proof (zlen_nonneg l). cbn [miter].
  rewrite (mbind_ok _ _ _ tt (ol_set_intraepoch s
    {| is_pending_asm_logs := is_pending_asm_logs (ol_intraepoch s) ++ [e] |})).
  - rewrite IH; simpl.
    + rewrite <- app_assoc. done.
    + autorewrite with zlen. lia.
  - unfold mexpect, on_intraepoch, try_append_pending_log.
    destruct (_ <? _) eqn:Hlt; [done|]. zbool. lia.
Qed.

Lemma apply_global_writes_spec w s :
  apply_global_writes w s =
  ol_set_global s {| gs_cur_slot := or_base (gw_cur_slot w) (gs_cur_slot (ol_global s));
    gs_next_avail_serial := gs_next_avail_serial (ol_global s);
    gs_limbo_funds_sats := or_base (gw_limbo_funds_sats w) (gs_limbo_funds_sats (ol_global s)) |}.
Proof. destruct w as [[] []], s as [? [] ? ?]; reflexivity. Qed.

Lemma apply_epochal_writes_spec w s :
  apply_epochal_writes w s = ol_set_epoch s (apply_ew w (ol_epoch s)).
Proof. destruct w as [[] [] [] [] [] []], s as [[? ? [] ? ?] ? ? ?]; reflexivity. Qed.

Lemma tbl_size t : tbl_wf t -> Z.of_nat (size (tbl_map t)) = zlen (tbl_accounts t).
Proof.
  intros Hwf. unfold tbl_map. rewrite <- (size_dom (D := gset Z)), dom_list_to_map_L.
  rewrite size_list_to_set by (by apply keys_sorted_NoDup).
  unfold tbl_iter_account_states, zlen. by rewrite !length_fmap.
Qed.

(** ** The refinement theorem for batch application *)

(** The serial counter moves by the number of accounts created. *)
Lemma bump_next_serial_fits m a b (news : list (AccountId * OLAccountState)) t1 :
  mem_refines m a -> batch_fits a b -> zlen news = zlen (lwb_new_accounts (wb_ledger b)) ->
  bump_next_serial (zlen news) (ol_set_ledger (mem_state m) t1) =
    ol_set_global (ol_set_ledger (mem_state m) t1) (set_next_avail_serial (ol_global (mem_state m))
      (gs_next_avail_serial (ls_global a) + zlen (lwb_new_accounts (wb_ledger b)))).
Proof.
  intros Hr Hfit Hlen. pose proof Hr as [_ Ha Hwf]. unfold bump_next_serial. rewrite Hlen.
  set (ids := lwb_new_accounts (wb_ledger b)) in *. pose proof (fits_next_serial a b Hwf Hfit) as Hns.
  fold ids in Hns. pose proof (wf_next_serial a Hwf) as Hn. pose proof (zlen_nonneg ids).
  destruct (0 <? zlen ids) eqn:Hz; zbool; simpl.
  - rewrite (mem_next_serial m a Hr), (wrap_u32_id (zlen ids)) by (unfold_widths; lia).
    rewrite wrap_u32_id by (unfold_widths; lia). done.
  - assert (zlen ids = 0) as -> by lia. rewrite Z.add_0_r, Ha. simpl.
    unfold ol_set_global, ol_set_ledger. simpl. f_equal. by destruct (ol_global (mem_state m)).
Qed.

(** Writing new and updated accounts is writing all of them. *)
Lemma split_writes_union (ids : list AccountId) (news : list (AccountId * OLAccountState))
    (upd writes : gmap AccountId OLAccountState) :
  news.*1 = ids -> NoDup ids -> (forall id st, (id, st) ∈ news -> writes !! id = Some st) ->
  (forall id, upd !! id = if decide (id ∈ ids) then None else writes !! id) ->
  upd ∪ list_to_map news = writes.
Proof.
  intros Hids Hnd Hnews Hupd. apply map_eq. intros id. destruct (decide (id ∈ ids)) as [Hin|Hni].
  - rewrite lookup_union_r by (by rewrite Hupd, decide_True).
    rewrite <- Hids in Hin. apply list_elem_of_fmap in Hin as ([id' st] & -> & Hin).
    cbn [fst]. rewrite (Hnews _ _ Hin). apply elem_of_list_to_map; [|done]. by rewrite Hids.
  - rewrite lookup_union_l.
    + by rewrite Hupd, decide_False.
    + apply not_elem_of_list_to_map_1. by rewrite Hids.
Qed.

Lemma ol_apply_write_batch_run m a b :
  mem_refines m a -> batch_fits a b ->
  exists s', apply_write_batch b (mem_state m) = (Ok tt, s') /\ tbl_wf (ol_ledger s') /\
    forall serials, ol_abs s' serials =
      {| ls_epoch := ls_epoch (ls_apply a b); ls_global := ls_global (ls_apply a b);
         ls_pending := ls_pending (ls_apply a b); ls_accts := ls_accts (ls_apply a b);
         ls_serials := serials |}.
Proof.
  intros Hr Hfit. pose proof Hr as [Ht Ha Hwf]. unfold apply_write_batch.
  rewrite (mbind_ok _ _ _ tt (mem_state m)).
  2: { unfold mreads_res. by rewrite (check_write_batch_safe_fits m a b). }
  assert (Haccts : ls_accts a = tbl_map (ol_ledger (mem_state m))) by (by rewrite Ha).
  destruct (into_new_and_updated (wb_ledger b)) as [news upd] eqn:Hsplit.
  apply take_new_accounts_spec in Hsplit as (Hids & Hnews & Hupd); [|apply Hfit|].
  2: { intros id [i Hi]%list_elem_of_lookup.
       destruct (bf_new a b Hfit i id Hi) as (_ & acct & Hw & _). by eexists. }
  set (ids := lwb_new_accounts (wb_ledger b)) in *.
  set (writes := lwb_account_writes (wb_ledger b)) in *.
  assert (Hlen : zlen news = zlen ids) by (rewrite <- Hids; unfold zlen; by rewrite length_fmap).
  destruct (apply_new_accounts_run news (mem_state m)) as (t1 & Hrun1 & Ht1 & Hm1); [done| | | |].
  { rewrite Hids. apply Hfit. }
  { intros id. rewrite Hids. intros [i Hi]%list_elem_of_lookup. rewrite <- Haccts.
    apply (bf_new a b Hfit i id Hi). }
  { rewrite <- tbl_size, <- Haccts, Hlen by done. apply Hfit. }
  rewrite (mbind_ok _ _ _ _ _ Hrun1), mbind_mmodify.
  rewrite (bump_next_serial_fits m a b _ _ Hr Hfit Hlen). fold ids.
  destruct (apply_updated_accounts_run (btree_iter upd) (ol_set_global (ol_set_ledger (mem_state m) t1)
    (set_next_avail_serial (ol_global (mem_state m)) (gs_next_avail_serial (ls_global a) + zlen ids))))
    as (t2 & Hrun2 & Ht2 & Hm2); [done|apply btree_iter_NoDup| |].
  { intros id ([id' st] & -> & Hin)%list_elem_of_fmap. apply elem_of_btree_iter in Hin. simpl.
    rewrite Hupd in Hin. destruct (decide _) as [|Hni]; [done|]. rewrite Hm1.
    destruct (bf_upd a b Hfit _ _ Hin Hni) as (acct0 & Ha0 & _). rewrite <- Haccts.
    apply lookup_union_is_Some. right. by eexists. }
  rewrite (mbind_ok _ _ _ _ _ Hrun2). rewrite !mbind_mmodify.
  rewrite apply_global_writes_spec, apply_epochal_writes_spec.
  rewrite apply_pending_run.
  2: { pose proof (bf_pending a b Hfit) as Hp. rewrite Ha in Hp. simpl in Hp.
       case_match; simpl in *; done. }
  eexists. split; [done|]. split; [by case_match|]. intros serials.
  assert (Hacc : tbl_map t2 = writes ∪ ls_accts a).
  { rewrite Hm2. simpl. rewrite btree_iter_map, Hm1, <- Haccts, map_union_assoc. f_equal.
    apply (split_writes_union ids); [done|apply Hfit|done|done]. }
  unfold ol_abs. f_equal; [| | |case_match; exact Hacc];
    unfold ls_apply; case_match; rewrite Ha; reflexivity.
Qed.

Lemma fold_insert_union l (s : gmap AccountSerial AccountId) :
  NoDup l.*1 -> fold_left (fun s p => <[p.1 := p.2]> s) l s = list_to_map l ∪ s.
Proof.
  revert s. induction l as [|[n id] l IH]; intros s Hnd; simpl; [by rewrite map_empty_union|].
  simpl in Hnd. apply NoDup_cons in Hnd as [Hni Hnd]. rewrite IH by done.
  rewrite <- insert_union_l. symmetry. apply insert_union_r. by apply not_elem_of_list_to_map_1.
Qed.

Lemma check_serials_free_fits (a : LState) (b : WriteBatch) :
  ls_wf a -> batch_fits a b ->
  check_serials_free (ls_serials a) (lwb_iter_new_accounts (wb_ledger b)) = Ok tt.
Proof.
  intros Hwf Hfit.
  assert (Hall : forall n id, (n, id) ∈ lwb_iter_new_accounts (wb_ledger b) -> ls_serials a !! n = None).
  { intros n id Hin. rewrite (fits_iter a b Hfit) in Hin. apply list_elem_of_lookup in Hin as [i Hi].
    rewrite list_lookup_imap in Hi. destruct (lwb_new_accounts _ !! i); simplify_eq/=.
    destruct (ls_serials a !! _) as [id'|] eqn:Hs; [|done]. exfalso.
    apply (wf_serials a Hwf) in Hs as (acct & Hacct & Heq).
    pose proof (wf_serial_range a Hwf _ _ Hacct). lia. }
  induction (lwb_iter_new_accounts (wb_ledger b)) as [|[n id] l IH]; [done|]. simpl.
  rewrite (Hall n id) by (by left). apply IH. intros n' id' Hin. apply (Hall n' id'). by right.
Qed.

Lemma mem_apply_write_batch_refines m a b :
  mem_refines m a -> batch_fits a b ->
  exists m', mem_apply_write_batch b m = (Ok tt, m') /\ mem_refines m' (ls_apply a b).
Proof.
  intros Hr Hfit. pose proof Hr as [Ht Ha Hwf]. unfold mem_apply_write_batch.
  rewrite (mbind_ok _ _ _ tt m).
  2: { unfold mreads_res. replace (mem_serials m) with (ls_serials a) by (by rewrite Ha).
       by rewrite check_serials_free_fits. }
  destruct (ol_apply_write_batch_run m a b Hr Hfit) as (s' & Hrun & Ht' & Habs).
  rewrite (mbind_ok _ _ _ tt (mem_set_state m s')) by (unfold on_state; by rewrite Hrun).
  eexists. split; [reflexivity|]. split; simpl.
  - done.
  - rewrite Habs. rewrite fold_insert_union.
    + rewrite Ha. reflexivity.
    + rewrite (fits_iter a b Hfit). apply NoDup_alt. intros i j x.
      rewrite !list_lookup_fmap, !list_lookup_imap.
      destruct (_ !! i), (_ !! j); simpl; intros; simplify_eq. lia.
  - by apply ls_apply_wf.
Qed.

(** The root computed with pending batches is the root of the state they lead to. *)
Lemma mem_compute_root_with_writes m a bs :
  mem_refines m a -> batches_fit a bs ->
  compute_state_root_with_writes m bs = Ok (ls_root (fold_left ls_apply bs a)).
Proof.
  intros Hr Hfit. simpl.
  assert (exists s', miter apply_write_batch bs (mem_state m) = (Ok tt, s') /\
    concretize (fold_left ls_apply bs a) = s') as (s' & -> & Hs).
  2: { unfold ls_root. by rewrite Hs. }
  revert m a Hr Hfit. induction bs as [|b bs IH]; intros m a Hr Hfit.
  - destruct Hr as [Ht -> Hwf]. eexists. split; [done|]. simpl. by apply concretize_abs.
  - destruct Hfit as [Hfit Hrest]. cbn [miter].
    destruct (ol_apply_write_batch_run m a b Hr Hfit) as (s1 & Hrun & Ht1 & Habs).
    rewrite (mbind_ok _ _ _ _ _ Hrun). cbn [fold_left].
    apply (IH {| mem_state := s1; mem_serials := ls_serials (ls_apply a b) |}); [|done].
    split; [done| |apply ls_apply_wf; [apply Hr|done]]. simpl. by rewrite Habs.
Qed.

(** ** Errors leave the state alone *)

Lemma mexpect_no_err {E F S A} (m : M E S A) s e s' : mexpect (F := F) m s <> (Err e, s').
Proof. unfold mexpect. destruct (m s) as [[]]; congruence. Qed.

Lemma miter_no_err {E S A} (f : A -> M E S unit) l s e s' :
  (forall x s e s', f x s <> (Err e, s')) -> miter f l s <> (Err e, s').
Proof.
  intros Hf. revert s. induction l as [|x l IH]; intros s; simpl; [unfold mret; congruence|].
  unfold mbind. destruct (f x s) as [[]] eqn:Hx; [apply IH|exfalso; by eapply Hf|congruence].
Qed.

Lemma ol_apply_write_batch_err b s e s' : apply_write_batch b s = (Err e, s') -> s' = s.
Proof.
  unfold apply_write_batch. unfold mbind at 1, mreads_res.
  destruct (check_write_batch_safe s b); [|intros; by simplify_eq..].
  destruct (into_new_and_updated (wb_ledger b)) as [news upd].
  unfold mbind at 1. destruct (miter apply_new_account news s) as [[]] eqn:H1; [| |congruence].
  2: { exfalso. eapply miter_no_err; [|exact H1]. intros. apply mexpect_no_err. }
  rewrite mbind_mmodify. unfold mbind at 1.
  destruct (miter apply_updated_account _ _) as [[]] eqn:H2; [| |congruence].
  2: { exfalso. eapply miter_no_err; [|exact H2]. intros x s2 e2 s2'. unfold apply_updated_account.
       case_match; congruence. }
  rewrite !mbind_mmodify. intros H3.
  exfalso. eapply miter_no_err; [|exact H3]. intros. apply mexpect_no_err.
Qed.

Lemma mem_apply_write_batch_err b m e m' : mem_apply_write_batch b m = (Err e, m') -> m' = m.
Proof.
  unfold mem_apply_write_batch. unfold mbind at 1, mreads_res.
  destruct (check_serials_free _ _); [|intros; by simplify_eq..].
  unfold mbind, on_state. destruct (apply_write_batch b (mem_state m)) as [[]] eqn:Ha; simpl.
  - unfold mmodify. congruence.
  - intros; simplify_eq. apply ol_apply_write_batch_err in Ha as ->. by destruct m.
  - congruence.
Qed.
End apply.
