(* ===== verification/WriteTracking.v ===== *)
(** * The write-tracking layer
    ([crates/ol/state-support-types/src/write_tracking_layer.rs])

    A layer that answers reads from a write batch before a base state and
    records all writes in the batch.  Over any base that refines the abstract
    ledger, the layer refines the ledger the batch leads to, so running over it
    and then applying the batch is running on the base. *)

From S2P Require Import Prelude SortedMap Identifiers AcctTypes ChainTypes Externals.
From S2P Require Import LedgerTypes OLAccount WriteBatch OLState StateAccessor LedgerSpec.
From S2P Require Import MemoryLayer BatchApply.

(** What a layer needs of the state below it. *)
Class BaseSim `{XR : ExtRoot} {S} `{!IStateAccessor S, !IComputeStateRootWithWrites S}
    (R : S -> LState -> Prop) : Prop := {
  bs_read :: ReadSim R;
  bs_wf s a : R s a -> ls_wf a;
  bs_root s a bs : R s a -> batches_fit a bs ->
    compute_state_root_with_writes s bs = Ok (ls_root (fold_left ls_apply bs a));
}.

#[export] Instance mem_base_sim `{XR : ExtRoot} `{!SerialLaws X} : BaseSim mem_refines.
Proof.
  split.
  - apply _.
  - intros s a Hr. apply Hr.
  - intros s a bs. apply mem_compute_root_with_writes.
Qed.

Section wt.
Context `{XR : ExtRoot} {S : Type} `{!IStateAccessor S, !IComputeStateRootWithWrites S}.

Record WriteTrackingState := { wt_base : S; wt_batch : WriteBatch }.

Definition WriteTrackingState_new_empty (base : S) : WriteTrackingState :=
  {| wt_base := base; wt_batch := WriteBatch_default |}.

Definition wt_limbo_funds (w : WriteTrackingState) : BitcoinAmount :=
  or_base (gw_limbo_funds_sats (wb_global_writes (wt_batch w))) (limbo_funds (wt_base w)).

Definition wt_base_pending_len (w : WriteTrackingState) : Z :=
  if iw_reset (wb_intraepoch_writes (wt_batch w)) then 0 else pending_asm_logs_len (wt_base w).

Definition wt_pending_asm_logs_len (w : WriteTrackingState) : Z :=
  wt_base_pending_len w + zlen (iw_appended (wb_intraepoch_writes (wt_batch w))).

Definition wt_get_pending_asm_log (w : WriteTrackingState) (idx : Z) : option PendingAsmLog :=
  let base_len := wt_base_pending_len w in
  if idx <? base_len then get_pending_asm_log (wt_base w) idx
  else iw_appended (wb_intraepoch_writes (wt_batch w)) !! Z.to_nat (idx - base_len).

Definition wt_check_account_exists (w : WriteTrackingState) (id : AccountId) : res StateError bool :=
  if lwb_contains_account (wb_ledger (wt_batch w)) id then Ok true
  else check_account_exists (wt_base w) id.

Definition wt_get_account_state (w : WriteTrackingState) (id : AccountId)
    : res StateError (option OLAccountState) :=
  match lwb_get_account (wb_ledger (wt_batch w)) id with
  | Some st => Ok (Some st)
  | None => get_account_state (wt_base w) id
  end.

Definition wt_find_account_id_by_serial (w : WriteTrackingState) (serial : AccountSerial)
    : res StateError (option AccountId) :=
  match lwb_find_id_by_serial (wb_ledger (wt_batch w)) serial with
  | Some id => Ok (Some id)
  | None => find_account_id_by_serial (wt_base w) serial
  end.

Definition wt_next_account_serial (w : WriteTrackingState) : AccountSerial :=
  wrap_u32 (next_account_serial (wt_base w) + wrap_u32 (zlen (lwb_new_accounts (wb_ledger (wt_batch w))))).

#[export] Instance wt_accessor : IStateAccessor WriteTrackingState := {
  cur_slot w := or_base (gw_cur_slot (wb_global_writes (wt_batch w))) (cur_slot (wt_base w));
  limbo_funds := wt_limbo_funds;
  cur_epoch w := or_base (ew_cur_epoch (wb_epochal_writes (wt_batch w))) (cur_epoch (wt_base w));
  last_l1_blkid w := or_base (ew_last_l1_blkid (wb_epochal_writes (wt_batch w))) (last_l1_blkid (wt_base w));
  last_l1_height w := or_base (ew_last_l1_height (wb_epochal_writes (wt_batch w))) (last_l1_height (wt_base w));
  asm_recorded_epoch w :=
    or_base (ew_asm_recorded_epoch (wb_epochal_writes (wt_batch w))) (asm_recorded_epoch (wt_base w));
  total_ledger_balance w :=
    or_base (ew_total_ledger_balance (wb_epochal_writes (wt_batch w))) (total_ledger_balance (wt_base w));
  l1_block_refs_mmr w :=
    or_base (ew_l1_block_refs_mmr (wb_epochal_writes (wt_batch w))) (l1_block_refs_mmr (wt_base w));
  pending_asm_logs_len := wt_pending_asm_logs_len;
  get_pending_asm_log := wt_get_pending_asm_log;
  pending_asm_logs_full w := wt_pending_asm_logs_len w =? MAX_PENDING_ASM_LOGS;
  check_account_exists := wt_check_account_exists;
  get_account_state := wt_get_account_state;
  find_account_id_by_serial := wt_find_account_id_by_serial;
  next_account_serial := wt_next_account_serial;
  compute_state_root w := compute_state_root_with_writes (wt_base w) [wt_batch w];
}.

#[export] Instance wt_root_with_writes : IComputeStateRootWithWrites WriteTrackingState := {
  compute_state_root_with_writes w writes :=
    compute_state_root_with_writes (wt_base w) (wt_batch w :: writes);
}.

Definition wt_set_batch (w : WriteTrackingState) (b : WriteBatch) : WriteTrackingState :=
  {| wt_base := wt_base w; wt_batch := b |}.

Definition wt_set_gw (w : WriteTrackingState) (g : GlobalStateWrites) : WriteTrackingState :=
  wt_set_batch w (wb_set_global (wt_batch w) g).
Definition wt_set_ew (w : WriteTrackingState) (e : EpochalStateWrites) : WriteTrackingState :=
  wt_set_batch w (wb_set_epochal (wt_batch w) e).
Definition wt_set_iw (w : WriteTrackingState) (i : IntraepochStateWrites) : WriteTrackingState :=
  wt_set_batch w (wb_set_intraepoch (wt_batch w) i).

Definition wt_set_cur_slot (slot : Slot) (w : WriteTrackingState) : WriteTrackingState :=
  wt_set_gw w {| gw_cur_slot := Some slot;
                 gw_limbo_funds_sats := gw_limbo_funds_sats (wb_global_writes (wt_batch w)) |}.
Definition wt_set_limbo (sats : Z) (w : WriteTrackingState) : WriteTrackingState :=
  wt_set_gw w {| gw_cur_slot := gw_cur_slot (wb_global_writes (wt_batch w));
                 gw_limbo_funds_sats := Some sats |}.

Definition wt_add_limbo_funds_coin (coin : Coin) : M StateError WriteTrackingState unit := fun w =>
  let cur := wt_limbo_funds w in
  match amt_checked_add cur (coin_amt coin) with
  | None => (Err (LimboFundsOverflow cur (coin_amt coin)), w)
  | Some new => (Ok tt, wt_set_limbo new w)
  end.

Definition wt_take_limbo_funds_coin (amt : BitcoinAmount) : M StateError WriteTrackingState Coin := fun w =>
  let cur := wt_limbo_funds w in
  match amt_checked_sub cur amt with
  | None => (Err (InsufficientLimboFunds amt cur), w)
  | Some new => (Ok {| coin_amt := amt |}, wt_set_limbo new w)
  end.

Definition wt_set_cur_epoch (epoch : Epoch) (w : WriteTrackingState) : WriteTrackingState :=
  let e := wb_epochal_writes (wt_batch w) in
  wt_set_ew w {| ew_cur_epoch := Some epoch; ew_last_l1_blkid := ew_last_l1_blkid e;
    ew_last_l1_height := ew_last_l1_height e; ew_asm_recorded_epoch := ew_asm_recorded_epoch e;
    ew_total_ledger_balance := ew_total_ledger_balance e; ew_l1_block_refs_mmr := ew_l1_block_refs_mmr e |}.

Definition wt_append_l1_block_rec (height : L1Height) (rec : L1BlockRecord)
    : M StateError WriteTrackingState unit := fun w =>
  let e := wb_epochal_writes (wt_batch w) in
  let mmr := or_base (ew_l1_block_refs_mmr e) (l1_block_refs_mmr (wt_base w)) in
  match append_l1_block_rec_to_mmr mmr rec with
  | Ok mmr =>
      (Ok tt, wt_set_ew w {| ew_cur_epoch := ew_cur_epoch e; ew_last_l1_blkid := Some (l1r_block_hash rec);
        ew_last_l1_height := Some height; ew_asm_recorded_epoch := ew_asm_recorded_epoch e;
        ew_total_ledger_balance := ew_total_ledger_balance e; ew_l1_block_refs_mmr := Some mmr |})
  | Err x => (Err x, w)
  | Panic => (Panic, w)
  end.

Definition wt_set_asm_recorded_epoch (ec : EpochCommitment) (w : WriteTrackingState) : WriteTrackingState :=
  let e := wb_epochal_writes (wt_batch w) in
  wt_set_ew w {| ew_cur_epoch := ew_cur_epoch e; ew_last_l1_blkid := ew_last_l1_blkid e;
    ew_last_l1_height := ew_last_l1_height e; ew_asm_recorded_epoch := Some ec;
    ew_total_ledger_balance := ew_total_ledger_balance e; ew_l1_block_refs_mmr := ew_l1_block_refs_mmr e |}.

Definition wt_set_total_ledger_balance (amt : BitcoinAmount) (w : WriteTrackingState) : WriteTrackingState :=
  let e := wb_epochal_writes (wt_batch w) in
  wt_set_ew w {| ew_cur_epoch := ew_cur_epoch e; ew_last_l1_blkid := ew_last_l1_blkid e;
    ew_last_l1_height := ew_last_l1_height e; ew_asm_recorded_epoch := ew_asm_recorded_epoch e;
    ew_total_ledger_balance := Some amt; ew_l1_block_refs_mmr := ew_l1_block_refs_mmr e |}.

Definition ensure_pending_asm_log_slot_available (current_len : Z) : res StateError unit :=
  if MAX_PENDING_ASM_LOGS <=? current_len then Err PendingAsmLogsFull else Ok tt.

Definition wt_try_append_pending_asm_log (entry : PendingAsmLog) : M StateError WriteTrackingState unit :=
  mreads_res (fun w => ensure_pending_asm_log_slot_available (wt_pending_asm_logs_len w)) ;;;
  mmodify (fun w => let iw := wb_intraepoch_writes (wt_batch w) in
    wt_set_iw w {| iw_reset := iw_reset iw; iw_appended := iw_appended iw ++ [entry] |}).

Definition wt_reset_intraepoch_state (w : WriteTrackingState) : WriteTrackingState :=
  wt_set_iw w {| iw_reset := true; iw_appended := [] |}.

(** Copy-on-write: the account is brought into the batch before it is updated. *)
Definition wt_fetch_account (id : AccountId) : M StateError WriteTrackingState unit := fun w =>
  if lwb_contains_account (wb_ledger (wt_batch w)) id then (Ok tt, w)
  else match get_account_state (wt_base w) id with
       | Ok (Some acct) =>
           (Ok tt, wt_set_batch w (wb_set_ledger (wt_batch w) (lwb_update_account (wb_ledger (wt_batch w)) id acct)))
       | Ok None => (Err (MissingAccount id), w)
       | Err e => (Err e, w)
       | Panic => (Panic, w)
       end.

Definition wt_update_account {E R} (id : AccountId) (f : M E OLAccountState R)
    : M StateError WriteTrackingState (res E R) :=
  wt_fetch_account id ;;;
  (fun w => match lwb_get_account (wb_ledger (wt_batch w)) id with
            | None => (Panic, w)
            | Some acct =>
                run_account f acct (fun acct' =>
                  wt_set_batch w (wb_set_ledger (wt_batch w)
                    (lwb_update_account (wb_ledger (wt_batch w)) id acct')))
            end).

Definition wt_create_new_account (id : AccountId) (d : NewAccountData)
    : M StateError WriteTrackingState AccountSerial :=
  let* exists_ := mreads_res (fun w => wt_check_account_exists w id) in
  if exists_ then merr (AccountExists id) else
  let* serial := mreads wt_next_account_serial in
  (fun w => match create_account_from_data id d serial (wb_ledger (wt_batch w)) with
            | (r, l) => (res_bind r (fun _ => Ok serial), wt_set_batch w (wb_set_ledger (wt_batch w) l))
            end).

#[export] Instance wt_accessor_mut : IStateAccessorMut WriteTrackingState := {
  mut_accessor := wt_accessor;
  set_cur_slot slot := mmodify (wt_set_cur_slot slot);
  add_limbo_funds_coin := wt_add_limbo_funds_coin;
  take_limbo_funds_coin := wt_take_limbo_funds_coin;
  set_cur_epoch epoch := mmodify (wt_set_cur_epoch epoch);
  append_l1_block_rec := wt_append_l1_block_rec;
  set_asm_recorded_epoch ec := mmodify (wt_set_asm_recorded_epoch ec);
  set_total_ledger_balance amt := mmodify (wt_set_total_ledger_balance amt);
  try_append_pending_asm_log := wt_try_append_pending_asm_log;
  reset_intraepoch_state := mmodify wt_reset_intraepoch_state;
  AcctMut := OLAccountState;
  update_account E R := wt_update_account;
  create_new_account := wt_create_new_account;
}.
End wt.

Arguments WriteTrackingState {_} S.

(** ** Refinement *)

Section wt_refine.
Context `{XR : ExtRoot} {S : Type} `{!IStateAccessor S, !IComputeStateRootWithWrites S}.
Context (Rb : S -> LState -> Prop) `{!BaseSim Rb}.

(** The batch fits the base and leads to the abstract state. *)
Inductive wt_refines (w : WriteTrackingState S) (a : LState) : Prop :=
| wt_refines_intro (ab : LState) (Hr : Rb (wt_base w) ab) (Hfit : batch_fits ab (wt_batch w))
    (Ha : a = ls_apply ab (wt_batch w)).

Lemma batch_fits_empty a : ls_wf a -> batch_fits a WriteBatch_default.
Proof.
  intros Hwf. split; simpl.
  - split; simpl; done.
  - done.
  - constructor.
  - intros i id Hi. by destruct i.
  - intros id acct Hl. done.
  - pose proof (wf_size a Hwf). unfold zlen. simpl. lia.
  - pose proof (wf_pending a Hwf). unfold zlen in *. simpl. lia.
Qed.

Lemma ls_apply_empty a : ls_apply a WriteBatch_default = a.
Proof.
  unfold ls_apply, apply_ew, apply_gw, lwb_iter_new_accounts, SerialMap_iter. simpl.
  rewrite !map_empty_union, app_nil_r. unfold zlen. simpl. rewrite Z.add_0_r.
  by destruct a as [[? ? [] ? ?] [] ? ? ?].
Qed.

Lemma wt_refines_empty s a : Rb s a -> wt_refines (WriteTrackingState_new_empty s) a.
Proof.
  intros Hr. exists a; simpl; [done|apply batch_fits_empty, (bs_wf s a Hr)|by rewrite ls_apply_empty].
Qed.

Lemma wt_pending_len w ab :
  Rb (wt_base w) ab ->
  wt_base_pending_len w = zlen (if iw_reset (wb_intraepoch_writes (wt_batch w)) then [] else ls_pending ab).
Proof. intros Hr. unfold wt_base_pending_len. case_match; [done|]. exact (rs_pending_asm_logs_len _ _ Hr). Qed.

Lemma wt_pending_total w a : wt_refines w a -> wt_pending_asm_logs_len w = zlen (ls_pending a).
Proof.
  intros [ab Hr Hfit ->]. unfold wt_pending_asm_logs_len. rewrite (wt_pending_len w ab Hr). simpl.
  by rewrite zlen_app.
Qed.

Lemma wt_get_pending w a i : wt_refines w a -> 0 <= i -> wt_get_pending_asm_log w i = ls_pending a !! Z.to_nat i.
Proof.
  intros [ab Hr Hfit ->] Hi. unfold wt_get_pending_asm_log. rewrite (wt_pending_len w ab Hr). simpl.
  destruct (_ <? _) eqn:Hlt; zbool.
  - rewrite (rs_get_pending_asm_log _ _ _ Hr Hi). simpl.
    destruct (iw_reset _); [unfold zlen in Hlt; simpl in Hlt; lia|].
    rewrite lookup_app_l; [done|]. unfold zlen in Hlt. lia.
  - rewrite lookup_app_r by (unfold zlen in Hlt; lia). f_equal. unfold zlen in *. lia.
Qed.

Lemma wt_lookup_account w ab id :
  Rb (wt_base w) ab ->
  wt_get_account_state w id = Ok ((lwb_account_writes (wb_ledger (wt_batch w)) ∪ ls_accts ab) !! id).
Proof.
  intros Hr. unfold wt_get_account_state, lwb_get_account. rewrite lookup_union.
  destruct (_ !! id) as [x|]; simpl; [by destruct (ls_accts ab !! id)|].
  rewrite (rs_get_account_state _ _ id Hr). simpl. by destruct (ls_accts ab !! id).
Qed.

Lemma wt_account_exists w ab id :
  Rb (wt_base w) ab ->
  wt_check_account_exists w id =
  Ok (match (lwb_account_writes (wb_ledger (wt_batch w)) ∪ ls_accts ab) !! id with
      | Some _ => true | None => false end).
Proof.
  intros Hr. unfold wt_check_account_exists, lwb_contains_account. rewrite lookup_union.
  destruct (_ !! id) as [x|]; simpl; [by destruct (ls_accts ab !! id)|].
  rewrite (rs_check_account_exists _ _ id Hr). simpl. by destruct (ls_accts ab !! id).
Qed.

Lemma wt_next_serial w a :
  wt_refines w a -> wt_next_account_serial w = gs_next_avail_serial (ls_global a).
Proof.
  intros [ab Hr Hfit ->]. unfold wt_next_account_serial. rewrite (rs_next_account_serial _ _ Hr). simpl.
  pose proof (fits_next_serial ab _ (bs_wf _ _ Hr) Hfit) as Hns.
  pose proof (wf_next_serial ab (bs_wf _ _ Hr)) as Hn.
  pose proof (zlen_nonneg (lwb_new_accounts (wb_ledger (wt_batch w)))).
  rewrite (wrap_u32_id (zlen _)) by (unfold_widths; lia).
  apply wrap_u32_id. unfold_widths. lia.
Qed.

#[export] Instance wt_read_sim : ReadSim wt_refines.
Proof.
  split; intros w a.
  - intros [ab Hr Hfit ->]. simpl. by rewrite (rs_cur_slot _ _ Hr).
  - intros [ab Hr Hfit ->]. simpl. unfold wt_limbo_funds. by rewrite (rs_limbo_funds _ _ Hr).
  - intros [ab Hr Hfit ->]. simpl. by rewrite (rs_cur_epoch _ _ Hr).
  - intros [ab Hr Hfit ->]. simpl. by rewrite (rs_last_l1_blkid _ _ Hr).
  - intros [ab Hr Hfit ->]. simpl. by rewrite (rs_last_l1_height _ _ Hr).
  - intros [ab Hr Hfit ->]. simpl. by rewrite (rs_asm_recorded_epoch _ _ Hr).
  - intros [ab Hr Hfit ->]. simpl. by rewrite (rs_total_ledger_balance _ _ Hr).
  - intros [ab Hr Hfit ->]. simpl. by rewrite (rs_l1_block_refs_mmr _ _ Hr).
  - apply wt_pending_total.
  - intros i. apply wt_get_pending.
  - intros Hw. simpl. by rewrite (wt_pending_total w a Hw).
  - intros id [ab Hr Hfit ->]. simpl. by rewrite (wt_account_exists w ab id Hr).
  - intros id [ab Hr Hfit ->]. simpl. by rewrite (wt_lookup_account w ab id Hr).
  - intros n [ab Hr Hfit ->]. simpl. unfold wt_find_account_id_by_serial, lwb_find_id_by_serial.
    rewrite (fits_get_serial ab _ Hfit), lookup_union, (rs_find_account_id_by_serial _ _ n Hr). simpl.
    by destruct (_ !! n), (ls_serials ab !! n).
  - apply wt_next_serial.
  - intros [ab Hr Hfit ->]. simpl. by rewrite (bs_root _ ab [wt_batch w] Hr).
Qed.

#[export] Instance wt_base_sim : BaseSim wt_refines.
Proof.
  split.
  - apply _.
  - intros w a [ab Hr Hfit ->]. apply ls_apply_wf; [by eapply bs_wf|done].
  - intros w a bs [ab Hr Hfit ->] Hbs. simpl. by rewrite (bs_root _ ab (wt_batch w :: bs) Hr).
Qed.
(** *** Writes *)

Lemma fits_set_global a b g : batch_fits a b -> batch_fits a (wb_set_global b g).
Proof. intros []. by split. Qed.
Lemma fits_set_epochal a b e : batch_fits a b -> batch_fits a (wb_set_epochal b e).
Proof. intros []. by split. Qed.

Lemma fits_set_intraepoch a b i :
  batch_fits a b ->
  zlen (if iw_reset i then [] else ls_pending a) + zlen (iw_appended i) <= MAX_PENDING_ASM_LOGS ->
  batch_fits a (wb_set_intraepoch b i).
Proof. intros [] Hi. by split. Qed.

Lemma fits_update a b id acct acct' :
  batch_fits a b ->
  (lwb_account_writes (wb_ledger b) ∪ ls_accts a) !! id = Some acct ->
  acct_serial acct = acct_serial acct' ->
  batch_fits a (wb_set_ledger b (lwb_update_account (wb_ledger b) id acct')).
Proof.
  intros Hfit Hl Hs. pose proof Hfit as [H1 H2 H3 H4 H5 H6 H7]. split; simpl; try done.
  - intros i id' Hi. destruct (H4 i id' Hi) as (Hn & x & Hx & Hsx). split; [done|].
    destruct (decide (id = id')) as [<-|Hne].
    + exists acct'. rewrite lookup_insert_eq. split; [done|].
      rewrite lookup_union_l' in Hl by (by eexists). simplify_eq. congruence.
    + exists x. by rewrite lookup_insert_ne.
  - intros id' x Hx Hni. destruct (decide (id = id')) as [<-|Hne].
    + rewrite lookup_insert_eq in Hx. simplify_eq.
      apply lookup_union_Some_raw in Hl as [Hw|[_ Ha]]; [|exists acct; split; congruence].
      destruct (H5 id acct Hw Hni) as (acct0 & Ha0 & Hs0). exists acct0. split; [done|congruence].
    + rewrite lookup_insert_ne in Hx by done. by apply H5.
Qed.

Lemma ls_apply_update a b id acct' :
  ls_apply a (wb_set_ledger b (lwb_update_account (wb_ledger b) id acct')) =
  ls_set_accts (ls_apply a b) (<[id := acct']> (ls_accts (ls_apply a b))).
Proof. unfold ls_apply, ls_set_accts. simpl. by rewrite insert_union_l. Qed.

(** Fetching an account does not change the state the layer stands for. *)
Lemma wt_fetch_account_run w a id acct :
  wt_refines w a -> ls_accts a !! id = Some acct ->
  exists w', wt_fetch_account id w = (Ok tt, w') /\ wt_refines w' a /\
    lwb_account_writes (wb_ledger (wt_batch w')) !! id = Some acct.
Proof.
  intros Hw Hl. pose proof Hw as [ab Hr Hfit ->]. unfold wt_fetch_account, lwb_contains_account.
  simpl in Hl. destruct (lwb_account_writes (wb_ledger (wt_batch w)) !! id) as [x|] eqn:Hx.
  { rewrite lookup_union_l' in Hl by (by eexists). exists w. simplify_eq. done. }
  rewrite (rs_get_account_state _ _ id Hr). simpl.
  pose proof Hl as Hl'. rewrite lookup_union_r in Hl' by done. rewrite Hl'.
  eexists. split; [done|]. split; [|simpl; by rewrite lookup_insert_eq].
  exists ab; simpl; [done|by eapply fits_update|].
  rewrite ls_apply_update. unfold ls_set_accts. simpl. rewrite insert_id by done. done.
Qed.

Lemma wt_fetch_account_missing w a id :
  wt_refines w a -> ls_accts a !! id = None -> wt_fetch_account id w = (Err (MissingAccount id), w).
Proof.
  intros [ab Hr Hfit ->] Hl. simpl in Hl. apply lookup_union_None in Hl as [Hx Hl].
  unfold wt_fetch_account, lwb_contains_account. rewrite Hx.
  rewrite (rs_get_account_state _ _ id Hr). simpl. by rewrite Hl.
Qed.

Lemma wt_update_account_run {E Q} id (f : M E OLAccountState Q) w a :
  wt_refines w a -> updates_like (S := WriteTrackingState S) wt_refines (@eq OLAccountState) id f w a.
Proof.
  intros Hw. unfold updates_like. simpl. unfold wt_update_account.
  destruct (ls_accts a !! id) as [acct|] eqn:Hl.
  - destruct (wt_fetch_account_run w a id acct Hw Hl) as (w' & Hrun & Hw' & Hl').
    rewrite (mbind_ok _ _ _ _ _ Hrun). unfold lwb_get_account. rewrite Hl'.
    eexists _, _. split_and!; [done|done|]. intros ? acct' -> Hn. destruct Hw' as [ab Hr Hfit ->].
    exists ab; simpl; [done| |by rewrite ls_apply_update].
    eapply fits_update; [done|exact Hl|done].
  - unfold mbind. rewrite (wt_fetch_account_missing w a id Hw Hl). by eexists.
Qed.

Lemma wt_update_account_sim {E Q} id (f1 f2 : M E OLAccountState Q) :
  acct_agree f1 f2 -> sim wt_refines (wt_update_account id f1) (update_account (S := LState) id f2).
Proof. intros Hf w a Hw. apply (@updates_like_sim _ _ _ _ wt_accessor_mut wt_refines eq eq account_eq_refines _ _ id f1 f2); [by apply wt_update_account_run|done]. Qed.

#[export] Instance wt_predrain_sim : PredrainSim wt_refines.
Proof.
  split.
  - apply _.
  - intros v w a [ab Hr Hfit ->]. simpl. split; [done|]. intros _.
    exists ab; simpl; [done|by apply fits_set_global|done].
  - intros c w a Hw. pose proof (rs_limbo_funds _ _ Hw) as Hl. simpl in Hl |- *.
    unfold wt_add_limbo_funds_coin. rewrite Hl. destruct (amt_checked_add _ _); simpl; (split; [done|]); intros _; [|done].
    destruct Hw as [ab Hr Hfit ->]. exists ab; simpl; [done|by apply fits_set_global|done].
  - intros h r w a Hw. pose proof (rs_l1_block_refs_mmr _ _ Hw) as Hl. simpl in Hl |- *.
    unfold wt_append_l1_block_rec. rewrite Hl.
    destruct (append_l1_block_rec_to_mmr _ _); simpl; (split; [done|]); intros Hp; [|done..].
    destruct Hw as [ab Hr Hfit ->]. exists ab; simpl; [done|by apply fits_set_epochal|done].
  - intros l w a Hw. pose proof (wt_pending_total w a Hw) as Hl. simpl.
    unfold wt_try_append_pending_asm_log, mbind, mreads_res, ensure_pending_asm_log_slot_available.
    rewrite Hl. destruct (_ <=? _) eqn:Hle; zbool.
    + rewrite (proj2 (Z.ltb_ge _ _)) by done. simpl. split; [done|]. intros _. done.
    + rewrite (proj2 (Z.ltb_lt _ _)) by done. simpl. split; [done|]. intros _.
      destruct Hw as [ab Hr Hfit ->]. exists ab; simpl; [done| |].
      * apply fits_set_intraepoch; [done|]. simpl in *. autorewrite with zlen in *. lia.
      * unfold ls_set_pending, ls_apply. simpl. by rewrite app_assoc.
  - intros E Q id f1 f2 Hf. by apply wt_update_account_sim.
Qed.

#[export] Instance wt_state_sim : StateSim wt_refines.
Proof.
  split; [apply _|..].
  1-3: intros v w a [ab Hr Hfit ->]; simpl; split; [done|]; intros _;
       exists ab; simpl; [done|by apply fits_set_epochal|done].
  intros w a [ab Hr Hfit ->]. simpl. split; [done|]. intros _.
  exists ab; simpl; [done|by apply fits_set_intraepoch|done].
Qed.
#[export] Instance wt_ledger_layer : LedgerLayer wt_refines (@eq OLAccountState) (@eq OLSnarkAccountState).
Proof. split; [apply _..|]. intros E Q id f w a Hw. by apply wt_update_account_run. Qed.
End wt_refine.
