(* ===== verification/BatchDiff.v ===== *)
(** * The batch-diff layer
    ([crates/ol/state-support-types/src/batch_diff_layer.rs])

    A read-only layer over a stack of write batches, newest last.  Its reads are
    the reads of the state that applying all batches in order leads to. *)

From S2P Require Import Prelude SortedMap Identifiers AcctTypes ChainTypes Externals.
From S2P Require Import LedgerTypes OLAccount WriteBatch OLState StateAccessor LedgerSpec.
From S2P Require Import MemoryLayer BatchApply WriteTracking.

Section bd.
Context `{XR : ExtRoot} {S : Type} `{!IStateAccessor S, !IComputeStateRootWithWrites S}.

Record BatchDiffState := {
  bd_base : S;
  bd_write_batches : list WriteBatch;
  bd_new_accounts : Z;
}.

Definition BatchDiffState_new (base : S) (batches : list WriteBatch) : BatchDiffState :=
  {| bd_base := base; bd_write_batches := batches;
     bd_new_accounts := zsum (map (fun b => zlen (lwb_new_accounts (wb_ledger b))) batches) |}.

(** First [Some] of [on_wb] along a list, else [on_base]. *)
Fixpoint resolve_in {T} (l : list WriteBatch) (on_wb : WriteBatch -> option T) (on_base : T) : T :=
  match l with
  | [] => on_base
  | wb :: l' => match on_wb wb with Some v => v | None => resolve_in l' on_wb on_base end
  end.

(** Walks the batches newest first. *)
Definition resolve {T} (d : BatchDiffState) (on_wb : WriteBatch -> option T) (on_base : T) : T :=
  resolve_in (rev (bd_write_batches d)) on_wb on_base.

Definition bd_pending_asm_logs_len (d : BatchDiffState) : Z :=
  fold_left (fun len wb =>
      (if iw_reset (wb_intraepoch_writes wb) then 0 else len)
      + zlen (iw_appended (wb_intraepoch_writes wb)))
    (bd_write_batches d) (pending_asm_logs_len (bd_base d)).

(** [rposition]: index of the last batch with a reset, counting from [i]. *)
Fixpoint last_reset (l : list WriteBatch) (i : nat) : option nat :=
  match l with
  | [] => None
  | wb :: l' =>
      match last_reset l' (i + 1)%nat with
      | Some j => Some j
      | None => if iw_reset (wb_intraepoch_writes wb) then Some i else None
      end
  end.

(** Walks the appended segments in order. *)
Fixpoint pending_in_segments (l : list WriteBatch) (remaining : Z) : option PendingAsmLog :=
  match l with
  | [] => None
  | wb :: l' =>
      let segment := iw_appended (wb_intraepoch_writes wb) in
      if remaining <? zlen segment then segment !! Z.to_nat remaining
      else pending_in_segments l' (remaining - zlen segment)
  end.

Definition bd_get_pending_asm_log (d : BatchDiffState) (idx : Z) : option PendingAsmLog :=
  let '(base_len, first_batch) :=
    match last_reset (bd_write_batches d) 0 with
    | Some i => (0, i)
    | None => (pending_asm_logs_len (bd_base d), 0%nat)
    end in
  if idx <? base_len then get_pending_asm_log (bd_base d) idx
  else pending_in_segments (drop first_batch (bd_write_batches d)) (idx - base_len).

#[export] Instance bd_accessor : IStateAccessor BatchDiffState := {
  cur_slot d := resolve d (fun b => gw_cur_slot (wb_global_writes b)) (cur_slot (bd_base d));
  limbo_funds d := resolve d (fun b => gw_limbo_funds_sats (wb_global_writes b)) (limbo_funds (bd_base d));
  cur_epoch d := resolve d (fun b => ew_cur_epoch (wb_epochal_writes b)) (cur_epoch (bd_base d));
  last_l1_blkid d := resolve d (fun b => ew_last_l1_blkid (wb_epochal_writes b)) (last_l1_blkid (bd_base d));
  last_l1_height d := resolve d (fun b => ew_last_l1_height (wb_epochal_writes b)) (last_l1_height (bd_base d));
  asm_recorded_epoch d :=
    resolve d (fun b => ew_asm_recorded_epoch (wb_epochal_writes b)) (asm_recorded_epoch (bd_base d));
  total_ledger_balance d :=
    resolve d (fun b => ew_total_ledger_balance (wb_epochal_writes b)) (total_ledger_balance (bd_base d));
  l1_block_refs_mmr d :=
    resolve d (fun b => ew_l1_block_refs_mmr (wb_epochal_writes b)) (l1_block_refs_mmr (bd_base d));
  pending_asm_logs_len := bd_pending_asm_logs_len;
  get_pending_asm_log := bd_get_pending_asm_log;
  pending_asm_logs_full d := bd_pending_asm_logs_len d =? MAX_PENDING_ASM_LOGS;
  check_account_exists d id :=
    resolve d (fun b => if lwb_contains_account (wb_ledger b) id then Some (Ok true) else None)
      (check_account_exists (bd_base d) id);
  get_account_state d id :=
    resolve d (fun b => match lwb_get_account (wb_ledger b) id with Some s => Some (Ok (Some s)) | None => None end)
      (get_account_state (bd_base d) id);
  find_account_id_by_serial d n :=
    resolve d (fun b => match lwb_find_id_by_serial (wb_ledger b) n with
                        | Some id => Some (Ok (Some id)) | None => None end)
      (find_account_id_by_serial (bd_base d) n);
  next_account_serial d := wrap_u32 (next_account_serial (bd_base d) + wrap_u32 (bd_new_accounts d));
  compute_state_root d := compute_state_root_with_writes (bd_base d) (bd_write_batches d);
}.

#[export] Instance bd_root_with_writes : IComputeStateRootWithWrites BatchDiffState := {
  compute_state_root_with_writes d writes :=
    compute_state_root_with_writes (bd_base d) (bd_write_batches d ++ writes);
}.
End bd.

Arguments BatchDiffState {_} S.

(** ** Refinement *)

Section bd_refine.
Context `{XR : ExtRoot} {S : Type} `{!IStateAccessor S, !IComputeStateRootWithWrites S}.
Context (Rb : S -> LState -> Prop) `{!BaseSim Rb}.

Inductive bd_refines (d : BatchDiffState S) (a : LState) : Prop :=
| bd_refines_intro (ab : LState) (Hr : Rb (bd_base d) ab) (Hfit : batches_fit ab (bd_write_batches d))
    (Hn : bd_new_accounts d = zsum (map (fun b => zlen (lwb_new_accounts (wb_ledger b))) (bd_write_batches d)))
    (Ha : a = fold_left ls_apply (bd_write_batches d) ab).

Lemma bd_refines_new s ab bs :
  Rb s ab -> batches_fit ab bs -> bd_refines (BatchDiffState_new s bs) (fold_left ls_apply bs ab).
Proof. intros. by exists ab. Qed.

Lemma batches_fit_app a bs1 bs2 :
  batches_fit a (bs1 ++ bs2) <-> batches_fit a bs1 /\ batches_fit (fold_left ls_apply bs1 a) bs2.
Proof. revert a. induction bs1 as [|b bs1 IH]; intros a; simpl; [tauto|]. rewrite IH. tauto. Qed.

Lemma batches_fit_wf a bs : ls_wf a -> batches_fit a bs -> ls_wf (fold_left ls_apply bs a).
Proof.
  revert a. induction bs as [|b bs IH]; intros a Hwf Hfit; simpl in *; [done|].
  destruct Hfit as [Hb Hbs]. apply IH; [|done]. by apply ls_apply_wf.
Qed.

(** A field that each batch may override is resolved newest first. *)
Lemma resolve_fold {T U} (on_wb : WriteBatch -> option U) (f : LState -> T) (g : U -> T) bs ab :
  ls_wf ab -> batches_fit ab bs ->
  (forall a b, ls_wf a -> batch_fits a b ->
     f (ls_apply a b) = match on_wb b with Some v => g v | None => f a end) ->
  resolve_in (rev bs) (fun b => match on_wb b with Some v => Some (g v) | None => None end) (f ab) =
  f (fold_left ls_apply bs ab).
Proof.
  intros Hwf Hfit Hf. induction bs as [|b bs IH] using rev_ind; [done|].
  apply batches_fit_app in Hfit as [Hbs [Hb _]].
  rewrite fold_left_app, rev_app_distr. simpl. rewrite Hf; [|by apply batches_fit_wf|done].
  destruct (on_wb b); [done|]. by apply IH.
Qed.

Lemma resolve_field {T} (on_wb : WriteBatch -> option T) (f : LState -> T) bs ab :
  ls_wf ab -> batches_fit ab bs -> (forall a b, f (ls_apply a b) = or_base (on_wb b) (f a)) ->
  resolve_in (rev bs) on_wb (f ab) = f (fold_left ls_apply bs ab).
Proof.
  intros Hwf Hfit Hf. rewrite <- (resolve_fold on_wb f id) by (try done; intros; by rewrite Hf).
  generalize (rev bs). intros l. induction l as [|b l IH]; simpl; [done|]. by destruct (on_wb b).
Qed.

Lemma bd_pending_len bs len ab :
  len = zlen (ls_pending ab) ->
  fold_left (fun len wb => (if iw_reset (wb_intraepoch_writes wb) then 0 else len)
      + zlen (iw_appended (wb_intraepoch_writes wb))) bs len
  = zlen (ls_pending (fold_left ls_apply bs ab)).
Proof.
  revert len ab. induction bs as [|b bs IH]; intros len ab Hlen; simpl; [done|]. apply IH. simpl.
  rewrite zlen_app. subst len. by case_match.
Qed.

(** The appended logs of a list of batches. *)
Definition segments (bs : list WriteBatch) : list PendingAsmLog :=
  concat (map (fun b => iw_appended (wb_intraepoch_writes b)) bs).

Lemma pending_in_segments_lookup bs i :
  0 <= i -> pending_in_segments bs i = segments bs !! Z.to_nat i.
Proof.
  revert i. induction bs as [|b bs IH]; intros i Hi; simpl; [done|].
  unfold segments. simpl. destruct (_ <? _) eqn:Hlt; zbool; unfold zlen in *.
  - rewrite lookup_app_l; [done|lia].
  - rewrite IH, lookup_app_r by lia. unfold segments. f_equal. lia.
Qed.

Lemma last_reset_pending bs ab :
  ls_pending (fold_left ls_apply bs ab) =
  match last_reset bs 0 with
  | Some i => segments (drop i bs)
  | None => ls_pending ab ++ segments bs
  end.
Proof.
  assert (Hshift : forall bs i, last_reset bs (i + 1) = (fun j => (j + 1)%nat) <$> last_reset bs i).
  { clear. induction bs as [|b bs IH]; intros i; simpl; [done|]. rewrite !IH.
    destruct (last_reset bs i); simpl; [done|]. by case_match. }
  revert ab. induction bs as [|b bs IH]; intros ab; simpl; [by rewrite app_nil_r|].
  rewrite IH. rewrite (Hshift bs 0%nat : last_reset bs 1 = _). destruct (last_reset bs 0) as [j|]; simpl.
  - by rewrite Nat.add_1_r.
  - unfold segments. simpl. case_match; simpl; [done|]. by rewrite app_assoc.
Qed.

Lemma bd_get_pending d a i :
  bd_refines d a -> 0 <= i -> bd_get_pending_asm_log d i = ls_pending a !! Z.to_nat i.
Proof.
  intros [ab Hr Hfit Hn ->] Hi. unfold bd_get_pending_asm_log. rewrite last_reset_pending.
  destruct (last_reset _ 0) as [j|].
  - rewrite (proj2 (Z.ltb_ge _ _)) by done. rewrite Z.sub_0_r. by apply pending_in_segments_lookup.
  - rewrite (rs_pending_asm_logs_len _ _ Hr). simpl. destruct (_ <? _) eqn:Hlt; zbool; unfold zlen in *.
    + rewrite (rs_get_pending_asm_log _ _ _ Hr Hi). simpl. rewrite lookup_app_l; [done|lia].
    + rewrite drop_0, pending_in_segments_lookup by lia. rewrite lookup_app_r by lia. f_equal. lia.
Qed.

Lemma batches_next_serial ab bs :
  gs_next_avail_serial (ls_global (fold_left ls_apply bs ab)) =
  gs_next_avail_serial (ls_global ab) + zsum (map (fun b => zlen (lwb_new_accounts (wb_ledger b))) bs).
Proof.
  revert ab. induction bs as [|b bs IH]; intros ab; simpl; [lia|]. rewrite IH. simpl. lia.
Qed.

#[export] Instance bd_read_sim : ReadSim bd_refines.
Proof.
  split; intros d a.
  1-8: intros [ab Hr Hfit Hn ->]; pose proof (bs_wf _ _ Hr) as Hwf; simpl; unfold resolve.
  - rewrite (rs_cur_slot _ _ Hr). by apply (resolve_field _ (fun a => gs_cur_slot (ls_global a))).
  - rewrite (rs_limbo_funds _ _ Hr). by apply (resolve_field _ (fun a => gs_limbo_funds_sats (ls_global a))).
  - rewrite (rs_cur_epoch _ _ Hr). by apply (resolve_field _ (fun a => es_cur_epoch (ls_epoch a))).
  - rewrite (rs_last_l1_blkid _ _ Hr).
    by apply (resolve_field _ (fun a => l1c_blkid (es_last_l1_block (ls_epoch a)))).
  - rewrite (rs_last_l1_height _ _ Hr).
    by apply (resolve_field _ (fun a => l1c_height (es_last_l1_block (ls_epoch a)))).
  - rewrite (rs_asm_recorded_epoch _ _ Hr).
    by apply (resolve_field _ (fun a => es_checkpointed_epoch (ls_epoch a))).
  - rewrite (rs_total_ledger_balance _ _ Hr).
    by apply (resolve_field _ (fun a => es_total_ledger_funds (ls_epoch a))).
  - rewrite (rs_l1_block_refs_mmr _ _ Hr).
    by apply (resolve_field _ (fun a => es_l1_block_refs_mmr (ls_epoch a))).
  - intros [ab Hr Hfit Hn ->]. simpl. unfold bd_pending_asm_logs_len. apply bd_pending_len.
    exact (rs_pending_asm_logs_len _ _ Hr).
  - intros i. apply bd_get_pending.
  - intros [ab Hr Hfit Hn ->]. simpl. unfold bd_pending_asm_logs_len. f_equal. apply bd_pending_len.
    exact (rs_pending_asm_logs_len _ _ Hr).
  - intros id [ab Hr Hfit Hn ->]. simpl. unfold resolve. rewrite (rs_check_account_exists _ _ id Hr). simpl.
    rewrite <- (resolve_fold (fun b => lwb_account_writes (wb_ledger b) !! id)
      (fun a => Ok (match ls_accts a !! id with Some _ => true | None => false end)) (fun _ => Ok true) _ ab);
      [|by eapply bs_wf|done|].
    + unfold lwb_contains_account.
      generalize (rev (bd_write_batches d)). intros l. induction l as [|b l IH]; simpl; [done|].
      destruct (lwb_account_writes (wb_ledger b) !! id); [done|exact IH].
    + intros a b _ _. simpl. rewrite lookup_union. by destruct (_ !! id), (ls_accts a !! id).
  - intros id [ab Hr Hfit Hn ->]. simpl. unfold resolve. rewrite (rs_get_account_state _ _ id Hr). simpl.
    apply (resolve_fold (fun b => lwb_get_account (wb_ledger b) id) (fun a => Ok (ls_accts a !! id))
      (fun s => Ok (Some s))); [by eapply bs_wf|done|].
    intros a b _ _. unfold lwb_get_account. simpl. rewrite lookup_union.
    by destruct (_ !! id), (ls_accts a !! id).
  - intros n [ab Hr Hfit Hn ->]. simpl. unfold resolve. rewrite (rs_find_account_id_by_serial _ _ n Hr). simpl.
    apply (resolve_fold (fun b => lwb_find_id_by_serial (wb_ledger b) n) (fun a => Ok (ls_serials a !! n))
      (fun s => Ok (Some s))); [by eapply bs_wf|done|].
    intros a b _ Hb. unfold lwb_find_id_by_serial. rewrite (fits_get_serial a b Hb). simpl.
    rewrite lookup_union. by destruct (_ !! n), (ls_serials a !! n).
  - intros [ab Hr Hfit Hn ->]. simpl. rewrite batches_next_serial, Hn, (rs_next_account_serial _ _ Hr). simpl.
    pose proof (wf_next_serial _ (batches_fit_wf ab _ (bs_wf _ _ Hr) Hfit)) as Hns.
    rewrite batches_next_serial in Hns. pose proof (wf_next_serial ab (bs_wf _ _ Hr)) as Hn0.
    assert (0 <= zsum (map (fun b => zlen (lwb_new_accounts (wb_ledger b))) (bd_write_batches d))).
    { apply zsum_nonneg, Forall_map, Forall_true. intros b. apply zlen_nonneg. }
    rewrite (wrap_u32_id (zsum _)) by (unfold_widths; lia). by apply wrap_u32_id.
  - intros [ab Hr Hfit Hn ->]. simpl. by rewrite (bs_root _ ab _ Hr).
Qed.

#[export] Instance bd_base_sim : BaseSim bd_refines.
Proof.
  split.
  - apply _.
  - intros d a [ab Hr Hfit Hn ->]. apply batches_fit_wf; [by eapply bs_wf|done].
  - intros d a bs [ab Hr Hfit Hn ->] Hbs. simpl. rewrite (bs_root _ ab _ Hr).
    + by rewrite fold_left_app.
    + by apply batches_fit_app.
Qed.
End bd_refine.
