(* ===== verification/SnarkSys.v ===== *)
(** * Snark account updates and their proofs
    ([crates/snark-acct-sys], [crates/ol/stf/src/proof_verification.rs])

    The checks an update of a snark account must pass, against any proof
    verifier: sequence number, message index, ledger references, inbox proofs,
    and the update proof itself; and the verifier that walks the proofs a
    transaction carries. *)

From S2P Require Import Prelude Identifiers AcctTypes ChainTypes Externals LedgerTypes OLAccount WriteBatch.
From S2P Require Import OLState StateAccessor.

Section sys.
Context `{X : Ext}.

(** ** [update.rs] *)

Record SnarkAccountUpdateData := {
  upd_seq_no : Seqno;
  upd_new_proof_state : ProofState;
  upd_processed_messages : list MessageEntry;
  upd_ledger_refs : LedgerRefs;
  upd_effects : TxEffects;
  upd_extra_data : bytes;
  upd_new_predicate : option PredicateKey;
}.

Definition effects_to_update_outputs {E} (fx : TxEffects) (new_predicate : option PredicateKey)
    : res E UpdateOutputs :=
  let transfers := map (fun t => {| ot_dest := st_dest t; ot_value := st_value t |}) (transfers_iter fx) in
  let messages := map (fun m => {| om_dest := sm_dest m; om_payload := sm_payload m |}) (messages_iter fx) in
  let! o := UpdateOutputs_with_transfers UpdateOutputs_new_empty transfers in
  let! o := UpdateOutputs_with_messages o messages in
  Ok (UpdateOutputs_set_new_predicate o new_predicate).

(** ** [verification.rs] *)

Definition verify_seq_no (target : AccountId) (s : OLSnarkAccountState) (tx_seq_no : Seqno)
    : res ExecError unit :=
  let expected_seq := sas_seqno s in
  if negb (tx_seq_no =? expected_seq) then
    Err (Acct (InvalidUpdateSequence target expected_seq tx_seq_no))
  else Ok tt.

Definition verify_message_index (target : AccountId) (s : OLSnarkAccountState)
    (u : SnarkAccountUpdateData) : res ExecError unit :=
  let! expected_idx := ok_or (checked_add_u64 (sas_next_inbox_msg_idx s) (zlen (upd_processed_messages u)))
                         (Acct (MsgIndexOverflow target)) in
  let claimed_idx := ps_next_inbox_msg_idx (upd_new_proof_state u) in
  if negb (expected_idx =? claimed_idx) then
    Err (Acct (InvalidMsgIndex target expected_idx claimed_idx))
  else Ok tt.

Definition compute_update_claim {E} (s : OLSnarkAccountState) (u : SnarkAccountUpdateData) : res E bytes :=
  let cur_state := {| ps_inner_state := sas_inner_state_root s;
                      ps_next_inbox_msg_idx := sas_next_inbox_msg_idx s |} in
  let! outputs := effects_to_update_outputs (upd_effects u) (upd_new_predicate u) in
  let! pub_params := UpdateProofPubParams_new (upd_seq_no u) cur_state (upd_new_proof_state u)
    (upd_processed_messages u) (upd_ledger_refs u) outputs (upd_extra_data u) in
  Ok (ssz_pub_params pub_params).

Section verifier.
Context {V : Type} `{!TxProofVerifier V}.

Definition verify_ledger_refs (target : AccountId) (refs : LedgerRefs) : M ExecError V unit :=
  miter (fun claim =>
      mmap_err (fun _ => Acct (InvalidLedgerReference target (claim_idx claim)))
        (verify_l1_block_ref_mmr_proof_next claim))
    (lr_l1_block_refs refs).

(** Proofs for the messages from index [cur_index] on. *)
Fixpoint verify_inbox_from (target : AccountId) (cur_index : Z) (msgs : list MessageEntry)
    : M ExecError V unit :=
  match msgs with
  | [] => mret tt
  | msg :: msgs' =>
      let claim := {| claim_idx := cur_index; claim_entry_hash := thr_message_entry msg |} in
      mmap_err (fun _ => Acct (InvalidMessageProof target cur_index))
        (verify_inbox_mmr_proof_next claim) ;;;
      match checked_add_u64 cur_index 1 with
      | None => merr (Acct (MsgIndexOverflow target))
      | Some cur_index' => verify_inbox_from target cur_index' msgs'
      end
  end.

Definition verify_inbox_mmr_proofs (target : AccountId) (s : OLSnarkAccountState)
    (processed_msgs : list MessageEntry) : M ExecError V unit :=
  verify_inbox_from target (sas_next_inbox_msg_idx s) processed_msgs.

Definition verify_update_proof (target : AccountId) (s : OLSnarkAccountState)
    (u : SnarkAccountUpdateData) : M ExecError V unit :=
  let* claim := mlift (compute_update_claim s u) in
  mmap_err (fun _ => Acct (InvalidUpdateProof target)) (verify_local_predicate_next claim).

Definition verify_update_correctness (target : AccountId) (s : OLSnarkAccountState)
    (u : SnarkAccountUpdateData) : M ExecError V unit :=
  mlift (verify_seq_no target s (upd_seq_no u)) ;;;
  mlift (verify_message_index target s u) ;;;
  verify_ledger_refs target (upd_ledger_refs u) ;;;
  verify_inbox_mmr_proofs target s (upd_processed_messages u) ;;;
  verify_update_proof target s u.
End verifier.

(** ** [handlers.rs] *)

Definition handle_snark_msg {A} `{!ISnarkAccountStateMut A} (cur_epoch : Epoch) (from : AccountId)
    (payload : MsgPayload) : M ExecError A unit := fun s =>
  let msg := {| me_source := from; me_incl_epoch := cur_epoch; me_payload := payload |} in
  match snark_insert_inbox_message s msg with
  | Ok s' => (Ok tt, s')
  | Err e => (Err (State e), s)
  | Panic => (Panic, s)
  end.
End sys.

(** * Transaction proof verification ([crates/ol/stf/src/proof_verification.rs])

    The verifier that walks the proofs a transaction carries, consuming them in
    order, against the accumulators and the predicate key of the account. *)

Section pv.
Context `{X : Ext}.

Record TxProofVerificationContext := {
  pvc_l1_block_refs_mmr : Mmr64;
  pvc_local_inbox_mmr : option Mmr64;
  pvc_local_predicate_key : option PredicateKey;
}.

Definition from_account_and_state {S} `{!IStateAccessor S} (state : S) (account : OLAccountState)
    : TxProofVerificationContext :=
  match acct_state account with
  | TyEmpty =>
      {| pvc_l1_block_refs_mmr := l1_block_refs_mmr state;
         pvc_local_inbox_mmr := None; pvc_local_predicate_key := None |}
  | TySnark t =>
      {| pvc_l1_block_refs_mmr := l1_block_refs_mmr state;
         pvc_local_inbox_mmr := Some (sas_inbox_mmr t);
         pvc_local_predicate_key := Some (sas_update_vk t) |}
  end.

Record TxProofsTracker := {
  pt_accumulator_proofs : option (list RawMerkleProof);
  pt_next_acc_proof_idx : nat;
  pt_predicate_satisfiers : option (list bytes);
  pt_next_pred_proof_idx : nat;
}.

Definition from_txproofs (p : TxProofs) : TxProofsTracker := {|
  pt_predicate_satisfiers := txp_predicate_satisfiers p;
  pt_accumulator_proofs := txp_accumulator_proofs p;
  pt_next_pred_proof_idx := 0;
  pt_next_acc_proof_idx := 0;
|}.

Definition acc_proofs_cnt (t : TxProofsTracker) : nat :=
  match pt_accumulator_proofs t with Some l => length l | None => 0 end.
Definition next_acc_proof (t : TxProofsTracker) : option RawMerkleProof :=
  match pt_accumulator_proofs t with Some l => l !! pt_next_acc_proof_idx t | None => None end.
Definition inc_next_acc_proof : M ProofVerifyError TxProofsTracker unit := fun t =>
  if (pt_next_acc_proof_idx t =? acc_proofs_cnt t)%nat then (Err NoNextProof, t)
  else (Ok tt, {| pt_accumulator_proofs := pt_accumulator_proofs t;
                  pt_next_acc_proof_idx := S (pt_next_acc_proof_idx t);
                  pt_predicate_satisfiers := pt_predicate_satisfiers t;
                  pt_next_pred_proof_idx := pt_next_pred_proof_idx t |}).
Definition is_acc_proofs_done (t : TxProofsTracker) : bool :=
  (pt_next_acc_proof_idx t =? acc_proofs_cnt t)%nat.

Definition pred_proofs_cnt (t : TxProofsTracker) : nat :=
  match pt_predicate_satisfiers t with Some l => length l | None => 0 end.
Definition next_pred_proof (t : TxProofsTracker) : option bytes :=
  match pt_predicate_satisfiers t with Some l => l !! pt_next_pred_proof_idx t | None => None end.
Definition inc_next_pred_proof : M ProofVerifyError TxProofsTracker unit := fun t =>
  if (pt_next_pred_proof_idx t =? pred_proofs_cnt t)%nat then (Err NoNextProof, t)
  else (Ok tt, {| pt_accumulator_proofs := pt_accumulator_proofs t;
                  pt_next_acc_proof_idx := pt_next_acc_proof_idx t;
                  pt_predicate_satisfiers := pt_predicate_satisfiers t;
                  pt_next_pred_proof_idx := S (pt_next_pred_proof_idx t) |}).
Definition is_pred_proofs_done (t : TxProofsTracker) : bool :=
  (pt_next_pred_proof_idx t =? pred_proofs_cnt t)%nat.

Definition is_all_done (t : TxProofsTracker) : bool := is_acc_proofs_done t && is_pred_proofs_done t.

Record TxProofVerifierImpl := {
  pvi_state_ctx : TxProofVerificationContext;
  pvi_proof_tracker : TxProofsTracker;
}.

Definition on_tracker {A} (m : M ProofVerifyError TxProofsTracker A) : M ProofVerifyError TxProofVerifierImpl A :=
  fun v => let '(r, t) := m (pvi_proof_tracker v) in
           (r, {| pvi_state_ctx := pvi_state_ctx v; pvi_proof_tracker := t |}).

(** The tracker advances only past a proof that verified. *)
Definition verify_next_mmr_proof (mmr : Mmr64) (claim : AccumulatorClaim)
    : M ProofVerifyError TxProofVerifierImpl unit :=
  let* raw_proof := mreads_res (fun v => ok_or (next_acc_proof (pvi_proof_tracker v)) NoNextProof) in
  if negb (mmr_verify mmr raw_proof (claim_idx claim) (claim_entry_hash claim)) then merr InvalidProof
  else on_tracker inc_next_acc_proof.

Definition pvi_verify_inbox_mmr_proof_next (claim : AccumulatorClaim)
    : M ProofVerifyError TxProofVerifierImpl unit :=
  let* inbox_mmr := mreads_res (fun v => ok_or (pvc_local_inbox_mmr (pvi_state_ctx v)) InvalidContext) in
  verify_next_mmr_proof inbox_mmr claim.

Definition pvi_verify_l1_block_ref_mmr_proof_next (claim : AccumulatorClaim)
    : M ProofVerifyError TxProofVerifierImpl unit :=
  let* mmr := mreads (fun v => pvc_l1_block_refs_mmr (pvi_state_ctx v)) in
  verify_next_mmr_proof mmr claim.

Definition pvi_verify_local_predicate_next (claim : bytes) : M ProofVerifyError TxProofVerifierImpl unit :=
  let* predicate_key := mreads_res (fun v =>
    ok_or (pvc_local_predicate_key (pvi_state_ctx v)) InvalidContext) in
  let* witness := mreads_res (fun v => ok_or (next_pred_proof (pvi_proof_tracker v)) NoNextProof) in
  if negb (verify_claim_witness predicate_key claim witness) then merr InvalidProof
  else on_tracker inc_next_pred_proof.

#[export] Instance TxProofVerifierImpl_verifier : TxProofVerifier TxProofVerifierImpl := {
  verify_inbox_mmr_proof_next := pvi_verify_inbox_mmr_proof_next;
  verify_l1_block_ref_mmr_proof_next := pvi_verify_l1_block_ref_mmr_proof_next;
  verify_local_predicate_next := pvi_verify_local_predicate_next;
  is_exhausted v := is_all_done (pvi_proof_tracker v);
}.
End pv.
