(* ===== verification/StfContext.v ===== *)
(** * Contexts, outputs and delivery
    ([crates/ol/stf/src/{context,output,account_processing,msg_payload_coin}.rs],
    [crates/ol/msg-types])

    The contexts the phases of block execution run in, and the buffer that
    collects the logs they emit; a phase is a computation over the state next
    to that buffer.  Then the delivery of messages and transfers to accounts,
    with the bridge gateway and the limbo for misplaced funds. *)

From S2P Require Import Prelude Identifiers AcctTypes ChainTypes Externals LedgerTypes Bridge OLAccount.
From S2P Require Import OLState StateAccessor SnarkSys.

(** ** [context.rs] *)

Record BlockInfo := { bi_timestamp : Z; bi_slot : Slot; bi_epoch : Epoch }.

Definition BlockInfo_new_genesis (timestamp : Z) : BlockInfo :=
  {| bi_timestamp := timestamp; bi_slot := 0; bi_epoch := 0 |}.
Definition BlockInfo_from_header (bh : OLBlockHeader) : BlockInfo :=
  {| bi_timestamp := hdr_timestamp bh; bi_slot := hdr_slot bh; bi_epoch := hdr_epoch bh |}.

Record EpochInfo := { ei_terminal_info : BlockInfo; ei_prev_terminal : OLBlockCommitment }.
Definition ei_epoch (e : EpochInfo) : Epoch := bi_epoch (ei_terminal_info e).

Record BlockContext := { bc_block_info : BlockInfo; bc_parent_header : option OLBlockHeader }.

(** Panics on a non-genesis block without parent. *)
Definition BlockContext_new {E} (info : BlockInfo) (parent : option OLBlockHeader) : res E BlockContext :=
  if match parent with None => true | Some _ => false end
     && (negb (bi_slot info =? 0) || negb (bi_epoch info =? 0))
  then Panic
  else Ok {| bc_block_info := info; bc_parent_header := parent |}.

Definition bc_slot (c : BlockContext) : Slot := bi_slot (bc_block_info c).
Definition bc_epoch (c : BlockContext) : Epoch := bi_epoch (bc_block_info c).
Definition bc_timestamp (c : BlockContext) : Z := bi_timestamp (bc_block_info c).

(** The first block of an epoch has no parent or a terminal one. *)
Definition is_epoch_initial (c : BlockContext) : bool :=
  match bc_parent_header c with None => true | Some ph => hdr_is_terminal ph end.

Record EpochInitialContext := { eic_cur_epoch : Epoch; eic_prev_terminal : OLBlockCommitment }.

(** Basic and transaction execution contexts; the log buffer they refer to is
    part of the state of the phase. *)
Record BasicExecContext := {
  bec_block_info : BlockInfo;
  bec_bridge_params : option BridgeParams;
}.
Definition BasicExecContext_new (info : BlockInfo) : BasicExecContext :=
  {| bec_block_info := info; bec_bridge_params := None |}.
Definition with_bridge_params (c : BasicExecContext) (bp : BridgeParams) : BasicExecContext :=
  {| bec_block_info := bec_block_info c; bec_bridge_params := Some bp |}.
Definition bec_epoch (c : BasicExecContext) : Epoch := bi_epoch (bec_block_info c).

Record TxExecContext := { tec_basic_context : BasicExecContext; tec_parent_header : option OLBlockHeader }.

Section context.
Context `{X : Ext}.

Definition compute_parent_blkid (c : BlockContext) : OLBlockId :=
  match bc_parent_header c with None => blkid_null | Some ph => compute_blkid ph end.

Definition compute_parent_commitment (c : BlockContext) : OLBlockCommitment :=
  match bc_parent_header c with
  | None => obc_null
  | Some ph => {| obc_slot := hdr_slot ph; obc_blkid := compute_parent_blkid c |}
  end.

Definition get_epoch_initial_context {E} (c : BlockContext) : res E EpochInitialContext :=
  if is_epoch_initial c then
    Ok {| eic_cur_epoch := bc_epoch c; eic_prev_terminal := compute_parent_commitment c |}
  else Panic.

(** ** [output.rs] *)

Abbreviation ExecOutputBuffer := (list OLLog) (only parsing).

(** The state of a phase: the chain state and the logs emitted so far. *)
Record XState (S : Type) := { xs_state : S; xs_out : ExecOutputBuffer }.

Definition Exec (S A : Type) : Type := M ExecError (XState S) A.
End context.

Arguments xs_state {S} _.
Arguments xs_out {S} _.

Section output.
Context `{X : Ext} {S : Type}.

(** A computation on the chain state alone. *)
Definition lift_exec {A} (m : M ExecError S A) : Exec S A := fun x =>
  let '(r, s) := m (xs_state x) in (r, {| xs_state := s; xs_out := xs_out x |}).

(** Appends logs unless the per-block cap would be exceeded. *)
Definition buffer_emit_logs (new_logs : list OLLog) : M ExecError (list OLLog) unit := fun logs =>
  let total := saturating_add_u64 (zlen logs) (zlen new_logs) in
  if MAX_LOGS_PER_BLOCK <? total then (Err (LogsOverflow total MAX_LOGS_PER_BLOCK), logs)
  else (Ok tt, logs ++ new_logs).

Definition verify_logs_within_block_limit (logs : list OLLog) : res ExecError unit :=
  if MAX_LOGS_PER_BLOCK <? zlen logs then Err (LogsOverflow (zlen logs) MAX_LOGS_PER_BLOCK) else Ok tt.

Definition emit_logs (new_logs : list OLLog) : Exec S unit := fun x =>
  let '(r, logs) := buffer_emit_logs new_logs (xs_out x) in
  (r, {| xs_state := xs_state x; xs_out := logs |}).

Definition emit_log (log : OLLog) : Exec S unit := emit_logs [log].

(** [emit_typed_log] of a payload whose [encode_log] gave [encoded]. *)
Definition emit_typed_log (source : AccountSerial) (encoded : res CodecError bytes) : Exec S unit :=
  let* body := mlift (res_map_err Codec encoded) in
  emit_log {| log_account_serial := source; log_payload := body |}.
End output.

(** * Message and transfer delivery
    ([crates/ol/stf/src/{account_processing,msg_payload_coin}.rs])

    Delivering a message or a transfer credits the carried coin to the target
    account, or sweeps it into limbo, or (for a valid withdrawal sent to the
    bridge gateway) emits a withdrawal intent log and burns it. *)

(** ** [msg_payload_coin.rs] *)

Record MsgPayloadCoin := { mpc_coin : Coin; mpc_data : bytes }.

Definition mpc_coin_amt (m : MsgPayloadCoin) : BitcoinAmount := coin_amt (mpc_coin m).
Definition into_coin_and_record (m : MsgPayloadCoin) : Coin * MsgPayload :=
  (mpc_coin m, {| mp_value := mpc_coin_amt m; mp_data := mpc_data m |}).

(** ** [ol/msg-types] *)

Definition DEPOSIT_MSG_TYPE_ID : Z := 2.
Definition WITHDRAWAL_MSG_TYPE_ID : Z := 3.
Definition PREDICATE_UPDATE_MSG_TYPE_ID : Z := 32.

Definition try_as_withdrawal `{X : Ext} (msg : Z * bytes) : option WithdrawalMsgData :=
  if negb (fst msg =? WITHDRAWAL_MSG_TYPE_ID) then None else withdrawal_msg_decode (snd msg).

Section accounts.
Context `{X : Ext} {S : Type} `{!IStateAccessorMut S}.

(** [state.update_account(id, f)??]: the error of the state and the error of the
    closure both propagate. *)
Definition update_account_exec {A} (id : AccountId) (f : M ExecError (AcctMut (S := S)) A)
    : M ExecError S A :=
  let* inner := mmap_err State (update_account id f) in mlift inner.

Definition credit_account (target : AccountId) (coin : Coin) (post : M ExecError (AcctMut (S := S)) unit)
    : M ExecError S unit :=
  update_account_exec target (acct_add_balance coin ;;; post).

Definition credit_account_noop (target : AccountId) (coin : Coin) : M ExecError S unit :=
  credit_account target coin (mret tt).

Definition handle_misplaced_funds (coin : Coin) : M ExecError S unit :=
  mmap_err State (add_limbo_funds_coin coin).

Definition handle_snark_account_message {B} `{!ISnarkAccountStateMut B} (context : BasicExecContext)
    (sender : AccountId) (payload : MsgPayload) : M ExecError B unit :=
  handle_snark_msg (bec_epoch context) sender payload.

(** What a delivered message does to an account beyond the credit: snark
    accounts record it in their inbox, empty accounts ignore it. *)
Definition deliver_to_account {B} `{!IAccountStateMut B} (context : BasicExecContext) (sender : AccountId)
    (record : MsgPayload) : M ExecError B unit := fun a =>
  match as_snark_account_mut a with
  | Ok borrow => on_snark_account (handle_snark_account_message context sender record) borrow
  | _ => (Ok tt, a)
  end.

(** Whether the payload is a withdrawal the bridge accepts. *)
Definition parse_withdrawal (context : BasicExecContext) (payload : MsgPayloadCoin)
    : option SimpleWithdrawalIntentLogData :=
  match msg_ref_parse (mpc_data payload) with
  | None => None
  | Some msg =>
  match try_as_withdrawal msg with
  | None => None
  | Some wd =>
  match bec_bridge_params context with
  | None => None
  | Some bp =>
      if negb (validate_withdrawal_amount bp (mpc_coin_amt payload)) then None
      else if negb (validate_withdrawal_descriptor_len bp (zlen (wmd_dest_desc wd)))
              || negb (descriptor_from_bytes_ok (wmd_dest_desc wd)) then None
      else Some {| swi_amt := mpc_coin_amt payload;
                   swi_selected_operator := wmd_selected_operator wd;
                   swi_dest := wmd_dest_desc wd |}
  end end end.

Definition handle_bridge_gateway_message (context : BasicExecContext) (sender : AccountId)
    (payload : MsgPayloadCoin) : Exec S unit :=
  match parse_withdrawal context payload with
  | None => lift_exec (handle_misplaced_funds (mpc_coin payload))
  | Some log_data => emit_typed_log BRIDGE_GATEWAY_ACCT_SERIAL (withdrawal_log_encode log_data)
  end.

Definition process_message (context : BasicExecContext) (sender target : AccountId)
    (msg : MsgPayloadCoin) : Exec S unit :=
  if target =? BRIDGE_GATEWAY_ACCT_ID then handle_bridge_gateway_message context sender msg
  else lift_exec (
    let* exists_ := mreads_res (fun s => res_map_err State (check_account_exists s target)) in
    if negb exists_ then handle_misplaced_funds (mpc_coin msg)
    else
      let '(coin, record) := into_coin_and_record msg in
      credit_account target coin (deliver_to_account context sender record)).

Definition process_transfer (target : AccountId) (coin : Coin) : Exec S unit :=
  lift_exec (
    if target =? BRIDGE_GATEWAY_ACCT_ID then handle_misplaced_funds coin
    else
      let* exists_ := mreads_res (fun s => res_map_err State (check_account_exists s target)) in
      if negb exists_ then handle_misplaced_funds coin
      else credit_account_noop target coin).
End accounts.
