(* ===== verification/StfTx.v ===== *)
(** * Transaction execution
    ([crates/ol/stf/src/{transaction_processing,sau_processing,constants}.rs])

    The transaction segment of a block: generic account messages, snark account
    updates with their checks, and the effects of both. *)

From Stdlib Require Import String.
From S2P Require Import Prelude Identifiers AcctTypes ChainTypes Externals LedgerTypes.
From S2P Require Import Bridge OLAccount OLState StateAccessor SnarkSys.
From S2P Require Import StfContext.

Section tx.
Context `{X : Ext}.

(** ** [constants.rs] *)
Definition SEQUENCER_ACCT_ID : AccountId := BRIDGE_GATEWAY_ACCT_ID.

(** ** [sau_processing.rs] *)

Definition convert_sau_ledger_refs {E} (r : SauTxLedgerRefs) : res E LedgerRefs :=
  match slr_l1_block_ref_claims r with
  | Some claims => LedgerRefs_new claims
  | None => LedgerRefs_new_empty
  end.

Definition build_snark_acct_update_data {E} (op : SauTxOperationData) (fx : TxEffects)
    : res E SnarkAccountUpdateData :=
  let upd := sod_update_data op in
  let proof_state := {| ps_inner_state := sps_inner_state_root (sud_proof_state upd);
                        ps_next_inbox_msg_idx := sps_new_next_msg_idx (sud_proof_state upd) |} in
  let! ledger_refs := convert_sau_ledger_refs (sod_ledger_refs op) in
  Ok {| upd_seq_no := sud_seq_no upd; upd_new_proof_state := proof_state;
        upd_processed_messages := sod_messages op; upd_ledger_refs := ledger_refs;
        upd_effects := fx; upd_extra_data := sud_extra_data upd;
        upd_new_predicate := sud_new_predicate upd |}.

Definition verify_snark_acct_update_proofs {V} `{!TxProofVerifier V} (target : AccountId)
    (account_state : OLAccountState) (op : SauTxOperationData) (fx : TxEffects) : M ExecError V unit :=
  let* snark_acct_state := mlift (res_map_err (fun _ => IncorrectTxTargetType)
                                    (as_snark_account account_state)) in
  let* update_data := mlift (build_snark_acct_update_data op fx) in
  verify_update_correctness target snark_acct_state update_data.

(** ** [transaction_processing.rs] *)

Definition verify_gam_tx (gam : GamTxPayload) (fx : TxEffects) : res ExecError unit :=
  if negb (zlen (transfers_iter fx) =? 0) then Err (TxStructureCheckFailed "nonzero transfers"%string) else
  match messages_iter fx with
  | [m] =>
      if negb (mp_value (sm_payload m) =? 0) then
        Err (TxStructureCheckFailed "multiple messages or nonzero value"%string)
      else if negb (sm_dest m =? gam_target gam) then Err (TxStructureCheckFailed "mismatched target"%string)
      else Ok tt
  | _ => Err (TxStructureCheckFailed "multiple messages or nonzero value"%string)
  end.

(** [SauTxUpdateData::get_log_data] followed by [expect]. *)
Definition get_log_data {E} (upd : SauTxUpdateData) : res E SnarkAccountUpdateLogData :=
  expect (sau_log_new (sps_new_next_msg_idx (sud_proof_state upd)) (sud_extra_data upd)).

(** The closure of [process_update_tx]: installs the new proof state and, if one
    is declared, the new predicate key. *)
Definition write_update {A} `{!ISnarkAccountStateMut A} (target : AccountId) (upd : SauTxUpdateData)
    : M ExecError A unit :=
  let* new_seqno := mlift (ok_or (checked_add_u64 (sud_seq_no upd) 1) (MaxSeqNumberReached target)) in
  mmodify (fun s => snark_set_proof_state s (sps_inner_state_root (sud_proof_state upd))
                      (sps_new_next_msg_idx (sud_proof_state upd)) new_seqno) ;;;
  match sud_new_predicate upd with
  | None => mret tt
  | Some new_vk =>
      match pred_try_as_buf new_vk with
      | None => merr (TxStructureCheckFailed "declared predicate key has unregistered type id"%string)
      | Some vk => mmodify (fun s => snark_set_update_vk s vk)
      end
  end.

Definition write_update_account {A} `{!IAccountStateMut A} (target : AccountId) (upd : SauTxUpdateData)
    : M ExecError A unit := fun a =>
  match as_snark_account_mut a with
  | Ok borrow => on_snark_account (write_update target upd) borrow
  | _ => (Panic, a)
  end.

(** Runs a verifier on a copy of nothing but its own state. *)
Definition run_verifier {V A} (m : M ExecError V A) (v : V) : res ExecError V :=
  match m v with (Ok _, v') => Ok v' | (Err e, _) => Err e | (Panic, _) => Panic end.

Section state.
Context {S : Type} `{!IStateAccessorMut S}.

Definition check_tx_constraints (c : TxConstraints) (s : S) : res ExecError unit :=
  let current_slot := cur_slot s in
  if match tc_min_slot c with Some min_slot => current_slot <? min_slot | None => false end then
    Err (TransactionNotMature (default 0 (tc_min_slot c)) current_slot)
  else if match tc_max_slot c with Some max_slot => max_slot <? current_slot | None => false end then
    Err (TransactionExpired (default 0 (tc_max_slot c)) current_slot)
  else Ok tt.

(** The destination and value of every effect, transfers first. *)
Definition effect_outputs (fx : TxEffects) : list (AccountId * BitcoinAmount) :=
  map (fun t => (st_dest t, st_value t)) (transfers_iter fx) ++
  map (fun m => (sm_dest m, mp_value (sm_payload m))) (messages_iter fx).

Fixpoint verify_outputs (s : S) (total_sent : BitcoinAmount) (outs : list (AccountId * BitcoinAmount))
    : res ExecError BitcoinAmount :=
  match outs with
  | [] => Ok total_sent
  | (dest, amt) :: outs' =>
      let! known := if acct_is_special dest then Ok true
                    else res_map_err State (check_account_exists s dest) in
      if negb known then Err (UnknownAccount dest)
      else
        let! total_sent' := ok_or (amt_checked_add total_sent amt) AmountOverflow in
        verify_outputs s total_sent' outs'
  end.

Definition verify_effects_safe (fx : TxEffects) (s : S) (acct : OLAccountState) : res ExecError unit :=
  let! total_sent := verify_outputs s 0 (effect_outputs fx) in
  if acct_balance acct <? total_sent then Err BalanceUnderflow else Ok tt.

(** Steps 1 and 2 of [process_update_tx], on the state as it is; returns the
    account. *)
Definition check_update_tx (sau : SauTxPayload) (fx : TxEffects) (proofs : TxProofs) (s : S)
    : res ExecError OLAccountState :=
  let target := sau_target sau in
  let! found := res_map_err State (get_account_state s target) in
  let! account_state := ok_or found (UnknownAccount target) in
  let! _ := verify_effects_safe fx s account_state in
  let! verifier := run_verifier
    (verify_snark_acct_update_proofs target account_state (sau_operation_data sau) fx)
    {| pvi_state_ctx := from_account_and_state s account_state;
       pvi_proof_tracker := from_txproofs proofs |} in
  if negb (is_exhausted verifier) then Err (Acct (InvalidUpdateProof target)) else Ok account_state.

Definition process_update_tx (sau : SauTxPayload) (fx : TxEffects) (proofs : TxProofs)
    (context : TxExecContext) : Exec S unit :=
  let* account_state := lift_exec (mreads_res (check_update_tx sau fx proofs)) in
  let upd := sod_update_data (sau_operation_data sau) in
  lift_exec (update_account_exec (sau_target sau) (write_update_account (sau_target sau) upd)) ;;;
  let* log := mlift (get_log_data upd) in
  emit_typed_log (acct_serial account_state) (sau_log_encode log).

Definition debit_source (source : AccountId) (total_sent : BitcoinAmount) : M ExecError S Coin :=
  if total_sent =? 0 then mret Coin_zero
  else update_account_exec source (mmap_err State (acct_take_balance total_sent)).

(** The coin split off for an effect, next to the remaining coin; panics if the
    value exceeds what remains. *)
Definition split_effect_value (remaining : Coin) (value : BitcoinAmount) : res ExecError (Coin * Coin) :=
  match Coin_split_out remaining value with
  | (Ok coin, rest) => Ok (coin, rest)
  | _ => Panic
  end.

Fixpoint distribute_transfers (ts : list SentTransfer) (remaining : Coin) : Exec S Coin :=
  match ts with
  | [] => mret remaining
  | t :: ts' =>
      let* (coin, rest) := mlift (split_effect_value remaining (st_value t)) in
      process_transfer (st_dest t) coin ;;;
      distribute_transfers ts' rest
  end.

Fixpoint distribute_messages (context : BasicExecContext) (source : AccountId)
    (ms : list SentMessage) (remaining : Coin) : Exec S Coin :=
  match ms with
  | [] => mret remaining
  | m :: ms' =>
      let* (coin, rest) := mlift (split_effect_value remaining (mp_value (sm_payload m))) in
      process_message context source (sm_dest m) {| mpc_coin := coin; mpc_data := mp_data (sm_payload m) |} ;;;
      distribute_messages context source ms' rest
  end.

(** The undistributed coin, if all effects went through. *)
Definition distribute_effects (context : BasicExecContext) (source : AccountId) (fx : TxEffects)
    (remaining : Coin) : Exec S Coin :=
  let* remaining := distribute_transfers (transfers_iter fx) remaining in
  distribute_messages context source (messages_iter fx) remaining.

Definition apply_tx_effects (context : BasicExecContext) (source : AccountId) (fx : TxEffects)
    : Exec S unit :=
  let* total_sent := mlift (ok_or (get_total_value_sent fx) AmountOverflow) in
  let* remaining := lift_exec (debit_source source total_sent) in
  let* remaining := distribute_effects context source fx remaining in
  mlift (Coin_consume_zero remaining).

Definition process_single_tx (tx : OLTransaction) (context : TxExecContext) : Exec S unit :=
  let fx := txd_effects (tx_data tx) in
  lift_exec (mreads_res (check_tx_constraints (txd_constraints (tx_data tx)))) ;;;
  let* sender_acct :=
    match txd_payload (tx_data tx) with
    | GenericAccountMessage gam =>
        mlift (verify_gam_tx gam fx) ;;; mret SEQUENCER_ACCT_ID
    | SnarkAccountUpdate sau =>
        process_update_tx sau fx (tx_proofs tx) context ;;; mret (sau_target sau)
    end in
  apply_tx_effects (tec_basic_context context) sender_acct fx.

Definition process_block_tx_segment (tx_seg : list OLTransaction) (context : TxExecContext)
    : Exec S unit :=
  miteri (fun i tx =>
      mmap_err (fun e => with_tx e (compute_txid tx) i) (process_single_tx tx context))
    0 tx_seg.
End state.
End tx.
