(* ===== verification/StfManifests.v ===== *)
(** * ASM manifest processing ([crates/ol/stf/src/manifest_processing.rs])

    Manifests are buffered when a block carries them; the effects of the
    buffered logs are applied at the epoch terminal. *)

From S2P Require Import Prelude Identifiers AcctTypes ChainTypes Externals LedgerTypes.
From S2P Require Import Bridge OLAccount OLState StateAccessor SnarkSys StfContext.

(** [ol/msg-types/src/predicate_update.rs]. *)
Definition MAX_PREDICATE_KEY_BYTES : Z := 2048.
Definition PredicateUpdateMsgData_new (key : bytes) : option bytes :=
  if zlen key <=? MAX_PREDICATE_KEY_BYTES then Some key else None.

Definition next_manifest_height `{X : Ext} (last_height : L1Height) (index : Z) : res ExecError L1Height :=
  if negb (index <=? U32_MAX) then Err AsmManifestHeightOverflow
  else match checked_add_u32 last_height index with
       | None => Err AsmManifestHeightOverflow
       | Some h => ok_or (checked_add_u32 h 1) AsmManifestHeightOverflow
       end.

Section manifests.
Context `{X : Ext}.

(** Encodes a typed message body into its envelope and bounds it as payload
    data; each [expect] of the source is a panic. *)
Definition build_msg_data {E} (ty : Z) (body : bytes) : res E bytes :=
  let! data := expect (owned_msg_to_vec ty body) in
  expect (msg_payload_data_try_into data).

Definition build_predicate_update_payload {E} (new_vk : PredicateKey) : res E MsgPayload :=
  let! key_bytes := expect (pred_as_buf_bytes new_vk) in
  let! msg_data := expect (PredicateUpdateMsgData_new key_bytes) in
  let! body := expect (res_ok (predicate_update_encode msg_data)) in
  let! data := build_msg_data PREDICATE_UPDATE_MSG_TYPE_ID body in
  Ok {| mp_value := 0; mp_data := data |}.

Definition build_predicate_update_message {E} (new_vk : PredicateKey) (cur_epoch : Epoch)
    : res E MessageEntry :=
  let! payload := build_predicate_update_payload new_vk in
  Ok {| me_source := ADMIN_MSG_ACCT_ID; me_incl_epoch := cur_epoch; me_payload := payload |}.

(** The closure of [process_ee_predicate_key_update]: whether it was applied. *)
Definition queue_predicate_update {A} `{!IAccountStateMut A} (msg : MessageEntry) : M StateError A bool := fun a =>
  match as_snark_account_mut a with
  | Ok (s, put) =>
      match snark_insert_inbox_message s msg with
      | Ok s' => (Ok true, put s')
      | Err e => (Err e, put s)
      | Panic => (Panic, put s)
      end
  | _ => (Ok false, a)
  end.

Section state.
Context {S : Type} `{!IStateAccessorMut S}.

Definition handle_asm_manifest (real_height : L1Height) (mf : AsmManifest) : M ExecError S unit :=
  miter (fun log => mmap_err State
           (try_append_pending_asm_log {| pal_height := real_height; pal_log := log |}))
    (mf_logs mf) ;;;
  mmap_err State (append_l1_block_rec real_height
    {| l1r_block_hash := mf_blkid mf; l1r_wtxids_root := mf_wtxids_root mf |}).

Definition process_block_manifests (manifests : list AsmManifest) : M ExecError S unit :=
  let* orig_l1_height := mreads last_l1_height in
  miteri (fun i mf =>
      let* real_height := mlift (next_manifest_height orig_l1_height i) in
      if negb (mf_height mf =? real_height) then
        merr (AsmManifestHeightMismatch real_height (mf_height mf) i)
      else handle_asm_manifest real_height mf)
    0 manifests.

(** [None]: the deposit is swept to limbo. *)
Definition resolve_deposit_destination (deposit : DepositLog) (s : S)
    : res ExecError (option (AccountId * bytes)) :=
  match DepositDescriptor_decode_from_slice (dl_destination deposit) with
  | Ok descriptor =>
      let! found := res_map_err State (find_account_id_by_serial s (dd_dest_acct_serial descriptor)) in
      match found with
      | None => Ok None
      | Some dest_id =>
          let! body := res_map_err Codec (subject_id_encode (subject_to_id (dd_dest_subject descriptor))) in
          let! data := build_msg_data DEPOSIT_MSG_TYPE_ID body in
          Ok (Some (dest_id, data))
      end
  | _ => Ok None
  end.

Definition process_deposit_log (context : BasicExecContext) (deposit : DepositLog) : Exec S unit :=
  let* resolved := lift_exec (mreads_res (resolve_deposit_destination deposit)) in
  let coin := {| coin_amt := dl_amount deposit |} in
  match resolved with
  | None => lift_exec (handle_misplaced_funds coin)
  | Some (dest_id, deposit_data) =>
      process_message context BRIDGE_GATEWAY_ACCT_ID dest_id
        {| mpc_coin := coin; mpc_data := deposit_data |}
  end.

Definition process_checkpoint_tip_update (data : CheckpointTipUpdate) : M ExecError S unit :=
  mmap_err State (set_asm_recorded_epoch
    (epoch_commitment_from_terminal (ctu_epoch data) (ctu_l2_commitment data))).

Definition process_ee_predicate_key_update (context : BasicExecContext) (data : EePredicateKeyUpdate)
    : M ExecError S unit :=
  let* found := mreads_res (fun s => res_map_err State (find_account_id_by_serial s (epku_account data))) in
  match found with
  | None => mret tt
  | Some acct_id =>
      match pred_try_as_buf (epku_new_predicate data) with
      | None => mret tt
      | Some new_vk =>
          let* update_msg := mlift (build_predicate_update_message new_vk (bec_epoch context)) in
          let* inner := mmap_err State (update_account acct_id (queue_predicate_update update_msg)) in
          let* _ := mlift (res_map_err State inner) in
          mret tt
      end
  end.

Definition process_asm_log (context : BasicExecContext) (log : AsmLogEntry) : Exec S unit :=
  match asm_log_msg_ty log with
  | None => mret tt
  | Some ty =>
      match asm_log_type_id ty with
      | Some AsmDeposit =>
          match asm_log_as_deposit log with
          | Some deposit => process_deposit_log context deposit
          | None => mret tt
          end
      | Some AsmCheckpointTipUpdate =>
          match asm_log_as_tip_update log with
          | Some data => lift_exec (process_checkpoint_tip_update data)
          | None => mret tt
          end
      | Some AsmEePredicateKeyUpdate =>
          match asm_log_as_predicate_update log with
          | Some data => lift_exec (process_ee_predicate_key_update context data)
          | None => mret tt
          end
      | Some (AsmOtherLog _) | None => mret tt
      end
  end.

(** The buffered logs, read out one index after the other from [idx] on. *)
Fixpoint snapshot_pending (s : S) (idx : Z) (n : nat) : res ExecError (list PendingAsmLog) :=
  match n with
  | O => Ok []
  | Datatypes.S n' =>
      let! e := expect (get_pending_asm_log s idx) in
      let! l := snapshot_pending s (idx + 1) n' in
      Ok (e :: l)
  end.

Definition process_epoch_terminal (context : BasicExecContext) : Exec S unit :=
  let* terminating_epoch := lift_exec (mreads cur_epoch) in
  let* pending := lift_exec (mreads_res (fun s =>
    snapshot_pending s 0 (Z.to_nat (pending_asm_logs_len s)))) in
  miter (fun entry => process_asm_log context (pal_log entry)) pending ;;;
  lift_exec (mmap_err State reset_intraepoch_state) ;;;
  let* new_epoch := mlift (ok_or (checked_add_u32 terminating_epoch 1) EpochOverflow) in
  lift_exec (mmap_err State (set_cur_epoch new_epoch)).
End state.
End manifests.
