(* ===== verification/StfBlock.v ===== *)
(** * Block verification and assembly
    ([crates/ol/stf/src/{chain_processing,verification,assembly}.rs])

    Header continuity, block structure, the phases of a block in order and the
    roots they must lead to; verification of an epoch from its diff; and the
    construction of blocks from their components, with batch execution. *)

From S2P Require Import Prelude Identifiers AcctTypes ChainTypes Externals LedgerTypes Bridge OLAccount.
From S2P Require Import OLState StateAccessor SnarkSys StfContext StfTx StfManifests.

Section block.
Context `{X : Ext}.

(** ** [verification.rs]: checks on headers and bodies *)

(** Terminal flag as an integer, [is_terminal() as u32]. *)
Definition b2z (b : bool) : Z := if b then 1 else 0.

Definition verify_header_continuity (header : OLBlockHeader) (parent : option OLBlockHeader)
    : res ExecError unit :=
  match parent with
  | Some ph =>
      if negb (hdr_parent_blkid header =? compute_blkid ph) then Err BlockParentMismatch
      else if (hdr_epoch header =? 0) || (hdr_slot header =? 0) then Err ChainIntegrity
      else if negb (hdr_epoch header =? wrap_u32 (hdr_epoch ph + b2z (hdr_is_terminal ph))) then
        Err (SkipEpochs (hdr_epoch ph) (hdr_epoch header))
      else if negb (wrap_i64 (wrap_i64 (hdr_slot header) - wrap_i64 (hdr_slot ph)) =? 1) then
        Err (SkipTooManySlots (hdr_slot ph) (hdr_slot header))
      else Ok tt
  | None =>
      if negb (hdr_slot header =? 0) || negb (hdr_epoch header =? 0) then Err GenesisCoordsNonzero
      else if negb (blkid_is_null (hdr_parent_blkid header)) then Err GenesisParentNonnull
      else if negb (hdr_is_terminal header) then Err GenesisNonterminal
      else Ok tt
  end.

Definition verify_block_structure (header : OLBlockHeader) (body : OLBlockBody) : res ExecError unit :=
  if negb (body_hash_commitment body =? hdr_body_root header) then Err BlockStructureMismatch else Ok tt.

(** Leaves padded with zero hashes to the next power of two. *)
Definition pad_leaves (leaves : list Buf32) : list Buf32 :=
  leaves ++ replicate (2 ^ Nat.log2_up (length leaves) - length leaves) buf32_zero.

Definition compute_logs_root {E} (logs : list OLLog) : res E Buf32 :=
  match logs with
  | [] => Ok buf32_zero
  | _ => expect (merkle_tree_root (pad_leaves (map log_hash_commitment logs)))
  end.

Record BlockExecExpectations := { bee_state_root : Buf32; bee_logs_root : Buf32 }.
Definition BlockExecExpectations_from_block_parts (header : OLBlockHeader) : BlockExecExpectations :=
  {| bee_state_root := hdr_state_root header; bee_logs_root := hdr_logs_root header |}.

Record EpochExecExpectations := { eee_epoch_post_state_root : Buf32 }.

Section state.
Context {S : Type} `{!IStateAccessorMut S}.

(** Runs a phase on a fresh output buffer and returns what it emitted. *)
Definition with_fresh_output {A} (m : Exec S A) : M ExecError S (A * list OLLog) := fun s =>
  let '(r, x) := m {| xs_state := s; xs_out := [] |} in
  (match r with Ok a => Ok (a, xs_out x) | Err e => Err e | Panic => Panic end, xs_state x).

(** ** [chain_processing.rs] *)

(** The commitment of step 3 is computed and dropped. *)
Definition process_epoch_initial (context : EpochInitialContext) : M ExecError S unit :=
  let* state_cur_epoch := mreads cur_epoch in
  if negb (eic_cur_epoch context =? state_cur_epoch) then
    merr (ContextEpochMismatch (eic_cur_epoch context) state_cur_epoch)
  else mret tt.

Definition check_block_coords (context : BlockContext) : res ExecError unit :=
  match bc_parent_header context with
  | Some ph =>
      let! exp_epoch := ok_or (checked_add_u32 (hdr_epoch ph) (b2z (hdr_is_terminal ph))) EpochOverflow in
      if negb (bc_epoch context =? exp_epoch) then
        Err (IncorrectEpoch (hdr_epoch ph) (bc_epoch context) (hdr_is_terminal ph))
      else
        let! exp_slot := ok_or (checked_add_u64 (hdr_slot ph) 1) SlotOverflow in
        if negb (bc_slot context =? exp_slot) then Err (IncorrectSlot exp_slot (bc_slot context))
        else Ok tt
  | None =>
      if negb (bc_slot context =? 0) || negb (bc_epoch context =? 0) then Err GenesisCoordsNonzero
      else Ok tt
  end.

Definition process_block_start (context : BlockContext) : M ExecError S unit :=
  mlift (check_block_coords context) ;;;
  let* state_epoch := mreads cur_epoch in
  if negb (bc_epoch context =? state_epoch) then merr (HeaderEpochMismatch (bc_epoch context) state_epoch)
  else mmap_err State (set_cur_slot (bc_slot context)).

Definition epoch_initial_if_needed (context : BlockContext) : M ExecError S unit :=
  if is_epoch_initial context then
    let* epoch_context := mlift (get_epoch_initial_context context) in
    process_epoch_initial epoch_context
  else mret tt.

(** ** [verification.rs]: blocks *)

Definition check_state_root (expected : Buf32) : M ExecError S unit :=
  let* computed := mreads_res (fun s => res_map_err State (compute_state_root s)) in
  if negb (computed =? expected) then merr ChainIntegrity else mret tt.

(** Steps 3 and 4, in a context with bridge parameters. *)
Definition exec_body (info : BlockInfo) (parent : option OLBlockHeader) (body : OLBlockBody)
    (bridge_params : BridgeParams) : Exec S unit :=
  let basic_ctx := with_bridge_params (BasicExecContext_new info) bridge_params in
  let tx_ctx := {| tec_basic_context := basic_ctx; tec_parent_header := parent |} in
  match body_tx_segment body with
  | Some tx_segment => process_block_tx_segment tx_segment tx_ctx
  | None => mret tt
  end ;;;
  match body_manifests body with
  | Some mfs => lift_exec (process_block_manifests mfs)
  | None => mret tt
  end.

Definition verify_block_predrain (header : OLBlockHeader) (parent : option OLBlockHeader)
    (body : OLBlockBody) (bridge_params : BridgeParams) : M ExecError S (list OLLog) :=
  mlift (verify_header_continuity header parent) ;;;
  mlift (verify_block_structure header body) ;;;
  let exp := BlockExecExpectations_from_block_parts header in
  let block_info := BlockInfo_from_header header in
  let* block_context := mlift (BlockContext_new block_info parent) in
  epoch_initial_if_needed block_context ;;;
  process_block_start block_context ;;;
  let* (_, logs) := with_fresh_output (exec_body block_info parent body bridge_params) in
  (if negb (hdr_is_terminal header) then check_state_root (bee_state_root exp) else mret tt) ;;;
  mret logs.

(** The drain runs in a context without bridge parameters. *)
Definition apply_epoch_terminal (header : OLBlockHeader) : M ExecError S (list OLLog) :=
  let exp := BlockExecExpectations_from_block_parts header in
  let basic_ctx := BasicExecContext_new (BlockInfo_from_header header) in
  if hdr_is_terminal header then
    let* (_, logs) := with_fresh_output (process_epoch_terminal basic_ctx) in
    check_state_root (bee_state_root exp) ;;;
    mret logs
  else mret [].

Definition verify_block (header : OLBlockHeader) (parent : option OLBlockHeader)
    (body : OLBlockBody) (bridge_params : BridgeParams) : M ExecError S (list OLLog) :=
  let exp := BlockExecExpectations_from_block_parts header in
  let* tx_logs := verify_block_predrain header parent body bridge_params in
  let* drain_logs := apply_epoch_terminal header in
  let logs := tx_logs ++ drain_logs in
  if MAX_LOGS_PER_BLOCK <? zlen logs then merr (LogsOverflow (zlen logs) MAX_LOGS_PER_BLOCK)
  else
    let* root := mlift (compute_logs_root logs) in
    if negb (root =? bee_logs_root exp) then merr ChainIntegrity else mret logs.

(** ** [verification.rs]: epochs from a DA diff

    [apply_to_state] is the application of the DA scheme's diff. *)
Definition apply_da_epoch {D E} (apply_to_state : D -> M E S unit) (epoch_info : EpochInfo) (diff : D)
    (manifests : list AsmManifest) : M ExecError S unit :=
  process_epoch_initial {| eic_cur_epoch := ei_epoch epoch_info;
                           eic_prev_terminal := ei_prev_terminal epoch_info |} ;;;
  mmap_err (fun _ => ChainIntegrity) (apply_to_state diff) ;;;
  let term_ctx := BasicExecContext_new (ei_terminal_info epoch_info) in
  let* (_, logs) := with_fresh_output (
    lift_exec (process_block_manifests manifests) ;;;
    process_epoch_terminal term_ctx) in
  mlift (verify_logs_within_block_limit logs).

Definition verify_epoch_with_diff {D E} (apply_to_state : D -> M E S unit) (epoch_info : EpochInfo)
    (diff : D) (manifests : list AsmManifest) (exp : EpochExecExpectations) : M ExecError S unit :=
  apply_da_epoch apply_to_state epoch_info diff manifests ;;;
  check_state_root (eee_epoch_post_state_root exp).
End state.
End block.

(** * Block assembly ([crates/ol/stf/src/assembly.rs]) *)

Section assembly.
Context `{X : Ext}.

Record BlockExecInput := {
  bxi_tx_segment : list OLTransaction;
  bxi_manifest_container : option (list AsmManifest);
  bxi_is_terminal : bool;
}.

(** Panics on a body without transaction segment. *)
Definition BlockExecInput_from_block_parts {E} (header : OLBlockHeader) (body : OLBlockBody)
    : res E BlockExecInput :=
  let! tx_segment := expect (body_tx_segment body) in
  Ok {| bxi_tx_segment := tx_segment; bxi_manifest_container := body_manifests body;
        bxi_is_terminal := hdr_is_terminal header |}.

Record BlockExecOutputs := { beo_state_root : Buf32; beo_logs : list OLLog }.

Definition compute_block_logs_root {E} (o : BlockExecOutputs) : res E Buf32 :=
  match beo_logs o with
  | [] => Ok buf32_zero
  | logs => expect (merkle_tree_root (pad_leaves (map log_hash_commitment logs)))
  end.

Record BlockComponents := {
  bcs_tx_segment : list OLTransaction;
  bcs_manifest_container : option (list AsmManifest);
  bcs_is_terminal : bool;
}.

Definition BlockComponents_new_empty : BlockComponents :=
  {| bcs_tx_segment := []; bcs_manifest_container := None; bcs_is_terminal := false |}.

Definition BlockComponents_new_txs_from_ol_transactions {E} (txs : list OLTransaction)
    : res E BlockComponents :=
  let! seg := expect (res_ok (OLTxSegment_new txs)) in
  Ok {| bcs_tx_segment := seg; bcs_manifest_container := None; bcs_is_terminal := false |}.

(** A payload with default constraints and empty proofs; a GAM payload gets the
    zero-value message to its target. *)
Definition tx_of_payload (p : TransactionPayload) : OLTransaction :=
  let effects :=
    match p with
    | GenericAccountMessage gam =>
        match TxEffects_push_message TxEffects_default (gam_target gam) 0 [] with
        | Ok (_, fx) => fx
        | _ => TxEffects_default
        end
    | SnarkAccountUpdate _ => TxEffects_default
    end in
  {| tx_data := {| txd_payload := p; txd_constraints := TxConstraints_default; txd_effects := effects |};
     tx_proofs := TxProofs_new_empty |}.

Definition BlockComponents_new_txs {E} (payloads : list TransactionPayload) : res E BlockComponents :=
  BlockComponents_new_txs_from_ol_transactions (map tx_of_payload payloads).

Definition BlockComponents_new_manifests {E} (mfs : list AsmManifest) : res E BlockComponents :=
  let! c := expect (res_ok (OLAsmManifestContainer_new mfs)) in
  Ok {| bcs_tx_segment := []; bcs_manifest_container := Some c; bcs_is_terminal := false |}.

Definition with_terminal (c : BlockComponents) (is_terminal : bool) : BlockComponents :=
  {| bcs_tx_segment := bcs_tx_segment c; bcs_manifest_container := bcs_manifest_container c;
     bcs_is_terminal := is_terminal |}.
Definition as_terminal (c : BlockComponents) : BlockComponents := with_terminal c true.

Definition BlockComponents_from_block (block : OLBlock) : BlockComponents :=
  {| bcs_tx_segment := default [] (body_tx_segment (blk_body block));
     bcs_manifest_container := body_manifests (blk_body block);
     bcs_is_terminal := hdr_is_terminal (blk_header block) |}.

Definition to_exec_input (c : BlockComponents) : BlockExecInput :=
  {| bxi_tx_segment := bcs_tx_segment c; bxi_manifest_container := bcs_manifest_container c;
     bxi_is_terminal := bcs_is_terminal c |}.

Record CompletedBlock := { cb_header : OLBlockHeader; cb_body : OLBlockBody }.
Record ConstructBlockOutput := { cbo_completed_block : CompletedBlock; cbo_outputs : BlockExecOutputs }.

Section state.
Context {S : Type} `{!IStateAccessorMut S}.

Definition execute_epoch_initial_if_needed (context : BlockContext) : M ExecError S unit :=
  if is_epoch_initial context then
    let* init_ctx := mlift (get_epoch_initial_context context) in
    process_epoch_initial init_ctx
  else mret tt.

Definition verify_output_limit : Exec S unit := mreads_res (fun x => verify_logs_within_block_limit (xs_out x)).

(** Steps 3 to 5 and the final root and log-limit check, all on one buffer. *)
Definition execute_phases (context : BlockContext) (input : BlockExecInput) (bridge_params : BridgeParams)
    : Exec S Buf32 :=
  let basic_ctx := with_bridge_params (BasicExecContext_new (bc_block_info context)) bridge_params in
  let tx_ctx := {| tec_basic_context := basic_ctx; tec_parent_header := bc_parent_header context |} in
  process_block_tx_segment (bxi_tx_segment input) tx_ctx ;;;
  verify_output_limit ;;;
  match bxi_manifest_container input with
  | Some mfs => lift_exec (process_block_manifests mfs)
  | None => mret tt
  end ;;;
  (if bxi_is_terminal input then
     process_epoch_terminal (tec_basic_context tx_ctx) ;;; verify_output_limit
   else mret tt) ;;;
  let* state_root := lift_exec (mreads_res (fun s => res_map_err State (compute_state_root s))) in
  verify_output_limit ;;;
  mret state_root.

Definition execute_block_inputs (context : BlockContext) (input : BlockExecInput)
    (bridge_params : BridgeParams) : M ExecError S BlockExecOutputs :=
  execute_epoch_initial_if_needed context ;;;
  process_block_start context ;;;
  let* (state_root, logs) := with_fresh_output (execute_phases context input bridge_params) in
  mret {| beo_state_root := state_root; beo_logs := logs |}.

Definition construct_block (context : BlockContext) (components : BlockComponents)
    (bridge_params : BridgeParams) : M ExecError S ConstructBlockOutput :=
  let is_terminal := bcs_is_terminal components in
  let* exec_outputs := execute_block_inputs context (to_exec_input components) bridge_params in
  let* logs_root := mlift (compute_block_logs_root exec_outputs) in
  let state_root := beo_state_root exec_outputs in
  let parent_blkid := compute_parent_blkid context in
  let body := OLBlockBody_new_common (bcs_tx_segment components) in
  let body := match bcs_manifest_container components with
              | Some mfs => OLBlockBody_set_manifests body mfs
              | None => body
              end in
  let body_root := body_hash_commitment body in
  let flags := BlockFlags_set_is_terminal BlockFlags_zero is_terminal in
  let header := {|
    hdr_timestamp := bc_timestamp context; hdr_flags := flags; hdr_slot := bc_slot context;
    hdr_epoch := bc_epoch context; hdr_parent_blkid := parent_blkid; hdr_body_root := body_root;
    hdr_state_root := state_root; hdr_logs_root := logs_root |} in
  mret {| cbo_completed_block := {| cb_header := header; cb_body := body |};
          cbo_outputs := exec_outputs |}.

Definition execute_and_complete_block (context : BlockContext) (components : BlockComponents)
    (bridge_params : BridgeParams) : M ExecError S CompletedBlock :=
  let* o := construct_block context components bridge_params in
  mret (cbo_completed_block o).

(** The blocks of a batch, each verified on top of its predecessor; the logs of
    all blocks, concatenated. *)
Fixpoint execute_block_batch (blocks : list OLBlock) (parent : OLBlockHeader)
    (bridge_params : BridgeParams) : M ExecError S (list OLLog) :=
  match blocks with
  | [] => mret []
  | block :: blocks' =>
      let* logs := verify_block (blk_header block) (Some parent) (blk_body block) bridge_params in
      let* rest := execute_block_batch blocks' (blk_header block) bridge_params in
      mret (logs ++ rest)
  end.

Fixpoint execute_block_batch_predrain (blocks : list OLBlock) (parent : OLBlockHeader)
    (bridge_params : BridgeParams) : M ExecError S (list OLLog) :=
  match blocks with
  | [] => mret []
  | block :: blocks' =>
      let* logs := verify_block_predrain (blk_header block) (Some parent) (blk_body block) bridge_params in
      let* rest := execute_block_batch_predrain blocks' (blk_header block) bridge_params in
      mret (logs ++ rest)
  end.
End state.
End assembly.
