(* ===== verification/StfSim.v ===== *)
(** * The transition function is layer-independent

    On states related by a simulation of accessors, every phase of block
    execution has the same outcome, emits the same logs and leaves related
    states: what is proved of the transition function over one accessor holds
    over every layer that simulates it.  In particular over a write-tracking
    layer whose batch is committed afterwards. *)

From S2P Require Import Prelude Identifiers AcctTypes ChainTypes Externals LedgerTypes Bridge OLAccount.
From S2P Require Import WriteBatch OLState StateAccessor LedgerSpec MemoryLayer BatchApply WriteTracking.
From S2P Require Import BatchDiff SnarkSys StfContext StfTx StfManifests StfBlock.

(** ** Account computations agree across account types *)

Create HintDb agree discriminated.

Section agree.
Context `{X : Ext} {A1 A2 : Type} `{!IAccountStateMut A1, !IAccountStateMut A2}.

Lemma agree_mbind {E P Q} (m1 : M E A1 P) (m2 : M E A2 P) (k1 : P -> M E A1 Q) (k2 : P -> M E A2 Q) :
  acct_agree m1 m2 -> (forall p, acct_agree (k1 p) (k2 p)) -> acct_agree (mbind m1 k1) (mbind m2 k2).
Proof. intros Hm Hk R HR. apply sim_mbind; [by apply Hm|]. intros p. by apply Hk. Qed.

Lemma agree_mret {E Q} (q : Q) : acct_agree (E := E) (mret (S := A1) q) (mret (S := A2) q).
Proof. intros R HR. apply sim_mret. Qed.

Lemma agree_mmap_err {E E' Q} (f : E -> E') (m1 : M E A1 Q) (m2 : M E A2 Q) :
  acct_agree m1 m2 -> acct_agree (mmap_err f m1) (mmap_err f m2).
Proof. intros Hm R HR. by apply sim_mmap_err, Hm. Qed.

Lemma agree_add_balance {E} c : acct_agree (A1 := A1) (A2 := A2) (acct_add_balance (E := E) c) (acct_add_balance c).
Proof. intros R HR. apply acs_add_balance. Qed.

Lemma agree_take_balance amt : acct_agree (A1 := A1) (A2 := A2) (acct_take_balance amt) (acct_take_balance amt).
Proof. intros R HR. apply acs_take_balance. Qed.

Lemma agree_credit {E} c (p1 : M E A1 unit) (p2 : M E A2 unit) :
  acct_agree p1 p2 -> acct_agree (acct_add_balance c ;;; p1) (acct_add_balance c ;;; p2).
Proof. intros Hp. apply agree_mbind; [apply agree_add_balance|done]. Qed.

(** A computation on a borrowed snark part that agrees for every relation of
    snark parts. *)
Lemma on_snark_account_sim {B1 B2} `{!ISnarkAccountStateMut B1, !ISnarkAccountStateMut B2} {E Q}
    (f1 : M E B1 Q) (f2 : M E B2 Q) (R : A1 -> A2 -> Prop) (RS : B1 -> B2 -> Prop) s1 s2 put1 put2 :
  sim RS f1 f2 -> RS s1 s2 -> (forall s1' s2', RS s1' s2' -> R (put1 s1') (put2 s2')) ->
  fst (on_snark_account f1 (s1, put1)) = fst (on_snark_account f2 (s2, put2)) /\
  (fst (on_snark_account f1 (s1, put1)) <> Panic ->
   R (snd (on_snark_account f1 (s1, put1))) (snd (on_snark_account f2 (s2, put2)))).
Proof.
  intros Hf Hs Hp. destruct (Hf s1 s2 Hs) as [Hr Hst]. unfold on_snark_account. simpl.
  destruct (f1 s1), (f2 s2); simpl in *. auto.
Qed.

Lemma handle_snark_msg_sim {B1 B2} `{!ISnarkAccountStateMut B1, !ISnarkAccountStateMut B2}
    (RS : B1 -> B2 -> Prop) `{!SnarkSim RS} epoch from payload :
  sim RS (handle_snark_msg epoch from payload) (handle_snark_msg epoch from payload).
Proof.
  intros s1 s2 Hs. unfold handle_snark_msg.
  pose proof (sns_insert_inbox_message s1 s2
    {| me_source := from; me_incl_epoch := epoch; me_payload := payload |} Hs) as Hi.
  destruct (snark_insert_inbox_message s1 _), (snark_insert_inbox_message s2 _); simplify_eq/=; done.
Qed.

Lemma write_update_sim {B1 B2} `{!ISnarkAccountStateMut B1, !ISnarkAccountStateMut B2}
    (RS : B1 -> B2 -> Prop) `{!SnarkSim RS} target upd :
  sim RS (write_update target upd) (write_update target upd).
Proof.
  unfold write_update. apply sim_mbind; [apply sim_mlift|]. intros n. apply sim_mbind.
  - intros s1 s2 Hs. simpl. split; [done|]. intros _. by apply sns_set_proof_state.
  - intros _. destruct (sud_new_predicate upd); [|apply sim_mret].
    destruct (pred_try_as_buf _) eqn:Hk; [|apply sim_merr].
    intros s1 s2 Hs. simpl. split; [done|]. intros _. apply sns_set_update_vk; [done|]. left. by eexists.
Qed.

Lemma agree_deliver ctx sender record :
  acct_agree (A1 := A1) (A2 := A2) (deliver_to_account ctx sender record) (deliver_to_account ctx sender record).
Proof.
  intros R HR a1 a2 Ha. unfold deliver_to_account.
  destruct (acs_borrow a1 a2 Ha) as [RS s1 s2 put1 put2 HS Hs Hp|e]; [|done].
  eapply on_snark_account_sim; [by apply handle_snark_msg_sim|exact Hs|exact Hp].
Qed.

Lemma agree_write_update target upd :
  acct_agree (A1 := A1) (A2 := A2) (write_update_account target upd) (write_update_account target upd).
Proof.
  intros R HR a1 a2 Ha. unfold write_update_account.
  destruct (acs_borrow a1 a2 Ha) as [RS s1 s2 put1 put2 HS Hs Hp|e]; [|done].
  eapply on_snark_account_sim; [by apply write_update_sim|exact Hs|exact Hp].
Qed.

Lemma agree_queue_predicate_update msg :
  acct_agree (A1 := A1) (A2 := A2) (queue_predicate_update msg) (queue_predicate_update msg).
Proof.
  intros R HR a1 a2 Ha. unfold queue_predicate_update.
  destruct (acs_borrow a1 a2 Ha) as [RS s1 s2 put1 put2 HS Hs Hp|e]; [|done].
  pose proof (sns_insert_inbox_message s1 s2 msg Hs) as Hi.
  destruct (snark_insert_inbox_message s1 msg), (snark_insert_inbox_message s2 msg); simplify_eq/=; try done.
  - split; [done|]. intros _. by apply Hp.
  - split; [done|]. intros _. by apply Hp.
Qed.
End agree.

#[export] Hint Resolve agree_add_balance agree_take_balance agree_deliver agree_write_update
  agree_queue_predicate_update agree_credit agree_mret agree_mmap_err : agree.

(** ** Simulation of the phases *)

Definition xsim {S1 S2} (R : S1 -> S2 -> Prop) (x1 : XState S1) (x2 : XState S2) : Prop :=
  R (xs_state x1) (xs_state x2) /\ xs_out x1 = xs_out x2.

Section sim.
Context `{X : Ext} {S1 S2 : Type} `{!IStateAccessorMut S1, !IStateAccessorMut S2}.
Context (R : S1 -> S2 -> Prop) `{!PredrainSim R}.

Lemma sim_lift_exec {A} (m1 : M ExecError S1 A) (m2 : M ExecError S2 A) :
  sim R m1 m2 -> sim (xsim R) (lift_exec m1) (lift_exec m2).
Proof.
  intros Hm x1 x2 [Hs Ho]. destruct (Hm _ _ Hs) as [Hr Hst]. unfold lift_exec.
  destruct (m1 (xs_state x1)), (m2 (xs_state x2)); simpl in *. split; [done|]. by split; [apply Hst|].
Qed.

Lemma sim_emit_typed_log serial enc : sim (xsim R) (emit_typed_log serial enc) (emit_typed_log serial enc).
Proof.
  apply sim_mbind; [apply sim_mlift|]. intros body x1 x2 [Hs Ho].
  unfold emit_log, emit_logs, buffer_emit_logs. rewrite Ho. by case_match.
Qed.

Lemma sim_update_account_exec {A} id (f1 : M ExecError (AcctMut (S := S1)) A) (f2 : M ExecError (AcctMut (S := S2)) A) :
  acct_agree f1 f2 -> sim R (update_account_exec id f1) (update_account_exec id f2).
Proof.
  intros Hf. apply sim_mbind; [by apply sim_mmap_err, ss_update_account|]. intros. apply sim_mlift.
Qed.

Lemma sim_handle_misplaced_funds c : sim R (handle_misplaced_funds c) (handle_misplaced_funds c).
Proof. apply sim_mmap_err, ss_add_limbo_funds_coin. Qed.

Lemma sim_with_fresh_output {A} (m1 : Exec S1 A) (m2 : Exec S2 A) :
  sim (xsim R) m1 m2 -> sim R (with_fresh_output m1) (with_fresh_output m2).
Proof.
  intros Hm s1 s2 Hs. unfold with_fresh_output.
  destruct (Hm {| xs_state := s1; xs_out := [] |} {| xs_state := s2; xs_out := [] |}) as [Hr Hst]; [done|].
  destruct (m1 _) as [r1 x1], (m2 _) as [r2 x2]; simpl in *. subst r2.
  destruct r1; simpl; (split; [|intros; by apply Hst]); try done.
  destruct Hst as [_ ->]; done.
Qed.

Lemma sim_compute_root :
  sim R (mreads_res (fun s => res_map_err State (compute_state_root s)))
        (mreads_res (fun s => res_map_err State (compute_state_root s))).
Proof. apply sim_mreads_res. intros s1 s2 Hs. by rewrite (rs_compute_state_root s1 s2 Hs). Qed.
End sim.

(** Walks down two computations of the same shape. *)
Ltac sim_walk :=
  repeat first
    [ assumption
    | solve [auto with sim]
    | apply sim_update_account_exec; solve [auto with agree]
    | match goal with |- PredrainSim _ => apply _ end
    | apply sim_emit_typed_log | apply sim_handle_misplaced_funds
    | apply sim_compute_root
    | apply sim_mret | apply sim_merr | apply sim_mpanic | apply sim_mlift
    | apply sim_mbind; [|intros ?]
    | apply sim_miter; intros ? | apply sim_miteri; intros ? ?
    | apply sim_lift_exec | apply sim_with_fresh_output
    | apply ss_update_account; solve [auto with agree]
    | apply ss_set_cur_slot | apply ss_set_cur_epoch | apply ss_append_l1_block_rec
    | apply ss_set_asm_recorded_epoch | apply ss_try_append_pending_asm_log
    | apply ss_reset_intraepoch_state
    | apply sim_mreads; intros ? ? ? | apply sim_mreads_res; intros ? ? ?
    | apply sim_mmap_err
    | case_match ].

#[export] Hint Extern 0 (PredrainSim _) => apply _ : sim.

Section phases.
Context `{X : Ext} {S1 S2 : Type} `{!IStateAccessorMut S1, !IStateAccessorMut S2}.
Context (R : S1 -> S2 -> Prop) `{!PredrainSim R}.

Lemma process_transfer_sim target c : sim (xsim R) (process_transfer target c) (process_transfer target c).
Proof.
  unfold process_transfer, credit_account_noop, credit_account. sim_walk.
  by rewrite (rs_check_account_exists s1 s2 target).
Qed.
#[local] Hint Resolve process_transfer_sim : sim.

Lemma process_message_sim ctx sender target msg :
  sim (xsim R) (process_message ctx sender target msg) (process_message ctx sender target msg).
Proof.
  unfold process_message, handle_bridge_gateway_message, credit_account. sim_walk.
  by rewrite (rs_check_account_exists s1 s2 target).
Qed.
#[local] Hint Resolve process_message_sim : sim.

Lemma verify_outputs_sim s1 s2 total outs :
  R s1 s2 -> verify_outputs s1 total outs = verify_outputs s2 total outs.
Proof.
  intros Hs. revert total. induction outs as [|[dest amt] outs IH]; intros total; simpl; [done|].
  rewrite (rs_check_account_exists s1 s2 dest Hs). match goal with |- res_bind ?r _ = _ => destruct r as [known|e|]; simpl; [|done..] end.
  destruct known; simpl; [|done]. destruct (ok_or _ _); simpl; auto.
Qed.

Lemma check_update_tx_sim sau fx proofs s1 s2 :
  R s1 s2 -> check_update_tx sau fx proofs s1 = check_update_tx sau fx proofs s2.
Proof.
  intros Hs. unfold check_update_tx, verify_effects_safe, from_account_and_state.
  rewrite (rs_get_account_state s1 s2 _ Hs), (rs_l1_block_refs_mmr s1 s2 Hs).
  destruct (res_map_err State _) as [[acct|]|e|]; simpl; [|done..].
  by rewrite (verify_outputs_sim s1 s2 0 _ Hs).
Qed.

Lemma process_update_tx_sim sau fx proofs ctx :
  sim (xsim R) (process_update_tx sau fx proofs ctx) (process_update_tx sau fx proofs ctx).
Proof. unfold process_update_tx. sim_walk. by apply check_update_tx_sim. Qed.
#[local] Hint Resolve process_update_tx_sim : sim.

Lemma distribute_transfers_sim ts c : sim (xsim R) (distribute_transfers ts c) (distribute_transfers ts c).
Proof.
  revert c. induction ts as [|t ts IH]; intros c; simpl; sim_walk.
Qed.
#[local] Hint Resolve distribute_transfers_sim : sim.

Lemma distribute_messages_sim ctx source ms c :
  sim (xsim R) (distribute_messages ctx source ms c) (distribute_messages ctx source ms c).
Proof.
  revert c. induction ms as [|m ms IH]; intros c; simpl; sim_walk.
Qed.
#[local] Hint Resolve distribute_messages_sim : sim.

Lemma apply_tx_effects_sim ctx source fx :
  sim (xsim R) (apply_tx_effects ctx source fx) (apply_tx_effects ctx source fx).
Proof.
  unfold apply_tx_effects, debit_source, distribute_effects. sim_walk.
Qed.
#[local] Hint Resolve apply_tx_effects_sim : sim.

Lemma process_single_tx_sim tx ctx : sim (xsim R) (process_single_tx tx ctx) (process_single_tx tx ctx).
Proof.
  unfold process_single_tx. sim_walk. unfold check_tx_constraints. by rewrite (rs_cur_slot s1 s2).
Qed.
#[local] Hint Resolve process_single_tx_sim : sim.

Lemma process_block_tx_segment_sim txs ctx :
  sim (xsim R) (process_block_tx_segment txs ctx) (process_block_tx_segment txs ctx).
Proof. unfold process_block_tx_segment. sim_walk. Qed.

Lemma process_block_manifests_sim mfs : sim R (process_block_manifests mfs) (process_block_manifests mfs).
Proof.
  unfold process_block_manifests, handle_asm_manifest. sim_walk. by apply rs_last_l1_height.
Qed.

Lemma check_state_root_sim root : sim R (check_state_root root) (check_state_root root).
Proof. unfold check_state_root. sim_walk. Qed.

Lemma process_epoch_initial_sim ctx : sim R (process_epoch_initial ctx) (process_epoch_initial ctx).
Proof. unfold process_epoch_initial. sim_walk. by apply rs_cur_epoch. Qed.

Lemma process_block_start_sim ctx : sim R (process_block_start ctx) (process_block_start ctx).
Proof. unfold process_block_start. sim_walk. by apply rs_cur_epoch. Qed.
End phases.

#[export] Hint Resolve process_message_sim process_block_tx_segment_sim process_block_manifests_sim
  check_state_root_sim process_epoch_initial_sim process_block_start_sim : sim.

Section drain.
Context `{X : Ext} {S1 S2 : Type} `{!IStateAccessorMut S1, !IStateAccessorMut S2}.
Context (R : S1 -> S2 -> Prop) `{!StateSim R}.

Lemma resolve_deposit_destination_sim d s1 s2 :
  R s1 s2 -> resolve_deposit_destination d s1 = resolve_deposit_destination d s2.
Proof.
  intros Hs. unfold resolve_deposit_destination. case_match; [|done..].
  by rewrite (rs_find_account_id_by_serial s1 s2 _ Hs).
Qed.

Lemma process_asm_log_sim ctx log : sim (xsim R) (process_asm_log ctx log) (process_asm_log ctx log).
Proof.
  unfold process_asm_log, process_deposit_log, process_checkpoint_tip_update,
    process_ee_predicate_key_update. sim_walk.
  - by apply resolve_deposit_destination_sim.
  - by rewrite (rs_find_account_id_by_serial s1 s2).
Qed.
#[local] Hint Resolve process_asm_log_sim : sim.

Lemma snapshot_pending_sim s1 s2 idx n :
  R s1 s2 -> 0 <= idx -> snapshot_pending s1 idx n = snapshot_pending s2 idx n.
Proof.
  intros Hs. revert idx. induction n as [|n IH]; intros idx Hi; simpl; [done|].
  rewrite (rs_get_pending_asm_log s1 s2 idx Hs Hi). destruct (expect _); simpl; [|done..].
  by rewrite (IH (idx + 1)) by lia.
Qed.

Lemma process_epoch_terminal_sim ctx : sim (xsim R) (process_epoch_terminal ctx) (process_epoch_terminal ctx).
Proof.
  unfold process_epoch_terminal. sim_walk.
  - by apply rs_cur_epoch.
  - rewrite (rs_pending_asm_logs_len s1 s2) by done. by apply snapshot_pending_sim.
Qed.
End drain.

#[export] Hint Resolve process_epoch_terminal_sim : sim.

Section predrain.
Context `{X : Ext} {S1 S2 : Type} `{!IStateAccessorMut S1, !IStateAccessorMut S2}.
Context (R : S1 -> S2 -> Prop) `{!PredrainSim R}.

Lemma verify_block_predrain_sim header parent body bp :
  sim R (verify_block_predrain header parent body bp) (verify_block_predrain header parent body bp).
Proof. unfold verify_block_predrain, epoch_initial_if_needed, exec_body. sim_walk. Qed.

Lemma execute_block_batch_predrain_sim blocks parent bp :
  sim R (execute_block_batch_predrain blocks parent bp) (execute_block_batch_predrain blocks parent bp).
Proof.
  revert parent. induction blocks as [|b blocks IH]; intros parent; simpl; [apply sim_mret|].
  apply sim_mbind; [apply verify_block_predrain_sim|intros logs]. apply sim_mbind; [apply IH|intros rest].
  apply sim_mret.
Qed.
End predrain.

Section blocks.
Context `{X : Ext} {S1 S2 : Type} `{!IStateAccessorMut S1, !IStateAccessorMut S2}.
Context (R : S1 -> S2 -> Prop) `{!StateSim R}.

Lemma apply_epoch_terminal_sim header : sim R (apply_epoch_terminal header) (apply_epoch_terminal header).
Proof. unfold apply_epoch_terminal. sim_walk. Qed.

Lemma verify_block_sim header parent body bp :
  sim R (verify_block header parent body bp) (verify_block header parent body bp).
Proof.
  unfold verify_block. apply sim_mbind; [apply verify_block_predrain_sim, _|intros tx_logs].
  apply sim_mbind; [apply apply_epoch_terminal_sim|intros drain_logs]. sim_walk.
Qed.

Lemma construct_block_sim ctx comps bp :
  sim R (construct_block ctx comps bp) (construct_block ctx comps bp).
Proof.
  unfold construct_block, execute_block_inputs, execute_epoch_initial_if_needed, execute_phases,
    verify_output_limit. sim_walk.
  all: match goal with H : xsim _ _ _ |- _ => by destruct H as [_ ->] end.
Qed.

Lemma execute_block_batch_sim blocks parent bp :
  sim R (execute_block_batch blocks parent bp) (execute_block_batch blocks parent bp).
Proof.
  revert parent. induction blocks as [|b blocks IH]; intros parent; simpl; [apply sim_mret|].
  apply sim_mbind; [apply verify_block_sim|intros logs]. apply sim_mbind; [apply IH|intros rest].
  apply sim_mret.
Qed.
End blocks.

(** * Running blocks over a write-tracking layer

    Executing over a write-tracking layer on top of the in-memory state and then
    committing the tracked batch is executing on the in-memory state directly:
    same outcome, same logs, and the very same final state.  The state roots
    computed on the way agree as well, since they are compared by the
    verification itself. *)

Section layers.
Context `{XR : ExtRoot} `{!SerialLaws X}.

(** A base relation pinned to one base state. *)
Definition at_base (base : MemoryStateBaseLayer) (m : MemoryStateBaseLayer) (a : LState) : Prop :=
  m = base /\ mem_refines m a.

Lemma at_base_read base : ReadSim (at_base base).
Proof.
  split; intros s1 s2.
  all: try (intros [_ Hr]; by apply mem_read_sim).
  all: intros i [_ Hr]; try (intros Hi); by apply mem_read_sim.
Qed.

#[export] Instance at_base_sim base : BaseSim (at_base base).
Proof.
  split.
  - apply at_base_read.
  - intros s a [_ Hr]. apply Hr.
  - intros s a bs [_ Hr]. by apply mem_compute_root_with_writes.
Qed.

(** The in-memory state is determined by the ledger it refines. *)
Lemma mem_refines_inj m1 m2 a : mem_refines m1 a -> mem_refines m2 a -> m1 = m2.
Proof.
  intros [Ht1 -> _] [Ht2 Heq _]. destruct m1 as [s1 n1], m2 as [s2 n2]; simpl in *.
  pose proof (f_equal ls_serials Heq) as Hn. simpl in Hn. subst n2. f_equal.
  rewrite <- (concretize_abs s1 n1), <- (concretize_abs s2 n1) by done. by rewrite Heq.
Qed.

(** A computation that simulates the same specification over the tracking layer
    and over the base can be run on either. *)
Lemma commit_tracked {A} (mw : M ExecError (WriteTrackingState MemoryStateBaseLayer) A)
    (mm : M ExecError MemoryStateBaseLayer A) (ml : M ExecError LState A) m a :
  (forall R : WriteTrackingState MemoryStateBaseLayer -> LState -> Prop, StateSim R -> sim R mw ml) ->
  sim mem_refines mm ml ->
  mem_refines m a ->
  let '(r, w') := mw (WriteTrackingState_new_empty m) in
  fst (mm m) = r /\ (r <> Panic -> apply_batch (wt_batch w') m = (Ok tt, snd (mm m))).
Proof.
  intros Hw Hm Hr.
  destruct (Hm m a Hr) as [Hr2 Hs2].
  destruct (Hw (wt_refines (at_base m)) _ (WriteTrackingState_new_empty m) a) as [Hr1 Hs1].
  { apply (wt_refines_empty (at_base m)). by split. }
  destruct (mw _) as [r w'], (mm m) as [r2 m2]; simpl in *. split; [congruence|].
  intros Hp. destruct Hs1 as [ab [Hb Hrb] Hfit Ha]; [done|].
  destruct (mem_apply_write_batch_refines _ ab _ Hrb Hfit) as (m' & Happ & Hr'). rewrite <- Hb.
  rewrite Happ. f_equal. eapply mem_refines_inj; [exact Hr'|]. rewrite <- Ha. apply Hs2. congruence.
Qed.

(** C1: verifying a block over a write-tracking layer on an in-memory state and
    then applying the tracked batch has the same result as verifying it on the
    in-memory state itself, and ends in the same state. *)
Theorem verify_block_tracked_commit m a header parent body bp :
  mem_refines m a ->
  let '(r, w') := verify_block header parent body bp (WriteTrackingState_new_empty m) in
  fst (verify_block header parent body bp m) = r /\
  (r <> Panic -> apply_batch (wt_batch w') m = (Ok tt, snd (verify_block header parent body bp m))).
Proof.
  apply (commit_tracked (verify_block header parent body bp) (verify_block header parent body bp)
           (verify_block header parent body bp)); [intros R HR|]; apply verify_block_sim; apply _.
Qed.
End layers.
