(* ===== verification/IndexerSpec.v ===== *)
(** * What the indexer layer records

    The wrappers behave like what they wrap, and their records are complete: the
    inbox messages recorded for an account are exactly the ones appended to its
    inbox, in order and with their indices, and the recorded L1 blocks are the
    ones appended to the block MMR. *)

From S2P Require Import Prelude SortedMap Identifiers AcctTypes ChainTypes Externals.
From S2P Require Import LedgerTypes Bridge OLAccount OLState StateAccessor LedgerSpec.
From S2P Require Import MemoryLayer BatchApply WriteTracking IndexerLayer StfContext StfBlock StfSim.

(** ** Appending to inboxes *)

Section inbox.
Context `{X : Ext}.

(** The messages [l] recorded for the account [id], appended to the inbox [m]
    one after the other, lead to [m']. *)
Fixpoint inbox_writes (id : AccountId) (m : Mmr64) (l : list InboxMessageWrite) (m' : Mmr64) : Prop :=
  match l with
  | [] => m' = m
  | w :: l' => imw_account_id w = id /\ imw_index w = mmr_num_entries m /\
      exists m1, mmr_add_leaf m (thr_message_entry (imw_entry w)) = Some m1 /\ inbox_writes id m1 l' m'
  end.

Lemma inbox_writes_app id m l1 l2 m' :
  inbox_writes id m (l1 ++ l2) m' <-> exists m1, inbox_writes id m l1 m1 /\ inbox_writes id m1 l2 m'.
Proof.
  revert m. induction l1 as [|w l1 IH]; intros m; simpl.
  - split; [by eexists|]. by intros (? & -> & ?).
  - split.
    + intros (Hid & Hix & m1 & Hm & H). apply IH in H as (m2 & H1 & H2). eauto 10.
    + intros (m2 & (Hid & Hix & m1 & Hm & H1) & H2). split_and!; [done..|]. exists m1. split; [done|].
      apply IH. eauto.
Qed.

Lemma inbox_writes_ids id m l m' : inbox_writes id m l m' -> Forall (fun w => imw_account_id w = id) l.
Proof. revert m. induction l as [|w l IH]; intros m; simpl; [done|]. intros (? & _ & ? & _ & ?). eauto. Qed.

(** A snark account and what it becomes, with the messages it received. *)
Definition snark_writes (id : AccountId) (s0 : OLSnarkAccountState) (l : list InboxMessageWrite)
    (s : OLSnarkAccountState) : Prop :=
  inbox_writes id (sas_inbox_mmr s0) l (sas_inbox_mmr s) /\
  (key_registered (sas_update_vk s0) -> key_registered (sas_update_vk s)).

Definition account_writes (id : AccountId) (a0 : OLAccountState) (l : list InboxMessageWrite)
    (a : OLAccountState) : Prop :=
  acct_serial a = acct_serial a0 /\
  match acct_state a0, acct_state a with
  | TySnark s0, TySnark s => snark_writes id s0 l s
  | TyEmpty, TyEmpty => l = []
  | _, _ => False
  end.

Lemma account_writes_nil id a : account_writes id a [] a.
Proof. split; [done|]. by destruct (acct_state a). Qed.

Lemma account_writes_app id a0 l1 a1 l2 a2 :
  account_writes id a0 l1 a1 -> account_writes id a1 l2 a2 -> account_writes id a0 (l1 ++ l2) a2.
Proof.
  intros [Hs1 H1] [Hs2 H2]. split; [congruence|].
  destruct (acct_state a0), (acct_state a1), (acct_state a2); try done; [by subst|].
  destruct H1 as [H1 Hk1], H2 as [H2 Hk2]. split; [|by auto]. apply inbox_writes_app. eauto.
Qed.

Lemma account_writes_ids id a0 l a : account_writes id a0 l a -> Forall (fun w => imw_account_id w = id) l.
Proof.
  intros [_ H]. destruct (acct_state a0), (acct_state a); try done; [by subst|].
  destruct H as [H _]. by eapply inbox_writes_ids.
Qed.

(** ** Wrapped accounts *)

Section account.
Context {A : Type} `{!IAccountStateMut A} (AR : A -> OLAccountState -> Prop).
Context (SR : SnarkMut (A := A) -> OLSnarkAccountState -> Prop) `{!AccountRefines AR SR}.

Record snark_tracked (id : AccountId) (s0 : OLSnarkAccountState)
    (w : IndexerSnarkAccountStateMut (SnarkMut (A := A))) (s : OLSnarkAccountState) : Prop := {
  st_inner : SR (isn_inner w) s;
  st_id : isn_account_id w = id;
  st_writes : snark_writes id s0 (iw_inbox_messages (isn_writes w)) s;
  st_clean : isn_modified w = false -> s = s0 /\ iw_inbox_messages (isn_writes w) = [];
  st_other : iw_created_accounts (isn_writes w) = [] /\ iw_l1_block_records (isn_writes w) = [];
}.

#[export] Instance snark_tracked_sim id s0 : SnarkSim (snark_tracked id s0).
Proof.
  split.
  - intros w s root idx seqno [H1 H2 [H3 H4] _ H5]. split; simpl; [exact (sns_set_proof_state _ _ root idx seqno H1)|done..].
  - intros w s msg [H1 H2 [H3 H4] _ H5]. pose proof (sns_insert_inbox_message _ _ msg H1) as Hi.
    rewrite <- (sr_reads _ _ H1) in H3. simpl in Hi |- *.
    destruct (snark_insert_inbox_message (isn_inner w) msg) as [w'| |]; simpl;
      unfold insert_inbox_message in *; destruct (mmr_add_leaf _ _) as [m1|] eqn:Hm; try done.
    split; simpl; [done|done| |done|done]. split; [|done]. apply inbox_writes_app. eexists. split; [done|].
    simpl. rewrite (sr_reads _ _ H1). split_and!; [done..|]. by eexists.
  - intros w s vk [H1 H2 [H3 H4] _ H5] Hk. split; simpl; [exact (sns_set_update_vk _ _ vk H1 Hk)|done..].
Qed.

(** The wrapper [w], made from the account [a0], stands for [a]. *)
Definition account_tracked (id : AccountId) (a0 : OLAccountState) (w : IndexerAccountStateMut A)
    (a : OLAccountState) : Prop :=
  iam_account_id w = id /\ iam_writes w = IndexerWrites_new /\
  exists i, AR (iam_inner w) i /\ acct_serial i = acct_serial a0 /\ acct_state i = acct_state a0 /\
    (iam_modified w = false -> i = a0) /\
    match iam_snark_wrapper w with
    | None => a = i
    | Some sw => exists s0 s, acct_state a0 = TySnark s0 /\ snark_tracked id s0 sw s /\
        a = acct_with_state i (TySnark s)
    end.

(** A change of the balance of the inner account. *)
Lemma account_tracked_balance {E Q} (m1 : M E A Q) (m2 : M E OLAccountState Q) id a0 :
  sim AR m1 m2 ->
  (forall i, exists b, m2 i = (fst (m2 i), acct_with_balance i b) /\
     forall t, m2 (acct_with_state i t) = (fst (m2 i), acct_with_balance (acct_with_state i t) b)) ->
  sim (account_tracked id a0) (on_inner_account m1) m2.
Proof.
  intros Hm Hb w a (Hid & Hw & i & Hi & Hn & Ht & Hc & Hs). unfold on_inner_account.
  destruct (Hm _ _ Hi) as [Hr Hr']. destruct (Hb i) as (b & Hb1 & Hb2).
  assert (Ha : m2 a = (fst (m2 i), acct_with_balance a b)).
  { destruct (iam_snark_wrapper w); [|by subst]. destruct Hs as (s0 & s & _ & _ & ->). apply Hb2. }
  destruct (m1 (iam_inner w)) as [r1 inner']. simpl in *. rewrite Ha. simpl. split; [done|]. intros Hp.
  split_and!; [done..|]. exists (acct_with_balance i b). rewrite Hb1 in Hr'. simpl in Hr'.
  split_and!; [by apply Hr'|done..|]. simpl.
  destruct (iam_snark_wrapper w); [|by subst]. destruct Hs as (s0 & s & ? & ? & ->). by exists s0, s.
Qed.

#[export] Instance account_tracked_sim id a0 : AccountSim (account_tracked id a0).
Proof.
  split.
  - intros E c. apply account_tracked_balance; [apply ar_add_balance|]. intros i. simpl. unfold add_balance. simpl.
    destruct (amt_checked_add _ _) as [b|]; [by exists b|]. exists (acct_balance i). by destruct i.
  - intros amt. apply account_tracked_balance; [apply ar_take_balance|]. intros i. simpl. unfold take_balance. simpl.
    destruct (amt_checked_sub _ _) as [b|]; [by exists b|]. exists (acct_balance i). by destruct i.
  - intros w a (Hid & Hw & i & Hi & Hn & Ht & Hc & Hs). simpl. destruct (iam_snark_wrapper w) as [sw|] eqn:Hsw.
    + destruct Hs as (s0 & s & Hs0 & Hs & ->). simpl. eapply borrow_sim_ok; [apply (snark_tracked_sim id s0)|done|].
      intros sw' s' Hs'. split_and!; [done..|]. exists i. split_and!; [done..|]. by exists s0, s'.
    + subst a. pose proof (ar_borrow _ _ Hi) as Hb. unfold acct_ty. destruct (acct_state i) as [|s] eqn:His.
      { rewrite Hb. apply borrow_sim_err. }
      destruct Hb as (s1 & put & -> & Hs1 & _). simpl.
      eapply borrow_sim_ok; [apply (snark_tracked_sim id s)| |].
      * by split.
      * intros sw' s' Hs'. split_and!; [done..|]. exists i. split_and!; [done|done|congruence|done|].
        exists s, s'. split_and!; [congruence|done..].
Qed.

Lemma account_tracked_new id a1 a : AR a1 a -> account_tracked id a (IndexerAccountStateMut_new a1 id) a.
Proof. intros Ha. split_and!; [done..|]. by exists a. Qed.

(** What is left of a wrapper. *)
Lemma into_parts_tracked id a0 w a :
  account_tracked id a0 w a ->
  exists inner writes modified, IndexerAccountStateMut_into_parts w = (inner, writes, modified) /\
    (modified = true -> AR inner a) /\ (modified = false -> a = a0 /\ iw_inbox_messages writes = []) /\
    account_writes id a0 (iw_inbox_messages writes) a /\
    iw_created_accounts writes = [] /\ iw_l1_block_records writes = [].
Proof.
  intros (Hid & Hw & i & Hi & Hn & Ht & Hc & Hs). unfold IndexerAccountStateMut_into_parts. rewrite Hw.
  destruct (iam_snark_wrapper w) as [sw|].
  - destruct Hs as (s0 & s & Hs0 & [H1 H2 H3 H4 [H5 H6]] & ->). rewrite Hs0 in Ht.
    assert (Hwr : account_writes id a0 (iw_inbox_messages (isn_writes sw)) (acct_with_state i (TySnark s))).
    { split; [done|]. by rewrite Hs0. }
    destruct (isn_modified sw).
    + pose proof (ar_borrow _ _ Hi) as Hb. rewrite Ht in Hb. destruct Hb as (s1 & put & -> & _ & Hput).
      eexists _, _, _. split_and!; [done|by intros _; apply Hput|done|exact Hwr|done|done].
    + destruct (H4 eq_refl) as [-> H0].
      assert (acct_with_state i (TySnark s0) = i) as Hi0 by (destruct i; simpl in *; by subst).
      rewrite Hi0 in *. eexists _, _, _. split_and!; [done|done| |exact Hwr|done|done].
      intros Hm. split; [by apply Hc|done].
  - subst a. eexists _, _, _. split_and!; [done|done|by intros Hm; rewrite Hc| |done|done].
    split; [done|]. rewrite Ht. by destruct (acct_state a0).
Qed.

(** The wrapped closure has the outcome of the unwrapped one, and the record
    explains the change of the account. *)
Lemma indexed_run {E Q T} id (f : M E (IndexerAccountStateMut A) Q) (f2 : M E OLAccountState Q)
    (out : res E Q -> A * IndexerWrites * bool -> T) a1 a :
  acct_agree f f2 -> AR a1 a ->
  match f2 a with
  | (Panic, _) => fst (indexed id f out a1) = Panic
  | (r, a') => exists inner writes modified,
      indexed id f out a1 = (Ok (out r (inner, writes, modified)), if modified : bool then inner else a1) /\
      (modified = true -> AR inner a') /\ (modified = false -> a' = a /\ iw_inbox_messages writes = []) /\
      account_writes id a (iw_inbox_messages writes) a' /\
      iw_created_accounts writes = [] /\ iw_l1_block_records writes = []
  end.
Proof.
  intros Hf Ha. destruct (Hf (account_tracked id a) _ _ _ (account_tracked_new id a1 a Ha)) as [Hr Hs].
  unfold indexed. destruct (f (IndexerAccountStateMut_new a1 id)) as [r1 w], (f2 a) as [r2 a']. simpl in *. subst r2.
  destruct r1 as [q|e|]; [..|done];
    destruct (into_parts_tracked id a w a' (Hs ltac:(done))) as (inner & writes & m & -> & H1 & H2 & H3 & H4 & H5);
    exists inner, writes, m; done.
Qed.

Lemma indexed_leaves {a1 a} (inner : A) (a' : OLAccountState) (modified : bool) (P : Prop) :
  AR a1 a -> (modified = true -> AR inner a') -> (modified = false -> a' = a /\ P) ->
  AR (if modified then inner else a1) a'.
Proof. intros Ha H1 H2. destruct modified; [by apply H1|]. by destruct (H2 eq_refl) as [-> _]. Qed.
End account.
End inbox.

(** ** Wrapped states *)

Section state.
Context `{XR : ExtRoot}.

(** The recorded L1 blocks, appended to the MMR one after the other. *)
Fixpoint l1_writes (m : Mmr64) (l : list L1BlockRecordWrite) (m' : Mmr64) : Prop :=
  match l with
  | [] => m' = m
  | w :: l' => exists m1, mmr_add_leaf m (thr_l1_block_record (lrw_record w)) = Some m1 /\ l1_writes m1 l' m'
  end.

Lemma l1_writes_snoc m l w m1 m2 :
  l1_writes m l m1 -> mmr_add_leaf m1 (thr_l1_block_record (lrw_record w)) = Some m2 -> l1_writes m (l ++ [w]) m2.
Proof.
  revert m. induction l as [|v l IH]; intros m; simpl; [intros ->; eauto|].
  intros (m' & Hm & H) H2. eauto.
Qed.

Definition messages_of (id : AccountId) (W : IndexerWrites) : list InboxMessageWrite :=
  List.filter (fun w => imw_account_id w =? id) (iw_inbox_messages W).

(** The record [W] explains how the ledger [l0] became [l]. *)
Record index_tracks (l0 : LState) (W : IndexerWrites) (l : LState) : Prop := {
  it_accts id :
    match ls_accts l0 !! id, ls_accts l !! id with
    | Some a0, Some a => account_writes id a0 (messages_of id W) a
    | None, None => messages_of id W = []
    | _, _ => False
    end;
  it_l1 : l1_writes (es_l1_block_refs_mmr (ls_epoch l0)) (iw_l1_block_records W) (es_l1_block_refs_mmr (ls_epoch l));
  it_created : iw_created_accounts W = [];
}.

Lemma index_tracks_new l : index_tracks l IndexerWrites_new l.
Proof. split; try done. intros id. destruct (ls_accts l !! id); [apply account_writes_nil|done]. Qed.

Lemma filter_all {T} (p : T -> bool) l : Forall (fun x => p x = true) l -> List.filter p l = l.
Proof. induction 1 as [|x l Hx _ IH]; simpl; [done|]. by rewrite Hx, IH. Qed.
Lemma filter_none {T} (p : T -> bool) l : Forall (fun x => p x = false) l -> List.filter p l = [].
Proof. induction 1 as [|x l Hx _ IH]; simpl; [done|]. by rewrite Hx. Qed.

(** One more account update. *)
Lemma index_tracks_update l0 W l id a a' w :
  index_tracks l0 W l -> ls_accts l !! id = Some a -> account_writes id a (iw_inbox_messages w) a' ->
  iw_created_accounts w = [] -> iw_l1_block_records w = [] ->
  index_tracks l0 (IndexerWrites_extend W w) (ls_set_accts l (<[id := a']> (ls_accts l))).
Proof.
  intros [H1 H2 H3] Ha Hw Hc Hl. split; simpl; [|by rewrite Hl, app_nil_r|by rewrite Hc, app_nil_r].
  intros id'. specialize (H1 id'). pose proof (account_writes_ids _ _ _ _ Hw) as Hids.
  unfold messages_of in *. simpl. rewrite List.filter_app. destruct (decide (id = id')) as [<-|Hne].
  - rewrite lookup_insert_eq. rewrite Ha in H1. destruct (ls_accts l0 !! id) as [a0|]; [|done].
    rewrite (filter_all _ (iw_inbox_messages w)).
    2: { eapply Forall_impl; [exact Hids|]. intros x ->. apply Z.eqb_refl. }
    by eapply account_writes_app.
  - rewrite lookup_insert_ne by done. rewrite (filter_none _ (iw_inbox_messages w)).
    2: { eapply Forall_impl; [exact Hids|]. intros x ->. by apply Z.eqb_neq. }
    by rewrite app_nil_r.
Qed.

Context {S : Type} `{!IStateAccessorMut S} (R : S -> LState -> Prop).
Context (AR : AcctMut (S := S) -> OLAccountState -> Prop).
Context (SR : SnarkMut (A := AcctMut (S := S)) -> OLSnarkAccountState -> Prop) `{!LedgerLayer R AR SR}.

Definition indexer_refines (l0 : LState) (x : IndexerState S) (l : LState) : Prop :=
  R (ixs_inner x) l /\ index_tracks l0 (ixs_writes x) l.

#[export] Instance indexer_read_sim l0 : ReadSim (indexer_refines l0).
Proof.
  pose proof (@ss_read _ _ _ _ _ _ R ll_predrain) as HR.
  split; intros x l; try (intros [Hr _]; by apply HR); intros i [Hr _]; by apply HR.
Qed.

(** Writes that go to other sections. *)
Lemma on_indexed_sim {E Q} l0 (m1 : M E S Q) (m2 : M E LState Q) :
  sim R m1 m2 ->
  (forall l, ls_accts (snd (m2 l)) = ls_accts l /\
     es_l1_block_refs_mmr (ls_epoch (snd (m2 l))) = es_l1_block_refs_mmr (ls_epoch l)) ->
  sim (indexer_refines l0) (on_indexed m1) m2.
Proof.
  intros Hm Hk x l [Hr [H1 H2 H3]]. unfold on_indexed. destruct (Hm _ _ Hr) as [Hq Hs], (Hk l) as [Ha He].
  destruct (m1 (ixs_inner x)) as [r s']. simpl in *. split; [done|]. intros Hp. split; [by apply Hs|].
  split; simpl; rewrite ?Ha, ?He; done.
Qed.

Lemma indexer_update_eq {E Q} id (f : M E (IndexerAccountStateMut (AcctMut (S := S))) Q) x r s :
  update_account id (indexed id f (fun r parts => (r, snd (fst parts)))) (ixs_inner x) = (r, s) ->
  indexer_update_account id f x =
    match r with
    | Ok (Ok (q, w)) => (Ok q, {| ixs_inner := s; ixs_writes := IndexerWrites_extend (ixs_writes x) w |})
    | Ok (Err e) => (Ok (Err e), {| ixs_inner := s; ixs_writes := ixs_writes x |})
    | Err e => (Err e, {| ixs_inner := s; ixs_writes := ixs_writes x |})
    | _ => (Panic, {| ixs_inner := s; ixs_writes := ixs_writes x |})
    end.
Proof.
  intros Hu. unfold indexer_update_account, on_indexed, mbind. rewrite Hu. by destruct r as [[[]| |]| |].
Qed.

Lemma indexer_update_sim {E Q} l0 id (f1 : M E (IndexerAccountStateMut (AcctMut (S := S))) Q)
    (f2 : M E OLAccountState Q) :
  acct_agree f1 f2 ->
  sim (indexer_refines l0) (indexer_update_account id f1) (update_account (S := LState) id f2).
Proof.
  intros Hf x l [Hr Ht].
  pose proof (ll_update id (indexed id f1 (fun r parts => (r, snd (fst parts)))) _ _ Hr) as Hu.
  unfold updates_like in Hu. simpl. destruct (ls_accts l !! id) as [a|] eqn:Ha.
  - destruct Hu as (a1 & put & Ha1 & Hu & Hput). unfold run_account in *.
    pose proof (indexed_run AR SR id f1 f2 (fun r parts => (r, snd (fst parts))) a1 a Hf Ha1) as Hi.
    destruct (f2 a) as [[q|e|] a'].
    3: { destruct (indexed id f1 _ a1) as [r0 ?]. simpl in Hi. subst r0. by rewrite (indexer_update_eq _ _ _ _ _ Hu). }
    all: destruct Hi as (inner & w & m & Hi & Hm1 & Hm2 & Hw & Hc & Hl); rewrite Hi in Hu;
      rewrite (indexer_update_eq _ _ _ _ _ Hu); simpl; (split; [done|]); intros _;
      (split; [by apply Hput; [eapply (indexed_leaves AR); done|apply Hw]
              |by apply (index_tracks_update _ _ _ _ a)]).
  - destruct Hu as (s' & Hu & Hs'). by rewrite (indexer_update_eq _ _ _ _ _ Hu).
Qed.

#[export] Instance indexer_predrain_sim l0 : PredrainSim (indexer_refines l0).
Proof.
  split; [apply _|..].
  - intros v. apply on_indexed_sim; [apply ss_set_cur_slot|done].
  - intros c. apply on_indexed_sim; [apply ss_add_limbo_funds_coin|]. intros l. simpl. by destruct (amt_checked_add _ _).
  - intros h r x l [Hr [H1 H2 H3]]. simpl. unfold mbind, record_writes, mmodify, on_indexed. simpl.
    destruct (ss_append_l1_block_rec h r _ _ Hr) as [Hq Hs]. simpl in Hq, Hs.
    destruct (append_l1_block_rec h r (ixs_inner x)) as [q s']. simpl in *. subst q.
    unfold append_l1_block_rec_to_mmr in *. destruct (mmr_add_leaf _ _) as [m|] eqn:Hm; simpl in *; [|done].
    split; [done|]. intros _. split; [by apply Hs|]. split; simpl; [exact H1| |done].
    by eapply l1_writes_snoc.
  - intros e. apply on_indexed_sim; [apply ss_try_append_pending_asm_log|]. intros l. simpl. by destruct (_ <? _).
  - intros E Q id f1 f2 Hf. by apply indexer_update_sim.
Qed.

#[export] Instance indexer_state_sim `{!StateSim R} l0 : StateSim (indexer_refines l0).
Proof.
  split; [apply _|..].
  - intros v. apply on_indexed_sim; [apply ss_set_cur_epoch|done].
  - intros v. apply on_indexed_sim; [apply ss_set_asm_recorded_epoch|done].
  - intros v. apply on_indexed_sim; [apply ss_set_total_ledger_balance|done].
  - apply on_indexed_sim; [apply ss_reset_intraepoch_state|done].
Qed.
End state.

(** ** Verifying a block with an index *)

Section block.
Context `{XR : ExtRoot} `{!SerialLaws X}.

(** C15: verifying a block over the indexer layer on a write-tracking layer has
    the result of verifying it on the in-memory state, and the tracked batch
    leads to the same state.  The record is complete: for every account, the
    recorded inbox messages are exactly those appended to its inbox, in order
    and with their indices; the recorded L1 blocks are exactly those appended to
    the block MMR; and no account is recorded as created. *)
Theorem verify_block_indexed m a header parent body bp :
  mem_refines m a ->
  let '(r, x') := verify_block header parent body bp (IndexerState_new (WriteTrackingState_new_empty m)) in
  let '(r', m') := verify_block header parent body bp m in
  r = r' /\
  (r <> Panic -> apply_batch (wt_batch (ixs_inner x')) m = (Ok tt, m') /\
     exists a', mem_refines m' a' /\ index_tracks a (ixs_writes x') a').
Proof.
  intros Hr. destruct (verify_block_sim mem_refines header parent body bp m a Hr) as [Hr2 Hs2].
  assert (Hw : wt_refines (at_base m) (WriteTrackingState_new_empty m) a) by (by apply (wt_refines_empty (at_base m))).
  destruct (verify_block_sim (indexer_refines (wt_refines (at_base m)) a) header parent body bp
    (IndexerState_new (WriteTrackingState_new_empty m)) a) as [Hr1 Hs1].
  { split; [done|apply index_tracks_new]. }
  destruct (verify_block header parent body bp (IndexerState_new _)) as [r x'],
    (verify_block header parent body bp m) as [r2 m2]; simpl in *. split; [congruence|].
  intros Hp. destruct (Hs1 Hp) as [[ab [Hb Hrb] Hfit Ha] Ht]. specialize (Hs2 ltac:(congruence)).
  destruct (mem_apply_write_batch_refines _ ab _ Hrb Hfit) as (m' & Happ & Hr'). split.
  - rewrite <- Hb. rewrite Happ. f_equal. eapply mem_refines_inj; [exact Hr'|]. by rewrite <- Ha.
  - by eexists.
Qed.
End block.
