(* ===== verification/DaSim.v ===== *)
(** * What the DA accumulator holds

    Running the transition function over the accumulating layer has the outcome
    it has on the ledger.  As long as no accumulation error is pending, the
    accumulator holds, for every slot, limbo and account field, the value at the
    start of the epoch and the current one, and for every snark account the
    messages that turned its inbox of the start into the current one. *)

From S2P Require Import Prelude SortedMap Identifiers AcctTypes ChainTypes Externals.
From S2P Require Import CodecTypes Varint64 DaFramework OLDaTypes LedgerTypes Bridge OLAccount OLState.
From S2P Require Import StateAccessor LedgerSpec IndexerLayer DaLayer IndexerSpec.

Section da_sim.
Context `{XR : ExtRoot} `{CE : !CodecExt} `{DE : !DaExt} `{!MsgCodecLaws X}.

(** ** Keys *)

Definition has_bytes (vk : PredicateKey) : Prop := exists b, pred_as_buf_bytes vk = Some b.

Lemma registered_has_bytes vk : key_registered vk -> has_bytes vk.
Proof. intros [(k & Hk)|?]; [|done]. destruct (pred_parsed_bytes k vk Hk) as (b & Hb & _). by exists b. Qed.

Definition account_key_ok (a : OLAccountState) : Prop :=
  match acct_state a with TySnark s => has_bytes (sas_update_vk s) | TyEmpty => True end.

(** Every key of the ledger has a registered type. *)
Definition keys_ok (l : LState) : Prop := map_Forall (fun _ a => account_key_ok a) (ls_accts l).

Lemma account_writes_key id a l a' : account_writes id a l a' -> account_key_ok a -> account_key_ok a'.
Proof.
  intros [_ H]. unfold account_key_ok. destruct (acct_state a), (acct_state a'); try done.
  destruct H as [_ H]. intros Hb. apply registered_has_bytes, H. by right.
Qed.

(** ** Counters *)

(** The builder of a counter that was [x0] at the start and is [x] now. *)
Definition counter_tracks {S : CounterScheme} (b : option (DaCounterBuilder S)) (x0 x : cs_base S) : Prop :=
  match b with
  | None => x = x0
  | Some b => dcb_original b = x0 /\ dcb_new b = x /\ exists d, cs_compare S x0 x = Some d
  end.

Lemma record_change_tracks (S : CounterScheme) b x0 x y r b' :
  record_change S b x y = (r, b') -> r <> Panic /\ (r = Ok tt -> counter_tracks b x0 x -> counter_tracks b' x0 y).
Proof.
  unfold record_change, DaCounterBuilder_set. intros H.
  destruct b as [b|]; simpl in H; destruct (cs_compare _ _ _) as [d|] eqn:Hc; simplify_eq/=; (split; [done|]);
    intros ? Ht; simplify_eq; simpl in *; try done.
  all: destruct_and?; simplify_eq; eauto.
Qed.

(** ** Messages *)

Definition entry_of (e : MessageEntry) : DaMessageEntry :=
  {| dme_source := me_source e; dme_incl_epoch := me_incl_epoch e; dme_payload := me_payload e |}.
Definition message_of (e : DaMessageEntry) : MessageEntry :=
  {| me_source := dme_source e; me_incl_epoch := dme_incl_epoch e; me_payload := dme_payload e |}.

(** The entries [l], inserted into the inbox [m], lead to [m']. *)
Fixpoint inbox_extends (m : Mmr64) (l : list DaMessageEntry) (m' : Mmr64) : Prop :=
  match l with
  | [] => m' = m
  | e :: l' => exists m1, mmr_add_leaf m (thr_message_entry (message_of e)) = Some m1 /\ inbox_extends m1 l' m'
  end.

Lemma inbox_extends_app m l1 l2 m' m'' : inbox_extends m l1 m' -> inbox_extends m' l2 m'' -> inbox_extends m (l1 ++ l2) m''.
Proof. revert m. induction l1 as [|e l1 IH]; intros m; simpl; [by intros ->|]. intros (m1 & ? & ?) ?. eauto. Qed.

Definition entries_of (l : list InboxMessageWrite) : list DaMessageEntry := map (fun w => entry_of (imw_entry w)) l.

Lemma inbox_writes_extends id m l m' : inbox_writes id m l m' -> inbox_extends m (entries_of l) m'.
Proof.
  revert m. induction l as [|w l IH]; intros m; simpl; [done|]. intros (_ & _ & m1 & Hm & H).
  exists m1. split; [|by apply IH]. by destruct (imw_entry w).
Qed.

Definition small_entry (e : DaMessageEntry) : Prop := zlen (mp_data (dme_payload e)) <= MAX_MSG_PAYLOAD_BYTES.

Definition delta_bounded (d : AccountDelta) : Prop :=
  match adl_snark d with
  | Some sd => zlen (dla_new_entries (sdl_inbox sd)) <= U16_MAX /\ Forall small_entry (dla_new_entries (sdl_inbox sd))
  | None => True
  end.

Definition with_entries (sd : SnarkDelta) (l : list DaMessageEntry) : SnarkDelta :=
  sdl_with_inbox sd {| dla_new_entries := dla_new_entries (sdl_inbox sd) ++ l : list (la_entry InboxBuffer) |}.

Section messages.
Context {S : Type} `{!IStateAccessor S} (st : S) (Hst : forall id, exists b, check_account_exists st id = Ok b).

Lemma check_message_source_total id : check_message_source st id <> Panic.
Proof.
  unfold check_message_source. destruct (negb _); [|done]. destruct (Hst id) as [b ->]. by destruct b.
Qed.

Lemma record_message_run id w d r d' :
  record_message st id w d = (r, d') -> delta_bounded d ->
  r <> Panic /\ delta_bounded d' /\
  (r = Ok tt -> exists sd, adl_snark d = Some sd /\ small_entry (entry_of (imw_entry w)) /\
     d' = adl_with_snark d (Some (with_entries sd [entry_of (imw_entry w)]))).
Proof.
  unfold record_message. intros H Hb. destruct (negb _); [by simplify_eq|].
  destruct (adl_snark d) as [sd|] eqn:Hsd; [|by simplify_eq]. unfold delta_bounded in Hb. rewrite Hsd in Hb.
  assert (Hb' : delta_bounded d) by (unfold delta_bounded; by rewrite Hsd). destruct Hb as [Hb Hsm].
  destruct (MAX_MSG_PAYLOAD_BYTES <? _) eqn:Hl; [by simplify_eq|].
  pose proof (check_message_source_total (me_source (imw_entry w))) as Hc.
  destruct (check_message_source _ _) as [?|e|]; [|by simplify_eq|done].
  unfold append_entry, is_write_full in H. cbn [la_cnt_type_max la_max_insert InboxBuffer] in H.
  rewrite (proj2 (Z.ltb_ge _ _) Hb) in H. destruct (U16_MAX <=? _) eqn:Hf; simplify_eq; [done|].
  split_and!; [done| |].
  - unfold delta_bounded. simpl. split; [autorewrite with zlen; zbool; cbn [la_entry InboxBuffer] in *; lia|].
    apply Forall_app. split; [done|]. repeat constructor. unfold small_entry. zbool. done.
  - intros _. exists sd. split_and!; [done| |done]. unfold small_entry. zbool. done.
Qed.

Lemma record_messages_run id l d r d' :
  miter (record_message st id) l d = (r, d') -> delta_bounded d ->
  r <> Panic /\ delta_bounded d' /\
  (r = Ok tt -> match adl_snark d with
                | Some sd => Forall small_entry (entries_of l) /\ d' = adl_with_snark d (Some (with_entries sd (entries_of l)))
                | None => l = [] /\ d' = d
                end).
Proof.
  revert d r d'. induction l as [|w l IH]; intros d r d'; cbn [miter].
  - intros [= <- <-] Hb. split_and!; [done..|]. intros _. destruct (adl_snark d) as [sd|] eqn:Hsd; [|done].
    split; [done|]. unfold with_entries. simpl. rewrite app_nil_r. destruct d, sd as [? ? ? ? []]. simpl in *. by subst.
  - unfold mbind. destruct (record_message st id w d) as [r1 d1] eqn:H1. intros H Hb.
    destruct (record_message_run id w d r1 d1 H1 Hb) as (Hp & Hb1 & Hok).
    destruct r1 as [[]|e|]; [|by simplify_eq|done]. destruct (Hok eq_refl) as (sd & Hsd & Hsm & ->).
    destruct (IH _ _ _ H Hb1) as (Hp' & Hb' & Hok'). split_and!; [done..|]. intros Hr. specialize (Hok' Hr).
    rewrite Hsd. simpl in Hok'. destruct Hok' as [Hf ->]. split; [by constructor|].
    unfold with_entries, sdl_with_inbox, adl_with_snark. simpl. by rewrite <- app_assoc.
Qed.
End messages.

(** ** Deltas *)

(** The delta of a snark account that was [s0] at the start and is [s] now. *)
Record snark_delta_ok (s0 s : OLSnarkAccountState) (d : SnarkDelta) : Prop := {
  sd_base_seq : sdl_base_seq_no d = sas_seqno s0;
  sd_final_seq : sdl_final_seq_no d = sas_seqno s;
  sd_base_ps : sdl_base_proof_state d = sas_proof_state s0;
  sd_final_ps : sdl_final_proof_state d = sas_proof_state s;
  sd_base_vk : pred_as_buf_bytes (sas_update_vk s0) = Some (sdl_base_update_vk d);
  sd_final_vk : pred_as_buf_bytes (sas_update_vk s) = Some (sdl_final_update_vk d);
  sd_inbox : inbox_extends (sas_inbox_mmr s0) (dla_new_entries (sdl_inbox d)) (sas_inbox_mmr s);
  sd_small : Forall small_entry (dla_new_entries (sdl_inbox d));
}.

Record delta_ok (a0 a : OLAccountState) (d : AccountDelta) : Prop := {
  dl_serial : adl_serial d = acct_serial a0;
  dl_same_serial : acct_serial a = acct_serial a0;
  dl_base : adl_base_balance d = acct_balance a0;
  dl_final : adl_final_balance d = acct_balance a;
  dl_ty : adl_ty d = acct_ty a0;
  dl_snark :
    match acct_state a0, acct_state a with
    | TySnark s0, TySnark s => exists sd, adl_snark d = Some sd /\ snark_delta_ok s0 s sd
    | TyEmpty, TyEmpty => adl_snark d = None
    | _, _ => False
    end;
}.

Lemma delta_from_state {E} a : account_key_ok a ->
  exists d, AccountDelta_from_state (E := E) a = Ok d /\ delta_ok a a d /\ delta_bounded d.
Proof.
  unfold account_key_ok, AccountDelta_from_state, SnarkDelta_from_state, update_vk_bytes.
  destruct (acct_state a) as [|s] eqn:Ha; [intros _|intros [b Hb]; rewrite Hb]; simpl; eexists; (split; [done|]);
    (split; [|done]); split; simpl; try done; rewrite Ha; [done|]. eexists. split; [done|]. by split.
Qed.

(** Recording an update never panics; without an error it moves the final values
    to the new account. *)
Lemma update_delta_run {S} `{!IStateAccessor S} (st : S) id a0 a a' W d r d' :
  (forall id, exists b, check_account_exists st id = Ok b) ->
  update_delta st id a' W d = (r, d') -> delta_bounded d -> account_key_ok a' ->
  account_writes id a (iw_inbox_messages W) a' ->
  r <> Panic /\ delta_bounded d' /\ (r = Ok tt -> delta_ok a0 a d -> delta_ok a0 a' d').
Proof.
  intros Hst H Hb Hk [Hn Hw]. unfold update_delta in H. destruct (negb _) eqn:Hty; [by simplify_eq|].
  unfold account_key_ok in Hk. simpl in H. destruct (acct_state a') as [|s'] eqn:Ha'.
  - assert (H' : miter (record_message st id) (iw_inbox_messages W) (adl_with_final_balance d (acct_balance a')) = (r, d'))
      by (by destruct (adl_snark d)). clear H.
    destruct (record_messages_run st Hst _ _ _ _ _ H' Hb) as (Hp & Hb' & Hok). split_and!; [done..|].
    intros Hr [D1 D2 D3 D4 D5 D6]. specialize (Hok Hr). simpl in Hok.
    destruct (acct_state a) as [|s] eqn:Ha; [|done]. destruct (acct_state a0) as [|s0] eqn:Ha0; [|done].
    rewrite D6 in Hok. destruct Hok as [_ ->]. split; simpl; try done; [congruence|]. by rewrite Ha0, Ha'.
  - destruct Hk as [b' Hb'']. unfold SnarkDelta_update_from_state, update_vk_bytes in H. rewrite Hb'' in H. simpl in H.
    destruct (adl_snark d) as [sd|] eqn:Hsd; simpl in H.
    + assert (Hbd : zlen (dla_new_entries (sdl_inbox sd)) <= U16_MAX /\ Forall small_entry (dla_new_entries (sdl_inbox sd)))
        by (unfold delta_bounded in Hb; by rewrite Hsd in Hb).
      destruct (record_messages_run st Hst _ _ _ _ _ H Hbd) as (Hp & Hb' & Hok). split_and!; [done..|].
      intros Hr [D1 D2 D3 D4 D5 D6]. destruct (Hok Hr) as [Hs ->].
      destruct (acct_state a) as [|s] eqn:Ha; [done|]. destruct (acct_state a0) as [|s0] eqn:Ha0; [done|].
      destruct D6 as (sd' & Hsd' & [E1 E2 E3 E4 E5 E6 E7 E8]). simplify_eq. destruct Hw as [Hw _].
      split; simpl; try done; [congruence|]. rewrite Ha0, Ha'. eexists. split; [done|].
      split; simpl; try done; [|by apply Forall_app]. eapply inbox_extends_app; [done|]. by eapply inbox_writes_extends.
    + destruct (record_messages_run st Hst _ _ _ _ _ H) as (Hp & Hb' & Hok); [by unfold delta_bounded; simpl; rewrite Hsd|].
      split_and!; [done..|]. intros Hr [D1 D2 D3 D4 D5 D6].
      destruct (acct_state a0), (acct_state a); try done. destruct D6 as (? & ? & _). congruence.
Qed.

(** ** The accumulator *)

(** Bounded deltas; blocks create no accounts. *)
Definition acc_bounded (c : EpochDaAccumulator) : Prop :=
  map_Forall (fun _ d => delta_bounded d) (acc_account_deltas c) /\ acc_new_account_records c = [].

(** The accumulator of an epoch that started at [l0] and is at [l] now. *)
Record acc_tracks (l0 : LState) (c : EpochDaAccumulator) (l : LState) : Prop := {
  at_slot : counter_tracks (acc_slot_builder c) (gs_cur_slot (ls_global l0)) (gs_cur_slot (ls_global l));
  at_limbo : counter_tracks (acc_limbo_funds_builder c) (gs_limbo_funds_sats (ls_global l0))
               (gs_limbo_funds_sats (ls_global l));
  at_records : acc_new_account_records c = [];
  at_ids : acc_new_account_ids c = ∅;
  at_accts id :
    match acc_account_deltas c !! id with
    | None => ls_accts l !! id = ls_accts l0 !! id
    | Some d => exists a0 a, ls_accts l0 !! id = Some a0 /\ ls_accts l !! id = Some a /\ delta_ok a0 a d
    end;
  at_serials : ls_serials l = ls_serials l0 /\
    gs_next_avail_serial (ls_global l) = gs_next_avail_serial (ls_global l0);
}.

Lemma ensure_account_delta_run {E} l0 l id a c :
  account_key_ok a -> acc_bounded c -> ls_accts l !! id = Some a ->
  exists c' d, ensure_account_delta (E := E) id a c = (Ok tt, c') /\ acc_bounded c' /\
    acc_account_deltas c' !! id = Some d /\ (acc_tracks l0 c l -> acc_tracks l0 c' l).
Proof.
  intros Hk Hb Ha. unfold ensure_account_delta. destruct (acc_account_deltas c !! id) as [d|] eqn:Hd; [by eexists _, _|].
  destruct (delta_from_state (E := E) a Hk) as (d & -> & Hok & Hbd).
  exists (acc_with_deltas c (<[id := d]> (acc_account_deltas c))), d. split_and!; [done| |simpl; apply lookup_insert_eq|].
  - split; [apply map_Forall_insert_2; [done|]|]; apply Hb.
  - intros [H1 H2 H3 H4 H5 H6]. split; simpl; try done. intros id'. specialize (H5 id').
    destruct (decide (id = id')) as [<-|Hne]; [|by rewrite lookup_insert_ne]. rewrite lookup_insert_eq.
    rewrite Hd in H5. exists a, a. split_and!; [congruence|done..].
Qed.

Lemma record_account_update_run {S} `{!IStateAccessor S} (st : S) l0 l id a a' W c d r c' :
  (forall id, exists b, check_account_exists st id = Ok b) ->
  record_account_update st id a' W c = (r, c') -> acc_account_deltas c !! id = Some d ->
  acc_bounded c -> account_key_ok a' -> account_writes id a (iw_inbox_messages W) a' ->
  ls_accts l !! id = Some a ->
  r <> Panic /\ acc_bounded c' /\
  (r = Ok tt -> acc_tracks l0 c l -> acc_tracks l0 c' (ls_set_accts l (<[id := a']> (ls_accts l)))).
Proof.
  intros Hst H Hd Hb Hk Hw Ha. unfold record_account_update in H. rewrite Hd in H.
  destruct (update_delta st id a' W d) as [r1 d'] eqn:Hu. simplify_eq/=.
  pose proof (proj1 Hb id d Hd) as Hbd. simpl in Hbd. split_and!.
  - by eapply (update_delta_run st id a a a' W d).
  - split; [apply map_Forall_insert_2; [|apply Hb]|apply Hb]. by eapply (update_delta_run st id a a a' W d).
  - intros Hr [H1 H2 H3 H4 H5 H6]. split; simpl; try done. intros id'. specialize (H5 id').
    destruct (decide (id = id')) as [<-|Hne]; [|by rewrite !lookup_insert_ne]. rewrite !lookup_insert_eq.
    rewrite Hd in H5. destruct H5 as (a0 & a1 & Ha0 & Ha1 & Hdl). simplify_eq. exists a0, a'. split_and!; [done..|].
    by eapply (update_delta_run st id a0 a a' W d).
Qed.

(** ** The layer *)

Context {S : Type} `{!IStateAccessorMut S} (R : S -> LState -> Prop).
Context (AR : AcctMut (S := S) -> OLAccountState -> Prop).
Context (SR : SnarkMut (A := AcctMut (S := S)) -> OLSnarkAccountState -> Prop) `{!LedgerLayer R AR SR}.

(** [track]: the accumulator is known to describe the epoch.  A state that was
    restored from a backup forgets an accumulation error, and is not. *)
Context (track : Prop).

Record da_refines (l0 : LState) (d : DaAccumulatingState S) (l : LState) : Prop := {
  da_inner : R (das_inner d) l;
  da_no_diffs : das_pending_epoch_diffs d = [];
  da_no_blobs : das_pending_epoch_blobs d = [];
  da_keys : keys_ok l;
  da_bounded : acc_bounded (das_epoch_acc d);
  da_acc : track -> das_pending_epoch_error d = None -> acc_tracks l0 (das_epoch_acc d) l;
}.

#[export] Instance da_read_sim l0 : ReadSim (da_refines l0).
Proof.
  pose proof (@ss_read _ _ _ _ _ _ R ll_predrain) as HR.
  split; intros x l; try (intros [Hr]; by apply HR); intros i [Hr]; by apply HR.
Qed.

(** Running an accumulator operation. *)
Lemma accumulate_run {E} m (d : DaAccumulatingState S) r c :
  m (das_epoch_acc d) = (r, c) -> r <> Panic ->
  exists err, accumulate (E := E) m d = (Ok tt, das_with_error (das_with_acc d c) err) /\
    (err = None -> das_pending_epoch_error d = None /\ r = Ok tt).
Proof.
  intros Hm Hp. unfold accumulate. rewrite Hm. destruct r as [[]|e|]; [| |done].
  - exists (das_pending_epoch_error d). split; [by destruct d|done].
  - exists (match das_pending_epoch_error d with Some e' => Some e' | None => Some e end).
    unfold set_epoch_error. destruct d as [? ? ? ? [e'|]]; simpl; by split.
Qed.

#[local] Opaque accumulate.

(** Writes that the accumulator does not see. *)
Lemma on_da_sim {E Q} l0 (m1 : M E S Q) (m2 : M E LState Q) :
  sim R m1 m2 ->
  (forall l, ls_accts (snd (m2 l)) = ls_accts l /\ ls_global (snd (m2 l)) = ls_global l /\
     ls_serials (snd (m2 l)) = ls_serials l) ->
  sim (da_refines l0) (on_da m1) m2.
Proof.
  intros Hm Hk d l [Hr H1 H2 H3 H4 H5]. unfold on_da. destruct (Hm _ _ Hr) as [Hq Hs], (Hk l) as (Ha & Hg & Hn).
  destruct (m1 (das_inner d)) as [r s']. simpl in *. split; [done|]. intros Hp. split; simpl; try done.
  - by apply Hs.
  - unfold keys_ok. by rewrite Ha.
  - intros Hx He. destruct (H5 Hx He) as [T1 T2 T3 T4 T5 T6]. split; rewrite ?Hg, ?Hn; try done. intros id. rewrite Ha. apply T5.
Qed.

Lemma da_set_cur_slot_sim l0 v : sim (da_refines l0) (da_set_cur_slot v) (set_cur_slot v).
Proof.
  intros d l [Hr H1 H2 H3 H4 H5]. unfold da_set_cur_slot. rewrite (mbind_ok _ _ _ (cur_slot d) d) by done.
  destruct (record_slot_change (cur_slot d) v (das_epoch_acc d)) as [r c] eqn:Hc. unfold record_slot_change in Hc.
  destruct (record_change _ _ _ _) as [r0 b] eqn:Hrc. simplify_eq/=.
  destruct (record_change_tracks CtrU64ByU16 _ (gs_cur_slot (ls_global l0)) _ _ _ _ Hrc) as [Hp Ht].
  destruct (accumulate_run (E := StateError) (record_slot_change (cur_slot d) v) d (res_map_err Builder r0)
              (acc_with_slot (das_epoch_acc d) b)) as (err & Hacc & Herr).
  { unfold record_slot_change. simpl. by rewrite Hrc. }
  { by destruct r0. }
  rewrite (mbind_ok _ _ _ _ _ Hacc). unfold on_da. simpl.
  destruct (ss_set_cur_slot v _ _ Hr) as [Hq Hs]. destruct (set_cur_slot v (das_inner d)) as [q s']. simpl in *.
  split; [done|]. intros Hnp. split; simpl; try done; [by apply Hs|].
  intros Hx He. destruct (Herr He) as [He' Hok]. destruct (H5 Hx He') as [T1 T2 T3 T4 T5 T6]. split; simpl; try done.
  apply Ht; [by destruct r0 as [[]| |]|]. by rewrite (rs_cur_slot _ _ Hr).
Qed.

Lemma da_add_limbo_sim l0 c : sim (da_refines l0) (da_add_limbo_funds_coin c) (add_limbo_funds_coin c).
Proof.
  intros d l [Hr H1 H2 H3 H4 H5]. unfold da_add_limbo_funds_coin, on_da, mbind, mreads.
  destruct (ss_add_limbo_funds_coin c _ _ Hr) as [Hq Hs].
  destruct (add_limbo_funds_coin c (das_inner d)) as [q s']. simpl in Hq, Hs |- *.
  destruct (amt_checked_add _ _) as [n|] eqn:Hadd; simpl in *; subst q; [|by split; [done|split; [apply Hs|..]]]. specialize (Hs ltac:(done)).
  rewrite (rs_limbo_funds _ _ Hs). simpl.
  destruct (record_change CtrU64BySignedVarInt (acc_limbo_funds_builder (das_epoch_acc d)) (limbo_funds (das_inner d)) n)
    as [r0 b] eqn:Hrc.
  destruct (record_change_tracks CtrU64BySignedVarInt _ (gs_limbo_funds_sats (ls_global l0)) _ _ _ _ Hrc) as [Hp Ht].
  destruct (accumulate_run (E := StateError) (record_limbo_funds_change (limbo_funds (das_inner d)) n)
              (das_with_inner d s') (res_map_err Builder r0) (acc_with_limbo (das_epoch_acc d) b)) as (err & Hacc & Herr).
  { unfold record_limbo_funds_change. cbn [das_epoch_acc das_with_inner]. by rewrite Hrc. }
  { by destruct r0. }
  rewrite Hacc. simpl. split; [done|]. intros _. split; simpl; try done.
  intros Hx He. destruct (Herr He) as [He' Hok]. destruct (H5 Hx He') as [T1 T2 T3 T4 T5 T6]. split; simpl; try done.
  apply Ht; [by destruct r0 as [[]| |]|]. by rewrite (rs_limbo_funds _ _ Hr).
Qed.

(** The part of an account update after the account has been looked up, from a
    state whose accumulator has a delta for it. *)
Definition da_post {E Q} (r : res E Q) (w : IndexerWrites) (o : option (AcctMut (S := S))) id
    : M StateError (DaAccumulatingState S) (res E Q) :=
  (match o with
   | Some post => fun d => accumulate (record_account_update (das_inner d) id (acct_reads post) w) d
   | None => mret tt
   end) ;;; mret r.

Lemma da_check_total s l id : R s l -> exists b, check_account_exists s id = Ok b.
Proof. intros Hr. rewrite (rs_check_account_exists _ _ id Hr). by eexists. Qed.

Lemma keys_ok_update l id a a' w :
  keys_ok l -> ls_accts l !! id = Some a -> account_writes id a w a' ->
  account_key_ok a' /\ keys_ok (ls_set_accts l (<[id := a']> (ls_accts l))).
Proof.
  intros Hk Ha Hw. assert (Ha' : account_key_ok a') by (eapply account_writes_key; [exact Hw|exact (Hk _ _ Ha)]).
  split; [done|]. by apply map_Forall_insert_2.
Qed.

(** Nothing was written, or the account became [a']. *)
Lemma da_post_run {E Q} l0 l id a a' (r : res E Q) w inner (m : bool) s' dl (d : DaAccumulatingState S) :
  da_refines l0 d l -> acc_account_deltas (das_epoch_acc d) !! id = Some dl -> ls_accts l !! id = Some a ->
  R s' (ls_set_accts l (<[id := a']> (ls_accts l))) -> account_writes id a (iw_inbox_messages w) a' ->
  (m = true -> AR inner a') -> (m = false -> a' = a /\ iw_inbox_messages w = []) ->
  exists d', da_post r w (if m then Some inner else None) id (das_with_inner d s') = (Ok r, d') /\
    da_refines l0 d' (ls_set_accts l (<[id := a']> (ls_accts l))).
Proof.
  intros [Hr H1 H2 H3 H4 H5] Hdl Ha Hs' Hw Hm1 Hm2. destruct (keys_ok_update l id a a' _ H3 Ha Hw) as [Hk Hks].
  unfold da_post. destruct m.
  - rewrite (ar_reads _ _ (Hm1 eq_refl)).
    destruct (record_account_update s' id a' w (das_epoch_acc d)) as [r1 c1] eqn:Hrec.
    destruct (record_account_update_run s' l0 l id a a' w (das_epoch_acc d) dl r1 c1
      (fun id => da_check_total s' _ id Hs') Hrec Hdl H4 Hk Hw Ha) as (Hp & Hb & Ht).
    destruct (accumulate_run (E := StateError) (record_account_update s' id a' w) (das_with_inner d s') r1 c1 Hrec Hp)
      as (err & Hacc & Herr).
    eexists. split; [etransitivity; [apply (mbind_ok _ _ _ tt); exact Hacc|reflexivity]|]. split; simpl; try done.
    intros Hx He. destruct (Herr He) as [He' Hok]. by apply Ht, H5.
  - destruct (Hm2 eq_refl) as [-> _]. eexists. split; [done|]. rewrite insert_id in * by done.
    assert (Hl : ls_set_accts l (ls_accts l) = l) by (by destruct l). rewrite Hl in *. by split.
Qed.

Lemma da_update_sim {E Q} l0 id (f1 : M E (IndexerAccountStateMut (AcctMut (S := S))) Q) (f2 : M E OLAccountState Q) :
  acct_agree f1 f2 -> sim (da_refines l0) (da_update_account id f1) (update_account (S := LState) id f2).
Proof.
  intros Hf d l Hd. pose proof Hd as [Hr H1 H2 H3 H4 H5].
  set (out := fun (r : res E Q) (parts : AcctMut (S := S) * IndexerWrites * bool) =>
    let '(mi, w, wm) := parts in (r, w, if wm : bool then Some mi else None)).
  pose proof (rs_get_account_state _ _ id Hr) as Hg. simpl in Hg |- *.
  pose proof (ll_update id (indexed id f1 out) _ _ Hr) as Hu. unfold updates_like in Hu.
  destruct (ls_accts l !! id) as [a|] eqn:Ha.
  - destruct (ensure_account_delta_run (E := DaAccumulationError) l0 l id a (das_epoch_acc d) (H3 _ _ Ha) H4 Ha)
      as (c1 & dl & Hens & Hb1 & Hdl & Ht1).
    destruct (accumulate_run (E := StateError) (ensure_account_delta id a) d (Ok tt) c1 Hens ltac:(done))
      as (err & Hacc & Herr).
    set (d1 := das_with_error (das_with_acc d c1) err) in *.
    assert (Hd1 : da_refines l0 d1 l).
    { split; simpl; try done. intros Hx He. destruct (Herr He) as [He' _]. auto. }
    destruct Hu as (a1 & put & Ha1 & Hu & Hput). unfold run_account in *.
    pose proof (indexed_run AR SR id f1 f2 out a1 a Hf Ha1) as Hi.
    assert (Hstep : da_update_account id f1 d =
      (let* outcome := on_da (update_account id (indexed id f1 out)) in
       match outcome with
       | Ok (result, w, post) => da_post result w post id
       | Err e => mret (Err e)
       | Panic => mpanic
       end) d1).
    { unfold da_update_account. rewrite (mbind_ok _ _ _ (Some a) d) by (unfold mreads_res; simpl; by rewrite Hg).
      rewrite (mbind_ok _ _ _ _ _ Hacc). done. }
    rewrite Hstep. clear Hstep. unfold on_da, mbind at 1 2 3. cbn [das_inner d1 das_with_error das_with_acc].
    rewrite Hu. destruct (f2 a) as [[q|e|] a'].
    3: { destruct (indexed id f1 out a1) as [r0 ?]. simpl in Hi. subst r0. done. }
    all: destruct Hi as (inner & w & m & -> & Hm1 & Hm2 & Hw & _ & _); cbn [fst snd out].
    all: match goal with |- context [da_post ?r _ _ _] =>
      destruct (da_post_run l0 l id a a' r w inner m (put (if m then inner else a1)) dl d1 Hd1 Hdl Ha) as (d' & Hrun & Hd') end;
      [by apply Hput; [eapply (indexed_leaves AR); done|apply Hw]|done..|rewrite Hrun; done].
  - unfold da_update_account. rewrite (mbind_ok _ _ _ None d) by (unfold mreads_res; simpl; by rewrite Hg).
    destruct Hu as (s' & Hu & Hs'). rewrite (mbind_ok _ _ _ tt d) by done.
    unfold on_da, mbind. fold out. rewrite Hu. simpl. split; [done|]. intros _. by split.
Qed.

#[export] Instance da_predrain_sim l0 : PredrainSim (da_refines l0).
Proof.
  split; [apply _|..].
  - apply da_set_cur_slot_sim.
  - apply da_add_limbo_sim.
  - intros h r. apply on_da_sim; [apply ss_append_l1_block_rec|]. intros l. simpl.
    by destruct (append_l1_block_rec_to_mmr _ _).
  - intros e. apply on_da_sim; [apply ss_try_append_pending_asm_log|]. intros l. simpl. by destruct (_ <? _).
  - intros E Q id f1 f2 Hf. by apply da_update_sim.
Qed.

Lemma da_refines_new s l : R s l -> keys_ok l -> da_refines l (DaAccumulatingState_new s) l.
Proof. intros Hr Hk. by split. Qed.
End da_sim.
