(* ===== verification/LayerProps.v ===== *)
(** * The layers against each other

    What the layers promise beyond the transition function: the batch-diff layer
    reads like the state its batches lead to, blocks run over a stack of both
    layers as on that state, applying a batch is all or nothing, accounts are
    created alike on every layer, and the data structures underneath (the sorted
    table, the serial map) are the finite maps they stand for. *)

From S2P Require Import Prelude SortedMap Identifiers AcctTypes ChainTypes Externals.
From S2P Require Import LedgerTypes Bridge OLAccount WriteBatch OLState StateAccessor.
From S2P Require Import LedgerSpec MemoryLayer BatchApply WriteTracking BatchDiff SnarkSys StfContext.
From S2P Require Import StfTx StfManifests StfBlock StfSim.

(** ** Reads *)

Record same_reads `{X : Ext} {S1 S2} `{!IStateAccessor S1, !IStateAccessor S2} (s1 : S1) (s2 : S2) : Prop := {
  sr_cur_slot : cur_slot s1 = cur_slot s2;
  sr_limbo_funds : limbo_funds s1 = limbo_funds s2;
  sr_cur_epoch : cur_epoch s1 = cur_epoch s2;
  sr_last_l1_blkid : last_l1_blkid s1 = last_l1_blkid s2;
  sr_last_l1_height : last_l1_height s1 = last_l1_height s2;
  sr_asm_recorded_epoch : asm_recorded_epoch s1 = asm_recorded_epoch s2;
  sr_total_ledger_balance : total_ledger_balance s1 = total_ledger_balance s2;
  sr_l1_block_refs_mmr : l1_block_refs_mmr s1 = l1_block_refs_mmr s2;
  sr_pending_asm_logs_len : pending_asm_logs_len s1 = pending_asm_logs_len s2;
  sr_get_pending_asm_log i : 0 <= i -> get_pending_asm_log s1 i = get_pending_asm_log s2 i;
  sr_pending_asm_logs_full : pending_asm_logs_full s1 = pending_asm_logs_full s2;
  sr_check_account_exists id : check_account_exists s1 id = check_account_exists s2 id;
  sr_get_account_state id : get_account_state s1 id = get_account_state s2 id;
  sr_find_account_id_by_serial n : find_account_id_by_serial s1 n = find_account_id_by_serial s2 n;
  sr_next_account_serial : next_account_serial s1 = next_account_serial s2;
  sr_compute_state_root : compute_state_root s1 = compute_state_root s2;
}.

Section reads.
Context `{X : Ext} {S1 S2 S3 : Type} `{!IStateAccessor S1, !IStateAccessor S2, !IStateAccessor S3}.

(** Two layers that stand for the same abstract state read alike. *)
Lemma read_sim_same (R1 : S1 -> S3 -> Prop) (R2 : S2 -> S3 -> Prop) `{!ReadSim R1, !ReadSim R2} s1 s2 a :
  R1 s1 a -> R2 s2 a -> same_reads s1 s2.
Proof.
  intros H1 H2. split; intros.
  all: etransitivity; [by apply ReadSim0|symmetry; by apply ReadSim1].
Qed.
End reads.

Section layer_props.
Context `{XR : ExtRoot} `{!SerialLaws X}.

(** Applying fitting batches one after the other. *)
Lemma mem_apply_batches_refines m a bs :
  mem_refines m a -> batches_fit a bs ->
  exists m', miter apply_batch bs m = (Ok tt, m') /\ mem_refines m' (fold_left ls_apply bs a).
Proof.
  revert m a. induction bs as [|b bs IH]; intros m a Hr Hfit; simpl; [by exists m|].
  destruct Hfit as [Hb Hbs]. destruct (mem_apply_write_batch_refines m a b Hr Hb) as (m1 & Happ & Hr1).
  destruct (IH m1 (ls_apply a b) Hr1 Hbs) as (m' & Hrun & Hr'). exists m'. split; [|done].
  by rewrite (mbind_ok _ _ _ tt m1).
Qed.

(** The batch-diff layer over an in-memory state and a stack of fitting
    batches reads, field by field, account by account and up to the state root,
    like the in-memory state after applying the batches one after the other. *)
Theorem batch_diff_reads m a bs :
  mem_refines m a -> batches_fit a bs ->
  exists m', miter apply_batch bs m = (Ok tt, m') /\ same_reads (BatchDiffState_new m bs) m'.
Proof.
  intros Hr Hfit. destruct (mem_apply_batches_refines m a bs Hr Hfit) as (m' & Hrun & Hr').
  exists m'. split; [done|]. eapply (read_sim_same (bd_refines mem_refines) mem_refines); [|exact Hr'].
  by apply bd_refines_new.
Qed.

(** ** Blocks over a stack of layers *)

Definition at_diff (d d' : BatchDiffState MemoryStateBaseLayer) (a : LState) : Prop :=
  d' = d /\ bd_refines mem_refines d' a.

Lemma at_diff_read d : ReadSim (at_diff d).
Proof.
  split; intros s1 s2.
  all: try (intros [_ Hr]; by apply (bd_read_sim mem_refines)).
  all: intros i [_ Hr]; try (intros Hi); by apply (bd_read_sim mem_refines).
Qed.

#[export] Instance at_diff_sim d : BaseSim (at_diff d).
Proof.
  split.
  - apply at_diff_read.
  - intros s a [_ Hr]. by eapply (bs_wf (BaseSim := bd_base_sim mem_refines)).
  - intros s a bs [_ Hr]. by apply (bs_root (BaseSim := bd_base_sim mem_refines)).
Qed.

Lemma bd_refines_fun d a1 a2 : bd_refines mem_refines d a1 -> bd_refines mem_refines d a2 -> a1 = a2.
Proof. intros [ab1 [_ -> _] _ _ ->] [ab2 [_ -> _] _ _ ->]. done. Qed.

(** Verifying a block over a write-tracking layer on a batch-diff layer has
    the same result as verifying it on the state the diff's batches lead to, and
    applying the tracked batch there ends in the same state. *)
Theorem verify_block_over_diff m a bs header parent body bp :
  mem_refines m a -> batches_fit a bs ->
  exists m', miter apply_batch bs m = (Ok tt, m') /\
    let '(r, w') := verify_block header parent body bp
                      (WriteTrackingState_new_empty (BatchDiffState_new m bs)) in
    fst (verify_block header parent body bp m') = r /\
    (r <> Panic -> apply_batch (wt_batch w') m' = (Ok tt, snd (verify_block header parent body bp m'))).
Proof.
  intros Hr Hfit. destruct (mem_apply_batches_refines m a bs Hr Hfit) as (m' & Hrun & Hr').
  exists m'. split; [done|]. set (d := BatchDiffState_new m bs). set (a' := fold_left ls_apply bs a) in *.
  assert (Hd : bd_refines mem_refines d a') by (by apply bd_refines_new).
  destruct (verify_block_sim mem_refines header parent body bp m' a' Hr') as [Hr2 Hs2].
  destruct (verify_block_sim (wt_refines (at_diff d)) header parent body bp
    (WriteTrackingState_new_empty d) a') as [Hr1 Hs1].
  { apply (wt_refines_empty (at_diff d)). by split. }
  destruct (verify_block _ _ _ _ (WriteTrackingState_new_empty d)) as [r w'].
  destruct (verify_block _ _ _ _ m') as [r2 m2]; simpl in *. split; [congruence|].
  intros Hp. destruct Hs1 as [ab [Hb Hrb] Hfit' Ha]; [done|]. rewrite Hb in Hrb.
  pose proof (bd_refines_fun d _ _ Hrb Hd) as ->.
  destruct (mem_apply_write_batch_refines m' a' _ Hr' Hfit') as (m3 & Happ & Hr3).
  rewrite Happ. f_equal. eapply mem_refines_inj; [exact Hr3|]. rewrite <- Ha. apply Hs2. congruence.
Qed.

(** ** Applying a batch *)

(** A fitting batch applies without error or panic; the result refines what
    the batch means on the abstract ledger, keeps it well formed, and its state
    root is the one computed in advance from the state and the batch. *)
Theorem apply_write_batch_commits m a b :
  mem_refines m a -> batch_fits a b ->
  exists m', apply_batch b m = (Ok tt, m') /\ mem_refines m' (ls_apply a b) /\ ls_wf (ls_apply a b) /\
    compute_state_root_with_writes m [b] = compute_state_root m'.
Proof.
  intros Hr Hb. destruct (mem_apply_write_batch_refines m a b Hr Hb) as (m' & Happ & Hr').
  exists m'. split_and!; [done|done|by apply (mr_wf _ _ Hr')|].
  rewrite (mem_compute_root_with_writes m a [b]) by done.
  symmetry. exact (rs_compute_state_root _ _ Hr').
Qed.

(** A batch that is refused with an error leaves the state as it was, on
    any state and for any batch. *)
Theorem apply_write_batch_atomic b (m m' : MemoryStateBaseLayer) e :
  apply_batch b m = (Err e, m') -> m' = m.
Proof. apply mem_apply_write_batch_err. Qed.

(** ** Creating accounts *)

(** Room for one more account and one more serial. *)
Definition has_room (a : LState) : Prop :=
  Z.of_nat (size (ls_accts a)) < MAX_LEDGER_ACCOUNTS /\ gs_next_avail_serial (ls_global a) < U32_MAX.

Definition ls_created (a : LState) (id : AccountId) (d : NewAccountData) : LState :=
  let serial := gs_next_avail_serial (ls_global a) in
  {| ls_epoch := ls_epoch a; ls_global := set_next_avail_serial (ls_global a) (serial + 1);
     ls_pending := ls_pending a;
     ls_accts := <[id := OLAccountState_new_with_serial d serial]> (ls_accts a);
     ls_serials := <[serial := id]> (ls_serials a) |}.

Lemma ls_created_wf a id d : ls_wf a -> has_room a -> ls_accts a !! id = None -> ls_wf (ls_created a id d).
Proof.
  intros [H1 H2 H3 H4 H5] [Hs Hn] Hl. unfold in_u32 in H3. split; simpl.
  - intros n id'. rewrite lookup_insert_Some. split.
    + intros [[<- <-]|[Hne Hs']].
      * exists (OLAccountState_new_with_serial d (gs_next_avail_serial (ls_global a))).
        by rewrite lookup_insert_eq.
      * apply H1 in Hs' as (acct & Ha & Hx). exists acct. rewrite lookup_insert_ne; [done|]. congruence.
    + intros (acct & Ha & <-). apply lookup_insert_Some in Ha as [[<- <-]|[Hne Ha]]; [by left|].
      right. split; [|apply H1; eauto]. specialize (H2 _ _ Ha). lia.
  - intros id' acct Ha. apply lookup_insert_Some in Ha as [[<- <-]|[Hne Ha]]; simpl; [lia|].
    specialize (H2 _ _ Ha). lia.
  - unfold in_u32. lia.
  - rewrite map_size_insert_None by done. lia.
  - done.
Qed.

Lemma mem_create_new_account_run m a id d :
  mem_refines m a -> has_room a ->
  exists m', create_new_account id d m = (fst (create_new_account id d a), m') /\
    mem_refines m' (snd (create_new_account id d a)).
Proof.
  intros Hr Hroom. pose proof Hr as [Ht Ha Hwf].
  assert (Hacc : ls_accts a = tbl_map (ol_ledger (mem_state m))) by (by rewrite Ha).
  simpl. unfold mem_create_new_account, mbind, mreads, on_state, ol_create_new_account, on_ledger,
    tbl_create_new_account. simpl. rewrite (mem_next_serial m a Hr). unfold mbind, mmodify, mret.
  destruct (ls_accts a !! id) as [old|] eqn:Hl.
  - rewrite (tbl_create_account_exists _ id _ old) by (try done; by rewrite <- Hacc).
    eexists. split; [reflexivity|]. clear Ha Hacc. destruct m as [[] ?]. exact Hr.
  - destruct (tbl_create_account_fresh (ol_ledger (mem_state m)) id
      (OLAccountState_new_with_serial d (gs_next_avail_serial (ls_global a)))) as (t' & Hc & Hwf' & Hm & _).
    { done. } { by rewrite <- Hacc. } { rewrite <- tbl_size, <- Hacc by done. apply Hroom. }
    rewrite Hc. eexists. split; [reflexivity|]. simpl.
    rewrite serial_incr_spec by (destruct (wf_next_serial a Hwf), Hroom; lia).
    split; [done|subst a; unfold ol_abs; simpl in *; by rewrite Hm|by apply ls_created_wf].
Qed.

Section create_tracked.
Context {S : Type} `{!IStateAccessor S, !IComputeStateRootWithWrites S} (Rb : S -> LState -> Prop) `{!BaseSim Rb}.

(** The tracked batch after recording a new account. *)
Definition batch_created (b : WriteBatch) (id : AccountId) (st : OLAccountState) (sm : SerialMap) : WriteBatch :=
  wb_set_ledger b {| lwb_account_writes := <[id := st]> (lwb_account_writes (wb_ledger b));
                     lwb_serial_to_id := sm |}.

Lemma fits_created ab b id d sm :
  ls_wf ab -> batch_fits ab b -> has_room (ls_apply ab b) -> ls_accts (ls_apply ab b) !! id = None ->
  let serial := gs_next_avail_serial (ls_global (ls_apply ab b)) in
  smap_wf sm -> smap_ids sm = lwb_new_accounts (wb_ledger b) ++ [id] ->
  smap_first sm = gs_next_avail_serial (ls_global ab) ->
  let b' := batch_created b id (OLAccountState_new_with_serial d serial) sm in
  batch_fits ab b' /\ ls_apply ab b' = ls_created (ls_apply ab b) id d.
Proof.
  intros Hwf Hfit [Hs Hn] Hl serial Hsm Hids Hfirst b'.
  pose proof Hfit as [F1 F2 F3 F4 F5 F6 F7].
  simpl in Hl. apply lookup_union_None in Hl as [Hlw Hla].
  assert (Hni : id ∉ lwb_new_accounts (wb_ledger b)).
  { intros Hin. apply list_elem_of_lookup in Hin as [i Hi]. destruct (F4 i id Hi) as (_ & acct & Hw & _). congruence. }
  assert (Hfit' : batch_fits ab b').
  { split; unfold lwb_new_accounts; simpl; rewrite ?Hids; try done.
    - apply NoDup_app. split_and!; [done| |apply NoDup_singleton].
      intros x Hx Hx'. apply list_elem_of_singleton in Hx' as ->. done.
    - intros i id' Hi. apply lookup_app_Some in Hi as [Hi|[Hge Hi]].
      + destruct (F4 i id' Hi) as (Hn' & acct & Hw & Hse). split; [done|]. exists acct.
        rewrite lookup_insert_ne; [done|]. congruence.
      + apply list_lookup_singleton_Some in Hi as [Hi <-]. split; [done|].
        eexists. rewrite lookup_insert_eq. split; [done|]. simpl. unfold serial, zlen. simpl. unfold zlen. lia.
    - intros id' acct Hw Hni'. apply not_elem_of_app in Hni' as [Hni1 Hni2].
      rewrite lookup_insert_ne in Hw by (intros ->; apply Hni2; by left). by apply F5.
    - autorewrite with zlen. simpl in Hs. rewrite (fits_size ab b Hfit) in Hs. lia. }
  split; [done|]. unfold ls_apply at 1, ls_created. f_equal.
  - unfold apply_gw, set_next_avail_serial, lwb_new_accounts. simpl. rewrite Hids. autorewrite with zlen.
    f_equal. lia.
  - simpl. by rewrite insert_union_l.
  - rewrite (fits_iter ab b' Hfit'). unfold lwb_new_accounts. simpl. rewrite Hids.
    rewrite imap_app, list_to_map_app, <- (fits_iter ab b Hfit). simpl.
    rewrite <- map_union_assoc, <- insert_union_l, map_empty_union.
    assert (Z.of_nat (length (lwb_new_accounts (wb_ledger b)) + 0) = zlen (lwb_new_accounts (wb_ledger b)))
      as -> by (unfold zlen; lia).
    symmetry. apply insert_union_r, eq_None_not_Some. intros [id' Hs'].
    apply (fits_serials_lookup ab b Hfit) in Hs' as (i & Hi & Heq). apply lookup_lt_Some in Hi.
    unfold zlen in Heq. lia.
Qed.

(** The next serial of a batch's map is the one past its new accounts. *)
Lemma wt_create_new_account_run (w : WriteTrackingState S) a id d :
  wt_refines Rb w a -> has_room a ->
  exists w', create_new_account id d w = (fst (create_new_account id d a), w') /\
    wt_refines Rb w' (snd (create_new_account id d a)).
Proof.
  intros Hw Hroom. pose proof Hw as [ab Hr Hfit Ha].
  assert (Hnext : wt_next_account_serial w = gs_next_avail_serial (ls_global a)) by exact (rs_next_account_serial _ _ Hw).
  pose proof (rs_check_account_exists _ _ id Hw) as Hex. simpl in Hex.
  simpl. unfold wt_create_new_account, mbind, mreads, mreads_res. rewrite Hex.
  destruct (ls_accts a !! id) as [old|] eqn:Hl; [by exists w|]. unfold mbind. rewrite Hnext.
  assert (Hwf : ls_wf a) by (rewrite Ha; apply ls_apply_wf; [by eapply bs_wf|done]).
  unfold create_account_from_data, create_account_raw.
  destruct (insert_next_wf (E := StateError) (lwb_serial_to_id (wb_ledger (wt_batch w)))
    (gs_next_avail_serial (ls_global a)) id) as (sm & Hins & Hsm & Hids & Hfirst).
  - apply Hfit.
  - apply (wf_next_serial a Hwf).
  - apply Hroom.
  - intros Hne. rewrite (bf_first ab _ Hfit Hne), Ha. done.
  - rewrite Hins. simpl. eexists. split; [reflexivity|].
    destruct (fits_created ab (wt_batch w) id d sm) as [Hfit' Happ]; rewrite <- ?Ha; try done.
    + by eapply bs_wf.
    + rewrite Hfirst. destruct (SerialMap_is_empty _) eqn:He.
      * apply SerialMap_is_empty_true in He. rewrite Ha. simpl. unfold lwb_new_accounts. rewrite He.
        autorewrite with zlen. lia.
      * apply SerialMap_is_empty_false in He. by apply (bf_first ab _ Hfit).
    + rewrite <- Ha in Hfit', Happ. exists ab; simpl; [done|exact Hfit'|]. symmetry. exact Happ.
Qed.
End create_tracked.

(** With room for one more account and serial, creating an account has the
    same outcome on the in-memory state, on a write-tracking layer over it and
    on the ledger they both stand for, and they still stand for the same ledger:
    an existing id is refused, a new one gets the next serial, under which it is
    then found. *)
Theorem create_new_account_agrees m w a id d :
  mem_refines m a -> wt_refines mem_refines w a -> has_room a ->
  exists r a' m' w', create_new_account id d a = (r, a') /\
    create_new_account id d m = (r, m') /\ mem_refines m' a' /\
    create_new_account id d w = (r, w') /\ wt_refines mem_refines w' a' /\
    match ls_accts a !! id with
    | Some _ => r = Err (AccountExists id)
    | None => r = Ok (next_account_serial a) /\
        find_account_id_by_serial w' (next_account_serial a) = Ok (Some id) /\
        get_account_state w' id = Ok (Some (OLAccountState_new_with_serial d (next_account_serial a)))
    end.
Proof.
  intros Hm Hw Hroom. destruct (mem_create_new_account_run m a id d Hm Hroom) as (m' & Hrm & Hm').
  destruct (wt_create_new_account_run mem_refines w a id d Hw Hroom) as (w' & Hrw & Hw').
  eexists _, _, m', w'. split_and!; [apply surjective_pairing|done|done|done|done|].
  pose proof (rs_find_account_id_by_serial _ _ (next_account_serial a) Hw') as Hfind.
  pose proof (rs_get_account_state _ _ id Hw') as Hget. clear Hrm Hm' Hrw Hw'.
  simpl in *. destruct (ls_accts a !! id); [done|]. simpl in *.
  rewrite Hfind, Hget, !lookup_insert_eq. done.
Qed.
End layer_props.

(** ** The data structures *)

Section structures.
Context `{X : Ext}.

(** The sorted accounts table is the finite map it denotes: binary search
    finds exactly the accounts of the map, creating an existing account is
    refused and changes nothing, and creating a new one, while there is room,
    inserts it and keeps the table sorted. *)
Theorem accounts_table_refines_map (t : TsnlLedgerAccountsTable) id st :
  tbl_wf t ->
  tbl_get_account_state t id = tbl_map t !! id /\
  match tbl_map t !! id with
  | Some _ => tbl_create_account id st t = (Err (AccountExists id), t)
  | None => zlen (tbl_accounts t) < MAX_LEDGER_ACCOUNTS ->
      exists t', tbl_create_account id st t = (Ok tt, t') /\ tbl_wf t' /\ tbl_map t' = <[id := st]> (tbl_map t)
  end.
Proof.
  intros Hwf. split; [by apply tbl_get_account_state_map|].
  destruct (tbl_map t !! id) as [old|] eqn:Hl; [by eapply tbl_create_account_exists|].
  intros Hlen. destruct (tbl_create_account_fresh t id st Hwf Hl Hlen) as (t' & ? & ? & ? & _). eauto.
Qed.

Lemma find_serial_from_spec first off ids query (i : nat) :
  0 <= first -> 0 <= off -> first + off + zlen ids <= U32_MAX + 1 ->
  ids !! i = Some query -> (forall j, (j < i)%nat -> ids !! j <> Some query) ->
  find_serial_from first off ids query = Some (first + off + Z.of_nat i).
Proof.
  revert off i. induction ids as [|id ids IH]; intros off i Hf Ho Hb Hi Hmin; [done|].
  autorewrite with zlen in Hb. pose proof (zlen_nonneg ids). simpl. destruct i as [|i]; simpl in Hi.
  - simplify_eq. rewrite Z.eqb_refl, offset_serial_by_small by lia. f_equal. lia.
  - destruct (id =? query) eqn:He; zbool.
    + subst. exfalso. by apply (Hmin 0%nat); [lia|].
    + rewrite (IH (off + 1) i); [f_equal; lia|lia..|done|]. intros j Hj. apply (Hmin (S j)). lia.
Qed.

(** Inserting into a serial map.  The next serial in sequence is accepted
    and only extends the map: the new id is found under its serial and, if it is
    new, its serial under the id, and all other serials are as before.  Any other
    serial is refused and changes nothing. *)
Theorem serial_map_insert_lookup m serial id :
  smap_wf m -> 0 <= serial < U32_MAX ->
  exists b m', insert_next (E := StateError) serial id m = (Ok b, m') /\ smap_wf m' /\
    (b = true <-> smap_ids m = [] \/ serial = smap_first m + zlen (smap_ids m)) /\
    (if b then SerialMap_get m' serial = Some id /\
               (forall n, n <> serial -> SerialMap_get m' n = SerialMap_get m n) /\
               (id ∉ smap_ids m -> find_account_serial m' id = Some serial)
     else m' = m).
Proof.
  intros Hwf Hr. destruct (decide (smap_ids m = [] \/ serial = smap_first m + zlen (smap_ids m))) as [Hok|Hno].
  - destruct (insert_next_wf (E := StateError) m serial id) as (m' & Hi & Hwf' & Hids & Hfirst); try done; try lia.
    { intros Hne. destruct Hok; [done|done]. }
    exists true, m'. split; [done|]. split; [done|]. split; [done|].
    assert (Hserial : serial = smap_first m' + zlen (smap_ids m)).
    { rewrite Hfirst. destruct (SerialMap_is_empty m) eqn:He.
      - apply SerialMap_is_empty_true in He. rewrite He. autorewrite with zlen. lia.
      - apply SerialMap_is_empty_false in He. destruct Hok; done. }
    assert (Hold : smap_ids m <> [] -> smap_first m' = smap_first m).
    { intros Hne. apply SerialMap_is_empty_false in Hne. by rewrite Hfirst, Hne. }
    split_and!.
    + apply SerialMap_get_wf; [done|]. exists (length (smap_ids m)). rewrite Hids.
      rewrite lookup_app_r, Nat.sub_diag by done. done.
    + intros n Hn. apply option_eq. intros x. rewrite !SerialMap_get_wf by done. rewrite Hids. split.
      * intros (i & Hl & ->). apply lookup_app_Some in Hl as [Hl|[Hge Hl]].
        -- exists i. split; [done|]. rewrite Hold; [done|]. intros He. by rewrite He in Hl.
        -- exfalso. apply list_lookup_singleton_Some in Hl as [Hl _]. unfold zlen in Hserial. lia.
      * intros (i & Hl & ->). exists i. rewrite Hold by (intros He; by rewrite He in Hl). split; [|done].
        rewrite lookup_app_l by (by eapply lookup_lt_Some). done.
    + intros Hni. unfold find_account_serial. destruct Hwf' as [Hf Hb]. rewrite Hids in Hb |- *.
      specialize (Hb ltac:(by destruct (smap_ids m))).
      rewrite (find_serial_from_spec _ _ _ _ (length (smap_ids m))); [|lia..| |].
      * f_equal. unfold zlen in Hserial. lia.
      * by rewrite lookup_app_r, Nat.sub_diag.
      * intros j Hj. rewrite lookup_app_l by done. intros Hl. apply Hni. by eapply list_elem_of_lookup_2.
  - exists false, m. unfold insert_next. rewrite check_next_serial_wf by done.
    assert (Hne : smap_ids m <> []) by tauto. assert (Hneq : serial <> smap_first m + zlen (smap_ids m)) by tauto.
    apply SerialMap_is_empty_false in Hne as He. rewrite He. simpl.
    apply Z.eqb_neq in Hneq as Heq. rewrite Heq. split_and!; done.
Qed.
End structures.
