(* ===== verification/StfAgreement.v ===== *)
(** * Assembled blocks verify

    Block assembly and block verification run the phases with different
    bookkeeping: assembly uses one log buffer and a context with bridge
    parameters throughout, verification drains the ASM logs at the terminal on a
    buffer of its own, in a context without bridge parameters.  Both agree: the
    drain neither emits logs nor looks at the bridge parameters, and the header
    checks accept the header assembly produced. *)

From S2P Require Import Prelude Identifiers AcctTypes ChainTypes Externals LedgerTypes.
From S2P Require Import Bridge OLAccount OLState StateAccessor SnarkSys StfContext.
From S2P Require Import StfTx StfManifests StfBlock.

(** ** Quiet computations

    [quiet m1 m2]: the two do the same to the state whatever the buffers hold,
    and leave the buffers alone. *)
Definition quiet `{X : Ext} {S A} (m1 m2 : Exec S A) : Prop := forall s o1 o2, exists r s',
  m1 {| xs_state := s; xs_out := o1 |} = (r, {| xs_state := s'; xs_out := o1 |}) /\
  m2 {| xs_state := s; xs_out := o2 |} = (r, {| xs_state := s'; xs_out := o2 |}).

Section quiet.
Context `{X : Ext} {S : Type}.

Lemma quiet_lift_exec {A} (m : M ExecError S A) : quiet (lift_exec m) (lift_exec m).
Proof. intros s o1 o2. unfold lift_exec. simpl. destruct (m s) as [r s']. eauto. Qed.

Lemma quiet_mlift {A} (r : res ExecError A) : quiet (S := S) (mlift r) (mlift r).
Proof. intros s o1 o2. unfold mlift. eauto. Qed.

Lemma quiet_mbind {A B} (m1 m2 : Exec S A) (k1 k2 : A -> Exec S B) :
  quiet m1 m2 -> (forall a, quiet (k1 a) (k2 a)) -> quiet (mbind m1 k1) (mbind m2 k2).
Proof.
  intros Hm Hk s o1 o2. destruct (Hm s o1 o2) as (r & s' & H1 & H2). unfold mbind. rewrite H1, H2.
  destruct r as [a|e|]; [apply Hk|eauto..].
Qed.

Lemma quiet_miter {A} (f1 f2 : A -> Exec S unit) l :
  (forall x, quiet (f1 x) (f2 x)) -> quiet (miter f1 l) (miter f2 l).
Proof.
  intros Hf. induction l as [|x l IH]; simpl; [apply (quiet_mlift (Ok tt))|by apply quiet_mbind].
Qed.
End quiet.

(** ** The drain is quiet *)

Section drain.
Context `{X : Ext} `{!EnvelopeLaws X} {S : Type} `{!IStateAccessorMut S}.

(** Deposit messages are never taken for withdrawals. *)
Lemma deposit_not_withdrawal (ctx : BasicExecContext) (coin : Coin) (body data : bytes) :
  owned_msg_to_vec DEPOSIT_MSG_TYPE_ID body = Some data ->
  parse_withdrawal ctx {| mpc_coin := coin; mpc_data := data |} = None.
Proof. intros Hv. unfold parse_withdrawal. simpl. by rewrite (envelope_roundtrip _ _ _ Hv). Qed.

Lemma process_message_quiet (ctx1 ctx2 : BasicExecContext) sender target msg :
  bec_epoch ctx1 = bec_epoch ctx2 ->
  parse_withdrawal ctx1 msg = None -> parse_withdrawal ctx2 msg = None ->
  quiet (process_message ctx1 sender target msg) (process_message (S := S) ctx2 sender target msg).
Proof.
  intros He H1 H2. unfold process_message, handle_bridge_gateway_message. rewrite H1, H2.
  assert (deliver_to_account ctx1 = deliver_to_account ctx2) as ->.
  { unfold deliver_to_account, handle_snark_account_message. by rewrite He. }
  case_match; apply quiet_lift_exec.
Qed.

Lemma resolve_deposit_destination_data (s : S) d dest data :
  resolve_deposit_destination d s = Ok (Some (dest, data)) ->
  exists body, owned_msg_to_vec DEPOSIT_MSG_TYPE_ID body = Some data.
Proof.
  unfold resolve_deposit_destination. case_match; [|done..].
  destruct (res_map_err State _) as [[id|]|e|]; simpl; [|done..].
  destruct (res_map_err Codec _) as [body|e|]; simpl; [|done..].
  unfold build_msg_data, msg_payload_data_try_into.
  destruct (owned_msg_to_vec _ body) as [v|] eqn:Hv; simpl; [|done].
  destruct (_ <=? _); simpl; intros; simplify_eq. eauto.
Qed.

Lemma process_deposit_log_quiet (ctx1 ctx2 : BasicExecContext) d :
  bec_epoch ctx1 = bec_epoch ctx2 ->
  quiet (process_deposit_log ctx1 d) (process_deposit_log (S := S) ctx2 d).
Proof.
  intros He s o1 o2. unfold process_deposit_log, mbind, lift_exec at 1 3, mreads_res. simpl.
  destruct (resolve_deposit_destination d s) as [[[dest data]|]|e|] eqn:Hr; [|apply quiet_lift_exec|eauto..].
  apply resolve_deposit_destination_data in Hr as [body Hv].
  by apply process_message_quiet; [|eapply deposit_not_withdrawal..].
Qed.

Lemma process_asm_log_quiet (ctx1 ctx2 : BasicExecContext) log :
  bec_epoch ctx1 = bec_epoch ctx2 ->
  quiet (process_asm_log ctx1 log) (process_asm_log (S := S) ctx2 log).
Proof.
  intros He. unfold process_asm_log.
  repeat (case_match; try apply (quiet_mlift (Ok tt))).
  - by apply process_deposit_log_quiet.
  - apply quiet_lift_exec.
  - unfold process_ee_predicate_key_update. rewrite He. apply quiet_lift_exec.
Qed.

Lemma process_epoch_terminal_quiet (ctx1 ctx2 : BasicExecContext) :
  bec_epoch ctx1 = bec_epoch ctx2 ->
  quiet (process_epoch_terminal ctx1) (process_epoch_terminal (S := S) ctx2).
Proof.
  intros He. unfold process_epoch_terminal.
  apply quiet_mbind; [apply quiet_lift_exec|intros epoch].
  apply quiet_mbind; [apply quiet_lift_exec|intros pending].
  apply quiet_mbind; [|intros _].
  { apply quiet_miter. intros entry. by apply process_asm_log_quiet. }
  apply quiet_mbind; [apply quiet_lift_exec|intros _].
  apply quiet_mbind; [apply quiet_mlift|intros new_epoch]. apply quiet_lift_exec.
Qed.
End drain.

(** ** Header checks *)

Section headers.
Context `{X : Ext}.

Lemma wrap_i64_shift x k :
  I64_MIN <= x - k * (U64_MAX + 1) <= I64_MIN + U64_MAX -> wrap_i64 x = x - k * (U64_MAX + 1).
Proof.
  intros Hx. unfold wrap_i64.
  assert (Hm : (x - I64_MIN) mod (U64_MAX + 1) = x - k * (U64_MAX + 1) - I64_MIN).
  { symmetry. apply Z.mod_unique with k; [left|]; unfold U64_MAX, I64_MIN in *; lia. }
  rewrite Hm. lia.
Qed.

(** The 64-bit reinterpretation of an integer in twice the range. *)
Lemma wrap_i64_cases d :
  I64_MIN - U64_MAX <= d <= U64_MAX - I64_MIN ->
  (d < I64_MIN /\ wrap_i64 d = d + (U64_MAX + 1)) \/
  (I64_MIN <= d <= I64_MIN + U64_MAX /\ wrap_i64 d = d) \/
  (I64_MIN + U64_MAX < d /\ wrap_i64 d = d - (U64_MAX + 1)).
Proof.
  intros Hd. destruct (Z.lt_ge_cases d I64_MIN); [left|right; destruct (Z.le_gt_cases d (I64_MIN + U64_MAX)); [left|right]].
  - rewrite (wrap_i64_shift d (-1)); unfold U64_MAX, I64_MIN in *; lia.
  - rewrite (wrap_i64_shift d 0); unfold U64_MAX, I64_MIN in *; lia.
  - rewrite (wrap_i64_shift d 1); unfold U64_MAX, I64_MIN in *; lia.
Qed.

(** On 64-bit slots the wrapping arithmetic of the continuity check accepts
    exactly the successor slot (and the wrap-around to zero, which an earlier
    check rejects). *)
Lemma wrap_slot_diff p c : in_u64 p -> in_u64 c ->
  wrap_i64 (wrap_i64 c - wrap_i64 p) = 1 <-> c = p + 1 \/ (c = 0 /\ p = U64_MAX).
Proof.
  intros Hp Hc. pose proof (wrap_i64_cases c) as Hcc. pose proof (wrap_i64_cases p) as Hpc.
  set (wc := wrap_i64 c) in *. set (wp := wrap_i64 p) in *. clearbody wc wp.
  pose proof (wrap_i64_cases (wc - wp)) as Hdc. set (wd := wrap_i64 (wc - wp)) in *. clearbody wd.
  unfold in_u64, U64_MAX, I64_MIN in *. lia.
Qed.

Lemma verify_header_continuity_some header ph :
  header_bounded header -> header_bounded ph ->
  verify_header_continuity header (Some ph) = Ok tt <->
  hdr_parent_blkid header = compute_blkid ph /\ hdr_epoch header <> 0 /\
  hdr_slot header = hdr_slot ph + 1 /\ hdr_epoch header = hdr_epoch ph + b2z (hdr_is_terminal ph).
Proof.
  intros (_ & _ & Hs & He) (_ & _ & Hps & Hpe). unfold verify_header_continuity.
  pose proof (wrap_slot_diff _ _ Hps Hs) as Hd.
  assert (Hw : hdr_epoch header <> 0 -> hdr_epoch header = wrap_u32 (hdr_epoch ph + b2z (hdr_is_terminal ph)) <->
    hdr_epoch header = hdr_epoch ph + b2z (hdr_is_terminal ph)).
  { clear Hd. intros Hnz. unfold wrap_u32. destruct (Z.eq_dec (hdr_epoch ph + b2z (hdr_is_terminal ph)) (U32_MAX + 1)) as [->|Hne].
    - rewrite Z.mod_same by (unfold_widths; lia). unfold_widths. lia.
    - rewrite Z.mod_small; [done|]. unfold b2z in *. unfold_widths. case_match; lia. }
  set (ep := wrap_u32 _) in *. set (sd := wrap_i64 _) in *. clearbody ep sd.
  destruct (hdr_parent_blkid header =? compute_blkid ph) eqn:Hb; zbool; cbn [negb];
    [|split; [discriminate|intros (? & _); congruence]].
  destruct (hdr_epoch header =? 0) eqn:He0; zbool; cbn [orb]; [split; [discriminate|intros (_ & ? & _); congruence]|].
  destruct (hdr_slot header =? 0) eqn:Hs0; zbool; [split; [discriminate|unfold in_u64 in *; lia]|].
  specialize (Hw He0).
  destruct (hdr_epoch header =? ep) eqn:Hep; zbool; cbn [negb]; [|split; [discriminate|tauto]].
  destruct (sd =? 1) eqn:Hsd; zbool; cbn [negb]; [|split; [discriminate|tauto]].
  split; [|reflexivity]. intros _. split_and!; [done|done|lia|tauto].
Qed.
End headers.

(** ** Inversion of successful runs *)

Section inversion.
Context `{X : Ext} {S : Type}.

Lemma lift_exec_returns {A} (m : M ExecError S A) x a x' :
  lift_exec m x = (Ok a, x') ->
  exists s', m (xs_state x) = (Ok a, s') /\ x' = {| xs_state := s'; xs_out := xs_out x |}.
Proof. unfold lift_exec. destruct (m (xs_state x)) as [r s']. intros; simplify_eq. eauto. Qed.

Lemma with_fresh_output_inv {A} (m : Exec S A) s a logs s' :
  with_fresh_output m s = (Ok (a, logs), s') ->
  m {| xs_state := s; xs_out := [] |} = (Ok a, {| xs_state := s'; xs_out := logs |}).
Proof.
  unfold with_fresh_output. destruct (m _) as [[|?|] [st out]]; simpl; intros; by simplify_eq.
Qed.

Context `{!IStateAccessorMut S}.

Lemma check_state_root_returns (s s' : S) root :
  check_state_root root s = (Ok tt, s') -> s' = s /\ compute_state_root s = Ok root.
Proof.
  unfold check_state_root, mbind, mreads_res. destruct (compute_state_root s) as [r| |]; simpl; [|done..].
  destruct (r =? root) eqn:Hr; simpl; intros; unfold mret, merr in *; simplify_eq. zbool. by subst.
Qed.

Lemma verify_block_predrain_inv header parent body bp (s s' : S) logs :
  verify_block_predrain header parent body bp s = (Ok logs, s') ->
  verify_header_continuity header parent = Ok tt /\ verify_block_structure header body = Ok tt /\
  exists ctx s0 s1,
    ctx = {| bc_block_info := BlockInfo_from_header header; bc_parent_header := parent |} /\
    epoch_initial_if_needed ctx s = (Ok tt, s0) /\ process_block_start ctx s0 = (Ok tt, s1) /\
    exec_body (BlockInfo_from_header header) parent body bp {| xs_state := s1; xs_out := [] |}
      = (Ok tt, {| xs_state := s'; xs_out := logs |}) /\
    (hdr_is_terminal header = false -> compute_state_root s' = Ok (hdr_state_root header)).
Proof.
  unfold verify_block_predrain. intros H.
  apply mbind_returns in H as ([] & ? & H1 & H). unfold mlift in H1. simplify_eq.
  apply mbind_returns in H as ([] & ? & H2 & H). unfold mlift in H2. simplify_eq.
  apply mbind_returns in H as (ctx & ? & H3 & H). unfold mlift in H3. simplify_eq.
  apply mbind_returns in H as ([] & s0 & H4 & H). apply mbind_returns in H as ([] & s1 & H5 & H).
  apply mbind_returns in H as ([[] l] & s2 & H6 & H). apply with_fresh_output_inv in H6.
  apply mbind_returns in H as ([] & s3 & H7 & H). unfold mret in H. simplify_eq.
  split_and!; try done. exists ctx, s0, s1.
  assert (s' = s2 /\ (hdr_is_terminal header = false -> compute_state_root s2 = Ok (hdr_state_root header))) as [-> Hroot].
  { destruct (hdr_is_terminal header); simpl in H7; [by minv|]. by apply check_state_root_returns in H7 as [-> ?]. }
  split_and!; try done. unfold BlockContext_new in *. by destruct (_ && _); simplify_eq.
Qed.

Lemma apply_epoch_terminal_inv header (s s' : S) logs :
  apply_epoch_terminal header s = (Ok logs, s') ->
  if hdr_is_terminal header then
    process_epoch_terminal (BasicExecContext_new (BlockInfo_from_header header)) {| xs_state := s; xs_out := [] |}
      = (Ok tt, {| xs_state := s'; xs_out := logs |}) /\
    compute_state_root s' = Ok (hdr_state_root header)
  else s' = s /\ logs = [].
Proof.
  unfold apply_epoch_terminal. destruct (hdr_is_terminal header); intros H; [|by minv].
  apply mbind_returns in H as ([[] l] & s1 & H1 & H). apply with_fresh_output_inv in H1.
  apply mbind_returns in H as ([] & s2 & H2 & H). apply check_state_root_returns in H2 as [-> Hr].
  unfold mret in H. by simplify_eq.
Qed.

Lemma verify_block_inv header parent body bp (s s' : S) logs :
  verify_block header parent body bp s = (Ok logs, s') ->
  exists l1 l2 s1,
    verify_block_predrain header parent body bp s = (Ok l1, s1) /\
    apply_epoch_terminal header s1 = (Ok l2, s') /\
    logs = l1 ++ l2 /\ zlen logs <= MAX_LOGS_PER_BLOCK /\
    compute_logs_root (E := ExecError) logs = Ok (hdr_logs_root header).
Proof.
  unfold verify_block. intros H. apply mbind_returns in H as (l1 & s1 & H1 & H).
  apply mbind_returns in H as (l2 & s2 & H2 & H). cbv zeta in H.
  destruct (_ <? _) eqn:Hlt; [by minv|]. apply mbind_returns in H as (r & s3 & H3 & H).
  unfold mlift in H3. simplify_eq. destruct (r =? _) eqn:Hr; simpl in H; minv. zbool.
  exists l1, l2, s1. by subst.
Qed.
End inversion.

(** ** Agreement *)

Section agreement.
Context `{X : Ext} `{!EnvelopeLaws X} {S : Type} `{!IStateAccessorMut S}.

Lemma verify_output_limit_returns (x : XState S) x' :
  verify_output_limit x = (Ok tt, x') -> x' = x /\ zlen (xs_out x) <= MAX_LOGS_PER_BLOCK.
Proof.
  unfold verify_output_limit, mreads_res, verify_logs_within_block_limit.
  destruct (_ <? _) eqn:Hlt; intros; simplify_eq. zbool. done.
Qed.

Lemma check_state_root_ok (s : S) root :
  compute_state_root s = Ok root -> check_state_root root s = (Ok tt, s).
Proof. intros Hr. unfold check_state_root, mbind, mreads_res. rewrite Hr. simpl. by rewrite Z.eqb_refl. Qed.

Lemma with_fresh_output_returns {A} (m : Exec S A) s a logs s' :
  m {| xs_state := s; xs_out := [] |} = (Ok a, {| xs_state := s'; xs_out := logs |}) ->
  with_fresh_output m s = (Ok (a, logs), s').
Proof. unfold with_fresh_output. by intros ->. Qed.

(** The body assembly produces. *)
Definition assembled_body (comps : BlockComponents) : OLBlockBody :=
  {| body_tx_segment := Some (bcs_tx_segment comps); body_manifests := bcs_manifest_container comps |}.

(** What a successful run of the assembly phases amounts to: the body phases on
    a fresh buffer, then the drain on another one. *)
Lemma execute_phases_split ctx comps bp s root x' :
  execute_phases ctx (to_exec_input comps) bp {| xs_state := s; xs_out := [] |} = (Ok root, x') ->
  let info := bc_block_info ctx in
  exists s1,
    with_fresh_output (exec_body info (bc_parent_header ctx) (assembled_body comps) bp) s
      = (Ok (tt, xs_out x'), s1) /\
    (if bcs_is_terminal comps
     then with_fresh_output (process_epoch_terminal (BasicExecContext_new info)) s1
            = (Ok (tt, []), xs_state x')
     else s1 = xs_state x') /\
    compute_state_root (xs_state x') = Ok root /\
    zlen (xs_out x') <= MAX_LOGS_PER_BLOCK.
Proof.
  unfold execute_phases. simpl. intros H. minv.
  destruct a, a0. match goal with H : verify_output_limit _ = _ |- _ => apply verify_output_limit_returns in H as [-> _] end.
  match goal with H : verify_output_limit _ = (Ok ?u, _) |- _ => destruct u; apply verify_output_limit_returns in H as [-> Hlen] end.
  match goal with H : lift_exec (mreads_res _) _ = _ |- _ => apply lift_exec_returns in H as (s4 & Hroot & ->) end.
  unfold mreads_res in Hroot. simpl in Hroot.
  match type of Hroot with (?r, _) = _ => destruct r as [root'| |] eqn:Hcr; simplify_eq end.
  destruct (compute_state_root (xs_state st2)) as [root'| |] eqn:Hcr'; simplify_eq/=.
  destruct a1, a2. 
  assert (Hmf : exists s1, st1 = {| xs_state := s1; xs_out := xs_out st |} /\
    exec_body (bc_block_info ctx) (bc_parent_header ctx) (assembled_body comps) bp
      {| xs_state := s; xs_out := [] |} = (Ok tt, {| xs_state := s1; xs_out := xs_out st |})).
  { unfold exec_body, assembled_body. cbn [body_tx_segment body_manifests]. rewrite (mbind_ok _ _ _ _ _ Hm).
    destruct (bcs_manifest_container comps).
    - apply lift_exec_returns in Hm1 as (s1 & Hm1 & ->). exists s1. split; [done|].
      unfold lift_exec. by rewrite Hm1.
    - minv. exists (xs_state st1). by destruct st1. }
  destruct Hmf as (s1 & -> & Hbody). exists s1.
  destruct (bcs_is_terminal comps).
  - minv. destruct a. match goal with H : verify_output_limit _ = _ |- _ => apply verify_output_limit_returns in H as [-> _] end.
    pose proof (process_epoch_terminal_quiet (S := S)
      (with_bridge_params (BasicExecContext_new (bc_block_info ctx)) bp)
      (BasicExecContext_new (bc_block_info ctx)) eq_refl s1 (xs_out st) []) as (r & s2 & Hq1 & Hq2).
    match goal with H : process_epoch_terminal _ _ = (Ok _, _) |- _ => rewrite Hq1 in H; simplify_eq/= end.
    split_and!; try done; by apply with_fresh_output_returns.
  - minv. split_and!; try done. by apply with_fresh_output_returns.
Qed.

(** Where a block can be assembled: the genesis block must be flagged terminal,
    every other block is past epoch zero and has a parent with coordinates in
    range. *)
Definition assembly_context_ok (ctx : BlockContext) (comps : BlockComponents) : Prop :=
  match bc_parent_header ctx with
  | None => bcs_is_terminal comps = true
  | Some ph => bc_epoch ctx <> 0 /\ header_bounded ph
  end.

Definition assembled_header (ctx : BlockContext) (comps : BlockComponents) (state_root logs_root : Buf32)
    : OLBlockHeader := {|
  hdr_timestamp := bc_timestamp ctx;
  hdr_flags := BlockFlags_set_is_terminal BlockFlags_zero (bcs_is_terminal comps);
  hdr_slot := bc_slot ctx; hdr_epoch := bc_epoch ctx; hdr_parent_blkid := compute_parent_blkid ctx;
  hdr_body_root := body_hash_commitment (assembled_body comps);
  hdr_state_root := state_root; hdr_logs_root := logs_root |}.

Lemma assembled_header_terminal ctx comps sr lr :
  hdr_is_terminal (assembled_header ctx comps sr lr) = bcs_is_terminal comps.
Proof. apply set_is_terminal_is_terminal. Qed.

Lemma assembled_header_continuous ctx comps sr lr :
  assembly_context_ok ctx comps -> check_block_coords ctx = Ok tt ->
  verify_header_continuity (assembled_header ctx comps sr lr) (bc_parent_header ctx) = Ok tt.
Proof.
  unfold assembly_context_ok, check_block_coords. destruct (bc_parent_header ctx) as [ph|] eqn:Hph.
  - intros [He (_ & _ & Hs & Hep)].
    assert (Hbz : 0 <= b2z (hdr_is_terminal ph) <= 1) by (unfold b2z; case_match; lia).
    unfold checked_add_u32, checked_add_u64.
    destruct (hdr_epoch ph + _ <=? U32_MAX) eqn:H1; simpl; [|done].
    destruct (bc_epoch ctx =? _) eqn:H2; simpl; [|done].
    destruct (hdr_slot ph + 1 <=? U64_MAX) eqn:H3; simpl; [|done].
    destruct (bc_slot ctx =? _) eqn:H4; simpl; [|done]. zbool. intros _.
    unfold verify_header_continuity. cbn [assembled_header hdr_parent_blkid hdr_epoch hdr_slot].
    unfold compute_parent_blkid. rewrite Hph, Z.eqb_refl. cbn [negb].
    rewrite H2 in He |- *. rewrite H4. unfold in_u64, in_u32 in *.
    rewrite (proj2 (Z.eqb_neq _ _) He), (proj2 (Z.eqb_neq (hdr_slot ph + 1) 0)) by lia. cbn [orb].
    unfold wrap_u32. rewrite Z.mod_small by lia. rewrite Z.eqb_refl. cbn [negb].
    assert (Hd : wrap_i64 (wrap_i64 (hdr_slot ph + 1) - wrap_i64 (hdr_slot ph)) = 1)
      by (apply wrap_slot_diff; unfold in_u64; lia).
    rewrite Hd. reflexivity.
  - intros Ht. unfold verify_header_continuity. cbn [assembled_header hdr_parent_blkid hdr_epoch hdr_slot].
    fold (assembled_header ctx comps sr lr). rewrite assembled_header_terminal, Ht.
    unfold compute_parent_blkid. rewrite Hph. destruct (_ || _); [done|]. done.
Qed.

Lemma construct_block_inv ctx comps bp s out s' :
  construct_block ctx comps bp s = (Ok out, s') ->
  exists sr lr logs s0 s1,
    out = {| cbo_completed_block := {| cb_header := assembled_header ctx comps sr lr;
                                       cb_body := assembled_body comps |};
             cbo_outputs := {| beo_state_root := sr; beo_logs := logs |} |} /\
    execute_epoch_initial_if_needed ctx s = (Ok tt, s0) /\
    process_block_start ctx s0 = (Ok tt, s1) /\
    execute_phases ctx (to_exec_input comps) bp {| xs_state := s1; xs_out := [] |}
      = (Ok sr, {| xs_state := s'; xs_out := logs |}) /\
    compute_logs_root (E := ExecError) logs = Ok lr.
Proof.
  unfold construct_block. intros H. apply mbind_returns in H as ([sr logs] & st & Hx & H).
  apply mbind_returns in H as (lr & st' & Hlr & H). unfold mlift in Hlr. simplify_eq/=.
  unfold mret in H. simplify_eq/=.
  unfold execute_block_inputs in Hx.
  apply mbind_returns in Hx as ([] & s0 & Hinit & Hx). apply mbind_returns in Hx as ([] & s1 & Hstart & Hx).
  apply mbind_returns in Hx as ([sr' logs'] & s2 & Hrun & Hx). unfold mret in Hx. simplify_eq.
  unfold with_fresh_output in Hrun.
  destruct (execute_phases _ _ _ _) as [[root| |] x] eqn:Hp; simplify_eq/=.
  exists sr, lr, (xs_out x), s0, s1. split_and!; try done.
  - unfold assembled_header, assembled_body. by destruct (bcs_manifest_container comps).
  - rewrite Hp. by destruct x.
  - unfold compute_block_logs_root in *. simpl in *. by destruct (xs_out x).
Qed.

(** The pre-drain stage succeeds if its parts do. *)
Lemma verify_block_predrain_run header ctx body bp s s0 s1 s2 logs :
  verify_header_continuity header (bc_parent_header ctx) = Ok tt ->
  verify_block_structure header body = Ok tt ->
  BlockContext_new (E := ExecError) (BlockInfo_from_header header) (bc_parent_header ctx) = Ok ctx ->
  epoch_initial_if_needed ctx s = (Ok tt, s0) ->
  process_block_start ctx s0 = (Ok tt, s1) ->
  with_fresh_output (exec_body (bc_block_info ctx) (bc_parent_header ctx) body bp) s1 = (Ok (tt, logs), s2) ->
  (hdr_is_terminal header = false -> compute_state_root s2 = Ok (hdr_state_root header)) ->
  verify_block_predrain header (bc_parent_header ctx) body bp s = (Ok logs, s2).
Proof.
  intros Hc Hs Hctx Hi Hb Hx Hroot. unfold verify_block_predrain.
  rewrite (mbind_ok _ _ _ tt s) by (unfold mlift; by rewrite Hc).
  rewrite (mbind_ok _ _ _ tt s) by (unfold mlift; by rewrite Hs).
  rewrite (mbind_ok _ _ _ ctx s) by (unfold mlift; by rewrite Hctx).
  rewrite (mbind_ok _ _ _ _ _ Hi), (mbind_ok _ _ _ _ _ Hb).
  assert (BlockInfo_from_header header = bc_block_info ctx) as ->.
  { unfold BlockContext_new in Hctx. destruct (_ && _); simplify_eq. by rewrite <- Hctx. }
  rewrite (mbind_ok _ _ _ _ _ Hx).
  destruct (hdr_is_terminal header); simpl; [done|].
  rewrite (mbind_ok _ _ _ tt s2); [done|]. apply check_state_root_ok. by apply Hroot.
Qed.

Lemma construct_block_run ctx comps bp s out s' :
  assembly_context_ok ctx comps ->
  construct_block ctx comps bp s = (Ok out, s') ->
  let block := cbo_completed_block out in
  verify_block (cb_header block) (bc_parent_header ctx) (cb_body block) bp s
    = (Ok (beo_logs (cbo_outputs out)), s').
Proof.
  intros Hctx H. apply construct_block_inv in H as (sr & lr & logs & s0 & s1 & -> & Hi & Hb & Hp & Hlr).
  apply execute_phases_split in Hp as (s2 & Hbody & Hdrain & Hroot & Hlen).
  cbn [cbo_completed_block cbo_outputs cb_header cb_body beo_logs xs_state xs_out] in *.
  pose proof Hb as Hcoords. unfold process_block_start in Hcoords.
  apply mbind_returns in Hcoords as ([] & ? & Hcoords & _). unfold mlift in Hcoords.
  injection Hcoords as Hcoords _.
  set (h := assembled_header ctx comps sr lr).
  assert (Hctx' : BlockContext_new (E := ExecError) (BlockInfo_from_header h) (bc_parent_header ctx) = Ok ctx).
  { unfold BlockContext_new, check_block_coords in *. destruct ctx as [[] [ph|]]; simpl in *; [done|].
    unfold bc_slot, bc_epoch in *. simpl in *. by destruct (_ || _). }
  assert (Ht : hdr_is_terminal h = bcs_is_terminal comps) by apply assembled_header_terminal.
  unfold verify_block. rewrite (mbind_ok _ _ _ logs s2).
  2: { eapply verify_block_predrain_run; eauto.
       - by apply assembled_header_continuous.
       - unfold verify_block_structure. simpl. by rewrite Z.eqb_refl.
       - rewrite Ht. intros Hnt. rewrite Hnt in Hdrain. by subst s2. }
  rewrite (mbind_ok _ _ _ [] s').
  - rewrite app_nil_r, (proj2 (Z.ltb_ge _ _)) by done.
    rewrite (mbind_ok _ _ _ lr s') by (unfold mlift; by rewrite Hlr). simpl. by rewrite Z.eqb_refl.
  - unfold apply_epoch_terminal. rewrite Ht. destruct (bcs_is_terminal comps); [|by subst s2].
    assert (BlockInfo_from_header h = bc_block_info ctx) as -> by (by destruct ctx as [[] ?]).
    rewrite (mbind_ok _ _ _ _ _ Hdrain). rewrite (mbind_ok _ _ _ tt s') by (by apply check_state_root_ok). done.
Qed.

(** ** The converse

    A block in the form assembly produces: no flags but the terminal one, and a
    transaction segment. *)
Definition canonical_block (header : OLBlockHeader) (body : OLBlockBody) : Prop :=
  hdr_flags header = BlockFlags_set_is_terminal BlockFlags_zero (hdr_is_terminal header) /\
  is_Some (body_tx_segment body).

Lemma verify_output_limit_ok (x : XState S) :
  zlen (xs_out x) <= MAX_LOGS_PER_BLOCK -> verify_output_limit x = (Ok tt, x).
Proof.
  intros Hl. unfold verify_output_limit, mreads_res, verify_logs_within_block_limit.
  by rewrite (proj2 (Z.ltb_ge _ _)).
Qed.

(** The body phases and the drain, put together again on one buffer. *)
Lemma execute_phases_join ctx comps bp s s1 s2 logs root :
  exec_body (bc_block_info ctx) (bc_parent_header ctx) (assembled_body comps) bp {| xs_state := s; xs_out := [] |}
    = (Ok tt, {| xs_state := s1; xs_out := logs |}) ->
  (if bcs_is_terminal comps
   then process_epoch_terminal (BasicExecContext_new (bc_block_info ctx)) {| xs_state := s1; xs_out := [] |}
          = (Ok tt, {| xs_state := s2; xs_out := [] |})
   else s2 = s1) ->
  compute_state_root s2 = Ok root -> zlen logs <= MAX_LOGS_PER_BLOCK ->
  execute_phases ctx (to_exec_input comps) bp {| xs_state := s; xs_out := [] |}
    = (Ok root, {| xs_state := s2; xs_out := logs |}).
Proof.
  intros Hbody Hdrain Hroot Hlen. unfold exec_body in Hbody. cbn [assembled_body body_tx_segment body_manifests] in Hbody.
  apply mbind_returns in Hbody as ([] & [st out] & Htx & Hmf). unfold execute_phases. cbn [to_exec_input bxi_tx_segment].
  rewrite (mbind_ok _ _ _ _ _ Htx).
  assert (out = logs) as ->.
  { destruct (bcs_manifest_container comps); [apply lift_exec_returns in Hmf as (? & _ & Hx)|unfold mret in Hmf]; by simplify_eq. }
  rewrite (mbind_ok _ _ _ _ _ (verify_output_limit_ok {| xs_state := st; xs_out := logs |} Hlen)).
  cbn [bxi_manifest_container]. rewrite (mbind_ok _ _ _ _ _ Hmf). cbn [bxi_is_terminal tec_basic_context].
  rewrite (mbind_ok _ _ _ tt {| xs_state := s2; xs_out := logs |}).
  - rewrite (mbind_ok _ _ _ root {| xs_state := s2; xs_out := logs |}).
    + by rewrite (mbind_ok _ _ _ _ _ (verify_output_limit_ok {| xs_state := s2; xs_out := logs |} Hlen)).
    + unfold lift_exec, mreads_res. simpl. by rewrite Hroot.
  - change (bxi_is_terminal (to_exec_input comps)) with (bcs_is_terminal comps).
    destruct (bcs_is_terminal comps); [|by rewrite Hdrain].
    pose proof (process_epoch_terminal_quiet (S := S)
      (with_bridge_params (BasicExecContext_new (bc_block_info ctx)) bp)
      (BasicExecContext_new (bc_block_info ctx)) eq_refl s1 logs []) as (r & s3 & Hq1 & Hq2).
    rewrite Hq2 in Hdrain. simplify_eq. rewrite (mbind_ok _ _ _ _ _ Hq1).
    apply (verify_output_limit_ok {| xs_state := s2; xs_out := logs |} Hlen).
Qed.

Lemma drain_no_logs ctx (s s' : S) logs :
  process_epoch_terminal ctx {| xs_state := s; xs_out := [] |} = (Ok tt, {| xs_state := s'; xs_out := logs |}) ->
  logs = [].
Proof.
  intros H. destruct (process_epoch_terminal_quiet (S := S) ctx ctx eq_refl s [] []) as (r & s2 & Hq & _).
  rewrite Hq in H. by simplify_eq.
Qed.

(** Assembly on the parts of a verified block completes that very block. *)
Lemma verified_block_constructs block parent bp s s' logs :
  canonical_block (blk_header block) (blk_body block) ->
  verify_block (blk_header block) parent (blk_body block) bp s = (Ok logs, s') ->
  exists root, construct_block {| bc_block_info := BlockInfo_from_header (blk_header block); bc_parent_header := parent |}
      (BlockComponents_from_block block) bp s
    = (Ok {| cbo_completed_block := {| cb_header := blk_header block; cb_body := blk_body block |};
             cbo_outputs := {| beo_state_root := root; beo_logs := logs |} |}, s').
Proof.
  intros [Hflags [txs Htxs]] H. destruct block as [header sig body]. simpl in *.
  apply verify_block_inv in H as (l1 & l2 & s2 & Hpre & Hterm & -> & Hlen & Hlr).
  apply verify_block_predrain_inv in Hpre as (Hc & Hstr & ctx & s0 & s1 & Hctx & Hi & Hb & Hx & Hroot).
  apply apply_epoch_terminal_inv in Hterm. set (comps := BlockComponents_from_block _).
  assert (Hbody : assembled_body comps = body).
  { unfold assembled_body. simpl. rewrite Htxs. destruct body. simpl in *. congruence. }
  assert (l2 = []) as ->.
  { destruct (hdr_is_terminal header); destruct Hterm as [Hd Hr]; [by eapply drain_no_logs|done]. }
  rewrite app_nil_r in *. exists (hdr_state_root header).
  assert (Hp : execute_phases ctx (to_exec_input comps) bp {| xs_state := s1; xs_out := [] |}
    = (Ok (hdr_state_root header), {| xs_state := s'; xs_out := l1 |})).
  { apply (execute_phases_join _ _ _ _ s2); [by rewrite Hbody, Hctx|..|done]; simpl; rewrite ?Hctx;
      destruct (hdr_is_terminal header); destruct Hterm as [Hd Hr]; try done. subst s'. by apply Hroot. }
  rewrite <- Hctx. unfold construct_block. rewrite (mbind_ok _ _ _ {| beo_state_root := hdr_state_root header; beo_logs := l1 |} s').
  2: { unfold execute_block_inputs. rewrite (mbind_ok _ _ _ _ _ Hi), (mbind_ok _ _ _ _ _ Hb).
       by rewrite (mbind_ok _ _ _ _ _ (with_fresh_output_returns _ _ _ _ _ Hp)). }
  rewrite (mbind_ok _ _ _ (hdr_logs_root header) s').
  2: { unfold mlift. f_equal. unfold compute_block_logs_root, compute_logs_root in *. by destruct l1. }
  unfold mret. do 3 f_equal. unfold verify_block_structure in Hstr.
  destruct (body_hash_commitment body =? hdr_body_root header) eqn:Hbr; [|done]. zbool.
  assert (Hpar : compute_parent_blkid ctx = hdr_parent_blkid header).
  { rewrite Hctx. unfold compute_parent_blkid, verify_header_continuity in *. simpl. destruct parent as [ph|].
    - destruct (_ =? compute_blkid ph) eqn:He; [|done]. zbool. done.
    - destruct (_ || _); [done|]. unfold blkid_is_null in Hc.
      destruct (hdr_parent_blkid header =? blkid_null) eqn:He; [|done]. zbool. done. }
  assert (Hb' : match body_manifests body with
    | Some mfs => OLBlockBody_set_manifests (OLBlockBody_new_common (bcs_tx_segment comps)) mfs
    | None => OLBlockBody_new_common (bcs_tx_segment comps) end = body).
  { simpl. rewrite Htxs. destruct body as [? []]; simpl in *; unfold OLBlockBody_set_manifests, OLBlockBody_new_common, OLBlockBody_new; simpl; congruence. }
  simpl in Hb' |- *. rewrite Hb', Hbr, Hpar, Hctx. f_equal. rewrite <- Hflags. by destruct header.
Qed.

(** C4: a block that assembly completes passes verification on the state it was
    assembled on, which emits the same logs and ends in the same state. *)
Theorem construct_block_verifies ctx comps bp s out s' :
  assembly_context_ok ctx comps ->
  construct_block ctx comps bp s = (Ok out, s') ->
  let block := cbo_completed_block out in
  verify_block (cb_header block) (bc_parent_header ctx) (cb_body block) bp s
    = (Ok (beo_logs (cbo_outputs out)), s').
Proof. apply construct_block_run. Qed.
End agreement.
