(* ===== verification/StfLedger.v ===== *)
(** * What transactions may change

    The frame of transaction execution on the abstract ledger: whatever the
    outcome, it touches nothing but balances, limbo and the proof state, key and
    inbox of snark accounts.  No account appears or disappears, serials and
    account types stay, sequence numbers, message indices and inboxes only grow,
    and logs are only appended. *)

From S2P Require Import Prelude SortedMap Identifiers AcctTypes ChainTypes Externals.
From S2P Require Import LedgerTypes Bridge OLAccount OLState StateAccessor LedgerSpec SnarkSys.
From S2P Require Import StfContext StfTx StfManifests StfBlock.
From S2P Require Import StfSim.

(** ** Accepted updates *)

Section updates.
Context `{X : Ext}.

(** What an accepted update says about the account it updates. *)
Record update_accepted (sau : SauTxPayload) (sa : OLSnarkAccountState) : Prop := {
  ua_seq_no : sud_seq_no (sod_update_data (sau_operation_data sau)) = sas_seqno sa;
  ua_msg_idx : sps_new_next_msg_idx (sud_proof_state (sod_update_data (sau_operation_data sau)))
    = sas_next_inbox_msg_idx sa + zlen (sod_messages (sau_operation_data sau));
  ua_msg_idx_fits : sps_new_next_msg_idx (sud_proof_state (sod_update_data (sau_operation_data sau))) <= U64_MAX;
}.

Lemma verify_seq_no_ok target s n : verify_seq_no target s n = Ok tt -> n = sas_seqno s.
Proof. unfold verify_seq_no. destruct (_ =? _) eqn:H; [|done]. by zbool. Qed.

Lemma verify_message_index_ok target s u :
  verify_message_index target s u = Ok tt ->
  ps_next_inbox_msg_idx (upd_new_proof_state u) = sas_next_inbox_msg_idx s + zlen (upd_processed_messages u) /\
  ps_next_inbox_msg_idx (upd_new_proof_state u) <= U64_MAX.
Proof.
  unfold verify_message_index, checked_add_u64. destruct (_ <=? _) eqn:H; simpl; [|done].
  destruct (_ =? _) eqn:He; simpl; [|done]. zbool. intros _. lia.
Qed.

Lemma build_snark_acct_update_data_ok {E} op fx u :
  build_snark_acct_update_data (E := E) op fx = Ok u ->
  upd_seq_no u = sud_seq_no (sod_update_data op) /\
  ps_next_inbox_msg_idx (upd_new_proof_state u) = sps_new_next_msg_idx (sud_proof_state (sod_update_data op)) /\
  upd_processed_messages u = sod_messages op.
Proof.
  unfold build_snark_acct_update_data. destruct (convert_sau_ledger_refs _); simpl; intros; by simplify_eq.
Qed.

Lemma verify_snark_acct_update_proofs_ok {V} `{!TxProofVerifier V} sau acct fx (v v' : V) :
  verify_snark_acct_update_proofs (sau_target sau) acct (sau_operation_data sau) fx v = (Ok tt, v') ->
  exists sa, acct_state acct = TySnark sa /\ update_accepted sau sa.
Proof.
  unfold verify_snark_acct_update_proofs, as_snark_account. intros H. minv.
  destruct (acct_state acct) as [|sa] eqn:Hst; simplify_eq/=. eexists. split; [done|].
  match goal with H : build_snark_acct_update_data _ _ = Ok _ |- _ =>
    apply build_snark_acct_update_data_ok in H as (Hs & Hi & Hp) end.
  unfold verify_update_correctness in *. minv. repeat match goal with u : unit |- _ => destruct u end.
  match goal with H : verify_seq_no _ _ _ = _ |- _ => apply verify_seq_no_ok in H end.
  match goal with H : verify_message_index _ _ _ = _ |- _ => apply verify_message_index_ok in H as [? ?] end.
  split; congruence.
Qed.

Lemma check_update_tx_ok {S} `{!IStateAccessorMut S} sau fx proofs (s : S) acct :
  check_update_tx sau fx proofs s = Ok acct ->
  get_account_state s (sau_target sau) = Ok (Some acct) /\
  verify_effects_safe fx s acct = Ok tt /\
  exists sa, acct_state acct = TySnark sa /\ update_accepted sau sa.
Proof.
  unfold check_update_tx. destruct (get_account_state _ _) as [[acct'|]| |]; simpl; [|done..].
  destruct (verify_effects_safe _ _ _) as [[]| |] eqn:Hsafe; simpl; [|done..].
  unfold run_verifier. destruct (verify_snark_acct_update_proofs _ _ _ _ _) as [[[]| |] v'] eqn:Hv; simpl; [|done..].
  destruct (negb _); intros; simplify_eq. split_and!; try done.
  exact (verify_snark_acct_update_proofs_ok (V := TxProofVerifierImpl) _ _ _ _ _ Hv).
Qed.
End updates.

(** ** Monotone evolution of accounts *)

Section evolve.
Context `{X : Ext}.

Record snark_le (s s' : OLSnarkAccountState) : Prop := {
  sle_seqno : sas_seqno s <= sas_seqno s';
  sle_idx : sas_next_inbox_msg_idx s <= sas_next_inbox_msg_idx s';
  sle_inbox : mmr_num_entries (sas_inbox_mmr s) <= mmr_num_entries (sas_inbox_mmr s');
  sle_seqno_fits : sas_seqno s <= U64_MAX -> sas_seqno s' <= U64_MAX;
  sle_idx_fits : sas_next_inbox_msg_idx s <= U64_MAX -> sas_next_inbox_msg_idx s' <= U64_MAX;
}.

Definition type_state_le (t t' : OLAccountTypeState) : Prop :=
  match t, t' with
  | TyEmpty, TyEmpty => True
  | TySnark s, TySnark s' => snark_le s s'
  | _, _ => False
  end.

Record acct_le (a a' : OLAccountState) : Prop := {
  ale_serial : acct_serial a = acct_serial a';
  ale_state : type_state_le (acct_state a) (acct_state a');
}.

#[export] Instance snark_le_preorder : PreOrder snark_le.
Proof. split; [intros s; split; lia|intros s1 s2 s3 [] []; split; lia]. Qed.

#[export] Instance type_state_le_preorder : PreOrder type_state_le.
Proof.
  split.
  - intros [|s]; simpl; [done|reflexivity].
  - intros [|s1] [|s2] [|s3]; simpl; try done. intros; by etransitivity.
Qed.

#[export] Instance acct_le_preorder : PreOrder acct_le.
Proof. split; [by split|intros a1 a2 a3 [] []; split; by etransitivity]. Qed.

Definition accts_le (m m' : gmap AccountId OLAccountState) : Prop :=
  forall id, match m !! id, m' !! id with
             | Some a, Some a' => acct_le a a'
             | None, None => True
             | _, _ => False
             end.

#[export] Instance accts_le_preorder : PreOrder accts_le.
Proof.
  split.
  - intros m id. destruct (m !! id); [reflexivity|done].
  - intros m1 m2 m3 H1 H2 id. specialize (H1 id). specialize (H2 id).
    destruct (m1 !! id), (m2 !! id), (m3 !! id); try done. by etransitivity.
Qed.

Lemma accts_le_insert (m : gmap AccountId OLAccountState) id a a' :
  m !! id = Some a -> acct_le a a' -> accts_le m (<[id := a']> m).
Proof.
  intros Hl Hle id'. destruct (decide (id = id')) as [<-|Hne].
  - by rewrite lookup_insert_eq, Hl.
  - rewrite lookup_insert_ne by done. destruct (m !! id'); [reflexivity|done].
Qed.

Lemma accts_le_lookup m m' id a :
  accts_le m m' -> m !! id = Some a -> exists a', m' !! id = Some a' /\ acct_le a a'.
Proof. intros Hle Hl. specialize (Hle id). rewrite Hl in Hle. destruct (m' !! id); [eauto|done]. Qed.

Lemma accts_le_lookup_r m m' id a' :
  accts_le m m' -> m' !! id = Some a' -> exists a, m !! id = Some a /\ acct_le a a'.
Proof. intros Hle Hl. specialize (Hle id). rewrite Hl in Hle. destruct (m !! id); [eauto|done]. Qed.

Lemma accts_le_dom m m' : accts_le m m' -> dom m = dom m'.
Proof.
  intros Hle. apply set_eq. intros id. rewrite !elem_of_dom. specialize (Hle id).
  destruct (m !! id), (m' !! id); try done.
Qed.
End evolve.

(** ** The frame *)

Section frame.
Context `{XR : ExtRoot} `{!MmrLaws X}.

Record ls_step (s s' : LState) : Prop := {
  lst_epoch : ls_epoch s = ls_epoch s';
  lst_slot : gs_cur_slot (ls_global s) = gs_cur_slot (ls_global s');
  lst_next : gs_next_avail_serial (ls_global s) = gs_next_avail_serial (ls_global s');
  lst_pending : ls_pending s = ls_pending s';
  lst_serials : ls_serials s = ls_serials s';
  lst_accts : accts_le (ls_accts s) (ls_accts s');
}.

#[export] Instance ls_step_preorder : PreOrder ls_step.
Proof. split; [by split|intros s1 s2 s3 [] []; split; by etransitivity]. Qed.

Lemma ls_step_wf s s' : ls_wf s -> ls_step s s' -> ls_wf s'.
Proof.
  intros Hwf [? ? Hn Hp Hs Ha]. split.
  - intros n id. rewrite <- Hs, (wf_serials s Hwf). split; intros (a & Hl & <-).
    + destruct (accts_le_lookup _ _ _ _ Ha Hl) as (a' & ? & [? _]). eauto.
    + destruct (accts_le_lookup_r _ _ _ _ Ha Hl) as (a' & ? & [? _]). eauto.
  - intros id a Hl. destruct (accts_le_lookup_r _ _ _ _ Ha Hl) as (a' & Hl' & [<- _]).
    rewrite <- Hn. by eapply wf_serial_range.
  - rewrite <- Hn. apply Hwf.
  - rewrite <- size_dom, <- (accts_le_dom _ _ Ha), size_dom. apply Hwf.
  - rewrite <- Hp. apply Hwf.
Qed.

(** The frame of a phase: the state and the log buffer. *)
Definition x_step (x x' : XState LState) : Prop :=
  ls_step (xs_state x) (xs_state x') /\ xs_out x `prefix_of` xs_out x'.

#[export] Instance x_step_preorder : PreOrder x_step.
Proof. split; [done|intros x1 x2 x3 [] []; split; by etransitivity]. Qed.

Lemma lift_exec_step {A} (m : M ExecError LState A) : keeps ls_step m -> keeps x_step (lift_exec m).
Proof.
  intros Hm x. unfold lift_exec. specialize (Hm (xs_state x)). destruct (m _) as [r s']. by split.
Qed.

Lemma emit_typed_log_step serial enc : keeps x_step (emit_typed_log (S := LState) serial enc).
Proof.
  intros x. unfold emit_typed_log, mbind, mlift. destruct (res_map_err _ _); [|done..].
  unfold emit_log, emit_logs, buffer_emit_logs. destruct (_ <? _); split; simpl; try done. by eexists.
Qed.

Lemma update_account_step {E R} id (f : M E OLAccountState R) (s : LState) :
  (forall acct, ls_accts s !! id = Some acct -> acct_le acct (snd (f acct))) ->
  ls_step s (snd (update_account id f s)).
Proof.
  intros Hf. simpl. destruct (ls_accts s !! id) as [acct|] eqn:Hl; [|done].
  specialize (Hf acct eq_refl). unfold run_account. destruct (f acct) as [[] a']; simpl in *.
  all: split; simpl; try done; by eapply accts_le_insert.
Qed.

Lemma update_account_exec_step {A} id (f : M ExecError OLAccountState A) (s : LState) :
  (forall acct, ls_accts s !! id = Some acct -> acct_le acct (snd (f acct))) ->
  ls_step s (snd (update_account_exec id f s)).
Proof.
  intros Hf. apply (update_account_step id f s) in Hf. unfold update_account_exec, mbind, mmap_err.
  destruct (update_account _ _ s) as [[r|e|] s']; [destruct r|..]; done.
Qed.

Lemma add_balance_le {E} c : keeps acct_le (add_balance (E := E) c).
Proof. intros a. unfold add_balance. case_match; [|reflexivity]. split; [done|reflexivity]. Qed.

Lemma take_balance_le amt : keeps acct_le (take_balance amt).
Proof. intros a. unfold take_balance. case_match; [|reflexivity]. split; [done|reflexivity]. Qed.

Lemma insert_inbox_message_le s e s' : insert_inbox_message s e = Ok s' -> snark_le s s'.
Proof.
  unfold insert_inbox_message. destruct (mmr_add_leaf _ _) as [m|] eqn:Hm; [|done].
  intros [= <-]. apply mmr_add_leaf_entries in Hm; [|apply thr_message_entry_nonzero]. split; simpl; try done. unfold sas_next_inbox_msg_idx. simpl. lia.
Qed.

Lemma deliver_to_account_le ctx sender record : keeps acct_le (deliver_to_account ctx sender record).
Proof.
  intros a. unfold deliver_to_account. simpl.
  destruct (acct_state a) as [|s] eqn:Hst; [reflexivity|].
  unfold on_snark_account, handle_snark_account_message, handle_snark_msg. simpl.
  destruct (insert_inbox_message _ _) as [s'| |] eqn:Hi; (split; [done|]); simpl; rewrite Hst; [|reflexivity..].
  by eapply insert_inbox_message_le.
Qed.

Lemma queue_predicate_update_le msg : keeps acct_le (queue_predicate_update msg).
Proof.
  intros a. unfold queue_predicate_update. simpl.
  destruct (acct_state a) as [|s] eqn:Hst; [reflexivity|].
  destruct (insert_inbox_message _ _) as [s'| |] eqn:Hi; (split; [done|]); simpl; rewrite Hst; [|reflexivity..].
  by eapply insert_inbox_message_le.
Qed.

Lemma credit_le c (post : M ExecError OLAccountState unit) :
  keeps acct_le post -> keeps acct_le (add_balance c ;;; post).
Proof. intros Hp. apply keeps_mbind; [apply _|apply add_balance_le|done]. Qed.

Lemma handle_misplaced_funds_step c : keeps ls_step (handle_misplaced_funds (S := LState) c).
Proof.
  apply keeps_mmap_err. intros s. simpl. destruct (amt_checked_add _ _); [|done]. by split; simpl.
Qed.

Lemma process_transfer_step target c : keeps x_step (process_transfer (S := LState) target c).
Proof.
  apply lift_exec_step. case_match; [apply handle_misplaced_funds_step|].
  apply keeps_mbind; [apply _|apply keeps_mreads_res, _|]. intros [|]; [|apply handle_misplaced_funds_step].
  intros s. apply update_account_exec_step. intros acct _. apply credit_le, keeps_mret, _.
Qed.

Lemma process_message_step ctx sender target msg :
  keeps x_step (process_message (S := LState) ctx sender target msg).
Proof.
  unfold process_message, handle_bridge_gateway_message. case_match.
  - case_match; [apply emit_typed_log_step|apply lift_exec_step, handle_misplaced_funds_step].
  - apply lift_exec_step, keeps_mbind; [apply _|apply keeps_mreads_res, _|].
    intros [|]; [|apply handle_misplaced_funds_step]. simpl.
    intros s. apply update_account_exec_step. intros acct _. apply credit_le, deliver_to_account_le.
Qed.

(** An accepted update only moves its account forward, whether or not it is
    completed. *)
Lemma write_update_le target upd sa :
  sud_seq_no upd = sas_seqno sa ->
  sas_next_inbox_msg_idx sa <= sps_new_next_msg_idx (sud_proof_state upd) <= U64_MAX ->
  snark_le sa (snd (write_update target upd sa)).
Proof.
  intros Hs Hi. unfold write_update, mbind, mlift, checked_add_u64.
  destruct (_ <=? _) eqn:Hfit; simpl; [|done]. zbool.
  assert (Hle : snark_le sa (set_proof_state sa (sps_inner_state_root (sud_proof_state upd))
    (sps_new_next_msg_idx (sud_proof_state upd)) (sud_seq_no upd + 1))).
  { split; unfold sas_next_inbox_msg_idx in *; simpl; lia. }
  destruct (sud_new_predicate upd); [|done]. case_match; [|done].
  etransitivity; [exact Hle|]. by split; simpl.
Qed.

Lemma write_update_account_le sau sa acct :
  acct_state acct = TySnark sa -> update_accepted sau sa ->
  acct_le acct (snd (write_update_account (sau_target sau) (sod_update_data (sau_operation_data sau)) acct)).
Proof.
  intros Hst [Hs Hi Hf]. unfold write_update_account, on_snark_account. simpl. rewrite Hst. simpl.
  pose proof (write_update_le (sau_target sau) (sod_update_data (sau_operation_data sau)) sa Hs) as Hle.
  destruct (write_update _ _ _) as [r sa']. split; [done|]. simpl in *. rewrite Hst.
  apply Hle. pose proof (zlen_nonneg (sod_messages (sau_operation_data sau))). lia.
Qed.

Lemma process_update_tx_step sau fx proofs ctx : keeps x_step (process_update_tx (S := LState) sau fx proofs ctx).
Proof.
  intros x. unfold process_update_tx, mbind at 1, lift_exec at 1, mreads_res.
  destruct (check_update_tx sau fx proofs (xs_state x)) as [acct| |] eqn:Hc; [|done..].
  apply check_update_tx_ok in Hc as (Hget & _ & sa & Hst & Hacc). simpl in Hget. injection Hget as Hget.
  pose proof (update_account_exec_step (sau_target sau) (write_update_account (sau_target sau)
    (sod_update_data (sau_operation_data sau))) (xs_state x)) as Hstep.
  specialize (Hstep ltac:(intros acct' Hl; rewrite Hget in Hl; simplify_eq; by eapply write_update_account_le)).
  unfold mbind at 1. unfold lift_exec. cbn [xs_state xs_out].
  destruct (update_account_exec _ _ _) as [[[]| |] s']; [|by split..].
  transitivity {| xs_state := s'; xs_out := xs_out x |}; [by split|].
  apply (keeps_mbind x_step); [apply keeps_mlift, _|]. intros log. apply emit_typed_log_step.
Qed.

Lemma debit_source_step source amt : keeps ls_step (debit_source (S := LState) source amt).
Proof.
  unfold debit_source. case_match; [apply keeps_mret, _|]. intros s. apply update_account_exec_step.
  intros acct _. apply keeps_mmap_err, take_balance_le.
Qed.

Lemma distribute_transfers_step ts c : keeps x_step (distribute_transfers (S := LState) ts c).
Proof.
  revert c. induction ts as [|t ts IH]; intros c; simpl; [apply keeps_mret, _|].
  apply keeps_mbind; [apply _|apply keeps_mlift, _|]. intros [coin rest].
  apply keeps_mbind; [apply _|apply process_transfer_step|done].
Qed.

Lemma distribute_messages_step ctx source ms c :
  keeps x_step (distribute_messages (S := LState) ctx source ms c).
Proof.
  revert c. induction ms as [|m ms IH]; intros c; simpl; [apply keeps_mret, _|].
  apply keeps_mbind; [apply _|apply keeps_mlift, _|]. intros [coin rest].
  apply keeps_mbind; [apply _|apply process_message_step|done].
Qed.

Lemma apply_tx_effects_step ctx source fx : keeps x_step (apply_tx_effects (S := LState) ctx source fx).
Proof.
  unfold apply_tx_effects, distribute_effects.
  apply keeps_mbind; [apply _|apply keeps_mlift, _|]. intros total.
  apply keeps_mbind; [apply _|apply lift_exec_step, debit_source_step|]. intros c.
  apply keeps_mbind; [apply _| |intros ?; apply keeps_mlift, _].
  apply keeps_mbind; [apply _|apply distribute_transfers_step|intros ?; apply distribute_messages_step].
Qed.

Lemma process_single_tx_step tx ctx : keeps x_step (process_single_tx (S := LState) tx ctx).
Proof.
  unfold process_single_tx.
  apply keeps_mbind; [apply _|apply lift_exec_step, keeps_mreads_res, _|]. intros _.
  apply keeps_mbind; [apply _| |intros ?; apply apply_tx_effects_step].
  case_match; (apply keeps_mbind; [apply _| |intros ?; apply keeps_mret, _]).
  - apply keeps_mlift, _.
  - apply process_update_tx_step.
Qed.

(** The frame of a transaction segment. *)
Lemma process_block_tx_segment_step txs ctx : keeps x_step (process_block_tx_segment (S := LState) txs ctx).
Proof. apply keeps_miteri; [apply _|]. intros i tx. apply keeps_mmap_err, process_single_tx_step. Qed.

(** ** The frame of whole blocks

    Manifest buffering and the epoch-terminal drain additionally touch the
    epochal fields and the pending logs; accounts still evolve monotonically. *)

Record ledger_step (s s' : LState) : Prop := {
  lds_next : gs_next_avail_serial (ls_global s) = gs_next_avail_serial (ls_global s');
  lds_serials : ls_serials s = ls_serials s';
  lds_accts : accts_le (ls_accts s) (ls_accts s');
  lds_pending : zlen (ls_pending s) <= MAX_PENDING_ASM_LOGS -> zlen (ls_pending s') <= MAX_PENDING_ASM_LOGS;
  lds_total : es_total_ledger_funds (ls_epoch s) = es_total_ledger_funds (ls_epoch s');
}.

#[export] Instance ledger_step_preorder : PreOrder ledger_step.
Proof. split; [by split|intros s1 s2 s3 [] []; split; [by etransitivity..|auto|by etransitivity]]. Qed.

Lemma ls_step_ledger s s' : ls_step s s' -> ledger_step s s'.
Proof. intros []. split; congruence || done. Qed.

Lemma ledger_step_wf s s' : ls_wf s -> ledger_step s s' -> ls_wf s'.
Proof.
  intros Hwf [Hn Hs Ha Hp].
  assert (Hw : ls_wf (ls_set_pending s' (ls_pending s))).
  { apply (ls_step_wf {| ls_epoch := ls_epoch s'; ls_global := ls_global s'; ls_pending := ls_pending s;
      ls_accts := ls_accts s; ls_serials := ls_serials s |}); [|by split].
    destruct Hwf. split; simpl; rewrite <- ?Hn; done. }
  destruct Hw. split; simpl in *; try done. apply Hp, Hwf.
Qed.

Definition xl_step (x x' : XState LState) : Prop :=
  ledger_step (xs_state x) (xs_state x') /\ xs_out x `prefix_of` xs_out x'.

#[export] Instance xl_step_preorder : PreOrder xl_step.
Proof. split; [done|intros x1 x2 x3 [] []; split; by etransitivity]. Qed.

Lemma x_step_xl {A} (m : Exec LState A) : keeps x_step m -> keeps xl_step m.
Proof. intros Hm x. destruct (Hm x) as [Hs Ho]. split; [by apply ls_step_ledger|done]. Qed.

Lemma ls_step_ld {A} (m : M ExecError LState A) : keeps ls_step m -> keeps ledger_step m.
Proof. intros Hm s. apply ls_step_ledger, Hm. Qed.

Lemma lift_exec_ld {A} (m : M ExecError LState A) : keeps ledger_step m -> keeps xl_step (lift_exec m).
Proof.
  intros Hm x. unfold lift_exec. specialize (Hm (xs_state x)). destruct (m _) as [r s']. by split.
Qed.

Lemma with_fresh_output_ld {A} (m : Exec LState A) : keeps xl_step m -> keeps ledger_step (with_fresh_output m).
Proof.
  intros Hm s. unfold with_fresh_output. specialize (Hm {| xs_state := s; xs_out := [] |}).
  destruct (m _) as [r x]. apply Hm.
Qed.

Lemma process_block_manifests_ld mfs : keeps ledger_step (process_block_manifests (S := LState) mfs).
Proof.
  apply keeps_mbind; [apply _|apply keeps_mreads, _|]. intros h.
  apply keeps_miteri; [apply _|]. intros i mf. apply keeps_mbind; [apply _|apply keeps_mlift, _|]. intros rh.
  case_match; [apply keeps_merr, _|]. unfold handle_asm_manifest.
  apply keeps_mbind; [apply _| |intros _; apply keeps_mmap_err].
  - apply keeps_miter; [apply _|]. intros log. apply keeps_mmap_err. intros s. simpl.
    destruct (_ <? _) eqn:Hlt; [|done]. split; simpl; try done. autorewrite with zlen. zbool. lia.
  - intros s. simpl. destruct (append_l1_block_rec_to_mmr _ _); [|done..]. by split.
Qed.

Lemma process_asm_log_ld ctx log : keeps xl_step (process_asm_log (S := LState) ctx log).
Proof.
  unfold process_asm_log. repeat (case_match; try (apply keeps_mret, _)).
  - unfold process_deposit_log.
    apply keeps_mbind; [apply _|apply lift_exec_ld, keeps_mreads_res, _|]. intros [[dest data]|].
    + apply x_step_xl, process_message_step.
    + apply lift_exec_ld, ls_step_ld, handle_misplaced_funds_step.
  - apply lift_exec_ld, keeps_mmap_err. intros s. by split.
  - apply lift_exec_ld. unfold process_ee_predicate_key_update.
    apply keeps_mbind; [apply _|apply keeps_mreads_res, _|]. intros [acct_id|]; [|apply keeps_mret, _].
    case_match; [|apply keeps_mret, _].
    apply keeps_mbind; [apply _|apply keeps_mlift, _|]. intros msg.
    apply keeps_mbind; [apply _| |intros ?; apply keeps_mbind; [apply _|apply keeps_mlift, _|intros ?; apply keeps_mret, _]].
    apply keeps_mmap_err. intros s. apply ls_step_ledger, update_account_step.
    intros acct _. apply queue_predicate_update_le.
Qed.

Lemma process_epoch_terminal_ld ctx : keeps xl_step (process_epoch_terminal (S := LState) ctx).
Proof.
  apply keeps_mbind; [apply _|apply lift_exec_ld, keeps_mreads, _|]. intros epoch.
  apply keeps_mbind; [apply _|apply lift_exec_ld, keeps_mreads_res, _|]. intros pending.
  apply keeps_mbind; [apply _|apply keeps_miter; [apply _|intros ?; apply process_asm_log_ld]|]. intros _.
  apply keeps_mbind; [apply _| |intros _].
  { apply lift_exec_ld, keeps_mmap_err. intros s. by split. }
  apply keeps_mbind; [apply _|apply keeps_mlift, _|]. intros new_epoch.
  apply lift_exec_ld, keeps_mmap_err. intros s. by split.
Qed.

Lemma check_state_root_ld root : keeps ledger_step (check_state_root (S := LState) root).
Proof.
  apply keeps_mbind; [apply _|apply keeps_mreads_res, _|]. intros r.
  case_match; [apply keeps_merr, _|apply keeps_mret, _].
Qed.

Lemma process_block_start_ld ctx : keeps ledger_step (process_block_start (S := LState) ctx).
Proof.
  apply keeps_mbind; [apply _|apply keeps_mlift, _|]. intros _.
  apply keeps_mbind; [apply _|apply keeps_mreads, _|]. intros e.
  case_match; [apply keeps_merr, _|]. apply keeps_mmap_err. intros s. by split.
Qed.

Lemma epoch_initial_ld ctx : keeps ledger_step (epoch_initial_if_needed (S := LState) ctx).
Proof.
  unfold epoch_initial_if_needed. case_match; [|apply keeps_mret, _].
  apply keeps_mbind; [apply _|apply keeps_mlift, _|]. intros ec.
  apply keeps_mbind; [apply _|apply keeps_mreads, _|]. intros e.
  case_match; [apply keeps_merr, _|apply keeps_mret, _].
Qed.

Lemma exec_body_ld info parent body bp : keeps xl_step (exec_body (S := LState) info parent body bp).
Proof.
  apply keeps_mbind; [apply _| |intros _].
  - case_match; [apply x_step_xl, process_block_tx_segment_step|apply keeps_mret, _].
  - case_match; [apply lift_exec_ld, process_block_manifests_ld|apply keeps_mret, _].
Qed.

Lemma verify_block_predrain_ld header parent body bp :
  keeps ledger_step (verify_block_predrain (S := LState) header parent body bp).
Proof.
  apply keeps_mbind; [apply _|apply keeps_mlift, _|]. intros _.
  apply keeps_mbind; [apply _|apply keeps_mlift, _|]. intros _. cbv zeta.
  apply keeps_mbind; [apply _|apply keeps_mlift, _|]. intros ctx.
  apply keeps_mbind; [apply _|apply epoch_initial_ld|]. intros _.
  apply keeps_mbind; [apply _|apply process_block_start_ld|]. intros _.
  apply keeps_mbind; [apply _|apply with_fresh_output_ld, exec_body_ld|]. intros [u logs].
  apply keeps_mbind; [apply _| |intros _; apply keeps_mret, _].
  case_match; [apply check_state_root_ld|apply keeps_mret, _].
Qed.

Lemma apply_epoch_terminal_ld header : keeps ledger_step (apply_epoch_terminal (S := LState) header).
Proof.
  unfold apply_epoch_terminal. case_match; [|apply keeps_mret, _].
  apply keeps_mbind; [apply _|apply with_fresh_output_ld, process_epoch_terminal_ld|]. intros [u logs].
  apply keeps_mbind; [apply _|apply check_state_root_ld|intros _; apply keeps_mret, _].
Qed.

Lemma verify_block_ld header parent body bp : keeps ledger_step (verify_block (S := LState) header parent body bp).
Proof.
  apply keeps_mbind; [apply _|apply verify_block_predrain_ld|]. intros l1.
  apply keeps_mbind; [apply _|apply apply_epoch_terminal_ld|]. intros l2. cbv zeta.
  case_match; [apply keeps_merr, _|]. apply keeps_mbind; [apply _|apply keeps_mlift, _|]. intros r.
  case_match; [apply keeps_merr, _|apply keeps_mret, _].
Qed.

Lemma execute_block_batch_ld blocks parent bp : keeps ledger_step (execute_block_batch (S := LState) blocks parent bp).
Proof.
  revert parent. induction blocks as [|b blocks IH]; intros parent; simpl; [apply keeps_mret, _|].
  apply keeps_mbind; [apply _|apply verify_block_ld|]. intros l1.
  apply keeps_mbind; [apply _|apply IH|]. intros l2. apply keeps_mret, _.
Qed.

(** C10: whatever the outcome of verifying a block, accepted or not, the state
    left behind is a well-formed ledger with the same accounts under the same
    serials: no account is created or dropped, none changes its type, and the
    sequence number, message index and inbox size of every snark account are at
    least what they were. *)
Theorem verify_block_preserves_ledger header parent body bp (s : LState) :
  ls_wf s ->
  let s' := snd (verify_block header parent body bp s) in
  ls_wf s' /\ ledger_step s s'.
Proof.
  intros Hwf. pose proof (verify_block_ld header parent body bp s) as Hst.
  split; [by eapply ledger_step_wf|done].
Qed.
End frame.
