(* ===== verification/StfUpdates.v ===== *)
(** * Snark account updates on the ledger

    What an accepted update transaction does, and why it can be accepted only
    once. *)

From S2P Require Import Prelude SortedMap Identifiers AcctTypes ChainTypes Externals.
From S2P Require Import LedgerTypes Bridge OLAccount OLState StateAccessor LedgerSpec SnarkSys.
From S2P Require Import StfContext StfTx StfManifests StfBlock.
From S2P Require Import StfSim StfAgreement StfLedger.

Section updates.
Context `{XR : ExtRoot}.

(** ** Inversion of successful steps over the ledger *)

Lemma update_account_exec_returns {A} id (f : M ExecError OLAccountState A) (s : LState) r s' :
  update_account_exec id f s = (Ok r, s') ->
  exists acct acct', ls_accts s !! id = Some acct /\ f acct = (Ok r, acct') /\
    s' = ls_set_accts s (<[id := acct']> (ls_accts s)).
Proof.
  unfold update_account_exec, mbind, mmap_err. simpl.
  destruct (ls_accts s !! id) as [acct|] eqn:Hl; [|done]. unfold run_account.
  destruct (f acct) as [[a|e|] acct'] eqn:Hf; simpl; unfold mlift; intros; simplify_eq. eauto.
Qed.

Lemma emit_typed_log_returns {S} serial enc (x : XState S) x' :
  emit_typed_log serial enc x = (Ok tt, x') ->
  exists body, enc = Ok body /\ xs_state x' = xs_state x /\
    xs_out x' = xs_out x ++ [{| log_account_serial := serial; log_payload := body |}] /\
    zlen (xs_out x') <= MAX_LOGS_PER_BLOCK.
Proof.
  unfold emit_typed_log. intros H. minv. destruct enc as [body| |]; simplify_eq/=.
  unfold emit_log, emit_logs, buffer_emit_logs in H. destruct (_ <? _) eqn:Hlt; simplify_eq/=.
  eexists. split_and!; try done. zbool. autorewrite with zlen in *. unfold saturating_add_u64 in *.
  assert (MAX_LOGS_PER_BLOCK < U64_MAX) by reflexivity. lia.
Qed.

(** The snark state an update leaves. *)
Definition updated_snark (sa : OLSnarkAccountState) (upd : SauTxUpdateData) (sa' : OLSnarkAccountState) : Prop :=
  sas_seqno sa' = sas_seqno sa + 1 /\
  sas_proof_state sa' = {| ps_inner_state := sps_inner_state_root (sud_proof_state upd);
                           ps_next_inbox_msg_idx := sps_new_next_msg_idx (sud_proof_state upd) |} /\
  sas_inbox_mmr sa' = sas_inbox_mmr sa /\
  match sud_new_predicate upd with
  | None => sas_update_vk sa' = sas_update_vk sa
  | Some vk => pred_try_as_buf vk = Some (sas_update_vk sa')
  end.

Lemma write_update_returns target upd sa sa' :
  sud_seq_no upd = sas_seqno sa -> write_update target upd sa = (Ok tt, sa') -> updated_snark sa upd sa'.
Proof.
  unfold write_update, updated_snark. intros Hs H. apply mbind_returns in H as (n & ? & Hn & H).
  unfold mlift, checked_add_u64 in Hn. destruct (_ <=? _); simplify_eq/=. rewrite mbind_mmodify in H.
  destruct (sud_new_predicate upd) as [vk|].
  - destruct (pred_try_as_buf vk); [|done]. unfold mmodify in H. simplify_eq/=. by rewrite Hs.
  - unfold mret in H. simplify_eq/=. by rewrite Hs.
Qed.

Lemma process_update_tx_returns sau fx proofs ctx (x x' : XState LState) :
  process_update_tx sau fx proofs ctx x = (Ok tt, x') ->
  let upd := sod_update_data (sau_operation_data sau) in
  exists acct sa sa' log,
    ls_accts (xs_state x) !! sau_target sau = Some acct /\ acct_state acct = TySnark sa /\
    update_accepted sau sa /\ updated_snark sa upd sa' /\
    xs_state x' = ls_set_accts (xs_state x)
      (<[sau_target sau := acct_with_state acct (TySnark sa')]> (ls_accts (xs_state x))) /\
    xs_out x' = xs_out x ++ [log] /\ log_account_serial log = acct_serial acct.
Proof.
  unfold process_update_tx. intros H. apply mbind_returns in H as (acct & x1 & Hc & H).
  apply lift_exec_returns in Hc as (s1 & Hc & ->). unfold mreads_res in Hc. simplify_eq/=.
  apply check_update_tx_ok in H0 as (Hget & _ & sa & Hst & Hacc). simpl in Hget. injection Hget as Hget.
  apply mbind_returns in H as ([] & x2 & Hu & H). apply lift_exec_returns in Hu as (s2 & Hu & ->).
  apply update_account_exec_returns in Hu as (acct1 & acct' & Hl & Hw & ->). simpl in *.
  apply mbind_returns in H as (log & x3 & Hlog & H). unfold mlift in Hlog. simplify_eq/=.
  apply emit_typed_log_returns in H as (body & _ & Hs & Ho & _). simpl in *.
  unfold write_update_account, on_snark_account in Hw. simpl in Hw. rewrite Hst in Hw. simpl in Hw.
  destruct (write_update _ _ sa) as [r sa'] eqn:Hwu. simplify_eq/=.
  exists acct, sa, sa'. eexists. split_and!; try done. eapply write_update_returns; [apply Hacc|done].
Qed.

(** C9: an update transaction that is processed was accepted against the account
    as it was, and exactly that account changes: its sequence number goes up by
    one, its proof state becomes the declared one with the message index moved
    past the processed messages, its key changes only if a registered successor
    was declared, balance, serial and inbox stay, and one log is appended. *)
Theorem process_update_tx_effect sau fx proofs ctx (x x' : XState LState) :
  process_update_tx sau fx proofs ctx x = (Ok tt, x') ->
  let upd := sod_update_data (sau_operation_data sau) in
  exists acct sa sa' log,
    ls_accts (xs_state x) !! sau_target sau = Some acct /\ acct_state acct = TySnark sa /\
    update_accepted sau sa /\ updated_snark sa upd sa' /\
    xs_state x' = ls_set_accts (xs_state x)
      (<[sau_target sau := acct_with_state acct (TySnark sa')]> (ls_accts (xs_state x))) /\
    xs_out x' = xs_out x ++ [log] /\ log_account_serial log = acct_serial acct.
Proof. apply process_update_tx_returns. Qed.

(** ** No replay *)

Context `{!MmrLaws X}.

(** The account's sequence number in a state, if it is a snark account. *)
Definition seqno_of (s : LState) (id : AccountId) : option Seqno :=
  match ls_accts s !! id with
  | Some acct => match acct_state acct with TySnark sa => Some (sas_seqno sa) | TyEmpty => None end
  | None => None
  end.

Lemma seqno_of_step s s' id n :
  ls_step s s' -> seqno_of s id = Some n -> exists n', seqno_of s' id = Some n' /\ n <= n'.
Proof.
  intros Hst. unfold seqno_of. destruct (ls_accts s !! id) as [acct|] eqn:Hl; [|done].
  destruct (accts_le_lookup _ _ _ _ (lst_accts _ _ Hst) Hl) as (acct' & -> & [_ Hle]).
  unfold type_state_le in Hle. destruct (acct_state acct), (acct_state acct'); try done.
  intros [= <-]. eexists. split; [done|]. apply Hle.
Qed.

(** A processed update transaction names the current sequence number, which is
    then passed. *)
Lemma process_single_tx_seqno tx sau ctx (x x' : XState LState) :
  txd_payload (tx_data tx) = SnarkAccountUpdate sau ->
  process_single_tx tx ctx x = (Ok tt, x') ->
  let n := sud_seq_no (sod_update_data (sau_operation_data sau)) in
  seqno_of (xs_state x) (sau_target sau) = Some n /\
  exists n', seqno_of (xs_state x') (sau_target sau) = Some n' /\ n < n'.
Proof.
  intros Hp. unfold process_single_tx. rewrite Hp. intros H.
  apply mbind_returns in H as ([] & x1 & Hc & H). apply lift_exec_returns in Hc as (s1 & Hc & ->).
  unfold mreads_res in Hc. simplify_eq/=.
  apply mbind_returns in H as (src & x2 & Hu & H). apply mbind_returns in Hu as ([] & x3 & Hu & Hret).
  unfold mret in Hret. simplify_eq.
  assert (Hx : {| xs_state := xs_state x; xs_out := xs_out x |} = x) by (by destruct x). rewrite Hx in Hu.
  apply process_update_tx_returns in Hu as (acct & sa & sa' & log & Hl & Hst & Hacc & Hupd & Hs & _).
  split; [unfold seqno_of; rewrite Hl, Hst; by rewrite (ua_seq_no _ _ Hacc)|].
  destruct (seqno_of_step (xs_state x2) (xs_state x') (sau_target sau) (sas_seqno sa + 1)) as (n' & Hn & Hle).
  - pose proof (apply_tx_effects_step (tec_basic_context ctx) (sau_target sau) (txd_effects (tx_data tx)) x2) as [Hstep _].
    by rewrite H in Hstep.
  - unfold seqno_of. rewrite Hs. simpl. rewrite lookup_insert_eq. simpl. destruct Hupd as [-> _]. done.
  - exists n'. split; [done|]. rewrite (ua_seq_no _ _ Hacc). lia.
Qed.

Lemma seqno_of_ledger s s' id n :
  ledger_step s s' -> seqno_of s id = Some n -> exists n', seqno_of s' id = Some n' /\ n <= n'.
Proof.
  intros Hst. unfold seqno_of. destruct (ls_accts s !! id) as [acct|] eqn:Hl; [|done].
  destruct (accts_le_lookup _ _ _ _ (lds_accts _ _ Hst) Hl) as (acct' & -> & [_ Hle]).
  unfold type_state_le in Hle. destruct (acct_state acct), (acct_state acct'); try done.
  intros [= <-]. eexists. split; [done|]. apply Hle.
Qed.

Lemma seqno_of_ledger_r s s' id n' :
  ledger_step s s' -> seqno_of s' id = Some n' -> exists n, seqno_of s id = Some n /\ n <= n'.
Proof.
  intros Hst. unfold seqno_of. destruct (ls_accts s' !! id) as [acct'|] eqn:Hl; [|done].
  destruct (accts_le_lookup_r _ _ _ _ (lds_accts _ _ Hst) Hl) as (acct & -> & [_ Hle]).
  unfold type_state_le in Hle. destruct (acct_state acct), (acct_state acct'); try done.
  intros [= <-]. eexists. split; [done|]. apply Hle.
Qed.

(** The updates of a segment, named by account and sequence number. *)
Definition update_key (tx : OLTransaction) : option (AccountId * Seqno) :=
  match txd_payload (tx_data tx) with
  | SnarkAccountUpdate sau => Some (sau_target sau, sud_seq_no (sod_update_data (sau_operation_data sau)))
  | GenericAccountMessage _ => None
  end.
Definition update_keys (txs : list OLTransaction) : list (AccountId * Seqno) := omap update_key txs.
Definition block_keys (b : OLBlock) : list (AccountId * Seqno) :=
  update_keys (default [] (body_tx_segment (blk_body b))).

(** Between two states every key is consumed: its sequence number is not behind
    the first state and behind the second. *)
Record keys_between (s s' : LState) (ks : list (AccountId * Seqno)) : Prop := {
  kb_nodup : NoDup ks;
  kb_range id n : (id, n) ∈ ks -> exists m m', seqno_of s id = Some m /\ seqno_of s' id = Some m' /\ m <= n < m';
}.

Lemma keys_between_nil s s' : keys_between s s' [].
Proof. split; [constructor|]. intros id n H. by apply not_elem_of_nil in H. Qed.

Lemma keys_between_weaken s0 s s' s1 ks :
  ledger_step s0 s -> ledger_step s' s1 -> keys_between s s' ks -> keys_between s0 s1 ks.
Proof.
  intros H0 H1 [Hn Hr]. split; [done|]. intros id n Hin.
  destruct (Hr id n Hin) as (m & m' & Hm & Hm' & Hlt).
  destruct (seqno_of_ledger_r _ _ _ _ H0 Hm) as (m0 & ? & ?).
  destruct (seqno_of_ledger _ _ _ _ H1 Hm') as (m1 & ? & ?). exists m0, m1. split_and!; try done; lia.
Qed.

Lemma keys_between_app s s1 s' ks1 ks2 :
  ledger_step s s1 -> ledger_step s1 s' ->
  keys_between s s1 ks1 -> keys_between s1 s' ks2 -> keys_between s s' (ks1 ++ ks2).
Proof.
  intros Hs1 Hs2 H1 H2. split.
  - apply NoDup_app. split_and!; [apply H1| |apply H2]. intros [id n] Hin1 Hin2.
    destruct (kb_range _ _ _ H1 id n Hin1) as (m & m1 & _ & Hm1 & ?).
    destruct (kb_range _ _ _ H2 id n Hin2) as (m1' & m' & Hm1' & _ & ?).
    rewrite Hm1 in Hm1'. simplify_eq. lia.
  - intros id n [Hin|Hin]%elem_of_app.
    + by apply (keys_between_weaken s s s1 s' ks1).
    + by apply (keys_between_weaken s s1 s' s' ks2).
Qed.

Lemma process_single_tx_keys tx ctx (x x' : XState LState) :
  process_single_tx tx ctx x = (Ok tt, x') ->
  keys_between (xs_state x) (xs_state x') (update_keys [tx]).
Proof.
  intros H. unfold update_keys. simpl. destruct (update_key tx) as [[id n]|] eqn:Hk; [|apply keys_between_nil].
  unfold update_key in Hk. destruct (txd_payload (tx_data tx)) as [|sau] eqn:Hp; simplify_eq.
  destruct (process_single_tx_seqno tx sau ctx x x' Hp H) as (Hs & n' & Hn' & Hlt).
  split; [apply NoDup_singleton|]. intros id n [= -> ->]%list_elem_of_singleton. eauto with lia.
Qed.

Lemma process_block_tx_segment_keys txs ctx (x x' : XState LState) :
  process_block_tx_segment txs ctx x = (Ok tt, x') ->
  keys_between (xs_state x) (xs_state x') (update_keys txs).
Proof.
  unfold process_block_tx_segment. generalize 0 as i. revert x.
  induction txs as [|tx txs IH]; intros x i H; cbn [miteri] in H.
  - minv. apply keys_between_nil.
  - apply mbind_returns in H as ([] & x1 & Htx & H). apply mmap_err_returns in Htx.
    change (update_keys (tx :: txs)) with (update_keys ([tx] ++ txs)). unfold update_keys. rewrite omap_app.
    pose proof (process_single_tx_step tx ctx x) as [Hs1 _]. rewrite Htx in Hs1.
    eapply keys_between_app; [by apply ls_step_ledger| |by eapply process_single_tx_keys|by eapply IH].
    pose proof (keeps_miteri x_step (fun i tx => mmap_err (fun e => with_tx e (compute_txid tx) i)
      (process_single_tx tx ctx)) (i + 1) txs) as Hk.
    specialize (Hk ltac:(intros j tx'; apply keeps_mmap_err, process_single_tx_step) x1) as [Hs2 _].
    rewrite H in Hs2. by apply ls_step_ledger.
Qed.

Lemma exec_body_keys info parent body bp (x x' : XState LState) :
  exec_body info parent body bp x = (Ok tt, x') ->
  keys_between (xs_state x) (xs_state x') (update_keys (default [] (body_tx_segment body))).
Proof.
  unfold exec_body. intros H. apply mbind_returns in H as ([] & x1 & Htx & H).
  apply (keys_between_weaken (xs_state x) (xs_state x) (xs_state x1)); [done| |].
  - assert (Hk : keeps xl_step (match body_manifests body with
      | Some mfs => lift_exec (process_block_manifests (S := LState) mfs) | None => mret tt end)).
    { case_match; [apply lift_exec_ld, process_block_manifests_ld|apply keeps_mret, _]. }
    specialize (Hk x1) as [Hk _]. by rewrite H in Hk.
  - destruct (body_tx_segment body); simpl; [by eapply process_block_tx_segment_keys|].
    minv. apply keys_between_nil.
Qed.

Lemma verify_block_keys header parent body bp (s s' : LState) logs :
  verify_block header parent body bp s = (Ok logs, s') ->
  keys_between s s' (update_keys (default [] (body_tx_segment body))).
Proof.
  intros H. apply verify_block_inv in H as (l1 & l2 & s2 & Hpre & Hdrain & _).
  apply verify_block_predrain_inv in Hpre as (_ & _ & ctx & s0 & s1 & _ & Hi & Hb & Hx & _).
  apply exec_body_keys in Hx. simpl in Hx.
  apply (keys_between_weaken s s1 s2); [| |done].
  - transitivity s0; [eapply keeps_ok; [apply epoch_initial_ld|done]|].
    eapply keeps_ok; [apply process_block_start_ld|done].
  - eapply keeps_ok; [apply apply_epoch_terminal_ld|done].
Qed.

(** C11: the update transactions of a verified batch of blocks are pairwise
    different in account or sequence number, and every one of them names a
    sequence number between the account's number before and after the batch: an
    update is never accepted twice. *)
Theorem execute_block_batch_no_replay blocks parent bp (s s' : LState) logs :
  execute_block_batch blocks parent bp s = (Ok logs, s') ->
  keys_between s s' (concat (map block_keys blocks)).
Proof.
  revert parent s logs. induction blocks as [|b blocks IH]; intros parent s logs H; cbn [execute_block_batch] in H.
  - minv. apply keys_between_nil.
  - apply mbind_returns in H as (l1 & s1 & Hb & H). apply mbind_returns in H as (l2 & s2 & Hrest & H).
    unfold mret in H. simplify_eq. simpl.
    eapply keys_between_app; [eapply keeps_ok; [apply verify_block_ld|done]| |by eapply verify_block_keys|by eapply IH].
    eapply keeps_ok; [|exact Hrest]. apply execute_block_batch_ld.
Qed.
End updates.
