(* ===== verification/StfManifestSpec.v ===== *)
(** * What buffering manifests and draining them does to the ledger

    Accepted manifests have the heights right after the last known L1 block;
    their records are appended to the L1 block MMR and their logs to the pending
    logs.  The epoch terminal processes exactly the pending logs, in order, and
    empties the buffer. *)

From S2P Require Import Prelude SortedMap Identifiers AcctTypes ChainTypes Externals.
From S2P Require Import LedgerTypes Bridge OLAccount OLState StateAccessor LedgerSpec SnarkSys.
From S2P Require Import StfContext StfTx StfManifests StfBlock.
From S2P Require Import StfSim StfAgreement StfLedger StfUpdates.

Section manifests.
Context `{XR : ExtRoot}.

Definition pending_of (mf : AsmManifest) : list PendingAsmLog :=
  map (fun l => {| pal_height := mf_height mf; pal_log := l |}) (mf_logs mf).

Definition record_of (mf : AsmManifest) : L1BlockRecord :=
  {| l1r_block_hash := mf_blkid mf; l1r_wtxids_root := mf_wtxids_root mf |}.

(** The MMR after appending the records of the manifests in order. *)
Fixpoint mmr_extend (m : Mmr64) (mfs : list AsmManifest) : option Mmr64 :=
  match mfs with
  | [] => Some m
  | mf :: mfs' =>
      match mmr_add_leaf m (thr_l1_block_record (record_of mf)) with
      | Some m' => mmr_extend m' mfs'
      | None => None
      end
  end.

(** The L1 block the last manifest stands for, or the one before them all. *)
Definition last_l1_of (b : L1BlockCommitment) (mfs : list AsmManifest) : L1BlockCommitment :=
  match last mfs with
  | Some mf => {| l1c_height := mf_height mf; l1c_blkid := mf_blkid mf |}
  | None => b
  end.

(** The state after buffering manifests. *)
Definition buffered (s : LState) (mmr : Mmr64) (mfs : list AsmManifest) : LState :=
  {| ls_epoch := es_set_last_l1_block (es_set_mmr (ls_epoch s) mmr)
       (last_l1_of (es_last_l1_block (ls_epoch s)) mfs);
     ls_global := ls_global s; ls_pending := ls_pending s ++ concat (map pending_of mfs);
     ls_accts := ls_accts s; ls_serials := ls_serials s |}.

(** Contiguous heights from [h + 1] on. *)
Definition heights_from (h : L1Height) (mfs : list AsmManifest) : Prop :=
  forall i mf, mfs !! i = Some mf -> mf_height mf = h + 1 + Z.of_nat i.

Lemma append_logs_returns h logs (s s' : LState) :
  miter (fun log => mmap_err State (try_append_pending_asm_log {| pal_height := h; pal_log := log |})) logs s
    = (Ok tt, s') ->
  s' = ls_set_pending s (ls_pending s ++ map (fun l => {| pal_height := h; pal_log := l |}) logs).
Proof.
  revert s. induction logs as [|l logs IH]; intros s H; cbn [miter] in H.
  - minv. rewrite app_nil_r. by destruct s'.
  - apply mbind_returns in H as ([] & s1 & H1 & H). apply mmap_err_returns in H1. simpl in H1.
    destruct (_ <? _); simplify_eq. apply IH in H. subst s'. simpl.
    unfold ls_set_pending. simpl. by rewrite <- app_assoc.
Qed.

Lemma handle_asm_manifest_returns mf (s s' : LState) :
  handle_asm_manifest (mf_height mf) mf s = (Ok tt, s') ->
  exists mmr, mmr_add_leaf (es_l1_block_refs_mmr (ls_epoch s)) (thr_l1_block_record (record_of mf)) = Some mmr /\
    s' = buffered s mmr [mf].
Proof.
  unfold handle_asm_manifest. intros H. apply mbind_returns in H as ([] & s1 & H1 & H).
  apply append_logs_returns in H1. subst s1. apply mmap_err_returns in H. simpl in H.
  unfold append_l1_block_rec_to_mmr in H. fold (record_of mf) in H.
  destruct (mmr_add_leaf _ _) as [mmr|] eqn:Hm; simplify_eq/=. exists mmr. split; [done|].
  unfold buffered, ls_set_pending, ls_set_epoch. simpl. by rewrite app_nil_r.
Qed.

Lemma next_manifest_height_ok h i rh : 0 <= i -> next_manifest_height h i = Ok rh -> rh = h + i + 1.
Proof.
  intros Hi. unfold next_manifest_height, checked_add_u32. repeat case_match; simplify_eq/=; intros; simplify_eq.
  all: repeat case_match; simplify_eq/=; done.
Qed.

Lemma buffered_nil s : buffered s (es_l1_block_refs_mmr (ls_epoch s)) [] = s.
Proof. unfold buffered, last_l1_of. simpl. rewrite app_nil_r. by destruct s as [[] ? ? ? ?]. Qed.

Lemma buffered_cons s m1 m2 mf mfs : buffered (buffered s m1 [mf]) m2 mfs = buffered s m2 (mf :: mfs).
Proof.
  unfold buffered. simpl. f_equal.
  - unfold es_set_last_l1_block, es_set_mmr. simpl. f_equal. unfold last_l1_of. simpl.
    rewrite last_cons. by destruct (last mfs).
  - rewrite app_nil_r. by rewrite <- app_assoc.
Qed.

Lemma process_manifests_from h i mfs (s s' : LState) :
  0 <= i ->
  miteri (fun i mf =>
      let* real_height := mlift (next_manifest_height h i) in
      if negb (mf_height mf =? real_height) then
        merr (AsmManifestHeightMismatch real_height (mf_height mf) i)
      else handle_asm_manifest real_height mf) i mfs s = (Ok tt, s') ->
  heights_from (h + i) mfs /\
  exists mmr, mmr_extend (es_l1_block_refs_mmr (ls_epoch s)) mfs = Some mmr /\ s' = buffered s mmr mfs.
Proof.
  revert i s. induction mfs as [|mf mfs IH]; intros i s Hi H; cbn [miteri] in H.
  - minv. split; [by intros j mf Hj; rewrite lookup_nil in Hj|]. eexists. split; [done|]. by rewrite buffered_nil.
  - apply mbind_returns in H as ([] & s1 & H1 & H). apply mbind_returns in H1 as (rh & ? & Hh & H1).
    unfold mlift in Hh. injection Hh as Hh <-. apply next_manifest_height_ok in Hh; [|done].
    destruct (mf_height mf =? rh) eqn:Heq; simpl in H1; [|by minv]. zbool. subst rh. rewrite <- Heq in H1.
    apply handle_asm_manifest_returns in H1 as (m1 & Hm1 & ->).
    apply IH in H as (Hh & mmr & Hm & ->); [|lia]. split.
    + intros [|j] mf' Hj; simpl in Hj; simplify_eq; [lia|]. apply Hh in Hj. lia.
    + exists mmr. simpl. rewrite Hm1. split; [done|]. by rewrite buffered_cons.
Qed.

(** Buffering accepted manifests. *)
Lemma process_block_manifests_returns mfs (s s' : LState) :
  process_block_manifests mfs s = (Ok tt, s') ->
  heights_from (l1c_height (es_last_l1_block (ls_epoch s))) mfs /\
  exists mmr, mmr_extend (es_l1_block_refs_mmr (ls_epoch s)) mfs = Some mmr /\ s' = buffered s mmr mfs.
Proof.
  unfold process_block_manifests. intros H. apply mbind_returns in H as (h & ? & Hh & H).
  unfold mreads in Hh. injection Hh as <- <-. apply process_manifests_from in H; [|lia].
  simpl in H. by rewrite Z.add_0_r in H.
Qed.

Lemma mmr_extend_entries `{!MmrLaws X} m mfs m' :
  mmr_extend m mfs = Some m' -> mmr_num_entries m' = mmr_num_entries m + zlen mfs.
Proof.
  revert m. induction mfs as [|mf mfs IH]; intros m; simpl.
  - intros [= <-]. autorewrite with zlen. lia.
  - destruct (mmr_add_leaf _ _) as [m1|] eqn:Hm; [|done]. apply mmr_add_leaf_entries in Hm; [|apply thr_l1_block_record_nonzero].
    intros H. apply IH in H. autorewrite with zlen. lia.
Qed.

Lemma last_l1_of_height b mfs :
  heights_from (l1c_height b) mfs -> l1c_height (last_l1_of b mfs) = l1c_height b + zlen mfs.
Proof.
  intros Hh. unfold last_l1_of. rewrite last_lookup. unfold zlen.
  destruct (mfs !! pred (length mfs)) as [mf|] eqn:Hl; simpl.
  - pose proof (lookup_lt_Some _ _ _ Hl). apply Hh in Hl as ->. lia.
  - apply lookup_ge_None in Hl. destruct mfs; simpl in *; lia.
Qed.

(** ** The drain *)

Lemma snapshot_pending_all (s : LState) : snapshot_pending s 0 (length (ls_pending s)) = Ok (ls_pending s).
Proof.
  assert (H : forall pre l, ls_pending s = pre ++ l ->
    snapshot_pending s (zlen pre) (length l) = Ok l).
  { intros pre l. revert pre. induction l as [|e l IH]; intros pre Hp; simpl; [done|].
    rewrite Hp. unfold zlen at 1. rewrite Nat2Z.id, list_lookup_middle by done. simpl.
    specialize (IH (pre ++ [e])). rewrite <- app_assoc in IH. specialize (IH Hp).
    autorewrite with zlen in IH. rewrite Z.add_0_l in IH. by rewrite IH. }
  by apply (H []).
Qed.

(** A successful drain processes the pending logs in order, then empties the
    buffer and advances the epoch. *)
Lemma process_epoch_terminal_returns ctx (x x' : XState LState) :
  process_epoch_terminal ctx x = (Ok tt, x') ->
  exists x1,
    miter (fun entry => process_asm_log ctx (pal_log entry)) (ls_pending (xs_state x)) x = (Ok tt, x1) /\
    es_cur_epoch (ls_epoch (xs_state x)) + 1 <= U32_MAX /\
    xs_out x' = xs_out x1 /\
    xs_state x' = ls_set_epoch (ls_set_pending (xs_state x1) [])
      (es_set_cur_epoch (ls_epoch (xs_state x1)) (es_cur_epoch (ls_epoch (xs_state x)) + 1)).
Proof.
  unfold process_epoch_terminal. intros H.
  apply mbind_returns in H as (e & ? & He & H). apply lift_exec_returns in He as (? & He & ->).
  unfold mreads in He. injection He as <- <-.
  apply mbind_returns in H as (p & ? & Hp & H). apply lift_exec_returns in Hp as (? & Hp & ->).
  unfold mreads_res in Hp. simpl in Hp. unfold zlen in Hp. rewrite Nat2Z.id, snapshot_pending_all in Hp.
  injection Hp as <- <-. simpl in H.
  apply mbind_returns in H as ([] & x1 & Hm & H). exists x1.
  apply mbind_returns in H as ([] & x2 & Hr & H). apply lift_exec_returns in Hr as (s2 & Hr & ->).
  apply mmap_err_returns in Hr. simpl in Hr. unfold mmodify in Hr. injection Hr as <-.
  apply mbind_returns in H as (ne & ? & Hn & H). unfold mlift, checked_add_u32 in Hn.
  destruct (_ <=? U32_MAX) eqn:Hle; simplify_eq/=. zbool.
  apply lift_exec_returns in H as (s3 & Hr & ->). apply mmap_err_returns in Hr. simpl in Hr.
  unfold mmodify in Hr. injection Hr as <-. split_and!; try done. by destruct x.
Qed.

(** ** Verified blocks, phase by phase *)

Definition block_txs (body : OLBlockBody) : list OLTransaction := default [] (body_tx_segment body).
Definition block_manifests (body : OLBlockBody) : list AsmManifest := default [] (body_manifests body).
Definition tx_context (header : OLBlockHeader) (parent : option OLBlockHeader) (bp : BridgeParams)
    : TxExecContext :=
  {| tec_basic_context := with_bridge_params (BasicExecContext_new (BlockInfo_from_header header)) bp;
     tec_parent_header := parent |}.
Definition at_slot (s : LState) (slot : Slot) : LState := ls_set_global s (gs_set_cur_slot (ls_global s) slot).

Lemma process_block_start_returns ctx (s s' : LState) :
  process_block_start ctx s = (Ok tt, s') ->
  check_block_coords ctx = Ok tt /\ bc_epoch ctx = es_cur_epoch (ls_epoch s) /\ s' = at_slot s (bc_slot ctx).
Proof.
  unfold process_block_start. intros H. apply mbind_returns in H as ([] & ? & Hc & H). unfold mlift in Hc.
  injection Hc as Hc <-. apply mbind_returns in H as (e & ? & He & H). unfold mreads in He. injection He as <- <-.
  destruct (bc_epoch ctx =? _) eqn:Heq; simpl in H, Heq; [|by minv]. zbool. simpl in H.
  apply mmap_err_returns in H. unfold mmodify in H. injection H as <-. done.
Qed.

Lemma epoch_initial_returns ctx (s s' : LState) : epoch_initial_if_needed ctx s = (Ok tt, s') -> s' = s.
Proof.
  unfold epoch_initial_if_needed, process_epoch_initial. case_match; intros H'; minv; [|done].
  case_match; by minv.
Qed.

(** What a verified block did, in terms of its parts. *)
Record block_run (header : OLBlockHeader) (parent : option OLBlockHeader) (body : OLBlockBody)
    (bp : BridgeParams) (s s' : LState) (logs : list OLLog) (x : XState LState) (mmr : Mmr64)
    (drain_logs : list OLLog) : Prop := {
  br_continuity : verify_header_continuity header parent = Ok tt;
  br_epoch : es_cur_epoch (ls_epoch s) = hdr_epoch header;
  br_txs : process_block_tx_segment (block_txs body) (tx_context header parent bp)
    {| xs_state := at_slot s (hdr_slot header); xs_out := [] |} = (Ok tt, x);
  br_heights : heights_from (l1c_height (es_last_l1_block (ls_epoch (xs_state x)))) (block_manifests body);
  br_mmr : mmr_extend (es_l1_block_refs_mmr (ls_epoch (xs_state x))) (block_manifests body) = Some mmr;
  br_drain :
    let s3 := buffered (xs_state x) mmr (block_manifests body) in
    if hdr_is_terminal header then
      process_epoch_terminal (BasicExecContext_new (BlockInfo_from_header header))
        {| xs_state := s3; xs_out := [] |} = (Ok tt, {| xs_state := s'; xs_out := drain_logs |})
    else s' = s3 /\ drain_logs = [];
  br_logs : logs = xs_out x ++ drain_logs;
}.

Lemma exec_body_returns header parent body bp (s s' : LState) logs :
  exec_body (BlockInfo_from_header header) parent body bp {| xs_state := s; xs_out := [] |}
    = (Ok tt, {| xs_state := s'; xs_out := logs |}) ->
  exists x mmr,
    process_block_tx_segment (block_txs body) (tx_context header parent bp)
      {| xs_state := s; xs_out := [] |} = (Ok tt, x) /\
    heights_from (l1c_height (es_last_l1_block (ls_epoch (xs_state x)))) (block_manifests body) /\
    mmr_extend (es_l1_block_refs_mmr (ls_epoch (xs_state x))) (block_manifests body) = Some mmr /\
    s' = buffered (xs_state x) mmr (block_manifests body) /\ logs = xs_out x.
Proof.
  unfold exec_body, block_txs, block_manifests. intros H. apply mbind_returns in H as ([] & x & Hx & H). exists x.
  assert (Htx : process_block_tx_segment (default [] (body_tx_segment body)) (tx_context header parent bp)
    {| xs_state := s; xs_out := [] |} = (Ok tt, x)) by (by destruct (body_tx_segment body)).
  destruct (body_manifests body) as [mfs|]; simpl.
  - apply lift_exec_returns in H as (s1 & Hm & Hx'). simplify_eq.
    apply process_block_manifests_returns in Hm as (Hh & mmr & Hmmr & ->). exists mmr. done.
  - minv. eexists. split_and!; [done| |done|by rewrite buffered_nil|done].
    intros i mf Hi. by rewrite lookup_nil in Hi.
Qed.

Lemma verify_block_run header parent body bp (s s' : LState) logs :
  verify_block header parent body bp s = (Ok logs, s') ->
  exists x mmr drain_logs, block_run header parent body bp s s' logs x mmr drain_logs.
Proof.
  intros H. apply verify_block_inv in H as (l1 & l2 & s2 & Hpre & Hdrain & -> & _).
  apply verify_block_predrain_inv in Hpre as (Hc & _ & ctx & s0 & s1 & -> & Hi & Hb & Hx & _).
  apply epoch_initial_returns in Hi. subst s0. apply process_block_start_returns in Hb as (_ & He & ->).
  apply exec_body_returns in Hx as (x & mmr & Htx & Hh & Hm & -> & ->).
  exists x, mmr, l2. apply apply_epoch_terminal_inv in Hdrain. split; try done.
  cbv zeta. destruct (hdr_is_terminal header); [apply Hdrain|done].
Qed.
End manifests.
