(* ===== verification/DaReplay.v ===== *)
(** * Rebuilding an epoch from its diff

    An epoch can be executed block by block, or rebuilt from a diff of its
    ledger and global effects by replaying all its manifests at once and
    draining them.  Both lead to the same state: transactions and manifest
    buffering touch different parts of the state, and buffering a block's
    manifests one block at a time is buffering them all. *)

From S2P Require Import Prelude SortedMap Identifiers AcctTypes ChainTypes Externals.
From S2P Require Import LedgerTypes Bridge OLAccount OLState StateAccessor LedgerSpec SnarkSys.
From S2P Require Import StfContext StfTx StfManifests StfBlock.
From S2P Require Import StfSim StfAgreement StfLedger StfUpdates StfManifestSpec.

Section replay.
Context `{XR : ExtRoot}.

(** ** Buffering manifests, exactly *)

Lemma append_logs_run h logs (s : LState) :
  zlen (ls_pending s) + zlen logs <= MAX_PENDING_ASM_LOGS ->
  miter (fun log => mmap_err State (try_append_pending_asm_log {| pal_height := h; pal_log := log |})) logs s
    = (Ok (E := ExecError) tt,
       ls_set_pending s (ls_pending s ++ map (fun l => {| pal_height := h; pal_log := l |}) logs)).
Proof.
  revert s. induction logs as [|l logs IH]; intros s Hb; cbn [miter].
  - rewrite app_nil_r. by destruct s.
  - autorewrite with zlen in Hb. pose proof (zlen_nonneg logs).
    assert (Hlt : (zlen (ls_pending s) <? MAX_PENDING_ASM_LOGS) = true) by (apply Z.ltb_lt; lia).
    rewrite (mbind_ok _ _ _ tt (ls_set_pending s (ls_pending s ++ [{| pal_height := h; pal_log := l |}]))).
    2: { unfold mmap_err. simpl. by rewrite Hlt. }
    rewrite IH; [|simpl; autorewrite with zlen; lia]. unfold ls_set_pending. simpl. by rewrite <- app_assoc.
Qed.

Lemma handle_asm_manifest_run mf (s : LState) mmr :
  mmr_add_leaf (es_l1_block_refs_mmr (ls_epoch s)) (thr_l1_block_record (record_of mf)) = Some mmr ->
  zlen (ls_pending s) + zlen (mf_logs mf) <= MAX_PENDING_ASM_LOGS ->
  handle_asm_manifest (mf_height mf) mf s = (Ok tt, buffered s mmr [mf]).
Proof.
  intros Hm Hb. unfold handle_asm_manifest. rewrite (mbind_ok _ _ _ _ _ (append_logs_run _ _ s Hb)).
  unfold mmap_err. simpl. fold (record_of mf). unfold append_l1_block_rec_to_mmr. rewrite Hm. simpl.
  unfold buffered, ls_set_pending, ls_set_epoch. simpl. by rewrite app_nil_r.
Qed.

Lemma next_manifest_height_run h i :
  0 <= h -> 0 <= i -> h + i + 1 <= U32_MAX -> next_manifest_height h i = Ok (h + i + 1).
Proof.
  intros Hh Hi Hb. unfold next_manifest_height, checked_add_u32.
  rewrite (proj2 (Z.leb_le _ _)) by lia. simpl. rewrite (proj2 (Z.leb_le _ _)) by lia.
  simpl. rewrite (proj2 (Z.leb_le _ _)) by lia. done.
Qed.

Definition num_logs (mfs : list AsmManifest) : Z := zlen (concat (map pending_of mfs)).

Lemma num_logs_cons mf mfs : num_logs (mf :: mfs) = zlen (mf_logs mf) + num_logs mfs.
Proof. unfold num_logs. simpl. rewrite zlen_app. f_equal. unfold pending_of, zlen. by rewrite length_map. Qed.

Lemma num_logs_nonneg mfs : 0 <= num_logs mfs.
Proof. apply zlen_nonneg. Qed.

(** A manifest whose height is not the next one, or whose logs do not fit, is an
    error; otherwise buffering succeeds. *)
Lemma process_block_manifests_run mfs (s : LState) mmr :
  let h := l1c_height (es_last_l1_block (ls_epoch s)) in
  0 <= h -> heights_from h mfs -> (mfs <> [] -> h + zlen mfs <= U32_MAX) ->
  mmr_extend (es_l1_block_refs_mmr (ls_epoch s)) mfs = Some mmr ->
  zlen (ls_pending s) + num_logs mfs <= MAX_PENDING_ASM_LOGS ->
  process_block_manifests mfs s = (Ok tt, buffered s mmr mfs).
Proof.
  cbv zeta. unfold process_block_manifests. rewrite (mbind_ok _ _ _ (l1c_height (es_last_l1_block (ls_epoch s))) s) by done.
  generalize (l1c_height (es_last_l1_block (ls_epoch s))) as h. intros h Hh.
  assert (Hg : forall i s, 0 <= i -> heights_from (h + i) mfs -> (mfs <> [] -> h + i + zlen mfs <= U32_MAX) ->
    mmr_extend (es_l1_block_refs_mmr (ls_epoch s)) mfs = Some mmr ->
    zlen (ls_pending s) + num_logs mfs <= MAX_PENDING_ASM_LOGS ->
    miteri (fun i mf =>
      let* real_height := mlift (next_manifest_height h i) in
      if negb (mf_height mf =? real_height) then
        merr (AsmManifestHeightMismatch real_height (mf_height mf) i)
      else handle_asm_manifest real_height mf) i mfs s = (Ok tt, buffered s mmr mfs)).
  2: { intros H1 H2 H3 H4. apply Hg; rewrite ?Z.add_0_r; done. }
  clear s. induction mfs as [|mf mfs IH]; intros i s Hi H1 H2 H3 H4; cbn [miteri].
  - simpl in H3. simplify_eq. by rewrite buffered_nil.
  - simpl in H3. destruct (mmr_add_leaf _ _) as [m1|] eqn:Hm1; [|done]. rewrite num_logs_cons in H4.
    pose proof (num_logs_nonneg mfs). specialize (H2 ltac:(done)). autorewrite with zlen in H2. pose proof (zlen_nonneg mfs).
    assert (Hhead : mf_height mf = h + i + 1) by (rewrite (H1 0%nat mf eq_refl); lia).
    rewrite (mbind_ok _ _ _ tt (buffered s m1 [mf])).
    2: { rewrite (mbind_ok _ _ _ (h + i + 1) s) by (unfold mlift; by rewrite next_manifest_height_run by lia).
         rewrite Hhead, Z.eqb_refl. simpl. rewrite <- Hhead. apply handle_asm_manifest_run; [done|lia]. }
    rewrite IH; [by rewrite buffered_cons|lia| |intros _; lia|done|].
    + intros j mf' Hj. rewrite (H1 (S j) mf' Hj). lia.
    + simpl. rewrite app_nil_r, zlen_app. unfold pending_of. unfold zlen at 2. rewrite length_map. fold (zlen (mf_logs mf)). lia.
Qed.

Lemma process_block_manifests_bound mfs (s s' : LState) :
  process_block_manifests mfs s = (Ok tt, s') -> mfs <> [] ->
  l1c_height (es_last_l1_block (ls_epoch s)) + zlen mfs <= U32_MAX.
Proof.
  intros H. apply mbind_returns in H as (h & ? & Hh & H). unfold mreads in Hh. injection Hh as <- <-.
  simpl in H. generalize dependent (l1c_height (es_last_l1_block (ls_epoch s))). intros h H.
  intros Hne. rewrite <- (Z.add_0_r h). assert (Hi : 0 <= 0) by lia. revert Hi H.
  generalize 0 at 2 3 4 as i. intros i. revert s i Hne.
  induction mfs as [|mf mfs IH]; intros s i Hne Hi H; [done|]. cbn [miteri] in H.
  apply mbind_returns in H as ([] & s1 & H1 & H). autorewrite with zlen.
  destruct mfs as [|mf2 mfs]; [|specialize (IH s1 (i + 1) ltac:(done) ltac:(lia) H); autorewrite with zlen in IH |- *; lia].
  apply mbind_returns in H1 as (rh & ? & Hrh & _). unfold mlift in Hrh. injection Hrh as Hrh <-.
  autorewrite with zlen. unfold next_manifest_height, checked_add_u32 in Hrh.
  destruct (negb _); [done|]. destruct (_ <=? U32_MAX) eqn:H1; [|done]. simpl in Hrh.
  destruct (h + i + 1 <=? U32_MAX) eqn:H2; [|done]. zbool. lia.
Qed.

(** ** What executing blocks without the drain does *)

(** The ledger and global sections of [s1] with all other sections of [s]: what
    the diff of an epoch from [s] to [s1] reproduces. *)
Definition with_da (s s1 : LState) : LState :=
  {| ls_epoch := ls_epoch s; ls_global := ls_global s1; ls_pending := ls_pending s;
     ls_accts := ls_accts s1; ls_serials := ls_serials s1 |}.

Record predrain_frame (s s1 : LState) (mfs : list AsmManifest) : Prop := {
  pf_heights : heights_from (l1c_height (es_last_l1_block (ls_epoch s))) mfs;
  pf_bound : mfs <> [] -> l1c_height (es_last_l1_block (ls_epoch s)) + zlen mfs <= U32_MAX;
  pf_mmr : exists mmr, mmr_extend (es_l1_block_refs_mmr (ls_epoch s)) mfs = Some mmr /\
    s1 = buffered (with_da s s1) mmr mfs;
}.

Lemma mmr_extend_app m mfs1 mfs2 :
  mmr_extend m (mfs1 ++ mfs2) = match mmr_extend m mfs1 with Some m1 => mmr_extend m1 mfs2 | None => None end.
Proof. revert m. induction mfs1 as [|mf mfs IH]; intros m; simpl; [done|]. by destruct (mmr_add_leaf _ _). Qed.

Lemma last_l1_of_app b mfs1 mfs2 : last_l1_of b (mfs1 ++ mfs2) = last_l1_of (last_l1_of b mfs1) mfs2.
Proof. unfold last_l1_of. rewrite last_app. by destruct (last mfs2). Qed.

Lemma predrain_frame_nil s : predrain_frame s s [].
Proof.
  split; [intros i mf Hi; by rewrite lookup_nil in Hi|done|].
  eexists. split; [done|]. symmetry. destruct s. apply buffered_nil.
Qed.

Lemma predrain_frame_app s s1 s2 mfs1 mfs2 :
  predrain_frame s s1 mfs1 -> predrain_frame s1 s2 mfs2 -> predrain_frame s s2 (mfs1 ++ mfs2).
Proof.
  intros [Hh1 Hb1 (m1 & Hm1 & He1)] [Hh2 Hb2 (m2 & Hm2 & He2)].
  pose proof (f_equal ls_epoch He1) as Hep. simpl in Hep. pose proof (f_equal ls_pending He1) as Hpe. simpl in Hpe.
  assert (Hl : l1c_height (es_last_l1_block (ls_epoch s1)) = l1c_height (es_last_l1_block (ls_epoch s)) + zlen mfs1).
  { rewrite Hep. simpl. by apply last_l1_of_height. }
  rewrite Hl in Hh2, Hb2. split.
  - intros i mf Hi. apply lookup_app_Some in Hi as [Hi|[Hge Hi]]; [by apply Hh1|].
    rewrite (Hh2 _ _ Hi). unfold zlen. lia.
  - intros Hne. autorewrite with zlen. destruct mfs2 as [|mf mfs2].
    + rewrite app_nil_r in Hne. specialize (Hb1 Hne). autorewrite with zlen. lia.
    + specialize (Hb2 ltac:(done)). lia.
  - exists m2. rewrite mmr_extend_app, Hm1. split.
    + rewrite Hep in Hm2. exact Hm2.
    + rewrite He2 at 1. unfold buffered, with_da. simpl. f_equal.
      * rewrite Hep. unfold es_set_last_l1_block, es_set_mmr. simpl. by rewrite last_l1_of_app.
      * rewrite Hpe, map_app, concat_app, app_assoc. done.
Qed.

Context `{!MmrLaws X}.

Lemma buffered_with_da s slot x mmr mfs :
  ls_step (at_slot s slot) x -> buffered x mmr mfs = buffered (with_da s (buffered x mmr mfs)) mmr mfs.
Proof. intros [He _ _ Hp _ _]. simpl in *. unfold buffered, with_da. simpl. by rewrite He, Hp. Qed.

Lemma verify_block_predrain_frame header parent body bp (s s1 : LState) logs :
  verify_block_predrain header parent body bp s = (Ok logs, s1) ->
  predrain_frame s s1 (block_manifests body).
Proof.
  intros H. apply verify_block_predrain_inv in H as (_ & _ & ctx & s0 & s2 & -> & Hi & Hb & Hx & _).
  apply epoch_initial_returns in Hi. subst s0. apply process_block_start_returns in Hb as (_ & _ & ->).
  pose proof Hx as Hx'. apply exec_body_returns in Hx' as (x & mmr & Htx & Hh & Hm & -> & ->).
  pose proof (keeps_ok _ _ _ _ _ (process_block_tx_segment_step _ _) Htx) as [Hst _].
  pose proof (lst_epoch _ _ Hst) as He. simpl in He. rewrite <- He in Hh, Hm. split; [done| |].
  - intros Hne. unfold exec_body in Hx. apply mbind_returns in Hx as ([] & x1 & Htx' & Hx).
    unfold block_manifests in *. destruct (body_manifests body) as [mfs|]; [|done].
    apply lift_exec_returns in Hx as (s3 & Hx & _).
    assert (x1 = x) as ->.
    { unfold block_txs, tx_context in Htx. destruct (body_tx_segment body); simpl in Htx; [congruence|].
      unfold process_block_tx_segment in Htx. simpl in Htx. congruence. }
    apply process_block_manifests_bound in Hx; [|done]. by rewrite <- He in Hx.
  - exists mmr. split; [done|]. by eapply buffered_with_da.
Qed.

(** The manifests of a list of blocks. *)
Definition all_manifests (blocks : list OLBlock) : list AsmManifest :=
  concat (map (fun b => block_manifests (blk_body b)) blocks).

Lemma execute_block_batch_predrain_frame blocks parent bp (s s1 : LState) logs :
  execute_block_batch_predrain blocks parent bp s = (Ok logs, s1) ->
  predrain_frame s s1 (all_manifests blocks).
Proof.
  revert parent s logs. induction blocks as [|b blocks IH]; intros parent s logs H; cbn [execute_block_batch_predrain] in H.
  - minv. apply predrain_frame_nil.
  - apply mbind_returns in H as (l1 & s2 & H1 & H). apply mbind_returns in H as (l2 & s3 & H2 & H).
    unfold mret in H. simplify_eq. eapply predrain_frame_app; [by eapply verify_block_predrain_frame|by eapply IH].
Qed.

Lemma execute_block_batch_predrain_ld blocks parent bp :
  keeps ledger_step (execute_block_batch_predrain (S := LState) blocks parent bp).
Proof.
  revert parent. induction blocks as [|b blocks IH]; intros parent; simpl; [apply keeps_mret, _|].
  apply keeps_mbind; [apply _|apply verify_block_predrain_ld|]. intros l1.
  apply keeps_mbind; [apply _|apply IH|]. intros l2. apply keeps_mret, _.
Qed.

(** ** Epochs *)

(** The blocks of one epoch: only the last one is terminal. *)
Definition epoch_blocks (init : list OLBlock) (final : OLBlock) : Prop :=
  Forall (fun b => hdr_is_terminal (blk_header b) = false) init /\ hdr_is_terminal (blk_header final) = true.

Context `{!EnvelopeLaws X}.

(** Executing an epoch is executing its blocks without the drain, then
    draining. *)
Lemma epoch_batch_split init final parent bp (s s' : LState) logs :
  epoch_blocks init final ->
  execute_block_batch (init ++ [final]) parent bp s = (Ok logs, s') ->
  exists s1, execute_block_batch_predrain (init ++ [final]) parent bp s = (Ok logs, s1) /\
    process_epoch_terminal (BasicExecContext_new (BlockInfo_from_header (blk_header final)))
      {| xs_state := s1; xs_out := [] |} = (Ok tt, {| xs_state := s'; xs_out := [] |}) /\
    compute_state_root s' = Ok (hdr_state_root (blk_header final)).
Proof.
  intros [Hn Ht]. revert parent s logs. induction init as [|b init IH]; intros parent s logs H; simpl in H.
  - apply mbind_returns in H as (l1 & s2 & H1 & H). apply mbind_returns in H as (l2 & s3 & H2 & H).
    unfold mret in H, H2. simplify_eq. apply verify_block_inv in H1 as (l1' & l2' & s1 & Hp & Hd & -> & _).
    apply apply_epoch_terminal_inv in Hd. rewrite Ht in Hd. destruct Hd as [Hd Hroot].
    pose proof (drain_no_logs _ _ _ _ Hd) as ->. exists s1. split_and!; try done. simpl.
    rewrite (mbind_ok _ _ _ _ _ Hp). unfold mbind, mret. by rewrite !app_nil_r.
  - apply Forall_cons in Hn as [Hb Hn]. apply mbind_returns in H as (l1 & s2 & H1 & H).
    apply mbind_returns in H as (l2 & s3 & H2 & H). unfold mret in H. simplify_eq.
    apply verify_block_inv in H1 as (l1' & l2' & s1 & Hp & Hd & -> & _).
    apply apply_epoch_terminal_inv in Hd. rewrite Hb in Hd. destruct Hd as [-> ->].
    destruct (IH Hn _ _ _ H2) as (s4 & Hr & Hd' & Hroot). exists s4. split_and!; try done. simpl.
    rewrite (mbind_ok _ _ _ _ _ Hp), (mbind_ok _ _ _ _ _ Hr). unfold mret. by rewrite app_nil_r.
Qed.

(** The epoch from its diff. *)
Lemma epoch_with_diff_run {D E} (apply_to_state : D -> M E LState unit) diff info init final parent bp
    (s s' : LState) logs :
  ls_wf s -> 0 <= l1c_height (es_last_l1_block (ls_epoch s)) ->
  epoch_blocks init final ->
  execute_block_batch (init ++ [final]) parent bp s = (Ok logs, s') ->
  ei_terminal_info info = BlockInfo_from_header (blk_header final) -> ei_epoch info = cur_epoch s ->
  (forall s1, execute_block_batch_predrain (init ++ [final]) parent bp s = (Ok logs, s1) ->
     apply_to_state diff s = (Ok tt, with_da s s1)) ->
  verify_epoch_with_diff apply_to_state info diff (all_manifests (init ++ [final]))
    {| eee_epoch_post_state_root := hdr_state_root (blk_header final) |} s = (Ok tt, s').
Proof.
  intros Hwf Hh He Hbatch Hinfo Hep Hdiff.
  destruct (epoch_batch_split _ _ _ _ _ _ _ He Hbatch) as (s1 & Hpre & Hdrain & Hroot). specialize (Hdiff s1 Hpre).
  pose proof (execute_block_batch_predrain_frame _ _ _ _ _ _ Hpre) as [Hhs Hbd (mmr & Hm & Heq)].
  assert (Hpend : zlen (ls_pending s1) <= MAX_PENDING_ASM_LOGS).
  { apply (lds_pending s s1); [|apply Hwf].
    exact (keeps_ok _ _ _ _ _ (execute_block_batch_predrain_ld _ _ _) Hpre). }
  rewrite Heq in Hpend. simpl in Hpend. rewrite zlen_app in Hpend.
  assert (Hbuf : process_block_manifests (all_manifests (init ++ [final])) (with_da s s1) = (Ok tt, s1)).
  { rewrite Heq at 2. by apply process_block_manifests_run. }
  unfold verify_epoch_with_diff, apply_da_epoch.
  rewrite (mbind_ok _ _ _ tt s'); [by apply check_state_root_ok|].
  rewrite (mbind_ok _ _ _ tt s).
  2: { unfold process_epoch_initial. rewrite (mbind_ok _ _ _ (cur_epoch s) s) by done. cbn [eic_cur_epoch].
       rewrite Hep, Z.eqb_refl. done. }
  rewrite (mbind_ok _ _ _ tt (with_da s s1)) by (unfold mmap_err; by rewrite Hdiff). cbv zeta.
  rewrite (mbind_ok _ _ _ (tt, []) s').
  2: { apply with_fresh_output_returns. rewrite (mbind_ok _ _ _ tt {| xs_state := s1; xs_out := [] |}).
       - by rewrite Hinfo.
       - unfold lift_exec. cbn [xs_state xs_out]. by rewrite Hbuf. }
  done.
Qed.

(** Rebuilding an epoch from its diff agrees with executing it.  If the
    blocks of an epoch verify, and applying the diff reproduces the ledger and
    global sections they lead to before the drain, then verifying the epoch from
    the diff and its manifests succeeds against the terminal header's state root
    and ends in the very state the blocks lead to. *)
Theorem verify_epoch_with_diff_agrees {D E} (apply_to_state : D -> M E LState unit) diff info init final parent bp
    (s s' : LState) logs :
  ls_wf s -> 0 <= l1c_height (es_last_l1_block (ls_epoch s)) ->
  epoch_blocks init final ->
  execute_block_batch (init ++ [final]) parent bp s = (Ok logs, s') ->
  ei_terminal_info info = BlockInfo_from_header (blk_header final) -> ei_epoch info = cur_epoch s ->
  (forall s1, execute_block_batch_predrain (init ++ [final]) parent bp s = (Ok logs, s1) ->
     apply_to_state diff s = (Ok tt, with_da s s1)) ->
  verify_epoch_with_diff apply_to_state info diff (all_manifests (init ++ [final]))
    {| eee_epoch_post_state_root := hdr_state_root (blk_header final) |} s = (Ok tt, s').
Proof. apply epoch_with_diff_run. Qed.
End replay.
