(* ===== verification/StfValue.v ===== *)
(** * Conservation of value

    The value of a ledger is its limbo balance plus all account balances.
    Delivering effects moves value around; it leaves only as withdrawal intents,
    each matched by a log, and enters only as deposits drained at an epoch
    terminal. *)

From S2P Require Import Prelude SortedMap Identifiers AcctTypes ChainTypes Externals.
From S2P Require Import LedgerTypes Bridge OLAccount OLState StateAccessor LedgerSpec SnarkSys.
From S2P Require Import StfContext StfTx StfManifests StfBlock.
From S2P Require Import StfSim StfAgreement StfLedger StfUpdates StfManifestSpec.

Section value.
Context `{XR : ExtRoot} `{!AmountLaws X}.

Definition total_value (s : LState) : Z :=
  gs_limbo_funds_sats (ls_global s) + map_sum acct_balance (ls_accts s).

(** All amounts are 64-bit. *)
Record amounts_ok (s : LState) : Prop := {
  ao_limbo : in_u64 (gs_limbo_funds_sats (ls_global s));
  ao_accts id acct : ls_accts s !! id = Some acct -> in_u64 (acct_balance acct);
}.

(** ** Specification of withdrawals *)

Definition is_withdrawal (ctx : BasicExecContext) (m : SentMessage) : option SimpleWithdrawalIntentLogData :=
  if sm_dest m =? BRIDGE_GATEWAY_ACCT_ID then
    parse_withdrawal ctx {| mpc_coin := {| coin_amt := mp_value (sm_payload m) |};
                            mpc_data := mp_data (sm_payload m) |}
  else None.

Definition intents (ctx : BasicExecContext) (ms : list SentMessage) : list SimpleWithdrawalIntentLogData :=
  omap (is_withdrawal ctx) ms.

Definition withdrawn (ctx : BasicExecContext) (ms : list SentMessage) : Z :=
  zsum (map swi_amt (intents ctx ms)).

(** The log of a withdrawal intent. *)
Definition intent_log (i : SimpleWithdrawalIntentLogData) (log : OLLog) : Prop :=
  log_account_serial log = BRIDGE_GATEWAY_ACCT_SERIAL /\ withdrawal_log_encode i = Ok (log_payload log).

Lemma parse_withdrawal_amt ctx p i : parse_withdrawal ctx p = Some i -> swi_amt i = mpc_coin_amt p.
Proof. unfold parse_withdrawal. repeat case_match; intros; by simplify_eq. Qed.

(** ** Elementary moves *)

Lemma total_value_update s id acct acct' :
  ls_accts s !! id = Some acct ->
  total_value (ls_set_accts s (<[id := acct']> (ls_accts s))) =
    total_value s + acct_balance acct' - acct_balance acct.
Proof. intros Hl. unfold total_value. simpl. rewrite (map_sum_insert _ _ _ _ acct) by done. lia. Qed.

Lemma amounts_ok_update s id acct' :
  amounts_ok s -> in_u64 (acct_balance acct') ->
  amounts_ok (ls_set_accts s (<[id := acct']> (ls_accts s))).
Proof.
  intros [Hl Ha] Hb. split; simpl; [done|]. intros id' acct [[-> ->]|[? ?]]%lookup_insert_Some; eauto.
Qed.

(** A credit that goes through adds the coin. *)
Lemma credit_account_value target c post (s s' : LState) :
  amounts_ok s -> in_u64 (coin_amt c) ->
  (forall a, acct_balance (snd (post a)) = acct_balance a) ->
  credit_account target c post s = (Ok tt, s') ->
  amounts_ok s' /\ total_value s' = total_value s + coin_amt c.
Proof.
  intros Hok Hc Hpost H. apply update_account_exec_returns in H as (acct & acct' & Hl & Hf & ->).
  pose proof (ao_accts s Hok _ _ Hl) as Hb.
  apply mbind_returns in Hf as ([] & a1 & Hadd & Hf). simpl in Hadd. unfold add_balance in Hadd.
  destruct (amt_checked_add _ _) as [b|] eqn:Ha; simplify_eq.
  apply amt_add_some in Ha as [-> Hin]; [|done..].
  specialize (Hpost (acct_with_balance acct (acct_balance acct + coin_amt c))). rewrite Hf in Hpost. simpl in Hpost.
  rewrite total_value_update with (acct := acct) by done.
  split; [apply amounts_ok_update; [done|]|]; rewrite Hpost; [done|lia].
Qed.

Lemma handle_misplaced_funds_value c (s s' : LState) :
  amounts_ok s -> in_u64 (coin_amt c) ->
  handle_misplaced_funds c s = (Ok tt, s') ->
  amounts_ok s' /\ total_value s' = total_value s + coin_amt c.
Proof.
  intros [Hl Ha] Hc H. apply mmap_err_returns in H. simpl in H.
  destruct (amt_checked_add _ _) as [l|] eqn:Hadd; simplify_eq.
  apply amt_add_some in Hadd as [-> Hin]; [|done..].
  split; [by split|]. unfold total_value. simpl. lia.
Qed.

Lemma deliver_to_account_balance ctx sender record a :
  acct_balance (snd (deliver_to_account ctx sender record a)) = acct_balance a.
Proof.
  unfold deliver_to_account, on_snark_account. simpl. destruct (acct_state a); [done|]. simpl. by case_match.
Qed.

Lemma process_transfer_value target c (x x' : XState LState) :
  amounts_ok (xs_state x) -> in_u64 (coin_amt c) ->
  process_transfer target c x = (Ok tt, x') ->
  amounts_ok (xs_state x') /\ total_value (xs_state x') = total_value (xs_state x) + coin_amt c /\
  xs_out x' = xs_out x.
Proof.
  intros Hok Hc H. apply lift_exec_returns in H as (s' & H & ->). simpl.
  enough (amounts_ok s' /\ total_value s' = total_value (xs_state x) + coin_amt c) by tauto.
  case_match; [by apply handle_misplaced_funds_value in H|].
  apply mbind_returns in H as (e & ? & He & H). unfold mreads_res in He. simplify_eq/=.
  destruct (ls_accts _ !! target); simpl in H; [|by apply handle_misplaced_funds_value in H].
  by apply credit_account_value in H.
Qed.

(** Delivering a message adds the coin, unless it leaves as a withdrawal. *)
Lemma process_message_value ctx sender m c (x x' : XState LState) :
  amounts_ok (xs_state x) -> in_u64 (mp_value (sm_payload m)) -> coin_amt c = mp_value (sm_payload m) ->
  process_message ctx sender (sm_dest m) {| mpc_coin := c; mpc_data := mp_data (sm_payload m) |} x = (Ok tt, x') ->
  amounts_ok (xs_state x') /\
  total_value (xs_state x') = total_value (xs_state x) + mp_value (sm_payload m) - withdrawn ctx [m] /\
  exists logs, xs_out x' = xs_out x ++ logs /\ Forall2 intent_log (intents ctx [m]) logs.
Proof.
  intros Hok Hin Hc H. destruct c as [c]. simpl in Hc. subst c.
  unfold process_message, handle_bridge_gateway_message in H.
  unfold withdrawn, intents, is_withdrawal. simpl.
  destruct (sm_dest m =? BRIDGE_GATEWAY_ACCT_ID).
  - destruct (parse_withdrawal _ _) as [i|] eqn:Hp; simpl.
    + apply emit_typed_log_returns in H as (body & Henc & -> & -> & _).
      apply parse_withdrawal_amt in Hp. unfold mpc_coin_amt in Hp. simpl in Hp.
      split_and!; [done|unfold zsum; simpl; lia|]. eexists. split; [done|]. by repeat constructor.
    + apply lift_exec_returns in H as (s' & H & ->). simpl.
      apply handle_misplaced_funds_value in H as [? ?]; [|done..].
      split_and!; [done|unfold zsum; simpl in *; lia|]. exists []. by rewrite app_nil_r.
  - apply lift_exec_returns in H as (s' & H & ->). simpl.
    assert (amounts_ok s' /\ total_value s' = total_value (xs_state x) + mp_value (sm_payload m)) as [? ->].
    { apply mbind_returns in H as (e & ? & He & H). unfold mreads_res in He. simplify_eq/=.
      destruct (ls_accts _ !! sm_dest m); simpl in H; [|by apply handle_misplaced_funds_value in H].
      apply credit_account_value in H; [done..|]. intros a. apply deliver_to_account_balance. }
    split_and!; [done|unfold zsum; simpl; lia|]. exists []. by rewrite app_nil_r.
Qed.

(** ** Distributing a debited coin *)

Lemma split_effect_value_ok c v coin rest :
  in_u64 (coin_amt c) -> in_u64 v -> split_effect_value c v = Ok (coin, rest) ->
  coin_amt coin = v /\ coin_amt rest = coin_amt c - v /\ in_u64 (coin_amt rest).
Proof.
  intros Hc Hv. unfold split_effect_value, Coin_split_out. destruct (amt_checked_sub _ _) as [r|] eqn:Hs; [|done].
  apply amt_sub_some in Hs as (-> & ? & ?); [|done..]. intros; by simplify_eq.
Qed.

(** What remains of the coin. *)
Lemma distribute_transfers_coin ts c c' (x x' : XState LState) :
  in_u64 (coin_amt c) -> Forall in_u64 (map st_value ts) ->
  distribute_transfers ts c x = (Ok c', x') -> coin_amt c' = coin_amt c - zsum (map st_value ts).
Proof.
  revert c x. induction ts as [|t ts IH]; intros c x Hc Hall H; cbn [distribute_transfers] in H.
  - minv. unfold zsum. simpl. lia.
  - apply Forall_cons in Hall as [Hv Hall].
    apply mbind_returns in H as ([coin rest] & ? & Hs & H). unfold mlift in Hs. injection Hs as Hs <-.
    apply split_effect_value_ok in Hs as (_ & Hrest & Hin); [|done..].
    apply mbind_returns in H as ([] & x1 & _ & H). apply IH in H; [|done..]. unfold zsum in *. simpl. lia.
Qed.

Lemma distribute_messages_coin ctx source ms c c' (x x' : XState LState) :
  in_u64 (coin_amt c) -> Forall in_u64 (map (fun m => mp_value (sm_payload m)) ms) ->
  distribute_messages ctx source ms c x = (Ok c', x') ->
  coin_amt c' = coin_amt c - zsum (map (fun m => mp_value (sm_payload m)) ms).
Proof.
  revert c x. induction ms as [|m ms IH]; intros c x Hc Hall H; cbn [distribute_messages] in H.
  - minv. unfold zsum. simpl. lia.
  - apply Forall_cons in Hall as [Hv Hall].
    apply mbind_returns in H as ([coin rest] & ? & Hs & H). unfold mlift in Hs. injection Hs as Hs <-.
    apply split_effect_value_ok in Hs as (_ & Hrest & Hin); [|done..].
    apply mbind_returns in H as ([] & x1 & _ & H). apply IH in H; [|done..]. unfold zsum in *. simpl. lia.
Qed.

Lemma distribute_transfers_value ts c c' (x x' : XState LState) :
  amounts_ok (xs_state x) -> in_u64 (coin_amt c) -> Forall in_u64 (map st_value ts) ->
  distribute_transfers ts c x = (Ok c', x') ->
  amounts_ok (xs_state x') /\ in_u64 (coin_amt c') /\ xs_out x' = xs_out x /\
  total_value (xs_state x') + coin_amt c' = total_value (xs_state x) + coin_amt c.
Proof.
  revert c x. induction ts as [|t ts IH]; intros c x Hok Hc Hall H; cbn [distribute_transfers] in H; [by minv|].
  apply Forall_cons in Hall as [Hv Hall].
  apply mbind_returns in H as ([coin rest] & ? & Hs & H). unfold mlift in Hs. injection Hs as Hs <-.
  apply split_effect_value_ok in Hs as (Hcoin & Hrest & Hin); [|done..].
  apply mbind_returns in H as ([] & x1 & Ht & H).
  apply process_transfer_value in Ht as (Hok1 & Htot & Hout); [|done|by rewrite Hcoin].
  apply IH in H as (? & ? & ? & ?); [|done..]. split_and!; [done|done|congruence|lia].
Qed.

Lemma withdrawn_cons ctx m ms : withdrawn ctx (m :: ms) = withdrawn ctx [m] + withdrawn ctx ms.
Proof.
  unfold withdrawn, intents. change (m :: ms) with ([m] ++ ms). by rewrite omap_app, map_app, zsum_app.
Qed.

Lemma withdrawn_nonneg ctx ms :
  Forall in_u64 (map (fun m => mp_value (sm_payload m)) ms) -> 0 <= withdrawn ctx ms.
Proof.
  intros Hall. apply zsum_nonneg, Forall_forall. intros v Hv. apply list_elem_of_fmap in Hv as (i & -> & Hi).
  unfold intents in Hi. apply list_elem_of_omap in Hi as (m & Hm & Hw).
  unfold is_withdrawal in Hw. destruct (_ =? _); [|done]. apply parse_withdrawal_amt in Hw as ->.
  rewrite Forall_forall in Hall. destruct (Hall (mp_value (sm_payload m))) as [? _]; [|done].
  by apply (list_elem_of_fmap_2 (fun m => mp_value (sm_payload m))).
Qed.

Lemma distribute_messages_value ctx source ms c c' (x x' : XState LState) :
  amounts_ok (xs_state x) -> in_u64 (coin_amt c) -> Forall in_u64 (map (fun m => mp_value (sm_payload m)) ms) ->
  distribute_messages ctx source ms c x = (Ok c', x') ->
  amounts_ok (xs_state x') /\ in_u64 (coin_amt c') /\
  total_value (xs_state x') + coin_amt c' + withdrawn ctx ms = total_value (xs_state x) + coin_amt c /\
  exists logs, xs_out x' = xs_out x ++ logs /\ Forall2 intent_log (intents ctx ms) logs.
Proof.
  revert c x. induction ms as [|m ms IH]; intros c x Hok Hc Hall H; cbn [distribute_messages] in H.
  - minv. split_and!; [done|done|unfold withdrawn; simpl; unfold zsum; simpl; lia|]. exists [].
    rewrite app_nil_r. split; [done|constructor].
  - apply Forall_cons in Hall as [Hv Hall].
    apply mbind_returns in H as ([coin rest] & ? & Hs & H). unfold mlift in Hs. injection Hs as Hs <-.
    apply split_effect_value_ok in Hs as (Hcoin & Hrest & Hin); [|done..].
    apply mbind_returns in H as ([] & x1 & Ht & H).
    apply process_message_value in Ht as (Hok1 & Htot & l1 & Hout & Hl1); [|done..].
    apply IH in H as (? & ? & ? & l2 & Hout2 & Hl2); [|done..].
    rewrite withdrawn_cons. split_and!; [done|done|lia|].
    exists (l1 ++ l2). rewrite Hout2, Hout, app_assoc. split; [done|].
    change (m :: ms) with ([m] ++ ms). unfold intents. rewrite omap_app. by apply Forall2_app.
Qed.

Lemma debit_source_value source amt c (s s' : LState) :
  amounts_ok s -> in_u64 amt -> debit_source source amt s = (Ok c, s') ->
  amounts_ok s' /\ coin_amt c = amt /\ total_value s' + amt = total_value s.
Proof.
  intros Hok Ha. unfold debit_source. destruct (amt =? 0) eqn:Hz; zbool.
  { intros H. minv. simpl. split_and!; [done|done|lia]. }
  intros H. apply update_account_exec_returns in H as (acct & acct' & Hl & Hf & ->).
  apply mmap_err_returns in Hf. simpl in Hf. unfold take_balance in Hf. pose proof (ao_accts s Hok _ _ Hl) as Hb.
  destruct (amt_checked_sub _ _) as [b|] eqn:Hsub; simplify_eq.
  apply amt_sub_some in Hsub as (-> & ? & ?); [|done..].
  rewrite total_value_update with (acct := acct) by done.
  split_and!; [by apply amounts_ok_update|done|simpl; lia].
Qed.

(** Applying the effects of a transaction keeps the value, up to what is
    withdrawn; the logs it emits are those of the withdrawals. *)
Lemma apply_tx_effects_value ctx source fx (x x' : XState LState) :
  amounts_ok (xs_state x) -> Forall in_u64 (effect_values fx) ->
  apply_tx_effects ctx source fx x = (Ok tt, x') ->
  amounts_ok (xs_state x') /\
  total_value (xs_state x') + withdrawn ctx (messages_iter fx) = total_value (xs_state x) /\
  exists logs, xs_out x' = xs_out x ++ logs /\ Forall2 intent_log (intents ctx (messages_iter fx)) logs.
Proof.
  intros Hok Hall H. unfold apply_tx_effects, distribute_effects in H.
  apply mbind_returns in H as (total & ? & Ht & H). unfold mlift in Ht. injection Ht as Ht <-.
  destruct (get_total_value_sent fx) as [t|] eqn:Htot; simplify_eq/=.
  apply try_fold_amounts_some in Htot as [_ Htin]; [|unfold in_u64, U64_MAX; lia|done].
  apply Forall_app in Hall as [Hall1 Hall2].
  apply mbind_returns in H as (c0 & x1 & Hd & H). apply lift_exec_returns in Hd as (s1 & Hd & ->).
  apply debit_source_value in Hd as (Hok1 & Hc0 & Hv1); [|done..].
  apply mbind_returns in H as (c2 & x3 & Hd & H). apply mbind_returns in Hd as (c1 & x2 & Htr & Hms).
  apply distribute_transfers_value in Htr as (Hok2 & Hc1 & Ho2 & Hv2); [|done|by rewrite Hc0|done].
  apply distribute_messages_value in Hms as (Hok3 & Hc2 & Hv3 & logs & Ho3 & Hl); [|done..].
  unfold mlift, Coin_consume_zero in H. destruct (coin_amt c2 =? 0) eqn:Hz; simplify_eq. zbool.
  simpl in *. split_and!; [done|lia|]. exists logs. by rewrite Ho3, Ho2.
Qed.

(** ** Transactions *)

Lemma process_update_tx_value sau fx proofs ctx (x x' : XState LState) :
  amounts_ok (xs_state x) -> process_update_tx sau fx proofs ctx x = (Ok tt, x') ->
  amounts_ok (xs_state x') /\ total_value (xs_state x') = total_value (xs_state x) /\
  exists log, xs_out x' = xs_out x ++ [log].
Proof.
  intros Hok H. apply process_update_tx_returns in H as (acct & sa & sa' & log & Hl & _ & _ & _ & Hs & Ho & _).
  rewrite Hs, (total_value_update _ _ acct) by done. simpl.
  split_and!; [|lia|by eexists]. apply amounts_ok_update; [done|]. exact (ao_accts _ Hok _ _ Hl).
Qed.

(** The logs of a transaction: the update log, if it is an update, followed by
    the logs of its withdrawals. *)
Definition tx_logs (ctx : BasicExecContext) (tx : OLTransaction) (logs : list OLLog) : Prop :=
  let ms := messages_iter (txd_effects (tx_data tx)) in
  match txd_payload (tx_data tx) with
  | GenericAccountMessage _ => Forall2 intent_log (intents ctx ms) logs
  | SnarkAccountUpdate _ => exists log rest, logs = log :: rest /\ Forall2 intent_log (intents ctx ms) rest
  end.

Definition tx_withdrawn (ctx : BasicExecContext) (tx : OLTransaction) : Z :=
  withdrawn ctx (messages_iter (txd_effects (tx_data tx))).

Lemma process_single_tx_value tx ctx (x x' : XState LState) :
  amounts_ok (xs_state x) -> Forall in_u64 (effect_values (txd_effects (tx_data tx))) ->
  process_single_tx tx ctx x = (Ok tt, x') ->
  amounts_ok (xs_state x') /\
  total_value (xs_state x') + tx_withdrawn (tec_basic_context ctx) tx = total_value (xs_state x) /\
  exists logs, xs_out x' = xs_out x ++ logs /\ tx_logs (tec_basic_context ctx) tx logs.
Proof.
  intros Hok Hall. unfold process_single_tx, tx_logs, tx_withdrawn. intros H.
  apply mbind_returns in H as ([] & x0 & Hc & H). apply lift_exec_returns in Hc as (s1 & Hc & ->).
  unfold mreads_res in Hc. simplify_eq/=. destruct x as [s0 o0]. simpl in *.
  apply mbind_returns in H as (src & x2 & Hu & H). destruct (txd_payload (tx_data tx)).
  - apply mbind_returns in Hu as ([] & ? & Hv & Hu). unfold mlift, mret in *. simplify_eq.
    by apply apply_tx_effects_value in H.
  - apply mbind_returns in Hu as ([] & x3 & Hu & Hret). unfold mret in Hret. simplify_eq.
    apply process_update_tx_value in Hu as (Hok1 & Hv1 & log & Ho1); [|done].
    apply apply_tx_effects_value in H as (Hok2 & Hv2 & logs & Ho2 & Hl); [|done..]. simpl in *.
    split_and!; [done|lia|]. exists (log :: logs). rewrite Ho2, Ho1, <- app_assoc. eauto.
Qed.

Lemma process_block_tx_segment_value txs ctx (x x' : XState LState) :
  amounts_ok (xs_state x) -> Forall (fun tx => Forall in_u64 (effect_values (txd_effects (tx_data tx)))) txs ->
  process_block_tx_segment txs ctx x = (Ok tt, x') ->
  amounts_ok (xs_state x') /\
  total_value (xs_state x') + zsum (map (tx_withdrawn (tec_basic_context ctx)) txs) = total_value (xs_state x) /\
  exists logss, xs_out x' = xs_out x ++ concat logss /\ Forall2 (tx_logs (tec_basic_context ctx)) txs logss.
Proof.
  unfold process_block_tx_segment. generalize 0 as i. revert x.
  induction txs as [|tx txs IH]; intros x i Hok Hall H; cbn [miteri] in H.
  - minv. split_and!; [done|unfold zsum; simpl; lia|]. exists []. rewrite app_nil_r. by split.
  - apply Forall_cons in Hall as [Htx Hall].
    apply mbind_returns in H as ([] & x1 & H1 & H). apply mmap_err_returns in H1.
    apply process_single_tx_value in H1 as (Hok1 & Hv1 & l1 & Ho1 & Hl1); [|done..].
    apply IH in H as (Hok2 & Hv2 & ls & Ho2 & Hl2); [|done..].
    split_and!; [done|unfold zsum in *; simpl; lia|]. exists (l1 :: ls).
    rewrite Ho2, Ho1, <- app_assoc. simpl. eauto.
Qed.

(** ** Deposits *)

(** What a buffered log mints when it is drained. *)
Definition minted (log : AsmLogEntry) : Z :=
  match asm_log_msg_ty log with
  | Some ty =>
      match asm_log_type_id ty with
      | Some AsmDeposit => match asm_log_as_deposit log with Some d => dl_amount d | None => 0 end
      | _ => 0
      end
  | None => 0
  end.

Context `{!EnvelopeLaws X, !AsmLogLaws X}.

Lemma process_deposit_log_value ctx d (x x' : XState LState) :
  amounts_ok (xs_state x) -> in_u64 (dl_amount d) ->
  process_deposit_log ctx d x = (Ok tt, x') ->
  amounts_ok (xs_state x') /\ total_value (xs_state x') = total_value (xs_state x) + dl_amount d.
Proof.
  intros Hok Hd. unfold process_deposit_log. intros H.
  apply mbind_returns in H as (r & x1 & Hr & H). apply lift_exec_returns in Hr as (s1 & Hr & ->).
  unfold mreads_res in Hr. injection Hr as Hr <-. destruct x as [s0 o0]. simpl in *.
  destruct r as [[dest data]|].
  - apply resolve_deposit_destination_data in Hr as [body Hv].
    destruct (process_message_value ctx BRIDGE_GATEWAY_ACCT_ID {| sm_dest := dest;
      sm_payload := {| mp_value := dl_amount d; mp_data := data |} |} {| coin_amt := dl_amount d |}
      {| xs_state := s0; xs_out := o0 |} x' Hok Hd eq_refl H) as (? & Ht & _).
    split; [done|]. rewrite Ht. unfold withdrawn, intents, is_withdrawal. simpl.
    rewrite (deposit_not_withdrawal ctx _ body data Hv).
    destruct (dest =? _); unfold zsum; simpl; lia.
  - apply lift_exec_returns in H as (s1 & H & ->). by apply handle_misplaced_funds_value in H.
Qed.

Lemma queue_predicate_update_balance msg a :
  acct_balance (snd (queue_predicate_update msg a)) = acct_balance a.
Proof. unfold queue_predicate_update. simpl. destruct (acct_state a); [done|]. by case_match. Qed.

Lemma process_ee_predicate_key_update_value ctx data (s s' : LState) :
  amounts_ok s -> process_ee_predicate_key_update ctx data s = (Ok tt, s') ->
  amounts_ok s' /\ total_value s' = total_value s.
Proof.
  intros Hok. unfold process_ee_predicate_key_update. intros H.
  apply mbind_returns in H as (f & ? & Hf & H). unfold mreads_res in Hf. injection Hf as _ <-.
  destruct f as [id|]; [|by minv]. destruct (pred_try_as_buf _); [|by minv].
  apply mbind_returns in H as (msg & ? & Hm & H). unfold mlift in Hm. injection Hm as _ <-.
  apply mbind_returns in H as (r & s1 & Hu & H). apply mmap_err_returns in Hu. simpl in Hu.
  assert (s1 = s') as ->.
  { apply mbind_returns in H as (? & ? & Hl & H). unfold mlift in Hl. minv. congruence. }
  destruct (ls_accts s !! id) as [acct|] eqn:Hl; [|done]. unfold run_account in Hu.
  pose proof (queue_predicate_update_balance msg acct) as Hb.
  destruct (queue_predicate_update msg acct) as [[] acct'] eqn:Hq; simplify_eq/=.
  all: rewrite (total_value_update _ _ acct) by done; (split; [apply amounts_ok_update; [done|]|lia]).
  all: rewrite Hb; exact (ao_accts _ Hok _ _ Hl).
Qed.

Lemma process_asm_log_value ctx log (x x' : XState LState) :
  amounts_ok (xs_state x) -> process_asm_log ctx log x = (Ok tt, x') ->
  amounts_ok (xs_state x') /\ total_value (xs_state x') = total_value (xs_state x) + minted log.
Proof.
  intros Hok. unfold process_asm_log, minted.
  repeat (case_match; try (intros H'; minv; split; [done|lia])); intros H'.
  - apply process_deposit_log_value in H'; [done..|]. by eapply asm_deposit_amount.
  - apply lift_exec_returns in H' as (s1 & Hr & ->). apply mmap_err_returns in Hr. simpl in Hr.
    unfold mmodify in Hr. injection Hr as <-. simpl. split; [by destruct Hok|]. unfold total_value. simpl. lia.
  - apply lift_exec_returns in H' as (s1 & Hr & ->). simpl.
    apply process_ee_predicate_key_update_value in Hr as [? ->]; [|done]. split; [done|lia].
Qed.

Lemma drain_value ctx pending (x x' : XState LState) :
  amounts_ok (xs_state x) ->
  miter (fun entry => process_asm_log ctx (pal_log entry)) pending x = (Ok tt, x') ->
  amounts_ok (xs_state x') /\
  total_value (xs_state x') = total_value (xs_state x) + zsum (map (fun e => minted (pal_log e)) pending).
Proof.
  revert x. induction pending as [|e l IH]; intros x Hok H; cbn [miter] in H.
  - minv. split; [done|unfold zsum; simpl; lia].
  - apply mbind_returns in H as ([] & x1 & H1 & H). apply process_asm_log_value in H1 as [? ?]; [|done].
    apply IH in H as [? ?]; [|done]. split; [done|unfold zsum in *; simpl; lia].
Qed.

Context `{!MmrLaws X}.

Lemma verify_block_value header parent body bp (s s' : LState) logs :
  amounts_ok s -> Forall tx_bounded (block_txs body) ->
  verify_block header parent body bp s = (Ok logs, s') ->
  let ctx := tec_basic_context (tx_context header parent bp) in
  let drained := if hdr_is_terminal header
                 then ls_pending s ++ concat (map pending_of (block_manifests body)) else [] in
  amounts_ok s' /\
  total_value s' = total_value s - zsum (map (tx_withdrawn ctx) (block_txs body))
                   + zsum (map (fun e => minted (pal_log e)) drained).
Proof.
  intros Hok Hall H. apply verify_block_run in H as (x & mmr & dl & [Hc He Htx Hh Hm Hd ->]). cbv zeta.
  pose proof (keeps_ok _ _ _ _ _ (process_block_tx_segment_step _ _) Htx) as [Hstep _].
  apply process_block_tx_segment_value in Htx as (Hok1 & Hv1 & _).
  3: { eapply Forall_impl; [exact Hall|]. intros tx [Hb _]. apply Hb. }
  2: { by split; apply Hok. }
  change (total_value (xs_state {| xs_state := at_slot s (hdr_slot header); xs_out := [] |})) with (total_value s) in Hv1.
  set (s3 := buffered (xs_state x) mmr (block_manifests body)) in *.
  assert (Hok3 : amounts_ok s3) by (by split; apply Hok1).
  assert (Hv3 : total_value s3 = total_value (xs_state x)) by done.
  cbv zeta in Hd. destruct (hdr_is_terminal header).
  - apply process_epoch_terminal_returns in Hd as (x1 & Hm1 & _ & _ & Hs'). simpl in Hs'.
    apply drain_value in Hm1 as [Hok4 Hv4]; [|done]. simpl in Hv4.
    rewrite <- (lst_pending _ _ Hstep) in Hv4. simpl in Hv4.
    subst s'. split; [by split; apply Hok4|].
    change (total_value (ls_set_epoch _ _)) with (total_value (xs_state x1)). lia.
  - destruct Hd as [-> _]. split; [done|]. rewrite Hv3. cbn [map]. change (zsum []) with 0. lia.
Qed.

(** C12: a verified block conserves value.  Limbo plus all balances changes by
    exactly what the drained deposits mint (at an epoch terminal, the deposits
    among the pending logs and the logs of this block's manifests) minus what the
    block's transactions withdraw through the bridge gateway; all amounts stay
    64-bit. *)
Theorem verify_block_conserves_value header parent body bp (s s' : LState) logs :
  amounts_ok s -> Forall tx_bounded (block_txs body) ->
  verify_block header parent body bp s = (Ok logs, s') ->
  let ctx := tec_basic_context (tx_context header parent bp) in
  let drained := if hdr_is_terminal header
                 then ls_pending s ++ concat (map pending_of (block_manifests body)) else [] in
  amounts_ok s' /\
  total_value s' = total_value s - zsum (map (tx_withdrawn ctx) (block_txs body))
                   + zsum (map (fun e => minted (pal_log e)) drained).
Proof. apply verify_block_value. Qed.

(** The recorded total ledger balance is never written by block processing:
    it is the same after a verified block, so a record that was right before the
    block is right afterwards exactly if the block mints as much as it
    withdraws. *)
Theorem total_ledger_balance_not_maintained header parent body bp (s s' : LState) logs :
  amounts_ok s -> Forall tx_bounded (block_txs body) ->
  verify_block header parent body bp s = (Ok logs, s') ->
  total_ledger_balance s = total_value s ->
  let ctx := tec_basic_context (tx_context header parent bp) in
  let drained := if hdr_is_terminal header
                 then ls_pending s ++ concat (map pending_of (block_manifests body)) else [] in
  total_ledger_balance s' = total_ledger_balance s /\
  (total_ledger_balance s' = total_value s' <->
   zsum (map (tx_withdrawn ctx) (block_txs body)) = zsum (map (fun e => minted (pal_log e)) drained)).
Proof.
  intros Hok Hall H Heq ctx drained.
  destruct (verify_block_value header parent body bp s s' logs Hok Hall H) as [_ Hv].
  pose proof (lds_total _ _ (keeps_ok _ _ _ _ _ (verify_block_ld header parent body bp) H)) as Ht.
  simpl in *. fold ctx drained in Hv. split; [done|]. lia.
Qed.

(** C13: the logs of a verified block are, transaction by transaction in order,
    one log per account update followed by one withdrawal intent log per accepted
    withdrawal, carrying exactly the withdrawn amount and destination; nothing
    else is logged, in particular not by the drain. *)
Theorem verify_block_logs header parent body bp (s s' : LState) logs :
  amounts_ok s -> Forall tx_bounded (block_txs body) ->
  verify_block header parent body bp s = (Ok logs, s') ->
  let ctx := tec_basic_context (tx_context header parent bp) in
  exists logss, logs = concat logss /\ Forall2 (tx_logs ctx) (block_txs body) logss.
Proof.
  intros Hok Hall H. apply verify_block_run in H as (x & mmr & dl & [Hc He Htx Hh Hm Hd ->]). cbv zeta.
  apply process_block_tx_segment_value in Htx as (_ & _ & logss & Ho & Hl).
  3: { eapply Forall_impl; [exact Hall|]. intros tx [Hb _]. apply Hb. }
  2: { by split; apply Hok. }
  exists logss. split; [|done]. simpl in Ho. rewrite Ho.
  assert (dl = []) as ->; [|by rewrite app_nil_r].
  cbv zeta in Hd. destruct (hdr_is_terminal header); [|apply Hd].
  destruct (process_epoch_terminal_quiet (BasicExecContext_new (BlockInfo_from_header header)) _ eq_refl
    (buffered (xs_state x) mmr (block_manifests body)) [] []) as (r & s1 & Hq & _).
  rewrite Hd in Hq. congruence.
Qed.
End value.
