(* ===== verification/StfProgress.v ===== *)
(** * Progress of the chain

    How slot, epoch, L1 height and the pending logs evolve over verified
    blocks, and that every field stays within its machine type. *)

From S2P Require Import Prelude SortedMap Identifiers AcctTypes ChainTypes Externals LedgerTypes Bridge.
From S2P Require Import OLAccount OLState StateAccessor LedgerSpec SnarkSys StfContext StfTx StfManifests.
From S2P Require Import StfBlock StfSim StfAgreement StfLedger StfUpdates StfManifestSpec DaReplay.
From S2P Require Import StfValue.

Section progress.
Context `{XR : ExtRoot} `{!MmrLaws X}.

(** What draining a log leaves alone. *)
Record drain_frame (s s' : LState) : Prop := {
  df_slot : gs_cur_slot (ls_global s) = gs_cur_slot (ls_global s');
  df_epoch : es_cur_epoch (ls_epoch s) = es_cur_epoch (ls_epoch s');
  df_l1 : es_last_l1_block (ls_epoch s) = es_last_l1_block (ls_epoch s');
  df_mmr : es_l1_block_refs_mmr (ls_epoch s) = es_l1_block_refs_mmr (ls_epoch s');
  df_pending : ls_pending s = ls_pending s';
}.

#[export] Instance drain_frame_preorder : PreOrder drain_frame.
Proof. split; [by split|intros s1 s2 s3 [] []; split; by etransitivity]. Qed.

Definition x_drain (x x' : XState LState) : Prop := drain_frame (xs_state x) (xs_state x').

#[export] Instance x_drain_preorder : PreOrder x_drain.
Proof. unfold x_drain. split; [intros x; reflexivity|intros x1 x2 x3 ? ?; by etransitivity]. Qed.

Lemma ls_step_drain s s' : ls_step s s' -> drain_frame s s'.
Proof. intros [He ? ? ? ? ?]. split; by rewrite ?He. Qed.

Lemma lift_exec_drain {A} (m : M ExecError LState A) : keeps drain_frame m -> keeps x_drain (lift_exec m).
Proof. intros Hm x. unfold lift_exec. specialize (Hm (xs_state x)). by destruct (m _). Qed.

Lemma process_asm_log_drain ctx log : keeps x_drain (process_asm_log (S := LState) ctx log).
Proof.
  unfold process_asm_log. repeat (case_match; try (apply keeps_mret, _)).
  - unfold process_deposit_log.
    apply keeps_mbind; [apply _|apply lift_exec_drain, keeps_mreads_res, _|]. intros [[dest data]|].
    + intros x. apply ls_step_drain, process_message_step.
    + apply lift_exec_drain. intros s. apply ls_step_drain, handle_misplaced_funds_step.
  - apply lift_exec_drain, keeps_mmap_err. intros s. by split.
  - apply lift_exec_drain. unfold process_ee_predicate_key_update.
    apply keeps_mbind; [apply _|apply keeps_mreads_res, _|]. intros [acct_id|]; [|apply keeps_mret, _].
    case_match; [|apply keeps_mret, _].
    apply keeps_mbind; [apply _|apply keeps_mlift, _|]. intros msg.
    apply keeps_mbind; [apply _| |intros ?; apply keeps_mbind; [apply _|apply keeps_mlift, _|intros ?; apply keeps_mret, _]].
    apply keeps_mmap_err. intros s. apply ls_step_drain, update_account_step.
    intros acct _. apply queue_predicate_update_le.
Qed.

(** The chain fields before and after a verified block. *)
Record chain_advance (header : OLBlockHeader) (body : OLBlockBody) (s s' : LState) : Prop := {
  ca_slot : cur_slot s' = hdr_slot header;
  ca_epoch_before : cur_epoch s = hdr_epoch header;
  ca_epoch : cur_epoch s' = hdr_epoch header + b2z (hdr_is_terminal header);
  ca_heights : heights_from (last_l1_height s) (block_manifests body);
  ca_l1_height : last_l1_height s' = last_l1_height s + zlen (block_manifests body);
  ca_l1_block : es_last_l1_block (ls_epoch s') = last_l1_of (es_last_l1_block (ls_epoch s)) (block_manifests body);
  ca_mmr : mmr_extend (l1_block_refs_mmr s) (block_manifests body) = Some (l1_block_refs_mmr s');
  ca_mmr_entries : mmr_num_entries (l1_block_refs_mmr s')
    = mmr_num_entries (l1_block_refs_mmr s) + zlen (block_manifests body);
  ca_pending : ls_pending s' = if hdr_is_terminal header then []
                               else ls_pending s ++ concat (map pending_of (block_manifests body));
}.

Lemma block_run_advance header parent body bp s s' logs x mmr dl :
  block_run header parent body bp s s' logs x mmr dl -> chain_advance header body s s'.
Proof.
  intros [Hc He Htx Hh Hm Hd _].
  pose proof (keeps_ok _ _ _ _ _ (process_block_tx_segment_step _ _) Htx) as [[Hep Hsl _ Hp _ _] _].
  simpl in Hep, Hsl, Hp. rewrite <- Hep in Hh, Hm.
  pose proof (mmr_extend_entries _ _ _ Hm) as Hme. pose proof (last_l1_of_height _ _ Hh) as Hl1.
  set (s3 := buffered (xs_state x) mmr (block_manifests body)) in *.
  cbv zeta in Hd. destruct (hdr_is_terminal header) eqn:Ht.
  - apply process_epoch_terminal_returns in Hd as (x1 & Hm1 & _ & _ & Hs'). simpl in Hs'.
    pose proof (keeps_ok _ _ _ _ _ (keeps_miter x_drain _ _ (fun e => process_asm_log_drain _ (pal_log e))) Hm1)
      as [Hsl1 He1 Hl11 Hmm1 _]. simpl in *. rewrite <- Hep in *.
    subst s'. split; simpl; rewrite ?Ht, <- ?Hl11, <- ?Hmm1, <- ?Hsl1; simpl; try done; congruence.
  - destruct Hd as [-> _]. split; simpl; rewrite ?Ht, <- ?Hep; simpl; try done; try congruence. lia.
Qed.

(** C14: a verified block moves the chain state to its header: the state is at the
    header's slot, its epoch was the header's and has advanced by one exactly if
    the block is terminal; its manifests are contiguous right after the last L1
    block; the last L1 block becomes that of the last manifest, with its height and
    id, or stays if there is none; the L1 block MMR is extended by exactly the tree
    hash of each manifest's record (block id and witness transaction root), in
    order, so that the height and the entry count advance by their number; and the
    pending logs are emptied at a terminal block and extended by the manifests'
    logs otherwise. *)
Theorem verify_block_advances header parent body bp (s s' : LState) logs :
  verify_block header parent body bp s = (Ok logs, s') -> chain_advance header body s s'.
Proof. intros H. apply verify_block_run in H as (x & mmr & dl & Hr). by eapply block_run_advance. Qed.

(** ** Batches *)

(** Each header extends the one before it. *)
Fixpoint chain_linked (parent : OLBlockHeader) (blocks : list OLBlock) : Prop :=
  match blocks with
  | [] => True
  | b :: blocks' =>
      hdr_parent_blkid (blk_header b) = compute_blkid parent /\
      hdr_slot (blk_header b) = hdr_slot parent + 1 /\
      hdr_epoch (blk_header b) = hdr_epoch parent + b2z (hdr_is_terminal parent) /\
      chain_linked (blk_header b) blocks'
  end.

Definition tip (parent : OLBlockHeader) (blocks : list OLBlock) : OLBlockHeader :=
  match last blocks with Some b => blk_header b | None => parent end.

Lemma tip_cons parent b blocks : tip parent (b :: blocks) = tip (blk_header b) blocks.
Proof. unfold tip. rewrite last_cons. by destruct (last blocks). Qed.

(** Number of terminal blocks. *)
Definition num_terminals (blocks : list OLBlock) : Z := zsum (map (fun b => b2z (hdr_is_terminal (blk_header b))) blocks).

(** The state sits on top of a header: it is at its slot and in the epoch its
    child belongs to. *)
Definition on_top (s : LState) (h : OLBlockHeader) : Prop :=
  cur_slot s = hdr_slot h /\ cur_epoch s = hdr_epoch h + b2z (hdr_is_terminal h).

Lemma verify_block_linked header ph body bp (s s' : LState) logs :
  header_bounded header -> header_bounded ph ->
  verify_block header (Some ph) body bp s = (Ok logs, s') ->
  hdr_parent_blkid header = compute_blkid ph /\ hdr_slot header = hdr_slot ph + 1 /\
  hdr_epoch header = hdr_epoch ph + b2z (hdr_is_terminal ph) /\ on_top s' header.
Proof.
  intros Hb Hpb H. apply verify_block_run in H as (x & mmr & dl & Hr).
  pose proof (br_continuity _ _ _ _ _ _ _ _ _ _ Hr) as Hc.
  apply verify_header_continuity_some in Hc as (? & ? & ? & ?); [|done..].
  apply block_run_advance in Hr. split_and!; [done..|]. by split; apply Hr.
Qed.

Lemma block_batch_chain blocks parent bp (s s' : LState) logs :
  header_bounded parent -> Forall (fun b => header_bounded (blk_header b)) blocks -> on_top s parent ->
  execute_block_batch blocks parent bp s = (Ok logs, s') ->
  chain_linked parent blocks /\ on_top s' (tip parent blocks) /\
  cur_slot s' = cur_slot s + zlen blocks /\ cur_epoch s' = cur_epoch s + num_terminals blocks.
Proof.
  revert parent s logs. induction blocks as [|b blocks IH]; intros parent s logs Hpb Hall Htop H;
    cbn [execute_block_batch] in H.
  - minv. unfold num_terminals, zsum. simpl. autorewrite with zlen. split_and!; [done|done|lia|lia].
  - apply Forall_cons in Hall as [Hb Hall].
    apply mbind_returns in H as (l1 & s1 & Hv & H). apply mbind_returns in H as (l2 & s2 & Hrest & H).
    unfold mret in H. simplify_eq. apply verify_block_linked in Hv as (? & ? & ? & Htop1); [|done..].
    apply IH in Hrest as (? & ? & Hs & He); [|done..]. rewrite tip_cons. cbn [chain_linked].
    destruct Htop as [Hts Hte], Htop1 as [Hts1 Hte1]. rewrite Hs, He, Hts, Hte, Hts1, Hte1.
    unfold num_terminals, zsum. simpl. autorewrite with zlen. split_and!; try done; lia.
Qed.

(** A verified batch of blocks is a chain on top of its parent: every header
    links to its predecessor with the next slot and the epoch the predecessor
    leaves; the final state sits on top of the last header, as many slots
    further as there are blocks and as many epochs as there are terminals. *)
Theorem execute_block_batch_chain blocks parent bp (s s' : LState) logs :
  header_bounded parent -> Forall (fun b => header_bounded (blk_header b)) blocks -> on_top s parent ->
  execute_block_batch blocks parent bp s = (Ok logs, s') ->
  chain_linked parent blocks /\ on_top s' (tip parent blocks) /\
  cur_slot s' = cur_slot s + zlen blocks /\ cur_epoch s' = cur_epoch s + num_terminals blocks.
Proof. apply block_batch_chain. Qed.

(** The leaf index of an L1 block in the MMR is its height; verified blocks keep
    it so. *)
Lemma execute_block_batch_height_indexed blocks parent bp (s s' : LState) logs :
  es_height_indexed (ls_epoch s) -> execute_block_batch blocks parent bp s = (Ok logs, s') ->
  es_height_indexed (ls_epoch s').
Proof.
  revert parent s logs. induction blocks as [|b blocks IH]; intros parent s logs Hi H; cbn [execute_block_batch] in H.
  - by minv.
  - apply mbind_returns in H as (l1 & s1 & Hv & H). apply mbind_returns in H as (l2 & s2 & Hrest & H).
    unfold mret in H. simplify_eq. apply IH in Hrest; [done|].
    apply verify_block_run in Hv as (x & mmr & dl & Hr). apply block_run_advance in Hr as [_ _ _ _ Hh _ _ Hm _].
    unfold es_height_indexed in *. simpl in *. lia.
Qed.

End progress.

(** * Machine types

    In the source every field of the state has a machine type.  Here they are
    integers, and what the types say is an invariant: verified blocks keep slot,
    epoch, L1 height, amounts, sequence numbers and message indices within their
    width. *)

Section typed.
Context `{XR : ExtRoot} `{!AmountLaws X, !AsmLogLaws X, !MmrLaws X, !EnvelopeLaws X}.

Record snark_typed (sa : OLSnarkAccountState) : Prop := {
  sty_seqno : in_u64 (sas_seqno sa);
  sty_idx : in_u64 (sas_next_inbox_msg_idx sa);
}.

Definition snarks_typed (s : LState) : Prop :=
  forall id acct sa, ls_accts s !! id = Some acct -> acct_state acct = TySnark sa -> snark_typed sa.

(** The fields a diff of an epoch carries. *)
Record da_typed (s : LState) : Prop := {
  dty_slot : in_u64 (cur_slot s);
  dty_amounts : amounts_ok s;
  dty_snarks : snarks_typed s;
}.

Record ls_typed (s : LState) : Prop := {
  ty_wf : ls_wf s;
  ty_da : da_typed s;
  ty_epoch : in_u32 (cur_epoch s);
  ty_height : in_u32 (last_l1_height s);
}.

Definition block_typed (b : OLBlock) : Prop :=
  header_bounded (blk_header b) /\ Forall tx_bounded (block_txs (blk_body b)).

Lemma snark_le_typed sa sa' : snark_le sa sa' -> snark_typed sa -> snark_typed sa'.
Proof. intros [H1 H2 _ H4 H5] [[] []]. split; split; auto; lia. Qed.

Lemma accts_le_typed s s' : accts_le (ls_accts s) (ls_accts s') -> snarks_typed s -> snarks_typed s'.
Proof.
  intros Hle Hty id acct' sa' Hl Hst. destruct (accts_le_lookup_r _ _ _ _ Hle Hl) as (acct & Ha & [_ Hs]).
  rewrite Hst in Hs. destruct (acct_state acct) as [|sa] eqn:Hsa; [done|].
  eapply snark_le_typed; [exact Hs|]. by eapply Hty.
Qed.

Lemma verify_block_predrain_typed header parent body bp (s s1 : LState) logs :
  da_typed s -> header_bounded header -> Forall tx_bounded (block_txs body) ->
  verify_block_predrain header parent body bp s = (Ok logs, s1) -> da_typed s1.
Proof.
  intros [Hs Ha Hn] Hh Htxs H.
  pose proof (keeps_ok _ _ _ _ _ (verify_block_predrain_ld header parent body bp) H) as Hld.
  apply verify_block_predrain_inv in H as (_ & _ & ctx & s0 & s2 & -> & Hi & Hb & Hx & _).
  apply epoch_initial_returns in Hi. subst s0. apply process_block_start_returns in Hb as (_ & _ & ->).
  apply exec_body_returns in Hx as (x & mmr & Htx & _ & _ & -> & ->).
  pose proof (keeps_ok _ _ _ _ _ (process_block_tx_segment_step _ _) Htx) as [Hst _].
  apply process_block_tx_segment_value in Htx as (Hok & _).
  3: { eapply Forall_impl; [exact Htxs|]. intros tx [Hb _]. apply Hb. }
  2: { by split; apply Ha. }
  split.
  - simpl. rewrite <- (lst_slot _ _ Hst). apply Hh.
  - by split; apply Hok.
  - eapply accts_le_typed; [apply Hld|done].
Qed.

Lemma execute_block_batch_predrain_typed blocks parent bp (s s1 : LState) logs :
  da_typed s -> Forall block_typed blocks ->
  execute_block_batch_predrain blocks parent bp s = (Ok logs, s1) -> da_typed s1.
Proof.
  revert parent s logs. induction blocks as [|b blocks IH]; intros parent s logs Hty Hall H;
    cbn [execute_block_batch_predrain] in H.
  - by minv.
  - apply Forall_cons in Hall as [[Hb1 Hb2] Hall]. apply mbind_returns in H as (l1 & s2 & H1 & H).
    apply mbind_returns in H as (l2 & s3 & H2 & H). unfold mret in H. simplify_eq.
    eapply (IH _ s2); [|done..]. by eapply verify_block_predrain_typed.
Qed.

(** C34: a verified block keeps the state within its machine types and well
    formed: from a state whose slot, epoch, L1 height, amounts, sequence numbers
    and message indices are within their widths and whose serial index is exact,
    a block whose header and transactions are within theirs leads to such a
    state. *)
Theorem verify_block_typed header parent body bp (s s' : LState) logs :
  ls_typed s -> header_bounded header -> Forall tx_bounded (block_txs body) ->
  verify_block header parent body bp s = (Ok logs, s') -> ls_typed s'.
Proof.
  intros [Hwf [Hs Ha Hn] He Hl] Hh Htxs H.
  pose proof (keeps_ok _ _ _ _ _ (verify_block_ld header parent body bp) H) as Hld.
  destruct (verify_block_value _ _ _ _ _ _ _ Ha Htxs H) as [Hok _].
  pose proof H as Hpre. apply verify_block_inv in Hpre as (l1 & l2 & s1 & Hpre & Hd & _).
  apply verify_block_predrain_frame in Hpre as [_ Hbd _].
  apply verify_block_run in H as (x & mmr & dl & Hr). pose proof (br_drain _ _ _ _ _ _ _ _ _ _ Hr) as Hdr.
  pose proof (br_txs _ _ _ _ _ _ _ _ _ _ Hr) as Htx.
  pose proof (keeps_ok _ _ _ _ _ (process_block_tx_segment_step _ _) Htx) as [Hst _].
  apply block_run_advance in Hr as [C1 C2 C3 C4 C5 _ _ _ _]. unfold in_u32 in *. simpl in Hl. split.
  - by eapply ledger_step_wf.
  - split; [rewrite C1; apply Hh|done|]. eapply accts_le_typed; [apply Hld|done].
  - unfold in_u32. rewrite C3. cbv zeta in Hdr. destruct (hdr_is_terminal header); simpl.
    + apply process_epoch_terminal_returns in Hdr as (x1 & _ & Hmax & _). simpl in Hmax.
      rewrite <- (lst_epoch _ _ Hst) in Hmax. simpl in *. lia.
    + destruct Hh as (_ & _ & _ & ?). unfold in_u32 in *. lia.
  - unfold in_u32. rewrite C5. simpl. pose proof (zlen_nonneg (block_manifests body)).
    destruct (block_manifests body); [autorewrite with zlen; lia|]. specialize (Hbd ltac:(done)). lia.
Qed.
End typed.
