(* ===== verification/DaDiff.v ===== *)
(** * From the accumulator to the diff, and back to the state

    The diff of an account, built from its delta, turns the account of the start
    of the epoch into the current one; the diff of the epoch does the same to the
    ledger. *)

From Stdlib Require Import String.
From S2P Require Import Prelude SortedMap Identifiers AcctTypes ChainTypes Externals.
From S2P Require Import CodecTypes Varint64 DaFramework OLDaTypes OLDaSpec LedgerTypes Bridge.
From S2P Require Import OLAccount OLState StateAccessor OLDaApply LedgerSpec IndexerLayer DaLayer.
From S2P Require Import DaSim DaReplay StfValue StfProgress.

Section da_diff.
Context `{XR : ExtRoot} `{CE : !CodecExt} `{DE : !DaExt} `{PE : !PredicateExt}.
Context `{!AmountLaws X, !CodecLaws CE, !PredicateLaws X PE}.

(** ** Counters *)

(** A write that takes the counter from [x0] to [x], with an increment the
    encoding can carry. *)
Definition counter_write {S : CounterScheme} (VI : cs_incr S -> Prop) (x0 x : cs_base S) (w : DaCounter S) : Prop :=
  (forall E, applied (DaCounter_apply (E := E) w) x0 = Ok x) /\ counter_of S VI w /\ (w = Unchanged -> x = x0).

Lemma into_write_ok (S : CounterScheme) VB VI `{!SchemeLaws S VB VI} x0 x d w :
  VB x0 -> VB x -> cs_compare S x0 x = Some d ->
  DaCounterBuilder_into_write {| dcb_original := x0; dcb_new := x |} = Ok w -> counter_write VI x0 x w.
Proof.
  intros H0 Hx Hc Hw. unfold DaCounterBuilder_into_write in Hw. simpl in Hw. rewrite Hc in Hw. simpl in Hw.
  destruct (scheme_compare _ _ _ H0 Hx Hc) as (Hu & Hi & Hz). unfold DaCounter_new_changed in Hw.
  destruct (cs_is_zero S d) eqn:Hd; injection Hw as <-.
  - assert (x0 = x) as <- by (by apply Hz). done.
  - split_and!; [|done|done]. intros E. unfold applied, DaCounter_apply, mmodify. by rewrite Hu.
Qed.

Lemma build_counter_ok (S : CounterScheme) VB VI `{!SchemeLaws S VB VI} x0 x w :
  VB x0 -> VB x -> build_counter S x0 x = Ok w -> counter_write VI x0 x w.
Proof.
  intros H0 Hx. unfold build_counter, DaCounterBuilder_set. simpl. destruct (cs_compare S x0 x) as [d|] eqn:Hc; [|done].
  simpl. destruct (DaCounterBuilder_into_write _) as [w'| |] eqn:Hw; simpl; intros; simplify_eq.
  by eapply into_write_ok.
Qed.

(** Signed changes of amounts, as a sign and the difference. *)
Inductive amount_change (x0 x : Z) : DaCounter CtrU64BySignedVarInt -> Prop :=
| amount_same : x = x0 -> amount_change x0 x Unchanged
| amount_up d : svi_positive d = true -> svi_magnitude d = x - x0 -> x0 < x -> amount_change x0 x (Changed (S := CtrU64BySignedVarInt) d)
| amount_down d : svi_positive d = false -> svi_magnitude d = x0 - x -> x < x0 -> amount_change x0 x (Changed (S := CtrU64BySignedVarInt) d).

Lemma compare_change x0 x d :
  cs_compare CtrU64BySignedVarInt x0 x = Some d ->
  amount_change x0 x (DaCounter_new_changed CtrU64BySignedVarInt d).
Proof.
  simpl. intros [= <-]. unfold DaCounter_new_changed, SignedVarInt_new. simpl.
  destruct (x0 <=? x) eqn:Hle; zbool; destruct (_ =? 0) eqn:Hz; zbool; simpl.
  - apply amount_same. lia.
  - unfold svi_is_zero. simpl. rewrite (proj2 (Z.eqb_neq _ _)) by done. apply amount_up; simpl; done || lia.
  - lia.
  - unfold svi_is_zero. simpl. rewrite (proj2 (Z.eqb_neq _ _)) by done. apply amount_down; simpl; done || lia.
Qed.

Lemma amount_change_ok x0 x w :
  in_u64 x0 -> in_u64 x -> amount_change x0 x w -> counter_of CtrU64BySignedVarInt svi_normal w.
Proof.
  intros H0 Hx [->|d Hp Hm Hl|d Hp Hm Hl]; simpl; [done|..]; unfold svi_normal, svi_is_zero, in_u64 in *;
    rewrite Hm, (proj2 (Z.eqb_neq _ _)) by lia; split_and!; try done; lia.
Qed.

(** ** Snark accounts *)

Lemma bytes_key_inj k1 k2 b : pred_as_buf_bytes k1 = Some b -> pred_as_buf_bytes k2 = Some b -> k1 = k2.
Proof.
  intros H1 H2. destruct (pred_bytes_parse _ _ H1) as (b1 & P1 & _ & O1), (pred_bytes_parse _ _ H2) as (b2 & P2 & _ & O2).
  congruence.
Qed.

Lemma owned_key_ok k b : pred_as_buf_bytes k = Some b -> owned_predicate_key b = Ok k.
Proof.
  intros H. destruct (pred_bytes_parse _ _ H) as (buf & Hp & Hl & Ho). unfold owned_predicate_key. rewrite Hp. simpl.
  by rewrite (proj2 (Z.ltb_ge _ _)), Ho.
Qed.

Lemma insert_messages_run l m m' (s : OLSnarkAccountState) :
  inbox_extends m l m' -> sas_inbox_mmr s = m ->
  miter (insert_da_message (A := OLSnarkAccountState)) l s =
    (Ok tt, {| sas_update_vk := sas_update_vk s; sas_seqno := sas_seqno s;
               sas_proof_state := sas_proof_state s; sas_inbox_mmr := m' |}).
Proof.
  revert m s. induction l as [|e l IH]; intros m s; simpl.
  - intros -> <-. by destruct s.
  - intros (m1 & Hm & H) Hs. unfold mbind, insert_da_message at 1. simpl. unfold insert_inbox_message.
    fold (message_of e). rewrite Hs, Hm. by rewrite (IH m1).
Qed.

(** What a diff must satisfy to survive encoding, short of the bounds that
    encoding checks itself. *)
Record snark_diff_built (d : SnarkAccountDiff) : Prop := {
  sb_idx : proof_diff_ok (sad_proof_state d);
  sb_seq : counter_of CtrU64ByU16 in_u16 (sad_seq_no d);
  sb_small : Forall small_entry (dla_new_entries (sad_inbox d));
  sb_cnt : zlen (dla_new_entries (sad_inbox d)) <= U16_MAX;
}.

Lemma register_compare_new {T} `{!EqDecision T} (x y : T) :
  (x = y /\ DaRegister_compare x y = DaRegister_new_unset) \/ (DaRegister_compare x y = DaRegister_new_set y).
Proof. unfold DaRegister_compare. destruct (decide (y = x)); [left|right]; done. Qed.

Lemma register_compare_value {T} `{!EqDecision T} (x y : T) :
  match dr_new_value (DaRegister_compare x y) with Some v => v | None => x end = y.
Proof. by destruct (register_compare_new x y) as [[-> ->]| ->]. Qed.

Lemma proof_diff_applied {E} r c root0 idx0 idx :
  applied (DaCounter_apply (E := E) c) idx0 = Ok idx ->
  applied (DaProofStateDiff_apply (E := E) {| dpd_inner_state := r; dpd_next_inbox_msg_idx := c |})
    {| ps_inner_state := root0; ps_next_inbox_msg_idx := idx0 |}
  = Ok {| ps_inner_state := match dr_new_value r with Some v => v | None => root0 end; ps_next_inbox_msg_idx := idx |}.
Proof.
  unfold applied, DaProofStateDiff_apply. cbn [dpd_inner_state dpd_next_inbox_msg_idx ps_next_inbox_msg_idx].
  destruct (DaCounter_apply c idx0) as [[]]; intros; by simplify_eq.
Qed.

(** Writing the parts of a diff one after the other. *)
Lemma write_snark_diff_run s0 s vk ps (sq : DaCounter CtrU64ByU16) (inbox : DaLinacc InboxBuffer) :
  applied (DaCounter_apply (E := DaError) sq) (sas_seqno s0) = Ok (sas_seqno s) ->
  applied (DaProofStateDiff_apply (E := DaError) ps) (sas_proof_state s0) = Ok (sas_proof_state s) ->
  match dr_new_value vk with
  | Some b => owned_predicate_key b = Ok (sas_update_vk s)
  | None => sas_update_vk s = sas_update_vk s0
  end ->
  inbox_extends (sas_inbox_mmr s0) (dla_new_entries inbox) (sas_inbox_mmr s) ->
  write_snark_diff (A := OLSnarkAccountState)
    {| sad_update_vk := vk; sad_proof_state := ps; sad_seq_no := sq; sad_inbox := inbox |} s0 = (Ok tt, s).
Proof.
  intros Hsq Hps Hvk Hin. unfold write_snark_diff. rewrite (mbind_ok _ _ _ s0 s0) by done.
  cbn [sad_update_vk sad_proof_state sad_seq_no sad_inbox].
  rewrite (mbind_ok _ _ _ (sas_seqno s) s0) by (unfold mlift; by rewrite Hsq).
  rewrite (mbind_ok _ _ _ (sas_proof_state s) s0).
  2: { assert (Hp0 : {| ps_inner_state := sas_inner_state_root s0; ps_next_inbox_msg_idx := sas_next_inbox_msg_idx s0 |}
         = sas_proof_state s0) by (by destruct s0 as [? ? []]). unfold mlift. simpl. by rewrite Hp0, Hps. }
  rewrite mbind_mmodify.
  set (s1 := snark_set_proof_state s0 _ _ _).
  rewrite (mbind_ok _ _ _ tt (set_update_vk s1 (sas_update_vk s))).
  2: { destruct (dr_new_value vk); [|rewrite Hvk; by destruct s0].
       by rewrite (mbind_ok _ _ _ (sas_update_vk s) s1) by (unfold mlift; by rewrite Hvk). }
  rewrite (insert_messages_run _ _ _ (set_update_vk s1 (sas_update_vk s)) Hin eq_refl). by destruct s as [? ? []].
Qed.

(** The diff of a snark account turns the old account into the new one. *)
Lemma snark_build_diff_ok s0 s sd diff :
  snark_delta_ok s0 s sd -> zlen (dla_new_entries (sdl_inbox sd)) <= U16_MAX -> snark_typed s0 -> snark_typed s ->
  SnarkDelta_build_diff sd = Ok diff ->
  write_snark_diff (A := OLSnarkAccountState) diff s0 = (Ok tt, s) /\ snark_diff_built diff /\
  (SnarkAccountDiff_is_default diff = true -> s = s0).
Proof.
  intros [E1 E2 E3 E4 E5 E6 E7 E8] Hb [Ht1 Ht2] [Ht3 Ht4] Hd. unfold SnarkDelta_build_diff in Hd.
  rewrite E1, E2, E3, E4 in Hd.
  destruct (build_counter CtrU64ByU16 _ _) as [wseq| |] eqn:Hseq; [|done..]. simpl in Hd.
  destruct (build_counter CtrU64ByUnsignedVarInt _ _) as [widx| |] eqn:Hidx; [|done..]. injection Hd as <-.
  apply (build_counter_ok CtrU64ByU16 in_u64 in_u16) in Hseq as (Hs1 & Hs2 & Hs3); [|done..].
  apply (build_counter_ok CtrU64ByUnsignedVarInt in_u64 in_u64) in Hidx as (Hi1 & Hi2 & Hi3); [|done..].
  split_and!.
  - apply write_snark_diff_run; [apply Hs1| | |done].
    + unfold sas_next_inbox_msg_idx in *. destruct (sas_proof_state s0) as [root0 idx0], (sas_proof_state s) as [root idx].
      simpl in Hi1 |- *. by rewrite (proof_diff_applied _ _ _ _ idx), register_compare_value.
    + destruct (register_compare_new (sdl_base_update_vk sd) (sdl_final_update_vk sd)) as [[Hv ->]| ->]; simpl.
      * by apply (bytes_key_inj _ _ (sdl_base_update_vk sd)); [rewrite Hv|].
      * by apply owned_key_ok.
  - by split.
  - unfold SnarkAccountDiff_is_default, DaProofStateDiff_is_default, DaLinacc_is_default. simpl. intros Hdef. zbool.
    destruct wseq; [|done]. destruct widx; [|done]. specialize (Hs3 eq_refl). specialize (Hi3 eq_refl).
    unfold sas_next_inbox_msg_idx in *. destruct (dla_new_entries (sdl_inbox sd)); [|done]. simpl in E7.
    pose proof (register_compare_value (ps_inner_state (sas_proof_state s0)) (ps_inner_state (sas_proof_state s))) as Hr.
    destruct (dr_new_value (DaRegister_compare (ps_inner_state _) _)) eqn:Hr1; [by unfold DaRegister_is_default in *; rewrite Hr1 in *|].
    pose proof (register_compare_value (sdl_base_update_vk sd) (sdl_final_update_vk sd)) as Hv.
    destruct (dr_new_value (DaRegister_compare (sdl_base_update_vk sd) _)) eqn:Hv1;
      [by unfold DaRegister_is_default in *; rewrite Hv1 in *|].
    rewrite <- Hv in E6. pose proof (bytes_key_inj _ _ _ E6 E5) as Hk.
    destruct s0 as [? ? [] ?], s as [? ? [] ?]. simpl in *. congruence.
Qed.

(** ** Accounts *)

Lemma apply_balance_run w (a0 : OLAccountState) b :
  in_u64 (acct_balance a0) -> in_u64 b -> amount_change (acct_balance a0) b w ->
  (match DaCounter_diff w with Some incr => apply_balance_delta incr | None => mret tt end) a0
    = (Ok tt, acct_with_balance a0 b).
Proof.
  intros H0 Hb [->|d Hp Hm Hl|d Hp Hm Hl]; simpl; [by destruct a0|..]; unfold apply_balance_delta; rewrite Hp, Hm; simpl.
  - unfold add_balance. simpl. rewrite amt_add_spec by (unfold in_u64 in *; lia). unfold_widths.
    rewrite (proj2 (Z.leb_le _ _)) by lia. do 2 f_equal. lia.
  - unfold mbind, mmap_err, take_balance. simpl. rewrite amt_sub_spec by (unfold in_u64 in *; lia). unfold_widths.
    rewrite (proj2 (Z.leb_le _ _)) by lia. simpl. do 2 f_equal. lia.
Qed.

Record account_diff_built (d : AccountDiff) : Prop := {
  ab_balance : counter_of CtrU64BySignedVarInt svi_normal (ad_balance d);
  ab_snark : snark_diff_built (ad_snark d);
}.

Lemma snark_diff_built_default : snark_diff_built SnarkAccountDiff_default.
Proof. by split. Qed.

Definition account_typed (a : OLAccountState) : Prop :=
  in_u64 (acct_balance a) /\ match acct_state a with TySnark s => snark_typed s | TyEmpty => True end.

Lemma da_typed_account l id a : da_typed l -> ls_accts l !! id = Some a -> account_typed a.
Proof.
  intros [_ [_ Hb] Hs] Ha. split; [by eapply Hb|]. destruct (acct_state a) eqn:Hst; [done|]. by eapply Hs.
Qed.

Lemma acct_ext (a b : OLAccountState) :
  acct_serial a = acct_serial b -> acct_balance a = acct_balance b -> acct_state a = acct_state b -> a = b.
Proof. destruct a, b. simpl. by intros -> -> ->. Qed.

(** The diff of an account turns the old account into the new one. *)
Lemma delta_diff_ok id a0 a d diff :
  delta_ok a0 a d -> delta_bounded d -> account_typed a0 -> account_typed a -> delta_diff id d = Ok diff ->
  apply_account_diff_to_account (A := OLAccountState) diff a0 = (Ok tt, a) /\ account_diff_built diff /\
  (AccountDiff_is_default diff = true -> a = a0).
Proof.
  intros [D1 D2 D3 D4 D5 D6] Hb [Ht1 Ht2] [Ht3 Ht4] Hd. unfold delta_diff in Hd. rewrite D3, D4, D5 in Hd.
  destruct (cs_compare _ _ _) as [dd|] eqn:Hc; [|done]. apply compare_change in Hc.
  cbn [expect res_bind] in Hd. set (w := DaCounter_new_changed _ dd) in *.
  pose proof (apply_balance_run w a0 _ Ht1 Ht3 Hc) as Hrun.
  pose proof (amount_change_ok _ _ _ Ht1 Ht3 Hc) as Hwok.
  assert (Hw0 : DaCounter_is_default w = true -> acct_balance a = acct_balance a0) by (by destruct Hc).
  unfold acct_ty in Hd. destruct (acct_state a0) as [|s0] eqn:Ha0, (acct_state a) as [|s] eqn:Ha; try done.
  - injection Hd as <-. split_and!.
    + unfold apply_account_diff_to_account. cbn [ad_balance ad_snark]. rewrite (mbind_ok _ _ _ _ _ Hrun). simpl.
      unfold mret. f_equal. apply acct_ext; simpl; congruence.
    + split; [done|apply snark_diff_built_default].
    + unfold AccountDiff_is_default. simpl. rewrite andb_true_r. intros Hdef. specialize (Hw0 Hdef).
      apply acct_ext; simpl; congruence.
  - destruct D6 as (sd & Hsd & Hsok). unfold delta_bounded in Hb. rewrite Hsd in Hb, Hd. cbn [ok_or res_bind] in Hd.
    destruct (SnarkDelta_build_diff sd) as [sdiff| |] eqn:Hbd; [|done..]. injection Hd as <-.
    destruct (snark_build_diff_ok s0 s sd sdiff Hsok (proj1 Hb) Ht2 Ht4 Hbd) as (Hws & Hbuilt & Hdef). split_and!; [|by split|].
    + unfold apply_account_diff_to_account. cbn [ad_balance ad_snark]. rewrite (mbind_ok _ _ _ _ _ Hrun).
      destruct (SnarkAccountDiff_is_default sdiff) eqn:Hsd0; simpl.
      * rewrite (Hdef eq_refl) in Ha. unfold mret. f_equal. apply acct_ext; simpl; congruence.
      * unfold apply_snark_diff, on_snark_account. simpl. rewrite Ha0. simpl. rewrite Hws. f_equal.
        apply acct_ext; simpl; congruence.
    + unfold AccountDiff_is_default. simpl. intros [Hb0 Hs0]%andb_prop. specialize (Hw0 Hb0). specialize (Hdef Hs0).
      apply acct_ext; simpl; congruence.
Qed.

(** ** The account diffs of an epoch *)

Lemma build_account_diffs_ok new_serials seen l L :
  build_account_diffs ∅ new_serials seen l = Ok L ->
  (forall id d, (id, d) ∈ l -> exists diff, delta_diff id d = Ok diff /\
     (AccountDiff_is_default diff = true \/ {| ade_account_serial := adl_serial d; ade_diff := diff |} ∈ L)) /\
  (forall e, e ∈ L -> exists id d, (id, d) ∈ l /\ delta_diff id d = Ok (ade_diff e) /\ ade_account_serial e = adl_serial d) /\
  NoDup (map ade_account_serial L) /\ (forall e, e ∈ L -> ade_account_serial e ∉ seen).
Proof.
  revert seen L. induction l as [|[id d] l IH]; intros seen L H; cbn [build_account_diffs] in H.
  { injection H as <-. split_and!; [intros ? ? []%not_elem_of_nil|intros ? []%not_elem_of_nil|constructor|intros ? []%not_elem_of_nil]. }
  rewrite decide_False in H by apply not_elem_of_empty.
  destruct (delta_diff id d) as [diff| |] eqn:Hd; [|done..]. cbn [res_bind] in H.
  destruct (AccountDiff_is_default diff) eqn:Hdef.
  - destruct (IH _ _ H) as (H1 & H2 & H3 & H4). split_and!; [| |done..].
    + intros id' d' [[= -> ->]|Hin]%elem_of_cons; [|by apply H1]. exists diff. by split; [|left].
    + intros e Hin. destruct (H2 _ Hin) as (id' & d' & ? & ?). exists id', d'. by split; [right|].
  - destruct (decide _) as [|Hns]; [done|]. destruct (build_account_diffs _ _ _ l) as [L'| |] eqn:HL; [|done..].
    injection H as <-. destruct (IH _ _ HL) as (H1 & H2 & H3 & H4). split_and!.
    + intros id' d' [[= -> ->]|Hin]%elem_of_cons.
      * exists diff. split; [done|]. right. by left.
      * destruct (H1 _ _ Hin) as (diff' & ? & [?|?]); exists diff'; (split; [done|]); [by left|right; by right].
    + intros e [->|Hin]%elem_of_cons; [exists id, d; by split; [left|]|].
      destruct (H2 _ Hin) as (id' & d' & ? & ?). exists id', d'. by split; [right|].
    + simpl. constructor; [|done]. rewrite list_elem_of_fmap. intros (e & He & Hin). apply (H4 e Hin).
      apply elem_of_union_l, elem_of_singleton. done.
    + intros e [->|Hin]%elem_of_cons; simpl; [intros Hs; apply Hns; by right|].
      intros Hs. apply (H4 e Hin). by apply elem_of_union_r.
Qed.
End da_diff.
