(* ===== verification/DaEpoch.v ===== *)
(** * The diff of an epoch

    What the accumulator finalizes, applied to the state at the start of the
    epoch, gives the ledger and global sections of the state at its end; and
    what has been encoded decodes to it.  So the posted blob is enough to
    rebuild the epoch, also on the in-memory state. *)

From Stdlib Require Import String.
From S2P Require Import Prelude SortedMap Identifiers AcctTypes ChainTypes Externals CodecTypes Varint64.
From S2P Require Import DaFramework OLDaTypes OLDaSpec LedgerTypes Bridge OLAccount OLState StateAccessor.
From S2P Require Import OLDaApply IndexerLayer DaLayer LedgerSpec MemoryLayer StfContext StfManifests StfBlock.
From S2P Require Import StfSim DaSim StfAgreement DaReplay StfValue StfProgress DaDiff.

Section da_epoch.
Context `{XR : ExtRoot} `{CE : !CodecExt} `{DE : !DaExt} `{PE : !PredicateExt}.
Context `{!AmountLaws X, !CodecLaws CE, !PredicateLaws X PE}.

(** ** Applying the account diffs *)

(** The entry [e] finds the account [a0] under [id] and turns it into [a]. *)
Record entry_target (l : LState) (e : AccountDiffEntry) (id : AccountId) (a0 a : OLAccountState) : Prop := {
  et_serial : ls_serials l !! ade_account_serial e = Some id;
  et_acct : ls_accts l !! id = Some a0;
  et_own : acct_serial a0 = ade_account_serial e;
  et_apply : apply_account_diff_to_account (ade_diff e) a0 = (Ok tt, a);
}.

Definition apply_entry (e : AccountDiffEntry) : M DaError LState unit :=
  let* id := account_of_serial (ade_account_serial e) in apply_account_diff id (ade_diff e).

Lemma apply_entry_run l e id a0 a :
  entry_target l e id a0 a -> apply_entry e l = (Ok tt, ls_set_accts l (<[id := a]> (ls_accts l))).
Proof.
  intros [H1 H2 _ H4]. unfold apply_entry, account_of_serial, apply_account_diff, mbind, mreads_res, mlift, mmap_err. simpl.
  rewrite H1. simpl. rewrite H2. unfold run_account. simpl in H4. by rewrite H4.
Qed.

Lemma entry_target_other l e id a0 a e' id' a0' a' :
  entry_target l e id a0 a -> entry_target l e' id' a0' a' -> ade_account_serial e <> ade_account_serial e' ->
  entry_target (ls_set_accts l (<[id := a]> (ls_accts l))) e' id' a0' a'.
Proof.
  intros [H1 H2 H3 H4] [K1 K2 K3 K4] Hne. assert (id <> id') by (intros ->; simplify_eq; congruence).
  split; simpl; try done. by rewrite lookup_insert_ne.
Qed.

Lemma entry_target_unique l e id a0 a id' a0' a' :
  entry_target l e id a0 a -> entry_target l e id' a0' a' -> id' = id /\ a' = a.
Proof.
  intros [H1 H2 H3 H4] [K1 K2 K3 K4]. assert (id' = id) as -> by congruence. assert (a0' = a0) as -> by congruence.
  split; congruence.
Qed.

Lemma apply_entries_run L (l : LState) :
  NoDup (map ade_account_serial L) -> (forall e, e ∈ L -> exists id a0 a, entry_target l e id a0 a) ->
  exists m, miter apply_entry L l = (Ok tt, ls_set_accts l m) /\
    (forall e id a0 a, e ∈ L -> entry_target l e id a0 a -> m !! id = Some a) /\
    (forall id, (forall e, e ∈ L -> ls_serials l !! ade_account_serial e <> Some id) -> m !! id = ls_accts l !! id).
Proof.
  revert l. induction L as [|e L IH]; intros l Hnd Ht; cbn [miter].
  - exists (ls_accts l). split_and!; [by destruct l|by intros ? ? ? ? []%not_elem_of_nil|done].
  - apply NoDup_cons in Hnd as [Hni Hnd].
    destruct (Ht e ltac:(by left)) as (id & a0 & a & He). set (l1 := ls_set_accts l (<[id := a]> (ls_accts l))).
    assert (Hother : forall e', e' ∈ L -> ade_account_serial e <> ade_account_serial e').
    { intros e' Hin Heq. apply Hni. rewrite Heq. by apply (list_elem_of_fmap_2 ade_account_serial). }
    destruct (IH l1 Hnd) as (m & Hrun & Hm1 & Hm2).
    { intros e' Hin. destruct (Ht e' ltac:(by right)) as (id' & a0' & a' & He').
      exists id', a0', a'. eapply entry_target_other; [done..|]. by apply Hother. }
    exists m. split_and!.
    + rewrite (mbind_ok _ _ _ _ _ (apply_entry_run _ _ _ _ _ He)). fold l1. by rewrite Hrun.
    + intros e' id' a0' a' [->|Hin]%elem_of_cons He'.
      * assert (id' = id /\ a' = a) as [-> ->] by (by eapply entry_target_unique). rewrite Hm2; [simpl; apply lookup_insert_eq|].
        intros e' Hin Heq. simpl in Heq. destruct (Ht e' ltac:(by right)) as (id'' & b0 & b & [K1 K2 K3 K4]).
        destruct He as [H1 H2 H3 H4]. assert (id'' = id) as -> by congruence. apply (Hother e' Hin). congruence.
      * eapply Hm1; [done|]. eapply entry_target_other; [exact He|done|]. by apply Hother.
    + intros id' Hno. rewrite Hm2 by (intros e' Hin; simpl; apply Hno; by right). simpl.
      rewrite lookup_insert_ne; [done|]. intros <-. apply (Hno e); [by left|apply He].
Qed.

(** ** Validation *)

Lemma check_diff_serials_ok pre last L :
  StronglySorted (by_key ade_account_serial) L -> NoDup (map ade_account_serial L) ->
  Forall (fun e => ade_account_serial e < pre) L ->
  match last with Some p => Forall (fun e => p < ade_account_serial e) L | None => True end ->
  check_diff_serials pre last L = Ok tt.
Proof.
  intros Hs. revert last. induction Hs as [|e L Hs IH Hall]; intros last Hnd Hpre Hlast; simpl; [done|].
  apply NoDup_cons in Hnd as [Hni Hnd]. apply Forall_cons in Hpre as [He Hpre].
  rewrite (proj2 (Z.leb_gt _ _)) by done.
  assert (match last with Some prev => ade_account_serial e <=? prev | None => false end = false) as ->.
  { destruct last as [p|]; [|done]. apply Forall_cons in Hlast as [? _]. apply Z.leb_gt. lia. }
  apply IH; [done..|]. apply Forall_forall. intros e' Hin. pose proof Hall as Hall'. rewrite Forall_forall in Hall'.
  specialize (Hall' e' Hin). unfold by_key in Hall'.
  assert (ade_account_serial e <> ade_account_serial e'); [|lia].
  intros Heq. apply Hni. rewrite Heq. by apply (list_elem_of_fmap_2 ade_account_serial).
Qed.

Lemma poll_context_run diff (l : LState) :
  ld_new_accounts (sd_ledger diff) = [] ->
  check_diff_serials (gs_next_avail_serial (ls_global l)) None (ld_account_diffs (sd_ledger diff)) = Ok tt ->
  (forall e, e ∈ ld_account_diffs (sd_ledger diff) -> exists id, ls_serials l !! ade_account_serial e = Some id) ->
  OLStateDiff_poll_context diff l = (Ok tt, l).
Proof.
  intros Hn Hc Hs. unfold OLStateDiff_poll_context. rewrite (mbind_ok _ _ _ (gs_next_avail_serial (ls_global l)) l) by done.
  rewrite (mbind_ok _ _ _ tt l).
  2: { unfold mlift, validate_ledger_entries. rewrite Hn. simpl. by rewrite Hc. }
  rewrite Hn, (mbind_ok _ _ _ tt l) by done. revert Hs. generalize (ld_account_diffs (sd_ledger diff)) as L.
  induction L as [|e L IH]; intros Hs; cbn [miter]; [done|].
  rewrite (mbind_ok _ _ _ tt l); [apply IH; intros e' Hin; apply Hs; by right|].
  destruct (Hs e ltac:(by left)) as [id Hid]. unfold account_of_serial, mbind, mreads_res, mlift. simpl. by rewrite Hid.
Qed.

(** ** The global diff *)

Lemma apply_global_run gd (l : LState) slot limbo :
  (forall E, applied (DaCounter_apply (E := E) (gsd_cur_slot gd)) (gs_cur_slot (ls_global l)) = Ok slot) ->
  in_u64 (gs_limbo_funds_sats (ls_global l)) -> in_u64 limbo ->
  amount_change (gs_limbo_funds_sats (ls_global l)) limbo (gsd_limbo_funds_sats gd) ->
  apply_global_diff gd l = (Ok tt, ls_set_global l
    {| gs_cur_slot := slot; gs_next_avail_serial := gs_next_avail_serial (ls_global l); gs_limbo_funds_sats := limbo |}).
Proof.
  intros Hs H0 Hl Hc. unfold apply_global_diff. rewrite (mbind_ok _ _ _ (gs_cur_slot (ls_global l)) l) by done.
  rewrite (mbind_ok _ _ _ slot l) by (unfold mlift; by rewrite Hs). unfold mbind, mexpect. simpl.
  destruct Hc as [->|d Hp Hm Hlt|d Hp Hm Hlt]; simpl; [done|..]; rewrite Hp, Hm; unfold mmap_err; simpl.
  - rewrite amt_add_spec by (unfold in_u64 in *; lia). unfold_widths. rewrite (proj2 (Z.leb_le _ _)) by lia.
    unfold ls_set_global, gs_set_limbo. simpl. do 3 f_equal. lia.
  - rewrite amt_sub_spec by (unfold in_u64 in *; lia). unfold_widths. rewrite (proj2 (Z.leb_le _ _)) by lia.
    unfold ls_set_global, gs_set_limbo. simpl. do 3 f_equal. lia.
Qed.

(** ** What is finalized *)

Record global_diff_built (gd : GlobalStateDiff) : Prop := {
  gb_slot : counter_of CtrU64ByU16 in_u16 (gsd_cur_slot gd);
  gb_limbo : counter_of CtrU64BySignedVarInt svi_normal (gsd_limbo_funds_sats gd);
}.

Definition finish {S : CounterScheme} (b : option (DaCounterBuilder S)) : res DaAccumulationError (DaCounter S) :=
  match b with Some b => res_map_err Builder (DaCounterBuilder_into_write b) | None => Ok Unchanged end.

Lemma build_global_diff_returns c gd c' :
  build_global_diff c = (Ok gd, c') ->
  finish (acc_slot_builder c) = Ok (gsd_cur_slot gd) /\ finish (acc_limbo_funds_builder c) = Ok (gsd_limbo_funds_sats gd) /\
  c' = acc_with_limbo (acc_with_slot c None) None.
Proof.
  unfold build_global_diff. intros H. change (match acc_slot_builder c with Some b => _ | None => _ end)
    with (finish (acc_slot_builder c)) in H.
  change (match acc_limbo_funds_builder c with Some b => _ | None => _ end) with (finish (acc_limbo_funds_builder c)) in H.
  destruct (finish (acc_slot_builder c)) as [w1| |]; [|done..].
  destruct (finish (acc_limbo_funds_builder c)) as [w2| |]; [|done..]. by simplify_eq/=.
Qed.

Lemma finish_slot (b : option (DaCounterBuilder CtrU64ByU16)) x0 x w :
  in_u64 x0 -> in_u64 x -> counter_tracks b x0 x -> finish b = Ok w -> counter_write (S := CtrU64ByU16) in_u16 x0 x w.
Proof.
  intros H0 Hx Ht Hf. destruct b as [[y0 y]|]; simpl in Ht, Hf.
  - destruct Ht as (-> & -> & d & Hd). destruct (DaCounterBuilder_into_write _) as [w'| |] eqn:Hw; simplify_eq/=.
    by eapply (into_write_ok CtrU64ByU16 in_u64 in_u16).
  - simplify_eq. by split_and!.
Qed.

Lemma finish_limbo (b : option (DaCounterBuilder CtrU64BySignedVarInt)) x0 x w :
  counter_tracks b x0 x -> finish b = Ok w -> amount_change x0 x w.
Proof.
  intros Ht Hf. destruct b as [[y0 y]|]; cbn [counter_tracks finish dcb_original dcb_new] in Ht, Hf.
  - destruct Ht as (-> & -> & d & Hd). unfold DaCounterBuilder_into_write in Hf.
    cbn [dcb_original dcb_new] in Hf. rewrite Hd in Hf. apply compare_change in Hd. cbn [ok_or res_bind res_map_err] in Hf.
    injection Hf as <-. unfold DaCounter_new_changed in *. simpl in *. by destruct (svi_is_zero d).
  - injection Hf as <-. by apply amount_same.
Qed.

Record diff_built (d : StateDiff) : Prop := {
  db_global : global_diff_built (sd_global d);
  db_new : ld_new_accounts (sd_ledger d) = [];
  db_entries : Forall (fun e => in_u32 (ade_account_serial e) /\ account_diff_built (ade_diff e))
    (ld_account_diffs (sd_ledger d));
}.

Lemma finalize_returns {S} `{!IStateAccessor S} (st : S) c d c' :
  finalize st c = (Ok d, c') -> acc_new_account_records c = [] -> acc_new_account_ids c = ∅ ->
  finish (acc_slot_builder c) = Ok (gsd_cur_slot (sd_global d)) /\
  finish (acc_limbo_funds_builder c) = Ok (gsd_limbo_funds_sats (sd_global d)) /\
  ld_new_accounts (sd_ledger d) = [] /\
  exists L, build_account_diffs ∅ ∅ ∅ (btree_iter (acc_account_deltas c)) = Ok L /\
    ld_account_diffs (sd_ledger d) = sort_by_key ade_account_serial L.
Proof.
  intros H Hr Hi. unfold finalize in H. apply mbind_returns in H as (gd & c1 & Hg & H).
  apply build_global_diff_returns in Hg as (Hs & Hl & ->). apply mbind_returns in H as (ld & c2 & Hld & H).
  unfold mret in H. injection H as <- <-. unfold mreads_res, build_ledger_diff in Hld.
  cbn [acc_new_account_records acc_new_account_ids acc_account_deltas acc_expected_first_serial acc_with_limbo acc_with_slot] in Hld.
  rewrite Hr, Hi in Hld. change (sort_by_key nar_serial []) with (@nil NewAccountRecord) in Hld. simpl in Hld.
  destruct (build_account_diffs _ _ _ _) as [L| |]; simpl in Hld; [|done..]. injection Hld as <- <-. eauto 10.
Qed.

Section finalized.
Context (l0 l : LState) (c : EpochDaAccumulator) (L : list AccountDiffEntry).
Context (Hwf : ls_wf l0) (Hty0 : da_typed l0) (Hty : da_typed l) (Ht : acc_tracks l0 c l) (Hb : acc_bounded c).
Context (HL : build_account_diffs ∅ ∅ ∅ (btree_iter (acc_account_deltas c)) = Ok L).

Lemma tracked_account id dl :
  acc_account_deltas c !! id = Some dl ->
  exists a0 a, ls_accts l0 !! id = Some a0 /\ ls_accts l !! id = Some a /\
    ls_serials l0 !! adl_serial dl = Some id /\ acct_serial a0 = adl_serial dl /\
    forall diff, delta_diff id dl = Ok diff ->
      apply_account_diff_to_account diff a0 = (Ok tt, a) /\ account_diff_built diff /\
      (AccountDiff_is_default diff = true -> a = a0).
Proof.
  intros Hd. pose proof (at_accts _ _ _ Ht id) as Ha. rewrite Hd in Ha. destruct Ha as (a0 & a & H0 & H1 & Hok).
  exists a0, a. pose proof (dl_serial _ _ _ Hok) as Hs. split_and!; [done..| |done|].
  - apply (wf_serials l0 Hwf). eauto.
  - intros diff. apply delta_diff_ok; [done|exact (proj1 Hb _ _ Hd)|by apply (da_typed_account l0 id)|by apply (da_typed_account l id)].
Qed.

(** Every entry finds its account and turns it into the one of the end. *)
Lemma final_entry e :
  e ∈ L -> exists id a0 a, entry_target l0 e id a0 a /\ ls_accts l !! id = Some a /\
    is_Some (acc_account_deltas c !! id) /\ in_u32 (ade_account_serial e) /\
    ade_account_serial e < gs_next_avail_serial (ls_global l0) /\ account_diff_built (ade_diff e).
Proof.
  intros He. apply build_account_diffs_ok in HL as (_ & L2 & _). destruct (L2 e He) as (id & dl & Hin & Hdiff & Hser).
  apply elem_of_btree_iter in Hin. destruct (tracked_account id dl Hin) as (a0 & a & H0 & H1 & Hs & Hs0 & Hd).
  destruct (Hd _ Hdiff) as (Happ & Hbuilt & _).
  pose proof (wf_serial_range l0 Hwf id a0 H0). pose proof (wf_next_serial l0 Hwf). unfold in_u32 in *.
  exists id, a0, a. rewrite Hser. split_and!; [split; rewrite ?Hser; done|done|by eexists|lia..|done].
Qed.

(** The accounts after all entries have been applied. *)
Lemma final_accts (m : gmap AccountId OLAccountState) :
  (forall e id a0 a, e ∈ L -> entry_target l0 e id a0 a -> m !! id = Some a) ->
  (forall id, (forall e, e ∈ L -> ls_serials l0 !! ade_account_serial e <> Some id) -> m !! id = ls_accts l0 !! id) ->
  m = ls_accts l.
Proof.
  intros Hm1 Hm2. apply map_eq. intros id.
  destruct (decide (Exists (fun e => ls_serials l0 !! ade_account_serial e = Some id) L)) as [(e & He & Hid)%Exists_exists|Hno].
  - destruct (final_entry e He) as (id' & a0 & a & Het & Ha & _).
    assert (id' = id) as -> by (destruct Het; congruence). rewrite Ha. by apply (Hm1 e id a0 a).
  - rewrite Hm2 by (intros e He Hid; apply Hno, Exists_exists; by exists e).
    destruct (acc_account_deltas c !! id) as [dl|] eqn:Hdl.
    + destruct (tracked_account id dl Hdl) as (a0 & a & H0 & H1 & Hs & _ & Hd).
      apply build_account_diffs_ok in HL as (L1 & _). destruct (L1 id dl) as (diff & Hdiff & Hcase); [by apply elem_of_btree_iter|].
      destruct (Hd diff Hdiff) as (_ & _ & Hdef). destruct Hcase as [Hdf|Hin]; [by rewrite H0, H1, Hdef|].
      destruct Hno. apply Exists_exists. by eexists.
    + pose proof (at_accts _ _ _ Ht id) as Ha. by rewrite Hdl in Ha.
Qed.
End finalized.

(** Applying what has been finalized leads from the start of the epoch to its
    end. *)
Lemma finalize_applies {S} `{!IStateAccessor S} (st : S) l0 l c d c' :
  ls_wf l0 -> da_typed l0 -> da_typed l -> acc_tracks l0 c l -> acc_bounded c -> finalize st c = (Ok d, c') ->
  apply_to_state {| pl_state_diff := d |} l0 = (Ok tt, with_da l0 l) /\ diff_built d.
Proof.
  intros Hwf Hty0 Hty Ht Hb Hfin. pose proof Ht as [T1 T2 T3 T4 _ [T6 T7]].
  apply finalize_returns in Hfin as (Hs & Hl & Hnew & L & HL & Hsort); [|done..].
  pose proof (final_entry l0 l c L Hwf Hty0 Hty Ht Hb HL) as Hentry.
  pose proof HL as (_ & _ & Hnd & _)%build_account_diffs_ok.
  assert (Hin : forall e, e ∈ sort_by_key ade_account_serial L <-> e ∈ L) by (intros e; by rewrite sort_by_key_perm).
  assert (Hnd' : NoDup (map ade_account_serial (sort_by_key ade_account_serial L))).
  { assert (Hp : map ade_account_serial (sort_by_key ade_account_serial L) ≡ₚ map ade_account_serial L)
      by (by apply fmap_Permutation, sort_by_key_perm). by rewrite Hp. }
  pose proof (finish_slot _ _ _ _ (dty_slot _ Hty0) (dty_slot _ Hty) T1 Hs) as (Hs1 & Hs2 & _).
  pose proof (finish_limbo _ _ _ _ T2 Hl) as Hlim.
  pose proof (ao_limbo _ (dty_amounts _ Hty0)) as Hl0. pose proof (ao_limbo _ (dty_amounts _ Hty)) as Hl1.
  split.
  2: { split; [split; [done|by apply (amount_change_ok _ _ _ Hl0 Hl1)]|done|]. rewrite Hsort. apply Forall_forall.
       intros e He%Hin. by destruct (Hentry e He) as (id & a0 & a & _ & _ & _ & ? & _ & ?). }
  unfold apply_to_state. cbn [pl_state_diff]. rewrite (mbind_ok _ _ _ tt l0).
  2: { apply poll_context_run; [done| |]; rewrite Hsort.
       - apply check_diff_serials_ok; [apply sort_by_key_sorted|done| |done].
         apply Forall_forall. intros e He%Hin. by destruct (Hentry e He) as (id & a0 & a & _ & _ & _ & _ & ? & _).
       - intros e He%Hin. destruct (Hentry e He) as (id & a0 & a & Het & _). exists id. apply Het. }
  unfold OLStateDiff_apply. rewrite (mbind_ok _ _ _ _ _ (apply_global_run _ l0 _ _ Hs1 Hl0 Hl1 Hlim)).
  set (l1 := ls_set_global l0 _). rewrite (mbind_ok _ _ _ (next_account_serial l1) l1) by done.
  rewrite Hnew, (mbind_ok _ _ _ tt l1) by done. rewrite Hsort.
  destruct (apply_entries_run (sort_by_key ade_account_serial L) l1 Hnd') as (m & Hrun & Hm1 & Hm2).
  { intros e He%Hin. destruct (Hentry e He) as (id & a0 & a & [] & _). by exists id, a0, a. }
  unfold apply_entry in Hrun. rewrite Hrun. f_equal.
  rewrite (final_accts l0 l c L Hwf Hty0 Hty Ht Hb HL m).
  - unfold ls_set_accts, with_da. simpl. rewrite T6, <- T7. by destruct l as [? []].
  - intros e id a0 a He%Hin []. eapply Hm1; [done|]. by split.
  - intros id Hno. apply Hm2. intros e He%Hin. by apply Hno.
Qed.

(** ** What is encoded *)

Lemma account_diff_built_ok d bs :
  account_diff_built d -> encode account_diff_codec d = Ok bs -> account_diff_ok d.
Proof.
  intros [Hb [H1 H2 H3 H4]] H. apply enc_app_inv in H as (? & ? & _ & H & _).
  apply enc_app_inv in H as (? & ? & _ & [Hvk Hms]%snark_member_inv & _). split; [done|].
  split; [done|]. split; [done|]. split; [done|]. split; [done|].
  apply Forall_forall. intros e He. rewrite Forall_forall in H3, Hms. destruct (Hms e He). by split_and!; [..|apply H3].
Qed.

Lemma diff_built_ok d bs :
  diff_built d -> encode payload_codec {| pl_state_diff := d |} = Ok bs -> state_diff_ok d.
Proof.
  intros [[G1 G2] Hn He] H. apply enc_app_inv in H as (? & ? & _ & H & _). split; [done|].
  apply enc_app_inv in H as (? & ? & _ & [Hl Hall]%u16_len_list_inv & _). rewrite Forall_forall in He, Hall.
  split; split; rewrite ?Hn; try done. apply Forall_forall. intros e Hin. destruct (He e Hin) as [Hs Hd]. split; [done|].
  destruct (Hall e Hin) as [b Hb]. apply enc_app_inv in Hb as (? & ? & _ & Hb & _). by eapply account_diff_built_ok.
Qed.

(** ** Epochs *)

Section epochs.
Context `{!MsgCodecLaws X, !MmrLaws X}.
Context {S : Type} `{!IStateAccessorMut S} (R : S -> LState -> Prop).
Context (AR : AcctMut (S := S) -> OLAccountState -> Prop).
Context (SR : SnarkMut (A := AcctMut (S := S)) -> OLSnarkAccountState -> Prop) `{!LedgerLayer R AR SR}.

Lemma take_blob_returns (d d' : DaAccumulatingState S) o l0 l :
  da_refines R True l0 d l -> take_completed_epoch_da_blob d = (Ok o, d') ->
  das_pending_epoch_error d = None /\ exists diff c' blob, finalize (das_inner d) (das_epoch_acc d) = (Ok diff, c') /\
    encode payload_codec {| pl_state_diff := diff |} = Ok blob /\ zlen blob <= OL_DA_DIFF_MAX_SIZE /\ o = Some blob.
Proof.
  intros [_ Hd Hb _ _ _] H. unfold take_completed_epoch_da_blob in H. rewrite Hd, Hb in H.
  destruct (das_pending_epoch_error d); [done|]. split; [done|].
  destruct (finalize _ _) as [[diff| |] c']; [|done..]. unfold encode_payload in H.
  destruct (encode payload_codec _) as [blob| |] eqn:He; [|done..]. simpl in H.
  destruct (_ <? _) eqn:Hlt; simpl in H; [done|]. zbool. injection H as <- _. by exists diff, c', blob.
Qed.

(** The blob of an epoch decodes, and its payload turns the ledger at the start
    of the epoch into the one the blocks lead to. *)
Lemma epoch_blob_applies (s : S) l0 d d' blocks parent bp logs o :
  R s l0 -> keys_ok l0 -> ls_wf l0 -> da_typed l0 -> Forall block_typed blocks ->
  execute_block_batch_predrain blocks parent bp (DaAccumulatingState_new s) = (Ok logs, d) ->
  take_completed_epoch_da_blob d = (Ok o, d') ->
  exists l1 blob p, execute_block_batch_predrain blocks parent bp l0 = (Ok logs, l1) /\ R (das_inner d) l1 /\
    o = Some blob /\ zlen blob <= OL_DA_DIFF_MAX_SIZE /\ decode_ol_da_payload_bytes blob = Ok p /\
    state_diff_ok (pl_state_diff p) /\ ld_new_accounts (sd_ledger (pl_state_diff p)) = [] /\
    apply_to_state p l0 = (Ok tt, with_da l0 l1).
Proof.
  intros Hr Hk Hwf Hty Hall Hrun Htake.
  destruct (execute_block_batch_predrain_sim (da_refines R True l0) blocks parent bp _ _ (da_refines_new R True s l0 Hr Hk)) as [Hres Href].
  rewrite Hrun in Hres, Href. destruct (execute_block_batch_predrain blocks parent bp l0) as [r l1] eqn:Hl. simpl in Hres, Href.
  subst r. specialize (Href ltac:(done)). pose proof (execute_block_batch_predrain_typed _ _ _ _ _ _ Hty Hall Hl) as Hty1.
  destruct (take_blob_returns _ _ _ _ _ Href Htake) as (Herr & diff & c' & blob & Hfin & Henc & Hlen & ->).
  destruct (finalize_applies _ l0 l1 _ _ _ Hwf Hty Hty1 (da_acc _ _ _ _ _ Href I Herr) (da_bounded _ _ _ _ _ Href) Hfin) as [Happ Hbuilt].
  pose proof (diff_built_ok _ _ Hbuilt Henc) as Hok.
  exists l1, blob, {| pl_state_diff := diff |}. split; [done|]. split; [apply Href|]. split; [done|]. split; [done|].
  split; [by apply payload_decodes|]. split; [done|]. split; [apply Hbuilt|done].
Qed.
End epochs.
End da_epoch.

(** * Rebuilding the in-memory state from a blob

    Applying a payload to the in-memory layer does what applying it to the
    ledger does, so the node that reads the blob of an epoch rebuilds the state
    of the node that executed the epoch. *)

Section rebuild.
Context `{XR : ExtRoot} `{CE : !CodecExt} `{DE : !DaExt} `{PE : !PredicateExt}.

(** ** Applying a payload in memory *)

Lemma sim_returns {E S1 S2 A} (R : S1 -> S2 -> Prop) (m1 : M E S1 A) (m2 : M E S2 A) s1 s2 a s2' :
  sim R m1 m2 -> R s1 s2 -> m2 s2 = (Ok a, s2') -> exists s1', m1 s1 = (Ok a, s1') /\ R s1' s2'.
Proof.
  intros Hm Hr H. destruct (Hm s1 s2 Hr) as [H1 H2]. rewrite H in H1, H2. destruct (m1 s1) as [r s1']. simpl in *.
  subst r. eauto.
Qed.

Definition serial_kept (a a' : OLAccountState) : Prop := acct_serial a' = acct_serial a.

#[local] Instance serial_kept_preorder : PreOrder serial_kept.
Proof. split; [done|]. unfold serial_kept. intros a b c. congruence. Qed.

Lemma apply_account_diff_serial diff : keeps serial_kept (apply_account_diff_to_account (A := OLAccountState) diff).
Proof.
  apply keeps_mbind; [apply _| |intros _].
  - destruct (DaCounter_diff _) as [incr|]; [|apply keeps_mret, _]. unfold apply_balance_delta.
    destruct (svi_positive incr).
    + intros a. simpl. unfold add_balance. by destruct (amt_checked_add _ _).
    + apply keeps_mbind; [apply _| |intros ?; apply keeps_mret, _]. intros a. unfold mmap_err. simpl.
      unfold take_balance. by destruct (amt_checked_sub _ _).
  - destruct (negb _); [|apply keeps_mret, _]. intros a. unfold apply_snark_diff. simpl.
    destruct (acct_state a) as [|sa]; [done|]. unfold on_snark_account.
    cbn [fst snd]. by destruct (write_snark_diff (ad_snark diff) sa).
Qed.

Lemma mem_apply_account_diff_sim id diff :
  sim mem_refines (apply_account_diff id diff) (apply_account_diff id diff).
Proof.
  apply sim_mbind; [|intros r; apply sim_mlift]. apply sim_mmap_err. intros m l Hr.
  pose proof (mem_update_account_run id (apply_account_diff_to_account diff) m l Hr) as Hu. unfold updates_like in Hu.
  simpl in *. destruct (ls_accts l !! id) as [a|].
  - destruct Hu as (a1 & put & -> & -> & Hput). pose proof (apply_account_diff_serial diff a) as Hs. unfold run_account.
    destruct (apply_account_diff_to_account diff a) as [[[]|e|] a']; simpl; split; try done; intros _; by apply Hput.
  - by destruct Hu as (m' & -> & Hm').
Qed.

(** Taking from the limbo funds checks that adding gives the amount back, which
    it does within the range of amounts. *)
Lemma mem_take_limbo_run `{!AmountLaws X} amt m l c l' :
  mem_refines m l -> in_u64 (limbo_funds l) -> in_u64 amt -> take_limbo_funds_coin amt l = (Ok c, l') ->
  exists m', take_limbo_funds_coin amt m = (Ok c, m') /\ mem_refines m' l'.
Proof.
  intros [Ht -> Hwf] Hl Ha. simpl in *. rewrite amt_sub_spec by done. unfold checked_sub.
  destruct (_ <=? _) eqn:Hle; [|done]. zbool.
  intros [= <- <-]. unfold mem_take_limbo_funds_coin, mbind, on_state, on_global, gs_take_limbo_funds_coin. simpl.
  rewrite amt_sub_spec by done. unfold checked_sub. rewrite (proj2 (Z.leb_le _ _) Hle).
  rewrite amt_add_spec by (unfold in_u64 in *; lia). unfold checked_add_u64. rewrite Z.sub_add.
  rewrite (proj2 (Z.leb_le _ _)), Z.eqb_refl by (unfold in_u64 in *; lia). simpl. eexists. split; [done|].
  split; simpl; [done..|]. apply (ls_wf_fields (ol_abs (mem_state m) (mem_serials m))); [exact Hwf|done|apply Hwf].
Qed.

(** Validation leaves the state alone. *)
Lemma poll_context_keeps diff : keeps eq (OLStateDiff_poll_context (S := LState) diff).
Proof.
  apply keeps_mbind; [apply _|apply keeps_mreads, _|intros pre]. apply keeps_mbind; [apply _|apply keeps_mlift, _|intros _].
  assert (Hs : forall n, keeps eq (account_of_serial (S := LState) n)).
  { intros n. apply keeps_mbind; [apply _|apply keeps_mreads_res, _|intros o; apply keeps_mlift, _]. }
  apply keeps_mbind; [apply _| |intros _]; apply keeps_miter; try apply _; intros e.
  - apply keeps_mbind; [apply _|apply keeps_mlift, _|intros _]. unfold account_absent.
    apply keeps_mbind; [apply _|apply keeps_mreads_res, _|intros []; [apply keeps_merr, _|apply keeps_mret, _]].
  - apply keeps_mbind; [apply _|apply Hs|intros _; apply keeps_mret, _].
Qed.

Lemma mem_account_of_serial_sim n : sim mem_refines (account_of_serial n) (account_of_serial n).
Proof.
  apply sim_mbind; [|intros r; apply sim_mlift]. apply sim_mreads_res. intros m l Hr.
  by rewrite (rs_find_account_id_by_serial m l n).
Qed.

(** The change of the limbo funds is within the range of amounts. *)
Definition limbo_bounded (p : OLDaPayloadV1) : Prop :=
  match DaCounter_diff (gsd_limbo_funds_sats (sd_global (pl_state_diff p))) with
  | Some d => in_u64 (svi_magnitude d) | None => True end.

Lemma mem_apply_global_run `{!AmountLaws X} p m l l' :
  limbo_bounded p -> mem_refines m l -> in_u64 (limbo_funds l) ->
  apply_global_diff (sd_global (pl_state_diff p)) l = (Ok tt, l') ->
  exists m', apply_global_diff (sd_global (pl_state_diff p)) m = (Ok tt, m') /\ mem_refines m' l'.
Proof.
  unfold limbo_bounded. generalize (sd_global (pl_state_diff p)) as diff. intros diff Hp Hr Hl H. unfold apply_global_diff in *.
  rewrite (mbind_ok _ _ _ (cur_slot m) m) by done. rewrite (rs_cur_slot m l Hr).
  apply mbind_returns in H as (cur & ? & H0 & H). unfold mreads in H0. injection H0 as <- <-.
  apply mbind_returns in H as (slot & ? & H0 & H). unfold mlift in H0. injection H0 as H0 <-.
  rewrite (mbind_ok _ _ _ slot m) by (unfold mlift; apply pair_eq; split; [apply (f_equal Ok); exact H0|done]).
  apply mbind_returns in H as ([] & l1 & H1 & H). destruct (ss_set_cur_slot slot m l Hr) as [_ H3]. specialize (H3 ltac:(done)).
  unfold mexpect in H1. simpl in H1. injection H1 as <-. set (m1 := snd (set_cur_slot slot m)) in H3.
  rewrite (mbind_ok _ _ _ tt m1) by done. clearbody m1.
  destruct (DaCounter_diff _) as [d|]; [|unfold mret in *; injection H as <-; eauto]. destruct (svi_positive d).
  - eapply sim_returns; [apply sim_mmap_err, ss_add_limbo_funds_coin|exact H3|exact H].
  - apply mbind_returns in H as (c & l2 & Ht & H). unfold mret in H. injection H as <-.
    apply mmap_err_returns in Ht. destruct (mem_take_limbo_run _ _ _ _ _ H3 Hl Hp Ht) as (m2 & Hm2 & Hr2).
    exists m2. unfold mbind, mmap_err. by rewrite Hm2.
Qed.

(** A payload that creates no accounts applies in memory as it does to the
    ledger. *)
Lemma mem_apply_to_state_run `{!AmountLaws X} p m l l' :
  ld_new_accounts (sd_ledger (pl_state_diff p)) = [] -> limbo_bounded p ->
  mem_refines m l -> in_u64 (limbo_funds l) -> apply_to_state p l = (Ok tt, l') ->
  exists m', apply_to_state p m = (Ok tt, m') /\ mem_refines m' l'.
Proof.
  intros Hn Hp Hr Hl H. assert (Hnext : forall m l, mem_refines m l -> next_account_serial m = next_account_serial l).
  { intros m0 l0 Hr0. by apply rs_next_account_serial. }
  apply mbind_returns in H as ([] & l1 & H1 & H).
  assert (l1 = l) as ->.
  { pose proof (keeps_ok _ _ _ _ _ (poll_context_keeps (pl_state_diff p)) H1) as <-. done. }
  assert (Hpoll : sim mem_refines (OLStateDiff_poll_context (pl_state_diff p)) (OLStateDiff_poll_context (pl_state_diff p))).
  { apply sim_mbind; [apply sim_mreads, Hnext|intros pre]. apply sim_mbind; [apply sim_mlift|intros _]. rewrite Hn.
    apply sim_mbind; [apply sim_mret|intros _]. apply sim_miter. intros e.
    apply sim_mbind; [apply mem_account_of_serial_sim|intros _; apply sim_mret]. }
  destruct (sim_returns _ _ _ _ _ _ _ Hpoll Hr H1) as (m1 & Hm1 & Hr1).
  apply mbind_returns in H as ([] & l2 & H2 & H). destruct (mem_apply_global_run _ _ _ _ Hp Hr1 Hl H2) as (m2 & Hm2 & Hr2).
  unfold apply_to_state. rewrite (mbind_ok _ _ _ _ _ Hm1). unfold OLStateDiff_apply. rewrite (mbind_ok _ _ _ _ _ Hm2).
  eapply sim_returns; [|exact Hr2|exact H]. apply sim_mbind; [apply sim_mreads, Hnext|intros pre].
  rewrite Hn. apply sim_mbind; [apply sim_mret|intros _]. apply sim_miter. intros e.
  apply sim_mbind; [apply mem_account_of_serial_sim|intros id; apply mem_apply_account_diff_sim].
Qed.

(** An epoch that verifies from a diff on one layer does on another one, if
    applying the diff does. *)
Lemma verify_epoch_with_diff_lift {S1 S2} `{!IStateAccessorMut S1, !IStateAccessorMut S2} (R : S1 -> S2 -> Prop) `{!StateSim R}
    {D E} (f1 : D -> M E S1 unit) (f2 : D -> M E S2 unit) info diff mfs exp s1 s2 t2 :
  R s1 s2 ->
  (forall s2', f2 diff s2 = (Ok tt, s2') -> exists s1', f1 diff s1 = (Ok tt, s1') /\ R s1' s2') ->
  verify_epoch_with_diff f2 info diff mfs exp s2 = (Ok tt, t2) ->
  exists t1, verify_epoch_with_diff f1 info diff mfs exp s1 = (Ok tt, t1) /\ R t1 t2.
Proof.
  intros Hr Hf H. unfold verify_epoch_with_diff, apply_da_epoch in *.
  apply mbind_returns in H as ([] & t3 & H & Hroot). apply mbind_returns in H as ([] & t0 & Hi & H).
  destruct (sim_returns _ _ _ _ _ _ _ (process_epoch_initial_sim R _) Hr Hi) as (u0 & Hu0 & Hr0).
  assert (t0 = s2 /\ u0 = s1) as [-> ->].
  { unfold process_epoch_initial, mbind, mreads in Hi, Hu0. destruct (negb _) in Hi; [done|].
    destruct (negb _) in Hu0; [done|]. unfold mret in *. by simplify_eq. }
  apply mbind_returns in H as ([] & t4 & Ha & H). apply mmap_err_returns in Ha.
  destruct (Hf _ Ha) as (u1 & Hu1 & Hr1).
  assert (Hrest : sim R (let* (_, logs) := with_fresh_output (lift_exec (process_block_manifests mfs) ;;;
      process_epoch_terminal (BasicExecContext_new (ei_terminal_info info))) in mlift (verify_logs_within_block_limit logs))
    (let* (_, logs) := with_fresh_output (lift_exec (process_block_manifests mfs) ;;;
      process_epoch_terminal (BasicExecContext_new (ei_terminal_info info))) in mlift (verify_logs_within_block_limit logs))).
  { apply sim_mbind; [|intros [[] logs]; apply sim_mlift]. apply sim_with_fresh_output.
    apply sim_mbind; [apply sim_lift_exec, process_block_manifests_sim, _|intros _]. apply process_epoch_terminal_sim, _. }
  destruct (sim_returns _ _ _ _ _ _ _ Hrest Hr1 H) as (u2 & Hu2 & Hr2).
  destruct (sim_returns _ _ _ _ _ _ _ (check_state_root_sim R _) Hr2 Hroot) as (u3 & Hu3 & Hr3).
  exists u3. split; [|done]. rewrite (mbind_ok _ _ _ tt u2); [done|]. rewrite (mbind_ok _ _ _ _ _ Hu0).
  rewrite (mbind_ok _ _ _ tt u1); [done|]. unfold mmap_err. by rewrite Hu1.
Qed.
End rebuild.
