(* ===== verification/Genesis.v ===== *)
(** * Genesis ([crates/ol/genesis], [OLState::from_genesis_params])

    Building the genesis state and block, with the proof that well-formed
    parameters always give one, that the ledger it starts from is well formed,
    and that the genesis block verifies. *)

From S2P Require Import Prelude SortedMap Identifiers AcctTypes ChainTypes Externals.
From S2P Require Import LedgerTypes Bridge OLAccount WriteBatch OLState.
From S2P Require Import StateAccessor LedgerSpec MemoryLayer SnarkSys StfContext.
From S2P Require Import StfTx StfManifests StfBlock StfSim StfAgreement.
From S2P Require Import StfLedger StfUpdates StfManifestSpec StfProgress StfValue.

(** [checkpoint-types/src/batch.rs]. *)
Record EpochSummary := {
  esm_epoch : Epoch;
  esm_terminal : OLBlockCommitment;
  esm_prev_terminal : OLBlockCommitment;
  esm_new_l1 : L1BlockCommitment;
  esm_final_state : Buf32;
}.

Section genesis.
Context `{XR : ExtRoot}.

Inductive GenesisError :=
| GenStfExecution (e : ExecError)
| GenState (e : StateError).

Record GenesisArtifacts := {
  ga_ol_state : OLState;
  ga_ol_block : OLBlock;
  ga_commitment : OLBlockCommitment;
  ga_epoch_summary : EpochSummary;
}.

Definition build_genesis_artifacts (params : OLParams) : res GenesisError GenesisArtifacts :=
  let! ol_state_raw := res_map_err GenState (from_genesis_params params) in
  let! ol_state := MemoryStateBaseLayer_new ol_state_raw in
  let genesis_info := BlockInfo_new_genesis (olp_timestamp params) in
  let! components := BlockComponents_new_manifests [] in
  let genesis_components := as_terminal components in
  let! block_context := BlockContext_new genesis_info None in
  match execute_and_complete_block block_context genesis_components (olp_bridge_params params) ol_state with
  | (Ok genesis_block, ol_state) =>
      let header := cb_header genesis_block in
      let commitment := {| obc_slot := 0; obc_blkid := compute_blkid header |} in
      Ok {| ga_ol_state := mem_state ol_state;
            ga_ol_block := {| blk_header := header; blk_signature := Some 0; blk_body := cb_body genesis_block |};
            ga_commitment := commitment;
            ga_epoch_summary := {| esm_epoch := 0; esm_terminal := commitment; esm_prev_terminal := obc_null;
                                   esm_new_l1 := olp_last_l1_block params;
                                   esm_final_state := hdr_state_root header |} |}
  | (Err e, _) => Err (GenStfExecution e)
  | (Panic, _) => Panic
  end.

(** ** Indexing the serials *)

Section serial_index.
Context (t : TsnlLedgerAccountsTable).

Let pairs := map (fun e => (acct_serial (ent_state e), ent_id e)) (tbl_accounts t).

Lemma serial_fold_spec :
  NoDup pairs.*1 ->
  fold_left (fun m e => <[acct_serial (ent_state e) := ent_id e]> m) (tbl_accounts t)
    (∅ : gmap AccountSerial AccountId) = list_to_map pairs.
Proof.
  unfold pairs. clear pairs. destruct t as [l]. simpl.
  induction l as [|e l IH] using rev_ind; [done|]. rewrite fold_left_app, map_app. simpl. intros Hnd.
  rewrite fmap_app in Hnd. apply NoDup_app in Hnd as (Hnd & Hdisj & _).
  rewrite IH by done. rewrite list_to_map_app. simpl.
  rewrite <- insert_union_r.
  - by rewrite map_union_empty.
  - apply not_elem_of_list_to_map_1. intros Hin. apply (Hdisj _ Hin). simpl. by left.
Qed.

Lemma serial_index_lookup n id :
  tbl_wf t -> NoDup pairs.*1 ->
  (list_to_map pairs : gmap AccountSerial AccountId) !! n = Some id <->
  exists acct, tbl_map t !! id = Some acct /\ acct_serial acct = n.
Proof.
  intros Hwf Hnd. rewrite <- elem_of_list_to_map by done. unfold pairs.
  rewrite list_elem_of_fmap. split.
  - intros (e & [= -> ->] & Hin). apply list_elem_of_lookup in Hin as [i Hi].
    exists (ent_state e). split; [by eapply tbl_map_lookup_entry|done].
  - intros (acct & Hl & <-). apply elem_of_list_to_map_2 in Hl.
    unfold tbl_iter_account_states in Hl. apply list_elem_of_fmap in Hl as (e & [= -> ->] & Hin). eauto.
Qed.
End serial_index.

(** A table without duplicated serials, all below the next one, is a
    well-formed ledger, and the in-memory layer over it refines that ledger. *)
Lemma MemoryStateBaseLayer_new_refines {E} (s : OLState) :
  tbl_wf (ol_ledger s) ->
  NoDup (map (fun e => acct_serial (ent_state e)) (tbl_accounts (ol_ledger s))) ->
  (forall id acct, tbl_map (ol_ledger s) !! id = Some acct ->
     0 <= acct_serial acct < gs_next_avail_serial (ol_global s)) ->
  in_u32 (gs_next_avail_serial (ol_global s)) ->
  zlen (tbl_accounts (ol_ledger s)) <= MAX_LEDGER_ACCOUNTS ->
  zlen (is_pending_asm_logs (ol_intraepoch s)) <= MAX_PENDING_ASM_LOGS ->
  exists m, MemoryStateBaseLayer_new (E := E) s = Ok m /\ mem_state m = s /\
    mem_refines m (ol_abs s (mem_serials m)).
Proof.
  intros Hwf Hnd Hr Hn Hsz Hp.
  set (pairs := map (fun e => (acct_serial (ent_state e), ent_id e)) (tbl_accounts (ol_ledger s))).
  assert (Hnd' : NoDup pairs.*1).
  { unfold pairs. change (NoDup (map fst (map (fun e => (acct_serial (ent_state e), ent_id e))
      (tbl_accounts (ol_ledger s))))). by rewrite map_map. }
  unfold MemoryStateBaseLayer_new. cbv zeta. rewrite (serial_fold_spec (ol_ledger s) Hnd').
  fold pairs. assert (Hlen : Z.of_nat (size (list_to_map pairs : gmap Z Z)) = zlen (tbl_accounts (ol_ledger s))).
  { rewrite <- size_dom, dom_list_to_map_L, size_list_to_set by done. unfold pairs, zlen.
    by rewrite !length_fmap. }
  rewrite Hlen, Z.eqb_refl. eexists. split_and!; [done|done|]. split; [done|done|]. split; simpl.
  - intros n id. by apply serial_index_lookup.
  - done.
  - done.
  - rewrite <- size_dom. unfold tbl_map.
    rewrite dom_list_to_map_L, size_list_to_set by (by apply keys_sorted_NoDup).
    unfold tbl_iter_account_states. rewrite !length_fmap. done.
  - done.
Qed.

(** ** Genesis accounts *)

Context `{!SerialLaws X}.

Definition genesis_account (p : GenesisSnarkAccountData) (serial : AccountSerial) : OLAccountState :=
  {| acct_serial := serial; acct_balance := gsd_balance p;
     acct_state := TySnark (OLSnarkAccountState_new_fresh (gsd_predicate p) (gsd_inner_state p)) |}.

Lemma genesis_accounts_run l next t :
  tbl_wf t -> NoDup l.*1 -> (forall id, id ∈ l.*1 -> tbl_map t !! id = None) ->
  zlen (tbl_accounts t) + zlen l <= MAX_LEDGER_ACCOUNTS -> 0 <= next -> next + zlen l <= U32_MAX ->
  exists t', genesis_accounts l next t = (Ok (next + zlen l), t') /\ tbl_wf t' /\
    zlen (tbl_accounts t') = zlen (tbl_accounts t) + zlen l /\
    forall id acct, tbl_map t' !! id = Some acct <->
      tbl_map t !! id = Some acct \/
      exists (i : nat) p, l !! i = Some (id, p) /\ acct = genesis_account p (next + Z.of_nat i).
Proof.
  revert next t. induction l as [|[id p] l IH]; intros next t Hwf Hnd Hfresh Hsz Hn Hb.
  - exists t. autorewrite with zlen. rewrite !Z.add_0_r. split_and!; try done.
    intros id acct. split; [by left|]. intros [?|(i & ? & Hi & _)]; [done|]. by rewrite lookup_nil in Hi.
  - cbn [genesis_accounts]. cbv zeta. autorewrite with zlen in *. pose proof (zlen_nonneg l).
    apply NoDup_cons in Hnd as [Hni Hnd].
    destruct (tbl_create_account_fresh t id (genesis_account p next) Hwf) as (t1 & Hc & Hwf1 & Hm1 & Hl1);
      [apply Hfresh; by left|lia|].
    rewrite (mbind_ok _ _ _ tt t1) by exact Hc. rewrite serial_incr_spec by lia.
    destruct (IH (next + 1) t1) as (t' & Hrun & Hwf' & Hl' & Hm'); try done; try lia.
    { intros id' Hin. rewrite Hm1, lookup_insert_ne; [apply Hfresh; by right|]. intros ->. done. }
    exists t'. split_and!; [rewrite Hrun; do 2 f_equal; lia|done|lia|].
    intros id' acct. rewrite Hm', Hm1, lookup_insert_Some. split.
    + intros [[[<- <-]|[? ?]]|(i & p' & Hi & ->)].
      * right. exists 0%nat, p. split; [done|]. f_equal. lia.
      * by left.
      * right. exists (S i), p'. split; [done|]. f_equal. lia.
    + intros [Hl|(i & p' & Hi & ->)].
      * left. right. split; [|done]. intros <-. rewrite Hfresh in Hl by (by left). done.
      * destruct i as [|i]; simpl in Hi; simplify_eq.
        -- left. left. split; [done|]. f_equal. lia.
        -- right. exists i, p'. split; [done|]. f_equal. lia.
Qed.

Context `{!AmountLaws X, !MmrLaws X}.

(** Parameters a genesis can be built from. *)
Record genesis_params_ok (p : OLParams) : Prop := {
  gp_epoch : olp_epoch p = 0;
  gp_height : 0 <= l1c_height (olp_last_l1_block p);
  gp_reserved : 0 <= system_reserved_accts;
  gp_serials : system_reserved_accts + zlen (btree_iter (olp_accounts p)) <= U32_MAX;
  gp_size : zlen (btree_iter (olp_accounts p)) <= MAX_LEDGER_ACCOUNTS;
  gp_balances id a : olp_accounts p !! id = Some a -> in_u64 (gsd_balance a);
  gp_total : map_sum gsd_balance (olp_accounts p) <= U64_MAX;
}.

(** The genesis ledger: one fresh snark account per parameter entry, with
    serials in the order of the account ids. *)
Record genesis_state (p : OLParams) (s : LState) : Prop := {
  gst_wf : ls_wf s;
  gst_amounts : amounts_ok s;
  gst_epoch : cur_epoch s = 0;
  gst_total : total_value s = map_sum gsd_balance (olp_accounts p);
  gst_total_field : total_ledger_balance s = total_value s;
  gst_height : es_height_indexed (ls_epoch s);
  gst_l1 : es_last_l1_block (ls_epoch s) = olp_last_l1_block p;
  gst_pending : ls_pending s = [];
  gst_accts id acct : ls_accts s !! id = Some acct <->
    exists i a, btree_iter (olp_accounts p) !! i = Some (id, a) /\
      acct = genesis_account a (system_reserved_accts + Z.of_nat i);
}.

Lemma genesis_balances_sum (accounts : gmap AccountId GenesisSnarkAccountData) t base :
  (forall id acct, tbl_map t !! id = Some acct <->
     exists (i : nat) a, btree_iter accounts !! i = Some (id, a) /\ acct = genesis_account a (base + Z.of_nat i)) ->
  map_sum acct_balance (tbl_map t) = map_sum gsd_balance accounts.
Proof.
  intros Hm. rewrite (map_sum_fmap acct_balance), (map_sum_fmap gsd_balance). f_equal. apply map_eq. intros id.
  rewrite !lookup_fmap. destruct (accounts !! id) as [a|] eqn:Ha; simpl.
  - apply elem_of_btree_iter, list_elem_of_lookup in Ha as [i Hi].
    assert (tbl_map t !! id = Some (genesis_account a (base + Z.of_nat i))) as -> by (apply Hm; eauto). done.
  - destruct (tbl_map t !! id) as [acct|] eqn:Hl; [|done]. apply Hm in Hl as (i & a & Hi & _).
    apply list_elem_of_lookup_2, elem_of_btree_iter in Hi. congruence.
Qed.

(** Serials number the accounts, so no two coincide. *)
Lemma genesis_serials_nodup (accounts : gmap AccountId GenesisSnarkAccountData) t base :
  tbl_wf t ->
  (forall id acct, tbl_map t !! id = Some acct <->
     exists (i : nat) a, btree_iter accounts !! i = Some (id, a) /\ acct = genesis_account a (base + Z.of_nat i)) ->
  NoDup (map (fun e => acct_serial (ent_state e)) (tbl_accounts t)).
Proof.
  intros Hwf Hm. apply NoDup_alt. intros i j n Hi Hj. rewrite list_lookup_fmap in Hi, Hj.
  destruct (tbl_accounts t !! i) as [e1|] eqn:H1; simplify_eq/=.
  destruct (tbl_accounts t !! j) as [e2|] eqn:H2; simplify_eq/=.
  pose proof (tbl_map_lookup_entry t i e1 Hwf H1) as Hl1. pose proof (tbl_map_lookup_entry t j e2 Hwf H2) as Hl2.
  apply Hm in Hl1 as (i1 & a1 & Hi1 & He1). apply Hm in Hl2 as (i2 & a2 & Hi2 & He2).
  rewrite He1, He2 in Hj. simpl in Hj. assert (i1 = i2) as -> by lia. rewrite Hi1 in Hi2.
  assert (Hid : ent_id e1 = ent_id e2) by congruence.
  destruct (Nat.lt_trichotomy i j) as [Hlt|[Heq|Hlt]]; [|done|].
  - pose proof (tbl_entries_ordered t i j e1 e2 Hwf H1 H2 Hlt). lia.
  - pose proof (tbl_entries_ordered t j i e2 e1 Hwf H2 H1 Hlt). lia.
Qed.

Lemma calculate_total_funds_ok {E} t :
  tbl_wf t -> (forall id acct, tbl_map t !! id = Some acct -> in_u64 (acct_balance acct)) ->
  map_sum acct_balance (tbl_map t) <= U64_MAX ->
  calculate_total_funds (E := E) t = Ok (map_sum acct_balance (tbl_map t)).
Proof.
  intros Hwf Hin Hle. rewrite tbl_map_sum in * by done. unfold calculate_total_funds, tbl_total in *.
  assert (Hall : Forall in_u64 (map (fun e => acct_balance (ent_state e)) (tbl_accounts t))).
  { apply Forall_forall. intros b Hb. apply list_elem_of_fmap in Hb as (e & -> & He).
    apply list_elem_of_lookup in He as [i Hi]. eapply Hin. by eapply tbl_map_lookup_entry. }
  destruct (try_fold_amounts _ _ _) as [t0|] eqn:Hf.
  - apply try_fold_amounts_some in Hf as [-> _]; [|unfold in_u64, U64_MAX; lia|done]. done.
  - apply try_fold_amounts_none in Hf; [|unfold in_u64, U64_MAX; lia|done]. lia.
Qed.

Lemma from_genesis_params_ok {E} p :
  genesis_params_ok p ->
  exists s m, from_genesis_params p = Ok s /\ MemoryStateBaseLayer_new (E := E) s = Ok m /\
    exists a, mem_refines m a /\ genesis_state p a.
Proof.
  intros [He Hh Hr0 Hs Hsz Hb Ht].
  destruct (genesis_accounts_run (btree_iter (olp_accounts p)) system_reserved_accts
    TsnlLedgerAccountsTable_new_empty) as (t & Hrun & Hwf & Hlen & Hm); try done.
  { constructor. } { apply btree_iter_NoDup. }
  assert (Hm' : forall id acct, tbl_map t !! id = Some acct <-> exists (i : nat) a,
    btree_iter (olp_accounts p) !! i = Some (id, a) /\ acct = genesis_account a (system_reserved_accts + Z.of_nat i)).
  { intros id acct. rewrite Hm. split; [intros [Hl|?]; [done|done]|by right]. }
  clear Hm. pose proof (genesis_balances_sum _ _ _ Hm') as Hsum.
  assert (Hin : forall id acct, tbl_map t !! id = Some acct -> in_u64 (acct_balance acct)).
  { intros id acct Hl. apply Hm' in Hl as (i & a & Hi & ->). apply list_elem_of_lookup_2, elem_of_btree_iter in Hi.
    by eapply Hb. }
  unfold from_genesis_params. cbv zeta. rewrite Hrun. simpl.
  rewrite (calculate_total_funds_ok t) by (try done; by rewrite Hsum). simpl.
  eexists. destruct (MemoryStateBaseLayer_new_refines (E := E)
    {| ol_epoch := {| es_total_ledger_funds := map_sum acct_balance (tbl_map t); es_cur_epoch := olp_epoch p;
         es_last_l1_block := olp_last_l1_block p; es_checkpointed_epoch := checkpointed_epoch p;
         es_l1_block_refs_mmr := mmr_new_repeated MMR_SENTINEL_DUMMY_LEAF (l1c_height (olp_last_l1_block p) + 1) |};
       ol_global := GlobalState_new (olp_slot p) (system_reserved_accts + zlen (btree_iter (olp_accounts p)));
       ol_intraepoch := {| is_pending_asm_logs := [] |}; ol_ledger := t |}) as (m & Hnew & Hms & Href); simpl; try done.
  - by eapply genesis_serials_nodup.
  - intros id acct Hl. apply Hm' in Hl as (i & a & Hi & ->). apply lookup_lt_Some in Hi. unfold zlen. simpl. lia.
  - unfold in_u32. pose proof (zlen_nonneg (btree_iter (olp_accounts p))). lia.
  - rewrite Hlen. unfold zlen at 1. simpl. lia.
  - exists m. split_and!; [done|done|]. eexists. split; [exact Href|].
    split; [apply (mr_wf _ _ Href)|split; simpl; [unfold in_u64, U64_MAX; lia|done]|done| | | |done|done|done].
    + unfold total_value. simpl. lia.
    + unfold total_value. simpl. lia.
    + unfold es_height_indexed. simpl. apply mmr_repeated_entries; [done|lia].
Qed.

(** ** The genesis block *)

Definition genesis_context (p : OLParams) : BlockContext :=
  {| bc_block_info := BlockInfo_new_genesis (olp_timestamp p); bc_parent_header := None |}.
Definition genesis_components : BlockComponents :=
  {| bcs_tx_segment := []; bcs_manifest_container := Some []; bcs_is_terminal := true |}.

(** The state after the genesis block: slot zero, epoch one. *)
Definition after_genesis (a : LState) : LState :=
  ls_set_epoch (ls_set_pending (at_slot a 0) []) (es_set_cur_epoch (ls_epoch a) 1).

Lemma genesis_construct_run p bp (a : LState) :
  cur_epoch a = 0 -> ls_pending a = [] ->
  exists out, construct_block (genesis_context p) genesis_components bp a = (Ok out, after_genesis a) /\
    beo_logs (cbo_outputs out) = [] /\
    hdr_slot (cb_header (cbo_completed_block out)) = 0 /\
    hdr_epoch (cb_header (cbo_completed_block out)) = 0 /\
    hdr_is_terminal (cb_header (cbo_completed_block out)) = true.
Proof.
  destruct a as [[tf ce l1 ck mmr] [sl ns lf] pend accts serials]. simpl. intros -> ->.
  eexists. split; [reflexivity|]. done.
Qed.

Context `{!EnvelopeLaws X}.

(** C35: genesis always succeeds on well-formed parameters.  The ledger it starts
    from is well formed and holds exactly the configured accounts and balances;
    the block it builds passes verification on it as a genesis block, without
    logs; and the resulting state sits on top of the genesis header, in epoch
    one. *)
Theorem build_genesis_artifacts_valid p :
  genesis_params_ok p ->
  exists g m0 m1 a0 a1,
    build_genesis_artifacts p = Ok g /\
    mem_refines m0 a0 /\ genesis_state p a0 /\
    verify_block (blk_header (ga_ol_block g)) None (blk_body (ga_ol_block g)) (olp_bridge_params p) m0
      = (Ok [], m1) /\
    mem_state m1 = ga_ol_state g /\ mem_refines m1 a1 /\
    on_top a1 (blk_header (ga_ol_block g)) /\ cur_epoch a1 = 1 /\
    total_value a1 = map_sum gsd_balance (olp_accounts p).
Proof.
  intros Hp. destruct (from_genesis_params_ok (E := GenesisError) p Hp) as (s & m0 & Hs & Hm & a0 & Hr & Hg).
  destruct (genesis_construct_run p (olp_bridge_params p) a0) as (out & Hrun & Hlogs & Hsl & Hep & Hterm);
    [apply Hg|apply Hg|].
  destruct (construct_block_sim mem_refines (genesis_context p) genesis_components (olp_bridge_params p) m0 a0 Hr)
    as [Hres Hst].
  rewrite Hrun in Hres, Hst. simpl in Hres.
  destruct (construct_block _ _ _ m0) as [r m1] eqn:Hc. simpl in Hres, Hst. subst r.
  specialize (Hst ltac:(done)).
  pose proof (construct_block_run (genesis_context p) genesis_components (olp_bridge_params p) m0 out m1 eq_refl Hc) as Hv.
  cbv zeta in Hv. rewrite Hlogs in Hv.
  unfold build_genesis_artifacts. rewrite Hs. cbn [res_map_err res_bind]. rewrite Hm. cbn [res_bind].
  change (BlockComponents_new_manifests (E := GenesisError) []) with (Ok (E := GenesisError)
    {| bcs_tx_segment := []; bcs_manifest_container := Some []; bcs_is_terminal := false |}).
  cbn [res_bind]. change (BlockContext_new (E := GenesisError) (BlockInfo_new_genesis (olp_timestamp p)) None)
    with (Ok (E := GenesisError) (genesis_context p)). cbn [res_bind].
  change (as_terminal _) with genesis_components.
  unfold execute_and_complete_block. rewrite (mbind_ok _ _ _ _ _ Hc). unfold mret.
  eexists _, m0, m1, a0, (after_genesis a0).
  split_and!; [reflexivity|done|done|exact Hv|done|done| |done|].
  - split; simpl; by rewrite ?Hsl, ?Hep, ?Hterm.
  - rewrite <- (gst_total _ _ Hg). done.
Qed.
End genesis.
