(* ===== verification/StfSafety.v ===== *)
(** * Transaction segments never panic

    The [expect]s and the linear coins of transaction processing are justified:
    on transactions within their wire bounds, over a ledger whose value fits 64
    bits and whose inboxes have room, processing a segment ends in success or an
    error, never in a panic.  In particular the debited coin always covers the
    effects and is used up exactly, and no credit overflows. *)

From S2P Require Import Prelude SortedMap Identifiers AcctTypes ChainTypes Externals.
From S2P Require Import LedgerTypes Bridge OLAccount OLState StateAccessor LedgerSpec SnarkSys.
From S2P Require Import StfContext StfTx StfManifests StfBlock.
From S2P Require Import StfSim StfAgreement StfLedger StfUpdates StfManifestSpec.
From S2P Require Import StfValue.

(** ** Computations that do not panic *)

Definition safe {E S A} (m : M E S A) (s : S) : Prop := fst (m s) <> Panic.

Section safe.
Context {E S : Type}.

Lemma safe_mbind {A B} (m : M E S A) (k : A -> M E S B) s :
  safe m s -> (forall a s', m s = (Ok a, s') -> safe (k a) s') -> safe (mbind m k) s.
Proof. intros Hm Hk. unfold safe, mbind in *. destruct (m s) as [[a|e|] s']; simpl in *; [by apply Hk|done..]. Qed.

Lemma safe_mret {A} (a : A) (s : S) : safe (E := E) (mret a) s.
Proof. done. Qed.

Lemma safe_mlift {A} (r : res E A) (s : S) : r <> Panic -> safe (mlift r) s.
Proof. done. Qed.

Lemma safe_mmap_err {F A} (f : E -> F) (m : M E S A) s : safe m s -> safe (mmap_err f m) s.
Proof. unfold safe, mmap_err. by destruct (m s) as [[] ?]. Qed.

Lemma safe_miter {A} (f : A -> M E S unit) l s : (forall x s, safe (f x) s) -> safe (miter f l) s.
Proof. intros Hf. revert s. induction l as [|x l IH]; intros s; simpl; [done|]. apply safe_mbind; auto. Qed.
End safe.

Lemma ok_or_safe {E A} (o : option A) (e : E) : ok_or o e <> Panic.
Proof. by destruct o. Qed.

Lemma safe_mreads_ok_or {E S A} (f : S -> option A) (e : E) s : safe (mreads_res (fun s => ok_or (f s) e)) s.
Proof. unfold safe, mreads_res. apply ok_or_safe. Qed.

#[export] Hint Resolve ok_or_safe safe_mret safe_mreads_ok_or : core.

(** ** The update checks *)

Section checks.
Context `{X : Ext}.

Lemma pvi_inbox_safe claim v : safe (pvi_verify_inbox_mmr_proof_next claim) v.
Proof.
  unfold pvi_verify_inbox_mmr_proof_next. apply safe_mbind; [auto|].
  intros mmr v' _. unfold verify_next_mmr_proof. apply safe_mbind; [auto|].
  intros p v'' _. case_match; [done|]. unfold safe, on_tracker, inc_next_acc_proof. by destruct (_ =? _)%nat.
Qed.

Lemma pvi_l1_safe claim v : safe (pvi_verify_l1_block_ref_mmr_proof_next claim) v.
Proof.
  unfold pvi_verify_l1_block_ref_mmr_proof_next. apply safe_mbind; [done|].
  intros mmr v' _. unfold verify_next_mmr_proof. apply safe_mbind; [auto|].
  intros p v'' _. case_match; [done|]. unfold safe, on_tracker, inc_next_acc_proof. by destruct (_ =? _)%nat.
Qed.

Lemma pvi_pred_safe claim v : safe (pvi_verify_local_predicate_next claim) v.
Proof.
  unfold pvi_verify_local_predicate_next. apply safe_mbind; [auto|].
  intros k v' _. apply safe_mbind; [auto|].
  intros p v'' _. case_match; [done|]. unfold safe, on_tracker, inc_next_pred_proof. by destruct (_ =? _)%nat.
Qed.

Lemma verify_inbox_from_safe target idx msgs (v : TxProofVerifierImpl) : safe (verify_inbox_from target idx msgs) v.
Proof.
  revert idx v. induction msgs as [|m msgs IH]; intros idx v; simpl; [done|].
  apply safe_mbind; [apply safe_mmap_err, pvi_inbox_safe|]. intros [] v' _. case_match; [apply IH|done].
Qed.

(** Within the wire bounds the claim of an update can be built. *)
Lemma compute_update_claim_safe {E} s op fx u :
  effects_bounded fx -> operation_bounded op ->
  build_snark_acct_update_data (E := E) op fx = Ok u -> compute_update_claim (E := E) s u <> Panic.
Proof.
  intros (Ht & Hm & _) (_ & _ & He & Hmsg & _). unfold build_snark_acct_update_data.
  destruct (convert_sau_ledger_refs _); simpl; [|done..]. intros [= <-].
  unfold compute_update_claim, effects_to_update_outputs, UpdateOutputs_with_transfers, UpdateOutputs_with_messages,
    UpdateProofPubParams_new. simpl.
  assert (Hzt : forall A B (f : A -> B) l, zlen (map f l) = zlen l) by (intros; unfold zlen; by rewrite length_map).
  rewrite !Hzt.
  rewrite (proj2 (Z.leb_le (zlen (transfers_iter fx)) OUT_MAX_TRANSFERS))
    by (etransitivity; [exact Ht|vm_compute; discriminate]).
  simpl. rewrite (proj2 (Z.leb_le (zlen (messages_iter fx)) OUT_MAX_MESSAGES))
    by (etransitivity; [exact Hm|vm_compute; discriminate]).
  simpl. rewrite (proj2 (Z.leb_le (zlen (sod_messages op)) MAX_PROCESSED_MESSAGES)) by exact Hmsg.
  rewrite (proj2 (Z.leb_le (zlen (sud_extra_data (sod_update_data op))) MAX_EXTRA_DATA_BYTES)) by exact He.
  done.
Qed.

Lemma verify_snark_acct_update_proofs_safe target acct op fx (v : TxProofVerifierImpl) :
  effects_bounded fx -> operation_bounded op ->
  safe (verify_snark_acct_update_proofs target acct op fx) v.
Proof.
  intros Hfx Hop. unfold verify_snark_acct_update_proofs.
  apply safe_mbind; [by unfold safe, mlift, as_snark_account; case_match|]. intros sa v1 _.
  apply safe_mbind.
  { unfold safe, mlift, build_snark_acct_update_data, convert_sau_ledger_refs, LedgerRefs_new_empty, LedgerRefs_new.
    destruct Hop as (_ & _ & _ & _ & Hc). unfold sau_claims in Hc.
    destruct (slr_l1_block_ref_claims _); simpl; [|done].
    rewrite (proj2 (Z.leb_le _ _)) by (etransitivity; [exact Hc|vm_compute; discriminate]). done. }
  intros u v2 Hu. unfold mlift in Hu. injection Hu as Hu <-.
  unfold verify_update_correctness.
  apply safe_mbind; [by unfold safe, mlift, verify_seq_no; case_match|]. intros [] v3 _.
  apply safe_mbind.
  { unfold safe, mlift, verify_message_index. destruct (checked_add_u64 _ _); simpl; [by case_match|done]. }
  intros [] v4 _. apply safe_mbind; [apply safe_miter; intros; apply safe_mmap_err, pvi_l1_safe|]. intros [] v5 _.
  apply safe_mbind; [apply verify_inbox_from_safe|]. intros [] v6 _.
  unfold verify_update_proof. apply safe_mbind; [by eapply safe_mlift, compute_update_claim_safe|].
  intros claim v7 _. apply safe_mmap_err, pvi_pred_safe.
Qed.
End checks.

(** ** Delivery *)

Section delivery.
Context `{XR : ExtRoot} `{!AmountLaws X, !MmrLaws X, !MmrCapacity X, !LogCodecLaws X}.

(** Every inbox has room for [n] more messages. *)
Definition inbox_room (n : Z) (s : LState) : Prop :=
  forall id acct sa, ls_accts s !! id = Some acct -> acct_state acct = TySnark sa ->
    mmr_num_entries (sas_inbox_mmr sa) + n <= U64_MAX.

Lemma inbox_room_mono n n' s : n' <= n -> inbox_room n s -> inbox_room n' s.
Proof. intros Hle Hr id acct sa Hl Hs. specialize (Hr _ _ _ Hl Hs). lia. Qed.

Lemma inbox_room_update n s id acct' :
  inbox_room n s ->
  (forall sa, acct_state acct' = TySnark sa -> mmr_num_entries (sas_inbox_mmr sa) + n <= U64_MAX) ->
  inbox_room n (ls_set_accts s (<[id := acct']> (ls_accts s))).
Proof.
  intros Hr Ha id' acct sa Hl Hs. simpl in Hl.
  apply lookup_insert_Some in Hl as [[-> ->]|[_ Hl]]; [by apply Ha|by eapply Hr].
Qed.

Lemma lift_exec_safe {A} (m : M ExecError LState A) x : safe m (xs_state x) -> safe (lift_exec m) x.
Proof. unfold safe, lift_exec. by destruct (m (xs_state x)). Qed.

Lemma emit_typed_log_safe serial enc (x : XState LState) : enc <> Panic -> safe (emit_typed_log serial enc) x.
Proof.
  intros He. unfold emit_typed_log. apply safe_mbind; [by unfold safe, mlift; destruct enc|].
  intros body x' _. unfold safe, emit_log, emit_logs, buffer_emit_logs. by destruct (_ <? _).
Qed.

Lemma update_account_exec_safe {A} id (f : M ExecError OLAccountState A) (s : LState) :
  (forall acct, ls_accts s !! id = Some acct -> safe f acct) -> safe (update_account_exec id f) s.
Proof.
  intros Hf. unfold safe, update_account_exec, mbind, mmap_err. simpl.
  destruct (ls_accts s !! id) as [acct|] eqn:Hl; [|done]. specialize (Hf acct eq_refl). unfold safe in Hf.
  unfold run_account. by destruct (f acct) as [[] ?].
Qed.

Lemma handle_misplaced_funds_safe c (s : LState) : safe (handle_misplaced_funds c) s.
Proof. apply safe_mmap_err. unfold safe. simpl. by destruct (amt_checked_add _ _). Qed.

(** Balances are part of the total. *)
Lemma balance_le_total s id acct : amounts_ok s -> ls_accts s !! id = Some acct -> acct_balance acct <= total_value s.
Proof.
  intros [Hl Ha] Hlk. unfold total_value.
  assert (map_Forall (fun _ v => 0 <= acct_balance v) (ls_accts s)) as Hall.
  { intros id' a' Hl'. apply Ha in Hl'. unfold in_u64 in Hl'. lia. }
  pose proof (map_sum_lookup_le acct_balance _ _ _ Hall Hlk). unfold in_u64 in Hl. lia.
Qed.

Lemma credit_account_safe target c post (s : LState) :
  amounts_ok s -> 0 <= coin_amt c -> total_value s + coin_amt c <= U64_MAX ->
  (forall acct b, ls_accts s !! target = Some acct -> safe post (acct_with_balance acct b)) ->
  safe (credit_account target c post) s.
Proof.
  intros Hok Hc Hle Hpost. apply update_account_exec_safe. intros acct Hl.
  pose proof (balance_le_total s target acct Hok Hl) as Hb. pose proof (ao_accts s Hok _ _ Hl) as Hin.
  unfold in_u64 in Hin. apply safe_mbind.
  - unfold safe. simpl. unfold add_balance. rewrite amt_add_fits; [done|..]; unfold in_u64; lia.
  - intros [] a' Ha. simpl in Ha. unfold add_balance in Ha. destruct (amt_checked_add _ _); simplify_eq. by apply Hpost.
Qed.

Lemma deliver_to_account_safe ctx sender record acct :
  (forall sa, acct_state acct = TySnark sa -> mmr_num_entries (sas_inbox_mmr sa) < U64_MAX) ->
  safe (deliver_to_account ctx sender record) acct.
Proof.
  intros Hr. unfold safe, deliver_to_account. simpl. destruct (acct_state acct) as [|sa]; [done|].
  unfold on_snark_account, handle_snark_account_message, handle_snark_msg. simpl. unfold insert_inbox_message.
  edestruct (mmr_add_leaf_capacity (sas_inbox_mmr sa)) as [m' ->]; [by apply Hr|]. done.
Qed.

Lemma process_transfer_safe target c (x : XState LState) :
  amounts_ok (xs_state x) -> 0 <= coin_amt c -> total_value (xs_state x) + coin_amt c <= U64_MAX ->
  safe (process_transfer target c) x.
Proof.
  intros Hok Hc Hle. apply lift_exec_safe. case_match; [apply handle_misplaced_funds_safe|].
  apply safe_mbind; [done|]. intros e s' He. unfold mreads_res in He. injection He as _ <-.
  destruct e; [|apply handle_misplaced_funds_safe]. by apply credit_account_safe.
Qed.

Lemma process_message_safe ctx sender target msg (x : XState LState) :
  amounts_ok (xs_state x) -> 0 <= mpc_coin_amt msg -> total_value (xs_state x) + mpc_coin_amt msg <= U64_MAX ->
  inbox_room 1 (xs_state x) ->
  safe (process_message ctx sender target msg) x.
Proof.
  intros Hok Hc Hle Hr. unfold process_message, handle_bridge_gateway_message. case_match.
  - case_match; [apply emit_typed_log_safe, withdrawal_log_encode_total|].
    apply lift_exec_safe, handle_misplaced_funds_safe.
  - apply lift_exec_safe. apply safe_mbind; [done|]. intros e s' He. unfold mreads_res in He. injection He as _ <-.
    destruct e; [|apply handle_misplaced_funds_safe]. simpl.
    apply credit_account_safe; [done..|]. intros acct b Hl. apply deliver_to_account_safe.
    intros sa Hs. specialize (Hr _ _ _ Hl Hs). lia.
Qed.

(** ** Room is used up by messages only *)

Lemma handle_misplaced_funds_accts c (s s' : LState) :
  handle_misplaced_funds c s = (Ok tt, s') -> ls_accts s' = ls_accts s.
Proof.
  intros H. apply mmap_err_returns in H. simpl in H. destruct (amt_checked_add _ _); by simplify_eq.
Qed.

Lemma inbox_room_accts n s s' : ls_accts s' = ls_accts s -> inbox_room n s -> inbox_room n s'.
Proof. intros He Hr id acct sa. rewrite He. apply Hr. Qed.

Lemma process_transfer_room n target c (x x' : XState LState) :
  inbox_room n (xs_state x) -> process_transfer target c x = (Ok tt, x') -> inbox_room n (xs_state x').
Proof.
  intros Hr H. apply lift_exec_returns in H as (s' & H & ->). simpl.
  case_match; [eapply inbox_room_accts; [eapply handle_misplaced_funds_accts; exact H|exact Hr]|].
  apply mbind_returns in H as (e & ? & He & H). unfold mreads_res in He. injection He as _ <-.
  destruct e; [|eapply inbox_room_accts; [eapply handle_misplaced_funds_accts; exact H|exact Hr]].
  apply update_account_exec_returns in H as (acct & acct' & Hl & Hf & ->). apply inbox_room_update; [done|].
  apply mbind_returns in Hf as ([] & a1 & Ha & Hf). unfold mret in Hf. simplify_eq.
  simpl in Ha. unfold add_balance in Ha. destruct (amt_checked_add _ _); simplify_eq. simpl. intros sa Hs. by eapply Hr.
Qed.

Lemma process_message_room n ctx sender target msg (x x' : XState LState) :
  inbox_room (n + 1) (xs_state x) -> process_message ctx sender target msg x = (Ok tt, x') ->
  inbox_room n (xs_state x').
Proof.
  intros Hr H. assert (Hn : inbox_room n (xs_state x)) by (eapply inbox_room_mono, Hr; lia).
  unfold process_message, handle_bridge_gateway_message in H. case_match.
  - case_match; [by apply emit_typed_log_returns in H as (? & _ & -> & _)|].
    apply lift_exec_returns in H as (s' & H & ->). eapply inbox_room_accts; [eapply handle_misplaced_funds_accts; exact H|exact Hn].
  - apply lift_exec_returns in H as (s' & H & ->). simpl.
    apply mbind_returns in H as (e & ? & He & H). unfold mreads_res in He. injection He as _ <-.
    destruct e; [|eapply inbox_room_accts; [eapply handle_misplaced_funds_accts; exact H|exact Hn]]. simpl in H.
    apply update_account_exec_returns in H as (acct & acct' & Hl & Hf & ->). apply inbox_room_update; [done|].
    apply mbind_returns in Hf as ([] & a1 & Ha & Hf). simpl in Ha. unfold add_balance in Ha.
    destruct (amt_checked_add _ _) as [b|]; simplify_eq. unfold deliver_to_account in Hf. simpl in Hf.
    destruct (acct_state acct) as [|sa0] eqn:Hs0.
    { simplify_eq. simpl. intros sa Hs. congruence. }
    unfold on_snark_account, handle_snark_account_message, handle_snark_msg in Hf. simpl in Hf.
    unfold insert_inbox_message in Hf.
    destruct (mmr_add_leaf _ _) as [m'|] eqn:Hm; simplify_eq. apply mmr_add_leaf_entries in Hm; [|apply thr_message_entry_nonzero].
    simpl. intros sa [= <-]. simpl. specialize (Hr _ _ _ Hl Hs0). lia.
Qed.

(** ** Distributing the debited coin *)

Lemma split_effect_value_safe c v :
  in_u64 (coin_amt c) -> in_u64 v -> v <= coin_amt c -> split_effect_value c v <> Panic.
Proof. intros Hc Hv Hle. unfold split_effect_value, Coin_split_out. by rewrite amt_sub_fits. Qed.

Lemma distribute_transfers_safe ts c (x : XState LState) :
  amounts_ok (xs_state x) -> in_u64 (coin_amt c) -> Forall in_u64 (map st_value ts) ->
  total_value (xs_state x) + coin_amt c <= U64_MAX -> zsum (map st_value ts) <= coin_amt c ->
  safe (distribute_transfers ts c) x.
Proof.
  revert c x. induction ts as [|t ts IH]; intros c x Hok Hc Hall Htot Hsum; cbn [distribute_transfers]; [done|].
  cbn [map] in *. apply Forall_cons in Hall as [Hv Hall]. unfold zsum in *. cbn [fold_right] in *.
  assert (0 <= fold_right Z.add 0 (map st_value ts)).
  { apply zsum_nonneg. eapply Forall_impl; [exact Hall|]. unfold in_u64. lia. }
  apply safe_mbind; [apply safe_mlift, split_effect_value_safe; [done..|lia]|]. intros [coin rest] x1 Hs.
  unfold mlift in Hs. injection Hs as Hs <-. apply split_effect_value_ok in Hs as (Hcoin & Hrest & Hin); [|done..].
  assert (Hcin : in_u64 (coin_amt coin)) by (by rewrite Hcoin). unfold in_u64 in *.
  apply safe_mbind; [apply process_transfer_safe; [done|lia|lia]|]. intros [] x2 Ht.
  apply process_transfer_value in Ht as (Hok2 & Hv2 & _); [|done|by unfold in_u64]. apply IH; try done; lia.
Qed.

Lemma distribute_transfers_room n ts c c' (x x' : XState LState) :
  inbox_room n (xs_state x) -> distribute_transfers ts c x = (Ok c', x') -> inbox_room n (xs_state x').
Proof.
  revert c x. induction ts as [|t ts IH]; intros c x Hr H; cbn [distribute_transfers] in H; [by minv|].
  apply mbind_returns in H as ([coin rest] & ? & Hs & H). unfold mlift in Hs. injection Hs as _ <-.
  apply mbind_returns in H as ([] & x1 & Ht & H). eapply IH, H. by eapply process_transfer_room.
Qed.

Lemma distribute_messages_safe ctx source ms c (x : XState LState) :
  amounts_ok (xs_state x) -> in_u64 (coin_amt c) -> Forall in_u64 (map (fun m => mp_value (sm_payload m)) ms) ->
  total_value (xs_state x) + coin_amt c <= U64_MAX ->
  zsum (map (fun m => mp_value (sm_payload m)) ms) <= coin_amt c ->
  inbox_room (zlen ms) (xs_state x) ->
  safe (distribute_messages ctx source ms c) x.
Proof.
  revert c x. induction ms as [|m ms IH]; intros c x Hok Hc Hall Htot Hsum Hr; cbn [distribute_messages]; [done|].
  cbn [map] in *. apply Forall_cons in Hall as [Hv Hall]. unfold zsum in *. cbn [fold_right] in *.
  assert (0 <= fold_right Z.add 0 (map (fun m => mp_value (sm_payload m)) ms)).
  { apply zsum_nonneg. eapply Forall_impl; [exact Hall|]. unfold in_u64. lia. }
  apply safe_mbind; [apply safe_mlift, split_effect_value_safe; [done..|lia]|]. intros [coin rest] x1 Hs.
  unfold mlift in Hs. injection Hs as Hs <-. apply split_effect_value_ok in Hs as (Hcoin & Hrest & Hin); [|done..].
  autorewrite with zlen in Hr. pose proof (zlen_nonneg ms). unfold in_u64 in *.
  apply safe_mbind.
  { apply process_message_safe; unfold mpc_coin_amt; simpl; [done|lia|lia|eapply inbox_room_mono, Hr; lia]. }
  intros [] x2 Ht. pose proof (process_message_room _ _ _ _ _ _ _ Hr Ht) as Hr2.
  apply process_message_value in Ht as (Hok2 & Hv2 & _); [|done..].
  assert (0 <= withdrawn ctx [m]) by (apply withdrawn_nonneg; constructor; [done|constructor]).
  apply IH; try done; lia.
Qed.

Lemma debit_source_room n source amt c (s s' : LState) :
  inbox_room n s -> debit_source source amt s = (Ok c, s') -> inbox_room n s'.
Proof.
  intros Hr. unfold debit_source. case_match; intros H'; [by minv|].
  apply update_account_exec_returns in H' as (acct & acct' & Hl & Hf & ->). apply inbox_room_update; [done|].
  apply mmap_err_returns in Hf. simpl in Hf. unfold take_balance in Hf. destruct (amt_checked_sub _ _); simplify_eq.
  simpl. intros sa Hs. by eapply Hr.
Qed.

(** Applying effects never panics: the single debit covers all effects and is
    used up exactly. *)
Lemma apply_tx_effects_safe ctx source fx (x : XState LState) :
  amounts_ok (xs_state x) -> effects_bounded fx -> total_value (xs_state x) <= U64_MAX ->
  inbox_room (zlen (messages_iter fx)) (xs_state x) ->
  safe (apply_tx_effects ctx source fx) x.
Proof.
  intros Hok (_ & _ & Hall) Htot Hr. unfold apply_tx_effects, distribute_effects.
  apply safe_mbind; [by apply safe_mlift|]. intros t x0 Ht. unfold mlift in Ht. injection Ht as Ht <-.
  destruct (get_total_value_sent fx) as [t'|] eqn:Hsum; simplify_eq/=.
  apply try_fold_amounts_some in Hsum as [Ht Htin]; [|unfold in_u64, U64_MAX; lia|done].
  unfold effect_values in Ht. rewrite zsum_app in Ht.
  apply Forall_app in Hall as [Hall1 Hall2].
  apply safe_mbind.
  { apply lift_exec_safe. unfold debit_source. case_match; [done|]. apply update_account_exec_safe. intros acct _.
    apply safe_mmap_err. unfold safe. simpl. unfold take_balance. by case_match. }
  intros c0 x1 Hd. apply lift_exec_returns in Hd as (s1 & Hd & ->).
  pose proof (debit_source_room _ _ _ _ _ _ Hr Hd) as Hr1.
  apply debit_source_value in Hd as (Hok1 & Hc0 & Hv1); [|done..].
  assert (Hn1 : 0 <= zsum (map st_value (transfers_iter fx))).
  { apply zsum_nonneg. eapply Forall_impl; [exact Hall1|]. unfold in_u64. lia. }
  assert (Hn2 : 0 <= zsum (map (fun m => mp_value (sm_payload m)) (messages_iter fx))).
  { apply zsum_nonneg. eapply Forall_impl; [exact Hall2|]. unfold in_u64. lia. }
  assert (Hc0in : in_u64 (coin_amt c0)) by (by rewrite Hc0).
  apply safe_mbind.
  - apply safe_mbind; [apply distribute_transfers_safe; simpl; try done; lia|]. intros c1 x2 Htr.
    pose proof (distribute_transfers_room (zlen (messages_iter fx)) _ _ _
      {| xs_state := s1; xs_out := xs_out x |} _ Hr1 Htr) as Hr2.
    pose proof (distribute_transfers_coin _ _ _ _ _ Hc0in Hall1 Htr) as Hc1.
    apply distribute_transfers_value in Htr as (Hok2 & Hc1in & _ & Hv2); [|done..]. simpl in Hv2.
    apply distribute_messages_safe; try done; lia.
  - intros c2 x3 Hd. apply mbind_returns in Hd as (c1 & x2 & Htr & Hms).
    pose proof (distribute_transfers_coin _ _ _ _ _ Hc0in Hall1 Htr) as Hc1.
    apply distribute_transfers_value in Htr as (Hok2 & Hc1in & _ & _); [|done..].
    pose proof (distribute_messages_coin _ _ _ _ _ _ _ Hc1in Hall2 Hms) as Hc2.
    apply safe_mlift. unfold Coin_consume_zero. rewrite (proj2 (Z.eqb_eq _ _)) by lia. done.
Qed.

(** ** Transactions *)

Lemma write_update_safe target upd sa : safe (write_update target upd) sa.
Proof.
  unfold write_update. apply safe_mbind; [by apply safe_mlift|]. intros n sa1 _.
  apply safe_mbind; [done|]. intros [] sa2 _. repeat case_match; done.
Qed.

Lemma process_update_tx_safe sau fx proofs ctx (x : XState LState) :
  effects_bounded fx -> operation_bounded (sau_operation_data sau) ->
  safe (process_update_tx sau fx proofs ctx) x.
Proof.
  intros Hfx Hop. unfold process_update_tx. apply safe_mbind.
  { apply lift_exec_safe. unfold safe, mreads_res, check_update_tx. simpl.
    destruct (ls_accts _ !! _) as [acct|]; simpl; [|done].
    assert (Hsafe : verify_effects_safe fx (xs_state x) acct <> Panic).
    { unfold verify_effects_safe. generalize 0 as t. generalize (effect_outputs fx) as l.
      induction l as [|[dest amt] l IH]; intros t; simpl; [by case_match|].
      destruct (acct_is_special dest); simpl; [|destruct (ls_accts _ !! dest); simpl; [|done]].
      all: destruct (amt_checked_add t amt); simpl; [apply IH|done]. }
    destruct (verify_effects_safe _ _ _) as [[]| |]; simpl; [|done..].
    pose proof (verify_snark_acct_update_proofs_safe (sau_target sau) acct (sau_operation_data sau) fx
      {| pvi_state_ctx := from_account_and_state (xs_state x) acct; pvi_proof_tracker := from_txproofs proofs |}
      Hfx Hop) as Hv. unfold safe in Hv. unfold run_verifier.
    destruct (verify_snark_acct_update_proofs _ _ _ _ _) as [[[]| |] v']; simpl in *; [by case_match|done..]. }
  intros acct x1 Hc. apply lift_exec_returns in Hc as (s1 & Hc & ->). unfold mreads_res in Hc. injection Hc as Hc <-.
  apply check_update_tx_ok in Hc as (Hget & _ & sa & Hst & Hacc). simpl in Hget. injection Hget as Hget.
  apply safe_mbind.
  { apply lift_exec_safe, update_account_exec_safe. simpl. intros acct' Hl. rewrite Hget in Hl. simplify_eq.
    unfold safe, write_update_account, on_snark_account. simpl. rewrite Hst. simpl.
    pose proof (write_update_safe (sau_target sau) (sod_update_data (sau_operation_data sau)) sa) as Hw.
    unfold safe in Hw. by destruct (write_update _ _ _). }
  intros [] x2 _. apply safe_mbind.
  { apply safe_mlift. unfold get_log_data. destruct Hop as (_ & _ & He & _).
    destruct (sau_log_new_bounded (sps_new_next_msg_idx (sud_proof_state (sod_update_data (sau_operation_data sau))))
      _ He) as [l ->]. done. }
  intros log x3 _. apply emit_typed_log_safe, sau_log_encode_total.
Qed.

Lemma process_update_tx_room n sau fx proofs ctx (x x' : XState LState) :
  inbox_room n (xs_state x) -> process_update_tx sau fx proofs ctx x = (Ok tt, x') -> inbox_room n (xs_state x').
Proof.
  intros Hr H. apply process_update_tx_returns in H as (acct & sa & sa' & log & Hl & Hs & _ & (_ & _ & Hi & _) & -> & _).
  apply inbox_room_update; [done|]. simpl. intros sa0 [= <-]. rewrite Hi. by eapply Hr.
Qed.

Lemma process_single_tx_safe tx ctx (x : XState LState) :
  amounts_ok (xs_state x) -> tx_bounded tx -> total_value (xs_state x) <= U64_MAX ->
  inbox_room (zlen (messages_iter (txd_effects (tx_data tx)))) (xs_state x) ->
  safe (process_single_tx tx ctx) x.
Proof.
  intros Hok [Hfx Hp] Htot Hr. unfold process_single_tx.
  apply safe_mbind.
  { apply lift_exec_safe. unfold safe, mreads_res, check_tx_constraints. simpl. by repeat case_match. }
  intros [] x0 Hc. apply lift_exec_returns in Hc as (s1 & Hc & ->). unfold mreads_res in Hc. injection Hc as _ <-.
  destruct x as [s o]. simpl in *. destruct (txd_payload (tx_data tx)) as [gam|sau].
  - apply safe_mbind.
    { apply safe_mbind; [|done]. apply safe_mlift. unfold verify_gam_tx. by repeat case_match. }
    intros src x1 Hsrc. apply mbind_returns in Hsrc as (? & ? & ? & Hsrc). unfold mlift, mret in *. simplify_eq.
    by apply apply_tx_effects_safe.
  - apply safe_mbind; [apply safe_mbind; [by apply process_update_tx_safe|done]|].
    intros src x1 Hsrc. apply mbind_returns in Hsrc as ([] & x2 & Hu & Hsrc). unfold mret in Hsrc. simplify_eq.
    pose proof (process_update_tx_room (zlen (messages_iter (txd_effects (tx_data tx)))) _ _ _ _
      {| xs_state := s; xs_out := o |} _ Hr Hu) as Hr1.
    apply process_update_tx_value in Hu as (Hok1 & Hv1 & _); [|done]. simpl in Hv1.
    apply apply_tx_effects_safe; try done. lia.
Qed.

Lemma apply_tx_effects_room n ctx source fx (x x' : XState LState) :
  inbox_room (n + zlen (messages_iter fx)) (xs_state x) -> apply_tx_effects ctx source fx x = (Ok tt, x') ->
  inbox_room n (xs_state x').
Proof.
  intros Hr H. unfold apply_tx_effects, distribute_effects in H.
  apply mbind_returns in H as (t & ? & Ht & H). unfold mlift in Ht. injection Ht as _ <-.
  apply mbind_returns in H as (c0 & x1 & Hd & H). apply lift_exec_returns in Hd as (s1 & Hd & ->).
  apply mbind_returns in H as (c2 & x3 & Hd2 & H). unfold mlift in H. injection H as _ <-.
  apply mbind_returns in Hd2 as (c1 & x2 & Htr & Hms).
  pose proof (debit_source_room _ _ _ _ _ _ Hr Hd) as Hr1.
  pose proof (distribute_transfers_room _ _ _ _ {| xs_state := s1; xs_out := xs_out x |} _ Hr1 Htr) as Hr2.
  clear - Hr2 Hms MmrLaws0. revert c1 x2 Hr2 Hms.
  induction (messages_iter fx) as [|m ms IH]; intros c x Hr H; cbn [distribute_messages] in H.
  - minv. eapply inbox_room_mono, Hr. autorewrite with zlen. lia.
  - apply mbind_returns in H as ([coin rest] & ? & Hs & H). unfold mlift in Hs. injection Hs as _ <-.
    apply mbind_returns in H as ([] & x1 & Ht & H). eapply IH, H. eapply process_message_room, Ht.
    eapply inbox_room_mono, Hr. autorewrite with zlen. lia.
Qed.

Lemma process_single_tx_room n tx ctx (x x' : XState LState) :
  inbox_room (n + zlen (messages_iter (txd_effects (tx_data tx)))) (xs_state x) ->
  process_single_tx tx ctx x = (Ok tt, x') -> inbox_room n (xs_state x').
Proof.
  intros Hr H. unfold process_single_tx in H.
  apply mbind_returns in H as ([] & x0 & Hc & H). apply lift_exec_returns in Hc as (s1 & Hc & ->).
  unfold mreads_res in Hc. injection Hc as _ <-. destruct x as [s o]. simpl in *.
  apply mbind_returns in H as (src & x1 & Hsrc & H). eapply apply_tx_effects_room, H.
  destruct (txd_payload (tx_data tx)) as [gam|sau].
  - apply mbind_returns in Hsrc as (? & ? & ? & Hsrc). unfold mlift, mret in *. by simplify_eq.
  - apply mbind_returns in Hsrc as ([] & x2 & Hu & Hsrc). unfold mret in Hsrc. simplify_eq.
    eapply process_update_tx_room; [|exact Hu]. done.
Qed.

(** The number of messages a segment sends. *)
Definition num_messages (txs : list OLTransaction) : Z :=
  zsum (map (fun tx => zlen (messages_iter (txd_effects (tx_data tx)))) txs).

(** Processing a transaction segment never panics. *)
Lemma process_block_tx_segment_safe txs ctx (x : XState LState) :
  amounts_ok (xs_state x) -> Forall tx_bounded txs -> total_value (xs_state x) <= U64_MAX ->
  inbox_room (num_messages txs) (xs_state x) ->
  safe (process_block_tx_segment txs ctx) x.
Proof.
  unfold process_block_tx_segment. generalize 0 as i. revert x.
  induction txs as [|tx txs IH]; intros x i Hok Hall Htot Hr; cbn [miteri]; [done|].
  apply Forall_cons in Hall as [Htx Hall]. unfold num_messages, zsum in Hr. cbn [map fold_right] in Hr.
  fold (zsum (map (fun tx => zlen (messages_iter (txd_effects (tx_data tx)))) txs)) (num_messages txs) in Hr.
  assert (0 <= num_messages txs).
  { apply zsum_nonneg, Forall_forall. intros n Hn. apply list_elem_of_fmap in Hn as (? & -> & _). apply zlen_nonneg. }
  pose proof (zlen_nonneg (messages_iter (txd_effects (tx_data tx)))).
  change (safe (mmap_err (fun e => with_tx e (compute_txid tx) i) (process_single_tx tx ctx) ;;;
    miteri (fun i tx => mmap_err (fun e => with_tx e (compute_txid tx) i) (process_single_tx tx ctx)) (i + 1) txs) x).
  apply safe_mbind.
  - apply safe_mmap_err, process_single_tx_safe; try done. eapply inbox_room_mono, Hr. lia.
  - intros [] x1 H1. apply mmap_err_returns in H1.
    assert (Hr1 : inbox_room (num_messages txs) (xs_state x1)).
    { eapply process_single_tx_room, H1. eapply inbox_room_mono, Hr. lia. }
    apply process_single_tx_value in H1 as (Hok1 & Hv1 & _); [|done|apply Htx].
    apply IH; try done. assert (0 <= tx_withdrawn (tec_basic_context ctx) tx); [|lia].
    apply withdrawn_nonneg. destruct Htx as [(_ & _ & Hv) _]. by apply Forall_app in Hv as [_ ?].
Qed.

Lemma process_block_tx_segment_room n txs ctx (x x' : XState LState) :
  inbox_room (n + num_messages txs) (xs_state x) ->
  process_block_tx_segment txs ctx x = (Ok tt, x') -> inbox_room n (xs_state x').
Proof.
  unfold process_block_tx_segment. generalize 0 as i. revert x.
  induction txs as [|tx txs IH]; intros x i Hr H; cbn [miteri] in H.
  - minv. eapply inbox_room_mono, Hr. unfold num_messages, zsum. simpl. lia.
  - apply mbind_returns in H as ([] & x1 & H1 & H). apply mmap_err_returns in H1. eapply IH, H.
    eapply process_single_tx_room, H1. eapply inbox_room_mono, Hr.
    unfold num_messages, zsum. simpl. lia.
Qed.
End delivery.
