(* ===== verification/BlockSafety.v ===== *)
(** * Blocks never panic

    Every [expect] and every unchecked credit on the path of block verification
    is justified: over a ledger whose value, together with the deposits about to
    be credited, fits 64 bits, and whose MMRs have room, verifying any block ends
    in success or in an error. *)

From S2P Require Import Prelude SortedMap Identifiers AcctTypes ChainTypes Externals.
From S2P Require Import LedgerTypes Bridge OLAccount OLState StateAccessor LedgerSpec SnarkSys.
From S2P Require Import StfContext StfTx StfManifests StfBlock.
From S2P Require Import StfSim StfAgreement StfLedger StfUpdates StfManifestSpec.
From S2P Require Import StfValue StfSafety.

(** ** The logs root *)

Section logs_root.
Context `{X : Ext} `{!MerkleLaws X}.

(** Padding ends at a power of two, without truncating. *)
Lemma pad_leaves_pow2 leaves : leaves <> [] -> length (pad_leaves leaves) = (2 ^ Nat.log2_up (length leaves))%nat.
Proof.
  intros Hne. unfold pad_leaves. rewrite length_app, length_replicate.
  assert (length leaves <= 2 ^ Nat.log2_up (length leaves))%nat; [|lia].
  destruct (Nat.le_gt_cases (length leaves) 1) as [Hle|Hgt].
  - etransitivity; [exact Hle|]. apply Nat.neq_0_lt_0, Nat.pow_nonzero. done.
  - by apply Nat.log2_up_spec.
Qed.

Lemma compute_logs_root_safe {E} logs : compute_logs_root (E := E) logs <> Panic.
Proof.
  unfold compute_logs_root. destruct logs as [|l logs]; [done|].
  destruct (merkle_root_pow2 _ _ (pad_leaves_pow2 (map log_hash_commitment (l :: logs)) ltac:(done))) as [r ->].
  done.
Qed.
End logs_root.

Section safety.
Context `{XR : ExtRoot} `{!AmountLaws X, !MmrLaws X, !MmrCapacity X, !LogCodecLaws X, !MsgCodecLaws X}.
Context `{!EnvelopeLaws X, !AsmLogLaws X, !MerkleLaws X}.

(** ** Messages the OL builds *)

Lemma build_msg_data_safe {E} ty body :
  0 <= ty < 128 -> zlen body <= 4096 -> build_msg_data (E := E) ty body <> Panic.
Proof.
  intros Hty Hb. unfold build_msg_data. destruct (owned_msg_small ty body Hty Hb) as (data & -> & Hd). simpl.
  unfold msg_payload_data_try_into.
  assert ((zlen data <=? MAX_MSG_PAYLOAD_DATA_BYTES) = true) as ->; [|done].
  apply Z.leb_le. assert (4100 <= MAX_MSG_PAYLOAD_DATA_BYTES) by (vm_compute; discriminate). lia.
Qed.

Lemma build_predicate_update_message_safe {E} k k' epoch :
  pred_try_as_buf k = Some k' -> build_predicate_update_message (E := E) k' epoch <> Panic.
Proof.
  intros Hk. unfold build_predicate_update_message, build_predicate_update_payload.
  destruct (pred_parsed_bytes k k' Hk) as (b & -> & Hb). simpl.
  unfold PredicateUpdateMsgData_new, MAX_PREDICATE_KEY_BYTES.
  assert ((zlen b <=? 2048) = true) as -> by (apply Z.leb_le; lia). simpl.
  destruct (predicate_update_encode_small b) as (body & -> & Hbody); [lia|]. simpl.
  pose proof (build_msg_data_safe (E := E) PREDICATE_UPDATE_MSG_TYPE_ID body) as Hd.
  destruct (build_msg_data _ _); [done|done|].
  exfalso. apply Hd; [unfold PREDICATE_UPDATE_MSG_TYPE_ID; lia|lia|done].
Qed.

Lemma resolve_deposit_destination_safe d (s : LState) : resolve_deposit_destination d s <> Panic.
Proof.
  unfold resolve_deposit_destination. destruct (DepositDescriptor_decode_from_slice _) as [desc| |]; [|done..].
  simpl. destruct (ls_serials s !! _); simpl; [|done].
  destruct (subject_id_encode_small (subject_to_id (dd_dest_subject desc))) as (b & -> & Hb). simpl.
  pose proof (build_msg_data_safe (E := ExecError) DEPOSIT_MSG_TYPE_ID b) as Hd.
  destruct (build_msg_data _ _); [done|done|].
  exfalso. apply Hd; [unfold DEPOSIT_MSG_TYPE_ID; lia|lia|done].
Qed.

(** ** The drain *)

Lemma minted_nonneg log : 0 <= minted log.
Proof.
  unfold minted. repeat case_match; try done.
  match goal with H : asm_log_as_deposit _ = Some _ |- _ => apply asm_deposit_amount in H as [? _] end. done.
Qed.

Lemma process_deposit_log_safe ctx d (x : XState LState) :
  amounts_ok (xs_state x) -> in_u64 (dl_amount d) -> total_value (xs_state x) + dl_amount d <= U64_MAX ->
  inbox_room 1 (xs_state x) -> safe (process_deposit_log ctx d) x.
Proof.
  intros Hok Hd Htot Hr. unfold process_deposit_log. apply safe_mbind.
  { apply lift_exec_safe. apply resolve_deposit_destination_safe. }
  intros r x1 Hres. apply lift_exec_returns in Hres as (s1 & Hres & ->). unfold mreads_res in Hres.
  injection Hres as _ <-. destruct r as [[dest data]|]; [|apply lift_exec_safe, handle_misplaced_funds_safe].
  apply process_message_safe; simpl; [done|apply Hd|done|done].
Qed.

Lemma queue_predicate_update_safe msg acct :
  (forall sa, acct_state acct = TySnark sa -> mmr_num_entries (sas_inbox_mmr sa) < U64_MAX) ->
  safe (queue_predicate_update msg) acct.
Proof.
  intros Hr. unfold safe, queue_predicate_update. simpl. destruct (acct_state acct) as [|sa]; [done|].
  unfold insert_inbox_message. edestruct (mmr_add_leaf_capacity (sas_inbox_mmr sa)) as [m' ->]; [by apply Hr|]. done.
Qed.

Lemma process_ee_predicate_key_update_safe ctx data (s : LState) :
  inbox_room 1 s -> safe (process_ee_predicate_key_update ctx data) s.
Proof.
  intros Hr. unfold process_ee_predicate_key_update. apply safe_mbind; [done|].
  intros found s1 Hf. unfold mreads_res in Hf. injection Hf as _ <-. destruct found as [id|]; [|done].
  destruct (pred_try_as_buf _) as [k|] eqn:Hk; [|done].
  apply safe_mbind; [apply safe_mlift; by eapply build_predicate_update_message_safe|].
  intros msg s1 Hm. unfold mlift in Hm. injection Hm as _ <-. apply safe_mbind.
  - apply safe_mmap_err. unfold safe. simpl. destruct (ls_accts s !! id) as [acct|] eqn:Hl; [|done].
    pose proof (queue_predicate_update_safe msg acct) as Hq. unfold safe in Hq. unfold run_account.
    destruct (queue_predicate_update msg acct) as [[] ?]; simpl in *; [done|done|].
    exfalso. apply Hq; [|done]. intros sa Hs. specialize (Hr _ _ _ Hl Hs). lia.
  - intros inner s2 Hi. apply safe_mbind; [|done]. apply safe_mlift. apply mmap_err_returns in Hi. simpl in Hi.
    destruct (ls_accts s !! id) as [acct|]; [|done]. unfold run_account in Hi.
    destruct (queue_predicate_update msg acct) as [[] ?]; by simplify_eq.
Qed.

Lemma process_asm_log_safe ctx log (x : XState LState) :
  amounts_ok (xs_state x) -> total_value (xs_state x) + minted log <= U64_MAX ->
  inbox_room 1 (xs_state x) -> safe (process_asm_log ctx log) x.
Proof.
  intros Hok Htot Hr. unfold process_asm_log. unfold minted in Htot. repeat case_match; try done.
  - apply process_deposit_log_safe; try done. by eapply asm_deposit_amount.
  - apply lift_exec_safe. by apply process_ee_predicate_key_update_safe.
Qed.

Lemma process_deposit_log_room n ctx d (x x' : XState LState) :
  inbox_room (n + 1) (xs_state x) -> process_deposit_log ctx d x = (Ok tt, x') -> inbox_room n (xs_state x').
Proof.
  intros Hr H. unfold process_deposit_log in H. apply mbind_returns in H as (r & x1 & Hres & H).
  apply lift_exec_returns in Hres as (s1 & Hres & ->). unfold mreads_res in Hres. injection Hres as _ <-.
  destruct r as [[dest data]|].
  - eapply process_message_room, H. done.
  - apply lift_exec_returns in H as (s2 & H & ->). simpl.
    eapply inbox_room_accts; [eapply handle_misplaced_funds_accts; exact H|].
    eapply inbox_room_mono, Hr. lia.
Qed.

Lemma process_ee_predicate_key_update_room n ctx data (s s' : LState) :
  inbox_room (n + 1) s -> process_ee_predicate_key_update ctx data s = (Ok tt, s') -> inbox_room n s'.
Proof.
  intros Hr H. assert (Hn : inbox_room n s) by (eapply inbox_room_mono, Hr; lia).
  unfold process_ee_predicate_key_update in H. apply mbind_returns in H as (found & ? & Hf & H).
  unfold mreads_res in Hf. injection Hf as _ <-. destruct found as [id|]; [|by minv].
  destruct (pred_try_as_buf _) as [k|]; [|by minv]. apply mbind_returns in H as (msg & ? & Hm & H).
  unfold mlift in Hm. injection Hm as _ <-. apply mbind_returns in H as (inner & s1 & Hu & H).
  apply mbind_returns in H as (? & ? & Hi & H). unfold mlift in Hi. injection Hi as Hi <-.
  unfold mret in H. injection H as <-. apply mmap_err_returns in Hu. simpl in Hu.
  destruct (ls_accts s !! id) as [acct|] eqn:Hl; [|done]. unfold run_account, queue_predicate_update in Hu.
  simpl in Hu.
  destruct (acct_state acct) as [|sa0] eqn:Hs0.
  - simplify_eq. apply inbox_room_update; [done|]. congruence.
  - unfold insert_inbox_message in Hu. destruct (mmr_add_leaf _ _) as [m'|] eqn:Hm; simplify_eq/=.
    apply mmr_add_leaf_entries in Hm; [|apply thr_message_entry_nonzero]. apply inbox_room_update; [done|]. simpl. intros sa [= <-]. simpl.
    specialize (Hr _ _ _ Hl Hs0). lia.
Qed.

Lemma process_asm_log_room n ctx log (x x' : XState LState) :
  inbox_room (n + 1) (xs_state x) -> process_asm_log ctx log x = (Ok tt, x') -> inbox_room n (xs_state x').
Proof.
  intros Hr. assert (Hn : inbox_room n (xs_state x)) by (eapply inbox_room_mono, Hr; lia).
  unfold process_asm_log. repeat case_match; intros Hx; try by minv.
  - by eapply process_deposit_log_room.
  - apply lift_exec_returns in Hx as (s1 & Hx & ->). apply mmap_err_returns in Hx. simpl in Hx.
    unfold mmodify in Hx. by simplify_eq.
  - apply lift_exec_returns in Hx as (s1 & Hx & ->). by eapply process_ee_predicate_key_update_room.
Qed.

Lemma drain_safe ctx pending (x : XState LState) :
  amounts_ok (xs_state x) ->
  total_value (xs_state x) + zsum (map (fun e => minted (pal_log e)) pending) <= U64_MAX ->
  inbox_room (zlen pending) (xs_state x) ->
  safe (miter (fun entry => process_asm_log ctx (pal_log entry)) pending) x.
Proof.
  revert x. induction pending as [|e l IH]; intros x Hok Htot Hr; cbn [miter]; [done|].
  unfold zsum in Htot. cbn [map fold_right] in Htot. fold (zsum (map (fun e => minted (pal_log e)) l)) in Htot.
  assert (0 <= zsum (map (fun e => minted (pal_log e)) l)).
  { apply zsum_nonneg, Forall_map, Forall_true. intros ?. apply minted_nonneg. }
  autorewrite with zlen in Hr. pose proof (zlen_nonneg l). apply safe_mbind.
  - apply process_asm_log_safe; [done|lia|]. eapply inbox_room_mono, Hr. lia.
  - intros [] x1 H1. pose proof (process_asm_log_room (zlen l) _ _ _ _ ltac:(eapply inbox_room_mono, Hr; lia) H1).
    apply process_asm_log_value in H1 as [? Hv]; [|done]. apply IH; [done|lia|done].
Qed.

Lemma process_epoch_terminal_safe ctx (x : XState LState) :
  amounts_ok (xs_state x) ->
  total_value (xs_state x) + zsum (map (fun e => minted (pal_log e)) (ls_pending (xs_state x))) <= U64_MAX ->
  inbox_room (zlen (ls_pending (xs_state x))) (xs_state x) ->
  safe (process_epoch_terminal ctx) x.
Proof.
  intros Hok Htot Hr. destruct x as [s o]. unfold process_epoch_terminal. apply safe_mbind; [done|].
  intros e x1 He. apply lift_exec_returns in He as (? & He & ->). unfold mreads in He. injection He as <- <-.
  apply safe_mbind.
  { apply lift_exec_safe. unfold safe, mreads_res. simpl. unfold zlen. rewrite Nat2Z.id, snapshot_pending_all. done. }
  intros p x2 Hp. apply lift_exec_returns in Hp as (? & Hp & ->). unfold mreads_res in Hp. simpl in Hp.
  unfold zlen in Hp. rewrite Nat2Z.id, snapshot_pending_all in Hp. injection Hp as <- <-. simpl in *.
  apply safe_mbind; [by apply drain_safe|]. intros [] x3 _. apply safe_mbind; [done|]. intros [] x4 _.
  apply safe_mbind; [apply safe_mlift; auto|]. done.
Qed.

(** ** Manifests *)

Lemma handle_asm_manifest_safe h mf (s : LState) :
  mmr_num_entries (es_l1_block_refs_mmr (ls_epoch s)) < U64_MAX -> safe (handle_asm_manifest h mf) s.
Proof.
  intros Hr. unfold handle_asm_manifest. apply safe_mbind.
  - apply safe_miter. intros l s1. apply safe_mmap_err. unfold safe. simpl. by case_match.
  - intros [] s1 H1. apply append_logs_returns in H1. subst s1. apply safe_mmap_err. unfold safe. simpl.
    unfold append_l1_block_rec_to_mmr.
    edestruct (mmr_add_leaf_capacity (es_l1_block_refs_mmr (ls_epoch s))) as [m ->]; done.
Qed.

Lemma next_manifest_height_safe h i : next_manifest_height h i <> Panic.
Proof. unfold next_manifest_height. repeat case_match; auto; done. Qed.

Lemma process_block_manifests_safe mfs (s : LState) :
  mmr_num_entries (es_l1_block_refs_mmr (ls_epoch s)) + zlen mfs <= U64_MAX -> safe (process_block_manifests mfs) s.
Proof.
  intros Hr. unfold process_block_manifests. apply safe_mbind; [done|].
  intros h s1 Hh. unfold mreads in Hh. injection Hh as _ <-. generalize 0 as i. revert s Hr.
  induction mfs as [|mf mfs IH]; intros s Hr i; cbn [miteri]; [done|].
  autorewrite with zlen in Hr. pose proof (zlen_nonneg mfs). apply safe_mbind.
  - apply safe_mbind; [apply safe_mlift, next_manifest_height_safe|]. intros rh s1 Hh. unfold mlift in Hh.
    injection Hh as _ <-. case_match; [done|]. apply handle_asm_manifest_safe. lia.
  - intros [] s1 H1. apply IH. apply mbind_returns in H1 as (rh & ? & Hh & H1). unfold mlift in Hh.
    injection Hh as _ <-. destruct (mf_height mf =? rh) eqn:Heq; simpl in H1; [|by minv]. zbool. subst rh.
    apply handle_asm_manifest_returns in H1 as (m1 & Hm1 & ->). simpl. apply mmr_add_leaf_entries in Hm1; [|apply thr_l1_block_record_nonzero]. lia.
Qed.

(** ** Blocks *)

(** The logs a block would drain at a terminal. *)
Definition to_drain (s : LState) (body : OLBlockBody) : list PendingAsmLog :=
  ls_pending s ++ concat (map pending_of (block_manifests body)).

(** What the ledger must have room for. *)
Record block_capacity (s : LState) (body : OLBlockBody) : Prop := {
  bcap_amounts : amounts_ok s;
  bcap_txs : Forall tx_bounded (block_txs body);
  bcap_value : total_value s + zsum (map (fun e => minted (pal_log e)) (to_drain s body)) <= U64_MAX;
  bcap_inbox : inbox_room (zlen (to_drain s body) + num_messages (block_txs body)) s;
  bcap_l1 : mmr_num_entries (es_l1_block_refs_mmr (ls_epoch s)) + zlen (block_manifests body) <= U64_MAX;
}.

Lemma verify_header_continuity_safe header parent : verify_header_continuity header parent <> Panic.
Proof. unfold verify_header_continuity. repeat case_match; done. Qed.

Lemma check_block_coords_safe ctx : check_block_coords ctx <> Panic.
Proof. unfold check_block_coords, checked_add_u32, checked_add_u64. repeat (case_match; simpl; try done). Qed.

Lemma block_context_safe header parent :
  verify_header_continuity header parent = Ok tt ->
  BlockContext_new (E := ExecError) (BlockInfo_from_header header) parent <> Panic.
Proof.
  unfold verify_header_continuity, BlockContext_new. destruct parent; [done|]. simpl.
  destruct (hdr_slot header =? 0), (hdr_epoch header =? 0); done.
Qed.

Lemma epoch_initial_safe ctx (s : LState) : safe (epoch_initial_if_needed ctx) s.
Proof.
  unfold epoch_initial_if_needed, get_epoch_initial_context. destruct (is_epoch_initial ctx); [|done].
  apply safe_mbind; [done|]. intros ectx s1 _. unfold process_epoch_initial. apply safe_mbind; [done|].
  intros e s2 _. by case_match.
Qed.

Lemma process_block_start_safe ctx (s : LState) : safe (process_block_start ctx) s.
Proof.
  unfold process_block_start. apply safe_mbind; [apply safe_mlift, check_block_coords_safe|]. intros [] s1 _.
  apply safe_mbind; [done|]. intros e s2 _. by case_match.
Qed.

Lemma check_state_root_safe r (s : LState) : safe (check_state_root r) s.
Proof. unfold check_state_root. apply safe_mbind; [done|]. intros c s1 _. by case_match. Qed.

Lemma with_fresh_output_safe {A} (m : Exec LState A) s :
  safe m {| xs_state := s; xs_out := [] |} -> safe (with_fresh_output m) s.
Proof. unfold safe, with_fresh_output. by destruct (m _) as [[] ?]. Qed.

(** The transaction segment of a block that has room. *)
Lemma block_segment_facts header parent body bp (s : LState) :
  block_capacity s body ->
  let x0 := {| xs_state := at_slot s (hdr_slot header); xs_out := [] |} in
  safe (process_block_tx_segment (block_txs body) (tx_context header parent bp)) x0 /\
  forall x, process_block_tx_segment (block_txs body) (tx_context header parent bp) x0 = (Ok tt, x) ->
    amounts_ok (xs_state x) /\ total_value (xs_state x) <= total_value s /\ ls_step (at_slot s (hdr_slot header)) (xs_state x) /\
    inbox_room (zlen (to_drain s body)) (xs_state x).
Proof.
  intros [Hok Htx Hv Hi Hl]. cbv zeta.
  assert (Hok0 : amounts_ok (at_slot s (hdr_slot header))) by (by split; apply Hok).
  assert (Hmint : 0 <= zsum (map (fun e => minted (pal_log e)) (to_drain s body))).
  { apply zsum_nonneg, Forall_map, Forall_true. intros ?. apply minted_nonneg. }
  pose proof (zlen_nonneg (to_drain s body)). split.
  - apply process_block_tx_segment_safe; simpl; [done|done| |].
    + change (total_value (at_slot s (hdr_slot header))) with (total_value s). lia.
    + eapply inbox_room_mono; [|exact Hi]. lia.
  - intros x Hx. pose proof (keeps_ok _ _ _ _ _ (process_block_tx_segment_step _ _) Hx) as [Hst _].
    pose proof (process_block_tx_segment_room (zlen (to_drain s body)) _ _
      {| xs_state := at_slot s (hdr_slot header); xs_out := [] |} _ Hi Hx) as Hr.
    apply process_block_tx_segment_value in Hx as (Hok1 & Hv1 & _); [|done|].
    2: { eapply Forall_impl; [exact Htx|]. intros tx [Hb _]. apply Hb. }
    split_and!; try done. cbn [xs_state] in Hv1. change (total_value (at_slot s _)) with (total_value s) in Hv1.
    assert (0 <= zsum (map (tx_withdrawn (tec_basic_context (tx_context header parent bp))) (block_txs body))); [|lia].
    apply zsum_nonneg, Forall_map. eapply Forall_impl; [exact Htx|]. intros tx [(_ & _ & Hb) _].
    apply withdrawn_nonneg. by apply Forall_app in Hb as [_ ?].
Qed.

Lemma exec_body_safe header parent body bp (s : LState) :
  block_capacity s body ->
  safe (exec_body (BlockInfo_from_header header) parent body bp)
    {| xs_state := at_slot s (hdr_slot header); xs_out := [] |}.
Proof.
  intros Hcap. destruct (block_segment_facts header parent body bp s Hcap) as [Hsafe Hfacts].
  pose proof (bcap_l1 s body Hcap) as Hl. unfold exec_body.
  unfold block_txs, tx_context in Hsafe, Hfacts. unfold block_manifests in Hl. apply safe_mbind.
  - destruct (body_tx_segment body); done.
  - intros [] x Hx. destruct (body_manifests body) as [mfs|]; [|done].
    apply lift_exec_safe, process_block_manifests_safe.
    assert (Hst : ls_step (at_slot s (hdr_slot header)) (xs_state x)).
    { apply Hfacts. destruct (body_tx_segment body); [exact Hx|]. exact Hx. }
    rewrite <- (lst_epoch _ _ Hst). exact Hl.
Qed.

(** C36: verifying a block never panics: over a ledger with room for the value,
    the inbox messages and the L1 records the block brings, any header, parent
    and body within its wire bounds lead to success or to an error. *)
Theorem verify_block_never_panics header parent body bp (s : LState) :
  block_capacity s body -> fst (verify_block header parent body bp s) <> Panic.
Proof.
  intros Hcap. change (safe (verify_block header parent body bp) s). unfold verify_block. apply safe_mbind.
  - unfold verify_block_predrain.
    apply safe_mbind; [apply safe_mlift, verify_header_continuity_safe|]. intros [] s1 Hc. unfold mlift in Hc.
    injection Hc as Hc <-. apply safe_mbind; [unfold verify_block_structure; apply safe_mlift; by case_match|].
    intros [] s1 Hs. unfold mlift in Hs. injection Hs as _ <-. cbv zeta.
    apply safe_mbind; [by apply safe_mlift, block_context_safe|]. intros ctx s1 Hctx. unfold mlift in Hctx.
    injection Hctx as Hctx <-. apply safe_mbind; [apply epoch_initial_safe|]. intros [] s1 Hi.
    apply epoch_initial_returns in Hi. subst s1. apply safe_mbind; [apply process_block_start_safe|].
    intros [] s1 Hb. apply process_block_start_returns in Hb as (_ & _ & ->).
    assert (bc_slot ctx = hdr_slot header) as ->.
    { unfold BlockContext_new in Hctx. destruct (_ && _); [done|]. by simplify_eq. }
    apply safe_mbind; [by apply with_fresh_output_safe, exec_body_safe|]. intros [u logs] s2 _.
    apply safe_mbind; [|done]. case_match; [apply check_state_root_safe|done].
  - intros l1 s2 Hpre. apply safe_mbind.
    + unfold apply_epoch_terminal. case_match; [|done]. apply safe_mbind.
      * apply with_fresh_output_safe.
        apply verify_block_predrain_inv in Hpre as (Hc & _ & ctx & s0 & s1 & Hctx & Hi & Hb & Hx & _).
        apply epoch_initial_returns in Hi. subst s0 ctx. apply process_block_start_returns in Hb as (_ & _ & ->).
        apply exec_body_returns in Hx as (x & mmr & Htx & _ & Hm & -> & ->).
        destruct (block_segment_facts header parent body bp s Hcap) as [_ Hfacts].
        destruct (Hfacts x Htx) as (Hok & Hv & Hst & Hr). pose proof (bcap_value s body Hcap).
        assert (Hp : ls_pending (xs_state x) = ls_pending s) by (symmetry; exact (lst_pending _ _ Hst)).
        apply process_epoch_terminal_safe; simpl; rewrite ?Hp; [by split; apply Hok| |done].
        change (total_value (buffered _ _ _)) with (total_value (xs_state x)). unfold to_drain in *. lia.
      * intros [u l] s3 _. apply safe_mbind; [apply check_state_root_safe|done].
    + intros l2 s3 _. cbv zeta. case_match; [done|].
      apply safe_mbind; [apply safe_mlift, compute_logs_root_safe|]. intros r s4 _. by case_match.
Qed.
End safety.
