(* ===== verification/SnarkProofs.v ===== *)
(** * Proof verification against the proof index

    The snark-account logic is written against a proof verifier.  Two of them
    exist: the verifier that consumes the proofs of a transaction, and the
    indexer that only records which claims would be checked.  They agree: the
    verifier accepts and uses up all proofs exactly if the proofs match, one by
    one and in order, the claims the indexer records. *)

From S2P Require Import Prelude Identifiers AcctTypes ChainTypes Externals LedgerTypes.
From S2P Require Import OLAccount OLState StateAccessor SnarkSys StfTx.

Section checks.
Context `{X : Ext}.

Definition acc_check (ctx : TxProofVerificationContext) (c : AccProofCheck) (p : RawMerkleProof) : bool :=
  match c with
  | CheckInbox claim =>
      match pvc_local_inbox_mmr ctx with
      | Some mmr => mmr_verify mmr p (claim_idx claim) (claim_entry_hash claim)
      | None => false
      end
  | CheckL1BlockRef claim => mmr_verify (pvc_l1_block_refs_mmr ctx) p (claim_idx claim) (claim_entry_hash claim)
  end.

Definition pred_check (ctx : TxProofVerificationContext) (claim witness : bytes) : bool :=
  match pvc_local_predicate_key ctx with
  | Some key => verify_claim_witness key claim witness
  | None => false
  end.

Definition acc_list (t : TxProofsTracker) : list RawMerkleProof := default [] (pt_accumulator_proofs t).
Definition pred_list (t : TxProofsTracker) : list bytes := default [] (pt_predicate_satisfiers t).

(** The next proofs match the given claims. *)
Definition accepts (v : TxProofVerifierImpl) (cs : list AccProofCheck) (ps : list bytes) : Prop :=
  let t := pvi_proof_tracker v in
  Forall2 (fun c p => acc_check (pvi_state_ctx v) c p = true) cs
    (take (length cs) (drop (pt_next_acc_proof_idx t) (acc_list t))) /\
  Forall2 (fun c w => pred_check (pvi_state_ctx v) c w = true) ps
    (take (length ps) (drop (pt_next_pred_proof_idx t) (pred_list t))).

(** The verifier past that many proofs. *)
Definition advance (v : TxProofVerifierImpl) (n m : nat) : TxProofVerifierImpl :=
  let t := pvi_proof_tracker v in
  {| pvi_state_ctx := pvi_state_ctx v;
     pvi_proof_tracker := {| pt_accumulator_proofs := pt_accumulator_proofs t;
                             pt_next_acc_proof_idx := pt_next_acc_proof_idx t + n;
                             pt_predicate_satisfiers := pt_predicate_satisfiers t;
                             pt_next_pred_proof_idx := pt_next_pred_proof_idx t + m |} |}.

Definition ix_append (ix : TxProofIndexer) (cs : list AccProofCheck) (ps : list bytes) : TxProofIndexer :=
  {| ix_accumulator_checks := ix_accumulator_checks ix ++ cs;
     ix_predicate_checks := ix_predicate_checks ix ++ ps |}.

(** A computation over the verifier follows the one over the indexer: it has the
    same outcome if the next proofs match the claims the indexer records, and
    fails otherwise. *)
Definition follows {A} (mv : M ExecError TxProofVerifierImpl A) (mx : M ExecError TxProofIndexer A) : Prop :=
  exists r cs ps,
    (forall ix, mx ix = (r, ix_append ix cs ps)) /\
    forall v,
      (accepts v cs ps -> mv v = (r, advance v (length cs) (length ps))) /\
      (~ accepts v cs ps -> exists e v', mv v = (Err e, v')).

Lemma ix_append_nil ix : ix_append ix [] [] = ix.
Proof. unfold ix_append. rewrite !app_nil_r. by destruct ix. Qed.

Lemma ix_append_app ix cs1 ps1 cs2 ps2 :
  ix_append (ix_append ix cs1 ps1) cs2 ps2 = ix_append ix (cs1 ++ cs2) (ps1 ++ ps2).
Proof. unfold ix_append. simpl. by rewrite !app_assoc. Qed.

Lemma advance_0 v : advance v 0 0 = v.
Proof. unfold advance. rewrite !Nat.add_0_r. by destruct v as [? []]. Qed.

Lemma advance_add v n1 m1 n2 m2 : advance (advance v n1 m1) n2 m2 = advance v (n1 + n2) (m1 + m2).
Proof. unfold advance. simpl. by rewrite !Nat.add_assoc. Qed.

Lemma accepts_nil v : accepts v [] [].
Proof. split; constructor. Qed.

Lemma Forall2_take_app {A B} (P : A -> B -> Prop) (l1 l2 : list A) (k : list B) :
  Forall2 P (l1 ++ l2) (take (length (l1 ++ l2)) k) <->
  Forall2 P l1 (take (length l1) k) /\ Forall2 P l2 (take (length l2) (drop (length l1) k)).
Proof.
  rewrite length_app. revert k. induction l1 as [|x l1 IH]; intros k; simpl.
  - rewrite drop_0. split; [by intros ?|by intros [_ ?]].
  - destruct k as [|y k]; simpl.
    + split; [intros H; inversion H|intros [H _]; inversion H].
    + rewrite !Forall2_cons, IH. tauto.
Qed.

Lemma accepts_app v cs1 ps1 cs2 ps2 :
  accepts v (cs1 ++ cs2) (ps1 ++ ps2) <->
  accepts v cs1 ps1 /\ accepts (advance v (length cs1) (length ps1)) cs2 ps2.
Proof. unfold accepts. simpl. rewrite !Forall2_take_app, !drop_drop. tauto. Qed.

Lemma accepts_dec v cs ps : accepts v cs ps \/ ~ accepts v cs ps.
Proof.
  unfold accepts. destruct (decide (Forall2 (fun c p => acc_check (pvi_state_ctx v) c p = true) cs
    (take (length cs) (drop (pt_next_acc_proof_idx (pvi_proof_tracker v)) (acc_list (pvi_proof_tracker v)))))); [|tauto].
  destruct (decide (Forall2 (fun c w => pred_check (pvi_state_ctx v) c w = true) ps
    (take (length ps) (drop (pt_next_pred_proof_idx (pvi_proof_tracker v)) (pred_list (pvi_proof_tracker v)))))); tauto.
Qed.

Lemma follows_pure {A} (r : res ExecError A) : follows (mlift r) (mlift r).
Proof.
  exists r, [], []. split; [intros ix; unfold mlift; by rewrite ix_append_nil|]. intros v.
  split; [intros _; simpl; by rewrite advance_0|]. intros H. exfalso. apply H, accepts_nil.
Qed.

Lemma follows_mbind {A B} (mv : M ExecError TxProofVerifierImpl A) mx
    (kv : A -> M ExecError TxProofVerifierImpl B) kx :
  follows mv mx -> (forall a, follows (kv a) (kx a)) -> follows (mbind mv kv) (mbind mx kx).
Proof.
  intros (r & cs & ps & Hx & Hv) Hk. unfold mbind. destruct r as [a|e|].
  - destruct (Hk a) as (r2 & cs2 & ps2 & Hx2 & Hv2). exists r2, (cs ++ cs2), (ps ++ ps2). split.
    + intros ix. by rewrite Hx, Hx2, ix_append_app.
    + intros v. rewrite accepts_app, !length_app, <- advance_add. destruct (Hv v) as [Hok Hno]. split.
      * intros [H1 H2]. rewrite (Hok H1). by apply Hv2.
      * intros H. destruct (accepts_dec v cs ps) as [H1|H1].
        -- rewrite (Hok H1). apply Hv2. tauto.
        -- destruct (Hno H1) as (e & v' & ->). eauto.
  - exists (Err e), cs, ps. split; [intros ix; by rewrite Hx|]. intros v. destruct (Hv v) as [Hok Hno]. split.
    + intros H1. by rewrite (Hok H1).
    + intros H1. destruct (Hno H1) as (e' & v' & ->). eauto.
  - exists Panic, cs, ps. split; [intros ix; by rewrite Hx|]. intros v. destruct (Hv v) as [Hok Hno]. split.
    + intros H1. by rewrite (Hok H1).
    + intros H1. destruct (Hno H1) as (e' & v' & ->). eauto.
Qed.

(** ** The primitives *)

Lemma verify_next_mmr_proof_ok mmr claim v :
  match acc_list (pvi_proof_tracker v) !! pt_next_acc_proof_idx (pvi_proof_tracker v) with
  | Some p => if mmr_verify mmr p (claim_idx claim) (claim_entry_hash claim)
              then verify_next_mmr_proof mmr claim v = (Ok tt, advance v 1 0)
              else verify_next_mmr_proof mmr claim v = (Err InvalidProof, v)
  | None => verify_next_mmr_proof mmr claim v = (Err NoNextProof, v)
  end.
Proof.
  unfold verify_next_mmr_proof, mbind, mreads_res, acc_list, next_acc_proof.
  destruct v as [ctx [acc i preds j]]; simpl. destruct acc as [l|]; simpl; [|done].
  destruct (l !! i) as [p|] eqn:Hl; simpl; [|done]. destruct (mmr_verify _ _ _ _); simpl; [|done].
  unfold on_tracker, inc_next_acc_proof, acc_proofs_cnt. simpl. apply lookup_lt_Some in Hl.
  rewrite (proj2 (Nat.eqb_neq _ _)) by lia. unfold advance. simpl. by rewrite Nat.add_1_r, Nat.add_0_r.
Qed.

Lemma accepts_acc v c :
  accepts v [c] [] <-> exists p,
    acc_list (pvi_proof_tracker v) !! pt_next_acc_proof_idx (pvi_proof_tracker v) = Some p /\
    acc_check (pvi_state_ctx v) c p = true.
Proof.
  unfold accepts. simpl. rewrite <- (Nat.add_0_r (pt_next_acc_proof_idx _)), <- lookup_drop, Nat.add_0_r.
  destruct (drop _ (acc_list _)) as [|p l]; simpl.
  - split; [intros [H _]; inversion H|intros (p & Hp & _); done].
  - rewrite Forall2_cons. split; [intros [[H _] _]; eauto|]. intros (p' & [= ->] & H). repeat split; done || constructor.
Qed.

Lemma accepts_pred v c :
  accepts v [] [c] <-> exists w,
    pred_list (pvi_proof_tracker v) !! pt_next_pred_proof_idx (pvi_proof_tracker v) = Some w /\
    pred_check (pvi_state_ctx v) c w = true.
Proof.
  unfold accepts. simpl. rewrite <- (Nat.add_0_r (pt_next_pred_proof_idx _)), <- lookup_drop, Nat.add_0_r.
  destruct (drop _ (pred_list _)) as [|p l]; simpl.
  - split; [intros [_ H]; inversion H|intros (p & Hp & _); done].
  - rewrite Forall2_cons. split; [intros [_ [H _]]; eauto|]. intros (p' & [= ->] & H). repeat split; done || constructor.
Qed.

(** A check that succeeds exactly on an accepted claim, mapped to any error. *)
Lemma follows_check (f : ProofVerifyError -> ExecError) (mv : M ProofVerifyError TxProofVerifierImpl unit) mx cs ps :
  (forall ix, mx ix = (Ok tt, ix_append ix cs ps)) ->
  (forall v, (accepts v cs ps -> mv v = (Ok tt, advance v (length cs) (length ps))) /\
             (~ accepts v cs ps -> exists e v', mv v = (Err e, v'))) ->
  follows (mmap_err f mv) (mmap_err f mx).
Proof.
  intros Hx Hv. exists (Ok tt), cs, ps. unfold mmap_err. split; [intros ix; by rewrite Hx|].
  intros v. destruct (Hv v) as [Hok Hno]. split; intros H; [by rewrite (Hok H)|].
  destruct (Hno H) as (e & v' & ->). simpl. eauto.
Qed.

Lemma follows_inbox f claim :
  follows (mmap_err f (verify_inbox_mmr_proof_next claim)) (mmap_err f (verify_inbox_mmr_proof_next claim)).
Proof.
  apply (follows_check f _ _ [CheckInbox claim] []); [intros ix; unfold ix_append; simpl; by rewrite app_nil_r|].
  intros v. rewrite accepts_acc. simpl. unfold pvi_verify_inbox_mmr_proof_next, mbind, mreads_res.
  destruct (pvc_local_inbox_mmr (pvi_state_ctx v)) as [mmr|]; simpl.
  - pose proof (verify_next_mmr_proof_ok mmr claim v) as H. destruct (_ !! _) as [p|].
    + destruct (mmr_verify _ _ _ _) eqn:Hm; (split; [intros (p' & [= <-] & Hp)|intros Hn]); try congruence; eauto.
      exfalso. eauto.
    + split; [intros (? & ? & _); done|eauto].
  - split; [intros (? & _ & ?); done|eauto].
Qed.

Lemma follows_l1 f claim :
  follows (mmap_err f (verify_l1_block_ref_mmr_proof_next claim)) (mmap_err f (verify_l1_block_ref_mmr_proof_next claim)).
Proof.
  apply (follows_check f _ _ [CheckL1BlockRef claim] []); [intros ix; unfold ix_append; simpl; by rewrite app_nil_r|].
  intros v. rewrite accepts_acc. simpl. unfold pvi_verify_l1_block_ref_mmr_proof_next, mbind, mreads. simpl.
  pose proof (verify_next_mmr_proof_ok (pvc_l1_block_refs_mmr (pvi_state_ctx v)) claim v) as H.
  destruct (_ !! _) as [p|].
  - destruct (mmr_verify _ _ _ _) eqn:Hm; (split; [intros (p' & [= <-] & Hp)|intros Hn]); try congruence; eauto.
    exfalso. eauto.
  - split; [intros (? & ? & _); done|eauto].
Qed.

Lemma follows_pred f claim :
  follows (mmap_err f (verify_local_predicate_next claim)) (mmap_err f (verify_local_predicate_next claim)).
Proof.
  apply (follows_check f _ _ [] [claim]); [intros ix; unfold ix_append; simpl; by rewrite app_nil_r|].
  intros v. rewrite accepts_pred. simpl. unfold pvi_verify_local_predicate_next, mbind, mreads_res, pred_check.
  destruct (pvc_local_predicate_key (pvi_state_ctx v)) as [key|]; simpl.
  2: { split; [intros (? & _ & ?); done|eauto]. }
  unfold pred_list, next_pred_proof. destruct v as [ctx [acc i preds j]]; simpl.
  destruct preds as [l|]; simpl; [|split; [by intros (? & ? & _)|eauto]].
  destruct (l !! j) as [w|] eqn:Hl; simpl; [|split; [by intros (? & ? & _)|eauto]].
  destruct (verify_claim_witness _ _ _) eqn:Hm; simpl.
  - split; [intros _|intros Hn; exfalso; eauto].
    unfold on_tracker, inc_next_pred_proof, pred_proofs_cnt. simpl. apply lookup_lt_Some in Hl.
    rewrite (proj2 (Nat.eqb_neq _ _)) by lia. unfold advance. simpl. by rewrite Nat.add_1_r, Nat.add_0_r.
  - split; [intros (w' & [= <-] & ?); congruence|unfold merr; eauto].
Qed.

(** ** The update checks *)

Lemma follows_miter {A} (fv : A -> M ExecError TxProofVerifierImpl unit) fx l :
  (forall x, follows (fv x) (fx x)) -> follows (miter fv l) (miter fx l).
Proof.
  intros Hf. induction l as [|x l IH]; simpl; [apply (follows_pure (Ok tt))|by apply follows_mbind].
Qed.

Lemma follows_inbox_from target idx msgs :
  follows (verify_inbox_from target idx msgs) (verify_inbox_from target idx msgs).
Proof.
  revert idx. induction msgs as [|m msgs IH]; intros idx; simpl; [apply (follows_pure (Ok tt))|].
  apply follows_mbind; [apply follows_inbox|]. intros _. case_match; [apply IH|].
  match goal with |- follows (merr ?e) _ => apply (follows_pure (Err e)) end.
Qed.

Lemma verify_update_follows target acct op fx :
  follows (verify_snark_acct_update_proofs target acct op fx) (verify_snark_acct_update_proofs target acct op fx).
Proof.
  unfold verify_snark_acct_update_proofs, verify_update_correctness, verify_ledger_refs, verify_inbox_mmr_proofs,
    verify_update_proof.
  apply follows_mbind; [apply follows_pure|]. intros sa.
  apply follows_mbind; [apply follows_pure|]. intros u.
  apply follows_mbind; [apply follows_pure|]. intros _.
  apply follows_mbind; [apply follows_pure|]. intros _.
  apply follows_mbind; [apply follows_miter; intros; apply follows_l1|]. intros _.
  apply follows_mbind; [apply follows_inbox_from|]. intros _.
  apply follows_mbind; [apply follows_pure|]. intros claim. apply follows_pred.
Qed.

(** Fresh verifier over the proofs of a transaction. *)
Definition fresh_verifier (ctx : TxProofVerificationContext) (proofs : TxProofs) : TxProofVerifierImpl :=
  {| pvi_state_ctx := ctx; pvi_proof_tracker := from_txproofs proofs |}.

Lemma accepts_fresh_exhausted ctx proofs cs ps :
  accepts (fresh_verifier ctx proofs) cs ps /\
    is_all_done (pvi_proof_tracker (advance (fresh_verifier ctx proofs) (length cs) (length ps))) = true <->
  Forall2 (fun c p => acc_check ctx c p = true) cs (default [] (txp_accumulator_proofs proofs)) /\
  Forall2 (fun c w => pred_check ctx c w = true) ps (default [] (txp_predicate_satisfiers proofs)).
Proof.
  unfold accepts, is_all_done, is_acc_proofs_done, is_pred_proofs_done, acc_proofs_cnt, pred_proofs_cnt.
  simpl. rewrite !drop_0. unfold acc_list, pred_list. simpl.
  destruct proofs as [preds accs]; simpl.
  assert (Ha : forall {A} (o : option (list A)), match o with Some l => length l | None => 0%nat end = length (default [] o))
    by (by intros ? []). rewrite !Ha.
  rewrite andb_true_iff, !Nat.eqb_eq. split.
  - intros [[H1 H2] [L1 L2]]. rewrite take_ge in H1 by lia. rewrite take_ge in H2 by lia. done.
  - intros [H1 H2]. pose proof (Forall2_length _ _ _ H1). pose proof (Forall2_length _ _ _ H2).
    rewrite !take_ge by lia. done.
Qed.

(** A transaction's proofs are accepted, with none left over, exactly if the
    indexer accepts the update and the proofs match the claims it records, one by
    one and in order: accumulator proofs the accumulator claims, predicate
    witnesses the predicate claims. *)
Theorem update_proofs_accepted_iff target acct op fx ctx proofs :
  (exists v', verify_snark_acct_update_proofs target acct op fx (fresh_verifier ctx proofs) = (Ok tt, v') /\
              is_exhausted v' = true) <->
  (exists ix, verify_snark_acct_update_proofs target acct op fx TxProofIndexer_new_fresh = (Ok tt, ix) /\
              Forall2 (fun c p => acc_check ctx c p = true) (ix_accumulator_checks ix)
                (default [] (txp_accumulator_proofs proofs)) /\
              Forall2 (fun c w => pred_check ctx c w = true) (ix_predicate_checks ix)
                (default [] (txp_predicate_satisfiers proofs))).
Proof.
  destruct (verify_update_follows target acct op fx) as (r & cs & ps & Hx & Hv).
  specialize (Hv (fresh_verifier ctx proofs)) as [Hok Hno]. rewrite Hx. simpl.
  split.
  - intros (v' & Hrun & Hex). destruct (accepts_dec (fresh_verifier ctx proofs) cs ps) as [Ha|Ha].
    + rewrite (Hok Ha) in Hrun. simplify_eq. eexists. split; [done|]. simpl. by apply accepts_fresh_exhausted.
    + destruct (Hno Ha) as (e & v'' & Herr). congruence.
  - intros (ix & [= -> <-] & Hf). simpl in Hf. apply accepts_fresh_exhausted in Hf as [Ha Hd].
    rewrite (Hok Ha). eauto.
Qed.
End checks.
