(* ===== verification/CheckpointWorker.v ===== *)
(** * Checkpoints: the proof program and the worker
    ([crates/proof-impl/checkpoint/src/statements.rs], [crates/ol/checkpoint/src])

    The zkVM guest that proves an epoch executes the blocks by assembling them
    again and comparing the headers, rebuilds the epoch from the witnessed DA
    blob, and commits a claim; it has no errors, it panics.  The worker collects
    and replays every finished epoch, extracts the blob and stores the checkpoint
    payload.  Claim and payload types come from crates outside [src/]; they are
    the fields of [CheckpointExt]. *)

From S2P Require Import Prelude SortedMap Identifiers AcctTypes ChainTypes Externals CodecTypes Varint64.
From S2P Require Import DaFramework OLDaTypes LedgerTypes Bridge OLAccount OLState StateAccessor OLDaApply.
From S2P Require Import IndexerLayer DaLayer MemoryLayer SnarkSys StfContext StfTx StfManifests StfBlock.
From S2P Require Import Genesis.

#[export] Instance OLBlockHeader_eq_dec : EqDecision OLBlockHeader.
Proof. solve_decision. Defined.

(** [strata_asm_checkpoint_types] and [strata_asm_manifest_types]; the bounded
    constructors return [None] when a bound is exceeded. *)
Class CheckpointExt `{X : Ext} := {
  L2BlockRange : Type;
  L2BlockRange_new : OLBlockCommitment -> OLBlockCommitment -> L2BlockRange;
  TerminalHeaderComplement : Type;
  TerminalHeaderComplement_new : Z -> OLBlockId -> Buf32 -> Buf32 -> TerminalHeaderComplement;
  thc_compute_hash : TerminalHeaderComplement -> Buf32;
  CheckpointClaim : Type;
  CheckpointClaim_new : Epoch -> L2BlockRange -> Buf32 -> Buf32 -> Buf32 -> Buf32 -> CheckpointClaim;
  compute_asm_manifests_hash : list AsmManifest -> Buf32;
  ssz_logs : list OLLog -> bytes;

  CheckpointTip : Type;
  CheckpointTip_new : Epoch -> L1Height -> OLBlockCommitment -> CheckpointTip;
  CheckpointOLLog : Type;
  CheckpointOLLog_new : AccountSerial -> bytes -> CheckpointOLLog;
  CheckpointSidecar : Type;
  CheckpointSidecar_new : bytes -> list CheckpointOLLog -> TerminalHeaderComplement -> option CheckpointSidecar;
  CheckpointPayload : Type;
  CheckpointPayload_new : CheckpointTip -> CheckpointSidecar -> bytes -> option CheckpointPayload;
}.

Section program.
Context `{XR : ExtRoot} `{CE : !CodecExt} `{PE : !PredicateExt} `{CK : !CheckpointExt}.

(** [OLBlockHeader::compute_block_commitment]. *)
Definition compute_block_commitment (h : OLBlockHeader) : OLBlockCommitment :=
  {| obc_slot := hdr_slot h; obc_blkid := compute_blkid h |}.

Record EpochExecTrace := {
  eet_logs : list OLLog;
  eet_asm_manifests_hash : Buf32;
  eet_terminal_header : OLBlockHeader;
  eet_epoch_manifests : list AsmManifest;
}.

(** One iteration of the block loop: the logs of the block. *)
Definition prove_block {E} (block : OLBlock) (parent : OLBlockHeader) (bridge_params : BridgeParams)
    : M E MemoryStateBaseLayer (list OLLog * OLBlockHeader) :=
  let* context := mlift (BlockContext_new (BlockInfo_from_header (blk_header block)) (Some parent)) in
  let components := {|
    bcs_tx_segment := match body_tx_segment (blk_body block) with Some seg => seg | None => [] end;
    bcs_manifest_container := body_manifests (blk_body block);
    bcs_is_terminal := hdr_is_terminal (blk_header block) |} in
  let* output := mexpect (construct_block context components bridge_params) in
  let header := cb_header (cbo_completed_block output) in
  if decide (header = blk_header block) then mret (beo_logs (cbo_outputs output), header) else mpanic.

(** The loop, with what has been collected so far. *)
Fixpoint prove_blocks {E} (blocks : list OLBlock) (parent : OLBlockHeader) (logs : list OLLog)
    (epoch_manifests : list AsmManifest) (bridge_params : BridgeParams)
    : M E MemoryStateBaseLayer (list OLLog * list AsmManifest * OLBlockHeader) :=
  match blocks with
  | [] => mret (logs, epoch_manifests, parent)
  | block :: blocks' =>
      let epoch_manifests := epoch_manifests ++
        match body_manifests (blk_body block) with Some mfs => mfs | None => [] end in
      let* (block_logs, header) := prove_block block parent bridge_params in
      prove_blocks blocks' header (logs ++ block_logs) epoch_manifests bridge_params
  end.

Definition prover_execute_block_batch {E} (blocks : list OLBlock) (initial_parent : OLBlockHeader)
    (bridge_params : BridgeParams) : M E MemoryStateBaseLayer EpochExecTrace :=
  let* (collected, parent) := prove_blocks blocks initial_parent [] [] bridge_params in
  let '(logs, epoch_manifests) := collected in
  mret {| eet_logs := logs; eet_asm_manifests_hash := compute_asm_manifests_hash epoch_manifests;
          eet_terminal_header := parent; eet_epoch_manifests := epoch_manifests |}.

Definition assert {E} (b : bool) : res E unit := if b then Ok tt else Panic.

(** [.expect(..)] on a result. *)
Definition expect_ok {E F A} (r : res F A) : res E A := match r with Ok a => Ok a | _ => Panic end.

(** The hash of the parts of the terminal header that the sidecar carries. *)
Definition terminal_complement (h : OLBlockHeader) : TerminalHeaderComplement :=
  TerminalHeaderComplement_new (hdr_timestamp h) (hdr_parent_blkid h) (hdr_body_root h) (hdr_logs_root h).

Definition process_ol_stf_core {E} (state : OLState) (blocks : list OLBlock) (parent : OLBlockHeader)
    (da_state_diff_bytes : bytes) (bridge_params : BridgeParams) : res E CheckpointClaim :=
  let! state := MemoryStateBaseLayer_new state in
  let! initial_state_root := expect_ok (compute_state_root state) in
  let! _ := assert (hdr_state_root parent =? initial_state_root) in
  let! _ := assert (negb (match blocks with [] => true | _ => false end)) in
  let! _ := assert (hdr_is_terminal parent) in
  let! initial_state := MemoryStateBaseLayer_new (mem_state state) in
  let! terminal_input_block := expect (last blocks) in
  let! _ := assert (hdr_is_terminal (blk_header terminal_input_block)) in
  let! trace := fst (prover_execute_block_batch blocks parent bridge_params state) in
  let terminal_header := eet_terminal_header trace in
  let l2_range := L2BlockRange_new (compute_block_commitment parent) (compute_block_commitment terminal_header) in
  let epoch := hdr_epoch terminal_header in
  let! _ := assert (wrap_u32 (hdr_epoch parent + 1) =? epoch) in
  let! payload := expect_ok (decode_ol_da_payload_bytes da_state_diff_bytes) in
  let epoch_info := {| ei_terminal_info := BlockInfo_from_header terminal_header;
                       ei_prev_terminal := compute_block_commitment parent |} in
  let exp := {| eee_epoch_post_state_root := hdr_state_root terminal_header |} in
  let! _ := expect_ok (fst (verify_epoch_with_diff apply_to_state epoch_info payload
                              (eet_epoch_manifests trace) exp initial_state)) in
  Ok (CheckpointClaim_new epoch l2_range (eet_asm_manifests_hash trace) (hash_raw da_state_diff_bytes)
        (hash_raw (ssz_logs (eet_logs trace))) (thc_compute_hash (terminal_complement terminal_header))).
End program.

(** * The checkpoint worker ([crates/ol/checkpoint/src])

    The service that, for every summarized epoch, collects its blocks, replays
    them with the DA accumulating layer, and stores a checkpoint payload.  The
    trait [CheckpointWorkerContext] over the node's storage is a class here; its
    replay part, which the production context implements with the STF, is
    translated.  Errors are [anyhow] errors, of which the service only asks
    whether they are a [CheckpointNotReady]. *)

(** ** [errors.rs] *)

Inductive CheckpointNotReady :=
| NoEpochCommitment (epoch : Epoch)
| NoEpochSummary (commitment : EpochCommitment).

Inductive WorkerError :=
| NotReady (e : CheckpointNotReady)
| WorkerFailed.

(** [EpochSummary::get_epoch_commitment]. *)
Definition get_epoch_commitment (s : EpochSummary) : EpochCommitment :=
  {| ec_epoch := esm_epoch s; ec_last_slot := obc_slot (esm_terminal s); ec_last_blkid := obc_blkid (esm_terminal s) |}.

(** ** [context.rs] *)

Section context.
Context `{XR : ExtRoot} `{CE : !CodecExt} `{DE : !DaExt} `{PE : !PredicateExt} `{CK : !CheckpointExt}.

(** The trait, over a type [C] of contexts with their storage. *)
Class CheckpointWorkerContext (C : Type) := {
  get_last_summarized_epoch : C -> res WorkerError (option Epoch);
  get_canonical_epoch_commitment_at : C -> Epoch -> res WorkerError (option EpochCommitment);
  get_epoch_summary : C -> EpochCommitment -> res WorkerError (option EpochSummary);
  get_checkpoint_payload : C -> EpochCommitment -> res WorkerError (option CheckpointPayload);
  get_last_checkpoint_payload_epoch : C -> res WorkerError (option EpochCommitment);
  get_history_base_epoch : C -> res WorkerError (option Epoch);
  put_checkpoint_payload : EpochCommitment -> CheckpointPayload -> M WorkerError C unit;
  get_proof : C -> EpochCommitment -> res WorkerError bytes;
  get_block_header : C -> OLBlockCommitment -> res WorkerError (option OLBlockHeader);
  get_block : C -> OLBlockId -> res WorkerError (option OLBlock);
  get_ol_state : C -> OLBlockCommitment -> res WorkerError (option OLState);
  fetch_da_for_epoch : C -> EpochSummary -> res WorkerError (bytes * list OLLog);
}.

Context {C : Type} `{!CheckpointWorkerContext C}.

(** The walk back from [cur_id]; [blocks] has been collected, the latest block
    first.  [None]: not finished within [fuel] blocks. *)
Fixpoint collect_blocks (fuel : nat) (summary : EpochSummary) (ctx : C) (blocks : list OLBlock) (cur_id : OLBlockId)
    : option (res WorkerError (list OLBlock)) :=
  match fuel with
  | O => None
  | S fuel' =>
      match (let! o := get_block ctx cur_id in ok_or o WorkerFailed) with
      | Ok block =>
          if negb (obc_slot (esm_prev_terminal summary) <? hdr_slot (blk_header block)) then Some (Err WorkerFailed)
          else if negb (hdr_epoch (blk_header block) =? esm_epoch summary) then Some (Err WorkerFailed)
          else
            let parent_id := hdr_parent_blkid (blk_header block) in
            let blocks := blocks ++ [block] in
            if parent_id =? obc_blkid (esm_prev_terminal summary) then Some (Ok blocks)
            else collect_blocks fuel' summary ctx blocks parent_id
      | Err e => Some (Err e)
      | Panic => Some Panic
      end
  end.

Definition collect_epoch_blocks (fuel : nat) (summary : EpochSummary) (ctx : C)
    : option (res WorkerError (list OLBlock)) :=
  match collect_blocks fuel summary ctx [] (obc_blkid (esm_terminal summary)) with
  | Some (Ok blocks) => Some (match rev blocks with [] => Err WorkerFailed | blocks => Ok blocks end)
  | o => o
  end.

(** The part of the replay after the blocks have been collected. *)
Definition replay_blocks (ctx : C) (summary : EpochSummary) (bridge_params : BridgeParams) (epoch_blocks : list OLBlock)
    : res WorkerError (bytes * list OLLog * OLBlockHeader) :=
  let prev_terminal := esm_prev_terminal summary in
  let! o := get_block_header ctx prev_terminal in
  let! prev_terminal_header := ok_or o WorkerFailed in
  let! o := get_ol_state ctx prev_terminal in
  let! ol_state_raw := ok_or o WorkerFailed in
  let! ol_state := MemoryStateBaseLayer_new ol_state_raw in
  let '(r, da_state) := execute_block_batch_predrain epoch_blocks prev_terminal_header bridge_params
                          (DaAccumulatingState_new ol_state) in
  let! logs := res_map_err (fun _ => WorkerFailed) r in
  let! terminal_block := expect (last epoch_blocks) in
  let! o := res_map_err (fun _ => WorkerFailed) (fst (take_completed_epoch_da_blob da_state)) in
  let! da_bytes := ok_or o WorkerFailed in
  Ok (da_bytes, logs, blk_header terminal_block).

Definition replay_epoch_and_compute_da (fuel : nat) (ctx : C) (summary : EpochSummary) (bridge_params : BridgeParams)
    : option (res WorkerError (bytes * list OLLog * OLBlockHeader)) :=
  match collect_epoch_blocks fuel summary ctx with
  | Some (Ok epoch_blocks) => Some (replay_blocks ctx summary bridge_params epoch_blocks)
  | Some (Err e) => Some (Err e)
  | Some Panic => Some Panic
  | None => None
  end.

Definition assert_terminal_commitment_matches (h : OLBlockHeader) (expected : OLBlockCommitment) : res WorkerError unit :=
  if negb (hdr_slot h =? obc_slot expected) then Err WorkerFailed
  else if negb (compute_blkid h =? obc_blkid expected) then Err WorkerFailed
  else Ok tt.

(** [CheckpointWorkerContextImpl::fetch_da_for_epoch]. *)
Definition impl_fetch_da_for_epoch (fuel : nat) (bridge_params : BridgeParams) (ctx : C) (summary : EpochSummary)
    : option (res WorkerError (bytes * list OLLog)) :=
  match replay_epoch_and_compute_da fuel ctx summary bridge_params with
  | Some r => Some (
      let! (out, terminal_header) := r in
      let! _ := assert_terminal_commitment_matches terminal_header (esm_terminal summary) in
      Ok out)
  | None => None
  end.

(** ** [state.rs] *)

Record OLCheckpointServiceState := {
  ocs_ctx : C;
  ocs_initialized : bool;
  ocs_last_processed_epoch : option Epoch;
}.

Definition OLCheckpointServiceState_new (ctx : C) : OLCheckpointServiceState :=
  {| ocs_ctx := ctx; ocs_initialized := false; ocs_last_processed_epoch := None |}.

Definition ocs_with_ctx (s : OLCheckpointServiceState) (ctx : C) : OLCheckpointServiceState :=
  {| ocs_ctx := ctx; ocs_initialized := ocs_initialized s; ocs_last_processed_epoch := ocs_last_processed_epoch s |}.
Definition ocs_with_cursor (s : OLCheckpointServiceState) (o : option Epoch) : OLCheckpointServiceState :=
  {| ocs_ctx := ocs_ctx s; ocs_initialized := ocs_initialized s; ocs_last_processed_epoch := o |}.

Definition on_ctx {A} (m : M WorkerError C A) : M WorkerError OLCheckpointServiceState A := fun s =>
  let '(r, ctx) := m (ocs_ctx s) in (r, ocs_with_ctx s ctx).

Definition build_checkpoint_payload (commitment : EpochCommitment) (summary : EpochSummary) (ctx : C)
    : res WorkerError CheckpointPayload :=
  let new_tip := CheckpointTip_new (esm_epoch summary) (l1c_height (esm_new_l1 summary)) (esm_terminal summary) in
  let! (state_bytes, ol_logs) := fetch_da_for_epoch ctx summary in
  let ol_logs := map (fun log => CheckpointOLLog_new (log_account_serial log) (log_payload log)) ol_logs in
  let! o := get_block_header ctx (esm_terminal summary) in
  let! terminal_header := ok_or o WorkerFailed in
  let! sidecar := ok_or (CheckpointSidecar_new state_bytes ol_logs (terminal_complement terminal_header)) WorkerFailed in
  let! proof := get_proof ctx commitment in
  ok_or (CheckpointPayload_new new_tip sidecar proof) WorkerFailed.

Definition process_epoch (epoch_number : Epoch) : M WorkerError OLCheckpointServiceState unit :=
  let* o := mreads_res (fun s => get_canonical_epoch_commitment_at (ocs_ctx s) epoch_number) in
  let* commitment := mlift (ok_or o (NotReady (NoEpochCommitment epoch_number))) in
  let* o := mreads_res (fun s => get_epoch_summary (ocs_ctx s) commitment) in
  let* summary := mlift (ok_or o (NotReady (NoEpochSummary commitment))) in
  let epoch := esm_epoch summary in
  let* existing := mreads_res (fun s => get_checkpoint_payload (ocs_ctx s) commitment) in
  match existing with
  | Some _ => mmodify (fun s => ocs_with_cursor s (Some epoch))
  | None =>
      let* payload := mreads_res (fun s => build_checkpoint_payload commitment summary (ocs_ctx s)) in
      on_ctx (put_checkpoint_payload commitment payload) ;;;
      mmodify (fun s => ocs_with_cursor s (Some epoch))
  end.

(** [first..=last] *)
Definition epoch_range (first last : Epoch) : list Epoch := seqZ first (last - first + 1).

(** The sanity check against [target] at the end only logs. *)
Definition handle_complete_epoch (target : EpochCommitment) : M WorkerError OLCheckpointServiceState unit :=
  let* initialized := mreads ocs_initialized in
  if negb initialized then merr WorkerFailed else
  let* o := mreads_res (fun s => get_last_summarized_epoch (ocs_ctx s)) in
  match o with
  | None => mret tt
  | Some target_epoch_index =>
      let* cursor := mreads ocs_last_processed_epoch in
      let start := match cursor with Some e => Z.min (e + 1) U32_MAX | None => 1 end in
      miter process_epoch (epoch_range start target_epoch_index)
  end.

(** The first epoch, from the latest down, whose summary is the one of the last
    payload. *)
Fixpoint find_payload_epoch (ctx : C) (last_checkpoint : EpochCommitment) (epochs : list Epoch) : bool :=
  match epochs with
  | [] => false
  | epoch_index :: epochs' =>
      match get_canonical_epoch_commitment_at ctx epoch_index with
      | Ok (Some commitment) =>
          match get_epoch_summary ctx commitment with
          | Ok (Some summary) =>
              if decide (get_epoch_commitment summary = last_checkpoint) then true
              else find_payload_epoch ctx last_checkpoint epochs'
          | _ => find_payload_epoch ctx last_checkpoint epochs'
          end
      | _ => find_payload_epoch ctx last_checkpoint epochs'
      end
  end.

Definition init_cursor_from_db (s : OLCheckpointServiceState) : OLCheckpointServiceState :=
  let ctx := ocs_ctx s in
  let floor := match get_history_base_epoch ctx with Ok o => o | _ => None end in
  let s := ocs_with_cursor s floor in
  match get_last_checkpoint_payload_epoch ctx with
  | Ok (Some last_checkpoint_commitment) =>
      match get_last_summarized_epoch ctx with
      | Ok (Some last_summarized_index) =>
          if find_payload_epoch ctx last_checkpoint_commitment (rev (epoch_range 0 last_summarized_index)) then
            let payload_epoch := ec_epoch last_checkpoint_commitment in
            ocs_with_cursor s (Some (match floor with Some floor => Z.max floor payload_epoch | None => payload_epoch end))
          else s
      | _ => s
      end
  | _ => s
  end.

Definition initialize (s : OLCheckpointServiceState) : OLCheckpointServiceState :=
  let s := init_cursor_from_db s in
  {| ocs_ctx := ocs_ctx s; ocs_initialized := true; ocs_last_processed_epoch := ocs_last_processed_epoch s |}.

Definition last_summarized_commitment (s : OLCheckpointServiceState) : res WorkerError (option EpochCommitment) :=
  let! o := get_last_summarized_epoch (ocs_ctx s) in
  match o with
  | None => Ok None
  | Some epoch_index => get_canonical_epoch_commitment_at (ocs_ctx s) epoch_index
  end.

(** ** [service.rs] *)

(** The response is always [Response::Continue]; data that is not ready yet is not
    an error. *)
Definition process_input (input : option EpochCommitment) : M WorkerError OLCheckpointServiceState unit := fun s =>
  match input with
  | None => (Ok tt, s)
  | Some commitment =>
      match handle_complete_epoch commitment s with
      | (Ok _, s') => (Ok tt, s')
      | (Err (NotReady _), s') => (Ok tt, s')
      | (Err WorkerFailed, s') => (Err WorkerFailed, s')
      | (Panic, s') => (Panic, s')
      end
  end.

Definition on_launch : M WorkerError OLCheckpointServiceState unit :=
  mmodify initialize ;;;
  let* o := mreads_res last_summarized_commitment in
  match o with
  | Some commitment => process_input (Some commitment)
  | None => mret tt
  end.
End context.

Arguments OLCheckpointServiceState : clear implicits.
