(* ===== verification/CheckpointSpec.v ===== *)
(** * What the checkpoint worker posts can be proved

    The blob the worker extracts for an epoch, the blocks of the epoch and the
    state before it are the inputs of the proof program.  On them the program
    never panics: the blocks assemble again, the blob decodes, and the epoch
    rebuilt from it has the state root of the terminal header.  The claim commits
    to the blob and to the logs the worker posts. *)

From Stdlib Require Import String.
From S2P Require Import Prelude SortedMap Identifiers AcctTypes ChainTypes Externals.
From S2P Require Import CodecTypes Varint64 DaFramework OLDaTypes OLDaSpec LedgerTypes Bridge.
From S2P Require Import OLAccount OLState StateAccessor OLDaApply LedgerSpec MemoryLayer IndexerLayer DaLayer.
From S2P Require Import StfContext StfManifests StfBlock StfSim DaSim StfAgreement DaReplay StfValue.
From S2P Require Import StfProgress DaDiff DaEpoch Genesis CheckpointWorker.

Section checkpoint.
Context `{XR : ExtRoot} `{CE : !CodecExt} `{DE : !DaExt} `{PE : !PredicateExt} `{CK : !CheckpointExt}.
Context `{!AmountLaws X, !CodecLaws CE, !PredicateLaws X PE, !MsgCodecLaws X, !MmrLaws X, !EnvelopeLaws X}.

(** ** Blocks assemble again *)

Definition block_canonical (b : OLBlock) : Prop := canonical_block (blk_header b) (blk_body b).

Lemma prove_block_run {E} block parent bp (m m' : MemoryStateBaseLayer) logs :
  block_canonical block ->
  verify_block (blk_header block) (Some parent) (blk_body block) bp m = (Ok logs, m') ->
  prove_block (E := E) block parent bp m = (Ok (logs, blk_header block), m').
Proof.
  intros Hc H. destruct (verified_block_constructs _ _ _ _ _ _ Hc H) as [root Hrun]. unfold prove_block.
  rewrite (mbind_ok _ _ _ {| bc_block_info := BlockInfo_from_header (blk_header block); bc_parent_header := Some parent |} m) by done.
  unfold BlockComponents_from_block in Hrun. unfold mbind, mexpect. cbv zeta.
  change (match body_tx_segment (blk_body block) with Some seg => seg | None => [] end)
    with (default [] (body_tx_segment (blk_body block))).
  rewrite Hrun. cbn [cbo_completed_block cb_header]. by rewrite decide_True.
Qed.

Lemma prove_blocks_run {E} blocks parent bp L mfs (m m' : MemoryStateBaseLayer) logs :
  Forall block_canonical blocks -> execute_block_batch blocks parent bp m = (Ok logs, m') ->
  prove_blocks (E := E) blocks parent L mfs bp m = (Ok (L ++ logs, mfs ++ all_manifests blocks, tip parent blocks), m').
Proof.
  revert parent L mfs m logs. induction blocks as [|b blocks IH]; intros parent L mfs m logs Hall H;
    cbn [execute_block_batch prove_blocks] in *.
  - unfold mret in *. simplify_eq. by rewrite !app_nil_r.
  - apply Forall_cons in Hall as [Hb Hall]. apply mbind_returns in H as (l1 & m1 & H1 & H).
    apply mbind_returns in H as (l2 & m2 & H2 & H). unfold mret in H. simplify_eq. cbv zeta.
    rewrite (mbind_ok _ _ _ _ _ (prove_block_run _ _ _ _ _ _ Hb H1)). rewrite (IH _ _ _ _ _ Hall H2).
    by rewrite tip_cons, <- !app_assoc.
Qed.

Lemma prover_batch_run {E} blocks parent bp (m m' : MemoryStateBaseLayer) logs :
  Forall block_canonical blocks -> execute_block_batch blocks parent bp m = (Ok logs, m') ->
  prover_execute_block_batch (E := E) blocks parent bp m =
    (Ok {| eet_logs := logs; eet_asm_manifests_hash := compute_asm_manifests_hash (all_manifests blocks);
           eet_terminal_header := tip parent blocks; eet_epoch_manifests := all_manifests blocks |}, m').
Proof.
  intros Hall H. unfold prover_execute_block_batch.
  by rewrite (mbind_ok _ _ _ _ _ (prove_blocks_run _ _ _ [] [] _ _ _ Hall H)).
Qed.

(** ** The start of an epoch *)

(** The state [l] is the one the terminal block [parent] of the previous epoch
    leads to. *)
Record epoch_start (l : LState) (parent : OLBlockHeader) : Prop := {
  eps_typed : da_typed l;
  eps_keys : keys_ok l;
  eps_height : 0 <= l1c_height (es_last_l1_block (ls_epoch l));
  eps_bounded : header_bounded parent;
  eps_terminal : hdr_is_terminal parent = true;
  eps_on_top : on_top l parent;
  eps_root : ls_root l = hdr_state_root parent;
}.

Lemma epoch_terminals init final : epoch_blocks init final -> num_terminals (init ++ [final]) = 1.
Proof.
  intros [Hn Ht]. unfold num_terminals. induction Hn as [|b init Hb Hn IH]; unfold zsum in *; simpl; [by rewrite Ht|].
  rewrite Hb. simpl. simpl in IH. rewrite IH. done.
Qed.

Lemma tip_snoc parent init final : tip parent (init ++ [final]) = blk_header final.
Proof. unfold tip. by rewrite last_snoc. Qed.

(** The epoch of the blocks is the one after the parent's. *)
Lemma epoch_of_blocks init final parent bp (l l' : LState) logs :
  epoch_start l parent -> Forall block_typed (init ++ [final]) -> epoch_blocks init final ->
  execute_block_batch (init ++ [final]) parent bp l = (Ok logs, l') ->
  hdr_epoch (blk_header final) = hdr_epoch parent + 1 /\ cur_epoch l = hdr_epoch parent + 1.
Proof.
  intros [_ _ _ Hb Ht Htop _] Hall He H. assert (Hall' : Forall (fun b => header_bounded (blk_header b)) (init ++ [final])).
  { eapply Forall_impl; [exact Hall|]. by intros b [? _]. }
  apply block_batch_chain in H as (_ & [_ H1] & _ & H2); [|done..]. rewrite epoch_terminals in H2 by done.
  destruct He as [_ Hft]. destruct Htop as [_ Htop]. rewrite tip_snoc, Hft in H1. rewrite Ht in Htop. unfold b2z in *. lia.
Qed.

(** ** Rebuilding in memory *)

Lemma state_diff_limbo_bounded p : state_diff_ok (pl_state_diff p) -> limbo_bounded p.
Proof.
  intros [[_ Hl] _]. unfold limbo_bounded, counter_of in *.
  destruct (gsd_limbo_funds_sats _) as [|d]; simpl; [done|]. by destruct Hl as [[? _] _].
Qed.

(** The payload of the blob verifies the epoch on the in-memory state. *)
Lemma blob_verifies init final parent bp (m m' : MemoryStateBaseLayer) l0 d d' logs logs' o :
  mem_refines m l0 -> epoch_start l0 parent -> epoch_blocks init final -> Forall block_typed (init ++ [final]) ->
  execute_block_batch (init ++ [final]) parent bp m = (Ok logs, m') ->
  execute_block_batch_predrain (init ++ [final]) parent bp (DaAccumulatingState_new m) = (Ok logs', d) ->
  take_completed_epoch_da_blob d = (Ok o, d') ->
  logs' = logs /\ hdr_epoch (blk_header final) = hdr_epoch parent + 1 /\
  exists blob p t, o = Some blob /\ decode_ol_da_payload_bytes blob = Ok p /\
    verify_epoch_with_diff apply_to_state
      {| ei_terminal_info := BlockInfo_from_header (blk_header final); ei_prev_terminal := compute_block_commitment parent |}
      p (all_manifests (init ++ [final])) {| eee_epoch_post_state_root := hdr_state_root (blk_header final) |} m = (Ok tt, t).
Proof.
  intros Hr Hst He Hall Hrun Hda Htake. pose proof Hst as [Hty Hk Hh _ _ _ _]. pose proof (mr_wf _ _ Hr) as Hwf.
  destruct (execute_block_batch_sim mem_refines (init ++ [final]) parent bp m l0 Hr) as [H1 H2]. rewrite Hrun in H1, H2.
  destruct (execute_block_batch (init ++ [final]) parent bp l0) as [r l'] eqn:Hl. simpl in H1, H2. subst r. clear H2.
  destruct (epoch_blob_applies mem_refines _ _ m l0 d d' _ _ _ _ _ Hr Hk Hwf Hty Hall Hda Htake)
    as (l1 & blob & p & Hpre & _ & -> & _ & Hdec & Hok & Hnew & Happ).
  destruct (epoch_batch_split _ _ _ _ _ _ _ He Hl) as (l1' & Hpre' & _).
  assert (logs' = logs /\ l1' = l1) as [-> ->] by (split; congruence). clear Hpre'.
  destruct (epoch_of_blocks _ _ _ _ _ _ _ Hst Hall He Hl) as [Hep Hcur]. split; [done|]. split; [done|].
  set (info := {| ei_terminal_info := _; ei_prev_terminal := _ |}).
  assert (Hv : verify_epoch_with_diff apply_to_state info p (all_manifests (init ++ [final]))
    {| eee_epoch_post_state_root := hdr_state_root (blk_header final) |} l0 = (Ok tt, l')).
  { eapply epoch_with_diff_run; try done; [rewrite Hcur; exact Hep|]. intros s1 Hs1. by assert (s1 = l1) as -> by congruence. }
  destruct (verify_epoch_with_diff_lift mem_refines apply_to_state apply_to_state info p (all_manifests (init ++ [final]))
    {| eee_epoch_post_state_root := hdr_state_root (blk_header final) |} m l0 l' Hr) as (t & Ht & _); [|done|].
  - intros s2' Hs2. eapply mem_apply_to_state_run; [done|by apply state_diff_limbo_bounded|done|apply Hty|done].
  - by exists blob, p, t.
Qed.

Lemma mem_new_state {E} raw m : MemoryStateBaseLayer_new (E := E) raw = Ok m -> mem_state m = raw.
Proof. unfold MemoryStateBaseLayer_new. destruct (_ =? _); intros; by simplify_eq/=. Qed.

(** What the claim of an epoch says. *)
Definition epoch_claim (blocks : list OLBlock) (parent final : OLBlockHeader) (blob : bytes) (logs : list OLLog)
    : CheckpointClaim :=
  CheckpointClaim_new (hdr_epoch final)
    (L2BlockRange_new (compute_block_commitment parent) (compute_block_commitment final))
    (compute_asm_manifests_hash (all_manifests blocks)) (hash_raw blob) (hash_raw (ssz_logs logs))
    (thc_compute_hash (terminal_complement final)).

(** ** What a claim guarantees *)

(** Verification leaves a state with the root of the last header. *)
Lemma execute_block_batch_root {S} `{!IStateAccessorMut S} blocks parent bp (s s' : S) logs final :
  last blocks = Some final -> execute_block_batch blocks parent bp s = (Ok logs, s') ->
  compute_state_root s' = Ok (hdr_state_root (blk_header final)).
Proof.
  revert parent s logs. induction blocks as [|b blocks IH]; intros parent s logs Hl H; [done|].
  cbn [execute_block_batch] in H. apply mbind_returns in H as (l1 & s1 & H1 & H). apply mbind_returns in H as (l2 & s2 & H2 & H).
  unfold mret in H. simplify_eq. destruct blocks as [|b2 blocks]; [|by eapply IH].
  unfold mret in H2. injection H2 as <- <-. apply verify_block_inv in H1 as (? & ? & s3 & Hpre & Hd & _).
  apply apply_epoch_terminal_inv in Hd. assert (b = final) as -> by (simpl in Hl; congruence). clear IH Hl.
  destruct (hdr_is_terminal (blk_header final)) eqn:Ht; destruct Hd as [Hd Hr]; [done|]. rewrite Hd. apply verify_block_predrain_inv in Hpre as (_ & _ & ? & ? & ? & _ & _ & _ & _ & Hroot). by apply Hroot.
Qed.

(** What the blocks given to the program are like: headers within their types,
    past epoch zero, with a transaction segment. *)
Definition provable_block (b : OLBlock) : Prop :=
  header_bounded (blk_header b) /\ hdr_epoch (blk_header b) <> 0 /\ is_Some (body_tx_segment (blk_body b)).

Lemma prove_block_returns {E} block parent bp (m m' : MemoryStateBaseLayer) logs h :
  header_bounded parent -> hdr_epoch (blk_header block) <> 0 -> is_Some (body_tx_segment (blk_body block)) ->
  prove_block (E := E) block parent bp m = (Ok (logs, h), m') ->
  h = blk_header block /\ verify_block (blk_header block) (Some parent) (blk_body block) bp m = (Ok logs, m').
Proof.
  intros Hb Hep [txs Htxs] H. unfold prove_block in H. apply mbind_returns in H as (ctx & ? & H0 & H).
  unfold mlift in H0. simpl in H0. injection H0 as <- <-. cbv zeta in H. rewrite Htxs in H.
  apply mbind_returns in H as (out & m1 & Hc & H). unfold mexpect in Hc.
  match type of Hc with (let '(_, _) := construct_block ?c ?k ?b ?s in _) = _ =>
    destruct (construct_block c k b s) as [[o| |] m2] eqn:Hrun; try done end.
  injection Hc as -> ->. destruct (decide _) as [Heq|]; [|done]. unfold mret in H. injection H as <- <- <-. split; [done|].
  apply construct_block_run in Hrun as Hv; [|by split]. cbv zeta in Hv. rewrite Heq in Hv.
  apply construct_block_inv in Hrun as (sr & lr & lg & s0 & s1 & -> & _).
  cbn [cbo_completed_block cb_body cbo_outputs beo_logs bc_parent_header] in *. rewrite <- Hv. f_equal.
  unfold assembled_body. simpl. destruct (blk_body block); simpl in *; congruence.
Qed.

Lemma prove_blocks_returns {E} blocks parent bp L mfs (m m' : MemoryStateBaseLayer) out :
  header_bounded parent ->
  Forall provable_block blocks ->
  prove_blocks (E := E) blocks parent L mfs bp m = (Ok out, m') ->
  exists logs, execute_block_batch blocks parent bp m = (Ok logs, m') /\
    out = (L ++ logs, mfs ++ all_manifests blocks, tip parent blocks).
Proof.
  revert parent L mfs m. induction blocks as [|b blocks IH]; intros parent L mfs m Hb Hall H;
    cbn [execute_block_batch prove_blocks] in *.
  - unfold mret in *. simplify_eq. exists []. by rewrite !app_nil_r.
  - apply Forall_cons in Hall as [(Hbb & He & Hs) Hall]. cbv zeta in H. apply mbind_returns in H as ([lg h] & m1 & H1 & H).
    apply prove_block_returns in H1 as [-> Hv]; [|done..]. apply IH in H as (logs & Hx & ->); [|done..].
    exists (lg ++ logs). rewrite (mbind_ok _ _ _ _ _ Hv), (mbind_ok _ _ _ _ _ Hx). split; [done|].
    by rewrite tip_cons, <- !app_assoc.
Qed.

Lemma assert_returns {E} b : assert (E := E) b = Ok tt -> b = true.
Proof. by destruct b. Qed.

Lemma expect_ok_returns {E F A} (r : res F A) a : expect_ok (E := E) r = Ok a -> r = Ok a.
Proof. destruct r; simpl; congruence. Qed.

Lemma res_bind_returns {E A B} (r : res E A) (k : A -> res E B) b :
  (let! a := r in k a) = Ok b -> exists a, r = Ok a /\ k a = Ok b.
Proof. destruct r; simpl; [eauto|done..]. Qed.

(** C3: a claim is sound.  If the proof program returns a claim for a state,
    blocks, a parent header and a blob, then the parent is terminal and has the
    root of the state, the blocks pass verification on it one after the other
    and the last one is the terminal block of the next epoch, and the blob
    decodes to a payload from which the epoch verifies; the state the blocks
    lead to and the state rebuilt from the blob have the terminal header's root;
    and the claim is the one of these blocks, this blob and the logs the
    verification emits. *)
Theorem proof_program_sound raw blocks parent blob bp claim :
  header_bounded parent -> Forall provable_block blocks ->
  process_ol_stf_core (E := WorkerError) raw blocks parent blob bp = Ok claim ->
  exists m final logs m' p t,
    MemoryStateBaseLayer_new (E := WorkerError) raw = Ok m /\ compute_state_root m = Ok (hdr_state_root parent) /\
    hdr_is_terminal parent = true /\ last blocks = Some final /\ hdr_is_terminal (blk_header final) = true /\
    hdr_epoch (blk_header final) = wrap_u32 (hdr_epoch parent + 1) /\
    execute_block_batch blocks parent bp m = (Ok logs, m') /\ compute_state_root m' = Ok (hdr_state_root (blk_header final)) /\
    decode_ol_da_payload_bytes blob = Ok p /\
    verify_epoch_with_diff apply_to_state
      {| ei_terminal_info := BlockInfo_from_header (blk_header final); ei_prev_terminal := compute_block_commitment parent |}
      p (all_manifests blocks) {| eee_epoch_post_state_root := hdr_state_root (blk_header final) |} m = (Ok tt, t) /\
    compute_state_root t = Ok (hdr_state_root (blk_header final)) /\
    claim = epoch_claim blocks parent (blk_header final) blob logs.
Proof.
  intros Hb Hall H. unfold process_ol_stf_core in H. apply res_bind_returns in H as (m & Hm & H).
  apply res_bind_returns in H as (root & Hroot%expect_ok_returns & H).
  apply res_bind_returns in H as ([] & Hr%assert_returns & H). apply res_bind_returns in H as ([] & _ & H).
  apply res_bind_returns in H as ([] & Ht%assert_returns & H). apply res_bind_returns in H as (m2 & Hm2 & H).
  apply res_bind_returns in H as (final & Hl & H). apply res_bind_returns in H as ([] & Hft%assert_returns & H).
  apply res_bind_returns in H as (trace & Htr & H). cbv zeta in H.
  apply res_bind_returns in H as ([] & Hep%assert_returns & H).
  apply res_bind_returns in H as (p & Hp%expect_ok_returns & H). apply res_bind_returns in H as ([] & Hv%expect_ok_returns & H).
  rewrite (mem_new_state _ _ Hm) in Hm2. assert (m2 = m) as -> by congruence. zbool. subst root.
  destruct (last blocks) as [f|] eqn:Hlast; [|done]. injection Hl as ->.
  destruct (prover_execute_block_batch _ _ _ _) as [r m'] eqn:Hx. simpl in Htr. subst r.
  apply mbind_returns in Hx as ([[lg mfs] tp] & m3 & Hx & Hret). unfold mret in Hret. injection Hret as <- <-.
  apply prove_blocks_returns in Hx as (logs & Hbatch & [= -> -> ->]); [|done..].
  assert (Htip : tip parent blocks = blk_header final) by (unfold tip; by rewrite Hlast).
  cbn [eet_terminal_header eet_epoch_manifests eet_logs eet_asm_manifests_hash app] in *. rewrite Htip in *.
  destruct (verify_epoch_with_diff _ _ _ _ _ _) as [r t] eqn:Hve. simpl in Hv. subst r.
  pose proof Hve as Hve'. apply mbind_returns in Hve' as ([] & t' & _ & Hc). apply check_state_root_returns in Hc as [-> Hc].
  exists m, final, logs, m3, p, t'. injection H as <-.
  assert (Hroot' : compute_state_root m3 = Ok (hdr_state_root (blk_header final))).
  { exact (execute_block_batch_root (S := MemoryStateBaseLayer) blocks parent bp m m3 logs final Hlast Hbatch). }
  by split_and!.
Qed.

(** ** The worker and the program *)

Section worker.
Context {C : Type} `{!CheckpointWorkerContext C}.

Lemma replay_blocks_returns (ctx : C) summary bp blocks out :
  replay_blocks ctx summary bp blocks = Ok out ->
  exists parent raw m logs d d' blob final,
    get_block_header ctx (esm_prev_terminal summary) = Ok (Some parent) /\
    get_ol_state ctx (esm_prev_terminal summary) = Ok (Some raw) /\ MemoryStateBaseLayer_new (E := WorkerError) raw = Ok m /\
    execute_block_batch_predrain blocks parent bp (DaAccumulatingState_new m) = (Ok logs, d) /\
    take_completed_epoch_da_blob d = (Ok (Some blob), d') /\ last blocks = Some final /\
    out = (blob, logs, blk_header final).
Proof.
  unfold replay_blocks. intros H.
  destruct (get_block_header _ _) as [[parent|]| |]; [|done..]. cbn [res_bind ok_or] in H.
  destruct (get_ol_state _ _) as [[raw|]| |]; [|done..]. cbn [res_bind ok_or] in H.
  destruct (MemoryStateBaseLayer_new raw) as [m| |] eqn:Hm; [|done..]. cbn [res_bind] in H.
  destruct (execute_block_batch_predrain _ _ _ _) as [[logs| |] d] eqn:Hd; [|done..]. cbn [res_bind res_map_err] in H.
  destruct (last blocks) as [final|] eqn:Hf; [|done]. cbn [expect res_bind] in H.
  destruct (take_completed_epoch_da_blob d) as [[[blob|]| |] d'] eqn:Ht; [|done..]. cbn in H. simplify_eq.
  by exists parent, raw, m, logs, d, d', blob, final.
Qed.

Lemma proof_program_run {E} init final parent bp raw (m m' : MemoryStateBaseLayer) l0 logs blob p t :
  MemoryStateBaseLayer_new (E := E) raw = Ok m -> mem_refines m l0 -> epoch_start l0 parent -> epoch_blocks init final ->
  Forall block_canonical (init ++ [final]) -> execute_block_batch (init ++ [final]) parent bp m = (Ok logs, m') ->
  header_bounded (blk_header final) -> hdr_epoch (blk_header final) = hdr_epoch parent + 1 ->
  decode_ol_da_payload_bytes blob = Ok p ->
  verify_epoch_with_diff apply_to_state
    {| ei_terminal_info := BlockInfo_from_header (blk_header final); ei_prev_terminal := compute_block_commitment parent |}
    p (all_manifests (init ++ [final])) {| eee_epoch_post_state_root := hdr_state_root (blk_header final) |} m = (Ok tt, t) ->
  process_ol_stf_core raw (init ++ [final]) parent blob bp
    = Ok (E := E) (epoch_claim (init ++ [final]) parent (blk_header final) blob logs).
Proof.
  intros Hm Hr [_ _ _ _ Ht _ Hroot] [_ Hft] Hcan Hrun (_ & _ & _ & Hu) Hep Hdec Hv. unfold process_ol_stf_core.
  rewrite Hm. cbn [res_bind]. rewrite (rs_compute_state_root m l0 Hr). simpl. rewrite Hroot, Z.eqb_refl. cbn [assert res_bind].
  rewrite (mem_new_state _ _ Hm), Hm, Ht, last_snoc.
  assert (negb (match init ++ [final] with [] => true | _ => false end) = true) as -> by (by destruct init).
  cbn [assert res_bind expect]. rewrite Hft. cbn [assert res_bind]. rewrite (prover_batch_run _ _ _ _ _ _ Hcan Hrun). rewrite tip_snoc.
  cbn [fst res_bind eet_terminal_header eet_epoch_manifests eet_asm_manifests_hash eet_logs].
  unfold wrap_u32. rewrite Z.mod_small by (unfold in_u32 in *; lia). rewrite Hep, Z.eqb_refl. cbn [assert res_bind].
  rewrite Hdec. cbn [expect_ok res_bind]. rewrite Hv. cbn [fst expect_ok res_bind]. unfold epoch_claim. by rewrite Hep.
Qed.

(** C2: what the checkpoint worker posts for an epoch can be proved.  If the
    worker replays the epoch and extracts a blob, and the blocks it collected,
    in the form assembly gives them, verify on the state before the epoch, then
    the logs of the replay are those of the blocks, and the proof program accepts
    that state, those blocks and the blob: it does not panic, and its claim
    commits to the epoch, the block range, the manifests, the blob, the logs and
    the terminal header. *)
Theorem checkpoint_provable fuel (ctx : C) summary bp init final parent raw (m m' : MemoryStateBaseLayer) l0 logs blob logs' hdr :
  collect_epoch_blocks fuel summary ctx = Some (Ok (init ++ [final])) ->
  get_block_header ctx (esm_prev_terminal summary) = Ok (Some parent) ->
  get_ol_state ctx (esm_prev_terminal summary) = Ok (Some raw) ->
  MemoryStateBaseLayer_new (E := WorkerError) raw = Ok m -> mem_refines m l0 -> epoch_start l0 parent ->
  epoch_blocks init final -> Forall block_typed (init ++ [final]) -> Forall block_canonical (init ++ [final]) ->
  execute_block_batch (init ++ [final]) parent bp m = (Ok logs, m') ->
  replay_epoch_and_compute_da fuel ctx summary bp = Some (Ok (blob, logs', hdr)) ->
  logs' = logs /\ hdr = blk_header final /\
  process_ol_stf_core raw (init ++ [final]) parent blob bp
    = Ok (E := WorkerError) (epoch_claim (init ++ [final]) parent hdr blob logs).
Proof.
  intros Hcol Hpar Hraw Hm Hr Hst He Hty Hcan Hrun Hrep. unfold replay_epoch_and_compute_da in Hrep. rewrite Hcol in Hrep.
  injection Hrep as Hrep.
  apply replay_blocks_returns in Hrep as (parent' & raw' & m2 & lg & d & d' & bl & fin & H1 & H2 & H3 & H4 & H5 & H6 & H7).
  assert (parent' = parent) as -> by congruence. assert (raw' = raw) as -> by congruence. assert (m2 = m) as -> by congruence.
  rewrite last_snoc in H6. injection H6 as <-. injection H7 as -> -> ->.
  destruct (blob_verifies _ _ _ _ _ _ _ _ _ _ _ _ Hr Hst He Hty Hrun H4 H5) as (-> & Hep & blob' & p & t & [= <-] & Hdec & Hv).
  split; [done|]. split; [done|]. eapply proof_program_run; try done.
  apply Forall_app in Hty as [_ [[Hb _] _]%Forall_cons]. done.
Qed.
End worker.
End checkpoint.
