(* ===== verification/CheckpointService.v ===== *)
(** * What the checkpoint worker promises

    Collecting the blocks of an epoch walks exactly the chain between its
    terminals.  The service checkpoints every summarized epoch in order: when
    the data of all of them is there, one input brings it up to the latest
    summary; when the data of an epoch is missing, it stops in front of that
    epoch and the next input resumes there.  A stored payload is never replaced. *)

From S2P Require Import Prelude SortedMap Identifiers AcctTypes ChainTypes Externals.
From S2P Require Import CodecTypes LedgerTypes Bridge OLAccount OLState StateAccessor OLDaApply.
From S2P Require Import IndexerLayer DaLayer MemoryLayer StfBlock Genesis CheckpointWorker.

Section service.
Context `{XR : ExtRoot} `{CE : !CodecExt} `{DE : !DaExt} `{PE : !PredicateExt} `{CK : !CheckpointExt}.
Context {C : Type} `{!CheckpointWorkerContext C}.

(** ** Collecting blocks *)

(** The blocks from [cur_id] back to the child of the previous terminal, the
    latest first. *)
Fixpoint epoch_chain (ctx : C) (summary : EpochSummary) (cur_id : OLBlockId) (blocks : list OLBlock) : Prop :=
  match blocks with
  | [] => False
  | b :: older =>
      get_block ctx cur_id = Ok (Some b) /\ obc_slot (esm_prev_terminal summary) < hdr_slot (blk_header b) /\
      hdr_epoch (blk_header b) = esm_epoch summary /\
      (hdr_parent_blkid (blk_header b) = obc_blkid (esm_prev_terminal summary) /\ older = [] \/
       hdr_parent_blkid (blk_header b) <> obc_blkid (esm_prev_terminal summary) /\
       epoch_chain ctx summary (hdr_parent_blkid (blk_header b)) older)
  end.

Lemma collect_blocks_chain fuel summary ctx acc cur_id blocks :
  collect_blocks fuel summary ctx acc cur_id = Some (Ok blocks) <->
  exists l, blocks = acc ++ l /\ epoch_chain ctx summary cur_id l /\ (length l <= fuel)%nat.
Proof.
  revert acc cur_id. induction fuel as [|fuel IH]; intros acc cur_id; simpl.
  - split; [done|]. intros ([|b l] & _ & Hc & Hl); simpl in *; [done|lia].
  - destruct (get_block ctx cur_id) as [[b|]| |] eqn:Hg; simpl.
    2-4: split; [done|]; intros ([|b l] & _ & Hc & _); simpl in *; [done|destruct Hc as (? & _); congruence].
    destruct (_ <? hdr_slot _) eqn:Hs; zbool; simpl.
    2: { split; [done|]. intros ([|b' l] & _ & Hc & _); simpl in *; [done|]. destruct Hc as (Hg' & Hs' & _).
         assert (b' = b) as -> by congruence. lia. }
    destruct (hdr_epoch _ =? _) eqn:He; zbool; simpl.
    2: { split; [done|]. intros ([|b' l] & _ & Hc & _); simpl in *; [done|]. destruct Hc as (Hg' & _ & He' & _).
         assert (b' = b) as -> by congruence. done. }
    destruct (hdr_parent_blkid _ =? _) eqn:Hp; zbool.
    + split.
      * intros [= <-]. exists [b]. simpl. split; [done|]. split; [|lia]. split_and!; try done. by left.
      * intros ([|b' l] & -> & Hc & _); simpl in *; [done|]. destruct Hc as (Hg' & _ & _ & Hc).
        assert (b' = b) as -> by congruence. destruct Hc as [[_ ->]|[? _]]; done.
    + rewrite IH. split.
      * intros (l & -> & Hc & Hl). exists (b :: l). rewrite <- app_assoc. simpl. split; [done|]. split; [|lia].
        split_and!; try done. by right.
      * intros ([|b' l] & -> & Hc & Hl); simpl in *; [done|]. destruct Hc as (Hg' & _ & _ & Hc).
        assert (b' = b) as -> by congruence. destruct Hc as [[? _]|[_ Hc]]; [done|]. exists l.
        rewrite <- app_assoc. split_and!; [done..|lia].
Qed.

(** Collecting the blocks of an epoch is walking its chain.  With fuel for
    at least as many blocks, the walk ends and returns exactly the chain of
    stored blocks from the child of the previous terminal to the terminal, all of
    them in the epoch and above the previous terminal's slot, the oldest first;
    and it returns blocks only if they are such a chain. *)
Theorem collect_epoch_blocks_chain fuel summary (ctx : C) blocks :
  collect_epoch_blocks fuel summary ctx = Some (Ok blocks) <->
  epoch_chain ctx summary (obc_blkid (esm_terminal summary)) (rev blocks) /\ (length blocks <= fuel)%nat.
Proof.
  unfold collect_epoch_blocks. split.
  - destruct (collect_blocks _ _ _ _ _) as [[l| |]|] eqn:Hc; [|done..]. apply collect_blocks_chain in Hc as (l' & -> & Hch & Hl).
    simpl. destruct (rev l') as [|b bs] eqn:Hr; intros [= <-]. rewrite <- Hr, rev_involutive, length_rev. done.
  - intros [Hch Hl]. assert (Hc : collect_blocks fuel summary ctx [] (obc_blkid (esm_terminal summary)) = Some (Ok (rev blocks))).
    { apply collect_blocks_chain. exists (rev blocks). by rewrite length_rev. }
    rewrite Hc, rev_involutive. destruct blocks; [|done]. done.
Qed.

(** ** The storage *)

(** What the service relies on: a payload that has been put is there, and putting
    it changes nothing else. *)
Record same_data (c c' : C) : Prop := {
  sd_summarized : get_last_summarized_epoch c' = get_last_summarized_epoch c;
  sd_commitment n : get_canonical_epoch_commitment_at c' n = get_canonical_epoch_commitment_at c n;
  sd_summary ec : get_epoch_summary c' ec = get_epoch_summary c ec;
  sd_header b : get_block_header c' b = get_block_header c b;
  sd_fetch s : fetch_da_for_epoch c' s = fetch_da_for_epoch c s;
  sd_proof ec : get_proof c' ec = get_proof c ec;
}.

Class StorageLaws : Prop := {
  put_stores ec p c : exists c', put_checkpoint_payload ec p c = (Ok tt, c') /\ same_data c c' /\
    get_checkpoint_payload c' ec = Ok (Some p) /\
    forall ec', ec' <> ec -> get_checkpoint_payload c' ec' = get_checkpoint_payload c ec';
}.

Context `{!StorageLaws}.

(** Payloads are added, never removed or replaced. *)
Definition payloads_kept (c c' : C) : Prop :=
  forall ec p, get_checkpoint_payload c ec = Ok (Some p) -> get_checkpoint_payload c' ec = Ok (Some p).

Record ctx_step (c c' : C) : Prop := {
  cst_data : same_data c c';
  cst_kept : payloads_kept c c';
  cst_none ec : get_checkpoint_payload c ec = Ok None -> exists o, get_checkpoint_payload c' ec = Ok o;
}.

#[local] Instance ctx_step_preorder : PreOrder ctx_step.
Proof.
  split.
  - intros c. split; [by split|by intros ec p|eauto].
  - intros c1 c2 c3 [[A1 A2 A3 A4 A5 A6] B1 D1] [[E1 E2 E3 E4 E5 E6] F1 G1]. split; [split; congruence|intros ec p Hp; auto|].
    intros ec Hn. destruct (D1 ec Hn) as [[p|] Ho]; eauto.
Qed.

(** ** One epoch *)

(** The data of epoch [n] is there: its commitment, its summary, and either a
    payload already or what it takes to build one. *)
Record epoch_ready (c : C) (n : Epoch) (ec : EpochCommitment) (summary : EpochSummary) : Prop := {
  er_commitment : get_canonical_epoch_commitment_at c n = Ok (Some ec);
  er_summary : get_epoch_summary c ec = Ok (Some summary);
  er_epoch : esm_epoch summary = n;
  er_payload : exists o, get_checkpoint_payload c ec = Ok o;
  er_build : exists p, build_checkpoint_payload ec summary c = Ok p;
}.

Definition ready (c : C) (n : Epoch) : Prop := exists ec summary, epoch_ready c n ec summary.

(** Epoch [n] has a payload. *)
Definition checkpointed (c : C) (n : Epoch) : Prop :=
  exists ec p, get_canonical_epoch_commitment_at c n = Ok (Some ec) /\ get_checkpoint_payload c ec = Ok (Some p).

Lemma ready_step c c' n : ctx_step c c' -> ready c n -> ready c' n.
Proof.
  intros [[A1 A2 A3 A4 A5 A6] Hk Hn] (ec & sm & [H1 H2 H3 [o Ho] [p H5]]). exists ec, sm. split; [congruence..| |].
  - destruct o as [q|]; [|by apply Hn]. exists (Some q). by apply Hk.
  - exists p. unfold build_checkpoint_payload in *. by rewrite A4, A5, A6.
Qed.

Lemma checkpointed_step c c' n : ctx_step c c' -> checkpointed c n -> checkpointed c' n.
Proof. intros [[] Hk _] (ec & p & H1 & H2). exists ec, p. split; [congruence|auto]. Qed.

Lemma process_epoch_run n s :
  ready (ocs_ctx s) n ->
  exists c', process_epoch n s = (Ok tt, ocs_with_cursor (ocs_with_ctx s c') (Some n)) /\
    ctx_step (ocs_ctx s) c' /\ checkpointed c' n.
Proof.
  intros (ec & sm & [H1 H2 H3 [o Ho] [p H5]]). unfold process_epoch, mbind, mreads_res, mlift. rewrite H1. simpl. rewrite H2. simpl.
  rewrite Ho, H3. destruct o as [q|].
  - exists (ocs_ctx s). split; [by destruct s|]. split; [reflexivity|]. by exists ec, q.
  - rewrite H5. unfold on_ctx. destruct (put_stores ec p (ocs_ctx s)) as (c' & Hput & Hsame & Hget & Hother). rewrite Hput.
    exists c'. split; [done|]. split.
    + split; [done| |].
      * intros ec' q Hq. destruct (decide (ec' = ec)) as [->|Hne]; [congruence|]. by rewrite Hother.
      * intros ec' Hn. destruct (decide (ec' = ec)) as [->|Hne]; [eauto|]. rewrite Hother by done. eauto.
    + exists ec, p. split; [|done]. by rewrite (sd_commitment _ _ Hsame).
Qed.

Lemma process_epochs_run l s :
  (forall n, n ∈ l -> ready (ocs_ctx s) n) ->
  exists c', miter process_epoch l s = (Ok tt, ocs_with_cursor (ocs_with_ctx s c')
      (match last l with Some n => Some n | None => ocs_last_processed_epoch s end)) /\
    ctx_step (ocs_ctx s) c' /\ forall n, n ∈ l -> checkpointed c' n.
Proof.
  revert s. induction l as [|n l IH]; intros s Hall; cbn [miter].
  - exists (ocs_ctx s). split; [by destruct s|]. split; [reflexivity|]. by intros n []%not_elem_of_nil.
  - destruct (process_epoch_run n s) as (c1 & Hrun & Hst & Hck); [apply Hall; by left|].
    rewrite (mbind_ok _ _ _ _ _ Hrun). set (s1 := ocs_with_cursor _ _).
    destruct (IH s1) as (c2 & Hrun2 & Hst2 & Hck2).
    { intros k Hk. apply (ready_step (ocs_ctx s)); [done|]. apply Hall. by right. }
    exists c2. split; [|split].
    + rewrite Hrun2. rewrite last_cons. by destruct (last l).
    + by etrans.
    + intros k [->|Hk]%elem_of_cons; [by eapply checkpointed_step|by apply Hck2].
Qed.

(** ** Inputs *)

(** The epoch the next input starts with. *)
Definition start_epoch (s : OLCheckpointServiceState C) : Epoch :=
  match ocs_last_processed_epoch s with Some e => Z.min (e + 1) U32_MAX | None => 1 end.

Lemma handle_complete_epoch_run target (s : OLCheckpointServiceState C) last :
  ocs_initialized s = true -> get_last_summarized_epoch (ocs_ctx s) = Ok (Some last) ->
  handle_complete_epoch target s = miter process_epoch (epoch_range (start_epoch s) last) s.
Proof.
  intros Hi Hl. unfold handle_complete_epoch. rewrite (mbind_ok _ _ _ (ocs_initialized s) s), Hi by done. simpl.
  rewrite (mbind_ok _ _ _ (Some last) s) by (unfold mreads_res; by rewrite Hl). done.
Qed.

Lemma elem_of_epoch_range n first last : n ∈ epoch_range first last <-> first <= n <= last.
Proof. unfold epoch_range. rewrite elem_of_seqZ. lia. Qed.

Lemma epoch_range_nil first last : last < first -> epoch_range first last = [].
Proof. intros Hlt. unfold epoch_range. apply seqZ_nil. lia. Qed.

Lemma epoch_range_split first k last :
  first <= k <= last -> epoch_range first last = epoch_range first (k - 1) ++ k :: epoch_range (k + 1) last.
Proof.
  intros Hk. unfold epoch_range. replace (last - first + 1) with ((k - first) + (last - k + 1)) by lia.
  rewrite seqZ_app by lia. f_equal; [f_equal; lia|]. replace (first + (k - first)) with k by lia.
  rewrite seqZ_cons by lia. f_equal. unfold Z.succ. f_equal; lia.
Qed.

Lemma last_epoch_range first last : first <= last -> list.last (epoch_range first last) = Some last.
Proof.
  intros Hle. rewrite (epoch_range_split first last last) by lia. rewrite (epoch_range_nil (last + 1) last) by lia.
  apply last_snoc.
Qed.

(** C21: the worker catches up.  When an epoch is completed and the data of every
    epoch from the one after the cursor up to the latest summary is there, the
    input succeeds, all these epochs have a checkpoint payload afterwards, the
    cursor is at the latest summary, and the payloads that were there before are
    unchanged. *)
Theorem process_input_catches_up target (s : OLCheckpointServiceState C) last :
  ocs_initialized s = true -> get_last_summarized_epoch (ocs_ctx s) = Ok (Some last) ->
  (forall n, start_epoch s <= n <= last -> ready (ocs_ctx s) n) ->
  exists s', process_input (Some target) s = (Ok tt, s') /\
    (forall n, start_epoch s <= n <= last -> checkpointed (ocs_ctx s') n) /\
    (start_epoch s <= last -> ocs_last_processed_epoch s' = Some last) /\
    payloads_kept (ocs_ctx s) (ocs_ctx s').
Proof.
  intros Hi Hl Hr. destruct (process_epochs_run (epoch_range (start_epoch s) last) s) as (c' & Hrun & Hst & Hck).
  { intros n Hn%elem_of_epoch_range. by apply Hr. }
  eexists. unfold process_input. rewrite (handle_complete_epoch_run _ _ _ Hi Hl), Hrun. split; [done|]. split_and!.
  - intros n Hn. apply Hck. by apply elem_of_epoch_range.
  - intros Hle. simpl. by rewrite last_epoch_range.
  - apply Hst.
Qed.

(** C22: missing data stops the worker where it is, without an error.  If the
    epochs before [k] are ready and epoch [k] has no commitment yet, or no
    summary, then the input is answered normally, exactly the epochs before [k]
    have been processed, nothing is lost, and the next input starts with [k]. *)
Theorem process_input_waits target (s : OLCheckpointServiceState C) last k :
  ocs_initialized s = true -> get_last_summarized_epoch (ocs_ctx s) = Ok (Some last) ->
  start_epoch s <= k <= last -> last <= U32_MAX -> (forall n, start_epoch s <= n < k -> ready (ocs_ctx s) n) ->
  (get_canonical_epoch_commitment_at (ocs_ctx s) k = Ok None \/
   exists ec, get_canonical_epoch_commitment_at (ocs_ctx s) k = Ok (Some ec) /\ get_epoch_summary (ocs_ctx s) ec = Ok None) ->
  exists s', process_input (Some target) s = (Ok tt, s') /\
    (forall n, start_epoch s <= n < k -> checkpointed (ocs_ctx s') n) /\
    start_epoch s' = k /\ payloads_kept (ocs_ctx s) (ocs_ctx s').
Proof.
  intros Hi Hl Hk Hmax Hr Hmiss. destruct (process_epochs_run (epoch_range (start_epoch s) (k - 1)) s) as (c' & Hrun & Hst & Hck).
  { intros n Hn%elem_of_epoch_range. apply Hr. lia. }
  set (s1 := ocs_with_cursor _ _) in Hrun. exists s1. split.
  - unfold process_input. rewrite (handle_complete_epoch_run _ _ _ Hi Hl), (epoch_range_split _ k last) by done.
    rewrite miter_app, (mbind_ok _ _ _ _ _ Hrun). cbn [miter]. unfold process_epoch, mbind, mreads_res, mlift.
    destruct Hst as [Hs _ _]. change (ocs_ctx s1) with c'. rewrite (sd_commitment _ _ Hs).
    destruct Hmiss as [->|(ec & -> & He)]; simpl; [done|]. change (ocs_ctx s1) with c'. by rewrite (sd_summary _ _ Hs), He.
  - split_and!; [|..|apply Hst].
    + intros n Hn. apply Hck. apply elem_of_epoch_range. lia.
    + unfold start_epoch at 1. simpl. destruct (Z.eq_dec (start_epoch s) k) as [Heq|Hne].
      * rewrite epoch_range_nil by lia. simpl. exact Heq.
      * rewrite last_epoch_range by lia. lia.
Qed.
End service.
