(* ===== verification/Mempool.v ===== *)
(** * The transaction mempool
    ([crates/ol/mempool/src/{types,error,validation,state,builder,service}.rs])

    Pending transactions are kept by id, in an ordering index and per account.
    Submitting validates against the state of the chain tip and the pending
    sequence numbers; new blocks remove what they include and revalidate the
    rest.  Transaction database, block database and state provider are a class.
    The clock is an argument; logging and metrics are left out.  Iteration over a
    [HashMap] follows [map_to_list]. *)

From S2P Require Import Prelude SortedMap Identifiers AcctTypes ChainTypes Externals LedgerTypes OLAccount OLState.
From S2P Require Import StateAccessor SnarkSys StfContext StfTx.

Abbreviation OLTxId := Buf32 (only parsing).

(** ** [error.rs] *)

Inductive OLMempoolError :=
| MempoolFull (current limit : Z)
| MempoolByteLimitExceeded (current limit : Z)
| AccountStateAccess
| AccountDoesNotExist (account : AccountId)
| AccountTypeMismatch (txid : OLTxId) (account : AccountId)
| TransactionNotFound (txid : OLTxId)
| TransactionTooLarge (size limit : Z)
| TxExpired (txid : OLTxId) (max_slot current_slot : Slot)
| TxNotMature (txid : OLTxId) (min_slot current_slot : Slot)
| UsedSequenceNumber (txid : OLTxId) (expected actual : Z)
| SequenceNumberGap (expected actual : Z)
| Database
| StateProvider
| Serialization
| ServiceClosed
| NotAvailable.

(** ** [types.rs] *)

Record OLMempoolConfig := {
  max_tx_count : Z;
  max_tx_size : Z;
  max_mempool_bytes : Z;
  max_reorg_depth : Z;
  command_buffer_size : Z;
}.

Inductive MempoolOrderingKey :=
| Snark (account_id : AccountId) (seq_no : Z) (timestamp_micros : Z)
| Gam (timestamp_micros : Z).

Definition timestamp_micros (k : MempoolOrderingKey) : Z :=
  match k with Snark _ _ t => t | Gam t => t end.

(** [Ord::cmp]. *)
Definition key_cmp (k1 k2 : MempoolOrderingKey) : comparison :=
  match k1, k2 with
  | Snark a1 s1 t1, Snark a2 s2 t2 => if a1 =? a2 then s1 ?= s2 else t1 ?= t2
  | _, _ => timestamp_micros k1 ?= timestamp_micros k2
  end.

Inductive OLMempoolRejectReason :=
| RejMempoolFull | RejAccountDoesNotExist | RejAccountTypeMismatch | RejTransactionTooLarge | RejUsedSequenceNumber
| RejSequenceNumberGap | RejTransactionExpired | RejTransactionNotMature | RejDuplicate.

#[export] Instance OLMempoolRejectReason_eq_dec : EqDecision OLMempoolRejectReason.
Proof. solve_decision. Defined.

Definition reject_reason_from_error (e : OLMempoolError) : option OLMempoolRejectReason :=
  match e with
  | MempoolFull _ _ | MempoolByteLimitExceeded _ _ => Some RejMempoolFull
  | AccountDoesNotExist _ => Some RejAccountDoesNotExist
  | AccountTypeMismatch _ _ => Some RejAccountTypeMismatch
  | TransactionTooLarge _ _ => Some RejTransactionTooLarge
  | TxExpired _ _ _ => Some RejTransactionExpired
  | TxNotMature _ _ _ => Some RejTransactionNotMature
  | UsedSequenceNumber _ _ _ => Some RejUsedSequenceNumber
  | SequenceNumberGap _ _ => Some RejSequenceNumberGap
  | AccountStateAccess | TransactionNotFound _ | Database | StateProvider | Serialization | ServiceClosed | NotAvailable => None
  end.

Inductive MempoolTxInvalidReason := TxInvalid | TxFailed.

(** The counters; reasons without an entry count zero. *)
Record OLMempoolStats := {
  mempool_size : Z;
  total_bytes : Z;
  enqueues_accepted : Z;
  enqueues_rejected : Z;
  rejects_by_reason : OLMempoolRejectReason -> Z;
  evictions : Z;
}.

Definition OLMempoolStats_default : OLMempoolStats :=
  {| mempool_size := 0; total_bytes := 0; enqueues_accepted := 0; enqueues_rejected := 0;
     rejects_by_reason := fun _ => 0; evictions := 0 |}.

(** [BTreeMap] over the ordering keys.  The search of a node compares with its
    entries from the left and stops at the first that is not smaller; a map of up
    to eleven entries is one node, and over keys [key_cmp] orders totally more
    nodes make no difference.  Inserting at an equal key keeps the key and
    replaces the value. *)
Fixpoint index_insert (k : MempoolOrderingKey) (txid : OLTxId) (l : list (MempoolOrderingKey * OLTxId))
    : list (MempoolOrderingKey * OLTxId) :=
  match l with
  | [] => [(k, txid)]
  | (k', txid') :: l' =>
      match key_cmp k k' with
      | Lt => (k, txid) :: l
      | Eq => (k', txid) :: l'
      | Gt => (k', txid') :: index_insert k txid l'
      end
  end.

Fixpoint index_remove (k : MempoolOrderingKey) (l : list (MempoolOrderingKey * OLTxId)) : list (MempoolOrderingKey * OLTxId) :=
  match l with
  | [] => []
  | (k', txid') :: l' =>
      match key_cmp k k' with
      | Lt => l
      | Eq => l'
      | Gt => (k', txid') :: index_remove k l'
      end
  end.

(** Iteration over a [BTreeSet]. *)
Definition btree_set_iter (s : gset Z) : list Z := merge_sort Z.le (elements s).

(** ** [state.rs]: accounts *)

Record AccountMempoolState := { ams_txids : gset OLTxId; ams_seq_nos : gset Z }.

Definition AccountMempoolState_default : AccountMempoolState := {| ams_txids := ∅; ams_seq_nos := ∅ |}.

Definition seq_no_range (st : AccountMempoolState) : option (Z * Z) :=
  let l := btree_set_iter (ams_seq_nos st) in
  match head l, last l with Some min, Some max => Some (min, max) | _, _ => None end.

(** Stored transaction ([db/types/src/mempool.rs]). *)
Record MempoolTxData := { mtd_txid : OLTxId; mtd_tx_bytes : bytes; mtd_timestamp_micros : Z }.

(** [sort_by_key] on the timestamp, a stable sort. *)
Fixpoint insert_by_timestamp (x : MempoolTxData) (l : list MempoolTxData) : list MempoolTxData :=
  match l with
  | [] => [x]
  | y :: l' => if mtd_timestamp_micros x <? mtd_timestamp_micros y then x :: l else y :: insert_by_timestamp x l'
  end.
Definition sort_by_timestamp (l : list MempoolTxData) : list MempoolTxData :=
  fold_left (fun acc x => insert_by_timestamp x acc) l [].

Section mempool.
Context `{X : Ext} {S : Type} `{SA : !IStateAccessorMut S}.

Definition tx_payload (tx : OLTransaction) : TransactionPayload := txd_payload (tx_data tx).

(** [OLTransaction::target]; both payloads have one. *)
Definition tx_target (tx : OLTransaction) : AccountId :=
  match tx_payload tx with
  | GenericAccountMessage gam => gam_target gam
  | SnarkAccountUpdate sau => sau_target sau
  end.

(** [payload.operation().update().seq_no()] of a snark update. *)
Definition tx_seq_no (tx : OLTransaction) : option Z :=
  match tx_payload tx with
  | GenericAccountMessage _ => None
  | SnarkAccountUpdate sau => Some (sud_seq_no (sod_update_data (sau_operation_data sau)))
  end.

Definition ordering_key_for_transaction (tx : OLTransaction) (ts : Z) : MempoolOrderingKey :=
  match tx_payload tx with
  | SnarkAccountUpdate sau => Snark (sau_target sau) (sud_seq_no (sod_update_data (sau_operation_data sau))) ts
  | GenericAccountMessage _ => Gam ts
  end.

Record MempoolEntry := { en_tx : OLTransaction; en_ordering_key : MempoolOrderingKey; en_size_bytes : Z }.

(** ** [validation.rs] *)

Definition check_seq_no_in_range (txid : OLTxId) (seq_no min_expected max_expected : Z) : res OLMempoolError unit :=
  if seq_no <? min_expected then Err (UsedSequenceNumber txid min_expected seq_no)
  else if max_expected <? seq_no then Err (SequenceNumberGap max_expected seq_no)
  else Ok tt.

Definition seq_no_error_to_mempool_error (txid : OLTxId) (expected got : Z) : OLMempoolError :=
  if got <? expected then UsedSequenceNumber txid expected got else SequenceNumberGap expected got.

(** The private [get_account_state]. *)
Definition mp_get_account_state (s : S) (account : AccountId) : res ExecError OLAccountState :=
  let! o := res_map_err State (get_account_state s account) in
  ok_or o (UnknownAccount account).

Definition validate_snark_account_update_tx_seq_no (txid : OLTxId) (target_account : AccountId) (seq_no : Z)
    (mempool_seq_no_range : option (Z * Z)) (s : S) : res OLMempoolError unit :=
  match mempool_seq_no_range with
  | Some (min_seq_no, max_seq_no) => check_seq_no_in_range txid seq_no min_seq_no (wrap_u64 (max_seq_no + 1))
  | None =>
      let! account := res_map_err (fun e => match e with
                                            | UnknownAccount account => AccountDoesNotExist account
                                            | _ => AccountStateAccess
                                            end) (mp_get_account_state s target_account) in
      let! snark_state := res_map_err (fun _ => AccountTypeMismatch txid target_account) (as_snark_account account) in
      match verify_seq_no target_account snark_state seq_no with
      | Err (Acct (InvalidUpdateSequence _ expected got)) => Err (seq_no_error_to_mempool_error txid expected got)
      | Panic => Panic
      | _ => Ok tt
      end
  end.

Definition validate_transaction (txid : OLTxId) (tx : OLTransaction) (s : S) (accounts : gmap AccountId AccountMempoolState)
    : res OLMempoolError unit :=
  let target_account := tx_target tx in
  let! _ := res_map_err (fun e => match e with
                                  | TransactionExpired max_slot current_slot => TxExpired txid max_slot current_slot
                                  | TransactionNotMature min_slot current_slot => TxNotMature txid min_slot current_slot
                                  | _ => AccountStateAccess
                                  end) (check_tx_constraints (txd_constraints (tx_data tx)) s) in
  let! _ := res_map_err (fun e => match e with
                                  | UnknownAccount _ => AccountDoesNotExist target_account
                                  | _ => AccountStateAccess
                                  end) (mp_get_account_state s target_account) in
  match tx_seq_no tx with
  | Some seq_no =>
      let mempool_seq_no_range := accounts !! target_account ≫= seq_no_range in
      validate_snark_account_update_tx_seq_no txid target_account seq_no mempool_seq_no_range s
  | None => Ok tt
  end.

(** ** [state.rs]: the service state *)

(** Transaction and block databases, the state provider, and the SSZ codec of
    transactions.  [None] is an error of the database. *)
Class MempoolStorage (C : Type) := {
  mp_get_all_txs : C -> res OLMempoolError (list MempoolTxData);
  mp_put_tx : MempoolTxData -> C -> option unit * C;
  mp_del_tx : OLTxId -> C -> option bool * C;
  mp_get_block_data : C -> OLBlockId -> res OLMempoolError (option OLBlock);
  get_state_for_tip : C -> OLBlockCommitment -> res OLMempoolError (option S);
  tx_as_ssz_bytes : OLTransaction -> bytes;
  tx_from_ssz_bytes : bytes -> option OLTransaction;
}.

Context {C : Type} `{MS : !MempoolStorage C}.

Record MempoolServiceState := {
  mp_config : OLMempoolConfig;
  mp_storage : C;
  entries : gmap OLTxId MempoolEntry;
  ordering_index : list (MempoolOrderingKey * OLTxId);
  account_state : gmap AccountId AccountMempoolState;
  state_accessor : S;
  stats : OLMempoolStats;
}.

Abbreviation MP := (M OLMempoolError MempoolServiceState).

Definition set_stats (f : OLMempoolStats -> OLMempoolStats) (s : MempoolServiceState) : MempoolServiceState :=
  {| mp_config := mp_config s; mp_storage := mp_storage s; entries := entries s; ordering_index := ordering_index s;
     account_state := account_state s; state_accessor := state_accessor s; stats := f (stats s) |}.
Definition set_state_accessor (a : S) (s : MempoolServiceState) : MempoolServiceState :=
  {| mp_config := mp_config s; mp_storage := mp_storage s; entries := entries s; ordering_index := ordering_index s;
     account_state := account_state s; state_accessor := a; stats := stats s |}.

Definition set_storage (c : C) (s : MempoolServiceState) : MempoolServiceState :=
  {| mp_config := mp_config s; mp_storage := c; entries := entries s; ordering_index := ordering_index s;
     account_state := account_state s; state_accessor := state_accessor s; stats := stats s |}.

(** Running on the databases. *)
Definition on_storage {A} (m : C -> option A * C) : MP A := fun s =>
  let '(r, c) := m (mp_storage s) in (ok_or r Database, set_storage c s).

Definition new_with_context (config : OLMempoolConfig) (c : C) (tip : OLBlockCommitment) : res OLMempoolError MempoolServiceState :=
  let! o := res_map_err (fun _ => StateProvider) (get_state_for_tip c tip) in
  let! accessor := ok_or o StateProvider in
  Ok {| mp_config := config; mp_storage := c; entries := ∅; ordering_index := []; account_state := ∅;
        state_accessor := accessor; stats := OLMempoolStats_default |}.

Definition update_stats_on_add (tx_size : Z) (st : OLMempoolStats) : OLMempoolStats :=
  {| mempool_size := wrap_u64 (mempool_size st + 1); total_bytes := wrap_u64 (total_bytes st + tx_size);
     enqueues_accepted := wrap_u64 (enqueues_accepted st + 1); enqueues_rejected := enqueues_rejected st;
     rejects_by_reason := rejects_by_reason st; evictions := evictions st |}.
Definition update_stats_on_remove (tx_size : Z) (st : OLMempoolStats) : OLMempoolStats :=
  {| mempool_size := wrap_u64 (mempool_size st - 1); total_bytes := wrap_u64 (total_bytes st - tx_size);
     enqueues_accepted := enqueues_accepted st; enqueues_rejected := enqueues_rejected st;
     rejects_by_reason := rejects_by_reason st; evictions := evictions st |}.
Definition update_stats_on_reject (reason : OLMempoolRejectReason) (st : OLMempoolStats) : OLMempoolStats :=
  {| mempool_size := mempool_size st; total_bytes := total_bytes st;
     enqueues_accepted := enqueues_accepted st; enqueues_rejected := wrap_u64 (enqueues_rejected st + 1);
     rejects_by_reason := fun r => let n := rejects_by_reason st r in if bool_decide (r = reason) then wrap_u64 (n + 1) else n;
     evictions := evictions st |}.

Definition contains (s : MempoolServiceState) (id : OLTxId) : bool := bool_decide (is_Some (entries s !! id)).

(** *** Adding *)

Definition check_capacity_limits (s : MempoolServiceState) (tx_size : Z) : res OLMempoolError unit :=
  let count := Z.of_nat (size (entries s)) in
  if max_tx_count (mp_config s) <=? count then Err (MempoolFull count (max_tx_count (mp_config s)))
  else
    let bytes := wrap_u64 (total_bytes (stats s) + tx_size) in
    if max_mempool_bytes (mp_config s) <? bytes then Err (MempoolByteLimitExceeded bytes (max_mempool_bytes (mp_config s)))
    else Ok tt.

(** The first of the account's transactions that has the sequence number. *)
Definition find_account_tx_with_same_seqno (s : MempoolServiceState) (tx : OLTransaction) : option OLTxId :=
  let target_account := tx_target tx in
  match tx_seq_no tx with
  | None => None
  | Some seq_no =>
      match account_state s !! target_account with
      | None => None
      | Some acct_state =>
          match seq_no_range acct_state with
          | None => None
          | Some (min_seq_no, max_seq_no) =>
              if (seq_no <? min_seq_no) || (max_seq_no <? seq_no) then None
              else
                let same txid := bool_decide (entries s !! txid ≫= (fun e => tx_seq_no (en_tx e)) = Some seq_no) in
                List.find same (btree_set_iter (ams_txids acct_state))
          end
      end
  end.

Definition add_tx_to_in_memory_state (txid : OLTxId) (entry : MempoolEntry) (s : MempoolServiceState) : MempoolServiceState :=
  let target_account := tx_target (en_tx entry) in
  let acct_state := default AccountMempoolState_default (account_state s !! target_account) in
  let acct_state := {| ams_txids := {[ txid ]} ∪ ams_txids acct_state;
                       ams_seq_nos := match tx_seq_no (en_tx entry) with
                                      | Some seq_no => {[ seq_no ]} ∪ ams_seq_nos acct_state
                                      | None => ams_seq_nos acct_state
                                      end |} in
  {| mp_config := mp_config s; mp_storage := mp_storage s;
     entries := <[ txid := entry ]> (entries s);
     ordering_index := index_insert (en_ordering_key entry) txid (ordering_index s);
     account_state := <[ target_account := acct_state ]> (account_state s);
     state_accessor := state_accessor s;
     stats := update_stats_on_add (en_size_bytes entry) (stats s) |}.

(** *** Removing *)

(** The in-memory part of [remove_single_tx]. *)
Definition forget_tx (txid : OLTxId) (entry : MempoolEntry) (s : MempoolServiceState) : MempoolServiceState :=
  let account_id := tx_target (en_tx entry) in
  {| mp_config := mp_config s; mp_storage := mp_storage s;
     entries := delete txid (entries s);
     ordering_index := index_remove (en_ordering_key entry) (ordering_index s);
     account_state :=
       match account_state s !! account_id with
       | None => account_state s
       | Some acct_state =>
           let txids := ams_txids acct_state ∖ {[ txid ]} in
           let seq_nos := match tx_seq_no (en_tx entry) with
                          | Some seq_no => ams_seq_nos acct_state ∖ {[ seq_no ]}
                          | None => ams_seq_nos acct_state
                          end in
           if bool_decide (txids = ∅) then delete account_id (account_state s)
           else <[ account_id := {| ams_txids := txids; ams_seq_nos := seq_nos |} ]> (account_state s)
       end;
     state_accessor := state_accessor s;
     stats := update_stats_on_remove (en_size_bytes entry) (stats s) |}.

Definition remove_single_tx (txid : OLTxId) (entry : MempoolEntry) : MP unit :=
  let* _ := on_storage (mp_del_tx txid) in
  mmodify (forget_tx txid entry).

(** The least sequence number per account, [u64::MAX] for accounts of which only
    messages were removed. *)
Definition track_min_seq (entry : MempoolEntry) (m : gmap AccountId Z) : gmap AccountId Z :=
  let account := tx_target (en_tx entry) in
  match tx_seq_no (en_tx entry) with
  | Some seq_no =>
      <[ account := match m !! account with Some min_seq => Z.min min_seq seq_no | None => seq_no end ]> m
  | None => match m !! account with Some _ => m | None => <[ account := U64_MAX ]> m end
  end.

Fixpoint remove_txs_internal (ids removed : list OLTxId) (account_min_seq : gmap AccountId Z)
    : MP (list OLTxId * gmap AccountId Z) :=
  match ids with
  | [] => mret (removed, account_min_seq)
  | txid :: ids' =>
      let* o := mreads (fun s => entries s !! txid) in
      match o with
      | Some entry =>
          remove_single_tx txid entry ;;;
          remove_txs_internal ids' (removed ++ [txid]) (track_min_seq entry account_min_seq)
      | None => remove_txs_internal ids' removed account_min_seq
      end
  end.

(** The transactions of the account from [min_failed_seq] on. *)
Definition dependents (s : MempoolServiceState) (account : AccountId) (min_failed_seq : Z) : list OLTxId :=
  match account_state s !! account with
  | None => []
  | Some acct_state =>
      List.filter (fun txid => match entries s !! txid ≫= (fun e => tx_seq_no (en_tx e)) with
                               | Some seq_no => min_failed_seq <=? seq_no
                               | None => false
                               end) (btree_set_iter (ams_txids acct_state))
  end.

(** What has been removed when the database fails stays removed and listed. *)
Fixpoint remove_each (to_remove removed : list OLTxId) (s : MempoolServiceState) : list OLTxId * MempoolServiceState :=
  match to_remove with
  | [] => (removed, s)
  | txid :: to_remove' =>
      match entries s !! txid with
      | None => remove_each to_remove' removed s
      | Some entry =>
          match remove_single_tx txid entry s with
          | (Ok _, s') => remove_each to_remove' (removed ++ [txid]) s'
          | (_, s') => (removed, s')
          end
      end
  end.

Definition cascade_remove_for_account (account : AccountId) (min_failed_seq : Z) (removed : list OLTxId)
    (s : MempoolServiceState) : list OLTxId * MempoolServiceState :=
  remove_each (dependents s account min_failed_seq) removed s.

Fixpoint cascade_remove (l : list (AccountId * Z)) (removed : list OLTxId) (s : MempoolServiceState)
    : list OLTxId * MempoolServiceState :=
  match l with
  | [] => (removed, s)
  | (account, min_failed_seq) :: l' =>
      let '(removed, s) := cascade_remove_for_account account min_failed_seq removed s in
      cascade_remove l' removed s
  end.

Definition remove_transactions (ids : list OLTxId) (cascade : bool) (s : MempoolServiceState)
    : list OLTxId * MempoolServiceState :=
  match remove_txs_internal ids [] ∅ s with
  | (Ok (removed, account_min_seq), s) =>
      if cascade then cascade_remove (map_to_list account_min_seq) removed s else (removed, s)
  | (_, s) => ([], s)
  end.

(** *** The commands *)

Definition reject {A} (reason : option OLMempoolRejectReason) (e : OLMempoolError) : MP A :=
  match reason with
  | Some r => mmodify (set_stats (update_stats_on_reject r)) ;;; merr e
  | None => merr e
  end.

(** [now] is the microsecond clock read for the ordering key. *)
Definition add_transaction (now : Z) (tx : OLTransaction) : MP OLTxId :=
  let txid := compute_txid tx in
  let* present := mreads (fun s => contains s txid) in
  if present then mmodify (set_stats (update_stats_on_reject RejDuplicate)) ;;; mret txid
  else
    let tx_bytes := tx_as_ssz_bytes tx in
    let tx_size := zlen tx_bytes in
    let* limit := mreads (fun s => max_tx_size (mp_config s)) in
    if limit <? tx_size then reject (Some RejTransactionTooLarge) (TransactionTooLarge tx_size limit)
    else
      let* capacity := mreads (fun s => check_capacity_limits s tx_size) in
      match capacity with
      | Err e => reject (Some RejMempoolFull) e
      | Panic => mpanic
      | Ok _ =>
          let* valid := mreads (fun s => validate_transaction txid tx (state_accessor s) (account_state s)) in
          match valid with
          | Err e => reject (reject_reason_from_error e) e
          | Panic => mpanic
          | Ok _ =>
              let* old := mreads (fun s => find_account_tx_with_same_seqno s tx) in
              mmodify (fun s => match old with
                                | Some old_txid => snd (remove_transactions [old_txid] false s)
                                | None => s
                                end) ;;;
              let ordering_key := ordering_key_for_transaction tx now in
              on_storage (mp_put_tx {| mtd_txid := txid; mtd_tx_bytes := tx_bytes; mtd_timestamp_micros := now |}) ;;;
              mmodify (add_tx_to_in_memory_state txid
                         {| en_tx := tx; en_ordering_key := ordering_key; en_size_bytes := tx_size |}) ;;;
              mret txid
          end
      end.

Definition handle_submit_transaction (now : Z) (tx : OLTransaction) : MP OLTxId := add_transaction now tx.

Definition handle_get_transactions (limit : nat) (s : MempoolServiceState) : list (OLTxId * OLTransaction) :=
  omap (fun p => (fun e => (p.2, en_tx e)) <$> entries s !! p.2) (take limit (ordering_index s)).

Definition should_remove_tx (reason : MempoolTxInvalidReason) : bool :=
  match reason with TxInvalid => true | TxFailed => false end.

Definition handle_report_invalid_transactions (txs : list (OLTxId * MempoolTxInvalidReason)) (s : MempoolServiceState)
    : MempoolServiceState :=
  let remove_ids := map fst (List.filter (fun p => should_remove_tx p.2) txs) in
  snd (remove_transactions remove_ids true s).

(** One stored transaction; a failing deletion is ignored. *)
Definition load_tx (d : MempoolTxData) : MP unit :=
  let txid := mtd_txid d in
  let del := mcatch (on_storage (mp_del_tx txid)) (fun _ => mret false) in
  match tx_from_ssz_bytes (mtd_tx_bytes d) with
  | None => let* _ := del in mret tt
  | Some tx =>
      let* valid := mreads (fun s => validate_transaction txid tx (state_accessor s) (account_state s)) in
      match valid with
      | Err e =>
          let* _ := del in
          match reject_reason_from_error e with
          | Some reason => mmodify (set_stats (update_stats_on_reject reason))
          | None => mret tt
          end
      | Panic => mpanic
      | Ok _ =>
          let ordering_key := ordering_key_for_transaction tx (mtd_timestamp_micros d) in
          mmodify (add_tx_to_in_memory_state txid
                     {| en_tx := tx; en_ordering_key := ordering_key; en_size_bytes := zlen (mtd_tx_bytes d) |})
      end
  end.

Definition load_from_db : MP unit :=
  let* all_txs := mreads_res (fun s => mp_get_all_txs (mp_storage s)) in
  miter load_tx (sort_by_timestamp all_txs).

(** [MempoolBuilder::launch] ([builder.rs]): the state the service starts with. *)
Definition launch (config : OLMempoolConfig) (c : C) (current_tip : OLBlockCommitment) : res OLMempoolError MempoolServiceState :=
  let! state := new_with_context config c current_tip in
  let '(r, state) := load_from_db state in
  let! _ := r in
  Ok state.

(** *** Chain updates *)

Fixpoint revalidate (s : MempoolServiceState) (l : list (OLTxId * MempoolEntry)) : res OLMempoolError (list OLTxId) :=
  match l with
  | [] => Ok []
  | (txid, entry) :: l' =>
      let! rest := revalidate s l' in
      match validate_transaction txid (en_tx entry) (state_accessor s) (account_state s) with
      | Err _ => Ok (txid :: rest)
      | Ok _ => Ok rest
      | Panic => Panic
      end
  end.

Definition revalidate_all_transactions (s : MempoolServiceState) : res OLMempoolError (list OLTxId) :=
  revalidate s (map_to_list (entries s)).

Definition with_accumulator_proofs (tx : OLTransaction) (proofs : option (list RawMerkleProof)) : OLTransaction :=
  {| tx_data := tx_data tx;
     tx_proofs := {| txp_predicate_satisfiers := txp_predicate_satisfiers (tx_proofs tx); txp_accumulator_proofs := proofs |} |}.

Definition extract_account_txs_from_block (block : OLBlock) : gmap AccountId (list OLTxId) :=
  match body_tx_segment (blk_body block) with
  | None => ∅
  | Some txs =>
      fold_left (fun by_account tx =>
          let mempool_tx := with_accumulator_proofs tx None in
          let account := tx_target mempool_tx in
          <[ account := default [] (by_account !! account) ++ [compute_txid mempool_tx] ]> by_account)
        txs ∅
  end.

Definition mp_handle_new_block (new_tip : OLBlockCommitment) : MP unit :=
  let* o := mreads_res (fun s => res_map_err (fun _ => AccountStateAccess) (mp_get_block_data (mp_storage s) (obc_blkid new_tip))) in
  let* block := mlift (ok_or o AccountStateAccess) in
  let txids_by_account := extract_account_txs_from_block block in
  let included_txids := concat (map snd (map_to_list txids_by_account)) in
  mmodify (fun s => match included_txids with [] => s | _ => snd (remove_transactions included_txids false s) end) ;;;
  let* invalid_txids := mreads_res revalidate_all_transactions in
  mmodify (fun s => match invalid_txids with [] => s | _ => snd (remove_transactions invalid_txids true s) end).

Definition get_parent_commitment (s : MempoolServiceState) (commitment : OLBlockCommitment) : res OLMempoolError OLBlockCommitment :=
  let! o := mp_get_block_data (mp_storage s) (obc_blkid commitment) in
  let! block := ok_or o AccountStateAccess in
  Ok {| obc_slot := wrap_u64 (obc_slot commitment - 1); obc_blkid := hdr_parent_blkid (blk_header block) |}.

(** The walk back to [current_slot], the newest block first.  The slot falls by
    one in every round, so that [fuel], the distance, is what the loop takes. *)
Fixpoint walk_back (fuel : nat) (s : MempoolServiceState) (current_slot : Slot) (walk : OLBlockCommitment)
    : res OLMempoolError (list OLBlockCommitment) :=
  match fuel with
  | O => Ok []
  | Datatypes.S fuel' =>
      if current_slot <? obc_slot walk then
        let! parent := get_parent_commitment s walk in
        let! rest := walk_back fuel' s current_slot parent in
        Ok (walk :: rest)
      else Ok []
  end.

Definition handle_chain_update (new_tip : OLBlockCommitment) : MP unit :=
  let* current_slot := mreads (fun s => cur_slot (state_accessor s)) in
  let* o := mreads_res (fun s => res_map_err (fun _ => StateProvider) (get_state_for_tip (mp_storage s) new_tip)) in
  let* new_state := mlift (ok_or o StateProvider) in
  mmodify (set_state_accessor new_state) ;;;
  let* blocks := mreads_res (fun s => walk_back (Z.to_nat (obc_slot new_tip - current_slot)) s current_slot new_tip) in
  miter mp_handle_new_block (rev blocks).

(** ** [service.rs] *)

Inductive MempoolInput :=
| SubmitTransaction (now : Z) (tx : OLTransaction)
| GetTransactions (limit : nat)
| ReportInvalidTransactions (txs : list (OLTxId * MempoolTxInvalidReason))
| ChainUpdate (new_tip : OLBlockCommitment).

(** What the command's completion receives. *)
Inductive MempoolReply :=
| Submitted (r : res OLMempoolError OLTxId)
| Transactions (txs : list (OLTxId * OLTransaction))
| NoReply.

Definition mp_process_input (input : MempoolInput) : MP MempoolReply :=
  match input with
  | SubmitTransaction now tx => fun s =>
      match handle_submit_transaction now tx s with
      | (Panic, s') => (Panic, s')
      | (r, s') => (Ok (Submitted r), s')
      end
  | GetTransactions limit => mreads (fun s => Transactions (handle_get_transactions limit s))
  | ReportInvalidTransactions txs => mmodify (handle_report_invalid_transactions txs) ;;; mret NoReply
  | ChainUpdate new_tip => handle_chain_update new_tip ;;; mret NoReply
  end.
End mempool.
