(* ===== verification/MempoolSpec.v ===== *)
(** * What the mempool promises

    The views of the pending transactions agree and capacities are respected,
    whatever the database does; with one that does not fail, no account has two
    updates with one sequence number; and with a clock that advances and sequence
    numbers submitted in order the ordering index lists all transactions by age. *)

From S2P Require Import Prelude SortedMap Identifiers AcctTypes ChainTypes Externals LedgerTypes OLAccount OLState.
From S2P Require Import StateAccessor SnarkSys StfContext StfTx Mempool.

(** ** Sets in order *)

#[local] Instance Z_le_dec' x y : Decision (x <= y).
Proof. apply _. Defined.

Lemma elem_of_btree_set_iter (s : gset Z) x : x ∈ btree_set_iter s <-> x ∈ s.
Proof. unfold btree_set_iter. rewrite merge_sort_Permutation. apply elem_of_elements. Qed.

Lemma btree_set_iter_sorted (s : gset Z) : StronglySorted Z.le (btree_set_iter s).
Proof. apply StronglySorted_merge_sort; [intros ???; lia|intros x y; lia]. Qed.

Lemma sorted_last_ge l x y : StronglySorted Z.le l -> last l = Some y -> x ∈ l -> x <= y.
Proof.
  induction l as [|a l IH]; intros Hs Hl Hx; [done|]. apply StronglySorted_inv in Hs as [Hs Ha].
  destruct l as [|b l]; [injection Hl as <-; apply list_elem_of_singleton in Hx; lia|].
  apply elem_of_cons in Hx as [->|Hx]; [|by apply IH].
  rewrite Forall_forall in Ha. apply Ha. by apply last_Some_elem_of.
Qed.

Lemma seq_no_range_none st : seq_no_range st = None -> ams_seq_nos st = ∅.
Proof.
  unfold seq_no_range. intros H. apply set_eq. intros x. rewrite <- elem_of_btree_set_iter.
  destruct (btree_set_iter (ams_seq_nos st)) as [|a l] eqn:Hl; [set_solver|]. cbn [head] in H.
  destruct (last (a :: l)) eqn:Hlast; [done|]. by apply last_None in Hlast.
Qed.

Lemma seq_no_range_some st mn mx :
  seq_no_range st = Some (mn, mx) -> forall x, x ∈ ams_seq_nos st -> mn <= x <= mx.
Proof.
  unfold seq_no_range. intros H x Hx. rewrite <- elem_of_btree_set_iter in Hx.
  pose proof (btree_set_iter_sorted (ams_seq_nos st)) as Hs.
  destruct (btree_set_iter (ams_seq_nos st)) as [|a l] eqn:Hl; [by apply elem_of_nil in Hx|]. cbn [head] in H.
  destruct (last (a :: l)) eqn:Hlast; [|done]. injection H as -> ->. split; [|by eapply sorted_last_ge].
  apply StronglySorted_inv in Hs as [_ Ha]. apply elem_of_cons in Hx as [->|Hx]; [lia|]. rewrite Forall_forall in Ha. by apply Ha.
Qed.

Lemma seq_no_range_in st mn mx : seq_no_range st = Some (mn, mx) -> mn ∈ ams_seq_nos st /\ mx ∈ ams_seq_nos st.
Proof.
  unfold seq_no_range. intros H. rewrite <- !elem_of_btree_set_iter.
  destruct (btree_set_iter (ams_seq_nos st)) as [|a l]; [done|]. cbn [head] in H.
  destruct (last (a :: l)) eqn:Hlast; [|done]. injection H as -> ->. split; [by left|by apply last_Some_elem_of].
Qed.

Section spec.
Context `{X : Ext} {S : Type} `{SA : !IStateAccessorMut S} {C : Type} `{DB : !MempoolStorage (S := S) C}.

Abbreviation MS := (MempoolServiceState (S := S) (C := C)).

(** ** The invariant *)

Definition txids_of (s : MS) (a : AccountId) : gset OLTxId := default ∅ (ams_txids <$> account_state s !! a).
Definition seqs_of (s : MS) (a : AccountId) : gset Z := default ∅ (ams_seq_nos <$> account_state s !! a).

(** The configured limits are within [cc] transactions and [cb] bytes, which leave
    room in a machine word.  A service is bound by the limits of all the
    configurations that filled its database, not only by its own. *)
Record limits_ok (cc cb : Z) (c : OLMempoolConfig) : Prop := {
  lo_count : 0 <= max_tx_count c <= cc;
  lo_bytes : 0 <= max_mempool_bytes c <= cb;
  lo_count_word : cc <= U64_MAX;
  lo_bytes_word : cb + max_tx_size c <= U64_MAX;
  lo_size : 0 <= max_tx_size c;
}.

(** What holds even over a database that fails: entries, accounts and counters
    agree, with at most [cc] transactions and [cb] bytes. *)
Record mp_core (cc cb : Z) (s : MS) : Prop := {
  mc_id t e : entries s !! t = Some e -> compute_txid (en_tx e) = t;
  mc_key t e : entries s !! t = Some e -> exists ts, en_ordering_key e = ordering_key_for_transaction (en_tx e) ts;
  mc_txids a t : t ∈ txids_of s a <-> exists e, entries s !! t = Some e /\ tx_target (en_tx e) = a;
  mc_seqs a n : n ∈ seqs_of s a -> exists t e, entries s !! t = Some e /\ tx_target (en_tx e) = a /\ tx_seq_no (en_tx e) = Some n;
  mc_nonempty a st : account_state s !! a = Some st -> ams_txids st <> ∅;
  mc_size t e : entries s !! t = Some e -> 0 <= en_size_bytes e;
  mc_count : mempool_size (stats s) = Z.of_nat (size (entries s));
  mc_bytes : total_bytes (stats s) = map_sum en_size_bytes (entries s);
  mc_count_limit : Z.of_nat (size (entries s)) <= cc;
  mc_bytes_limit : map_sum en_size_bytes (entries s) <= cb;
  mc_limits : limits_ok cc cb (mp_config s);
}.

(** Over one that does not, no account has two updates with one sequence number,
    and the sequence numbers of an account are exactly those of its updates. *)
Record mp_wf (cc cb : Z) (s : MS) : Prop := {
  mw_core : mp_core cc cb s;
  mw_listed t e n : entries s !! t = Some e -> tx_seq_no (en_tx e) = Some n -> n ∈ seqs_of s (tx_target (en_tx e));
  mw_unique t1 t2 e1 e2 n : entries s !! t1 = Some e1 -> entries s !! t2 = Some e2 ->
    tx_target (en_tx e1) = tx_target (en_tx e2) -> tx_seq_no (en_tx e1) = Some n -> tx_seq_no (en_tx e2) = Some n -> t1 = t2;
}.

Coercion mw_core : mp_wf >-> mp_core.

#[global] Arguments mc_id {cc cb} s.
#[global] Arguments mc_key {cc cb} s.
#[global] Arguments mc_txids {cc cb} s.
#[global] Arguments mc_seqs {cc cb} s.
#[global] Arguments mc_nonempty {cc cb} s.
#[global] Arguments mc_size {cc cb} s.
#[global] Arguments mc_count {cc cb} s.
#[global] Arguments mc_bytes {cc cb} s.
#[global] Arguments mc_count_limit {cc cb} s.
#[global] Arguments mc_bytes_limit {cc cb} s.
#[global] Arguments mc_limits {cc cb} s.
#[global] Arguments mw_core {cc cb} s.
#[global] Arguments mw_listed {cc cb} s.
#[global] Arguments mw_unique {cc cb} s.

Lemma mw_seqs {cc cb} s (Hw : mp_wf cc cb s) a n :
  n ∈ seqs_of s a <-> exists t e, entries s !! t = Some e /\ tx_target (en_tx e) = a /\ tx_seq_no (en_tx e) = Some n.
Proof.
  split; [apply (mc_seqs s (mw_core s Hw))|]. intros (t & e & He & <- & Hn). by apply (mw_listed s Hw t).
Qed.

Lemma bytes_nonneg {cc cb} (s : MS) : mp_core cc cb s -> 0 <= map_sum en_size_bytes (entries s).
Proof. intros Hw. apply map_sum_nonneg. intros t e. apply (mc_size s Hw). Qed.

(** *** Forgetting a transaction *)

Lemma forget_lookup (s : MS) t e t2 e2 : entries (forget_tx t e s) !! t2 = Some e2 <-> t2 <> t /\ entries s !! t2 = Some e2.
Proof. simpl. rewrite lookup_delete_Some. naive_solver. Qed.

Section forget.
Context {cc cb : Z} (s : MS) (Hc : mp_core cc cb s) (t : OLTxId) (e : MempoolEntry) (He : entries s !! t = Some e).
Let a := tx_target (en_tx e).
Let s' := forget_tx t e s.

Lemma forget_account : exists st, account_state s !! a = Some st /\ t ∈ ams_txids st.
Proof.
  assert (Ht : t ∈ txids_of s a) by (apply (mc_txids s Hc); by exists e). unfold txids_of in Ht.
  destruct (account_state s !! a) as [st|]; [by exists st|]. by apply elem_of_empty in Ht.
Qed.

Lemma forget_txids b : txids_of s' b = if decide (b = a) then txids_of s a ∖ {[ t ]} else txids_of s b.
Proof.
  destruct forget_account as (st & Hst & _). unfold txids_of, s', forget_tx. cbn [account_state]. fold a. rewrite Hst. simpl.
  case_bool_decide as Hemp; destruct (decide (b = a)) as [->|Hne].
  - by rewrite lookup_delete_eq.
  - by rewrite lookup_delete_ne.
  - by rewrite lookup_insert_eq.
  - by rewrite lookup_insert_ne.
Qed.

Lemma forget_seqs b n :
  n ∈ seqs_of s' b <-> n ∈ seqs_of s b /\ (b = a -> tx_seq_no (en_tx e) <> Some n /\ txids_of s a ∖ {[ t ]} <> ∅).
Proof.
  destruct forget_account as (st & Hst & _). unfold seqs_of, txids_of, s', forget_tx. cbn [account_state]. fold a. rewrite Hst.
  cbn [fmap option_fmap option_map default]. case_bool_decide as Hemp; destruct (decide (b = a)) as [->|Hne].
  - rewrite lookup_delete_eq. simpl. set_solver.
  - rewrite lookup_delete_ne by done. naive_solver.
  - rewrite lookup_insert_eq, Hst. simpl. destruct (tx_seq_no (en_tx e)) as [m|]; set_solver.
  - rewrite lookup_insert_ne by done. naive_solver.
Qed.

Lemma forget_size : Z.of_nat (size (entries s')) = Z.of_nat (size (entries s)) - 1.
Proof.
  unfold s'. simpl. rewrite map_size_delete, He. assert (size (entries s) <> 0)%nat; [|lia].
  intros Hz. apply map_size_empty_inv in Hz. by rewrite Hz, lookup_empty in He.
Qed.

Lemma forget_bytes : map_sum en_size_bytes (entries s') = map_sum en_size_bytes (entries s) - en_size_bytes e.
Proof. unfold s'. simpl. rewrite (map_sum_delete _ (entries s) t e He). lia. Qed.

Lemma forget_core : mp_core cc cb s'.
Proof.
  pose proof forget_size as Hsize. pose proof forget_bytes as Hbytes. pose proof (mc_size s Hc t e He) as H0.
  assert (Hnn : 0 <= map_sum en_size_bytes (entries s')).
  { apply map_sum_nonneg. intros t2 e2 [_ H2]%forget_lookup. by apply (mc_size s Hc t2). }
  destruct (mc_limits s Hc) as [_ _ Hc1 Hc2 Hms]. pose proof (mc_count_limit s Hc) as Hcl. pose proof (mc_bytes_limit s Hc) as Hbl.
  split; try apply Hc.
  - intros t2 e2 [_ H2]%forget_lookup. by apply (mc_id s Hc).
  - intros t2 e2 [_ H2]%forget_lookup. by apply (mc_key s Hc t2).
  - intros b t2. rewrite forget_txids. unfold s'. setoid_rewrite forget_lookup. fold s'. pose proof (mc_txids s Hc b t2) as Hb.
    destruct (decide (b = a)) as [->|Hne]; [rewrite elem_of_difference, Hb; set_solver|]. rewrite Hb. split; [|naive_solver].
    intros (e2 & H2 & Hb2). exists e2. split_and!; try done. intros ->. rewrite He in H2. injection H2 as <-. by destruct Hne.
  - intros b n [(t2 & e2 & H2 & <- & Hn)%(mc_seqs s Hc) Ha]%forget_seqs. exists t2, e2. unfold s'. rewrite forget_lookup. split_and!; try done.
    intros ->. rewrite He in H2. injection H2 as <-. by destruct (Ha eq_refl) as [? _].
  - intros b st Hst. assert (Hb : ams_txids st = txids_of s' b) by (unfold txids_of; by rewrite Hst). rewrite Hb, forget_txids.
    unfold s', forget_tx in Hst. cbn [account_state] in Hst. fold a in Hst. destruct forget_account as (st0 & Hst0 & _).
    rewrite Hst0 in Hst. case_bool_decide as Hemp.
    + apply lookup_delete_Some in Hst as [Hne Hst]. rewrite decide_False by done. unfold txids_of. rewrite Hst. by apply (mc_nonempty s Hc b).
    + destruct (decide (b = a)) as [->|Hne]; [unfold txids_of; by rewrite Hst0|].
      rewrite lookup_insert_ne in Hst by done. unfold txids_of. rewrite Hst. by apply (mc_nonempty s Hc b).
  - intros t2 e2 [_ H2]%forget_lookup. by apply (mc_size s Hc t2).
  - unfold s'. simpl. rewrite (mc_count s Hc). fold (entries s'). unfold_widths. rewrite Z.mod_small; [exact (eq_sym Hsize)|].
    pose proof (Zle_0_nat (size (entries s'))). lia.
  - unfold s'. simpl. rewrite (mc_bytes s Hc), <- Hbytes. unfold_widths. rewrite Z.mod_small; [done|lia].
  - lia.
  - lia.
Qed.

Lemma forget_wf : mp_wf cc cb s -> mp_wf cc cb s'.
Proof.
  intros Hw. split; [apply forget_core| |].
  - intros t2 e2 n [Hne H2]%forget_lookup Hn. apply forget_seqs. split; [by apply (mw_listed s Hw t2)|]. intros Ha. split.
    + intros Hn'. apply Hne. exact (mw_unique s Hw t2 t e2 e n H2 He Ha Hn Hn').
    + intros Hemp. assert (t2 ∈ txids_of s a) by (apply (mc_txids s Hc); by exists e2). set_solver.
  - intros t1 t2 e1 e2 n [_ H1]%forget_lookup [_ H2]%forget_lookup. by apply (mw_unique s Hw).
Qed.
End forget.

(** *** Adding a transaction *)

Lemma add_lookup (s : MS) t e t2 e2 :
  entries (add_tx_to_in_memory_state t e s) !! t2 = Some e2 <-> t2 = t /\ e2 = e \/ t2 <> t /\ entries s !! t2 = Some e2.
Proof. simpl. rewrite lookup_insert_Some. naive_solver. Qed.

Section add.
Context {cc cb : Z} (s : MS) (Hc : mp_core cc cb s) (t : OLTxId) (e : MempoolEntry) (Hnew : entries s !! t = None).
Context (Hid : compute_txid (en_tx e) = t) (Hkey : exists ts, en_ordering_key e = ordering_key_for_transaction (en_tx e) ts).
Context (Hsize : 0 <= en_size_bytes e).
Context (Hcount : Z.of_nat (size (entries s)) < cc).
Context (Hbytes : map_sum en_size_bytes (entries s) + en_size_bytes e <= cb).
Let a := tx_target (en_tx e).
Let s' := add_tx_to_in_memory_state t e s.

Lemma add_txids b t2 : t2 ∈ txids_of s' b <-> t2 ∈ txids_of s b \/ b = a /\ t2 = t.
Proof.
  unfold txids_of, s', add_tx_to_in_memory_state. cbn [account_state]. fold a. destruct (decide (b = a)) as [->|Hne].
  - rewrite lookup_insert_eq. simpl. destruct (account_state s !! a); simpl; set_solver.
  - rewrite lookup_insert_ne by done. naive_solver.
Qed.

Lemma add_seqs b n : n ∈ seqs_of s' b <-> n ∈ seqs_of s b \/ b = a /\ tx_seq_no (en_tx e) = Some n.
Proof.
  unfold seqs_of, s', add_tx_to_in_memory_state. cbn [account_state]. fold a. destruct (decide (b = a)) as [->|Hne].
  - rewrite lookup_insert_eq. simpl. destruct (account_state s !! a); destruct (tx_seq_no (en_tx e)); simpl; set_solver.
  - rewrite lookup_insert_ne by done. naive_solver.
Qed.

Lemma add_core : mp_core cc cb s'.
Proof.
  destruct (mc_limits s Hc) as [_ _ Hc1 Hc2 Hms]. pose proof (bytes_nonneg s Hc) as H0.
  assert (Hsz : Z.of_nat (size (entries s')) = Z.of_nat (size (entries s)) + 1).
  { unfold s'. simpl. rewrite map_size_insert_None by done. lia. }
  assert (Hby : map_sum en_size_bytes (entries s') = map_sum en_size_bytes (entries s) + en_size_bytes e).
  { unfold s'. simpl. rewrite map_sum_insert_new by done. lia. }
  split; try apply Hc.
  - intros t2 e2 [[-> ->]|[_ H2]]%add_lookup; [done|by apply (mc_id s Hc)].
  - intros t2 e2 [[-> ->]|[_ H2]]%add_lookup; [done|by apply (mc_key s Hc t2)].
  - intros b t2. rewrite add_txids, (mc_txids s Hc). unfold s'. setoid_rewrite add_lookup. split.
    + intros [(e2 & H2 & Hb)|[-> ->]]; [exists e2; split; [right; split; [congruence|done]|done]|]. exists e. split; [by left|done].
    + intros (e2 & [[-> ->]|[_ H2]] & Hb); [by right|left; by exists e2].
  - intros b n. rewrite add_seqs. unfold s'. setoid_rewrite add_lookup.
    intros [(t2 & e2 & H2 & Hb & Hn)%(mc_seqs s Hc)|[-> Hn]]; [exists t2, e2; split_and!; [right; split; [congruence|done]|done..]|].
    exists t, e. split; [by left|done].
  - intros b st. unfold s', add_tx_to_in_memory_state. cbn [account_state]. rewrite lookup_insert_Some.
    intros [[_ <-]|[_ Hst]]; [simpl; set_solver|by apply (mc_nonempty s Hc b)].
  - intros t2 e2 [[-> ->]|[_ H2]]%add_lookup; [done|by apply (mc_size s Hc t2)].
  - unfold s'. simpl. fold (entries s'). rewrite (mc_count s Hc). unfold_widths. rewrite Z.mod_small; [exact (eq_sym Hsz)|lia].
  - unfold s'. simpl. rewrite (mc_bytes s Hc). unfold_widths. rewrite Z.mod_small; [exact (eq_sym Hby)|lia].
  - lia.
  - lia.
Qed.

Lemma add_wf :
  mp_wf cc cb s ->
  (forall t2 e2 n, entries s !! t2 = Some e2 -> tx_target (en_tx e2) = tx_target (en_tx e) ->
     tx_seq_no (en_tx e) = Some n -> tx_seq_no (en_tx e2) <> Some n) ->
  mp_wf cc cb s'.
Proof.
  intros Hw Hfree. split; [apply add_core| |].
  - intros t2 e2 n [[-> ->]|[_ H2]]%add_lookup Hn; apply add_seqs; [by right|left; by apply (mw_listed s Hw t2)].
  - intros t1 t2 e1 e2 n [[-> ->]|[_ H1]]%add_lookup [[-> ->]|[_ H2]]%add_lookup Ht Hn1 Hn2; try done.
    + exfalso. by apply (Hfree t2 e2 n).
    + exfalso. by apply (Hfree t1 e1 n).
    + by apply (mw_unique s Hw t1 t2 e1 e2 n).
Qed.
End add.

(** *** The ordering index *)

Definition ts_of (e : MempoolEntry) : Z := timestamp_micros (en_ordering_key e).
Definition older (p q : MempoolOrderingKey * OLTxId) : Prop := timestamp_micros p.1 < timestamp_micros q.1.

(** No two transactions have the same timestamp, the sequence numbers of an
    account have the order of the timestamps, and the index lists exactly the
    entries by age. *)
Record idx_ok (s : MS) : Prop := {
  io_ts t1 e1 t2 e2 : entries s !! t1 = Some e1 -> entries s !! t2 = Some e2 -> ts_of e1 = ts_of e2 -> t1 = t2;
  io_seq t1 e1 t2 e2 n1 n2 : entries s !! t1 = Some e1 -> entries s !! t2 = Some e2 ->
    tx_target (en_tx e1) = tx_target (en_tx e2) -> tx_seq_no (en_tx e1) = Some n1 -> tx_seq_no (en_tx e2) = Some n2 ->
    n1 < n2 -> ts_of e1 < ts_of e2;
  io_sorted : StronglySorted older (ordering_index s);
  io_elem k t : (k, t) ∈ ordering_index s <-> exists e, entries s !! t = Some e /\ en_ordering_key e = k;
}.

(** Among the entries the keys compare like their timestamps. *)
Lemma key_cmp_ts {cc cb} s t1 e1 t2 e2 :
  mp_wf cc cb s -> idx_ok s -> entries s !! t1 = Some e1 -> entries s !! t2 = Some e2 ->
  key_cmp (en_ordering_key e1) (en_ordering_key e2) = (ts_of e1 ?= ts_of e2).
Proof.
  intros Hw Hi H1 H2. destruct (mc_key s (mw_core s Hw) t1 e1 H1) as [ts1 Hk1]. destruct (mc_key s (mw_core s Hw) t2 e2 H2) as [ts2 Hk2].
  assert (Hseq := io_seq s Hi t1 e1 t2 e2). assert (Hseq' := io_seq s Hi t2 e2 t1 e1). assert (Hun := mw_unique s Hw t1 t2 e1 e2).
  unfold ts_of in *. rewrite Hk1, Hk2 in *. unfold ordering_key_for_transaction, tx_seq_no, tx_target in *.
  destruct (tx_payload (en_tx e1)) as [|u1] eqn:Hp1, (tx_payload (en_tx e2)) as [|u2] eqn:Hp2; try done.
  rewrite ?Hp1, ?Hp2 in *. cbn [key_cmp timestamp_micros] in *. destruct (Z.eqb_spec (sau_target u1) (sau_target u2)) as [Ha|]; [|done].
  set (n1 := sud_seq_no (sod_update_data (sau_operation_data u1))) in *.
  set (n2 := sud_seq_no (sod_update_data (sau_operation_data u2))) in *. destruct (Z.compare_spec n1 n2) as [Hn|Hn|Hn].
  - assert (t1 = t2) as -> by (apply (Hun n1); congruence).
    rewrite H1 in H2. injection H2 as <-. rewrite Hk1 in Hk2. injection Hk2 as _ _ <-. by rewrite Z.compare_refl.
  - symmetry. apply Z.compare_lt_iff. by apply (Hseq n1 n2).
  - symmetry. apply Z.compare_gt_iff. by apply (Hseq' n2 n1).
Qed.

Lemma index_remove_spec k l :
  StronglySorted older l -> (forall p, p ∈ l -> key_cmp k p.1 = (timestamp_micros k ?= timestamp_micros p.1)) ->
  StronglySorted older (index_remove k l) /\
  forall p, p ∈ index_remove k l <-> p ∈ l /\ timestamp_micros p.1 <> timestamp_micros k.
Proof.
  induction l as [|[k' t'] l IH]; intros Hs Hc; [split; [constructor|set_solver]|].
  pose proof (StronglySorted_inv Hs) as [Hs' Ha]. rewrite Forall_forall in Ha. cbn [index_remove].
  pose proof (Hc (k', t') ltac:(by left)) as Hk. simpl in Hk. rewrite Hk.
  destruct (Z.compare_spec (timestamp_micros k) (timestamp_micros k')) as [Heq|Hlt|Hgt].
  - split; [done|]. intros p. split.
    + intros Hp. split; [by right|]. specialize (Ha p Hp). unfold older in Ha. simpl in Ha. lia.
    + intros [[->|Hp]%elem_of_cons Hne]; [by destruct Hne|done].
  - split; [done|]. intros p. split; [|by intros [? _]]. intros Hp. split; [done|].
    apply elem_of_cons in Hp as [->|Hp]; simpl; [lia|]. specialize (Ha p Hp). unfold older in Ha. simpl in Ha. lia.
  - destruct IH as [Hs2 Hel]; [done|intros p Hp; apply Hc; by right|]. split.
    + constructor; [done|]. apply Forall_forall. intros p [Hp _]%Hel. by apply Ha.
    + intros p. rewrite !elem_of_cons, Hel. split; [|naive_solver]. intros [->|[? ?]]; [simpl; split; [by left|lia]|split; [by right|done]].
Qed.

Lemma index_insert_last k t l :
  (forall p, p ∈ l -> key_cmp k p.1 = Gt) -> index_insert k t l = l ++ [(k, t)].
Proof.
  induction l as [|[k' t'] l IH]; intros Hc; [done|]. cbn [index_insert app].
  pose proof (Hc (k', t') ltac:(by left)) as Hk. simpl in Hk. rewrite Hk. f_equal. apply IH. intros p Hp. apply Hc. by right.
Qed.

Lemma idx_ok_sub (s s' : MS) :
  idx_ok s -> (forall t e, entries s' !! t = Some e -> entries s !! t = Some e) ->
  StronglySorted older (ordering_index s') ->
  (forall k t, (k, t) ∈ ordering_index s' <-> exists e, entries s' !! t = Some e /\ en_ordering_key e = k) -> idx_ok s'.
Proof. intros [Ht Hq _ _] Hsub Hs Hel. split; [eauto|eauto|done|done]. Qed.

Lemma forget_idx {cc cb} s t e : mp_wf cc cb s -> idx_ok s -> entries s !! t = Some e -> idx_ok (forget_tx t e s).
Proof.
  intros Hw Hi He. destruct (index_remove_spec (en_ordering_key e) (ordering_index s) (io_sorted s Hi)) as [Hs Hel].
  { intros [k t2] (e2 & H2 & <-)%(io_elem s Hi). by apply (key_cmp_ts (cc := cc) (cb := cb) s t e t2 e2). }
  apply (idx_ok_sub s); [done|by intros t2 e2 [_ ?]%forget_lookup|done|]. intros k t2. cbn [forget_tx ordering_index].
  setoid_rewrite forget_lookup. rewrite Hel, (io_elem s Hi). simpl. split.
  - intros [(e2 & H2 & <-) Hne]. exists e2. split_and!; try done. intros ->. rewrite He in H2. by injection H2 as <-.
  - intros (e2 & [Hne H2] & <-). split; [by exists e2|]. intros Hts. apply Hne. by apply (io_ts s Hi t2 e2 t e).
Qed.

(** A new transaction is younger than the others, and its sequence number is
    higher than those of its account. *)
Definition in_order (s : MS) (e : MempoolEntry) : Prop := forall t2 e2, entries s !! t2 = Some e2 ->
  ts_of e2 < ts_of e /\
  (tx_target (en_tx e2) = tx_target (en_tx e) -> forall n n2, tx_seq_no (en_tx e) = Some n -> tx_seq_no (en_tx e2) = Some n2 -> n2 < n).

Lemma in_order_cmp {cc cb} s t2 e2 e ts :
  mp_core cc cb s -> in_order s e -> en_ordering_key e = ordering_key_for_transaction (en_tx e) ts -> entries s !! t2 = Some e2 ->
  key_cmp (en_ordering_key e) (en_ordering_key e2) = Gt.
Proof.
  intros Hw Ho Hk H2. destruct (Ho t2 e2 H2) as [Hts Hseq]. destruct (mc_key s Hw t2 e2 H2) as [ts2 Hk2].
  unfold ts_of in Hts. rewrite Hk, Hk2 in *. unfold ordering_key_for_transaction, tx_seq_no, tx_target in *.
  destruct (tx_payload (en_tx e)) as [|u1], (tx_payload (en_tx e2)) as [|u2]; cbn [key_cmp timestamp_micros] in *;
    try (by apply Z.compare_gt_iff).
  destruct (Z.eqb_spec (sau_target u1) (sau_target u2)) as [Ha|]; apply Z.compare_gt_iff; [|done].
  by apply (Hseq (eq_sym Ha)).
Qed.

Lemma add_idx {cc cb} s t e ts :
  mp_core cc cb s -> idx_ok s -> entries s !! t = None -> en_ordering_key e = ordering_key_for_transaction (en_tx e) ts ->
  in_order s e -> idx_ok (add_tx_to_in_memory_state t e s).
Proof.
  intros Hw Hi Hnew Hk Ho.
  assert (Hins : ordering_index (add_tx_to_in_memory_state t e s) = ordering_index s ++ [(en_ordering_key e, t)]).
  { apply index_insert_last. intros [k t2] (e2 & H2 & <-)%(io_elem s Hi). by eapply in_order_cmp. }
  split.
  - intros t1 e1 t2 e2 [[-> ->]|[_ H1]]%add_lookup [[-> ->]|[_ H2]]%add_lookup Hts; try done.
    + pose proof (proj1 (Ho _ _ H2)). lia.
    + pose proof (proj1 (Ho _ _ H1)). lia.
    + by apply (io_ts s Hi t1 e1 t2 e2).
  - intros t1 e1 t2 e2 n1 n2 [[-> ->]|[_ H1]]%add_lookup [[-> ->]|[_ H2]]%add_lookup Ha Hn1 Hn2 Hlt.
    + rewrite Hn1 in Hn2. injection Hn2 as <-. lia.
    + pose proof (proj2 (Ho _ _ H2) (eq_sym Ha) n1 n2 Hn1 Hn2). lia.
    + by apply (proj1 (Ho _ _ H1)).
    + by apply (io_seq s Hi t1 e1 t2 e2 n1 n2).
  - rewrite Hins. apply StronglySorted_app. split_and!; [|apply Hi|repeat constructor].
    intros [k t2] q (e2 & H2 & <-)%(io_elem s Hi) ->%list_elem_of_singleton. apply (proj1 (Ho _ _ H2)).
  - intros k t2. rewrite Hins, elem_of_app, (io_elem s Hi), list_elem_of_singleton. setoid_rewrite add_lookup. split.
    + intros [(e2 & H2 & <-)|[= -> ->]]; [exists e2; split; [right; split; [congruence|done]|done]|]. exists e. split; [by left|done].
    + intros (e2 & [[-> ->]|[_ H2]] & <-); [by right|left; by exists e2].
Qed.

(** *** Removing *)

(** What changes when transactions leave: nothing else of the service does. *)
Record shrinks (s s' : MS) : Prop := {
  sh_core cc cb : mp_core cc cb s -> mp_core cc cb s';
  sh_wf cc cb : mp_wf cc cb s -> mp_wf cc cb s';
  sh_idx cc cb : mp_wf cc cb s -> idx_ok s -> idx_ok s';
  sh_sub t e : entries s' !! t = Some e -> entries s !! t = Some e;
  sh_config : mp_config s' = mp_config s;
  sh_accessor : state_accessor s' = state_accessor s;
}.

#[export] Instance shrinks_preorder : PreOrder shrinks.
Proof.
  split; [by intros s; split|]. intros s1 s2 s3 [Hc1 Hw1 Hi1 Hs1 Hg1 Ha1] [Hc2 Hw2 Hi2 Hs2 Hg2 Ha2].
  split; [eauto|eauto|eauto|auto|congruence|congruence].
Qed.

Lemma core_set_storage {cc cb} c s : mp_core cc cb s -> mp_core cc cb (set_storage c s).
Proof. intros Hc. destruct Hc. by split. Qed.

Lemma wf_set_storage {cc cb} c s : mp_wf cc cb s -> mp_wf cc cb (set_storage c s).
Proof. intros [Hc Hl Hu]. split; [by apply core_set_storage|done..]. Qed.

Lemma idx_set_storage c s : idx_ok s -> idx_ok (set_storage c s).
Proof. intros Hi. destruct Hi. by split. Qed.

Lemma set_storage_shrinks c s : shrinks s (set_storage c s).
Proof. split; try done; intros; [by apply core_set_storage|by apply wf_set_storage|by apply idx_set_storage]. Qed.

Lemma forget_shrinks t e s : entries s !! t = Some e -> shrinks s (forget_tx t e s).
Proof.
  intros He. split; try done; [intros cc cb Hc; by apply forget_core|intros cc cb Hw; apply forget_wf; [apply Hw|done..]|intros cc cb Hw Hi; by eapply forget_idx|].
  by intros t2 e2 [_ ?]%forget_lookup.
Qed.

Lemma remove_single_shrinks t e s r s' :
  entries s !! t = Some e -> remove_single_tx t e s = (r, s') -> shrinks s s'.
Proof.
  intros He. unfold remove_single_tx, mbind, on_storage. destruct (mp_del_tx t (mp_storage s)) as [[b|] c]; intros [= <- <-].
  - etransitivity; [apply set_storage_shrinks|by apply forget_shrinks].
  - apply set_storage_shrinks.
Qed.

(** Removals are sequences of removals of one pending transaction each, whatever
    their outcome. *)
Definition remove_step (s s' : MS) : Prop := exists t e r, entries s !! t = Some e /\ remove_single_tx t e s = (r, s').
Definition removes : MS -> MS -> Prop := rtc remove_step.

#[export] Instance removes_preorder : PreOrder removes.
Proof. unfold removes. apply _. Qed.

Lemma removes_shrinks s s' : removes s s' -> shrinks s s'.
Proof.
  induction 1 as [s|s1 s2 s3 (t & e & r & He & Hr) _ IH]; [done|]. etransitivity; [by eapply remove_single_shrinks|done].
Qed.

Lemma rm_core s s' (H : removes s s') cc cb : mp_core cc cb s -> mp_core cc cb s'.
Proof. by apply sh_core, removes_shrinks. Qed.
Lemma rm_wf s s' (H : removes s s') cc cb : mp_wf cc cb s -> mp_wf cc cb s'.
Proof. by apply sh_wf, removes_shrinks. Qed.
Lemma rm_idx s s' (H : removes s s') cc cb : mp_wf cc cb s -> idx_ok s -> idx_ok s'.
Proof. by apply sh_idx, removes_shrinks. Qed.
Lemma rm_sub s s' (H : removes s s') t e : entries s' !! t = Some e -> entries s !! t = Some e.
Proof. by apply sh_sub, removes_shrinks. Qed.
Lemma rm_accessor s s' (H : removes s s') : state_accessor s' = state_accessor s.
Proof. by apply sh_accessor, removes_shrinks. Qed.

Lemma remove_single_removes t e s r s' :
  entries s !! t = Some e -> remove_single_tx t e s = (r, s') -> removes s s'.
Proof. intros He Hr. apply rtc_once. by exists t, e, r. Qed.

Lemma remove_txs_removes ids removed m s r s' : remove_txs_internal ids removed m s = (r, s') -> removes s s'.
Proof.
  revert removed m s. induction ids as [|t ids IH]; intros removed m s H; cbn [remove_txs_internal] in H; [by injection H as _ <-|].
  unfold mbind at 1, mreads in H. destruct (entries s !! t) as [e|] eqn:He; [|by apply (IH _ _ _ H)]. unfold mbind in H.
  destruct (remove_single_tx t e s) as [[[]| |] s1] eqn:H1; [|injection H as _ <-; by eapply remove_single_removes..].
  etransitivity; [by eapply remove_single_removes|by eapply IH].
Qed.

Lemma remove_each_removes ids removed s : removes s (snd (remove_each ids removed s)).
Proof.
  revert removed s. induction ids as [|t ids IH]; intros removed s; cbn [remove_each]; [done|].
  destruct (entries s !! t) as [e|] eqn:He; [|apply IH].
  destruct (remove_single_tx t e s) as [[[]| |] s1] eqn:H1; [|by eapply remove_single_removes..].
  etransitivity; [by eapply remove_single_removes|apply IH].
Qed.

Lemma cascade_removes l removed s : removes s (snd (cascade_remove l removed s)).
Proof.
  revert removed s. induction l as [|[a v] l IH]; intros removed s; cbn [cascade_remove]; [done|].
  pose proof (remove_each_removes (dependents s a v) removed s) as H. unfold cascade_remove_for_account.
  destruct (remove_each _ _ _) as [removed1 s1]. etransitivity; [exact H|apply IH].
Qed.

Lemma remove_transactions_removes ids cascade s : removes s (snd (remove_transactions ids cascade s)).
Proof.
  unfold remove_transactions. destruct (remove_txs_internal ids [] ∅ s) as [[[removed m]| |] s1] eqn:H1; simpl;
    [|by eapply remove_txs_removes..].
  destruct cascade; [|by eapply remove_txs_removes]. etransitivity; [by eapply remove_txs_removes|apply cascade_removes].
Qed.
End spec.
