(* ===== verification/MempoolOps.v ===== *)
(** * The operations of the mempool

    The behaviour of submitting, reporting and chain updates on every branch,
    for databases that do not fail. *)

From S2P Require Import Prelude SortedMap Identifiers AcctTypes ChainTypes Externals LedgerTypes OLAccount OLState.
From S2P Require Import StateAccessor SnarkSys StfContext StfTx Mempool MempoolSpec.

Section ops.
Context `{X : Ext} {S : Type} `{SA : !IStateAccessorMut S} {C : Type} `{DB : !MempoolStorage (S := S) C}.

Abbreviation MS := (MempoolServiceState (S := S) (C := C)).

(** Writing transactions keeps blocks and states. *)
Definition db_frame (c c' : C) : Prop :=
  (forall id, mp_get_block_data c' id = mp_get_block_data c id) /\
  (forall tip, get_state_for_tip c' tip = get_state_for_tip c tip).

#[export] Instance db_frame_preorder : PreOrder db_frame.
Proof. split; [done|]. intros a b c [H1 H2] [H3 H4]. split; intros; congruence. Qed.

Class MempoolLaws : Prop := {
  law_del t c : exists b c', mp_del_tx t c = (Some b, c') /\ db_frame c c';
  law_put d c : exists c', mp_put_tx d c = (Some tt, c') /\ db_frame c c';
}.

Context `{ML : !MempoolLaws} {cc cb : Z}.

(** ** Removals in full *)

Lemma remove_single_run t e (s : MS) :
  exists c, remove_single_tx t e s = (Ok tt, forget_tx t e (set_storage c s)) /\ db_frame (mp_storage s) c.
Proof.
  destruct (law_del t (mp_storage s)) as (b & c & Hd & Hf). exists c. split; [|done].
  unfold remove_single_tx, mbind, on_storage. by rewrite Hd.
Qed.

(** The cascade of an account reaches sequence number [n]. *)
Definition covers (m : gmap AccountId Z) (a : AccountId) (n : Z) : Prop := exists v, m !! a = Some v /\ v <= n.

Lemma track_covers (e : MempoolEntry) m a n :
  n < U64_MAX ->
  covers (track_min_seq e m) a n <->
  covers m a n \/ tx_target (en_tx e) = a /\ exists n', tx_seq_no (en_tx e) = Some n' /\ n' <= n.
Proof.
  intros Hn. unfold covers, track_min_seq. destruct (tx_seq_no (en_tx e)) as [k|].
  - destruct (decide (tx_target (en_tx e) = a)) as [<-|Hne].
    + rewrite lookup_insert_eq. destruct (m !! tx_target (en_tx e)) as [v|]; split.
      * intros (w & [= <-] & Hw). destruct (decide (v <= n)); [left; by exists v|right]. split; [done|]. exists k. split; [done|lia].
      * intros [(w & [= <-] & Hw)|(_ & n' & [= <-] & Hw)]; eexists; split; [done|lia|done|lia].
      * intros (w & [= <-] & Hw). right. split; [done|]. by exists k.
      * intros [(w & ? & Hw)|(_ & n' & [= <-] & Hw)]; [done|]. by exists k.
    + rewrite lookup_insert_ne by done. naive_solver.
  - destruct (m !! tx_target (en_tx e)) as [v|] eqn:Hv; [naive_solver|]. destruct (decide (tx_target (en_tx e) = a)) as [<-|Hne].
    + rewrite lookup_insert_eq, Hv. split; [intros (w & [= <-] & Hw); lia|naive_solver].
    + rewrite lookup_insert_ne by done. naive_solver.
Qed.

Lemma remove_txs_run ids removed m (s : MS) :
  exists removed' m' s', remove_txs_internal ids removed m s = (Ok (removed', m'), s') /\ db_frame (mp_storage s) (mp_storage s') /\
    (forall t e, entries s' !! t = Some e <-> entries s !! t = Some e /\ (t ∉ ids)) /\
    (forall a n, n < U64_MAX -> covers m' a n <-> covers m a n \/
       exists t e n', t ∈ ids /\ entries s !! t = Some e /\ tx_target (en_tx e) = a /\ tx_seq_no (en_tx e) = Some n' /\ n' <= n).
Proof.
  revert removed m s. induction ids as [|t ids IH]; intros removed m s; cbn [remove_txs_internal].
  { exists removed, m, s. split_and!; try done; set_solver. }
  unfold mbind at 1, mreads. destruct (entries s !! t) as [e|] eqn:He.
  - destruct (remove_single_run t e s) as (c & Hr & Hf). unfold mbind. rewrite Hr.
    destruct (IH (removed ++ [t]) (track_min_seq e m) (forget_tx t e (set_storage c s))) as (removed' & m' & s' & -> & Hf' & Hel & Hcov).
    exists removed', m', s'. split_and!; [done|by etransitivity| |].
    + intros t2 e2. rewrite Hel, forget_lookup. cbn [set_storage entries]. set_solver.
    + intros a n Hn. rewrite (Hcov a n Hn), (track_covers e m a n Hn). setoid_rewrite forget_lookup. cbn [set_storage entries].
      split.
      * intros [[?|(Ha & n' & Hn' & Hle)]|(t2 & e2 & n' & Ht2 & [_ H2] & Hr2)]; [by left|right; exists t, e, n'; set_solver|].
        right. exists t2, e2, n'. set_solver.
      * intros [?|(t2 & e2 & n' & Ht2 & H2 & Ha & Hn' & Hle)]; [by left; left|].
        destruct (decide (t2 = t)) as [->|Hne]; [rewrite He in H2; injection H2 as <-; left; right; by eauto|].
        right. exists t2, e2, n'. set_solver.
  - destruct (IH removed m s) as (removed' & m' & s' & -> & Hf' & Hel & Hcov). exists removed', m', s'. split_and!; [done|done| |].
    + intros t2 e2. rewrite Hel. split; [|set_solver]. intros [H2 Hni]. split; [done|]. intros [->|?]%elem_of_cons; [congruence|done].
    + intros a n Hn. rewrite (Hcov a n Hn). split; (intros [?|(t2 & e2 & n' & Ht2 & H2 & Hr2)]; [by left|right; exists t2, e2, n']).
      * split; [by right|done].
      * apply elem_of_cons in Ht2 as [->|?]; [congruence|done].
Qed.

Lemma remove_each_run ids removed (s : MS) :
  let s' := snd (remove_each ids removed s) in
  db_frame (mp_storage s) (mp_storage s') /\ forall t e, entries s' !! t = Some e <-> entries s !! t = Some e /\ (t ∉ ids).
Proof.
  revert removed s. induction ids as [|t ids IH]; intros removed s; cbn [remove_each].
  { split; [done|]. set_solver. }
  destruct (entries s !! t) as [e|] eqn:He.
  - destruct (remove_single_run t e s) as (c & Hr & Hf). rewrite Hr.
    destruct (IH (removed ++ [t]) (forget_tx t e (set_storage c s))) as [Hf' Hel]. split; [by etransitivity|].
    intros t2 e2. rewrite Hel, forget_lookup. cbn [set_storage entries]. set_solver.
  - destruct (IH removed s) as [Hf' Hel]. split; [done|]. intros t2 e2. rewrite Hel. split; [|set_solver].
    intros [H2 Hni]. split; [done|]. intros [->|?]%elem_of_cons; [congruence|done].
Qed.

Lemma elem_of_dependents (s : MS) a v t :
  mp_wf cc cb s ->
  t ∈ dependents s a v <->
  exists e n, entries s !! t = Some e /\ tx_target (en_tx e) = a /\ tx_seq_no (en_tx e) = Some n /\ v <= n.
Proof.
  intros Hw. pose proof (mc_txids s Hw a t) as Ht. unfold txids_of in Ht. unfold dependents.
  destruct (account_state s !! a) as [st|]; simpl in Ht.
  - rewrite list_elem_of_In, filter_In, <- list_elem_of_In, elem_of_btree_set_iter, Ht. split.
    + intros [(e & He & Ha) Hq]. rewrite He in Hq. simpl in Hq. destruct (tx_seq_no (en_tx e)) as [n|] eqn:Hn; [|done].
      apply Z.leb_le in Hq. by exists e, n.
    + intros (e & n & He & Ha & Hn & Hle). split; [by exists e|]. rewrite He. simpl. rewrite Hn. by apply Z.leb_le.
  - split; [by intros ?%elem_of_nil|]. intros (e & n & He & Ha & _). exfalso. assert (Hin : t ∈ (∅ : gset Z)) by (apply Ht; by exists e).
    by apply elem_of_empty in Hin.
Qed.

Lemma cascade_run l removed (s : MS) :
  mp_wf cc cb s ->
  let s' := snd (cascade_remove l removed s) in
  db_frame (mp_storage s) (mp_storage s') /\
  forall t e, entries s' !! t = Some e <->
    entries s !! t = Some e /\ forall v n, (tx_target (en_tx e), v) ∈ l -> tx_seq_no (en_tx e) = Some n -> n < v.
Proof.
  revert removed s. induction l as [|[a v] l IH]; intros removed s Hw; cbn [cascade_remove].
  { split; [done|]. set_solver. }
  unfold cascade_remove_for_account. pose proof (remove_each_run (dependents s a v) removed s) as Hrun.
  pose proof (remove_each_removes (dependents s a v) removed s) as Hrm.
  destruct (remove_each _ _ _) as [removed1 s1]. simpl in Hrun, Hrm. destruct Hrun as [Hf Hel].
  destruct (IH removed1 s1 (rm_wf _ _ Hrm _ _ Hw)) as [Hf' Hel']. split; [by etransitivity|]. intros t e. rewrite Hel', Hel.
  rewrite (elem_of_dependents s a v t Hw). split.
  - intros [[He Hni] Hall]. split; [done|]. intros w n [Heq|Hin]%elem_of_cons Hn; [|by apply (Hall w n)].
    injection Heq as <- ->. destruct (decide (n < v)); [done|]. destruct Hni. exists e, n. split_and!; try done. lia.
  - intros [He Hall]. split_and!; [done| |].
    + intros (e2 & n & H2 & <- & Hn & Hle). rewrite He in H2. injection H2 as <-.
      pose proof (Hall v n ltac:(by left) Hn). lia.
    + intros w n Hin. apply Hall. by right.
Qed.

(** [e] is a later transaction of an account of which one of [ids] is removed. *)
Definition depends (s : MS) (ids : list OLTxId) (e : MempoolEntry) : Prop := exists t' e' n' n,
  t' ∈ ids /\ entries s !! t' = Some e' /\ tx_target (en_tx e') = tx_target (en_tx e) /\
  tx_seq_no (en_tx e') = Some n' /\ tx_seq_no (en_tx e) = Some n /\ n' <= n.

Definition seqs_bounded (s : MS) : Prop := forall t e n,
  entries s !! t = Some e -> tx_seq_no (en_tx e) = Some n -> 0 <= n < U64_MAX.

Lemma remove_transactions_run ids (cascade : bool) (s : MS) :
  mp_wf cc cb s -> (cascade = true -> seqs_bounded s) ->
  let s' := snd (remove_transactions ids cascade s) in
  db_frame (mp_storage s) (mp_storage s') /\
  forall t e, entries s' !! t = Some e <->
    entries s !! t = Some e /\ (t ∉ ids) /\ (cascade = true -> ~ depends s ids e).
Proof.
  intros Hw Hb. unfold remove_transactions. destruct (remove_txs_run ids [] ∅ s) as (removed & m & s1 & Hr & Hf & Hel & Hcov).
  pose proof (remove_txs_removes _ _ _ _ _ _ Hr) as Hrm. rewrite Hr. destruct cascade; [|simpl; split; [done|]; intros t e; rewrite Hel; naive_solver].
  destruct (cascade_run (map_to_list m) removed s1 (rm_wf _ _ Hrm _ _ Hw)) as [Hf' Hel']. split; [by etransitivity|].
  intros t e. rewrite Hel', Hel. split.
  - intros [[He Hni] Hall]. split_and!; [done..|]. intros _ (t' & e' & n' & n & Ht' & He' & Ha & Hn' & Hn & Hle).
    destruct (proj2 (Hcov (tx_target (en_tx e)) n (proj2 (Hb eq_refl t e n He Hn)))) as (v & Hv & Hvn); [right; by exists t', e', n'|].
    apply elem_of_map_to_list in Hv. pose proof (Hall v n Hv Hn). lia.
  - intros (He & Hni & Hd). split; [done|]. intros v n Hv%elem_of_map_to_list Hn. destruct (decide (n < v)) as [|Hge]; [done|].
    exfalso. apply (Hd eq_refl). destruct (proj1 (Hcov (tx_target (en_tx e)) n (proj2 (Hb eq_refl t e n He Hn)))) as [(w & Hw' & _)|(t' & e' & n' & Hr')].
    + exists v. split; [done|lia].
    + by rewrite lookup_empty in Hw'.
    + exists t', e', n', n. naive_solver.
Qed.

(** Reporting transactions removes exactly those reported invalid and the
    later updates of the same accounts; transactions that only failed, and all
    others, stay.  The bookkeeping and the ordering index keep their
    invariants. *)
Theorem report_invalid_spec txs (s : MS) :
  mp_wf cc cb s -> seqs_bounded s ->
  let s' := handle_report_invalid_transactions txs s in
  let ids := map fst (List.filter (fun p => should_remove_tx p.2) txs) in
  mp_wf cc cb s' /\ (idx_ok s -> idx_ok s') /\
  (forall t, t ∈ ids <-> (t, TxInvalid) ∈ txs) /\
  forall t e, entries s' !! t = Some e <-> entries s !! t = Some e /\ (t ∉ ids) /\ ~ depends s ids e.
Proof.
  intros Hw Hb s' ids. pose proof (remove_transactions_removes ids true s) as Hrm.
  split; [by apply (rm_wf _ _ Hrm)|]. split; [by apply (rm_idx _ _ Hrm cc cb)|]. split.
  - intros t. unfold ids. rewrite list_elem_of_In, in_map_iff. setoid_rewrite filter_In. rewrite list_elem_of_In. split.
    + intros ([t' []] & <- & Hin & Hr); [done|done].
    + intros Hin. by exists (t, TxInvalid).
  - intros t e. unfold s', handle_report_invalid_transactions. fold ids. rewrite (proj2 (remove_transactions_run ids true s Hw (fun _ => Hb)) t e). naive_solver.
Qed.
(** ** Submitting *)

Definition slot_in_bounds (c : TxConstraints) (slot : Slot) : Prop :=
  (forall m, tc_min_slot c = Some m -> m <= slot) /\ (forall m, tc_max_slot c = Some m -> slot <= m).

Lemma check_tx_constraints_ok c (a : S) : check_tx_constraints c a = Ok tt <-> slot_in_bounds c (cur_slot a).
Proof.
  unfold check_tx_constraints, slot_in_bounds. destruct (tc_min_slot c) as [mn|], (tc_max_slot c) as [mx|];
    repeat case_step; zbool; split; intros H; try done; try (split; intros m [= <-]; lia); exfalso;
    destruct H as [H1 H2]; try (specialize (H1 _ eq_refl)); try (specialize (H2 _ eq_refl)); lia.
Qed.

(** What a transaction has to satisfy: it is within its slots, its account
    exists, and a snark update has the next sequence number of the account, or
    one that is pending or follows the pending ones. *)
Record admissible (s : MS) (tx : OLTransaction) (acct : OLAccountState) : Prop := {
  ad_slot : slot_in_bounds (txd_constraints (tx_data tx)) (cur_slot (state_accessor s));
  ad_account : get_account_state (state_accessor s) (tx_target tx) = Ok (Some acct);
  ad_seq n : tx_seq_no tx = Some n ->
    (seqs_of s (tx_target tx) = ∅ -> exists sn, as_snark_account acct = Ok sn /\ sas_seqno sn = n) /\
    (seqs_of s (tx_target tx) <> ∅ ->
       exists mn mx, mn ∈ seqs_of s (tx_target tx) /\ mx ∈ seqs_of s (tx_target tx) /\ mn <= n <= mx + 1);
}.

Lemma pending_range (s : MS) a :
  match account_state s !! a ≫= seq_no_range with
  | Some (mn, mx) => mn ∈ seqs_of s a /\ mx ∈ seqs_of s a /\ forall k, k ∈ seqs_of s a -> mn <= k <= mx
  | None => seqs_of s a = ∅
  end.
Proof.
  unfold seqs_of. destruct (account_state s !! a) as [st|]; simpl; [|done].
  destruct (seq_no_range st) as [[mn mx]|] eqn:Hr; [|by apply seq_no_range_none].
  destruct (seq_no_range_in st mn mx Hr) as [? ?]. split_and!; [done..|]. by apply seq_no_range_some.
Qed.

Lemma seqs_bounded_of (s : MS) a n : mp_wf cc cb s -> seqs_bounded s -> n ∈ seqs_of s a -> 0 <= n < U64_MAX.
Proof. intros Hw Hb (t & e & He & _ & Hn)%(mw_seqs s Hw). by apply (Hb t e n). Qed.

Lemma validate_seq_ok (s : MS) txid a n acct :
  mp_wf cc cb s -> seqs_bounded s -> get_account_state (state_accessor s) a = Ok (Some acct) ->
  validate_snark_account_update_tx_seq_no txid a n (account_state s !! a ≫= seq_no_range) (state_accessor s) = Ok tt <->
  (seqs_of s a = ∅ -> exists sn, as_snark_account acct = Ok sn /\ sas_seqno sn = n) /\
  (seqs_of s a <> ∅ -> exists mn mx, mn ∈ seqs_of s a /\ mx ∈ seqs_of s a /\ mn <= n <= mx + 1).
Proof.
  intros Hw Hb Hacct. pose proof (pending_range s a) as Hr. unfold validate_snark_account_update_tx_seq_no.
  destruct (account_state s !! a ≫= seq_no_range) as [[mn mx]|].
  - destruct Hr as (Hmn & Hmx & Hall). assert (Hne : seqs_of s a <> ∅) by set_solver.
    pose proof (seqs_bounded_of s a mx Hw Hb Hmx) as Hmxb. unfold check_seq_no_in_range.
    assert (Hwrap : wrap_u64 (mx + 1) = mx + 1) by (unfold_widths; rewrite Z.mod_small; lia). rewrite Hwrap. split.
    + intros Hok. split; [done|]. intros _. exists mn, mx. split_and!; try done; repeat case_step; zbool; try done; lia.
    + intros [_ (mn' & mx' & Hmn' & Hmx' & Hle)]; [done|]. pose proof (Hall _ Hmn'). pose proof (Hall _ Hmx').
      rewrite (proj2 (Z.ltb_ge _ _)) by lia. by rewrite (proj2 (Z.ltb_ge _ _)) by lia.
  - unfold mp_get_account_state. rewrite Hacct. simpl. unfold verify_seq_no. split.
    + intros Hok. split; [intros _|done]. destruct (as_snark_account acct) as [sn| |]; [|done..]. exists sn. split; [done|].
      simpl in Hok. destruct (n =? sas_seqno sn) eqn:Hn; zbool; [done|]. simpl in Hok. unfold seq_no_error_to_mempool_error in Hok. done.
    + intros [Hex _]. destruct (Hex Hr) as (sn & -> & <-). simpl. by rewrite Z.eqb_refl.
Qed.

Lemma validate_ok (s : MS) txid tx :
  mp_wf cc cb s -> seqs_bounded s ->
  validate_transaction txid tx (state_accessor s) (account_state s) = Ok tt <-> exists acct, admissible s tx acct.
Proof.
  intros Hw Hb. unfold validate_transaction. pose proof (check_tx_constraints_ok (txd_constraints (tx_data tx)) (state_accessor s)) as Hc.
  destruct (check_tx_constraints _ _) as [[]| |]; simpl;
    [|by split; [|intros (acct & [Hs _ _]); apply Hc in Hs]..].
  unfold mp_get_account_state at 1. pose proof (validate_seq_ok s txid (tx_target tx)) as Hq.
  destruct (get_account_state (state_accessor s) (tx_target tx)) as [[acct|]| |] eqn:Hacct; simpl;
    [|by split; [|intros (acct' & [_ Ha _]); rewrite Hacct in Ha]..].
  destruct (tx_seq_no tx) as [n|] eqn:Hn.
  - rewrite (Hq n acct Hw Hb eq_refl). split.
    + intros Hs. exists acct. split; [by apply Hc|done|]. intros n' Hn'. rewrite Hn in Hn'. by injection Hn' as <-.
    + intros (acct' & [_ Ha Hseq]). rewrite Hacct in Ha. injection Ha as <-. by apply Hseq.
  - split; [|done]. intros _. exists acct. split; [by apply Hc|done|]. intros n' Hn'. congruence.
Qed.

(** A validation does not panic if reading accounts does not. *)
Lemma validate_no_panic (s : MS) txid tx accounts :
  get_account_state (state_accessor s) (tx_target tx) <> Panic ->
  validate_transaction txid tx (state_accessor s) accounts <> Panic.
Proof.
  intros Hp. unfold validate_transaction.
  destruct (check_tx_constraints _ _) as [[]| |] eqn:Hc; simpl; [|done|unfold check_tx_constraints in Hc; by repeat case_step].
  unfold mp_get_account_state at 1. destruct (get_account_state _ _) as [[acct|]| |] eqn:Hacct; simpl; [|done..].
  destruct (tx_seq_no tx) as [n|]; [|done]. unfold validate_snark_account_update_tx_seq_no.
  destruct (_ ≫= seq_no_range) as [[mn mx]|]; [unfold check_seq_no_in_range; by repeat case_step|].
  unfold mp_get_account_state. rewrite Hacct. simpl. unfold as_snark_account. destruct (acct_state acct); simpl; [done|].
  unfold verify_seq_no. by destruct (negb _).
Qed.

Definition same_seqno (tx : OLTransaction) (e : MempoolEntry) : Prop :=
  tx_target (en_tx e) = tx_target tx /\ exists n, tx_seq_no tx = Some n /\ tx_seq_no (en_tx e) = Some n.

Lemma find_same_seqno_spec (s : MS) tx :
  mp_wf cc cb s ->
  match find_account_tx_with_same_seqno s tx with
  | Some t => exists e, entries s !! t = Some e /\ same_seqno tx e
  | None => forall t e, entries s !! t = Some e -> ~ same_seqno tx e
  end.
Proof.
  intros Hw. unfold find_account_tx_with_same_seqno, same_seqno. destruct (tx_seq_no tx) as [n|]; [|naive_solver].
  assert (Hex : forall t e, entries s !! t = Some e -> tx_target (en_tx e) = tx_target tx -> tx_seq_no (en_tx e) = Some n ->
    t ∈ txids_of s (tx_target tx) /\ n ∈ seqs_of s (tx_target tx)).
  { intros t e He Ha Hn. split; [apply (mc_txids s Hw); by exists e|apply (mw_seqs s Hw); by exists t, e]. }
  pose proof (pending_range s (tx_target tx)) as Hr. pose proof (mc_txids s Hw (tx_target tx)) as Htx. unfold txids_of in Hex, Htx.
  destruct (account_state s !! tx_target tx) as [st|] eqn:Hst; simpl in Hr, Hex, Htx; [|intros t e He (Ha & k & [= <-] & Hn); set_solver].
  destruct (seq_no_range st) as [[mn mx]|]; [|intros t e He (Ha & k & [= <-] & Hn); set_solver].
  destruct Hr as (_ & _ & Hall). destruct ((n <? mn) || (mx <? n)) eqn:Hout.
  { intros t e He (Ha & k & [= <-] & Hn). destruct (Hex t e He Ha Hn) as [_ Hin]. specialize (Hall n Hin).
    apply orb_true_iff in Hout as [Hout|Hout]; zbool; lia. }
  destruct (List.find _ _) as [t|] eqn:Hf.
  - apply find_some in Hf as [Hin Hd]. apply bool_decide_eq_true in Hd. rewrite <- list_elem_of_In, elem_of_btree_set_iter in Hin.
    destruct (proj1 (Htx t) Hin) as (e & He & Ha). rewrite He in Hd. simpl in Hd. exists e. split; [done|]. split; [done|]. by exists n.
  - intros t e He (Ha & k & [= <-] & Hn). destruct (Hex t e He Ha Hn) as [Hin _].
    pose proof (find_none _ _ Hf t) as Hd. rewrite <- list_elem_of_In, elem_of_btree_set_iter in Hd. specialize (Hd Hin).
    apply bool_decide_eq_false in Hd. rewrite He in Hd. simpl in Hd. congruence.
Qed.

(** Before the new transaction is added: the one it replaces is gone. *)
Lemma replaced_run (s : MS) tx :
  mp_wf cc cb s ->
  let s1 := match find_account_tx_with_same_seqno s tx with
            | Some old => snd (remove_transactions [old] false s) | None => s end in
  removes s s1 /\ db_frame (mp_storage s) (mp_storage s1) /\
  forall t e, entries s1 !! t = Some e <-> entries s !! t = Some e /\ ~ same_seqno tx e.
Proof.
  intros Hw. pose proof (find_same_seqno_spec s tx Hw) as Hf. destruct (find_account_tx_with_same_seqno s tx) as [old|]; simpl.
  - destruct Hf as (eo & Ho & Hao & n & Hn & Hno). destruct (remove_transactions_run [old] false s Hw ltac:(done)) as [Hfr Hel].
    split; [apply remove_transactions_removes|]. split; [done|]. intros t e. rewrite Hel, list_elem_of_singleton. split.
    + intros (He & Hne & _). split; [done|]. intros (Ha & k & Hk & Hkn). apply Hne. rewrite Hn in Hk. injection Hk as <-.
      apply (mw_unique s Hw t old e eo n); congruence.
    + intros [He Hns]. split_and!; try done. intros ->. rewrite Ho in He. injection He as <-. apply Hns. split; [done|]. by exists n.
  - split; [done|]. split; [done|]. intros t e. split; [intros He; split; [done|by eapply Hf]|by intros [? _]].
Qed.

(** There is room for the transaction. *)
Record fits (s : MS) (tx : OLTransaction) : Prop := {
  fit_size : zlen (tx_as_ssz_bytes tx) <= max_tx_size (mp_config s);
  fit_count : Z.of_nat (size (entries s)) < max_tx_count (mp_config s);
  fit_bytes : map_sum en_size_bytes (entries s) + zlen (tx_as_ssz_bytes tx) <= max_mempool_bytes (mp_config s);
}.

Lemma capacity_ok (s : MS) tx :
  mp_core cc cb s -> zlen (tx_as_ssz_bytes tx) <= max_tx_size (mp_config s) ->
  match check_capacity_limits s (zlen (tx_as_ssz_bytes tx)) with
  | Ok _ => fits s tx
  | Err _ => ~ fits s tx
  | Panic => False
  end.
Proof.
  intros Hw Hsz. pose proof (zlen_nonneg (tx_as_ssz_bytes tx)) as H0. pose proof (bytes_nonneg s Hw) as Hb0.
  destruct (mc_limits s Hw) as [Hc0 Hc0' Hc1 Hc2 Hms]. pose proof (mc_bytes_limit s Hw) as Hbl. unfold check_capacity_limits. rewrite (mc_bytes s Hw).
  assert (Hwrap : wrap_u64 (map_sum en_size_bytes (entries s) + zlen (tx_as_ssz_bytes tx)) =
    map_sum en_size_bytes (entries s) + zlen (tx_as_ssz_bytes tx)) by (unfold_widths; rewrite Z.mod_small; lia).
  rewrite Hwrap. destruct (_ <=? _) eqn:Hcount; zbool; [intros [_ ? _]; lia|].
  destruct (_ <? _) eqn:Hbytes; zbool; [intros [_ _ ?]; lia|]. by split.
Qed.

Definition new_entry (now : Z) (tx : OLTransaction) : MempoolEntry :=
  {| en_tx := tx; en_ordering_key := ordering_key_for_transaction tx now; en_size_bytes := zlen (tx_as_ssz_bytes tx) |}.

(** Every pending transaction is older than [now], and no pending update of the
    account has a higher sequence number. *)
Definition submitted_in_order (s : MS) (now : Z) (tx : OLTransaction) : Prop := forall t e, entries s !! t = Some e ->
  ts_of e < now /\
  (tx_target (en_tx e) = tx_target tx -> forall n n2, tx_seq_no tx = Some n -> tx_seq_no (en_tx e) = Some n2 -> n2 <= n).

Lemma ts_new_entry now tx : ts_of (new_entry now tx) = now.
Proof. unfold ts_of, new_entry, ordering_key_for_transaction. simpl. by destruct (tx_payload tx). Qed.

Section accept.
Context (s : MS) (now : Z) (tx : OLTransaction) (Hw : mp_wf cc cb s).
Context (Hnew : entries s !! compute_txid tx = None) (Hfits : fits s tx).
Let s1 := match find_account_tx_with_same_seqno s tx with
          | Some old => snd (remove_transactions [old] false s) | None => s end.

Lemma accept_state c :
  let s' := add_tx_to_in_memory_state (compute_txid tx) (new_entry now tx) (set_storage c s1) in
  mp_wf cc cb s' /\
  (forall t e, entries s' !! t = Some e <-> t = compute_txid tx /\ e = new_entry now tx \/ entries s !! t = Some e /\ ~ same_seqno tx e) /\
  (idx_ok s -> submitted_in_order s now tx -> idx_ok s').
Proof.
  destruct (replaced_run s tx Hw) as (Hrm & _ & Hel). fold s1 in Hrm, Hel.
  assert (Hw1 : mp_wf cc cb (set_storage c s1)) by (apply wf_set_storage, (rm_wf _ _ Hrm _ _ Hw)).
  assert (Hnew1 : entries (set_storage c s1) !! compute_txid tx = None).
  { simpl. destruct (entries s1 !! compute_txid tx) eqn:H; [|done]. apply Hel in H as [? _]. congruence. }
  assert (Hsub : map_sum en_size_bytes (entries s1) <= map_sum en_size_bytes (entries s) /\ (size (entries s1) <= size (entries s))%nat).
  { assert (Hincl : entries s1 ⊆ entries s) by (apply map_subseteq_spec; intros t e; apply (rm_sub _ _ Hrm)).
    split; [apply map_sum_subseteq; [intros t e; apply (mc_size s Hw)|done]|by apply map_subseteq_size]. }
  destruct Hfits as [Hf1 Hf2 Hf3], (mc_limits s Hw) as [Hlc Hlb _ _ _]. pose proof (zlen_nonneg (tx_as_ssz_bytes tx)).
  intros s'. split_and!.
  - apply add_wf; try done; try (cbn [set_storage entries new_entry en_size_bytes]; lia); [apply Hw1|by exists now|].
    intros t2 e2 n [H2 Hns]%Hel Ha Hn Hn2. apply Hns. split; [done|]. by exists n.
  - intros t e. unfold s'. rewrite add_lookup. cbn [set_storage entries]. rewrite Hel. split; [naive_solver|].
    intros [?|[He ?]]; [by left|]. right. split; [congruence|done].
  - intros Hi Ho. apply (add_idx (cc := cc) (cb := cb) _ _ _ now); try done; [apply Hw1|apply idx_set_storage, (rm_idx _ _ Hrm _ _ Hw Hi)|].
    intros t2 e2 [H2 Hns]%Hel. destruct (Ho t2 e2 H2) as [Hts Hseq]. rewrite ts_new_entry. split; [done|].
    intros Ha n n2 Hn Hn2. specialize (Hseq Ha n n2 Hn Hn2). destruct (decide (n2 = n)) as [->|]; [|lia].
    destruct Hns. split; [done|]. by exists n.
Qed.

Lemma accept_run acct :
  seqs_bounded s -> admissible s tx acct -> exists c, add_transaction now tx s =
    (Ok (compute_txid tx), add_tx_to_in_memory_state (compute_txid tx) (new_entry now tx) (set_storage c s1)).
Proof.
  intros Hb Had. destruct (law_put {| mtd_txid := compute_txid tx; mtd_tx_bytes := tx_as_ssz_bytes tx; mtd_timestamp_micros := now |}
    (mp_storage s1)) as (c & Hput & _). exists c.
  unfold add_transaction. unfold mbind at 1, mreads, contains. rewrite Hnew, bool_decide_false by (by intros []).
  unfold mbind at 1. rewrite (proj2 (Z.ltb_ge _ _)) by apply Hfits. unfold mbind at 1.
  pose proof (capacity_ok s tx Hw (fit_size s tx Hfits)) as Hcap. destruct (check_capacity_limits s _); [|done..].
  unfold mbind at 1. rewrite (proj2 (validate_ok s _ tx Hw Hb)) by (by exists acct).
  unfold mbind at 1, mmodify. unfold mbind at 1. fold s1. unfold mbind at 1, on_storage. rewrite Hput. done.
Qed.
End accept.

(** A change of the counters of accepted and rejected transactions. *)
Definition counts_only (f : OLMempoolStats -> OLMempoolStats) : Prop := forall st,
  mempool_size (f st) = mempool_size st /\ total_bytes (f st) = total_bytes st.

(** Rejections change only the counters. *)
Lemma reject_run {A} reason e (s : MS) : exists f, counts_only f /\ reject (A := A) reason e s = (Err e, set_stats f s).
Proof. destruct reason as [r|]; [by exists (update_stats_on_reject r)|]. exists id. split; [done|]. by destruct s. Qed.

Lemma refuse_run now tx (s : MS) :
  mp_wf cc cb s -> seqs_bounded s -> get_account_state (state_accessor s) (tx_target tx) <> Panic ->
  entries s !! compute_txid tx = None -> ~ (fits s tx /\ exists acct, admissible s tx acct) ->
  exists err f, counts_only f /\ add_transaction now tx s = (Err err, set_stats f s).
Proof.
  intros Hw Hb Hp Hnew Hno. unfold add_transaction.
  unfold mbind at 1, mreads, contains. rewrite Hnew, bool_decide_false by (by intros []).
  unfold mbind at 1. destruct (_ <? _) eqn:Hsz; zbool; [eexists; apply reject_run|].
  unfold mbind at 1. pose proof (capacity_ok s tx Hw Hsz) as Hcap. destruct (check_capacity_limits s _); [|eexists; apply reject_run|done].
  unfold mbind at 1. pose proof (validate_ok s (compute_txid tx) tx Hw Hb) as Hv. pose proof (validate_no_panic s (compute_txid tx) tx (account_state s) Hp) as Hnp.
  destruct (validate_transaction _ _ _ _) as [[]| |]; [|eexists; apply reject_run|done]. destruct Hno. split; [done|by apply Hv].
Qed.

(** C29: Submitting a transaction.  One that is already pending is acknowledged
    again and changes only the counters.  A new one is accepted exactly if it
    fits the limits and is admissible; it then replaces the pending update with
    its sequence number, if any, and everything else stays.  Otherwise an error
    is returned and only the counters change.  The bookkeeping invariant, with
    the limits on count and bytes, is kept, and the ordering index stays sorted
    by age if transactions arrive in order. *)
Theorem submit_spec now tx (s : MS) :
  mp_wf cc cb s -> seqs_bounded s -> get_account_state (state_accessor s) (tx_target tx) <> Panic ->
  let txid := compute_txid tx in
  (is_Some (entries s !! txid) ->
     handle_submit_transaction now tx s = (Ok txid, set_stats (update_stats_on_reject RejDuplicate) s)) /\
  (entries s !! txid = None -> fits s tx -> (exists acct, admissible s tx acct) ->
     exists s', handle_submit_transaction now tx s = (Ok txid, s') /\ mp_wf cc cb s' /\
       (forall t e, entries s' !! t = Some e <->
          t = txid /\ e = new_entry now tx \/ entries s !! t = Some e /\ ~ same_seqno tx e) /\
       (idx_ok s -> submitted_in_order s now tx -> idx_ok s')) /\
  (entries s !! txid = None -> ~ (fits s tx /\ exists acct, admissible s tx acct) ->
     exists err f, counts_only f /\ handle_submit_transaction now tx s = (Err err, set_stats f s)).
Proof.
  intros Hw Hb Hp txid. unfold handle_submit_transaction. split_and!.
  - intros Hin. unfold add_transaction, mbind at 1, mreads, contains. fold txid. by rewrite bool_decide_true.
  - intros Hnew Hf [acct Had]. destruct (accept_run s now tx Hw Hnew Hf acct Hb Had) as (c & Hrun).
    eexists. split; [exact Hrun|]. by apply (accept_state s now tx Hw Hnew Hf c).
  - intros Hnew Hno. apply refuse_run; done.
Qed.
End ops.
