(* ===== verification/MempoolProps.v ===== *)
(** * Runs of the mempool

    What the commands and chain updates promise together: chain updates drop what
    was included or has expired; loading from the database, and the invariant in
    every run, over any database, and over restarts on one that does not fail;
    transactions are handed out by age if they come in order; and ways in which the
    ordering index and a restart go wrong if they do not. *)

From S2P Require Import Prelude SortedMap Identifiers AcctTypes ChainTypes Externals LedgerTypes OLAccount OLState.
From S2P Require Import StateAccessor SnarkSys StfContext StfTx StfManifestSpec Mempool MempoolSpec MempoolOps.

Section props.
Context `{X : Ext} {S : Type} `{SA : !IStateAccessorMut S} {C : Type} `{DB : !MempoolStorage (S := S) C}.

Abbreviation MS := (MempoolServiceState (S := S) (C := C)).

(** ** Handing out transactions *)

Definition resolve (s : MS) (p : MempoolOrderingKey * OLTxId) : option (OLTxId * MempoolEntry) :=
  (fun e => (p.2, e)) <$> entries s !! p.2.

Lemma omap_take_all {A B} (f : A -> option B) l n :
  (forall x, x ∈ l -> is_Some (f x)) -> omap f (take n l) = take n (omap f l).
Proof.
  revert n. induction l as [|x l IH]; intros [|n] Hall; [done..|]. destruct (Hall x) as [y Hy]; [by left|].
  cbn [take]. simpl. rewrite Hy. simpl. f_equal. apply IH. intros z Hz. apply Hall. by right.
Qed.

Lemma resolve_sorted (s : MS) l :
  StronglySorted older l -> (forall k t, (k, t) ∈ l -> exists e, entries s !! t = Some e /\ en_ordering_key e = k) ->
  StronglySorted (fun p q => ts_of p.2 < ts_of q.2) (omap (resolve s) l).
Proof.
  induction l as [|[k t] l IH]; intros Hs Hall; [constructor|]. apply StronglySorted_inv in Hs as [Hs Ha].
  destruct (Hall k t) as (e & He & <-); [by left|]. cbn [omap list_omap]. unfold resolve at 1. simpl. rewrite He. simpl.
  constructor; [apply IH; [done|intros k' t' Hin; apply Hall; by right]|].
  apply Forall_forall. intros [t2 e2] ([k' t'] & Hin & Hr)%list_elem_of_omap. unfold resolve in Hr. simpl in Hr.
  destruct (Hall k' t') as (e' & He' & <-); [by right|]. rewrite He' in Hr. injection Hr as <- <-.
  rewrite Forall_forall in Ha. by apply (Ha _ Hin).
Qed.

(** The transactions by age, with the updates of an account in the order of their
    sequence numbers. *)
Definition by_age (s : MS) (l : list (OLTxId * MempoolEntry)) : Prop :=
  l ≡ₚ map_to_list (entries s) /\ StronglySorted (fun p q => ts_of p.2 < ts_of q.2) l /\
  forall i j p q n m, l !! i = Some p -> l !! j = Some q -> (i < j)%nat -> tx_target (en_tx p.2) = tx_target (en_tx q.2) ->
    tx_seq_no (en_tx p.2) = Some n -> tx_seq_no (en_tx q.2) = Some m -> n < m.

(** A sound ordering index hands out by age. *)
Lemma idx_hands_out {cc cb} limit (s : MS) :
  mp_wf cc cb s -> idx_ok s ->
  exists l, by_age s l /\ handle_get_transactions limit s = take limit (map (fun p => (p.1, en_tx p.2)) l).
Proof.
  intros Hw Hi. set (l := omap (resolve s) (ordering_index s)).
  assert (Hel : forall t e, (t, e) ∈ l <-> entries s !! t = Some e).
  { intros t e. unfold l. rewrite list_elem_of_omap. split.
    - intros ([k t'] & Hin & Hr). unfold resolve in Hr. simpl in Hr. destruct (entries s !! t') eqn:He; [|done].
      simpl in Hr. by injection Hr as <- <-.
    - intros He. exists (en_ordering_key e, t). split; [apply (io_elem s Hi); by exists e|]. unfold resolve. simpl. by rewrite He. }
  assert (Hsorted : StronglySorted (fun p q => ts_of p.2 < ts_of q.2) l).
  { apply resolve_sorted; [apply Hi|]. intros k t. apply (io_elem s Hi). }
  exists l. split; [split_and!; [|done|]|].
  - apply NoDup_Permutation; [|apply NoDup_map_to_list|intros [t e]; by rewrite Hel, elem_of_map_to_list].
    clear -Hsorted. induction Hsorted as [|p l _ IH Ha]; constructor; [|done]. intros Hin. rewrite Forall_forall in Ha.
    specialize (Ha p Hin). lia.
  - intros i j [t1 e1] [t2 e2] n m H1 H2 Hij Ha Hn Hm. simpl in *.
    assert (Hts : ts_of e1 < ts_of e2) by (by apply (strongly_sorted_lookup _ _ Hsorted _ _ _ _ H1 H2 Hij)).
    apply list_elem_of_lookup_2, Hel in H1. apply list_elem_of_lookup_2, Hel in H2.
    destruct (Z.lt_total n m) as [|[->|Hlt]]; [done| |].
    + assert (t1 = t2) as -> by (by apply (mw_unique s Hw t1 t2 e1 e2 m)). rewrite H1 in H2. injection H2 as <-. lia.
    + pose proof (io_seq s Hi t2 e2 t1 e1 m n H2 H1 (eq_sym Ha) Hm Hn Hlt). lia.
  - assert (Hall : forall p, p ∈ ordering_index s -> is_Some (resolve s p)).
    { intros [k t] (e & He & _)%(io_elem s Hi). unfold resolve. simpl. by rewrite He. }
    rewrite firstn_map. unfold l. rewrite <- omap_take_all by done. unfold handle_get_transactions.
    induction (take limit (ordering_index s)) as [|[k t] l' IH]; [done|]. cbn [omap list_omap]. unfold resolve at 1. simpl.
    destruct (entries s !! t); simpl; [f_equal|]; apply IH.
Qed.

(** ** Chain updates *)

Definition included (by_account : gmap AccountId (list OLTxId)) (t : OLTxId) : Prop :=
  exists a l, by_account !! a = Some l /\ t ∈ l.

Lemma elem_of_extract block t :
  included (extract_account_txs_from_block block) t <-> exists tx, tx ∈ block_txs (blk_body block) /\ compute_txid tx = t.
Proof.
  unfold extract_account_txs_from_block, block_txs. destruct (body_tx_segment (blk_body block)) as [txs|]; simpl.
  2: { split; [intros (a & l & H & _)|intros (tx & ?%elem_of_nil & _)]; [by rewrite lookup_empty in H|done]. }
  set (f := fun by_account tx => _).
  assert (Hgen : forall m, included (fold_left f txs m) t <-> included m t \/ exists tx, tx ∈ txs /\ compute_txid tx = t).
  { induction txs as [|tx txs IH]; intros m; simpl; [set_solver|]. rewrite IH.
    assert (Hstep : included (f m tx) t <-> included m t \/ compute_txid tx = t); [|rewrite Hstep; set_solver].
    unfold f, included. set (a0 := tx_target _). change (compute_txid (with_accumulator_proofs tx None)) with (compute_txid tx). split.
    - intros (a & l & Hl & Ht). destruct (decide (a = a0)) as [->|Hne].
      + rewrite lookup_insert_eq in Hl. injection Hl as <-. apply elem_of_app in Ht as [Ht|Ht%list_elem_of_singleton]; [left|by right].
        destruct (m !! a0) as [l0|] eqn:H0; [by exists a0, l0|by apply elem_of_nil in Ht].
      + rewrite lookup_insert_ne in Hl by done. left. by exists a, l.
    - intros [(a & l & Hl & Ht)|Ht]; [destruct (decide (a = a0)) as [->|Hne]|].
      + eexists a0, _. rewrite lookup_insert_eq. split; [done|]. rewrite Hl. apply elem_of_app. by left.
      + exists a, l. by rewrite lookup_insert_ne.
      + eexists a0, _. rewrite lookup_insert_eq. split; [done|]. apply elem_of_app. right. by apply list_elem_of_singleton. }
  rewrite Hgen. split; [|by right]. intros [(a & l & Hl & _)|?]; [by rewrite lookup_empty in Hl|done].
Qed.

Lemma elem_of_included_txids m t : t ∈ concat (map snd (map_to_list m)) <-> included m t.
Proof.
  unfold included. rewrite list_elem_of_In, in_concat. split.
  - intros (l & ([a l'] & <- & Hin)%in_map_iff & Ht). rewrite <- list_elem_of_In in Hin. rewrite <- list_elem_of_In in Ht. exists a, l'.
    by apply elem_of_map_to_list in Hin.
  - intros (a & l & Hl & Ht). exists l. split; [|by apply list_elem_of_In]. apply in_map_iff. exists (a, l).
    split; [done|]. apply list_elem_of_In. by apply elem_of_map_to_list.
Qed.

Definition accounts_readable (a : S) : Prop := forall id, get_account_state a id <> Panic.

Lemma revalidate_run (s : MS) l :
  accounts_readable (state_accessor s) ->
  exists bad, revalidate s l = Ok bad /\ forall t, t ∈ bad <->
    exists e, (t, e) ∈ l /\ validate_transaction t (en_tx e) (state_accessor s) (account_state s) <> Ok tt.
Proof.
  intros Hacc. induction l as [|[t0 e0] l (bad & Hbad & Hel)]; cbn [revalidate].
  { exists []. split; [done|]. intros t. split; [by intros ?%elem_of_nil|by intros (e & ?%elem_of_nil & _)]. }
  rewrite Hbad. simpl. pose proof (validate_no_panic s t0 (en_tx e0) (account_state s) (Hacc _)) as Hnp.
  destruct (validate_transaction t0 (en_tx e0) (state_accessor s) (account_state s)) as [[]|err|] eqn:Hv; [| |done].
  - exists bad. split; [done|]. intros t. rewrite Hel. split; [intros (e & ? & ?); exists e; split; [by right|done]|].
    intros (e & [[= -> ->]|Hin]%elem_of_cons & Hn); [congruence|by exists e].
  - exists (t0 :: bad). split; [done|]. intros t. rewrite elem_of_cons, Hel. split.
    + intros [->|(e & ? & ?)]; [exists e0; split; [by left|congruence]|exists e; split; [by right|done]].
    + intros (e & [[= -> ->]|Hin]%elem_of_cons & Hn); [by left|right; by exists e].
Qed.

(** Whatever its outcome, a new block only removes transactions. *)
Lemma new_block_removes tip (s : MS) r s' : mp_handle_new_block tip s = (r, s') -> removes s s'.
Proof.
  unfold mp_handle_new_block. unfold mbind at 1, mreads_res.
  destruct (res_map_err _ _) as [o| |]; [|by intros [= _ <-]..]. unfold mbind at 1, mlift.
  destruct (ok_or o _) as [block| |]; [|by intros [= _ <-]..]. unfold mbind at 1, mmodify. cbn beta.
  set (ids := concat _). set (s1 := match ids with [] => s | _ => _ end). intros H.
  assert (H1 : removes s s1) by (unfold s1; destruct ids; [done|apply remove_transactions_removes]).
  etransitivity; [exact H1|]. unfold mbind in H. destruct (revalidate_all_transactions s1) as [bad| |]; injection H as _ <-; [|done..].
  destruct bad; [done|apply remove_transactions_removes].
Qed.

Lemma seqs_bounded_sub (s s' : MS) : removes s s' -> seqs_bounded s -> seqs_bounded s'.
Proof. intros Hr Hb t e n He. apply (Hb t e n), (rm_sub _ _ Hr), He. Qed.

Lemma wf_set_accessor {cc cb} a (s : MS) : mp_wf cc cb s -> mp_wf cc cb (set_state_accessor a s).
Proof. intros [[] Hl Hu]. split; [by split|done..]. Qed.

Context `{ML : !MempoolLaws} {cc cb : Z}.

(** A pending transaction that is fine for the state of the tip. *)
Definition current (a : S) (e : MempoolEntry) : Prop :=
  slot_in_bounds (txd_constraints (tx_data (en_tx e))) (cur_slot a) /\
  exists acct, get_account_state a (tx_target (en_tx e)) = Ok (Some acct).

Lemma remove_if_any ids cascade (s : MS) :
  mp_wf cc cb s -> seqs_bounded s ->
  let s' := match ids with [] => s | _ => snd (remove_transactions ids cascade s) end in
  removes s s' /\ db_frame (mp_storage s) (mp_storage s') /\
  forall t e, entries s' !! t = Some e <-> entries s !! t = Some e /\ (t ∉ ids) /\ (cascade = true -> ~ depends s ids e).
Proof.
  intros Hw Hb. destruct ids as [|t0 ids]; simpl.
  - split_and!; try done. intros t e. split; [|by intros [? _]]. intros He. split_and!; [done|by intros ?%elem_of_nil|].
    intros _ (t' & e' & n' & n & ?%elem_of_nil & _). done.
  - split; [apply remove_transactions_removes|by apply (remove_transactions_run _ _ s Hw (fun _ => Hb))].
Qed.

Lemma new_block_run tip block (s : MS) :
  mp_wf cc cb s -> seqs_bounded s -> accounts_readable (state_accessor s) ->
  mp_get_block_data (mp_storage s) (obc_blkid tip) = Ok (Some block) ->
  exists s', mp_handle_new_block tip s = (Ok tt, s') /\ db_frame (mp_storage s) (mp_storage s') /\
    (forall tx, tx ∈ block_txs (blk_body block) -> entries s' !! compute_txid tx = None) /\
    (forall t e, entries s' !! t = Some e -> current (state_accessor s) e).
Proof.
  intros Hw Hb Hacc Hblk. unfold mp_handle_new_block. unfold mbind at 1, mreads_res. rewrite Hblk. simpl.
  unfold mbind at 1, mlift. unfold mbind at 1, mmodify. set (ids := concat (map snd (map_to_list (extract_account_txs_from_block block)))).
  destruct (remove_if_any ids false s Hw Hb) as (Hr1 & Hf1 & Hel1). set (s1 := match ids with [] => s | _ => _ end) in *.
  pose proof (rm_wf _ _ Hr1 _ _ Hw) as Hw1. pose proof (seqs_bounded_sub _ _ Hr1 Hb) as Hb1.
  assert (Hacc1 : accounts_readable (state_accessor s1)) by (by rewrite (rm_accessor _ _ Hr1)).
  destruct (revalidate_run s1 (map_to_list (entries s1)) Hacc1) as (bad & Hbad & Hbel).
  unfold mbind, revalidate_all_transactions. rewrite Hbad.
  destruct (remove_if_any bad true s1 Hw1 Hb1) as (Hr2 & Hf2 & Hel2). eexists. split; [done|]. split; [by etransitivity|]. split.
  - intros tx Htx. destruct (entries _ !! compute_txid tx) as [e|] eqn:He; [|done]. apply Hel2 in He as [He _]. apply Hel1 in He as (_ & Hni & _).
    destruct Hni. apply elem_of_included_txids, elem_of_extract. by exists tx.
  - intros t e He. apply Hel2 in He as (He & Hni & _). rewrite <- (rm_accessor _ _ Hr1).
    assert (Hv : validate_transaction t (en_tx e) (state_accessor s1) (account_state s1) = Ok tt).
    { destruct (validate_transaction _ _ _ _) as [[]| |] eqn:Hv; [done|exfalso..]; apply Hni, Hbel; exists e;
        (split; [by apply elem_of_map_to_list|by rewrite Hv]). }
    apply (validate_ok s1 t (en_tx e) Hw1 Hb1) in Hv as (acct & [Hs Ha _]). split; [done|by exists acct].
Qed.

Lemma new_blocks_run blocks (s : MS) :
  mp_wf cc cb s -> seqs_bounded s -> accounts_readable (state_accessor s) ->
  (forall b, b ∈ blocks -> exists block, mp_get_block_data (mp_storage s) (obc_blkid b) = Ok (Some block)) ->
  exists s', miter mp_handle_new_block blocks s = (Ok tt, s') /\ removes s s' /\
    (forall b block tx, b ∈ blocks -> mp_get_block_data (mp_storage s) (obc_blkid b) = Ok (Some block) ->
       tx ∈ block_txs (blk_body block) -> entries s' !! compute_txid tx = None) /\
    (blocks <> [] -> forall t e, entries s' !! t = Some e -> current (state_accessor s) e).
Proof.
  revert s. induction blocks as [|b blocks IH]; intros s Hw Hb Hacc Hdata; cbn [miter].
  { exists s. split_and!; try done. by intros b block tx ?%elem_of_nil. }
  destruct (Hdata b) as [block Hblk]; [by left|].
  destruct (new_block_run b block s Hw Hb Hacc Hblk) as (s1 & Hrun & Hf & Hinc & Hcur). unfold mbind. rewrite Hrun.
  pose proof (new_block_removes b s _ _ Hrun) as Hr1. pose proof (rm_accessor _ _ Hr1) as Ha1.
  destruct (IH s1) as (s' & -> & Hr2 & Hinc2 & Hcur2).
  - by apply (rm_wf _ _ Hr1).
  - by apply (seqs_bounded_sub _ _ Hr1).
  - by rewrite Ha1.
  - intros b' Hb'. rewrite (proj1 Hf). apply Hdata. by right.
  - exists s'. split; [done|]. split; [by etransitivity|]. split.
    + intros b' block' tx [->|Hb']%elem_of_cons Hblk' Htx; [|apply (Hinc2 b' block'); [done|by rewrite (proj1 Hf)|done]].
      assert (block' = block) as -> by congruence. destruct (entries s' !! compute_txid tx) as [e|] eqn:He; [|done].
      apply (rm_sub _ _ Hr2) in He. by rewrite (Hinc tx Htx) in He.
    + intros _ t e He. by apply (Hcur t e), (rm_sub _ _ Hr2).
Qed.

Lemma walk_back_spec fuel (s : MS) current_slot walk blocks :
  0 <= current_slot -> obc_slot walk <= U64_MAX -> fuel = Z.to_nat (obc_slot walk - current_slot) ->
  walk_back fuel s current_slot walk = Ok blocks ->
  zlen blocks = Z.max 0 (obc_slot walk - current_slot) /\
  forall b, b ∈ blocks -> current_slot < obc_slot b /\ exists block, mp_get_block_data (mp_storage s) (obc_blkid b) = Ok (Some block).
Proof.
  intros H0. revert walk blocks. induction fuel as [|fuel IH]; intros walk blocks Hmax Hfuel H; cbn [walk_back] in H.
  { injection H as <-. split; [autorewrite with zlen; lia|by intros b ?%elem_of_nil]. }
  rewrite (proj2 (Z.ltb_lt _ _)) in H by lia. unfold get_parent_commitment in H.
  destruct (mp_get_block_data _ _) as [[block|]| |] eqn:Hblk; simpl in H; [|done..].
  assert (Hwrap : wrap_u64 (obc_slot walk - 1) = obc_slot walk - 1) by (unfold_widths; rewrite Z.mod_small; lia). rewrite Hwrap in H.
  destruct (walk_back fuel _ _ _) as [rest| |] eqn:Hrest; simpl in H; [|done..]. injection H as <-.
  apply IH in Hrest as [Hlen Hall]; simpl; [|lia..]. simpl in Hlen. split; [autorewrite with zlen; lia|].
  intros b [->|Hb]%elem_of_cons; [split; [lia|by exists block]|by apply Hall].
Qed.

(** C31: A chain update to a tip whose chain back to the current slot is stored
    succeeds.  All transactions of the new blocks leave the mempool, nothing is
    added, the state of the tip becomes the one to validate against, and after
    at least one new block every transaction that stays is within its slots and
    has an account.  The invariants are kept. *)
Theorem chain_update_spec new_tip (s : MS) new_state blocks :
  mp_wf cc cb s -> seqs_bounded s -> accounts_readable new_state -> 0 <= cur_slot (state_accessor s) -> obc_slot new_tip <= U64_MAX ->
  get_state_for_tip (mp_storage s) new_tip = Ok (Some new_state) ->
  walk_back (Z.to_nat (obc_slot new_tip - cur_slot (state_accessor s))) s (cur_slot (state_accessor s)) new_tip = Ok blocks ->
  exists s', handle_chain_update new_tip s = (Ok tt, s') /\ mp_wf cc cb s' /\ (idx_ok s -> idx_ok s') /\
    zlen blocks = Z.max 0 (obc_slot new_tip - cur_slot (state_accessor s)) /\ state_accessor s' = new_state /\
    (forall t e, entries s' !! t = Some e -> entries s !! t = Some e) /\
    (forall b block tx, b ∈ blocks -> mp_get_block_data (mp_storage s) (obc_blkid b) = Ok (Some block) ->
       tx ∈ block_txs (blk_body block) -> entries s' !! compute_txid tx = None) /\
    (blocks <> [] -> forall t e, entries s' !! t = Some e -> current new_state e).
Proof.
  intros Hw Hb Hacc H0 Hmax Hst Hwalk. set (s0 := set_state_accessor new_state s).
  assert (Hw0 : mp_wf cc cb s0) by (by apply wf_set_accessor). assert (Hb0 : seqs_bounded s0) by exact Hb.
  destruct (walk_back_spec _ _ _ _ _ H0 Hmax eq_refl Hwalk) as [Hlen Hall].
  assert (Hwalk0 : forall fuel walk, walk_back fuel s0 (cur_slot (state_accessor s)) walk = walk_back fuel s (cur_slot (state_accessor s)) walk).
  { induction fuel as [|fuel IH]; intros walk; simpl; [done|]. destruct (_ <? _); [|done]. change (get_parent_commitment s0 walk) with (get_parent_commitment s walk).
    destruct (get_parent_commitment s walk); simpl; [|done..]. by rewrite IH. }
  destruct (new_blocks_run (rev blocks) s0 Hw0 Hb0 Hacc) as (s' & Hrun & Hr & Hinc & Hcur).
  { intros b Hin. apply Hall. rewrite <- (rev_involutive blocks). by apply list_elem_of_In, in_rev; rewrite rev_involutive; apply list_elem_of_In. }
  exists s'. split_and!; try done.
  - unfold handle_chain_update, mbind at 1, mreads. unfold mbind at 1, mreads_res. rewrite Hst. simpl. unfold mbind at 1, mlift.
    unfold mbind at 1, mmodify. fold s0. unfold mbind. by rewrite Hwalk0, Hwalk.
  - by apply (rm_wf _ _ Hr).
  - intros Hi. apply (rm_idx _ _ Hr _ _ Hw0). destruct Hi. by split.
  - by rewrite (rm_accessor _ _ Hr).
  - apply (rm_sub _ _ Hr).
  - intros b block tx Hin. apply Hinc. apply list_elem_of_In, in_rev. rewrite rev_involutive. by apply list_elem_of_In.
  - intros Hne. apply Hcur. intros Hrev. apply Hne. by rewrite <- (rev_involutive blocks), Hrev.
Qed.

End props.

Section runs.
Context `{X : Ext} {S : Type} `{SA : !IStateAccessorMut S} {C : Type} `{DB : !MempoolStorage (S := S) C}.

Abbreviation MS := (MempoolServiceState (S := S) (C := C)).

(** ** Starting the service *)

Lemma insert_by_timestamp_perm x l : insert_by_timestamp x l ≡ₚ x :: l.
Proof.
  induction l as [|y l IH]; simpl; [done|]. case_match; [done|]. rewrite IH. apply Permutation_swap.
Qed.

Lemma sort_by_timestamp_perm l : sort_by_timestamp l ≡ₚ l.
Proof.
  unfold sort_by_timestamp. rewrite <- (app_nil_r l) at 2. generalize (@nil MempoolTxData) as acc.
  induction l as [|x l IH]; intros acc; simpl; [done|]. rewrite IH, insert_by_timestamp_perm. symmetry. apply Permutation_middle.
Qed.

Definition no_younger (x y : MempoolTxData) : Prop := mtd_timestamp_micros x <= mtd_timestamp_micros y.

Lemma insert_by_timestamp_sorted x l : StronglySorted no_younger l -> StronglySorted no_younger (insert_by_timestamp x l).
Proof.
  induction l as [|y l IH]; intros Hs; simpl; [repeat constructor|]. pose proof (StronglySorted_inv Hs) as [Hs' Ha]. rewrite Forall_forall in Ha.
  destruct (_ <? _) eqn:Hlt; zbool; constructor; try done.
  - apply Forall_forall. intros z [->|Hz]%elem_of_cons; unfold no_younger in *; [lia|]. specialize (Ha z Hz). lia.
  - by apply IH.
  - apply Forall_forall. intros z Hz. rewrite insert_by_timestamp_perm in Hz. apply elem_of_cons in Hz as [->|Hz]; [done|by apply Ha].
Qed.

Lemma sort_by_timestamp_sorted l : StronglySorted no_younger (sort_by_timestamp l).
Proof.
  unfold sort_by_timestamp. assert (H : StronglySorted no_younger []) by constructor. revert H. generalize (@nil MempoolTxData).
  induction l as [|x l IH]; intros acc Hs; simpl; [done|]. by apply IH, insert_by_timestamp_sorted.
Qed.

Lemma set_stats_core {cc cb} f (s : MS) : counts_only f -> mp_core cc cb s -> mp_core cc cb (set_stats f s).
Proof. intros Hf Hc. destruct (Hf (stats s)) as [Hf1 Hf2]. destruct Hc. split; simpl; rewrite ?Hf1, ?Hf2; done. Qed.

Lemma set_stats_wf {cc cb} f (s : MS) : counts_only f -> mp_wf cc cb s -> mp_wf cc cb (set_stats f s).
Proof. intros Hf [Hc Hl Hu]. split; [by apply set_stats_core|done..]. Qed.

Lemma set_stats_idx f (s : MS) : idx_ok s -> idx_ok (set_stats f s).
Proof. intros []. by split. Qed.

(** What a stored transaction becomes. *)
Definition loaded_entry (d : MempoolTxData) (tx : OLTransaction) : MempoolEntry :=
  {| en_tx := tx; en_ordering_key := ordering_key_for_transaction tx (mtd_timestamp_micros d); en_size_bytes := zlen (mtd_tx_bytes d) |}.

(** A deletion whose failure is ignored. *)
Lemma delete_ignored t (s : MS) : exists b : bool,
  mcatch (F := OLMempoolError) (on_storage (mp_del_tx t)) (fun _ => mret false) s = (Ok b, set_storage (snd (mp_del_tx t (mp_storage s))) s).
Proof. unfold mcatch, on_storage. destruct (mp_del_tx t (mp_storage s)) as [[b|] c]; simpl; eauto. Qed.

(** A stored transaction is deleted and counted, or added. *)
Lemma load_tx_cases d (s s' : MS) :
  load_tx d s = (Ok tt, s') ->
  (exists f, counts_only f /\ s' = set_stats f (set_storage (snd (mp_del_tx (mtd_txid d) (mp_storage s))) s)) \/
  (exists tx, tx_from_ssz_bytes (mtd_tx_bytes d) = Some tx /\ s' = add_tx_to_in_memory_state (mtd_txid d) (loaded_entry d tx) s).
Proof.
  intros H. unfold load_tx in H. destruct (delete_ignored (mtd_txid d) s) as [b Hdel].
  destruct (tx_from_ssz_bytes (mtd_tx_bytes d)) as [tx|].
  - unfold mbind at 1, mreads in H. destruct (validate_transaction _ _ _ _) as [[]|err|]; [injection H as <-; right; by exists tx| |done]. left.
    rewrite (mbind_ok _ _ _ _ _ Hdel) in H. destruct (reject_reason_from_error err) as [reason|]; injection H as <-.
    + by exists (update_stats_on_reject reason).
    + by exists id.
  - left. exists id. split; [done|]. rewrite (mbind_ok _ _ _ _ _ Hdel) in H. by injection H as <-.
Qed.

Definition bytes_of (l : list MempoolTxData) : Z := zsum (map (fun d => zlen (mtd_tx_bytes d)) l).

Lemma bytes_of_cons d l : bytes_of (d :: l) = zlen (mtd_tx_bytes d) + bytes_of l.
Proof. done. Qed.

Lemma bytes_of_nonneg l : 0 <= bytes_of l.
Proof. unfold bytes_of. apply zsum_nonneg, Forall_forall. intros x (d & -> & _)%list_elem_of_fmap. apply zlen_nonneg. Qed.

(** Stored transactions that may be loaded: each under the id of its bytes. *)
Record loadable (l : list MempoolTxData) : Prop := {
  ld_nodup : NoDup (mtd_txid <$> l);
  ld_id d tx : d ∈ l -> tx_from_ssz_bytes (mtd_tx_bytes d) = Some tx -> compute_txid tx = mtd_txid d;
}.

Lemma load_core {cc cb} l (s s' : MS) :
  loadable l -> (forall d, d ∈ l -> entries s !! mtd_txid d = None) ->
  Z.of_nat (size (entries s)) + zlen l <= cc -> map_sum en_size_bytes (entries s) + bytes_of l <= cb ->
  mp_core cc cb s -> miter load_tx l s = (Ok tt, s') -> mp_core cc cb s'.
Proof.
  revert s. induction l as [|d l IH]; intros s [Hnd Hid] Hnew Hn Hb Hc H; cbn [miter] in H; [by injection H as <-|].
  apply mbind_returns in H as ([] & s1 & H1 & H). cbn [fmap list_fmap] in Hnd. apply NoDup_cons in Hnd as [Hd Hnd].
  rewrite zlen_cons in Hn. rewrite bytes_of_cons in Hb.
  pose proof (zlen_nonneg (mtd_tx_bytes d)) as H0. pose proof (zlen_nonneg l) as Hl0. pose proof (bytes_of_nonneg l) as Hb0.
  assert (Hload : loadable l) by (split; [done|intros d' tx Hd'; apply Hid; by right]).
  apply load_tx_cases in H1 as [(f & Hf & ->)|(tx & Htx & ->)]; apply (IH _ Hload) in H; try done.
  - intros d' Hd'. apply Hnew. by right.
  - simpl. lia.
  - simpl. lia.
  - by apply set_stats_core, core_set_storage.
  - intros d' Hd'. simpl. rewrite lookup_insert_ne; [apply Hnew; by right|]. intros Heq. apply Hd. rewrite Heq. by apply list_elem_of_fmap_2.
  - simpl. rewrite map_size_insert_None by (apply Hnew; by left). lia.
  - simpl. rewrite map_sum_insert_new by (apply Hnew; by left). simpl. lia.
  - apply add_core; try done; simpl; try lia; [apply Hnew; by left|apply Hid; [by left|done]|by exists (mtd_timestamp_micros d)].
Qed.

Lemma new_wf {cc cb} config c tip (s : MS) :
  limits_ok cc cb config -> new_with_context config c tip = Ok s -> mp_wf cc cb s /\ idx_ok s /\ entries s = ∅ /\ mp_storage s = c /\ mp_config s = config.
Proof.
  intros Hl H. destruct (lo_count _ _ _ Hl) as [H1 H2], (lo_bytes _ _ _ Hl) as [H3 H4].
  assert (0 <= cc /\ 0 <= cb) as [H5 H6] by lia. unfold new_with_context in H. destruct (get_state_for_tip c tip) as [[a|]| |]; simpl in H; [|done..]. injection H as <-.
  split_and!; [split; [split| |]|split|..]; simpl; try done; try (by intros t e; rewrite lookup_empty); try (by rewrite map_sum_empty);
    try (by intros t1 e1 t2 e2; rewrite lookup_empty).
  - intros a0 t. unfold txids_of. simpl. rewrite lookup_empty. simpl. setoid_rewrite lookup_empty. set_solver.
  - constructor.
  - intros k t. setoid_rewrite lookup_empty. split; [by intros ?%elem_of_nil|naive_solver].
Qed.

Lemma launch_returns config c tip (s : MS) :
  launch config c tip = Ok s ->
  exists s0 l, new_with_context config c tip = Ok s0 /\ mp_get_all_txs (mp_storage s0) = Ok l /\
    miter load_tx (sort_by_timestamp l) s0 = (Ok tt, s).
Proof.
  unfold launch. destruct (new_with_context config c tip) as [s0| |]; [|done..]. simpl.
  destruct (load_from_db s0) as [[[]| |] s1] eqn:H; [|done..]. simpl. intros [= <-].
  unfold load_from_db in H. apply mbind_returns in H as (l & s2 & Hl & H). unfold mreads_res in Hl. injection Hl as Hl <-. by exists s0, l.
Qed.

(** ** Runs over a database that may fail *)

(** Whatever its outcome, a chain update only removes transactions and may
    change the state to validate against. *)
Lemma chain_update_removes tip (s : MS) r s' :
  handle_chain_update tip s = (r, s') -> exists a, removes (set_state_accessor a s) s'.
Proof.
  intros H. assert (Hsame : s = set_state_accessor (state_accessor s) s) by (by destruct s).
  unfold handle_chain_update in H. unfold mbind at 1, mreads in H. unfold mbind at 1, mreads_res in H.
  destruct (res_map_err _ _) as [o| |]; [|injection H as _ <-; exists (state_accessor s); by rewrite <- Hsame..]. unfold mbind at 1, mlift in H.
  destruct (ok_or o _) as [new_state| |]; [|injection H as _ <-; exists (state_accessor s); by rewrite <- Hsame..].
  unfold mbind at 1, mmodify in H. exists new_state. clear Hsame. unfold mbind in H.
  destruct (walk_back _ _ _ _) as [blocks| |]; [|by injection H as _ <-..].
  revert H. generalize (set_state_accessor new_state s). induction (rev blocks) as [|b l IH]; intros s0 H; cbn [miter] in H; [by injection H as _ <-|].
  unfold mbind in H. destruct (mp_handle_new_block b s0) as [[[]| |] s1] eqn:H1; [|injection H as _ <-; by eapply new_block_removes..].
  etransitivity; [by eapply new_block_removes|by apply IH].
Qed.

(** The state in which the new transaction is stored: the one it replaces has been
    asked to leave. *)
Definition after_replacing (s : MS) (tx : OLTransaction) : MS :=
  match find_account_tx_with_same_seqno s tx with
  | Some old => snd (remove_transactions [old] false s)
  | None => s
  end.

Definition tx_record (now : Z) (tx : OLTransaction) : MempoolTxData :=
  {| mtd_txid := compute_txid tx; mtd_tx_bytes := tx_as_ssz_bytes tx; mtd_timestamp_micros := now |}.

Lemma after_replacing_removes s tx : removes s (after_replacing s tx).
Proof. unfold after_replacing. destruct (find_account_tx_with_same_seqno s tx); [apply remove_transactions_removes|done]. Qed.

(** Submitting changes the counters only, or there is room for the transaction and
    it is stored and added if the database stores it. *)
Lemma submit_cases {cc cb} now tx (s : MS) r s' :
  mp_core cc cb s -> handle_submit_transaction now tx s = (r, s') ->
  (exists f, counts_only f /\ s' = set_stats f s) \/
  (entries s !! compute_txid tx = None /\ fits s tx /\
   let '(p, c) := mp_put_tx (tx_record now tx) (mp_storage (after_replacing s tx)) in
   s' = match p with
        | Some _ => add_tx_to_in_memory_state (compute_txid tx) (new_entry now tx) (set_storage c (after_replacing s tx))
        | None => set_storage c (after_replacing s tx)
        end).
Proof.
  intros Hc H. assert (Hrej : forall reason (e : OLMempoolError) r0, reject (A := OLTxId) reason e s = (r0, s') -> exists f, counts_only f /\ s' = set_stats f s).
  { intros reason e r0 Hr. destruct (reject_run (A := OLTxId) reason e s) as (f & Hf & Hrun). exists f. split; [done|]. congruence. }
  assert (Hid : s = set_stats id s) by (by destruct s).
  unfold handle_submit_transaction, add_transaction in H. unfold mbind at 1, mreads, contains in H.
  destruct (entries s !! compute_txid tx) as [e|] eqn:Hnew; [rewrite bool_decide_true in H by (by eexists)|rewrite bool_decide_false in H by (by intros [])].
  { left. exists (update_stats_on_reject RejDuplicate). split; [done|]. by injection H. }
  unfold mbind at 1 in H. destruct (_ <? _) eqn:Hsz; zbool; [left; by eapply Hrej|].
  unfold mbind at 1 in H. pose proof (capacity_ok s tx Hc Hsz) as Hcap.
  destruct (check_capacity_limits s _); [|left; by eapply Hrej|done]. unfold mbind at 1 in H.
  destruct (validate_transaction _ _ _ _) as [[]| |]; [|left; by eapply Hrej|left; exists id; split; [done|by injection H as _ <-]].
  right. split; [done|]. split; [done|]. unfold mbind at 1, mmodify in H. unfold mbind at 1 in H. fold (after_replacing s tx) in H.
  unfold mbind at 1, on_storage in H. fold (tx_record now tx) in H.
  destruct (mp_put_tx (tx_record now tx) (mp_storage (after_replacing s tx))) as [[u|] c]; injection H as _ <-; done.
Qed.

Lemma submit_core {cc cb} now tx (s : MS) r s' :
  mp_core cc cb s -> handle_submit_transaction now tx s = (r, s') -> mp_core cc cb s'.
Proof.
  intros Hc H. pose proof (after_replacing_removes s tx) as Hr.
  destruct (submit_cases now tx s r s' Hc H) as [(f & Hf & ->)|(Hnew & [Hf1 Hf2 Hf3] & Hput)]; [by apply set_stats_core|].
  destruct (mp_put_tx _ _) as [[u|] c]; subst s'; [|by apply core_set_storage, (rm_core _ _ Hr)].
  assert (Hincl : entries (after_replacing s tx) ⊆ entries s) by (apply map_subseteq_spec; intros t e; apply (rm_sub _ _ Hr)).
  pose proof (map_subseteq_size _ _ Hincl) as Hsize. pose proof (map_sum_subseteq en_size_bytes _ _ (mc_size s Hc) Hincl) as Hsum.
  destruct (mc_limits s Hc) as [Hl1 Hl2 _ _ _]. pose proof (zlen_nonneg (tx_as_ssz_bytes tx)).
  apply add_core; try done; simpl; try lia; [by apply core_set_storage, (rm_core _ _ Hr)| |by exists now].
  destruct (entries (after_replacing s tx) !! compute_txid tx) eqn:He; [|done]. apply (rm_sub _ _ Hr) in He. congruence.
Qed.

Lemma process_input_core {cc cb} input (s : MS) r s' :
  mp_core cc cb s -> mp_process_input input s = (r, s') -> mp_core cc cb s'.
Proof.
  intros Hc H. destruct input as [now tx|limit|txs|tip]; cbn [mp_process_input] in H.
  - destruct (handle_submit_transaction now tx s) as [r0 s0] eqn:Hs. assert (s' = s0) as -> by (by destruct r0; injection H).
    by eapply submit_core.
  - by injection H as _ <-.
  - unfold mbind, mmodify in H. injection H as _ <-. by apply (rm_core _ _ (remove_transactions_removes _ true s)).
  - unfold mbind in H. destruct (handle_chain_update tip s) as [r0 s0] eqn:Hs. assert (s' = s0) as -> by (by destruct r0; injection H).
    apply chain_update_removes in Hs as [a Hr]. apply (rm_core _ _ Hr). destruct Hc. by split.
Qed.

(** The states a service passes through after its start, whatever the commands, the
    chain updates, their outcomes, and what others do to the storage. *)
Inductive mp_run (s0 : MS) : MS -> Prop :=
| run_start : mp_run s0 s0
| run_input s input r s' : mp_run s0 s -> mp_process_input input s = (r, s') -> mp_run s0 s'
| run_storage s c : mp_run s0 s -> mp_run s0 (set_storage c s).

(** Over a database of which nothing is assumed, and which may fail at any time: if
    what it holds at the start are transactions under their own ids, at most [cc]
    and of at most [cb] bytes, then in every state of the service the entries, the
    accounts and the counters agree and neither bound is exceeded. *)
Theorem faulty_run_core cc cb config c tip l (s0 s : MS) :
  limits_ok cc cb config -> mp_get_all_txs c = Ok l -> loadable l -> zlen l <= cc -> bytes_of l <= cb ->
  launch config c tip = Ok s0 -> mp_run s0 s -> mp_core cc cb s.
Proof.
  intros Hlim Hall Hload Hn Hb Hl Hrun. assert (Hcore : mp_core cc cb s0).
  { apply launch_returns in Hl as (s1 & l' & Hnew & Hall' & Hload'). pose proof (zlen_nonneg l).
    pose proof (bytes_of_nonneg l) as Hb0.
    apply (new_wf (cc := cc) (cb := cb)) in Hnew as (Hw & _ & He & Hst & _); [|done].
    rewrite Hst in Hall'. assert (l' = l) as -> by congruence. pose proof (sort_by_timestamp_perm l) as Hp.
    refine (load_core (sort_by_timestamp l) s1 s0 _ _ _ _ Hw Hload').
    - destruct Hload as [Hnd Hid]. split; [by rewrite Hp|]. intros d tx. rewrite Hp. apply Hid.
    - intros d _. by rewrite He.
    - rewrite He, map_size_empty. unfold zlen in *. rewrite Hp. lia.
    - rewrite He, map_sum_empty. replace (bytes_of (sort_by_timestamp l)) with (bytes_of l); [lia|].
      unfold bytes_of. apply zsum_perm. by rewrite Hp. }
  induction Hrun as [|s input r s' _ IH Hstep|s c' _ IH]; [done|by eapply process_input_core|by apply core_set_storage].
Qed.

(** ** Runs and restarts over a database that does not fail *)

(** The database of transactions as a map by id, and the codec of transactions. *)
Class MempoolContents := {
  stored : C -> gmap OLTxId MempoolTxData;
  stored_all c l : mp_get_all_txs c = Ok l -> l ≡ₚ (map_to_list (stored c)).*2;
  stored_put d c : stored (snd (mp_put_tx d c)) = <[mtd_txid d := d]> (stored c);
  stored_del t c : stored (snd (mp_del_tx t c)) = delete t (stored c);
  tx_ssz_roundtrip tx : tx_from_ssz_bytes (tx_as_ssz_bytes tx) = Some tx;
}.

Context `{ML : !MempoolLaws} `{MC : !MempoolContents} {cc cb : Z}.

(** How a pending transaction is stored. *)
Definition entry_record (e : MempoolEntry) : MempoolTxData := tx_record (ts_of e) (en_tx e).

(** The invariant, and the agreement of the database with the entries. *)
Record mp_inv (s : MS) : Prop := {
  mi_wf : mp_wf cc cb s;
  mi_stored : stored (mp_storage s) = entry_record <$> entries s;
  mi_size t e : entries s !! t = Some e -> en_size_bytes e = zlen (tx_as_ssz_bytes (en_tx e));
}.

Lemma removes_inv s s' : removes s s' -> mp_inv s -> mp_inv s'.
Proof.
  intros Hr [Hw Hst Hsz]. split; [by apply (rm_wf _ _ Hr)| |intros t e He; by apply (Hsz t), (rm_sub _ _ Hr)]. clear Hw Hsz.
  induction Hr as [s|s1 s2 s3 (t & e & r & He & Hs) _ IH]; [done|]. apply IH.
  unfold remove_single_tx, mbind, on_storage in Hs. destruct (law_del t (mp_storage s1)) as (b & c & Hd & _). rewrite Hd in Hs. injection Hs as _ <-.
  simpl. rewrite fmap_delete, <- Hst, <- stored_del. by rewrite Hd.
Qed.

Lemma submit_inv now tx (s : MS) r s' :
  mp_inv s -> handle_submit_transaction now tx s = (r, s') ->
  mp_inv s' /\ (idx_ok s -> submitted_in_order s now tx -> idx_ok s').
Proof.
  intros Hi H. pose proof Hi as [Hw Hst Hsz].
  destruct (submit_cases now tx s r s' Hw H) as [(f & Hf & ->)|(Hnew & Hfits & Hput)].
  { split; [split; [by apply set_stats_wf|done..]|]. intros Hidx _. by apply set_stats_idx. }
  destruct (removes_inv _ _ (after_replacing_removes s tx) Hi) as [_ Hst1 Hsz1].
  destruct (law_put (tx_record now tx) (mp_storage (after_replacing s tx))) as (c & Hp & _). rewrite Hp in Hput. subst s'.
  destruct (accept_state s now tx Hw Hnew Hfits c) as (Hw' & _ & Hidx). fold (after_replacing s tx) in Hw', Hidx.
  split; [|done]. split; [done| |].
  - simpl. rewrite fmap_insert, <- Hst1. unfold entry_record. rewrite ts_new_entry.
    pose proof (stored_put (tx_record now tx) (mp_storage (after_replacing s tx))) as Hc. by rewrite Hp in Hc.
  - intros t e [[-> ->]|[_ He]]%add_lookup; [done|by apply (Hsz1 t)].
Qed.

(** The clock advances, and the updates of an account arrive in the order of their
    sequence numbers: one replaces a pending one only if it is the last. *)
Definition input_in_order (s : MS) (input : MempoolInput) : Prop :=
  match input with SubmitTransaction now tx => submitted_in_order s now tx | _ => True end.

Lemma process_input_inv input (s : MS) r s' :
  mp_inv s -> mp_process_input input s = (r, s') -> mp_inv s' /\ (idx_ok s -> input_in_order s input -> idx_ok s').
Proof.
  intros Hi H. destruct input as [now tx|limit|txs|tip]; cbn [mp_process_input] in H.
  - destruct (handle_submit_transaction now tx s) as [r0 s0] eqn:Hs. assert (s' = s0) as -> by (by destruct r0; injection H).
    by eapply submit_inv.
  - by injection H as _ <-.
  - unfold mbind, mmodify in H. injection H as _ <-.
    pose proof (remove_transactions_removes (map fst (List.filter (fun p => should_remove_tx p.2) txs)) true s) as Hr.
    split; [by apply (removes_inv _ _ Hr)|]. intros Hidx _. by apply (rm_idx _ _ Hr cc cb), Hidx; apply Hi.
  - unfold mbind in H. destruct (handle_chain_update tip s) as [r0 s0] eqn:Hs. assert (s' = s0) as -> by (by destruct r0; injection H).
    apply chain_update_removes in Hs as [a Hr].
    assert (Hi0 : mp_inv (set_state_accessor a s)) by (destruct Hi as [Hw ? ?]; split; [by apply wf_set_accessor|done..]).
    split; [by apply (removes_inv _ _ Hr)|]. intros Hidx _. apply (rm_idx _ _ Hr cc cb); [apply Hi0|]. destruct Hidx. by split.
Qed.

(** *** Reloading *)

Lemma entry_reloads (e : MempoolEntry) ts :
  en_ordering_key e = ordering_key_for_transaction (en_tx e) ts -> en_size_bytes e = zlen (tx_as_ssz_bytes (en_tx e)) ->
  loaded_entry (entry_record e) (en_tx e) = e.
Proof.
  destruct e as [tx key size]. simpl. intros -> ->. unfold loaded_entry, entry_record, tx_record, ts_of. simpl. f_equal.
  unfold ordering_key_for_transaction. by destruct (tx_payload tx).
Qed.

Definition tagged (es : list MempoolEntry) : list (OLTxId * MempoolEntry) := (fun e => (compute_txid (en_tx e), e)) <$> es.
Definition pool_of (es : list MempoolEntry) : gmap OLTxId MempoolEntry := list_to_map (tagged es).

Lemma pool_of_none es t : t ∉ (fun e => compute_txid (en_tx e)) <$> es -> pool_of es !! t = None.
Proof. intros Ht. apply not_elem_of_list_to_map_1. unfold tagged. by rewrite <- list_fmap_compose. Qed.

(** Loading the transactions [es] of the pool of [s0] on top of those of [s]. *)
Section reload.
Context (s0 : MS) (H0 : mp_inv s0).

(** What is still to load, and what has been. *)
Record loading (es : list MempoolEntry) (s : MS) : Prop := {
  lg_wf : mp_wf cc cb s;
  lg_sub : entries s ⊆ entries s0;
  lg_nodup : NoDup ((fun e => compute_txid (en_tx e)) <$> es);
  lg_of e : e ∈ es -> entries s0 !! compute_txid (en_tx e) = Some e;
  lg_new e : e ∈ es -> entries s !! compute_txid (en_tx e) = None;
  lg_stored : stored (mp_storage s) = entry_record <$> (entries s ∪ pool_of es);
}.

Lemma skip_loading e es f (s : MS) :
  counts_only f -> loading (e :: es) s ->
  loading es (set_stats f (set_storage (snd (mp_del_tx (compute_txid (en_tx e)) (mp_storage s))) s)).
Proof.
  intros Hf [Hw Hsub Hnd Hof Hnew Hst]. cbn [fmap list_fmap] in Hnd. apply NoDup_cons in Hnd as [Hn Hnd].
  split; try done; [by apply set_stats_wf, wf_set_storage|intros e' He'; apply Hof; by right|intros e' He'; apply Hnew; by right|].
  simpl. rewrite stored_del, Hst, <- fmap_delete. f_equal. unfold pool_of, tagged. cbn [fmap list_fmap list_to_map foldr uncurry fst snd].
  rewrite <- insert_union_r by (apply Hnew; by left). apply delete_insert_id. apply lookup_union_None. split; [apply Hnew; by left|by apply pool_of_none].
Qed.

Lemma add_loading e es (s : MS) :
  loading (e :: es) s ->
  let s' := add_tx_to_in_memory_state (compute_txid (en_tx e)) e s in
  loading es s' /\
  (idx_ok s0 -> idx_ok s -> (forall t e2, entries s !! t = Some e2 -> ts_of e2 <= ts_of e) -> idx_ok s').
Proof.
  intros [Hw Hsub Hnd Hof Hnew Hst] s'. cbn [fmap list_fmap] in Hnd. apply NoDup_cons in Hnd as [Hn Hnd].
  pose proof (Hof e ltac:(by left)) as He. pose proof (Hnew e ltac:(by left)) as Hne. pose proof (mi_wf s0 H0) as Hw0.
  destruct (mc_key s0 Hw0 _ _ He) as [ts Hts].
  assert (Hsub' : entries s' ⊆ entries s0) by (by apply insert_subseteq_l).
  pose proof (map_subseteq_size _ _ Hsub') as Hsize. pose proof (map_sum_subseteq en_size_bytes _ _ (mc_size s0 Hw0) Hsub') as Hsum.
  simpl in Hsize, Hsum. rewrite map_size_insert_None in Hsize by done. rewrite map_sum_insert_new in Hsum by done.
  pose proof (mc_count_limit s0 Hw0) as Hcl. pose proof (mc_bytes_limit s0 Hw0) as Hbl. pose proof (mc_size s0 Hw0 _ _ He) as Hpos.
  assert (Hin0 : forall t e2, entries s !! t = Some e2 -> entries s0 !! t = Some e2) by (intros t e2 Ht; by apply (lookup_weaken _ _ _ _ Ht)).
  assert (Hother : forall t e2, entries s !! t = Some e2 -> t <> compute_txid (en_tx e)) by (intros t e2 ? ->; congruence).
  split; [split; try done|].
  - apply add_wf; try done; try lia; [apply Hw|by exists ts|]. intros t2 e2 n H2 Ha Hn1 Hn2. apply (Hother t2 e2 H2).
    by apply (mw_unique s0 Hw0 t2 (compute_txid (en_tx e)) e2 e n (Hin0 _ _ H2) He).
  - intros e' He'. apply Hof. by right.
  - intros e' He'. simpl. rewrite lookup_insert_ne; [apply Hnew; by right|]. intros Heq. apply Hn. rewrite Heq. by apply (list_elem_of_fmap_2 (fun e => compute_txid (en_tx e))).
  - simpl. rewrite Hst. f_equal. unfold pool_of, tagged. cbn [fmap list_fmap list_to_map foldr uncurry fst snd].
    rewrite <- insert_union_r by done. apply insert_union_l.
  - intros Hi0 Hi Hold. apply (add_idx (cc := cc) (cb := cb) _ _ _ ts); try done; [apply Hw|]. intros t2 e2 H2.
    assert (ts_of e2 < ts_of e) as Hlt.
    { pose proof (Hold t2 e2 H2). destruct (decide (ts_of e2 = ts_of e)) as [Heq|]; [|lia].
      exfalso. apply (Hother t2 e2 H2). by apply (io_ts s0 Hi0 t2 e2 _ e (Hin0 _ _ H2) He). }
    split; [done|]. intros Ha n n2 Hn1 Hn2. destruct (Z.lt_total n2 n) as [|[->|Hgt]]; [done| |].
    + exfalso. apply (Hother t2 e2 H2). by apply (mw_unique s0 Hw0 t2 _ e2 e n (Hin0 _ _ H2) He).
    + pose proof (io_seq s0 Hi0 _ e t2 e2 n n2 He (Hin0 _ _ H2) (eq_sym Ha) Hn1 Hn2 Hgt). lia.
Qed.

Lemma load_inv es (s s' : MS) :
  loading es s -> miter load_tx (entry_record <$> es) s = (Ok tt, s') ->
  loading [] s' /\
  (idx_ok s0 -> idx_ok s -> StronglySorted (fun e1 e2 => ts_of e1 <= ts_of e2) es ->
   (forall t e2 e, entries s !! t = Some e2 -> e ∈ es -> ts_of e2 <= ts_of e) -> idx_ok s').
Proof.
  revert s. induction es as [|e es IH]; intros s Hl H; cbn [fmap list_fmap miter] in H; [by injection H as <-|].
  apply mbind_returns in H as ([] & s1 & H1 & H).
  apply load_tx_cases in H1 as [(f & Hf & ->)|(tx & Htx & ->)].
  - apply (IH _ (skip_loading e es f s Hf Hl)) in H as [Hl' Hidx]. split; [done|]. intros Hi0 Hi Hs Hold.
    apply StronglySorted_inv in Hs as [Hs _]. apply Hidx; [done|by apply set_stats_idx, idx_set_storage|done|].
    intros t e2 e' He2 He'. apply (Hold t e2); [done|by right].
  - unfold entry_record in Htx. simpl in Htx. rewrite tx_ssz_roundtrip in Htx. injection Htx as <-.
    assert (He : entries s0 !! compute_txid (en_tx e) = Some e) by (apply (lg_of _ _ Hl); by left).
    destruct (mc_key s0 (mi_wf s0 H0) _ _ He) as [ts Hts]. rewrite (entry_reloads e ts Hts (mi_size s0 H0 _ _ He)) in H.
    destruct (add_loading e es s Hl) as [Hl1 Hidx1]. apply (IH _ Hl1) in H as [Hl' Hidx]. split; [done|]. intros Hi0 Hi Hs Hold.
    apply StronglySorted_inv in Hs as [Hs Ha]. rewrite Forall_forall in Ha.
    apply Hidx; [done|apply Hidx1; [done|done|]; intros t e2 He2; apply (Hold t e2); [done|by left]|done|].
    intros t e2 e' [[-> ->]|[_ He2]]%add_lookup He'; [by apply Ha|]. apply (Hold t e2); [done|by right].
Qed.

(** The stored transactions in the order they are loaded. *)
Lemma stored_in_order l :
  l ≡ₚ (map_to_list (entry_record <$> entries s0)).*2 ->
  exists es, sort_by_timestamp l = entry_record <$> es /\ tagged es ≡ₚ map_to_list (entries s0) /\
    StronglySorted (fun e1 e2 => ts_of e1 <= ts_of e2) es.
Proof.
  intros Hl. rewrite <- (sort_by_timestamp_perm l) in Hl. pose proof (sort_by_timestamp_sorted l) as Hs.
  rewrite map_to_list_fmap, <- list_fmap_compose in Hl.
  assert (Hl' : sort_by_timestamp l ≡ₚ map entry_record (map_to_list (entries s0)).*2).
  { rewrite Hl. change (map entry_record) with (fmap (M := list) entry_record). by rewrite <- list_fmap_compose. }
  apply Permutation_map_inv in Hl' as (es & Heq & Hp). exists es. split; [done|]. split.
  - unfold tagged. rewrite <- Hp, <- list_fmap_compose. rewrite <- (list_fmap_id (map_to_list (entries s0))) at 2.
    apply reflexive_eq, list_fmap_ext. intros i [t e] Hte. simpl. f_equal.
    apply list_elem_of_lookup_2, elem_of_map_to_list in Hte. by apply (mc_id s0 (mi_wf s0 H0)).
  - rewrite Heq in Hs. clear -Hs. induction es as [|e es IH]; simpl in Hs; [constructor|]. apply StronglySorted_inv in Hs as [Hs Ha].
    constructor; [by apply IH|]. exact (proj1 (Forall_map _ _ _) Ha).
Qed.

(** A restart on what the database holds keeps the invariant, only drops
    transactions, and keeps the order of the index. *)
Lemma restart_inv config c tip (s : MS) :
  limits_ok cc cb config -> stored c = stored (mp_storage s0) -> launch config c tip = Ok s ->
  mp_inv s /\ entries s ⊆ entries s0 /\ (idx_ok s0 -> idx_ok s).
Proof.
  intros Hlim Hc H. apply launch_returns in H as (s1 & l & Hnew & Hall & Hload).
  apply (new_wf config c tip s1 Hlim) in Hnew as (Hw1 & Hi1 & He1 & Hst1 & _). apply stored_all in Hall. rewrite Hst1, Hc, (mi_stored s0 H0) in Hall.
  destruct (stored_in_order l Hall) as (es & Hes & Hp & Hs). rewrite Hes in Hload.
  assert (Hof : forall e, e ∈ es -> entries s0 !! compute_txid (en_tx e) = Some e).
  { intros e He. apply elem_of_map_to_list. rewrite <- Hp. unfold tagged. by apply (list_elem_of_fmap_2 (fun e => (compute_txid (en_tx e), e))). }
  assert (Hnd : NoDup ((fun e => compute_txid (en_tx e)) <$> es)).
  { assert (Heq : (fun e => compute_txid (en_tx e)) <$> es = (tagged es).*1) by (unfold tagged; by rewrite <- list_fmap_compose).
    rewrite Heq, Hp. apply NoDup_fst_map_to_list. }
  destruct (load_inv es s1 s) as [[Hw Hsub _ _ _ Hst] Hidx]; [|done|].
  - split; try done; [rewrite He1; apply map_empty_subseteq|intros e _; by rewrite He1|].
    rewrite He1, (left_id_L ∅ (∪)), Hst1, Hc, (mi_stored s0 H0). f_equal. unfold pool_of.
    rewrite <- (list_to_map_to_list (entries s0)). symmetry. apply list_to_map_proper; [|done]. unfold tagged. by rewrite <- list_fmap_compose.
  - split_and!; [split; [done| |]|done|].
    + rewrite Hst. f_equal. unfold pool_of, tagged. simpl. by rewrite (right_id_L ∅ (∪)).
    + intros t e He. apply (mi_size s0 H0 t). by eapply lookup_weaken.
    + intros Hi0. apply Hidx; try done. intros t e2 e. by rewrite He1, lookup_empty.
Qed.
End reload.

Lemma first_inv config c tip (s : MS) :
  limits_ok cc cb config -> stored c = ∅ -> launch config c tip = Ok s -> mp_inv s /\ idx_ok s.
Proof.
  intros Hlim Hc H. apply launch_returns in H as (s1 & l & Hnew & Hall & Hload).
  apply (new_wf config c tip s1 Hlim) in Hnew as (Hw1 & Hi1 & He1 & Hst1 & _). apply stored_all in Hall. rewrite Hst1, Hc, map_to_list_empty in Hall.
  apply Permutation_nil_r in Hall. subst l. injection Hload as <-. split; [|done]. split; [done| |].
  - by rewrite Hst1, Hc, He1, fmap_empty.
  - intros t e. by rewrite He1, lookup_empty.
Qed.

(** The states of a mempool over the life of its database: the service is started on
    an empty database, processes inputs that satisfy [P], others change blocks and
    states in the storage, and the service is stopped and started again, each time
    with a configuration within [cc] transactions and [cb] bytes. *)
Inductive mp_life (P : MS -> MempoolInput -> Prop) : MS -> Prop :=
| life_first config c tip s : limits_ok cc cb config -> stored c = ∅ -> launch config c tip = Ok s -> mp_life P s
| life_input s input r s' : mp_life P s -> P s input -> mp_process_input input s = (r, s') -> mp_life P s'
| life_storage s c : mp_life P s -> stored c = stored (mp_storage s) -> mp_life P (set_storage c s)
| life_restart s config c tip s' :
    mp_life P s -> limits_ok cc cb config -> stored c = stored (mp_storage s) -> launch config c tip = Ok s' -> mp_life P s'.

Lemma life_inv P s : mp_life P s -> mp_inv s /\ ((forall s1 i, P s1 i -> input_in_order s1 i) -> idx_ok s).
Proof.
  induction 1 as [config c tip s Hlim Hc Hl|s input r s' _ [Hi Hidx] HP Hstep|s c _ [[Hw Hst Hsz] Hidx] Hc|s config c tip s' _ [Hi Hidx] Hlim Hc Hl].
  - destruct (first_inv _ _ _ _ Hlim Hc Hl). by split.
  - destruct (process_input_inv _ _ _ _ Hi Hstep) as [Hi' Hidx']. split; [done|]. intros Ho. apply Hidx'; [by apply Hidx|by apply Ho].
  - split; [split; [by apply wf_set_storage|simpl; congruence|done]|]. intros Ho. by apply idx_set_storage, Hidx.
  - destruct (restart_inv s Hi _ _ _ _ Hlim Hc Hl) as (Hi' & _ & Hidx'). split; [done|]. intros Ho. by apply Hidx', Hidx.
Qed.

(** C28: Over the life of a database of transactions that does not fail, through
    starts, restarts between inputs with changed configurations, commands, chain
    updates and their outcomes: the entries, the per-account bookkeeping, the
    counters and the database agree, with each transaction stored under its id with
    its bytes and timestamp; no account has two pending updates with one sequence
    number; and there are never more transactions or bytes than the largest limits
    configured over that life allow, so that an unchanged configuration is respected
    although loading does not check it. *)
Theorem mempool_life_invariant P (s : MS) :
  mp_life P s ->
  mp_wf cc cb s /\ stored (mp_storage s) = entry_record <$> entries s /\
  Z.of_nat (size (entries s)) <= cc /\ map_sum (fun e => zlen (tx_as_ssz_bytes (en_tx e))) (entries s) <= cb.
Proof.
  intros [[Hw Hst Hsz] _]%life_inv. split_and!; [done|done|apply (mc_count_limit s Hw)|].
  rewrite map_sum_fmap, <- (map_fmap_ext en_size_bytes), <- map_sum_fmap; [apply (mc_bytes_limit s Hw)|apply Hsz].
Qed.

(** C30: Over such a life in which the clock advances from one submission to the next
    and the updates of an account are submitted in the order of their sequence
    numbers (so that only the last pending one is replaced), the command that asks
    for transactions returns the pending ones by age, each exactly once, up to the
    limit, with the updates of an account in the order of their sequence numbers,
    and changes nothing. *)
Theorem get_transactions_by_age limit (s : MS) :
  mp_life input_in_order s ->
  exists l, by_age s l /\
    mp_process_input (GetTransactions limit) s = (Ok (Transactions (take limit (map (fun p => (p.1, en_tx p.2)) l))), s).
Proof.
  intros [Hi Hidx]%life_inv. destruct (idx_hands_out limit s (mi_wf s Hi) (Hidx ltac:(done))) as (l & Hl & Hget). exists l. split; [done|].
  simpl. unfold mreads. by rewrite Hget.
Qed.

(** ** The ordering index gone wrong *)

Lemma index_nodup (s : MS) : idx_ok s -> NoDup (ordering_index s).*2.
Proof.
  intros Hi. assert (Hfun : forall k k' t, (k, t) ∈ ordering_index s -> (k', t) ∈ ordering_index s -> k = k').
  { intros k k' t (e & He & <-)%(io_elem s Hi) (e' & He' & <-)%(io_elem s Hi). congruence. }
  pose proof (io_sorted s Hi) as Hs. induction Hs as [|[k t] l _ IH Ha]; [constructor|]. cbn [fmap list_fmap snd]. constructor.
  - intros ([k' t'] & Heq & Hin)%list_elem_of_fmap. simpl in Heq. subst t'. rewrite Forall_forall in Ha.
    pose proof (Ha _ Hin) as Hold. unfold older in Hold. simpl in Hold. rewrite (Hfun k k' t) in Hold; [lia|by left|by right].
  - apply IH. intros k1 k2 t' H1 H2. apply (Hfun k1 k2 t'); by right.
Qed.

Lemma gam_insert_hides now txid l k t :
  StronglySorted older l -> (k, t) ∈ l -> timestamp_micros k = now -> t <> txid -> NoDup l.*2 ->
  forall k', (k', t) ∉ index_insert (Gam now) txid l.
Proof.
  induction l as [|[k1 t1] l IH]; intros Hs Hin Hts Hne Hnd k'; [by apply elem_of_nil in Hin|].
  apply StronglySorted_inv in Hs as [Hs Ha]. rewrite Forall_forall in Ha. cbn [fmap list_fmap snd] in Hnd. apply NoDup_cons in Hnd as [Hn1 Hnd].
  assert (Hcmp : key_cmp (Gam now) k1 = (now ?= timestamp_micros k1)) by done. cbn [index_insert]. rewrite Hcmp.
  apply elem_of_cons in Hin as [[= <- <-]|Hin].
  - rewrite Hts, Z.compare_refl. intros [[= _ ?]|Hin]%elem_of_cons; [done|]. apply Hn1, list_elem_of_fmap. by exists (k', t).
  - pose proof (Ha _ Hin) as Hold. unfold older in Hold. simpl in Hold.
    rewrite (proj2 (Z.compare_gt_iff _ _)) by lia. intros [[= -> ->]|Hin']%elem_of_cons; [|by apply (IH Hs Hin Hts Hne Hnd k')].
    apply Hn1, list_elem_of_fmap. by exists (k, t1).
Qed.

(** The ordering key is not collision-free: a message submitted in the same
    microsecond as a pending transaction takes its place in the ordering index.
    Both are pending, but the older one is never handed out. *)
Theorem same_microsecond_hides tx (s : MS) t1 e1 acct :
  mp_wf cc cb s -> seqs_bounded s -> idx_ok s ->
  entries s !! t1 = Some e1 -> entries s !! compute_txid tx = None -> tx_seq_no tx = None ->
  fits s tx -> admissible s tx acct ->
  exists s', handle_submit_transaction (ts_of e1) tx s = (Ok (compute_txid tx), s') /\
    contains s' t1 = true /\ contains s' (compute_txid tx) = true /\
    forall limit, t1 ∉ (handle_get_transactions limit s').*1.
Proof.
  intros Hw Hb Hi H1 Hnew Hgam Hf Had. destruct (accept_run s (ts_of e1) tx Hw Hnew Hf acct Hb Had) as (c & Hrun).
  destruct (accept_state s (ts_of e1) tx Hw Hnew Hf c) as (_ & Hel & _).
  assert (Hfind : find_account_tx_with_same_seqno s tx = None) by (unfold find_account_tx_with_same_seqno; by rewrite Hgam).
  rewrite Hfind in Hrun, Hel. set (s' := add_tx_to_in_memory_state _ _ _) in *. exists s'. split; [exact Hrun|].
  unfold contains. split; [apply bool_decide_eq_true; exists e1; apply Hel; right; split; [done|]; intros (_ & n & Hn & _); congruence|].
  split; [apply bool_decide_eq_true; eexists; apply Hel; by left|].
  assert (Hne : t1 <> compute_txid tx) by congruence.
  assert (Hhid : forall k, (k, t1) ∉ ordering_index s').
  { intros k. unfold s', new_entry, ordering_key_for_transaction. cbn [add_tx_to_in_memory_state ordering_index set_storage en_ordering_key].
    unfold tx_seq_no in Hgam. destruct (tx_payload tx); [|done]. apply (gam_insert_hides _ _ _ (en_ordering_key e1) t1); try done; [apply Hi|apply (io_elem s Hi); by exists e1|].
    by apply index_nodup. }
  intros limit ([t2 tx2] & Heq & Hin)%list_elem_of_fmap. simpl in Heq. subst t2.
  unfold handle_get_transactions in Hin. apply list_elem_of_omap in Hin as ([k t] & Hin & Hr).
  apply fmap_Some in Hr as (e & _ & [= -> _]). apply elem_of_take in Hin as (i & Hin & _). by apply (Hhid k), (list_elem_of_lookup_2 _ i).
Qed.

(** An update that is not the next one of its account is deleted when it is loaded
    before its predecessors. *)
Lemma load_out_of_turn d tx (s s' : MS) acct sn n :
  tx_from_ssz_bytes (mtd_tx_bytes d) = Some tx -> tx_seq_no tx = Some n ->
  account_state s !! tx_target tx = None -> get_account_state (state_accessor s) (tx_target tx) = Ok (Some acct) ->
  as_snark_account acct = Ok sn -> sas_seqno sn <> n ->
  load_tx d s = (Ok tt, s') -> exists f c, s' = set_stats f (set_storage c s) /\ c = snd (mp_del_tx (mtd_txid d) (mp_storage s)).
Proof.
  intros Htx Hn Hnone Hacct Hsn Hne H. unfold load_tx in H. rewrite Htx in H. unfold mbind at 1, mreads in H.
  assert (Hv : forall u, validate_transaction (mtd_txid d) tx (state_accessor s) (account_state s) <> Ok u).
  { intros u. unfold validate_transaction. destruct (check_tx_constraints _ _) as [[]| |]; simpl; [|done..].
    unfold mp_get_account_state at 1. rewrite Hacct, Hn, Hnone. simpl. unfold mp_get_account_state. rewrite Hacct. simpl. rewrite Hsn. simpl.
    unfold verify_seq_no. by rewrite (proj2 (Z.eqb_neq _ _)) by congruence. }
  destruct (validate_transaction _ _ _ _) as [u|err|]; [by destruct (Hv u)| |done].
  destruct (delete_ignored (mtd_txid d) s) as [b Hdel]. rewrite (mbind_ok _ _ _ _ _ Hdel) in H.
  destruct (reject_reason_from_error err) as [reason|]; injection H as <-;
    [by exists (update_stats_on_reject reason), (snd (mp_del_tx (mtd_txid d) (mp_storage s)))|by exists id, (snd (mp_del_tx (mtd_txid d) (mp_storage s)))].
Qed.

(** A restart loses pending updates after a replacement.  If the update [n] of an
    account has been replaced while the update [n + 1] was pending, the younger
    replacement is loaded last; the account is at [n], so that [n + 1] is taken for
    one with a gap, and is deleted. *)
Theorem restart_drops_successor config c tip (s : MS) s0 t1 t2 later replaced n acct sn :
  new_with_context config c tip = Ok s0 -> stored c = {[ compute_txid later := tx_record t1 later; compute_txid replaced := tx_record t2 replaced ]} ->
  t1 < t2 -> compute_txid later <> compute_txid replaced ->
  tx_target later = tx_target replaced -> tx_seq_no replaced = Some n -> tx_seq_no later = Some (n + 1) ->
  get_account_state (state_accessor s0) (tx_target later) = Ok (Some acct) -> as_snark_account acct = Ok sn -> sas_seqno sn = n ->
  launch config c tip = Ok s ->
  entries s !! compute_txid later = None /\ stored (mp_storage s) !! compute_txid later = None.
Proof.
  intros Hnew Hc Ht Hne Htgt Hn Hn1 Hacct Hsn Hseq H. apply launch_returns in H as (s1 & l & Hnew' & Hall & Hload).
  assert (s1 = s0) as -> by congruence.
  assert (Hs0 : mp_storage s0 = c /\ entries s0 = ∅ /\ account_state s0 = ∅).
  { unfold new_with_context in Hnew. destruct (get_state_for_tip c tip) as [[a|]| |]; simpl in Hnew; [|done..]. by injection Hnew as <-. }
  destruct Hs0 as (Hst0 & He0 & Ha0). apply stored_all in Hall. rewrite Hst0, Hc in Hall.
  assert (Hsort : sort_by_timestamp l = [tx_record t1 later; tx_record t2 replaced]).
  { rewrite map_to_list_insert, map_to_list_singleton in Hall by (by rewrite lookup_singleton_ne).
    symmetry in Hall. apply Permutation_length_2_inv in Hall as [->| ->]; unfold sort_by_timestamp; simpl;
      [rewrite (proj2 (Z.ltb_ge _ _)) by lia|rewrite (proj2 (Z.ltb_lt _ _)) by lia]; done. }
  rewrite Hsort in Hload. cbn [miter] in Hload. apply mbind_returns in Hload as ([] & s1 & H1 & Hload).
  apply mbind_returns in Hload as ([] & s2 & H2 & Hload). injection Hload as <-.
  destruct (load_out_of_turn (tx_record t1 later) later s0 s1 acct sn (n + 1) (tx_ssz_roundtrip later) Hn1) as (f & c1 & -> & Hc1); try done; [by rewrite Ha0|lia|].
  simpl in Hc1. rewrite Hst0 in Hc1.
  assert (Hgone : stored c1 !! compute_txid later = None) by (rewrite Hc1, stored_del; apply lookup_delete_eq).
  apply load_tx_cases in H2 as [(f2 & _ & ->)|(tx & Htx & ->)]; simpl.
  - rewrite He0, stored_del. split; [done|]. by rewrite lookup_delete_ne.
  - split; [|done]. by rewrite He0, lookup_insert_ne.
Qed.

(** The ordering of the keys is not transitive.  When the update [n] of an
    account is replaced while a later one, [m], and then a transaction of another
    account are pending, the three keys form a cycle; the key of the other
    transaction can then no longer be removed from the ordering index. *)
Theorem replaced_update_strands_key a b n m k t0 t1 tb now x0 x1 xb x0' :
  a <> b -> n < m -> t1 < tb < now ->
  let replaced := Snark a n now in let later := Snark a m t1 in let other := Snark b k tb in
  key_cmp replaced later = Lt /\ key_cmp later other = Lt /\ key_cmp other replaced = Lt /\
  (other, xb) ∈ index_remove other
    (index_insert replaced x0' (index_remove (Snark a n t0) [(Snark a n t0, x0); (later, x1); (other, xb)])).
Proof.
  intros Hab Hnm Ht replaced later other. unfold replaced, later, other.
  assert (E1 : key_cmp (Snark a n now) (Snark a m t1) = Lt) by (simpl; rewrite Z.eqb_refl; by apply Z.compare_lt_iff).
  assert (E2 : key_cmp (Snark a m t1) (Snark b k tb) = Lt).
  { simpl. rewrite (proj2 (Z.eqb_neq _ _)) by done. apply Z.compare_lt_iff. lia. }
  assert (E3 : key_cmp (Snark b k tb) (Snark a n now) = Lt).
  { simpl. rewrite (proj2 (Z.eqb_neq _ _)) by congruence. apply Z.compare_lt_iff. lia. }
  assert (E4 : key_cmp (Snark a n t0) (Snark a n t0) = Eq) by (simpl; rewrite Z.eqb_refl; apply Z.compare_refl).
  split_and!; [done..|]. cbn [index_remove]. rewrite E4. cbn [index_insert]. rewrite E1. cbn [index_remove]. rewrite E3. set_solver.
Qed.
End runs.
