(* ===== verification/Tracker.v ===== *)
(** * The tree of unfinalized blocks
    ([crates/consensus-logic/src/unfinalized_tracker/mod.rs])

    The tracker keeps every block on top of the finalized one, with its parent
    and its children, and the set of chain tips.  Hash maps and hash sets are
    finite maps and sets; they are iterated in the order of [elements], and
    nothing proved of the tracker depends on that order.  Walks along parents
    and down to descendants carry fuel, the size of the table.  A walk that has
    used it up counts as a panic; on the trackers that arise it never does.  The
    second part states the tree a tracker keeps and that attaching preserves it. *)

From S2P Require Import Prelude Identifiers.

Inductive ChainTipError :=
| AttachMissingParent (blkid parent : OLBlockId)
| MissingBlock (blkid : OLBlockId)
| ChildBeforeParent (slot parent_slot : Slot).

Record BlockEntry := {
  be_slot : Slot;
  be_parent : OLBlockId;
  be_children : gset OLBlockId;
}.

Record UnfinalizedBlockTracker := {
  finalized_epoch : EpochCommitment;
  pending_table : gmap OLBlockId BlockEntry;
  unfinalized_tips : gset OLBlockId;
}.

Definition new_empty (fin : EpochCommitment) : UnfinalizedBlockTracker := {|
  finalized_epoch := fin;
  pending_table := {[ ec_last_blkid fin :=
    {| be_slot := ec_last_slot fin; be_parent := buf32_zero; be_children := ∅ |} ]};
  unfinalized_tips := {[ ec_last_blkid fin ]};
|}.

Definition finalized_tip (t : UnfinalizedBlockTracker) : OLBlockId := ec_last_blkid (finalized_epoch t).

Definition is_seen_block (t : UnfinalizedBlockTracker) (id : OLBlockId) : bool :=
  (finalized_tip t =? id) || bool_decide (is_Some (pending_table t !! id)).

Definition get_slot (t : UnfinalizedBlockTracker) (id : OLBlockId) : option Slot :=
  be_slot <$> pending_table t !! id.

Definition get_parent (t : UnfinalizedBlockTracker) (id : OLBlockId) : option OLBlockId :=
  if id =? finalized_tip t then None else be_parent <$> pending_table t !! id.

Definition chain_tips_iter (t : UnfinalizedBlockTracker) : list OLBlockId := elements (unfinalized_tips t).

(** Indexing the table with a tip that is not in it panics. *)
Fixpoint tip_blocks {E} (t : UnfinalizedBlockTracker) (ids : list OLBlockId) : res E (list OLBlockCommitment) :=
  match ids with
  | [] => Ok []
  | id :: ids' =>
      let! slot := expect (get_slot t id) in
      let! blocks := tip_blocks t ids' in
      Ok ({| obc_slot := slot; obc_blkid := id |} :: blocks)
  end.

Definition chain_tip_blocks_iter {E} (t : UnfinalizedBlockTracker) : res E (list OLBlockCommitment) :=
  tip_blocks t (chain_tips_iter t).

(** [iter::successors(Some(id), |n| tracker.get_parent(n)).take(n)]. *)
Fixpoint successors (n : nat) (t : UnfinalizedBlockTracker) (id : OLBlockId) : list OLBlockId :=
  match n with
  | O => []
  | S n' => id :: match get_parent t id with Some p => successors n' t p | None => [] end
  end.

(** The recursion along parents; [None]: it goes on beyond the fuel. *)
Fixpoint sanity_check_parent_seq (fuel : nat) (t : UnfinalizedBlockTracker) (blkid : OLBlockId) : option bool :=
  match fuel with
  | O => None
  | S fuel' =>
      if blkid =? finalized_tip t then Some true
      else match pending_table t !! blkid with
           | Some ent => sanity_check_parent_seq fuel' t (be_parent ent)
           | None => Some false
           end
  end.

Definition attach_block (slot : Slot) (blkid parent_blkid : OLBlockId)
    : M ChainTipError UnfinalizedBlockTracker bool := fun t =>
  match pending_table t !! blkid with
  | Some _ => (Ok false, t)
  | None =>
      match pending_table t !! parent_blkid with
      | Some parent_ent =>
          if slot <=? be_slot parent_ent then (Err (ChildBeforeParent slot (be_slot parent_ent)), t)
          else
            let parent_ent := {| be_slot := be_slot parent_ent; be_parent := be_parent parent_ent;
                                 be_children := {[ blkid ]} ∪ be_children parent_ent |} in
            let ent := {| be_slot := slot; be_parent := parent_blkid; be_children := ∅ |} in
            let did_replace := bool_decide (parent_blkid ∈ unfinalized_tips t) in
            (Ok (negb did_replace),
             {| finalized_epoch := finalized_epoch t;
                pending_table := <[ blkid := ent ]> (<[ parent_blkid := parent_ent ]> (pending_table t));
                unfinalized_tips := {[ blkid ]} ∪ (unfinalized_tips t ∖ {[ parent_blkid ]}) |})
      | None => (Err (AttachMissingParent blkid parent_blkid), t)
      end
  end.

Record FinalizeReport := {
  fr_old_epoch : EpochCommitment;
  fr_finalized : list OLBlockId;
  fr_rejected : list OLBlockId;
}.

Definition prev_tip (r : FinalizeReport) : OLBlockId := ec_last_blkid (fr_old_epoch r).
Definition new_tip (r : FinalizeReport) : OLBlockId :=
  match fr_finalized r with [] => prev_tip r | b :: _ => b end.

(** The walk from the new finalized block to the old one. *)
Fixpoint walk_finalized (fuel : nat) (t : UnfinalizedBlockTracker) (at_ : OLBlockId) : res ChainTipError (list OLBlockId) :=
  match fuel with
  | O => Panic
  | S fuel' =>
      if at_ =? finalized_tip t then Ok []
      else
        let! ent := expect (pending_table t !! at_) in
        let! rest := walk_finalized fuel' t (be_parent ent) in
        Ok (at_ :: rest)
  end.

(** The children of the finalized blocks, and of the old tip, that are not
    finalized themselves. *)
Fixpoint walk_evict (fuel : nat) (t : UnfinalizedBlockTracker) (finalized : list OLBlockId) (at_ : OLBlockId)
    : res ChainTipError (list OLBlockId) :=
  match fuel with
  | O => Panic
  | S fuel' =>
      let! ent := expect (pending_table t !! at_) in
      let evict := filter (fun c => c ∉ finalized) (elements (be_children ent)) in
      if at_ =? finalized_tip t then Ok evict
      else
        let! rest := walk_evict fuel' t finalized (be_parent ent) in
        Ok (evict ++ rest)
  end.

(** The stack has its top first. *)
Fixpoint visit_descendants (fuel : nat) (t : UnfinalizedBlockTracker) (to_visit : list OLBlockId) (descendants : gset OLBlockId)
    : res ChainTipError (gset OLBlockId) :=
  match to_visit with
  | [] => Ok descendants
  | curr_blk :: to_visit' =>
      match fuel with
      | O => Panic
      | S fuel' =>
          match pending_table t !! curr_blk with
          | Some entry =>
              visit_descendants fuel' t (rev (elements (be_children entry)) ++ to_visit')
                (descendants ∪ be_children entry)
          | None => visit_descendants fuel' t to_visit' descendants
          end
      end
  end.

Definition get_all_descendants (t : UnfinalizedBlockTracker) (blkid : OLBlockId) : res ChainTipError (gset OLBlockId) :=
  visit_descendants (size (pending_table t)) t [blkid] ∅.

Fixpoint extend_descendants (t : UnfinalizedBlockTracker) (to_evict : list OLBlockId) : res ChainTipError (list OLBlockId) :=
  match to_evict with
  | [] => Ok []
  | b :: to_evict' =>
      let! descendants := get_all_descendants t b in
      let! rest := extend_descendants t to_evict' in
      Ok (elements descendants ++ rest)
  end.

Definition remove (t : UnfinalizedBlockTracker) (blkid : OLBlockId) : UnfinalizedBlockTracker :=
  let parent := get_parent t blkid in
  let table := delete blkid (pending_table t) in
  let table := match parent with
               | Some p => alter (fun e => {| be_slot := be_slot e; be_parent := be_parent e;
                                              be_children := be_children e ∖ {[ blkid ]} |}) p table
               | None => table
               end in
  {| finalized_epoch := finalized_epoch t; pending_table := table;
     unfinalized_tips := unfinalized_tips t ∖ {[ blkid ]} |}.

Definition set_finalized_epoch (epoch : EpochCommitment) (t : UnfinalizedBlockTracker) : UnfinalizedBlockTracker :=
  {| finalized_epoch := epoch; pending_table := pending_table t; unfinalized_tips := unfinalized_tips t |}.

Definition update_finalized_epoch (epoch : EpochCommitment) : M ChainTipError UnfinalizedBlockTracker FinalizeReport := fun t =>
  let blkid := ec_last_blkid epoch in
  let fuel := S (size (pending_table t)) in
  match sanity_check_parent_seq fuel t blkid with
  | None => (Panic, t)
  | Some false => (Err (MissingBlock blkid), t)
  | Some true =>
      if blkid =? finalized_tip t then
        (Ok {| fr_old_epoch := finalized_epoch t; fr_finalized := [blkid]; fr_rejected := [] |}, t)
      else
        match
          let! finalized := walk_finalized fuel t blkid in
          let! ent := expect (pending_table t !! blkid) in
          let! to_evict := walk_evict fuel t finalized (be_parent ent) in
          let! descendants := extend_descendants t to_evict in
          Ok (finalized, to_evict ++ descendants)
        with
        | Ok (finalized, evicted) =>
            let t1 := fold_left remove evicted t in
            let t2 := fold_left remove (filter (fun b => b <> blkid) finalized) t1 in
            match finalized with
            | [] => (Panic, set_finalized_epoch epoch t2)
            | _ => (Ok {| fr_old_epoch := finalized_epoch t; fr_finalized := finalized; fr_rejected := evicted |},
                    set_finalized_epoch epoch t2)
            end
        | Err e => (Err e, t)
        | Panic => (Panic, t)
        end
  end.

(** * The tree the tracker keeps

    A block is live if its parents lead to the finalized tip.  The tracker holds
    the tree of the live blocks with correct children and tips, under attaching
    blocks and finalizing epochs; finalizing reports exactly the path to the new
    tip and the blocks that no longer descend from it. *)

(** ** Paths to the finalized tip *)

Section paths.
Context (t : UnfinalizedBlockTracker).

(** The block and its ancestors, down to the finalized tip. *)
Inductive anc_path : OLBlockId -> list OLBlockId -> Prop :=
| anc_tip : anc_path (finalized_tip t) [finalized_tip t]
| anc_step id e l :
    id <> finalized_tip t -> pending_table t !! id = Some e -> anc_path (be_parent e) l -> anc_path id (id :: l).

Definition live (id : OLBlockId) : Prop := exists l, anc_path id l.

(** [descends b id]: the live block [id] is [b] or comes after it. *)
Definition descends (b id : OLBlockId) : Prop := exists l, anc_path id l /\ b ∈ l.

Lemma anc_path_fun id l1 l2 : anc_path id l1 -> anc_path id l2 -> l1 = l2.
Proof.
  intros H. revert l2. induction H as [|id e l Hne He _ IH]; intros l2 H2; inversion H2; subst; try done.
  simplify_eq. f_equal. by apply IH.
Qed.

Lemma anc_path_head id l : anc_path id l -> exists l', l = id :: l'.
Proof. destruct 1; by eexists. Qed.

Lemma anc_path_suffix id l x : anc_path id l -> x ∈ l -> exists l1 l2, l = l1 ++ l2 /\ anc_path x l2.
Proof.
  induction 1 as [|id e l Hne He Hp IH]; intros Hx.
  - apply list_elem_of_singleton in Hx as ->. exists [], [finalized_tip t]. split; [done|constructor].
  - apply elem_of_cons in Hx as [->|Hx].
    + exists [], (id :: l). split; [done|by econstructor].
    + destruct (IH Hx) as (l1 & l2 & -> & H2). by exists (id :: l1), l2.
Qed.

Lemma anc_path_drop id l y rest : anc_path id (l ++ y :: rest) -> anc_path y (y :: rest).
Proof.
  revert id. induction l as [|x l IH]; intros id Hp; simpl in Hp.
  - destruct (anc_path_head _ _ Hp) as [? ?]. by simplify_eq.
  - inversion Hp as [|? e l' Hne He Hp']; subst; [by destruct l|by eapply IH].
Qed.

Lemma anc_path_NoDup id l : anc_path id l -> NoDup l.
Proof.
  induction 1 as [|id e l Hne He Hp IH]; [apply NoDup_singleton|].
  apply NoDup_cons. split; [|done]. intros Hin.
  destruct (anc_path_suffix _ _ _ Hp Hin) as (l1 & l2 & -> & H2).
  assert (Heq : l2 = id :: l1 ++ l2) by (eapply anc_path_fun; [done|by econstructor]).
  apply (f_equal length) in Heq. simpl in Heq. rewrite length_app in Heq. lia.
Qed.

Lemma anc_path_tip id l : anc_path id l -> finalized_tip t ∈ l.
Proof. induction 1; [by apply list_elem_of_singleton|by right]. Qed.

Lemma live_tip : live (finalized_tip t).
Proof. eexists. constructor. Qed.

Lemma live_inv id : live id -> id <> finalized_tip t -> exists e, pending_table t !! id = Some e /\ live (be_parent e).
Proof. intros [l Hl] Hne. inversion Hl; subst; [done|]. eexists. split; [done|]. by eexists. Qed.

Lemma live_step id e : pending_table t !! id = Some e -> live (be_parent e) -> live id.
Proof.
  intros He [l Hl]. destruct (decide (id = finalized_tip t)) as [->|Hne]; [apply live_tip|].
  eexists. by econstructor.
Qed.

Lemma live_elem id l x : anc_path id l -> x ∈ l -> live x.
Proof. intros Hl Hx. destruct (anc_path_suffix _ _ _ Hl Hx) as (_ & l2 & _ & H). by exists l2. Qed.

Lemma descends_live b id : descends b id -> live id.
Proof. intros (l & Hl & _). by exists l. Qed.
Lemma descends_refl id : live id -> descends id id.
Proof. intros [l Hl]. exists l. split; [done|]. destruct (anc_path_head _ _ Hl) as [l' ->]. by left. Qed.
Lemma descends_tip id : live id -> descends (finalized_tip t) id.
Proof. intros [l Hl]. exists l. split; [done|]. by eapply anc_path_tip. Qed.

Lemma descends_of_tip b : descends b (finalized_tip t) -> b = finalized_tip t.
Proof. intros (l & Hl & Hb). inversion Hl; subst; [by apply list_elem_of_singleton in Hb|done]. Qed.

Lemma descends_step b id e :
  pending_table t !! id = Some e -> id <> finalized_tip t -> live id ->
  descends b id <-> b = id \/ descends b (be_parent e).
Proof.
  intros He Hne [l Hl]. inversion Hl as [|? e' l' _ He' Hl']; subst; [done|]. simplify_eq. split.
  - intros (l & H & Hb). rewrite (anc_path_fun _ _ _ H Hl) in Hb. apply elem_of_cons in Hb as [->|Hb]; [by left|].
    right. by exists l'.
  - intros [->|(l & H & Hb)]; [by apply descends_refl; eexists|].
    exists (id :: l'). split; [done|]. rewrite (anc_path_fun _ _ _ H Hl') in Hb. by right.
Qed.

Lemma descends_trans a b c : descends a b -> descends b c -> descends a c.
Proof.
  intros (l & Hl & Ha) (l2 & Hl2 & Hb). exists l2. split; [done|].
  destruct (anc_path_suffix _ _ _ Hl2 Hb) as (l1 & l3 & -> & H3).
  rewrite (anc_path_fun _ _ _ H3 Hl). apply elem_of_app. by right.
Qed.

Lemma descends_antisym a b : descends a b -> descends b a -> a = b.
Proof.
  intros (lb & Hlb & Ha) (la & Hla & Hb).
  destruct (anc_path_suffix _ _ _ Hlb Ha) as (l1 & l2 & -> & H2). rewrite (anc_path_fun _ _ _ H2 Hla) in *.
  destruct (anc_path_suffix _ _ _ Hla Hb) as (l3 & l4 & -> & H4).
  pose proof (anc_path_fun _ _ _ H4 Hlb) as Heq. apply (f_equal length) in Heq. rewrite !length_app in Heq.
  destruct l1, l3; simpl in *; try lia.
  destruct (anc_path_head _ _ Hla) as [? E1], (anc_path_head _ _ Hlb) as [? E2]. congruence.
Qed.

(** The ancestors of a block form a chain. *)
Lemma descends_total a b c : descends a c -> descends b c -> descends a b \/ descends b a.
Proof.
  intros (l & Hl & Ha) (l' & Hl' & Hb). rewrite (anc_path_fun _ _ _ Hl' Hl) in Hb. clear l' Hl'.
  induction Hl as [|id e l Hne He Hp IH].
  - apply list_elem_of_singleton in Ha as ->, Hb as ->. left. apply descends_refl, live_tip.
  - assert (Hall : anc_path id (id :: l)) by (by econstructor).
    apply elem_of_cons in Ha as [->|Ha]; [right; by exists (id :: l)|].
    apply elem_of_cons in Hb as [->|Hb]; [left; exists (id :: l); split; [done|by right]|]. by apply IH.
Qed.

(** A block is not among the ancestors of its parent. *)
Lemma child_not_ancestor id e :
  pending_table t !! id = Some e -> id <> finalized_tip t -> live (be_parent e) -> ~ descends id (be_parent e).
Proof.
  intros He Hne [l Hl] (l' & Hl' & Hid). rewrite (anc_path_fun _ _ _ Hl' Hl) in Hid.
  assert (Hn : NoDup (id :: l)) by (eapply anc_path_NoDup; by econstructor).
  by apply NoDup_cons in Hn as [? _].
Qed.

Lemma successors_path n id l : anc_path id l -> successors n t id = take n l.
Proof.
  intros Hl. revert n. induction Hl as [|id e l Hne He Hp IH]; intros [|n]; simpl; try done; unfold get_parent.
  - rewrite Z.eqb_refl. by destruct n.
  - rewrite (proj2 (Z.eqb_neq _ _) Hne), He. simpl. by rewrite IH.
Qed.

Context (Htip : is_Some (pending_table t !! finalized_tip t)).

Lemma live_in_table id : live id -> is_Some (pending_table t !! id).
Proof. intros [l Hl]. destruct Hl; [done|by eexists]. Qed.

Lemma anc_path_length id l : anc_path id l -> (length l <= size (pending_table t))%nat.
Proof.
  intros Hl. rewrite <- (size_dom (D := gset OLBlockId)), <- (size_list_to_set (C := gset OLBlockId)) by (by eapply anc_path_NoDup).
  apply subseteq_size. intros x Hx%elem_of_list_to_set. apply elem_of_dom. eapply live_in_table, live_elem; done.
Qed.

Lemma sanity_check_live fuel id l : anc_path id l -> (length l <= fuel)%nat -> sanity_check_parent_seq fuel t id = Some true.
Proof.
  intros Hl. revert fuel. induction Hl as [|id e l Hne He Hp IH]; intros [|fuel] Hf; simpl in *; try lia.
  - by rewrite Z.eqb_refl.
  - rewrite He. destruct (id =? finalized_tip t); [done|]. apply IH. lia.
Qed.

Lemma sanity_check_true fuel id : sanity_check_parent_seq fuel t id = Some true -> live id.
Proof.
  revert id. induction fuel as [|fuel IH]; intros id; simpl; [done|].
  destruct (id =? finalized_tip t) eqn:Ht; zbool; [subst; intros _; apply live_tip|].
  destruct (pending_table t !! id) as [e|] eqn:He; [|done]. intros H%IH. by eapply live_step.
Qed.

#[export] Instance live_dec id : Decision (live id).
Proof.
  destruct (sanity_check_parent_seq (size (pending_table t)) t id) as [[]|] eqn:Hs.
  - left. by eapply sanity_check_true.
  - right. intros [l Hl]. rewrite (sanity_check_live _ _ _ Hl) in Hs; [done|by eapply anc_path_length].
  - right. intros [l Hl]. rewrite (sanity_check_live _ _ _ Hl) in Hs; [done|by eapply anc_path_length].
Defined.

#[export] Instance descends_dec b id : Decision (descends b id).
Proof.
  destruct (live_dec id) as [Hl|Hl]; [|right; intros H; by apply Hl, (descends_live b)].
  destruct (decide (b ∈ successors (size (pending_table t)) t id)) as [Hb|Hb]; [left|right].
  - destruct Hl as [l Hl]. rewrite (successors_path _ _ _ Hl) in Hb. exists l. split; [done|].
    by eapply elem_of_take in Hb as (i & Hi%list_elem_of_lookup_2 & _).
  - intros (l & Hp & Hin). apply Hb. rewrite (successors_path _ _ _ Hp), take_ge; [done|by eapply anc_path_length].
Defined.

Lemma walk_finalized_path fuel id l :
  anc_path id l -> (length l <= fuel)%nat -> exists l', l = l' ++ [finalized_tip t] /\ walk_finalized fuel t id = Ok l'.
Proof.
  intros Hl. revert fuel. induction Hl as [|id e l Hne He Hp IH]; intros [|fuel] Hf; simpl in *; try lia.
  - exists []. by rewrite Z.eqb_refl.
  - destruct (IH fuel) as (l' & -> & Hw); [lia|]. exists (id :: l'). split; [done|].
    destruct (id =? finalized_tip t) eqn:Hid; zbool; [done|]. by rewrite He; simpl; rewrite Hw.
Qed.
End paths.

(** ** The invariant

    A block id commits to a header, so slot and parent of a block are functions
    of its id.  [g] is the block the tracker was created with, whose recorded
    parent is the zero id.  Blocks that are not live are left behind by
    finalization: the finalized tips of the past, which the tracker never
    removes, and what has been attached to them since. *)
Section wf.
Context (slot_of : OLBlockId -> Slot) (parent_of : OLBlockId -> OLBlockId) (g : OLBlockId).

Definition recorded_parent (id : OLBlockId) : OLBlockId := if id =? g then buf32_zero else parent_of id.

Record tracker_wf (t : UnfinalizedBlockTracker) : Prop := {
  wf_tip : is_Some (pending_table t !! finalized_tip t);
  wf_base : is_Some (pending_table t !! g);
  wf_zero : pending_table t !! buf32_zero = None;
  wf_slot id e : pending_table t !! id = Some e -> be_slot e = slot_of id;
  wf_parent id e : pending_table t !! id = Some e -> be_parent e = recorded_parent id;
  wf_up id : is_Some (pending_table t !! id) -> id <> g -> slot_of (parent_of id) < slot_of id;
  wf_children id e c :
    live t id -> pending_table t !! id = Some e ->
    c ∈ be_children e <-> c <> finalized_tip t /\ exists ce, pending_table t !! c = Some ce /\ be_parent ce = id;
  wf_tips id e : live t id -> pending_table t !! id = Some e -> id ∈ unfinalized_tips t <-> be_children e = ∅;
  wf_tips_in id : id ∈ unfinalized_tips t -> is_Some (pending_table t !! id);
  wf_stale id e :
    pending_table t !! id = Some e -> ~ live t id ->
    slot_of id < slot_of (finalized_tip t) \/ (is_Some (pending_table t !! be_parent e) /\ ~ live t (be_parent e));
}.

Lemma wf_base_live t : tracker_wf t -> live t g -> g = finalized_tip t.
Proof.
  intros Hwf Hl. destruct (decide (g = finalized_tip t)) as [|Hne]; [done|exfalso].
  destruct (live_inv t g Hl Hne) as (e & He & Hp). rewrite (wf_parent t Hwf _ _ He) in Hp.
  unfold recorded_parent in Hp. rewrite Z.eqb_refl in Hp.
  apply live_in_table in Hp as [? Hp]; [|apply Hwf]. by rewrite (wf_zero t Hwf) in Hp.
Qed.

(** Slots grow from the finalized tip upwards. *)
Lemma live_parent_slot t id e :
  tracker_wf t -> live t id -> id <> finalized_tip t -> pending_table t !! id = Some e ->
  slot_of (be_parent e) < slot_of id.
Proof.
  intros Hwf Hl Hne He. assert (id <> g) by (intros ->; by apply Hne, wf_base_live).
  rewrite (wf_parent t Hwf _ _ He). unfold recorded_parent. rewrite (proj2 (Z.eqb_neq id g)) by done.
  apply (wf_up t Hwf); [by eexists|done].
Qed.

Lemma live_slot t id : tracker_wf t -> live t id -> slot_of (finalized_tip t) <= slot_of id.
Proof.
  intros Hwf [l Hl]. induction Hl as [|id e l Hne He Hp IH]; [lia|].
  assert (live t id) by (eapply live_step; [done|by eexists]).
  pose proof (live_parent_slot t id e Hwf ltac:(done) Hne He). lia.
Qed.

Lemma wf_new_empty fin :
  ec_last_blkid fin = g -> ec_last_slot fin = slot_of g -> g <> buf32_zero -> tracker_wf (new_empty fin).
Proof.
  intros Hg Hs Hz. unfold new_empty. rewrite Hg.
  assert (Hone : forall id e, ({[ g := {| be_slot := ec_last_slot fin; be_parent := buf32_zero; be_children := ∅ |} ]}
    : gmap OLBlockId BlockEntry) !! id = Some e -> id = g /\ e = {| be_slot := ec_last_slot fin; be_parent := buf32_zero; be_children := ∅ |}).
  { intros id e [-> <-]%lookup_singleton_Some. done. }
  split; simpl; unfold finalized_tip; simpl; rewrite ?Hg.
  - by rewrite lookup_singleton_eq.
  - by rewrite lookup_singleton_eq.
  - by apply lookup_singleton_ne.
  - intros id e [-> ->]%Hone. done.
  - intros id e [-> ->]%Hone. unfold recorded_parent. by rewrite Z.eqb_refl.
  - intros id [e He]. by apply Hone in He as [-> _].
  - intros id e c _ [-> ->]%Hone. simpl. split; [set_solver|]. intros (Hc & ce & [-> _]%Hone & _). done.
  - intros id e _ [-> ->]%Hone. simpl. set_solver.
  - intros id ->%elem_of_singleton. by rewrite lookup_singleton_eq.
  - intros id e [-> ->]%Hone Hl. exfalso. apply Hl.
    eexists. pose proof (anc_tip {| finalized_epoch := fin;
      pending_table := {[ g := {| be_slot := ec_last_slot fin; be_parent := buf32_zero; be_children := ∅ |} ]};
      unfinalized_tips := {[ g ]} |}) as H. unfold finalized_tip in H. simpl in H. by rewrite Hg in H.
Qed.

(** *** Attaching *)

Section attach.
Context (t : UnfinalizedBlockTracker) (Hwf : tracker_wf t) (b : OLBlockId) (pe : BlockEntry).
Context (Hb : pending_table t !! b = None) (Hp : pending_table t !! parent_of b = Some pe).
Context (Hz : b <> buf32_zero) (Hslot : slot_of (parent_of b) < slot_of b).

Definition attached : UnfinalizedBlockTracker := {|
  finalized_epoch := finalized_epoch t;
  pending_table :=
    <[ b := {| be_slot := slot_of b; be_parent := parent_of b; be_children := ∅ |} ]>
      (<[ parent_of b := {| be_slot := be_slot pe; be_parent := be_parent pe; be_children := {[ b ]} ∪ be_children pe |} ]>
        (pending_table t));
  unfinalized_tips := {[ b ]} ∪ (unfinalized_tips t ∖ {[ parent_of b ]});
|}.

Lemma attached_ne : b <> parent_of b.
Proof. intros Heq. rewrite Heq in Hb. congruence. Qed.

Lemma attached_b :
  pending_table attached !! b = Some {| be_slot := slot_of b; be_parent := parent_of b; be_children := ∅ |}.
Proof. unfold attached. simpl. apply lookup_insert_eq. Qed.

Lemma attached_lookup id e :
  id <> b -> pending_table attached !! id = Some e ->
  exists e0, pending_table t !! id = Some e0 /\ be_slot e = be_slot e0 /\ be_parent e = be_parent e0 /\
    be_children e = if decide (id = parent_of b) then {[ b ]} ∪ be_children e0 else be_children e0.
Proof.
  intros Hne. unfold attached. simpl. rewrite lookup_insert_ne by done. intros H.
  destruct (decide (id = parent_of b)) as [->|Hnp].
  - rewrite lookup_insert_eq in H. simplify_eq. exists pe. by rewrite Hp.
  - rewrite lookup_insert_ne in H by done. by exists e.
Qed.

Lemma attached_lookup_rev id e0 :
  pending_table t !! id = Some e0 ->
  exists e, id <> b /\ pending_table attached !! id = Some e /\ be_parent e = be_parent e0.
Proof.
  intros H. assert (id <> b) by congruence. unfold attached. simpl. rewrite lookup_insert_ne by done.
  destruct (decide (id = parent_of b)) as [->|Hnp].
  - rewrite lookup_insert_eq. eexists. split_and!; [done..|]. simpl. congruence.
  - rewrite lookup_insert_ne by done. by eexists.
Qed.

(** No block that has been left behind waits for the attached one as its parent. *)
Lemma attached_no_child id e : live t (parent_of b) -> pending_table t !! id = Some e -> id <> finalized_tip t -> be_parent e <> b.
Proof.
  intros Hl He Hne Hpar. assert (Hnl : ~ live t id).
  { intros Hli. destruct (live_inv t id Hli Hne) as (e' & He' & Hpl). simplify_eq.
    apply live_in_table in Hpl as [? Hpl]; [congruence|apply Hwf]. }
  destruct (wf_stale t Hwf id e He Hnl) as [Hlt|[[? Hin] _]]; [|congruence].
  pose proof (live_slot t _ Hwf Hl) as Hs. rewrite (wf_parent t Hwf id e He) in Hpar. unfold recorded_parent in Hpar.
  destruct (id =? g) eqn:Hg; zbool; [congruence|].
  pose proof (wf_up t Hwf id ltac:(by eexists) Hg) as Hup. rewrite Hpar in Hup. lia.
Qed.

Lemma attached_path id l : anc_path t id l -> anc_path attached id l.
Proof.
  induction 1 as [|id e l Hne He Hpath IH]; [apply (anc_tip attached)|].
  destruct (attached_lookup_rev id e He) as (e' & _ & He' & Hpar). econstructor; [done..|]. by rewrite Hpar.
Qed.

Lemma attached_live id : live attached id <-> live t id \/ (id = b /\ live t (parent_of b)).
Proof.
  split.
  - intros [l Hl]. induction Hl as [|id e l Hne He Hpath IH]; [left; apply (live_tip t)|].
    destruct (decide (id = b)) as [->|Hnb].
    + rewrite attached_b in He. simplify_eq. simpl in IH. right. split; [done|].
      destruct IH as [?|[Heq _]]; [done|by destruct attached_ne].
    + destruct (attached_lookup id e Hnb He) as (e0 & He0 & _ & Hpar & _). rewrite Hpar in IH. left.
      destruct IH as [Hl|[Heq Hl]]; [by eapply live_step|]. exfalso. by eapply attached_no_child.
  - assert (Hmono : forall id, live t id -> live attached id) by (intros x [l Hl]; exists l; by apply attached_path).
    intros [Hl|[-> Hl]]; [by apply Hmono|]. eapply live_step; [apply attached_b|]. by apply Hmono.
Qed.

Lemma attached_children id e c :
  live attached id -> pending_table attached !! id = Some e ->
  c ∈ be_children e <-> c <> finalized_tip attached /\ exists ce, pending_table attached !! c = Some ce /\ be_parent ce = id.
Proof.
  pose proof attached_ne as Hbp. intros Hl He. change (finalized_tip attached) with (finalized_tip t).
  assert (Hct : b <> finalized_tip t) by (intros ->; destruct (wf_tip t Hwf); congruence).
  assert (Hch : (exists ce, pending_table attached !! c = Some ce /\ be_parent ce = id) <->
    (c = b /\ id = parent_of b) \/ (exists ce, pending_table t !! c = Some ce /\ be_parent ce = id)).
  { split.
    - intros (ce & Hce & Hpar). destruct (decide (c = b)) as [->|Hne].
      + rewrite attached_b in Hce. simplify_eq. by left.
      + destruct (attached_lookup c ce Hne Hce) as (e0 & He0 & _ & Hp0 & _). right. exists e0. split; [done|congruence].
    - intros [[-> ->]|(ce & Hce & Hpar)]; [eexists; split; [apply attached_b|done]|].
      destruct (attached_lookup_rev c ce Hce) as (ce' & _ & Hce' & Hpar'). exists ce'. split; [done|congruence]. }
  rewrite Hch. apply attached_live in Hl. destruct (decide (id = b)) as [->|Hne].
  + rewrite attached_b in He. simplify_eq. simpl. destruct Hl as [Hl|[_ Hl]].
    { apply live_in_table in Hl as [? Hl]; [congruence|apply Hwf]. }
    split; [set_solver|]. intros (Hc & [[_ ?]|(ce & Hce & Hpar)]); [done|].
    exfalso. by eapply attached_no_child.
  + destruct Hl as [Hl|[? _]]; [|done]. destruct (attached_lookup id e Hne He) as (e0 & He0 & _ & _ & ->).
    pose proof (wf_children t Hwf id e0 c Hl He0) as Hwc.
    case_decide; [rewrite elem_of_union, elem_of_singleton|]; naive_solver.
Qed.

Lemma attached_stale id e :
  pending_table attached !! id = Some e -> ~ live attached id ->
  slot_of id < slot_of (finalized_tip attached) \/
  (is_Some (pending_table attached !! be_parent e) /\ ~ live attached (be_parent e)).
Proof.
  intros He Hnl. change (finalized_tip attached) with (finalized_tip t).
  rewrite attached_live in Hnl. destruct (decide (id = b)) as [->|Hne].
  + rewrite attached_b in He. simplify_eq. simpl. right. rewrite attached_live. split; [|naive_solver].
    destruct (attached_lookup_rev _ _ Hp) as (? & _ & ? & _). by eexists.
  + destruct (attached_lookup id e Hne He) as (e0 & He0 & _ & -> & _).
    destruct (wf_stale t Hwf id e0 He0) as [?|[[pe0 Hpe0] Hpl]]; [naive_solver|by left|]. right.
    destruct (attached_lookup_rev _ _ Hpe0) as (? & ? & ? & _). rewrite attached_live. split; [by eexists|naive_solver].
Qed.

Lemma wf_attached : tracker_wf attached.
Proof.
  pose proof attached_ne as Hbp. split.
  - destruct (wf_tip t Hwf) as [e He]. destruct (attached_lookup_rev _ _ He) as (? & _ & ? & _). by eexists.
  - destruct (wf_base t Hwf) as [e He]. destruct (attached_lookup_rev _ _ He) as (? & _ & ? & _). by eexists.
  - unfold attached. simpl. pose proof (wf_zero t Hwf). rewrite !lookup_insert_ne; [done|congruence|done].
  - intros id e He. destruct (decide (id = b)) as [->|Hne]; [rewrite attached_b in He; by simplify_eq|].
    destruct (attached_lookup id e Hne He) as (e0 & He0 & -> & _). by apply (wf_slot t Hwf).
  - intros id e He. destruct (decide (id = b)) as [->|Hne].
    + rewrite attached_b in He. simplify_eq. unfold recorded_parent. simpl. destruct (b =? g) eqn:Hg; zbool; [|done].
      subst. destruct (wf_base t Hwf). congruence.
    + destruct (attached_lookup id e Hne He) as (e0 & He0 & _ & -> & _). by apply (wf_parent t Hwf).
  - intros id [e He] Hg. destruct (decide (id = b)) as [->|Hne]; [done|].
    destruct (attached_lookup id e Hne He) as (e0 & He0 & _). apply (wf_up t Hwf); [by eexists|done].
  - apply attached_children.
  - intros id e Hl He. apply attached_live in Hl.
    change (unfinalized_tips attached) with ({[ b ]} ∪ (unfinalized_tips t ∖ {[ parent_of b ]})).
    destruct (decide (id = b)) as [->|Hne].
    + rewrite attached_b in He. simplify_eq. set_solver.
    + destruct Hl as [Hl|[? _]]; [|done]. destruct (attached_lookup id e Hne He) as (e0 & He0 & _ & _ & ->).
      pose proof (wf_tips t Hwf id e0 Hl He0) as Hwt. case_decide; set_solver.
  - intros id. change (unfinalized_tips attached) with ({[ b ]} ∪ (unfinalized_tips t ∖ {[ parent_of b ]})).
    rewrite elem_of_union, elem_of_singleton, elem_of_difference.
    intros [->|[[e He]%(wf_tips_in t Hwf) _]]; [by rewrite attached_b|].
    destruct (attached_lookup_rev _ _ He) as (? & _ & ? & _). by eexists.
  - apply attached_stale.
Qed.
End attach.
End wf.
