(* ===== verification/TrackerFinal.v ===== *)
(** * Finalizing an epoch in the tracker

    Removing blocks, collecting descendants, and what finalization leaves: the
    blocks that descend from the new tip, and those that were left behind
    before.  The theorems about sequences of tracker operations. *)

From S2P Require Import Prelude Identifiers Tracker.

(** ** Removing blocks *)

Lemma remove_lookup t b id :
  b <> finalized_tip t -> id <> b ->
  match pending_table t !! id with
  | None => pending_table (remove t b) !! id = None
  | Some e => exists e', pending_table (remove t b) !! id = Some e' /\ be_slot e' = be_slot e /\ be_parent e' = be_parent e /\
      forall c, c ∈ be_children e' <-> c ∈ be_children e /\ (c = b -> be_parent <$> pending_table t !! b <> Some id)
  end.
Proof.
  intros Hb Hid. unfold remove, get_parent. rewrite (proj2 (Z.eqb_neq _ _) Hb). simpl.
  destruct (pending_table t !! b) as [be|] eqn:Hbe; simpl.
  - rewrite lookup_alter. case_decide as Hp.
    + subst id. rewrite lookup_delete_ne by done. destruct (pending_table t !! be_parent be) as [e|]; simpl; [|done].
      eexists. split_and!; [done..|]. simpl. set_solver.
    + rewrite lookup_delete_ne by done. destruct (pending_table t !! id) as [e|]; [|done].
      exists e. split_and!; [done..|]. intros c. split; [|naive_solver]. intros Hc. split; [done|]. congruence.
  - rewrite lookup_delete_ne by done. destruct (pending_table t !! id) as [e|]; [|done].
    exists e. split_and!; [done..|]. naive_solver.
Qed.

Lemma remove_self t b : b <> finalized_tip t -> pending_table (remove t b) !! b = None.
Proof.
  intros Hb. unfold remove, get_parent. rewrite (proj2 (Z.eqb_neq _ _) Hb). simpl.
  destruct (pending_table t !! b) as [be|]; simpl; [|apply lookup_delete_eq].
  rewrite lookup_alter. case_decide; [subst|]; by rewrite lookup_delete_eq.
Qed.

(** What is left after removing a list of blocks. *)
Record removed (R : list OLBlockId) (t t' : UnfinalizedBlockTracker) : Prop := {
  rm_epoch : finalized_epoch t' = finalized_epoch t;
  rm_tips id : id ∈ unfinalized_tips t' <-> id ∈ unfinalized_tips t /\ (id ∉ R);
  rm_gone id : id ∈ R -> pending_table t' !! id = None;
  rm_none id : pending_table t !! id = None -> pending_table t' !! id = None;
  rm_kept id e : id ∉ R -> pending_table t !! id = Some e ->
    exists e', pending_table t' !! id = Some e' /\ be_slot e' = be_slot e /\ be_parent e' = be_parent e /\
      forall c, c ∈ be_children e' <-> c ∈ be_children e /\ (c ∈ R -> be_parent <$> pending_table t !! c <> Some id);
}.

Lemma remove_fold R t : Forall (fun b => b <> finalized_tip t) R -> removed R t (fold_left remove R t).
Proof.
  revert t. induction R as [|b R IH]; intros t HR; simpl.
  - split; try done; [set_solver..|]. intros id e _ He. exists e. split_and!; [done..|]. set_solver.
  - apply Forall_cons in HR as [Hb HR]. assert (Hft : finalized_tip (remove t b) = finalized_tip t) by done.
    destruct (IH (remove t b)) as [He Ht Hg Hn Hk]; [by rewrite Hft|]. split.
    + done.
    + intros id. rewrite Ht. simpl. set_solver.
    + intros id [->|Hid]%elem_of_cons; [apply Hn; by apply remove_self|by apply Hg].
    + intros id Hid. apply Hn. destruct (decide (id = b)) as [->|Hne]; [by apply remove_self|].
      pose proof (remove_lookup t b id Hb Hne) as H. by rewrite Hid in H.
    + intros id e [Hidb HidR]%not_elem_of_cons Hide. pose proof (remove_lookup t b id Hb Hidb) as H. rewrite Hide in H.
      destruct H as (e1 & He1 & Hs1 & Hp1 & Hc1). destruct (Hk id e1 HidR He1) as (e2 & He2 & Hs2 & Hp2 & Hc2).
      exists e2. split_and!; [done|congruence..|]. intros c. rewrite Hc2, Hc1. destruct (decide (c = b)) as [->|Hcb].
      * rewrite remove_self by done. set_solver.
      * pose proof (remove_lookup t b c Hb Hcb) as H.
        destruct (pending_table t !! c) as [ce|] eqn:Hce.
        -- destruct H as (ce' & -> & _ & Hpc & _). simpl. rewrite Hpc. set_solver.
        -- rewrite H. set_solver.
Qed.

(** ** Descendants *)

Section final.
Context (slot_of : OLBlockId -> Slot) (parent_of : OLBlockId -> OLBlockId) (g : OLBlockId).
Context (t : UnfinalizedBlockTracker) (Hwf : tracker_wf slot_of parent_of g t).

Abbreviation table := (pending_table t).
Abbreviation tip := (finalized_tip t).
Abbreviation wf_of f := (f slot_of parent_of g t Hwf) (only parsing).

Lemma child_live a e c : live t a -> table !! a = Some e -> c ∈ be_children e ->
  c <> tip /\ live t c /\ descends t a c /\ ~ descends t c a /\ exists ce, table !! c = Some ce /\ be_parent ce = a.
Proof.
  intros Ha He Hin. apply (wf_children _ _ _ t Hwf a e c Ha He) in Hin as (Hc & ce & Hce & Hp). subst a.
  assert (live t c) by (by eapply live_step).
  split_and!; [done..| | |by eexists].
  - apply (descends_step t _ c ce); [done..|]. right. by apply descends_refl.
  - by apply child_not_ancestor.
Qed.

Lemma descends_child b x : descends t b x -> x <> b -> exists e c, table !! b = Some e /\ c ∈ be_children e /\ descends t c x.
Proof.
  intros (l & Hl & Hb). induction Hl as [|x ex l Hne Hex Hp IH]; intros Hxb.
  { by apply list_elem_of_singleton in Hb. }
  apply elem_of_cons in Hb as [|Hb]; [done|]. assert (Hlx : live t x) by (eapply live_step; [done|by eexists]).
  destruct (decide (be_parent ex = b)) as [<-|Hpb].
  - assert (Hlp : live t (be_parent ex)) by (by eexists).
    destruct (live_in_table t (wf_tip _ _ _ t Hwf) _ Hlp) as [e He]. exists e, x. split_and!; [done| |by apply descends_refl].
    apply (wf_children _ _ _ t Hwf _ e x Hlp He). split; [done|by exists ex].
  - destruct (IH Hb) as (e & c & He & Hc & Hd); [done|]. exists e, c. split_and!; [done..|].
    apply (descends_step t c x ex Hex Hne Hlx). by right.
Qed.

(** Blocks none of which descends from another. *)
Definition independent (l : list OLBlockId) : Prop :=
  NoDup l /\ Forall (live t) l /\ forall a b, a ∈ l -> b ∈ l -> descends t a b -> a = b.

Lemma independent_visit b e rest :
  table !! b = Some e -> independent (b :: rest) -> independent (rev (elements (be_children e)) ++ rest).
Proof.
  intros He (Hnd & Hlive & Hind). apply NoDup_cons in Hnd as [Hb Hnd]. apply Forall_cons in Hlive as [Hlb Hlive].
  assert (Hch : forall c, c ∈ rev (elements (be_children e)) <-> c ∈ be_children e).
  { intros c. by rewrite list_elem_of_In, <- in_rev, <- list_elem_of_In, elem_of_elements. }
  assert (Hcross : forall c s, c ∈ be_children e -> s ∈ rest -> ~ descends t c s /\ ~ descends t s c).
  { intros c s Hc Hs. destruct (child_live b e c Hlb He Hc) as (Hct & Hlc & Hbc & Hcb & ce & Hce & Hp). split; intros Hd.
    - assert (b = s) as -> by (apply Hind; [by left|by right|by eapply descends_trans]). done.
    - apply (descends_step t s c ce Hce Hct Hlc) in Hd as [->|Hd].
      + assert (b = c) as -> by (apply Hind; [by left|by right|done]). done.
      + rewrite Hp in Hd. assert (s = b) as -> by (apply Hind; [by right|by left|done]). done. }
  split_and!.
  - apply NoDup_app. split_and!; [|intros c Hc%Hch Hs|done].
    + apply NoDup_ListNoDup, NoDup_rev, NoDup_ListNoDup, NoDup_elements.
    + destruct (child_live b e c Hlb He Hc) as (_ & Hlc & _). destruct (Hcross c c Hc Hs) as [H _]. by apply H, descends_refl.
  - apply Forall_app. split; [|done]. apply Forall_forall. intros c Hc%Hch. by apply (child_live b e c).
  - intros a c [Ha|Ha]%elem_of_app [Hc|Hc]%elem_of_app Hd; rewrite ?Hch in *; try (by destruct (Hcross _ _ Ha Hc));
      try (by destruct (Hcross _ _ Hc Ha)); [|by apply Hind; [right..|]].
    destruct (child_live b e c Hlb He Hc) as (Hct & Hlc & _ & _ & ce & Hce & Hp).
    apply (descends_step t a c ce Hce Hct Hlc) in Hd as [|Hd]; [done|]. rewrite Hp in Hd.
    by destruct (child_live b e a Hlb He Ha) as (_ & _ & _ & ? & _).
Qed.

Lemma visit_descendants_spec fuel stack acc (U : gset OLBlockId) :
  independent stack -> (forall x, x ∈ U <-> exists b, b ∈ stack /\ descends t b x) -> (size U <= fuel)%nat ->
  exists D, visit_descendants fuel t stack acc = Ok D /\
    forall x, x ∈ D <-> x ∈ acc \/ exists b, b ∈ stack /\ descends t b x /\ x <> b.
Proof.
  revert stack acc U. induction fuel as [|fuel IH]; intros stack acc U Hind HU Hsize.
  all: destruct stack as [|b rest]; simpl; [exists acc; split; [done|set_solver]|].
  all: pose proof Hind as (Hnd & Hlive & Hdesc); apply Forall_cons in Hlive as [Hlb Hlive].
  all: assert (HbU : b ∈ U) by (apply HU; exists b; split; [by left|by apply descends_refl]).
  { assert (size U = 0%nat) as Hs0 by lia. apply size_empty_inv in Hs0. set_solver. }
  destruct (live_in_table t (wf_tip _ _ _ t Hwf) b Hlb) as [e He]. rewrite He.
  assert (Hch : forall c, c ∈ rev (elements (be_children e)) <-> c ∈ be_children e).
  { intros c. by rewrite list_elem_of_In, <- in_rev, <- list_elem_of_In, elem_of_elements. }
  destruct (IH (rev (elements (be_children e)) ++ rest) (acc ∪ be_children e) (U ∖ {[ b ]})) as (D & HD & Hspec).
  - by eapply independent_visit.
  - intros x. rewrite elem_of_difference, elem_of_singleton, HU. split.
    + intros [(a & [->|Ha]%elem_of_cons & Hd) Hx].
      * destruct (descends_child b x Hd Hx) as (e' & c & He' & Hc & Hdc). simplify_eq.
        exists c. split; [|done]. apply elem_of_app. left. by apply Hch.
      * exists a. split; [|done]. apply elem_of_app. by right.
    + intros (a & [Ha%Hch|Ha]%elem_of_app & Hd).
      * destruct (child_live b e a Hlb He Ha) as (_ & _ & Hba & Hab & _). split; [|by intros ->].
        exists b. split; [by left|by eapply descends_trans].
      * split; [exists a; split; [by right|done]|]. intros ->. apply NoDup_cons in Hnd as [Hb _].
        assert (a = b) as -> by (apply Hdesc; [by right|by left|done]). done.
  - rewrite size_difference, size_singleton by set_solver. lia.
  - exists D. split; [done|]. intros x. rewrite Hspec, elem_of_union. split.
    + intros [[?|Hc]|(a & [Ha%Hch|Ha]%elem_of_app & Hd & Hx)].
      * by left.
      * right. destruct (child_live b e x Hlb He Hc) as (_ & _ & Hbx & Hxb & _). exists b. split_and!; [by left|done|].
        intros ->. by apply Hxb.
      * right. destruct (child_live b e a Hlb He Ha) as (_ & _ & Hba & Hab & _). exists b.
        split_and!; [by left|by eapply descends_trans|by intros ->].
      * right. exists a. split_and!; [by right|done..].
    + intros [?|(a & [->|Ha]%elem_of_cons & Hd & Hx)]; [by do 2 left| |].
      * destruct (descends_child b x Hd Hx) as (e' & c & He' & Hc & Hdc). simplify_eq.
        destruct (decide (x = c)) as [->|Hxc]; [left; by right|]. right. exists c. split_and!; [|done..].
        apply elem_of_app. left. by apply Hch.
      * right. exists a. split_and!; [|done..]. apply elem_of_app. by right.
Qed.

Lemma get_all_descendants_spec b : live t b ->
  exists D, get_all_descendants t b = Ok D /\ forall x, x ∈ D <-> descends t b x /\ x <> b.
Proof.
  intros Hb. destruct (visit_descendants_spec (size table) [b] ∅
    (filter (fun x => @bool_decide (descends t b x) (descends_dec t (wf_tip _ _ _ t Hwf) b x)) (dom table))) as (D & HD & Hs).
  - split_and!; [apply NoDup_singleton|by apply Forall_singleton|]. by intros a c ->%list_elem_of_singleton ->%list_elem_of_singleton.
  - intros x. rewrite elem_of_filter, bool_decide_spec, elem_of_dom. split.
    + intros [Hd _]. exists b. split; [by left|done].
    + intros (a & ->%list_elem_of_singleton & Hd). split; [done|].
      apply (live_in_table t (wf_tip _ _ _ t Hwf)). by eapply descends_live.
  - rewrite <- (size_dom (D := gset OLBlockId)). apply subseteq_size. intros x. by rewrite elem_of_filter; intros [_ ?].
  - exists D. split; [done|]. intros x. rewrite Hs. set_solver.
Qed.
(** ** What finalization removes *)

Lemma walk_evict_spec fuel fin id l :
  anc_path t id l -> (length l <= fuel)%nat ->
  exists E, walk_evict fuel t fin id = Ok E /\
    forall c, c ∈ E <-> (c ∉ fin) /\ exists a e, a ∈ l /\ table !! a = Some e /\ c ∈ be_children e.
Proof.
  intros Hl. revert fuel. induction Hl as [|id e l Hne He Hp IH]; intros [|fuel] Hf; simpl in Hf; try lia.
  - destruct (wf_tip _ _ _ t Hwf) as [e He]. cbn [walk_evict]. rewrite He. simpl. rewrite Z.eqb_refl.
    eexists. split; [done|]. intros c. rewrite list_elem_of_filter, elem_of_elements. split.
    + intros [? ?]. split; [done|]. exists tip, e. split_and!; [by left|done..].
    + intros (? & a & e' & ->%list_elem_of_singleton & He' & ?). by simplify_eq.
  - destruct (IH fuel) as (E & HE & Hs); [lia|]. cbn [walk_evict]. rewrite He. simpl.
    rewrite (proj2 (Z.eqb_neq _ _) Hne), HE. simpl. eexists. split; [done|]. intros c.
    rewrite elem_of_app, Hs, list_elem_of_filter, elem_of_elements. split.
    + intros [[? ?]|(? & a & e' & ? & ? & ?)]; (split; [done|]); [exists id, e|exists a, e']; split_and!; try done; [by left|by right].
    + intros (? & a & e' & [->|Ha]%elem_of_cons & He' & ?); [left; by simplify_eq|right]. split; [done|]. by exists a, e'.
Qed.

Lemma extend_descendants_spec E :
  Forall (live t) E ->
  exists X, extend_descendants t E = Ok X /\ forall x, x ∈ X <-> exists c, c ∈ E /\ descends t c x /\ x <> c.
Proof.
  induction 1 as [|c E Hc _ IH]; simpl; [exists []; split; [done|set_solver]|].
  destruct (get_all_descendants_spec c Hc) as (D & -> & HD). destruct IH as (X & -> & HX). simpl.
  eexists. split; [done|]. intros x. rewrite elem_of_app, elem_of_elements, HD, HX. set_solver.
Qed.

Context (n : OLBlockId) (Hn : live t n) (Hnt : n <> tip).

(** A block that is neither on the path to [n] nor after it hangs off the path. *)
Lemma hangs_off ne l x :
  table !! n = Some ne -> anc_path t (be_parent ne) l -> live t x -> ~ descends t n x -> ~ descends t x n ->
  exists a e c, a ∈ l /\ table !! a = Some e /\ c ∈ be_children e /\ (c ∉ l) /\ c <> n /\ descends t c x.
Proof.
  intros Hne Hl [lx Hx]. induction Hx as [|x ex lx Hxt Hex Hp IH]; intros Hnx Hxn.
  { destruct Hxn. by apply descends_tip. }
  assert (Hlx : live t x) by (eapply live_step; [done|by eexists]).
  assert (Hlp : live t (be_parent ex)) by (by eexists).
  assert (Hxl : x ∉ l).
  { intros Hin. apply Hxn. apply (descends_step t x n ne Hne Hnt Hn). right. by exists l. }
  assert (Hnp : ~ descends t n (be_parent ex)) by (intros H; apply Hnx, (descends_step t n x ex Hex Hxt Hlx); by right).
  destruct (decide (be_parent ex ∈ l)) as [Hin|Hin].
  - destruct (live_in_table t (wf_tip _ _ _ t Hwf) _ Hlp) as [e He]. exists (be_parent ex), e, x.
    split_and!; [done..| |done| |by apply descends_refl].
    + apply (wf_children _ _ _ t Hwf _ e x Hlp He). split; [done|by exists ex].
    + intros ->. by apply Hnx, descends_refl.
  - destruct IH as (a & e & c & Ha & He & Hc & Hcl & Hcn & Hd); [done| |].
    + intros Hd. apply Hin. apply (descends_step t _ n ne Hne Hnt Hn) in Hd as [Heq|(l' & Hl' & Hd)].
      * rewrite Heq in Hnp. by destruct Hnp; apply descends_refl.
      * by rewrite (anc_path_fun _ _ _ _ Hl' Hl) in Hd.
    + exists a, e, c. split_and!; [done..|]. apply (descends_step t c x ex Hex Hxt Hlx). by right.
Qed.

Lemma evicted_spec fuel :
  (size table < fuel)%nat ->
  exists fin ne E X,
    anc_path t n (fin ++ [tip]) /\ walk_finalized fuel t n = Ok fin /\ table !! n = Some ne /\
    walk_evict fuel t fin (be_parent ne) = Ok E /\ extend_descendants t E = Ok X /\
    forall x, x ∈ E ++ X <-> live t x /\ ~ descends t n x /\ ~ descends t x n.
Proof.
  intros Hf. destruct Hn as [l Hl]. pose proof (anc_path_length t (wf_tip _ _ _ t Hwf) _ _ Hl) as Hlen.
  destruct (walk_finalized_path t fuel n l Hl) as (fin & -> & Hw); [lia|].
  inversion Hl as [|? ne l' _ Hne Hl']; subst; [by destruct Hnt|].
  assert (Hn' : live t n) by (by eexists).
  assert (Hlen' : (length l' <= fuel)%nat).
  { pose proof (anc_path_length t (wf_tip _ _ _ t Hwf) _ _ Hl'). lia. }
  destruct (walk_evict_spec fuel fin (be_parent ne) l' Hl' Hlen') as (E & HE & HEs).
  assert (Hfin : forall c, c ∈ fin -> descends t c n).
  { intros c Hc. exists (fin ++ [tip]). split; [done|]. apply elem_of_app. by left. }
  assert (Hfin' : forall c, descends t c n -> c <> tip -> c ∈ fin).
  { intros c (lc & Hlc & Hc) Hct. rewrite (anc_path_fun _ _ _ _ Hlc Hl) in Hc. apply elem_of_app in Hc as [?|Hc]; [done|].
    by apply list_elem_of_singleton in Hc. }
  assert (Hal : forall a, a ∈ l' -> live t a /\ descends t a n /\ ~ descends t n a).
  { intros a Ha. assert (Hda : descends t a (be_parent ne)) by (by exists l'). split_and!; [by eapply live_elem| |].
    - apply (descends_step t a n ne Hne Hnt Hn'). by right.
    - intros Hd. eapply (child_not_ancestor t n ne Hne Hnt); [by eexists|by eapply descends_trans]. }
  assert (HElive : Forall (live t) E).
  { apply Forall_forall. intros c (_ & a & e & Ha & He & Hc)%HEs. destruct (Hal a Ha) as (Hla & _).
    by apply (child_live a e c). }
  destruct (extend_descendants_spec E HElive) as (X & HX & HXs).
  exists fin, ne, E, X. split_and!; try done. intros x. rewrite elem_of_app, HXs. split.
  - intros Hx. assert (Hc : exists c, c ∈ E /\ descends t c x).
    { destruct Hx as [Hx|(c & Hc & Hd & _)]; [|by exists c]. exists x. split; [done|].
      apply descends_refl. rewrite Forall_forall in HElive. by apply HElive. }
    destruct Hc as (c & (Hcf & a & e & Ha & He & Hc)%HEs & Hd). destruct (Hal a Ha) as (Hla & Han & Hna).
    destruct (child_live a e c Hla He Hc) as (Hct & Hlc & Hac & Hca & ce & Hce & Hpc).
    assert (Hcn : ~ descends t c n) by (intros H; by apply Hcf, Hfin').
    split_and!; [by eapply descends_live| |intros H; by apply Hcn; eapply descends_trans].
    intros Hnx. destruct (descends_total t c n x Hd Hnx) as [|Hnc]; [done|].
    apply (descends_step t n c ce Hce Hct Hlc) in Hnc as [->|Hnc]; [by apply Hcn, descends_refl|].
    by rewrite Hpc in Hnc.
  - intros (Hlx & Hnx & Hxn). destruct (hangs_off ne l' x Hne Hl' Hlx Hnx Hxn) as (a & e & c & Ha & He & Hc & Hcl & Hcn & Hd).
    assert (HcE : c ∈ E).
    { apply HEs. split; [|by exists a, e]. intros Hcf%Hfin.
      apply (descends_step t c n ne Hne Hnt Hn') in Hcf as [|(l'' & Hl'' & Hcf)]; [done|].
      by rewrite (anc_path_fun _ _ _ _ Hl'' Hl') in Hcf. }
    destruct (decide (x = c)) as [->|]; [by left|]. right. by exists c.
Qed.
(** ** The tracker after finalization *)

Section after.
Context (epoch : EpochCommitment) (He : ec_last_blkid epoch = n).
Context (R : list OLBlockId) (t1 : UnfinalizedBlockTracker) (Hrm : removed R t t1).
Context (HR : forall x, x ∈ R <-> live t x /\ ~ descends t n x /\ x <> tip).

Abbreviation t' := (set_finalized_epoch epoch t1).

Lemma after_tip : finalized_tip t' = n.
Proof. done. Qed.

(** The parent of the old tip is not live. *)
Lemma old_tip_parent e : table !! tip = Some e -> ~ live t (be_parent e).
Proof.
  intros Hte Hl. pose proof (live_slot _ _ _ t _ Hwf Hl) as Hs. rewrite (wf_parent _ _ _ t Hwf _ _ Hte) in Hs, Hl.
  unfold recorded_parent in Hs, Hl. destruct (tip =? g) eqn:Hg; zbool.
  - apply live_in_table in Hl as [? Hl]; [|apply Hwf]. by rewrite (wf_zero _ _ _ t Hwf) in Hl.
  - pose proof (wf_up _ _ _ t Hwf tip (wf_tip _ _ _ t Hwf) Hg). lia.
Qed.

Lemma after_lookup x e' : pending_table t' !! x = Some e' ->
  (x ∉ R) /\ exists e, table !! x = Some e /\ be_slot e' = be_slot e /\ be_parent e' = be_parent e /\
    forall c, c ∈ be_children e' <-> c ∈ be_children e /\ (c ∈ R -> be_parent <$> table !! c <> Some x).
Proof.
  simpl. intros Hx. assert (HxR : x ∉ R) by (intros H; by rewrite (rm_gone _ _ _ Hrm x H) in Hx). split; [done|].
  destruct (table !! x) as [e|] eqn:Hxe; [|by rewrite (rm_none _ _ _ Hrm x Hxe) in Hx].
  destruct (rm_kept _ _ _ Hrm x e HxR Hxe) as (e1 & He1 & ? & ? & ?). simplify_eq. by exists e.
Qed.

Lemma after_kept x e : table !! x = Some e -> (x ∉ R) ->
  exists e', pending_table t' !! x = Some e' /\ be_parent e' = be_parent e.
Proof. intros Hx HxR. destruct (rm_kept _ _ _ Hrm x e HxR Hx) as (e1 & ? & _ & ? & _). by exists e1. Qed.

Lemma descends_not_removed x : descends t n x -> x ∉ R.
Proof. intros Hd (_ & ? & _)%HR. done. Qed.

Lemma after_live x : live t' x <-> descends t n x.
Proof.
  split.
  - intros [l Hl]. induction Hl as [|x e' l Hne Hx' Hp IH]; [by rewrite after_tip; apply descends_refl|].
    destruct (after_lookup x e' Hx') as (HxR & e & Hx & _ & Hpar & _). rewrite Hpar in IH.
    assert (Hlp : live t (be_parent e)) by (by eapply descends_live).
    assert (Hxt : x <> tip) by (intros ->; by eapply old_tip_parent).
    apply (descends_step t n x e Hx Hxt); [by eapply live_step|by right].
  - intros (l & Hl & Hin). induction Hl as [|x e l Hne Hx Hp IH].
    { by apply list_elem_of_singleton in Hin. }
    destruct (decide (x = n)) as [->|Hxn]; [rewrite <- after_tip; apply live_tip|].
    apply elem_of_cons in Hin as [|Hin]; [done|].
    assert (Hlx : live t x) by (eapply live_step; [done|by eexists]).
    destruct (after_kept x e Hx) as (e' & Hx' & Hpar).
    { apply descends_not_removed, (descends_step t n x e Hx Hne Hlx). right. by exists l. }
    eapply live_step; [done|]. rewrite Hpar. by apply IH.
Qed.

Lemma after_children x e' c :
  live t' x -> pending_table t' !! x = Some e' ->
  c ∈ be_children e' <-> c <> n /\ exists ce, pending_table t' !! c = Some ce /\ be_parent ce = x.
Proof.
  intros Hl%after_live Hx'. destruct (after_lookup x e' Hx') as (HxR & e & Hx & _ & _ & Hch). rewrite Hch.
  assert (Hlx : live t x) by (by eapply descends_live). split.
  - intros [Hc HcR]. destruct (child_live x e c Hlx Hx Hc) as (Hct & Hlc & Hxc & Hcx & ce & Hce & Hpc).
    split; [intros ->; by apply Hcx|]. destruct (after_kept c ce Hce) as (ce' & ? & ?); [|by exists ce'; split; [|congruence]].
    intros H. apply (HcR H). by rewrite Hce, <- Hpc.
  - intros (Hcn & ce' & Hce' & Hpc). destruct (after_lookup c ce' Hce') as (HcR & ce & Hce & _ & Hpc' & _).
    split; [|done]. apply (wf_children _ _ _ t Hwf x e c Hlx Hx). split; [|exists ce; split; [done|congruence]].
    intros ->. eapply old_tip_parent; [done|]. by rewrite <- Hpc', Hpc.
Qed.

Lemma wf_after : tracker_wf slot_of parent_of g t'.
Proof.
  assert (Hlt : slot_of tip < slot_of n).
  { destruct (live_inv t n Hn Hnt) as (ne & Hne & Hlp). pose proof (live_slot _ _ _ t _ Hwf Hlp).
    pose proof (live_parent_slot _ _ _ t n ne Hwf Hn Hnt Hne). lia. }
  split; rewrite ?after_tip.
  - destruct (live_in_table t (wf_tip _ _ _ t Hwf) n Hn) as [ne Hne].
    destruct (after_kept n ne Hne) as (? & ? & _); [by apply descends_not_removed, descends_refl|by eexists].
  - destruct (wf_base _ _ _ t Hwf) as [ge Hge]. destruct (after_kept g ge Hge) as (? & ? & _); [|by eexists].
    intros (Hlg & _ & Hgt)%HR. by apply Hgt, (wf_base_live slot_of parent_of).
  - apply (rm_none _ _ _ Hrm), Hwf.
  - intros x e' Hx. destruct (after_lookup x e' Hx) as (_ & e & ? & -> & _). by apply (wf_slot _ _ _ t Hwf).
  - intros x e' Hx. destruct (after_lookup x e' Hx) as (_ & e & ? & _ & -> & _). by apply (wf_parent _ _ _ t Hwf).
  - intros x [e' Hx] Hg. destruct (after_lookup x e' Hx) as (_ & e & ? & _). apply (wf_up _ _ _ t Hwf); [by eexists|done].
  - apply after_children.
  - intros x e' Hl Hx'. pose proof Hl as Hd%after_live. destruct (after_lookup x e' Hx') as (HxR & e & Hx & _ & _ & Hch).
    assert (Hlx : live t x) by (by eapply descends_live).
    transitivity (x ∈ unfinalized_tips t); [simpl; rewrite (rm_tips _ _ _ Hrm x); naive_solver|].
    rewrite (wf_tips _ _ _ t Hwf x e Hlx Hx). assert (be_children e' = be_children e) as ->; [|done].
    apply set_eq. intros c. rewrite Hch. split; [naive_solver|]. intros Hc. split; [done|]. intros HcR. exfalso.
    destruct (child_live x e c Hlx Hx Hc) as (_ & _ & Hxc & _). apply HR in HcR as (_ & Hnd & _).
    by apply Hnd, (descends_trans t n x c).
  - intros x [[e Hx]%(wf_tips_in _ _ _ t Hwf) HxR]%(rm_tips _ _ _ Hrm). destruct (after_kept x e Hx HxR) as (? & ? & _). by eexists.
  - intros x e' Hx' Hnl. rewrite after_live in Hnl. destruct (after_lookup x e' Hx') as (HxR & e & Hx & _ & Hpar & _).
    destruct (live_dec t (wf_tip _ _ _ t Hwf) x) as [Hl|Hl].
    + destruct (decide (x = tip)) as [->|Hxt]; [by left|]. exfalso. by apply HxR, HR.
    + destruct (wf_stale _ _ _ t Hwf x e Hx Hl) as [?|[[pe Hpe] Hpl]]; [left; lia|right].
      rewrite Hpar, after_live. split; [|intros Hd; by apply Hpl, (descends_live t n)].
      destruct (after_kept _ pe Hpe) as (? & ? & _); [|by eexists]. intros (? & _)%HR. done.
Qed.
End after.

(** ** Finalizing *)

(** What the call reports, and what it leaves. *)
Record finalizes (epoch : EpochCommitment) (r : FinalizeReport) (t' : UnfinalizedBlockTracker) : Prop := {
  fin_epoch : finalized_epoch t' = epoch;
  fin_old : fr_old_epoch r = finalized_epoch t;
  fin_path : anc_path t n (fr_finalized r ++ [tip]);
  fin_rejected x : x ∈ fr_rejected r <-> live t x /\ ~ descends t n x /\ ~ descends t x n;
  fin_live x : live t' x <-> descends t n x;
  fin_slot x : live t' x -> get_slot t' x = get_slot t x;
  fin_tips x : live t' x -> x ∈ unfinalized_tips t' <-> x ∈ unfinalized_tips t;
  fin_tips_in x : x ∈ unfinalized_tips t' -> x ∈ unfinalized_tips t;
  fin_old_tip : is_Some (pending_table t' !! tip);
}.

(** Rejected and newly finalized blocks, without the new tip. *)
Lemma removed_set fin ev :
  anc_path t n (fin ++ [tip]) -> (forall x, x ∈ ev <-> live t x /\ ~ descends t n x /\ ~ descends t x n) ->
  forall x, x ∈ ev ++ filter (fun b => b <> n) fin <-> live t x /\ ~ descends t n x /\ x <> tip.
Proof.
  intros Hpath Hspec x. rewrite elem_of_app, Hspec, list_elem_of_filter.
  assert (Hfin : x ∈ fin <-> descends t x n /\ x <> tip).
  { pose proof (anc_path_NoDup _ _ _ Hpath) as Hnd. apply NoDup_app in Hnd as (_ & Hnd & _). split.
    - intros Hx. split; [exists (fin ++ [tip]); split; [done|]; apply elem_of_app; by left|].
      intros ->. apply (Hnd tip Hx). by left.
    - intros [(l & Hl & Hx) Hxt]. rewrite (anc_path_fun _ _ _ _ Hl Hpath) in Hx.
      apply elem_of_app in Hx as [|Hx]; [done|]. by apply list_elem_of_singleton in Hx. }
  rewrite Hfin. split.
  - intros [(? & ? & Hxn)|(Hxn & Hd & ?)]; split_and!; try done.
    + intros ->. by apply Hxn, descends_tip.
    + destruct Hd as (l & Hl & Hin). by eapply live_elem.
    + intros Hd'. apply Hxn. by apply (descends_antisym t).
  - intros (Hl & Hnd & Hxt). destruct (descends_dec t (wf_tip _ _ _ t Hwf) x n) as [Hd|Hd]; [right|by left].
    split_and!; [|done..]. intros ->. by apply Hnd, descends_refl.
Qed.

Lemma update_finalized_epoch_live epoch :
  ec_last_blkid epoch = n ->
  exists r t', update_finalized_epoch epoch t = (Ok r, t') /\ finalizes epoch r t' /\ tracker_wf slot_of parent_of g t'.
Proof.
  intros Hep. destruct (evicted_spec (S (size table))) as (fin & ne & E & X & Hpath & Hw & Hne & HE & HX & Hspec); [lia|].
  set (R2 := filter (fun b => b <> n) fin). set (t1 := fold_left remove R2 (fold_left remove (E ++ X) t)).
  pose proof (removed_set fin (E ++ X) Hpath Hspec) as HR. fold R2 in HR.
  assert (Hrm : removed ((E ++ X) ++ R2) t t1).
  { unfold t1. rewrite <- fold_left_app. apply remove_fold. apply Forall_forall. intros x (_ & _ & ?)%HR. done. }
  pose proof Hn as [l Hl]. pose proof (anc_path_length t (wf_tip _ _ _ t Hwf) _ _ Hl) as Hlen.
  exists {| fr_old_epoch := finalized_epoch t; fr_finalized := fin; fr_rejected := E ++ X |}, (set_finalized_epoch epoch t1).
  split_and!.
  - unfold update_finalized_epoch. rewrite Hep, (sanity_check_live t _ _ _ Hl) by lia. rewrite (proj2 (Z.eqb_neq _ _) Hnt).
    rewrite Hw, Hne. cbn [res_bind expect]. rewrite HE. cbn [res_bind]. rewrite HX. cbn [res_bind].
    destruct fin; [exfalso|done]. inversion Hpath as [|? ? ? ? ? Hp0]; subst; [by destruct Hnt|inversion Hp0].
  - split; simpl; try done.
    + intros x. by apply (after_live epoch Hep _ t1 Hrm HR).
    + intros x Hl'. unfold get_slot. simpl. apply (after_live epoch Hep _ t1 Hrm HR) in Hl'.
      assert (Hlx : live t x) by (by eapply descends_live). destruct (live_in_table t (wf_tip _ _ _ t Hwf) x Hlx) as [e He].
      destruct (rm_kept _ _ _ Hrm x e) as (e' & -> & Hs & _); [|done|by rewrite He; simpl; rewrite Hs].
      by apply (descends_not_removed _ HR).
    + intros x Hl'. apply (after_live epoch Hep _ t1 Hrm HR) in Hl'. rewrite (rm_tips _ _ _ Hrm).
      pose proof (descends_not_removed _ HR x Hl'). naive_solver.
    + intros x [? _]%(rm_tips _ _ _ Hrm). done.
    + destruct (wf_tip _ _ _ t Hwf) as [te Hte]. destruct (rm_kept _ _ _ Hrm tip te) as (? & ? & _); [|done|by eexists].
      intros (_ & _ & ?)%HR. done.
  - by apply (wf_after epoch Hep _ t1 Hrm HR).
Qed.
End final.

(** ** Blocks that are not live *)

Section operations.
Context (slot_of : OLBlockId -> Slot) (parent_of : OLBlockId -> OLBlockId) (g : OLBlockId).
Abbreviation wf := (tracker_wf slot_of parent_of g).

Lemma sanity_check_not_live t fuel id :
  wf t -> ~ live t id -> (size (filter (fun x => (slot_of x <= slot_of id)%Z) (dom (pending_table t))) < fuel)%nat ->
  sanity_check_parent_seq fuel t id = Some false.
Proof.
  intros Hwf. revert id. induction fuel as [|fuel IH]; intros id Hnl Hf; [lia|]. simpl.
  destruct (id =? finalized_tip t) eqn:Ht; zbool; [subst; by destruct Hnl; apply live_tip|].
  destruct (pending_table t !! id) as [e|] eqn:He; [|done].
  assert (Hnp : ~ live t (be_parent e)) by (intros H; by apply Hnl; eapply live_step).
  assert (Hid : id ∈ filter (fun x => slot_of x <= slot_of id) (dom (pending_table t))).
  { apply elem_of_filter. split; [lia|]. apply elem_of_dom. by eexists. }
  destruct (pending_table t !! be_parent e) as [pe|] eqn:Hpe.
  - apply IH; [done|]. assert (Hg : id <> g).
    { intros ->. rewrite (wf_parent _ _ _ t Hwf g e He) in Hpe. unfold recorded_parent in Hpe. rewrite Z.eqb_refl in Hpe.
      by rewrite (wf_zero _ _ _ t Hwf) in Hpe. }
    assert (Hlt : slot_of (be_parent e) < slot_of id).
    { rewrite (wf_parent _ _ _ t Hwf id e He). unfold recorded_parent. rewrite (proj2 (Z.eqb_neq _ _) Hg).
      apply (wf_up _ _ _ t Hwf); [by eexists|done]. }
    eapply Nat.lt_le_trans; [apply (subset_size _ (filter (fun x => slot_of x <= slot_of id) (dom (pending_table t))))|lia].
    split; [intros x; rewrite !elem_of_filter; intros [? ?]; split; [lia|done]|].
    intros Hsub. apply Hsub, elem_of_filter in Hid as [? _]. lia.
  - destruct fuel as [|fuel].
    { assert (Hz : size (filter (fun x => slot_of x <= slot_of id) (dom (pending_table t))) = 0%nat) by lia.
      apply size_empty_inv in Hz. set_solver. }
    simpl. rewrite Hpe. destruct (be_parent e =? finalized_tip t) eqn:Hpt; zbool; [|done].
    rewrite Hpt in Hpe. destruct (wf_tip _ _ _ t Hwf). congruence.
Qed.

(** ** The operations *)

Lemma attach_block_run t b :
  wf t -> b <> buf32_zero ->
  match attach_block (slot_of b) b (parent_of b) t with
  | (Ok _, t') =>
      wf t' /\
      (t' = t /\ is_Some (pending_table t !! b) \/
       pending_table t !! b = None /\ slot_of (parent_of b) < slot_of b /\
       exists pe, pending_table t !! parent_of b = Some pe /\ t' = attached slot_of parent_of t b pe)
  | (Err _, t') => t' = t /\ pending_table t !! b = None
  | (Panic, _) => False
  end.
Proof.
  intros Hwf Hz. unfold attach_block. destruct (pending_table t !! b) as [be|] eqn:Hb.
  { split; [done|]. left. split; [done|by eexists]. }
  destruct (pending_table t !! parent_of b) as [pe|] eqn:Hp; [|done].
  pose proof (wf_slot _ _ _ t Hwf _ pe Hp) as Hps. rewrite Hps. destruct (slot_of b <=? slot_of (parent_of b)) eqn:Hs; zbool; [done|].
  rewrite <- Hps. fold (attached slot_of parent_of t b pe). split; [by apply wf_attached|].
  right. split_and!; [done|lia|]. by exists pe.
Qed.

(** Trackers that arise from attaching blocks and finalizing epochs. *)
Inductive tracker_reachable (fin : EpochCommitment) : UnfinalizedBlockTracker -> Prop :=
| reach_new : tracker_reachable fin (new_empty fin)
| reach_attach t b r t' :
    tracker_reachable fin t -> b <> buf32_zero ->
    attach_block (slot_of b) b (parent_of b) t = (r, t') -> tracker_reachable fin t'
| reach_finalize t epoch r t' :
    tracker_reachable fin t -> update_finalized_epoch epoch t = (r, t') -> tracker_reachable fin t'.

Lemma update_finalized_epoch_run t epoch :
  wf t ->
  exists r t', update_finalized_epoch epoch t = (r, t') /\ wf t' /\
    (ec_last_blkid epoch = finalized_tip t /\ t' = t /\
       r = Ok {| fr_old_epoch := finalized_epoch t; fr_finalized := [ec_last_blkid epoch]; fr_rejected := [] |} \/
     ~ live t (ec_last_blkid epoch) /\ t' = t /\ r = Err (MissingBlock (ec_last_blkid epoch)) \/
     ec_last_blkid epoch <> finalized_tip t /\ live t (ec_last_blkid epoch) /\
       exists report, r = Ok report /\ finalizes t (ec_last_blkid epoch) epoch report t').
Proof.
  intros Hwf. destruct (live_dec t (wf_tip _ _ _ t Hwf) (ec_last_blkid epoch)) as [Hl|Hl].
  - destruct (decide (ec_last_blkid epoch = finalized_tip t)) as [Ht|Ht].
    + do 2 eexists. split; [|split; [exact Hwf|left; by split_and!]].
      unfold update_finalized_epoch. rewrite (sanity_check_live t _ _ [finalized_tip t]); [by rewrite Ht, Z.eqb_refl|..].
      * rewrite Ht. constructor.
      * simpl. lia.
    + destruct (update_finalized_epoch_live _ _ _ t Hwf _ Hl Ht epoch eq_refl) as (r & t' & Hr & Hf & Hw).
      exists (Ok r), t'. split_and!; [done..|]. right. right. split_and!; [done..|]. by exists r.
  - do 2 eexists. split; [|split; [exact Hwf|right; left; by split_and!]].
    unfold update_finalized_epoch. rewrite sanity_check_not_live; [done..|].
    apply Nat.lt_succ_r. rewrite <- (size_dom (D := gset OLBlockId)). apply subseteq_size.
    intros x. by rewrite elem_of_filter; intros [_ ?].
Qed.

Lemma tracker_reachable_wf fin t :
  ec_last_blkid fin = g -> ec_last_slot fin = slot_of g -> g <> buf32_zero -> tracker_reachable fin t -> wf t.
Proof.
  intros Hg Hs Hz. induction 1 as [|t b r t' _ IH Hb Ha|t epoch r t' _ IH Hu]; [by apply wf_new_empty| |].
  - pose proof (attach_block_run t b IH Hb) as H. rewrite Ha in H. destruct r; naive_solver.
  - destruct (update_finalized_epoch_run t epoch IH) as (r' & t2 & Hu' & Hw & _). congruence.
Qed.

(** C26: The tracker that arises from any sequence of attaching blocks and
    finalizing epochs, started from a finalized tip, keeps the tree of blocks on
    top of the finalized tip: entries have the slot and parent of their block,
    slots grow along the tree, children and chain tips of the live blocks are
    exact.  No finalization ends in a panic, so all walks end. *)
Theorem tracker_invariant fin t :
  ec_last_blkid fin = g -> ec_last_slot fin = slot_of g -> g <> buf32_zero -> tracker_reachable fin t ->
  wf t /\ forall epoch, fst (update_finalized_epoch epoch t) <> Panic.
Proof.
  intros Hg Hs Hz Ht. assert (Hwf : wf t) by (by eapply tracker_reachable_wf). split; [done|]. intros epoch.
  destruct (update_finalized_epoch_run t epoch Hwf) as (r & t' & -> & _ & Hr). simpl.
  destruct Hr as [(_ & _ & ->)|[(_ & _ & ->)|(_ & _ & rep & -> & _)]]; done.
Qed.

(** C25: Finalizing a live block reports the path from it to the old finalized
    tip and rejects exactly the blocks that are neither on that path nor after
    it; what stays live is what descends from it, with the same slots and chain
    tips.  Finalizing the current tip again changes nothing, and a block that is
    not live is refused without a change. *)
Theorem update_finalized_epoch_spec t epoch :
  wf t ->
  let n := ec_last_blkid epoch in
  (live t n -> n <> finalized_tip t ->
     exists r t', update_finalized_epoch epoch t = (Ok r, t') /\ wf t' /\ finalizes t n epoch r t') /\
  (n = finalized_tip t ->
     update_finalized_epoch epoch t = (Ok {| fr_old_epoch := finalized_epoch t; fr_finalized := [n]; fr_rejected := [] |}, t)) /\
  (~ live t n -> update_finalized_epoch epoch t = (Err (MissingBlock n), t)).
Proof.
  intros Hwf n. destruct (update_finalized_epoch_run t epoch Hwf) as (r & t' & -> & Hw & Hr). fold n in Hr.
  pose proof (live_tip t) as Htip.
  destruct Hr as [(Hn & -> & ->)|[(Hn & -> & ->)|(Hnt & Hl & rep & -> & Hf)]]; split_and!; try done; intros.
  - by rewrite Hn in *.
  - congruence.
  - by exists rep, t'.
Qed.

(** The previous finalized tip stays in the tracker: after a finalization
    a block on top of it is still attached, and becomes a chain tip that does
    not descend from the finalized one. *)
Theorem attach_to_old_tip t epoch r t' b :
  wf t -> live t (ec_last_blkid epoch) -> ec_last_blkid epoch <> finalized_tip t ->
  update_finalized_epoch epoch t = (Ok r, t') ->
  b <> buf32_zero -> pending_table t' !! b = None -> parent_of b = finalized_tip t -> slot_of (finalized_tip t) < slot_of b ->
  exists new t'', attach_block (slot_of b) b (parent_of b) t' = (Ok new, t'') /\
    b ∈ chain_tips_iter t'' /\ ~ live t'' b.
Proof.
  intros Hwf Hl Hnt Hu Hz Hb Hp Hs.
  destruct (update_finalized_epoch_live _ _ _ t Hwf _ Hl Hnt epoch eq_refl) as (r' & t2 & Hu' & Hf & Hw).
  rewrite Hu in Hu'. simplify_eq. destruct (fin_old_tip _ _ _ _ _ Hf) as [oe Hoe].
  assert (Hok : exists new, attach_block (slot_of b) b (parent_of b) t2 = (Ok new, attached slot_of parent_of t2 b oe)).
  { unfold attach_block. rewrite Hb, Hp, Hoe, (wf_slot _ _ _ t2 Hw _ oe Hoe).
    rewrite (proj2 (Z.leb_gt _ _) Hs). eexists. unfold attached. by rewrite Hp, (wf_slot _ _ _ t2 Hw _ oe Hoe). }
  destruct Hok as [new Hnew]. exists new, (attached slot_of parent_of t2 b oe). split_and!; [done| |].
  - unfold chain_tips_iter. apply elem_of_elements. simpl. set_solver.
  - rewrite attached_live by (rewrite ?Hp; done || lia). intros [Hlb|[_ Hlo]].
    + apply live_in_table in Hlb as [? ?]; [congruence|apply Hw].
    + rewrite Hp in Hlo. apply (fin_live _ _ _ _ _ Hf), descends_of_tip in Hlo. done.
Qed.
End operations.
