(* ===== verification/TipUpdate.v ===== *)
(** * Planning a tip update ([crates/consensus-logic/src/tip_update.rs])

    The path from the current chain tip to a new one: an extension, a reorg or
    a revert.  [usize] depths are natural numbers. *)

From S2P Require Import Prelude Identifiers Tracker.

Record Reorg := {
  reorg_down : list OLBlockId;
  reorg_pivot : OLBlockId;
  reorg_up : list OLBlockId;
}.

Definition Reorg_old_tip (r : Reorg) : OLBlockId :=
  match reorg_down r with [] => reorg_pivot r | b :: _ => b end.
Definition Reorg_new_tip (r : Reorg) : OLBlockId :=
  match last (reorg_up r) with None => reorg_pivot r | Some b => b end.
Definition Reorg_is_weird (r : Reorg) : bool :=
  bool_decide (reorg_up r = []) || bool_decide (reorg_down r = []).
Definition Reorg_is_identity (r : Reorg) : bool :=
  bool_decide (reorg_up r = []) && bool_decide (reorg_down r = []).

Inductive TipUpdate :=
| ExtendTip (old new : OLBlockId)
| TipReorg (r : Reorg)
| Revert (old new : OLBlockId)
| LongExtend (old : OLBlockId) (intermediate : list OLBlockId) (new : OLBlockId).

Definition TipUpdate_new_tip (u : TipUpdate) : OLBlockId :=
  match u with
  | ExtendTip _ new => new
  | TipReorg r => Reorg_new_tip r
  | Revert _ new => new
  | LongExtend _ _ new => new
  end.

Definition TipUpdate_old_tip (u : TipUpdate) : OLBlockId :=
  match u with
  | ExtendTip old _ => old
  | TipReorg r => Reorg_old_tip r
  | Revert old _ => old
  | LongExtend old _ _ => old
  end.

Definition TipUpdate_is_reverting (u : TipUpdate) : bool :=
  match u with
  | TipReorg r => negb (bool_decide (reorg_down r = []))
  | Revert _ _ => true
  | _ => false
  end.

(** [l.iter().position(|y| y == x)]. *)
Fixpoint position (x : OLBlockId) (l : list OLBlockId) : option nat :=
  match l with
  | [] => None
  | y :: l' => if y =? x then Some O else S <$> position x l'
  end.

(** The loop over both paths, lowest block first; [acc] is [pivot_idx]. *)
Fixpoint find_pivot (i : nat) (down up : list OLBlockId) (acc : option nat) : option nat :=
  match down, up with
  | d :: down', u :: up' => if d =? u then find_pivot (S i) down' up' (Some i) else acc
  | _, _ => acc
  end.

Definition compute_tip_update {E} (start dest : OLBlockId) (limit_depth : nat) (tracker : UnfinalizedBlockTracker)
    : res E (option TipUpdate) :=
  if start =? dest then Ok None
  else
    let! dest_parent := expect (get_parent tracker dest) in
    if dest_parent =? start then Ok (Some (ExtendTip start dest))
    else
      let down_blocks := successors limit_depth tracker start in
      let up_blocks := successors limit_depth tracker dest in
      match last down_blocks, last up_blocks with
      | Some down_last, Some up_last =>
          match
            match position down_last up_blocks with
            | Some pos => Some (down_blocks, take (S pos) up_blocks)
            | None =>
                match position up_last down_blocks with
                | Some pos => Some (take (S pos) down_blocks, up_blocks)
                | None => None
                end
            end
          with
          | None => Ok None
          | Some (down_blocks, up_blocks) =>
              let down_blocks := rev down_blocks in
              let up_blocks := rev up_blocks in
              match find_pivot O down_blocks up_blocks None with
              | None => Ok None
              | Some pivot_idx =>
                  let! pivot := expect (up_blocks !! pivot_idx) in
                  let down := rev (drop (S pivot_idx) down_blocks) in
                  let up := drop (S pivot_idx) up_blocks in
                  match up with
                  | [] => Ok (Some (Revert start dest))
                  | _ =>
                      match down with
                      | [] =>
                          let! last_up := expect (last up) in
                          match removelast up with
                          | [] => Ok (Some (ExtendTip pivot last_up))
                          | up' => Ok (Some (LongExtend pivot up' last_up))
                          end
                      | _ => Ok (Some (TipReorg {| reorg_down := down; reorg_pivot := pivot; reorg_up := up |}))
                      end
                  end
              end
          end
      | _, _ => Ok None
      end.

(** ** List searches *)

Lemma position_none x l : x ∉ l -> position x l = None.
Proof.
  induction l as [|y l IH]; intros Hx; simpl; [done|]. apply not_elem_of_cons in Hx as [Hne Hx].
  rewrite (proj2 (Z.eqb_neq y x)) by done. by rewrite IH.
Qed.

Lemma position_at x l1 l2 : x ∉ l1 -> position x (l1 ++ x :: l2) = Some (length l1).
Proof.
  induction l1 as [|y l1 IH]; intros Hx; simpl; [by rewrite Z.eqb_refl|]. apply not_elem_of_cons in Hx as [Hne Hx].
  rewrite (proj2 (Z.eqb_neq y x)) by done. by rewrite IH.
Qed.

Lemma find_pivot_app c i down up acc :
  find_pivot i (c ++ down) (c ++ up) acc =
    find_pivot (i + length c) down up (match c with [] => acc | _ => Some (i + length c - 1)%nat end).
Proof.
  revert i acc. induction c as [|x c IH]; intros i acc; simpl; [by rewrite Nat.add_0_r|].
  rewrite Z.eqb_refl, IH. f_equal; [lia|]. destruct c; simpl; f_equal; lia.
Qed.

Lemma find_pivot_disjoint i down up acc : (forall x, x ∈ down -> x ∉ up) -> find_pivot i down up acc = acc.
Proof.
  intros Hd. destruct down as [|d down], up as [|u up]; simpl; try done.
  destruct (d =? u) eqn:He; zbool; [|done]. subst. exfalso. apply (Hd u); by left.
Qed.

(** Searching a block of the common part [base] in a walk cut after [m] of its
    blocks. *)
Lemma position_cut pre base i m x :
  NoDup (pre ++ base) -> base !! i = Some x ->
  position x (pre ++ take m base) = if decide (i < m)%nat then Some (length pre + i)%nat else None.
Proof.
  intros Hnd Hx. apply NoDup_app in Hnd as (_ & Hdis & Hnd).
  assert (Hpre : x ∉ pre) by (intros H; apply (Hdis x H); by eapply list_elem_of_lookup_2).
  assert (Hi : forall k, (k <= i)%nat -> x ∉ take k base).
  { intros k Hk (j & Hj & ?)%elem_of_take. pose proof (NoDup_lookup base i j x Hnd Hx Hj). lia. }
  case_decide as Him.
  - assert (Hsplit : take m base = take i base ++ x :: drop (S i) (take m base)).
    { rewrite <- (take_drop_middle (take m base) i x) at 1.
      - rewrite take_take. f_equal. f_equal. lia.
      - by rewrite lookup_take_lt. }
    rewrite Hsplit, app_assoc, position_at.
    + rewrite length_app, length_take. apply lookup_lt_Some in Hx. f_equal. lia.
    + apply not_elem_of_app. split; [done|by apply Hi].
  - apply position_none, not_elem_of_app. split; [done|]. apply Hi. lia.
Qed.

Lemma take_cut {A} (pre base : list A) i m :
  (i < m)%nat -> take (S (length pre + i)) (pre ++ take m base) = pre ++ take (S i) base.
Proof.
  intros Hi. rewrite take_app, take_ge by lia. f_equal. rewrite take_take. f_equal. lia.
Qed.

Lemma last_cut {A} (pre base : list A) m :
  base <> [] -> (0 < m)%nat ->
  exists i x, (i < m)%nat /\ base !! i = Some x /\ (m <= S i \/ length base <= S i)%nat /\
    last (pre ++ take m base) = Some x /\ take m base = take (S i) base.
Proof.
  intros Hb Hm. set (i := (Nat.min m (length base) - 1)%nat).
  assert (Hlen : (0 < length base)%nat) by (destruct base; [done|simpl; lia]).
  destruct (lookup_lt_is_Some_2 base i) as [x Hx]; [lia|].
  assert (Htake : take m base = take (S i) base).
  { rewrite <- (firstn_all base) at 1. rewrite take_take. f_equal. lia. }
  exists i, x. split_and!; [lia|done|lia| |done].
  rewrite Htake, (take_S_r base i x Hx), app_assoc. apply last_snoc.
Qed.

(** ** The path of an update

    [fork t start dest down pivot up]: walking down from [start] through [down]
    and from [dest] through the reverse of [up] meets first at [pivot]. *)

Section spec.
Context (t : UnfinalizedBlockTracker).

Record fork (start dest : OLBlockId) (down : list OLBlockId) (pivot : OLBlockId) (up : list OLBlockId) : Prop := {
  fork_down : exists base, anc_path t start (down ++ pivot :: base) /\ anc_path t dest (rev up ++ pivot :: base);
  fork_disjoint x : x ∈ down -> x ∉ up;
}.

Lemma fork_exists start dest : live t start -> live t dest -> exists down pivot up, fork start dest down pivot up.
Proof.
  intros [ls Hs] [ld Hd]. revert dest ld Hd. induction Hs as [|id e l Hne He Hp IH]; intros dest ld Hd.
  - pose proof (anc_path_tip _ _ _ Hd) as Hin.
    destruct (anc_path_suffix _ _ _ _ Hd Hin) as (l1 & l2 & -> & H2).
    pose proof (anc_path_fun _ _ _ _ H2 (anc_tip t)) as ->.
    exists [], (finalized_tip t), (rev l1). split; [exists []|set_solver]. rewrite rev_involutive. split; [constructor|done].
  - assert (Hid : anc_path t id (id :: l)) by (by econstructor).
    destruct (decide (id ∈ ld)) as [Hin|Hin].
    + destruct (anc_path_suffix _ _ _ _ Hd Hin) as (l1 & l2 & -> & H2).
      pose proof (anc_path_fun _ _ _ _ H2 Hid) as ->.
      exists [], id, (rev l1). split; [exists l|set_solver]. rewrite rev_involutive. done.
    + destruct (IH dest ld Hd) as (down & pivot & up & [(base & Hb1 & Hb2) Hdis]).
      rewrite (anc_path_fun _ _ _ _ Hp Hb1) in *. rewrite (anc_path_fun _ _ _ _ Hd Hb2) in Hin.
      exists (id :: down), pivot, up. split; [by exists base|].
      intros x [->|Hx]%elem_of_cons; [|by apply Hdis]. intros Hup. apply Hin, elem_of_app. left.
      rewrite list_elem_of_In, <- in_rev, <- list_elem_of_In. done.
Qed.

(** The update along a path, as the source classifies it. *)
Definition update_of (start dest : OLBlockId) (down : list OLBlockId) (pivot : OLBlockId) (up : list OLBlockId) : TipUpdate :=
  match up, down with
  | [], _ => Revert start dest
  | [_], [] => ExtendTip start dest
  | _, [] => LongExtend start (removelast up) dest
  | _, _ => TipReorg {| reorg_down := down; reorg_pivot := pivot; reorg_up := up |}
  end.

Section along.
Context (start dest : OLBlockId) (down up base : list OLBlockId) (pivot : OLBlockId).
Context (Hs : anc_path t start (down ++ pivot :: base)) (Hd : anc_path t dest (rev up ++ pivot :: base)).
Context (Hdis : forall x, x ∈ down -> x ∉ up).

Lemma extends_iff de :
  pending_table t !! dest = Some de -> dest <> finalized_tip t -> be_parent de = start <-> down = [] /\ up = [dest].
Proof.
  intros Hde Ht. assert (exists dl, anc_path t (be_parent de) dl /\ dest :: dl = rev up ++ pivot :: base) as (dl & Hdl & Heq).
  { remember (rev up ++ pivot :: base) as l eqn:Hl. clear Hl. destruct Hd; [done|]. simplify_eq. by eexists. }
  split.
  - intros Hp. rewrite Hp in Hdl. rewrite (anc_path_fun _ _ _ _ Hdl Hs) in Heq.
    assert (Hlen : length (rev up) = S (length down)).
    { apply (f_equal length) in Heq. simpl in Heq. rewrite !length_app in Heq. simpl in Heq. lia. }
    destruct (rev up) as [|u up'] eqn:Hup; [done|]. simpl in Heq. injection Heq as <- Heq.
    apply app_inj_2 in Heq as [<- _]; [|done].
    destruct down as [|x down']; [|exfalso; apply (Hdis x); [by left|]].
    + split; [done|]. rewrite <- (rev_involutive up), Hup. done.
    + rewrite list_elem_of_In, in_rev, Hup. right. by left.
  - intros [-> ->]. simpl in *. injection Heq as ->. destruct (anc_path_head _ _ _ Hs) as [? Hh].
    destruct (anc_path_head _ _ _ Hdl) as [? Hh']. congruence.
Qed.

(** Once both walks have been cut at the same block [m] below the pivot. *)
Lemma pivot_found m :
  (0 < m)%nat -> start <> dest ->
  let down_blocks := rev (down ++ take m (pivot :: base)) in
  let up_blocks := rev (rev up ++ take m (pivot :: base)) in
  exists i, find_pivot O down_blocks up_blocks None = Some i /\ up_blocks !! i = Some pivot /\
    rev (drop (S i) down_blocks) = down /\ drop (S i) up_blocks = up.
Proof.
  intros Hm Hne down_blocks up_blocks. destruct m as [|m]; [lia|]. unfold down_blocks, up_blocks. cbn [take].
  set (low := rev (take m base) ++ [pivot]).
  assert (Hlow : length low = S (length (take m base))).
  { unfold low. rewrite length_app, length_rev. simpl. lia. }
  assert (Hdb : rev (down ++ pivot :: take m base) = low ++ rev down).
  { by rewrite rev_app_distr. }
  assert (Hub : rev (rev up ++ pivot :: take m base) = low ++ up).
  { by rewrite rev_app_distr, rev_involutive. }
  rewrite Hdb, Hub. exists (length low - 1)%nat. split_and!.
  - rewrite find_pivot_app. rewrite find_pivot_disjoint; [by destruct low; [|f_equal; simpl; lia]|].
    intros x Hx. apply Hdis. rewrite list_elem_of_In in *. by apply in_rev.
  - rewrite lookup_app_l by lia. unfold low. rewrite lookup_app_r by (rewrite length_app, length_rev; simpl; lia).
    rewrite length_app, length_rev. simpl. replace (_ - _)%nat with O by lia. done.
  - replace (S (length low - 1)) with (length low) by lia. by rewrite drop_app_length, rev_involutive.
  - replace (S (length low - 1)) with (length low) by lia. by rewrite drop_app_length.
Qed.

Lemma update_classified E :
  start <> dest ->
  match up with
  | [] => Ok (Some (Revert start dest))
  | _ =>
      match down with
      | [] =>
          let! last_up := expect (last up) in
          match removelast up with
          | [] => Ok (Some (ExtendTip pivot last_up))
          | up' => Ok (Some (LongExtend pivot up' last_up))
          end
      | _ => Ok (Some (TipReorg {| reorg_down := down; reorg_pivot := pivot; reorg_up := up |}))
      end
  end = Ok (E := E) (Some (update_of start dest down pivot up)).
Proof.
  intros Hne. destruct up as [|u up'] eqn:Hup; [done|]. destruct down as [|d down'] eqn:Hdown; [|by destruct up'].
  assert (pivot = start) as -> by (destruct (anc_path_head _ _ _ Hs); simpl in *; congruence).
  assert (Hlast : last (u :: up') = Some dest).
  { destruct (anc_path_head _ _ _ Hd) as [l Hl]. rewrite <- (rev_involutive (u :: up')).
    destruct (rev (u :: up')) as [|x l'] eqn:Hr.
    - apply (f_equal (@length _)) in Hr. rewrite length_rev in Hr. done.
    - injection Hl as -> _. cbn [rev]. apply last_snoc. }
  rewrite Hlast. cbn [expect res_bind]. destruct up' as [|u' up'']; [done|].
  unfold update_of. by destruct (removelast (u :: u' :: up'')) eqn:Hr.
Qed.

(** The end of one walk is found in the other one, which is cut there. *)
Lemma walks_cut L :
  (length down < L)%nat -> (length up < L)%nat ->
  let down_blocks := take L (down ++ pivot :: base) in
  let up_blocks := take L (rev up ++ pivot :: base) in
  exists m down_last up_last, (0 < m)%nat /\ last down_blocks = Some down_last /\ last up_blocks = Some up_last /\
    match position down_last up_blocks with
    | Some pos => Some (down_blocks, take (S pos) up_blocks)
    | None =>
        match position up_last down_blocks with
        | Some pos => Some (take (S pos) down_blocks, up_blocks)
        | None => None
        end
    end = Some (down ++ take m (pivot :: base), rev up ++ take m (pivot :: base)).
Proof.
  intros Hdl Hul down_blocks up_blocks. unfold down_blocks, up_blocks. set (b := pivot :: base) in *.
  pose proof (anc_path_NoDup _ _ _ Hs) as Hnd1. pose proof (anc_path_NoDup _ _ _ Hd) as Hnd2.
  assert (Hd1 : take L (down ++ b) = down ++ take (L - length down) b) by (rewrite take_app, take_ge by lia; done).
  assert (Hd2 : take L (rev up ++ b) = rev up ++ take (L - length up) b).
  { rewrite take_app, take_ge by (rewrite length_rev; lia). by rewrite length_rev. }
  rewrite Hd1, Hd2.
  destruct (last_cut down b (L - length down)) as (i & x & Hi & Hx & Hi' & Hlx & Htx); [done|lia|].
  destruct (last_cut (rev up) b (L - length up)) as (j & y & Hj & Hy & Hj' & Hly & Hty); [done|lia|].
  pose proof (lookup_lt_Some _ _ _ Hx). pose proof (lookup_lt_Some _ _ _ Hy).
  pose proof (position_cut _ _ i (L - length up) x Hnd2 Hx) as Hpx. rewrite length_rev in Hpx.
  pose proof (position_cut _ _ j (L - length down) y Hnd1 Hy) as Hpy.
  exists (if decide (i < L - length up)%nat then S i else S j), x, y. rewrite Hlx, Hly, Hpx, Hpy.
  split_and!; [destruct (decide (i < _)%nat); lia|done..|]. pose proof (take_cut (rev up) b i (L - length up)) as Hcu. rewrite length_rev in Hcu.
  destruct (decide (i < _)%nat); [by rewrite Hcu, Htx|]. rewrite decide_True by lia. by rewrite take_cut, Hty by lia.
Qed.

(** Too deep a fork: the walks have nothing in common. *)
Lemma walks_apart L x y :
  (L <= length down \/ L <= length up)%nat ->
  last (take L (down ++ pivot :: base)) = Some x -> last (take L (rev up ++ pivot :: base)) = Some y ->
  position x (take L (rev up ++ pivot :: base)) = None /\ position y (take L (down ++ pivot :: base)) = None.
Proof.
  intros HL Hx%last_Some_elem_of Hy%last_Some_elem_of.
  pose proof (anc_path_NoDup _ _ _ Hs) as (_ & Hnd1 & _)%NoDup_app. pose proof (anc_path_NoDup _ _ _ Hd) as (_ & Hnd2 & _)%NoDup_app.
  assert (Hup : forall z, z ∈ rev up <-> z ∈ up) by (intros z; by rewrite !list_elem_of_In, <- in_rev).
  assert (Happ : forall (l : list OLBlockId) z, z ∈ take L l -> z ∈ l) by (intros l z (k & Hk & _)%elem_of_take; by eapply list_elem_of_lookup_2).
  assert (Hcommon : forall z, z ∈ take L (down ++ pivot :: base) -> z ∈ take L (rev up ++ pivot :: base) -> False).
  { intros z Hz1 Hz2. destruct HL as [HL|HL].
    - rewrite take_app_le in Hz1 by done. apply Happ in Hz1, Hz2. apply elem_of_app in Hz2 as [Hz2%Hup|Hz2]; [by eapply Hdis|by eapply Hnd1].
    - rewrite take_app_le in Hz2 by (by rewrite length_rev). apply Happ in Hz1, Hz2.
      apply elem_of_app in Hz1 as [Hz1|Hz1]; [eapply Hdis; [done|by apply Hup]|by eapply Hnd2]. }
  split; apply position_none; intros H; by eapply Hcommon.
Qed.
End along.

Lemma compute_tip_update_fork E start dest limit_depth down pivot up :
  fork start dest down pivot up -> dest <> finalized_tip t -> start <> dest ->
  compute_tip_update (E := E) start dest limit_depth t =
    Ok (if bool_decide (down = [] /\ up = [dest]) || bool_decide (length down < limit_depth /\ length up < limit_depth)%nat
        then Some (update_of start dest down pivot up) else None).
Proof.
  intros [(base & Hs & Hd) Hdis] Ht Hne. unfold compute_tip_update. rewrite (proj2 (Z.eqb_neq _ _) Hne).
  assert (Hpar : exists p, get_parent t dest = Some p /\ (p = start <-> down = [] /\ up = [dest])).
  { inversion Hd as [|? de dl _ Hde Hdl]; subst; [done|]. exists (be_parent de). unfold get_parent.
    rewrite (proj2 (Z.eqb_neq _ _) Ht), Hde. split; [done|]. by apply (extends_iff start dest down up base pivot). }
  destruct Hpar as (p & -> & Hpar). cbn [expect res_bind].
  destruct (p =? start) eqn:Hp; zbool.
  { apply Hpar in Hp as [-> ->]. by rewrite bool_decide_true. }
  rewrite bool_decide_false by (by intros H; apply Hp, Hpar). cbn [orb].
  rewrite (successors_path _ _ _ _ Hs), (successors_path _ _ _ _ Hd).
  case_bool_decide as HL.
  - destruct (walks_cut start dest down up base pivot Hs Hd limit_depth) as (m & x & y & Hm & -> & -> & ->); [tauto..|].
    destruct (pivot_found start dest down up base pivot Hdis m Hm Hne) as (i & -> & -> & -> & ->). cbn [expect res_bind].
    by apply (update_classified _ _ _ _ base).
  - destruct (last (take limit_depth (down ++ pivot :: base))) as [x|] eqn:Hx; [|done].
    destruct (last (take limit_depth (rev up ++ pivot :: base))) as [y|] eqn:Hy; [|done].
    destruct (walks_apart start dest down up base pivot Hs Hd Hdis limit_depth x y) as [-> ->]; [lia|done..].
Qed.

(** C27: For live blocks the planned update follows the tree: [down] leads from
    the current tip to the first common ancestor, [pivot], and [up] from there to
    the new tip.  It is found exactly if both parts are shorter than the search
    depth (or the new tip is a child of the current one), and is an extension, a
    long extension, a revert or a reorg according to their shape.  Asking for the
    finalized tip from another block panics. *)
Theorem compute_tip_update_spec E start dest limit_depth :
  live t start -> live t dest ->
  (start = dest -> compute_tip_update (E := E) start dest limit_depth t = Ok None) /\
  (start <> dest -> dest = finalized_tip t -> compute_tip_update (E := E) start dest limit_depth t = Panic) /\
  (start <> dest -> dest <> finalized_tip t ->
     exists down pivot up, fork start dest down pivot up /\
       compute_tip_update (E := E) start dest limit_depth t =
         Ok (if bool_decide (down = [] /\ up = [dest]) || bool_decide (length down < limit_depth /\ length up < limit_depth)%nat
             then Some (update_of start dest down pivot up) else None)).
Proof.
  intros Hs Hd. unfold compute_tip_update at 1 2. split_and!.
  - intros ->. by rewrite Z.eqb_refl.
  - intros Hne ->. unfold get_parent. by rewrite (proj2 (Z.eqb_neq _ _) Hne), Z.eqb_refl.
  - intros Hne Ht. destruct (fork_exists start dest Hs Hd) as (down & pivot & up & Hf).
    exists down, pivot, up. split; [done|]. by apply compute_tip_update_fork.
Qed.
End spec.
