(* ===== verification/ForkChoice.v ===== *)
(** * The fork choice manager
    ([crates/consensus-logic/src/fcm/{state,service,context}.rs],
    [unfinalized_tracker/ol.rs])

    The service that executes incoming blocks, attaches them to the tracker,
    follows the highest tip, keeps the canonical block index in step with it, and
    finalizes epochs the client state machine reports.  The trait [FcmContext]
    over chain worker, status and storage is a class; its methods that write
    change the context.  Logging, metrics and the bail hook of the tests are left
    out. *)

From S2P Require Import Prelude Identifiers ChainTypes Externals OLState Tracker TipUpdate.

(** ** [ol/chain-types/src/validation.rs] *)

Inductive PredicateTypeId := NeverAccept | AlwaysAccept | Bip340Schnorr | Sp1Groth16.

#[export] Instance PredicateTypeId_eq_dec : EqDecision PredicateTypeId.
Proof. solve_decision. Defined.

(** Predicate keys and signatures, and the null epoch. *)
Class FcmExt {ET : ExtTypes} := {
  predicate_id : PredicateKey -> Z;
  predicate_type_u8 : PredicateTypeId -> Z;
  predicate_type_try_from : Z -> option PredicateTypeId;
  condition_as_buf32 : PredicateKey -> option Buf32;
  verify_schnorr_sig : Z -> Buf32 -> Buf32 -> bool;
  epoch_null : EpochCommitment;
  epoch_is_null : EpochCommitment -> bool;
}.

Definition sequencer_predicate_requires_signature `{FX : FcmExt} (sequencer_predicate : PredicateKey) : bool :=
  negb (predicate_id sequencer_predicate =? predicate_type_u8 AlwaysAccept).

Definition verify_sequencer_predicate_signature `{FX : FcmExt} (sequencer_predicate : PredicateKey) (msg : Buf32) (sig : Z) : bool :=
  match predicate_type_try_from (predicate_id sequencer_predicate) with
  | None => false
  | Some NeverAccept => false
  | Some AlwaysAccept => true
  | Some Bip340Schnorr =>
      match condition_as_buf32 sequencer_predicate with
      | None => false
      | Some pubkey => verify_schnorr_sig sig msg pubkey
      end
  | Some Sp1Groth16 => false
  end.

(** ** [errors.rs]

    The errors the manager raises; those of the context are not told apart. *)
Inductive FcmError :=
| MissingOLBlock (blkid : OLBlockId)
| MissingOLState (block : OLBlockCommitment)
| MissingBlockSignature (blkid : OLBlockId)
| InvalidBlockSignature (blkid : OLBlockId)
| UnexpectedGenesisBlock (blkid : OLBlockId)
| InvalidOLReorgPivot (pivot tip : OLBlockCommitment)
| InvalidOLReorgEmptyDownPivot (expected got : OLBlockCommitment)
| OLApplyBlockParentMismatch (block expected : OLBlockCommitment) (got : OLBlockId)
| OLApplyTipMismatch (expected got : OLBlockCommitment)
| FcmNoChainTips
| FcmCanonicalSuffixAboveMaxSlot (slot : Slot)
| FcmCanonicalChainNotFinalized (tip finalized : OLBlockId)
| FcmCanonicalFinalizedMismatch (slot : Slot) (canonical : option OLBlockCommitment) (finalized : OLBlockId)
| FcmCanonicalTrackerMissingBlock (blkid : OLBlockId)
| FcmCanonicalParentSlotNotDescending (parent_slot child_slot : Slot) (tip : OLBlockCommitment)
| FinalizeOldEpoch (epoch finalized : EpochCommitment)
| ChainTip (e : ChainTipError)
| MissingCanonicalBlock (slot : Slot)
| CanonicalTargetMismatch (canonical target : OLBlockCommitment)
| MissingPrevEpochCommitment (epoch : Epoch)
| ContextError.

Inductive BlockStatus := Unchecked | Valid | Invalid.

Record ChainSyncStatus := {
  css_tip : OLBlockCommitment;
  css_tip_epoch : Epoch;
  css_tip_is_terminal : bool;
  css_recently_complete_epoch : EpochCommitment;
  css_confirmed_epoch : EpochCommitment;
  css_finalized_epoch : EpochCommitment;
  css_safe_l1 : L1BlockCommitment;
}.

Section fcm.
Context `{XR : ExtRoot} `{FX : !FcmExt}.

Record OLMmrReconcileTarget := {
  rt_block : OLBlockCommitment;
  rt_epoch : Epoch;
  rt_state : OLState;
  rt_rejected_indexing_blocks : list OLBlockCommitment;
}.

(** ** [context.rs] *)

Class FcmContext (C : Type) := {
  (** [UnfinalizedOLBlockSource] *)
  get_blocks_at_height : C -> Slot -> res FcmError (list OLBlockId);
  get_block_status : C -> OLBlockId -> res FcmError (option BlockStatus);
  get_ol_block : C -> OLBlockId -> res FcmError (option OLBlock);
  get_ol_header : C -> OLBlockId -> res FcmError (option OLBlockHeader);
  (** [ChainController] *)
  try_exec_block : OLBlockCommitment -> M FcmError C unit;
  update_safe_tip : OLBlockCommitment -> M FcmError C unit;
  ctx_finalize_epoch : EpochCommitment -> M FcmError C unit;
  (** [CsmStatusReader] *)
  last_finalized_epoch : C -> option EpochCommitment;
  last_confirmed_epoch : C -> option EpochCommitment;
  (** [FcmStorage] *)
  set_block_status : OLBlockId -> BlockStatus -> M FcmError C bool;
  clear_block_high_watermark : OLBlockCommitment -> M FcmError C bool;
  get_block_high_watermark : C -> res FcmError (option OLBlockCommitment);
  get_history_base : C -> res FcmError (option EpochCommitment);
  rollback_block_state_indexing : Epoch -> OLBlockCommitment -> M FcmError C unit;
  del_epoch_summary : EpochCommitment -> M FcmError C bool;
  get_toplevel_ol_state : C -> OLBlockCommitment -> res FcmError (option OLState);
  get_canonical_block_at : C -> Slot -> res FcmError (option OLBlockCommitment);
  replace_canonical_suffix_from : Slot -> list OLBlockId -> M FcmError C unit;
  fcm_canonical_epoch_commitment_at : C -> Epoch -> res FcmError (option EpochCommitment);
  (** [FcmStartupReconciler] and [FcmContext] *)
  reconcile_ol_mmr_index : OLMmrReconcileTarget -> M FcmError C unit;
  ctx_publish_sync_status : ChainSyncStatus -> C -> C;
}.

(** ** [state.rs] *)

Record FcmInnerState := {
  chain_tracker : UnfinalizedBlockTracker;
  cur_best_block : OLBlockCommitment;
  cur_olstate : OLState;
  startup_replay_candidates : list OLBlockId;
  epochs_pending_finalization : list EpochCommitment;
}.

Definition FcmInnerState_new (tracker : UnfinalizedBlockTracker) (best : OLBlockCommitment) (st : OLState)
    (candidates : list OLBlockId) : FcmInnerState :=
  {| chain_tracker := tracker; cur_best_block := best; cur_olstate := st;
     startup_replay_candidates := candidates; epochs_pending_finalization := [] |}.

Context {C : Type} `{FC : !FcmContext C}.

Record FcmServiceState := {
  fcm_ctx : C;
  sequencer_predicate : PredicateKey;
  inner_state : FcmInnerState;
}.

Abbreviation F := (M FcmError FcmServiceState).

Definition set_inner (f : FcmInnerState -> FcmInnerState) (s : FcmServiceState) : FcmServiceState :=
  {| fcm_ctx := fcm_ctx s; sequencer_predicate := sequencer_predicate s; inner_state := f (inner_state s) |}.
Definition set_tracker (t : UnfinalizedBlockTracker) (i : FcmInnerState) : FcmInnerState :=
  {| chain_tracker := t; cur_best_block := cur_best_block i; cur_olstate := cur_olstate i;
     startup_replay_candidates := startup_replay_candidates i;
     epochs_pending_finalization := epochs_pending_finalization i |}.
Definition set_tip (b : OLBlockCommitment) (st : OLState) (i : FcmInnerState) : FcmInnerState :=
  {| chain_tracker := chain_tracker i; cur_best_block := b; cur_olstate := st;
     startup_replay_candidates := startup_replay_candidates i;
     epochs_pending_finalization := epochs_pending_finalization i |}.
Definition set_candidates (l : list OLBlockId) (i : FcmInnerState) : FcmInnerState :=
  {| chain_tracker := chain_tracker i; cur_best_block := cur_best_block i; cur_olstate := cur_olstate i;
     startup_replay_candidates := l; epochs_pending_finalization := epochs_pending_finalization i |}.
Definition set_pending (l : list EpochCommitment) (i : FcmInnerState) : FcmInnerState :=
  {| chain_tracker := chain_tracker i; cur_best_block := cur_best_block i; cur_olstate := cur_olstate i;
     startup_replay_candidates := startup_replay_candidates i; epochs_pending_finalization := l |}.

(** Running on the context and on the tracker. *)
Definition on_ctx {A} (m : M FcmError C A) : F A := fun s =>
  let '(r, c) := m (fcm_ctx s) in
  (r, {| fcm_ctx := c; sequencer_predicate := sequencer_predicate s; inner_state := inner_state s |}).
Definition ctx_read {A} (f : C -> res FcmError A) : F A := mreads_res (fun s => f (fcm_ctx s)).
Definition on_tracker {A} (m : M ChainTipError UnfinalizedBlockTracker A) : F A := fun s =>
  let '(r, t) := m (chain_tracker (inner_state s)) in
  (res_map_err ChainTip r, set_inner (set_tracker t) s).

Definition best (s : FcmServiceState) : OLBlockCommitment := cur_best_block (inner_state s).
Definition tracker (s : FcmServiceState) : UnfinalizedBlockTracker := chain_tracker (inner_state s).

Definition latest_observed_finalized_epoch (s : FcmServiceState) : EpochCommitment :=
  default (finalized_epoch (tracker s)) (last (epochs_pending_finalization (inner_state s))).

Definition record_observed_finalized_epoch (epoch : EpochCommitment) : F bool := fun s =>
  let latest := latest_observed_finalized_epoch s in
  let queued := (Ok true, set_inner (fun i => set_pending (epochs_pending_finalization i ++ [epoch]) i) s) in
  if epoch_is_null epoch then (Ok false, s)
  else if 0 <? ec_last_slot latest then
    let epoch_advances := ec_epoch latest <? ec_epoch epoch in
    let block_advances := ec_last_slot latest <? ec_last_slot epoch in
    if bool_decide (epoch = latest) then (Ok false, s)
    else if negb epoch_advances || negb block_advances then (Ok false, s)
    else queued
  else queued.

Definition take_startup_replay_candidates : F (list OLBlockId) := fun s =>
  (Ok (startup_replay_candidates (inner_state s)), set_inner (set_candidates []) s).

Definition update_tip_block (block : OLBlockCommitment) (st : OLState) : F unit :=
  mmodify (set_inner (set_tip block st)) ;;; on_ctx (update_safe_tip block).

(** The epoch before the current one. *)
Definition prev_epoch_of (st : OLState) : Epoch := Z.max 0 (es_cur_epoch (ol_epoch st) - 1).

(** The last pending epoch up to [prev_epoch], with its index from [i]. *)
Fixpoint rfind_epoch (prev_epoch : Epoch) (i : nat) (l : list EpochCommitment) : option (nat * EpochCommitment) :=
  match l with
  | [] => None
  | e :: l' =>
      match rfind_epoch prev_epoch (S i) l' with
      | Some r => Some r
      | None => if ec_epoch e <=? prev_epoch then Some (i, e) else None
      end
  end.

Definition find_latest_pending_finalizable_epoch (s : FcmServiceState) : option (nat * EpochCommitment) :=
  let prev_epoch := prev_epoch_of (cur_olstate (inner_state s)) in
  if prev_epoch =? 0 then None
  else rfind_epoch prev_epoch O (epochs_pending_finalization (inner_state s)).

Fixpoint pop_pending (epoch : EpochCommitment) (l : list EpochCommitment) : list EpochCommitment :=
  match l with
  | e :: l' => if ec_epoch e <=? ec_epoch epoch then pop_pending epoch l' else l
  | [] => []
  end.

Definition clear_pending_epochs (epoch : EpochCommitment) : F unit :=
  mmodify (set_inner (fun i => set_pending (pop_pending epoch (epochs_pending_finalization i)) i)).

Definition finalize_epoch (epoch : EpochCommitment) : F unit :=
  let* fin_epoch := mreads (fun s => default epoch_null (last_finalized_epoch (fcm_ctx s))) in
  if ec_epoch epoch <? ec_epoch fin_epoch then merr (FinalizeOldEpoch epoch fin_epoch)
  else
    on_ctx (ctx_finalize_epoch epoch) ;;;
    on_tracker (update_finalized_epoch epoch) ;;;
    clear_pending_epochs epoch.

Definition get_block_slot (blkid : OLBlockId) : F Slot :=
  let* b := mreads best in
  if blkid =? obc_blkid b then mret (obc_slot b)
  else
    let* o := ctx_read (fun c => get_ol_header c blkid) in
    let* header := mlift (ok_or o (MissingOLBlock blkid)) in
    mret (hdr_slot header).

(** *** Startup *)

(** [load_unfinalized_ol_blocks_async]: the blocks of one height. *)
Fixpoint load_height (c : C) (blkids : list OLBlockId) (t : UnfinalizedBlockTracker) (replay_candidates : list OLBlockId)
    : res FcmError (UnfinalizedBlockTracker * list OLBlockId) :=
  match blkids with
  | [] => Ok (t, replay_candidates)
  | blkid :: blkids' =>
      match get_block_status c blkid with
      | Ok (Some Valid) =>
          let! o := get_ol_block c blkid in
          let t := match o with
                   | Some block =>
                       snd (attach_block (hdr_slot (blk_header block)) blkid (hdr_parent_blkid (blk_header block)) t)
                   | None => t
                   end in
          load_height c blkids' t replay_candidates
      | Ok (Some Unchecked) =>
          let! o := get_ol_block c blkid in
          load_height c blkids' t (match o with Some _ => replay_candidates ++ [blkid] | None => replay_candidates end)
      | Ok (Some Invalid) | Ok None | Err _ => load_height c blkids' t replay_candidates
      | Panic => Panic
      end
  end.

(** The loop over heights; [None]: there are still blocks after [fuel] heights. *)
Fixpoint load_unfinalized_ol_blocks (fuel : nat) (c : C) (height : Slot) (t : UnfinalizedBlockTracker) (replay_candidates : list OLBlockId)
    : option (res FcmError (UnfinalizedBlockTracker * list OLBlockId)) :=
  match fuel with
  | O => None
  | S fuel' =>
      let? blkids := Some (get_blocks_at_height c height) in
      match blkids with
      | [] => Some (Ok (t, replay_candidates))
      | _ =>
          let? loaded := Some (load_height c blkids t replay_candidates) in
          load_unfinalized_ol_blocks fuel' c (wrap_u64 (height + 1)) (fst loaded) (snd loaded)
      end
  end.

(** [Iterator::max_by]: the last one of the greatest elements; [le a b] is
    [a.cmp(b) != Greater]. *)
Fixpoint max_by {A} (le : A -> A -> bool) (cur : A) (l : list A) : A :=
  match l with
  | [] => cur
  | x :: l' => max_by le (if le cur x then x else cur) l'
  end.

Definition determine_start_tip (unfin : UnfinalizedBlockTracker) (c : C) : res FcmError OLBlockCommitment :=
  let! tips := chain_tip_blocks_iter unfin in
  match map obc_slot tips with
  | [] => Err FcmNoChainTips
  | s0 :: slots =>
      let max_slot := max_by Z.leb s0 slots in
      let! canonical := get_canonical_block_at c max_slot in
      let is_canonical (b : OLBlockCommitment) := bool_decide (Some (obc_blkid b) = obc_blkid <$> canonical) in
      let le (a b : OLBlockCommitment) :=
        match is_canonical a, is_canonical b with
        | true, false => false
        | false, true => true
        | _, _ => obc_blkid b <=? obc_blkid a
        end in
      match filter (fun tip => obc_slot tip = max_slot) tips with
      | [] => Err FcmNoChainTips
      | tip :: tips => Ok (max_by le tip tips)
      end
  end.

Definition tracker_slot (unfin : UnfinalizedBlockTracker) (blkid : OLBlockId) : res FcmError Slot :=
  ok_or (get_slot unfin blkid) (FcmCanonicalTrackerMissingBlock blkid).

Definition ensure_parent_slot_descends (parent_slot : Slot) (child_slot : option Slot) (tip : OLBlockCommitment) : res FcmError unit :=
  match child_slot with
  | Some child_slot =>
      if child_slot <=? parent_slot then Err (FcmCanonicalParentSlotNotDescending parent_slot child_slot tip) else Ok tt
  | None => Ok tt
  end.

(** The walk along parents; slots descend, so that the table bounds it. *)
Fixpoint parent_chain (fuel : nat) (unfin : UnfinalizedBlockTracker) (tip : OLBlockCommitment) (child_slot : option Slot) (blkid : OLBlockId)
    : res FcmError (list OLBlockId) :=
  match fuel with
  | O => Panic
  | S fuel' =>
      let! slot := tracker_slot unfin blkid in
      let! _ := ensure_parent_slot_descends slot child_slot tip in
      match get_parent unfin blkid with
      | Some p => let! rest := parent_chain fuel' unfin tip (Some slot) p in Ok (blkid :: rest)
      | None => Ok [blkid]
      end
  end.

Definition construct_validated_parent_chain (unfin : UnfinalizedBlockTracker) (tip : OLBlockCommitment) : res FcmError (list OLBlockId) :=
  parent_chain (S (size (pending_table unfin))) unfin tip None (obc_blkid tip).

(** The loop over the chain; [suffix] has been collected, the highest block
    first.  The end of the chain is unreachable. *)
Fixpoint canonical_suffix (unfin : UnfinalizedBlockTracker) (c : C) (suffix : list OLBlockId) (chain : list OLBlockId)
    : res FcmError (Slot * list OLBlockId) :=
  match chain with
  | [] => Panic
  | blkid :: chain' =>
      let! slot := tracker_slot unfin blkid in
      let! canonical := get_canonical_block_at c slot in
      if bool_decide (obc_blkid <$> canonical = Some blkid) then Ok (slot, rev suffix)
      else if blkid =? finalized_tip unfin then
        Err (FcmCanonicalFinalizedMismatch (ec_last_slot (finalized_epoch unfin)) canonical (finalized_tip unfin))
      else canonical_suffix unfin c (suffix ++ [blkid]) chain'
  end.

Definition canonical_blocks_from_tip (unfin : UnfinalizedBlockTracker) (tip : OLBlockCommitment) (c : C)
    : res FcmError (Slot * list OLBlockId) :=
  let! chain := construct_validated_parent_chain unfin tip in
  if negb (bool_decide (last chain = Some (finalized_tip unfin)))
  then Err (FcmCanonicalChainNotFinalized (obc_blkid tip) (finalized_tip unfin))
  else canonical_suffix unfin c [] chain.

Definition reconcile_canonical_blocks_index (unfin : UnfinalizedBlockTracker) (tip : OLBlockCommitment) : M FcmError C unit :=
  let* pivot := mreads_res (canonical_blocks_from_tip unfin tip) in
  let '(pivot_slot, canon_blocks) := pivot in
  match checked_add_u64 pivot_slot 1 with
  | None => match canon_blocks with [] => mret tt | _ => merr (FcmCanonicalSuffixAboveMaxSlot pivot_slot) end
  | Some start_slot => replace_canonical_suffix_from start_slot canon_blocks
  end.

(** The walk through the target epoch; slots descend to the history base or to
    slot zero. *)
Fixpoint collect_target_epoch_blocks (fuel : nat) (c : C) (target_block : OLBlockCommitment) (target_epoch : Epoch)
    (history_base_block : option OLBlockCommitment) (child_slot : option Slot) (blkid : OLBlockId)
    : option (res FcmError (list OLBlockCommitment)) :=
  match fuel with
  | O => None
  | S fuel' =>
      let? o := Some (get_ol_header c blkid) in
      let? header := Some (ok_or o (MissingOLBlock blkid)) in
      let? _ := Some (ensure_parent_slot_descends (hdr_slot header) child_slot target_block) in
      if negb (hdr_epoch header =? target_epoch) then Some (Ok [])
      else
        let commitment := {| obc_slot := hdr_slot header; obc_blkid := blkid |} in
        if bool_decide (Some commitment = history_base_block) || (hdr_slot header =? 0) then Some (Ok [commitment])
        else
          let? rest := collect_target_epoch_blocks fuel' c target_block target_epoch history_base_block
                         (Some (hdr_slot header)) (hdr_parent_blkid header) in
          Some (Ok (commitment :: rest))
  end.

Definition to_block_commitment (e : EpochCommitment) : OLBlockCommitment :=
  {| obc_slot := ec_last_slot e; obc_blkid := ec_last_blkid e |}.

(** Stored blocks of the epoch that are not canonical.  The set is a list
    without duplicates here. *)
Fixpoint collect_rejected (c : C) (blocks : list OLBlockCommitment) (rejected : list OLBlockCommitment)
    : res FcmError (list OLBlockCommitment) :=
  match blocks with
  | [] => Ok rejected
  | b :: blocks' =>
      let slot := obc_slot b in
      let! o := get_canonical_block_at c slot in
      let! canonical_block := ok_or o (MissingCanonicalBlock slot) in
      if negb (bool_decide (canonical_block = b)) then Err (CanonicalTargetMismatch canonical_block b)
      else
        let! blkids := get_blocks_at_height c slot in
        let new := filter (fun b => b <> canonical_block) (map (fun id => {| obc_slot := slot; obc_blkid := id |}) blkids) in
        collect_rejected c blocks' (remove_dups (rejected ++ new))
  end.

Definition collect_rejected_indexing_blocks_for_target (fuel : nat) (target_block : OLBlockCommitment) (target_epoch : Epoch)
    (history_base : option EpochCommitment) (c : C) : option (res FcmError (list OLBlockCommitment)) :=
  let? blocks := collect_target_epoch_blocks fuel c target_block target_epoch (to_block_commitment <$> history_base) None
                   (obc_blkid target_block) in
  Some (collect_rejected c blocks []).

(** [None]: the genesis block is not there yet, and the source waits for it, or
    a walk has not ended within [fuel]. *)
Definition init_fcm_service_state (fuel : nat) (pred : PredicateKey) (c : C) : option (res FcmError FcmServiceState) :=
  let? o := Some (get_canonical_block_at c 0) in
  match o with
  | None => None
  | Some genesis =>
      let fin := default {| ec_epoch := 0; ec_last_slot := 0; ec_last_blkid := obc_blkid genesis |} (last_finalized_epoch c) in
      let? loaded := load_unfinalized_ol_blocks fuel c (wrap_u64 (ec_last_slot fin + 1)) (new_empty fin) [] in
      let '(tracker, candidates) := loaded in
      let? cur_tip_block := Some (determine_start_tip tracker c) in
      let? reconciled := drun (reconcile_canonical_blocks_index tracker cur_tip_block) c in
      let c := snd reconciled in
      let? o := Some (get_ol_header c (obc_blkid cur_tip_block)) in
      let? tip_header := Some (ok_or o (MissingOLBlock (obc_blkid cur_tip_block))) in
      let? o := Some (get_toplevel_ol_state c cur_tip_block) in
      let? ol_state := Some (ok_or o (MissingOLState cur_tip_block)) in
      let? history_base := Some (get_history_base c) in
      let? rejected := collect_rejected_indexing_blocks_for_target fuel cur_tip_block (hdr_epoch tip_header) history_base c in
      let? done := drun (reconcile_ol_mmr_index {| rt_block := cur_tip_block; rt_epoch := hdr_epoch tip_header;
                                                   rt_state := ol_state; rt_rejected_indexing_blocks := rejected |}) c in
      Some (Ok {| fcm_ctx := snd done; sequencer_predicate := pred;
                  inner_state := FcmInnerState_new tracker cur_tip_block ol_state candidates |})
  end.

(** ** [service.rs] *)

Definition check_ol_block_proposal_valid (blkid : OLBlockId) (block : OLBlock) (pred : PredicateKey) : res FcmError unit :=
  if hdr_slot (blk_header block) =? 0 then Err (UnexpectedGenesisBlock blkid)
  else
    match blk_signature block with
    | Some sig =>
        if verify_sequencer_predicate_signature pred (compute_blkid (blk_header block)) sig then Ok tt
        else Err (InvalidBlockSignature blkid)
    | None =>
        if negb (sequencer_predicate_requires_signature pred) then Ok tt else Err (MissingBlockSignature blkid)
    end.

(** The loop over the tips. *)
Fixpoint pick_best (cur_tip : OLBlockId) (c : C) (best_tip : OLBlockId) (best_header : OLBlockHeader) (tips : list OLBlockId)
    : res FcmError OLBlockId :=
  match tips with
  | [] => Ok best_tip
  | other_tip :: tips' =>
      if other_tip =? cur_tip then pick_best cur_tip c best_tip best_header tips'
      else
        let! o := get_ol_header c other_tip in
        let! other_header := ok_or o (MissingOLBlock other_tip) in
        if hdr_slot best_header <? hdr_slot other_header then pick_best cur_tip c other_tip other_header tips'
        else pick_best cur_tip c best_tip best_header tips'
  end.

Definition pick_best_block (cur_tip : OLBlockId) (tips : list OLBlockId) (c : C) : res FcmError OLBlockId :=
  let! o := get_ol_header c cur_tip in
  let! best_header := ok_or o (MissingOLBlock cur_tip) in
  pick_best cur_tip c cur_tip best_header tips.

Definition set_block_status_and_clear_invalid_high_watermark (bundle : OLBlock) (block : OLBlockCommitment) (status : BlockStatus)
    : F bool :=
  let header := blk_header bundle in
  let* updated := on_ctx (set_block_status (obc_blkid block) status) in
  match status with
  | Invalid =>
      (if hdr_is_terminal header then
         let* _ := on_ctx (del_epoch_summary {| ec_epoch := hdr_epoch header; ec_last_slot := obc_slot block;
                                                ec_last_blkid := obc_blkid block |}) in
         mret tt
       else mret tt) ;;;
      let* high_watermark := ctx_read get_block_high_watermark in
      if negb (bool_decide (high_watermark = Some block)) then mret updated
      else
        let cutoff := {| obc_slot := Z.max 0 (obc_slot block - 1); obc_blkid := hdr_parent_blkid header |} in
        on_ctx (rollback_block_state_indexing (hdr_epoch header) cutoff) ;;;
        let* _ := on_ctx (clear_block_high_watermark block) in
        mret updated
  | _ => mret updated
  end.

Definition record_canonical_suffix (pivot_slot : Slot) (block_ids : list OLBlockId) : F unit :=
  match checked_add_u64 pivot_slot 1 with
  | None => match block_ids with [] => mret tt | _ => merr (FcmCanonicalSuffixAboveMaxSlot pivot_slot) end
  | Some start_slot => on_ctx (replace_canonical_suffix_from start_slot block_ids)
  end.

Definition advance_fcm_to_block (blkid : OLBlockId) : F unit :=
  let* o := ctx_read (fun c => get_ol_block c blkid) in
  let* block := mlift (ok_or o (MissingOLBlock blkid)) in
  let block_commitment := {| obc_slot := hdr_slot (blk_header block); obc_blkid := blkid |} in
  let* cur_best := mreads best in
  let actual_parent := hdr_parent_blkid (blk_header block) in
  if negb (actual_parent =? obc_blkid cur_best) then merr (OLApplyBlockParentMismatch block_commitment cur_best actual_parent)
  else
    let* o := ctx_read (fun c => get_toplevel_ol_state c block_commitment) in
    let* ol_state := mlift (ok_or o (MissingOLState block_commitment)) in
    update_tip_block block_commitment ol_state.

Definition revert_ol_state_to_block (block : OLBlockCommitment) : F unit :=
  let* o := ctx_read (fun c => get_toplevel_ol_state c block) in
  let* new_state := mlift (ok_or o (MissingOLState block)) in
  update_tip_block block new_state.

(** The tip the update has reached must be the one it was planned for. *)
Definition ensure_final_tip (expected_tip : OLBlockCommitment) : F unit :=
  let* final_tip := mreads best in
  if negb (bool_decide (final_tip = expected_tip)) then merr (OLApplyTipMismatch expected_tip final_tip) else mret tt.

Definition apply_tip_update (update : TipUpdate) (bundle : OLBlock) : F unit :=
  match update with
  | ExtendTip _ _ =>
      let blkid := compute_blkid (blk_header bundle) in
      let blk_cmmt := {| obc_slot := hdr_slot (blk_header bundle); obc_blkid := blkid |} in
      let* o := ctx_read (fun c => get_toplevel_ol_state c blk_cmmt) in
      let* ol_state := mlift (ok_or o (MissingOLState blk_cmmt)) in
      let* pivot_slot := mreads (fun s => obc_slot (best s)) in
      update_tip_block blk_cmmt ol_state ;;;
      record_canonical_suffix pivot_slot [blkid]
  | LongExtend _ intermediate new =>
      let* pivot_slot := mreads (fun s => obc_slot (best s)) in
      miter advance_fcm_to_block (intermediate ++ [new]) ;;;
      let* expected_slot := get_block_slot new in
      ensure_final_tip {| obc_slot := expected_slot; obc_blkid := new |} ;;;
      record_canonical_suffix pivot_slot (intermediate ++ [new])
  | TipReorg reorg =>
      let pivot_blkid := reorg_pivot reorg in
      let* pivot_slot := get_block_slot pivot_blkid in
      let pivot_block := {| obc_slot := pivot_slot; obc_blkid := pivot_blkid |} in
      let* cur_best := mreads best in
      (match reorg_down reorg with
       | _ :: _ =>
           if obc_slot cur_best <=? pivot_slot then merr (InvalidOLReorgPivot pivot_block cur_best)
           else revert_ol_state_to_block pivot_block
       | [] =>
           if negb (pivot_blkid =? obc_blkid cur_best) then merr (InvalidOLReorgEmptyDownPivot cur_best pivot_block)
           else mret tt
       end) ;;;
      miter advance_fcm_to_block (reorg_up reorg) ;;;
      let* expected_tip :=
        (if Reorg_new_tip reorg =? pivot_blkid then mret pivot_block
         else let* expected_slot := get_block_slot (Reorg_new_tip reorg) in
              mret {| obc_slot := expected_slot; obc_blkid := Reorg_new_tip reorg |}) in
      ensure_final_tip expected_tip ;;;
      record_canonical_suffix pivot_slot (reorg_up reorg)
  | Revert _ new =>
      let* slot := get_block_slot new in
      revert_ol_state_to_block {| obc_slot := slot; obc_blkid := new |} ;;;
      record_canonical_suffix slot []
  end.

(** The search depth of reorgs. *)
Definition REORG_DEPTH : nat := 100.

Definition handle_new_block (bundle : OLBlock) : F bool :=
  let header := blk_header bundle in
  let slot := hdr_slot header in
  let blkid := compute_blkid header in
  let* pred := mreads sequencer_predicate in
  match check_ol_block_proposal_valid blkid bundle pred with
  | Err _ => mret false
  | Panic => mpanic
  | Ok _ =>
      let bc := {| obc_slot := slot; obc_blkid := blkid |} in
      let* exec_ok := mcatch (on_ctx (try_exec_block bc) ;;; mret true) (fun _ => mret false) in
      if negb exec_ok then
        set_block_status_and_clear_invalid_high_watermark bundle bc Invalid ;;; mret false
      else
        on_ctx (set_block_status blkid Valid) ;;;
        let* cur_tip := mreads (fun s => obc_blkid (best s)) in
        on_tracker (attach_block slot blkid (hdr_parent_blkid header)) ;;;
        let* tips := mreads (fun s => chain_tips_iter (tracker s)) in
        let* best_block := ctx_read (pick_best_block cur_tip tips) in
        let* tip_update := mreads_res (fun s => compute_tip_update cur_tip best_block REORG_DEPTH (tracker s)) in
        match tip_update with
        | None => mret true
        | Some tip_update => apply_tip_update tip_update bundle ;;; mret true
        end
  end.

Definition handle_epoch_finalization : F (option EpochCommitment) :=
  let* found := mreads find_latest_pending_finalizable_epoch in
  match found with
  | None => mret None
  | Some (_, next_finalizable_epoch) => finalize_epoch next_finalizable_epoch ;;; mret (Some next_finalizable_epoch)
  end.

Definition publish_sync_status : F unit :=
  let* cur_state := mreads (fun s => cur_olstate (inner_state s)) in
  let prev_epoch_num := prev_epoch_of cur_state in
  let* o := ctx_read (fun c => fcm_canonical_epoch_commitment_at c prev_epoch_num) in
  let* prev_epoch := mlift (ok_or o (MissingPrevEpochCommitment prev_epoch_num)) in
  let* finalized_epoch := mreads (fun s => finalized_epoch (tracker s)) in
  let* confirmed_epoch := mreads (fun s => default finalized_epoch (last_confirmed_epoch (fcm_ctx s))) in
  let* canonical_tip := mreads best in
  let* o := ctx_read (fun c => get_ol_block c (obc_blkid canonical_tip)) in
  let* tip_block := mlift (ok_or o (MissingOLBlock (obc_blkid canonical_tip))) in
  let status := {| css_tip := canonical_tip; css_tip_epoch := hdr_epoch (blk_header tip_block);
                   css_tip_is_terminal := hdr_is_terminal (blk_header tip_block);
                   css_recently_complete_epoch := prev_epoch; css_confirmed_epoch := confirmed_epoch;
                   css_finalized_epoch := finalized_epoch; css_safe_l1 := es_last_l1_block (ol_epoch cur_state) |} in
  on_ctx (mmodify (ctx_publish_sync_status status)).

Definition check_finalization_progress : F unit :=
  let* finalized := mcatch (let* o := handle_epoch_finalization in mret (Some o)) (fun _ => mret None) in
  match finalized with
  | Some (Some _) => publish_sync_status
  | _ => mret tt
  end.

Inductive ForkChoiceMessage := NewBlock (blkid : OLBlockId).

Definition process_fc_message (msg : ForkChoiceMessage) : F unit :=
  let '(NewBlock blkid) := msg in
  let* o := ctx_read (fun c => get_ol_block c blkid) in
  let* block_bundle := mlift (ok_or o (MissingOLBlock blkid)) in
  let slot := hdr_slot (blk_header block_bundle) in
  let* ok := mcatch (handle_new_block block_bundle) (fun _ => mret false) in
  (if ok then
     mcatch (let* _ := handle_epoch_finalization in mret tt) (fun _ => mret tt) ;;;
     publish_sync_status
   else mret tt) ;;;
  let* _ := set_block_status_and_clear_invalid_high_watermark block_bundle
              {| obc_slot := slot; obc_blkid := blkid |} (if ok then Valid else Invalid) in
  mret tt.

Definition handle_new_state_update : F unit :=
  let* observed := mreads (fun s => last_finalized_epoch (fcm_ctx s)) in
  match observed with
  | None => mret tt
  | Some observed =>
      let* current := mreads (fun s => finalized_epoch (tracker s)) in
      if bool_decide (observed = current) then mret tt
      else
        let* latest := mreads latest_observed_finalized_epoch in
        if bool_decide (observed = latest) then check_finalization_progress
        else
          let* recorded := record_observed_finalized_epoch observed in
          if negb recorded then mret tt else check_finalization_progress
  end.

Inductive FcmEvent := NewFcmMsg (m : ForkChoiceMessage) | NewStateUpdate | Abort.

(** The response is whether the service goes on. *)
Definition fcm_process_input (input : FcmEvent) : F bool :=
  match input with
  | NewFcmMsg m => process_fc_message m ;;; mret true
  | NewStateUpdate => handle_new_state_update ;;; mret true
  | Abort => mret false
  end.

Definition fcm_on_launch : F unit :=
  let* candidates := take_startup_replay_candidates in
  miter (fun blkid => process_fc_message (NewBlock blkid)) candidates.
End fcm.
