(* ===== verification/ForkChoiceSpec.v ===== *)
(** * What the fork choice manager promises

    Against a storage that does not fail, the manager follows the longest-chain
    rule: a block that is executed and attached becomes the best block exactly if
    its slot is higher, whether it extends the current chain or forks off it, and
    the canonical block index lists exactly the chain of the best block. *)

From S2P Require Import Prelude Identifiers ChainTypes Externals OLState Tracker TrackerFinal TipUpdate ForkChoice.

Section spec.
Context `{XR : ExtRoot} `{FX : !FcmExt} {C : Type} `{FC : !FcmContext C}.

Abbreviation canon := get_canonical_block_at.
Abbreviation FS := (FcmServiceState (C := C)).

(** ** What the manager relies on *)

(** A context operation that keeps blocks, headers and stored states. *)
Record ctx_frame (c c' : C) : Prop := {
  cf_block id : get_ol_block c' id = get_ol_block c id;
  cf_header id : get_ol_header c' id = get_ol_header c id;
  cf_state b st : get_toplevel_ol_state c b = Ok (Some st) -> get_toplevel_ol_state c' b = Ok (Some st);
}.

#[export] Instance ctx_frame_preorder : PreOrder ctx_frame.
Proof.
  split; [by intros c; split|]. intros a b c [Hb1 Hh1 Hs1] [Hb2 Hh2 Hs2].
  split; intros; [by rewrite Hb2|by rewrite Hh2|by apply Hs2, Hs1].
Qed.

Definition same_canon (c c' : C) : Prop := forall slot, canon c' slot = canon c slot.

(** It succeeds and leaves blocks, states and the canonical index alone. *)
Definition benign {A} (m : M FcmError C A) : Prop :=
  forall c, exists a c', m c = (Ok a, c') /\ ctx_frame c c' /\ same_canon c c'.

Class FcmLaws : Prop := {
  law_safe_tip b : benign (update_safe_tip b);
  law_clear_watermark b : benign (clear_block_high_watermark b);
  law_rollback e b : benign (rollback_block_state_indexing e b);
  law_del_summary e : benign (del_epoch_summary e);
  law_set_status id st c b :
    get_ol_block c id = Ok (Some b) ->
    exists a c', set_block_status id st c = (Ok a, c') /\ ctx_frame c c' /\ same_canon c c';
  law_high_watermark c : exists o, get_block_high_watermark c = Ok o;
  (** A stored block is found under its id, with its header. *)
  law_block c id b : get_ol_block c id = Ok (Some b) ->
    compute_blkid (blk_header b) = id /\ get_ol_header c id = Ok (Some (blk_header b));
  (** Execution stores the state of a block it accepts, which directly follows its parent. *)
  law_exec b c r c' : try_exec_block b c = (r, c') -> r <> Panic /\ ctx_frame c c' /\ same_canon c c';
  law_exec_ok b c blk c' :
    get_ol_block c (obc_blkid b) = Ok (Some blk) -> try_exec_block b c = (Ok tt, c') ->
    (exists st, get_toplevel_ol_state c' b = Ok (Some st)) /\
    forall ph, get_ol_header c (hdr_parent_blkid (blk_header blk)) = Ok (Some ph) -> hdr_slot (blk_header blk) = hdr_slot ph + 1;
  law_finalize e c r c' : ctx_finalize_epoch e c = (r, c') -> ctx_frame c c' /\ same_canon c c';
  (** The canonical suffix is replaced by contiguous entries. *)
  law_replace start ids c :
    start + zlen ids <= U64_MAX + 1 ->
    exists c', replace_canonical_suffix_from start ids c = (Ok tt, c') /\ ctx_frame c c' /\
      forall slot, canon c' slot =
        if slot <? start then canon c slot
        else Ok ((fun id => {| obc_slot := slot; obc_blkid := id |}) <$> ids !! Z.to_nat (slot - start));
}.

Context `{FL : !FcmLaws}.
Context (slot_of : OLBlockId -> Slot) (parent_of : OLBlockId -> OLBlockId) (g : OLBlockId).

Definition commit (id : OLBlockId) : OLBlockCommitment := {| obc_slot := slot_of id; obc_blkid := id |}.

Definition headers_agree (c : C) : Prop := forall id h,
  get_ol_header c id = Ok (Some h) -> hdr_slot h = slot_of id /\ hdr_parent_blkid h = parent_of id.

Lemma headers_agree_frame c c' : ctx_frame c c' -> headers_agree c -> headers_agree c'.
Proof. intros Hf Ha id h. rewrite (cf_header _ _ Hf). apply Ha. Qed.

(** ** The invariant *)

(** What the storage holds for the blocks of the tracker. *)
Record stored (c : C) (t : UnfinalizedBlockTracker) : Prop := {
  st_agree : headers_agree c;
  st_block id : live t id -> id <> finalized_tip t -> exists b, get_ol_block c id = Ok (Some b);
  st_header id : live t id \/ id ∈ unfinalized_tips t -> exists h, get_ol_header c id = Ok (Some h);
  st_state id : live t id -> exists st, get_toplevel_ol_state c (commit id) = Ok (Some st);
}.

Lemma stored_frame c c' t : ctx_frame c c' -> stored c t -> stored c' t.
Proof.
  intros Hf [Ha Hb Hh Hs]. split.
  - by eapply headers_agree_frame.
  - intros id Hl Ht. rewrite (cf_block _ _ Hf). by apply Hb.
  - intros id Hid. rewrite (cf_header _ _ Hf). by apply Hh.
  - intros id Hl. destruct (Hs id Hl) as [st Hst]. exists st. by apply (cf_state _ _ Hf).
Qed.

(** The live tree, with slots that follow each other. *)
Record tree_ok (t : UnfinalizedBlockTracker) : Prop := {
  tree_wf : tracker_wf slot_of parent_of g t;
  tree_step id : live t id -> id <> finalized_tip t -> slot_of id = slot_of (parent_of id) + 1;
}.

(** The canonical index lists the chain of [b] and nothing above. *)
Record canonical (c : C) (t : UnfinalizedBlockTracker) (b : OLBlockId) : Prop := {
  can_chain id : descends t id b -> canon c (slot_of id) = Ok (Some (commit id));
  can_above slot : slot_of b < slot <= U64_MAX -> canon c slot = Ok None;
}.

Record fcm_inv (s : FS) : Prop := {
  fi_stored : stored (fcm_ctx s) (tracker s);
  fi_tree : tree_ok (tracker s);
  fi_best : best s = commit (obc_blkid (best s));
  fi_best_live : live (tracker s) (obc_blkid (best s));
  fi_state : get_toplevel_ol_state (fcm_ctx s) (best s) = Ok (Some (cur_olstate (inner_state s)));
  fi_max id : id ∈ unfinalized_tips (tracker s) -> slot_of id <= slot_of (obc_blkid (best s));
  fi_canon : canonical (fcm_ctx s) (tracker s) (obc_blkid (best s));
}.

(** ** Slots in the tree *)

Lemma live_parent t id e :
  tree_ok t -> live t id -> id <> finalized_tip t -> pending_table t !! id = Some e -> be_parent e = parent_of id.
Proof.
  intros [Hwf _] Hl Hne He. rewrite (wf_parent _ _ _ _ Hwf _ _ He). unfold recorded_parent.
  rewrite (proj2 (Z.eqb_neq id g)); [done|]. intros ->. by apply Hne, (wf_base_live slot_of parent_of).
Qed.

Lemma path_slots t x l y rest :
  tree_ok t -> anc_path t x (l ++ y :: rest) -> slot_of x = slot_of y + zlen l.
Proof.
  intros Ht. revert x. induction l as [|a l IH]; intros x Hp; simpl in Hp.
  - destruct (anc_path_head _ _ _ Hp) as [? ?]. simplify_eq. unfold zlen. simpl. lia.
  - assert (Hlx : live t x) by (by eexists). inversion Hp as [|? e l' Hne He Hp']; subst.
    + by destruct l.
    + rewrite (tree_step t Ht a Hlx Hne), <- (live_parent t a e Ht Hlx Hne He), (IH _ Hp'). autorewrite with zlen. lia.
Qed.

Lemma descends_slot t x y : tree_ok t -> descends t x y -> slot_of x <= slot_of y.
Proof.
  intros Ht (l & Hl & Hx). destruct (anc_path_suffix _ _ _ _ Hl Hx) as (l1 & l2 & -> & H2).
  destruct (anc_path_head _ _ _ H2) as [l3 ->]. rewrite (path_slots t y l1 x l3 Ht Hl). pose proof (zlen_nonneg l1). lia.
Qed.

(** Every live block is below a chain tip. *)
Lemma live_below_tip t id : tree_ok t -> live t id -> exists tp, tp ∈ unfinalized_tips t /\ slot_of id <= slot_of tp.
Proof.
  intros Ht. pose proof (tree_wf t Ht) as Hwf.
  remember (size (filter (fun x => slot_of id < slot_of x) (dom (pending_table t)))) as k eqn:Hk. revert id Hk.
  induction k as [k IH] using lt_wf_ind. intros id -> Hl.
  destruct (live_in_table t (wf_tip _ _ _ _ Hwf) id Hl) as [e He].
  destruct (set_choose_or_empty (be_children e)) as [[c Hc]|Hempty].
  - destruct (child_live _ _ _ t Hwf id e c Hl He Hc) as (Hct & Hlc & _ & _ & ce & Hce & Hpc).
    pose proof (live_parent_slot _ _ _ t c ce Hwf Hlc Hct Hce) as Hlt. rewrite Hpc in Hlt.
    destruct (IH (size (filter (fun x => slot_of c < slot_of x) (dom (pending_table t))))) with (id := c) as (tp & Htp & Hs); [|done..|].
    + apply subset_size. split; [intros x; rewrite !elem_of_filter; intros [? ?]; split; [lia|done]|].
      intros Hsub. assert (Hin : c ∈ filter (fun x => slot_of id < slot_of x) (dom (pending_table t))).
      { apply elem_of_filter. split; [done|]. apply elem_of_dom. by eexists. }
      apply Hsub, elem_of_filter in Hin as [? _]. lia.
    + exists tp. split; [done|lia].
  - exists id. split; [|lia]. apply (wf_tips _ _ _ _ Hwf id e Hl He). by apply leibniz_equiv.
Qed.

Lemma live_below_best s id : fcm_inv s -> live (tracker s) id -> slot_of id <= slot_of (obc_blkid (best s)).
Proof.
  intros Hi Hl. destruct (live_below_tip _ _ (fi_tree s Hi) Hl) as (tp & Htp & Hs). pose proof (fi_max s Hi tp Htp). lia.
Qed.

(** ** The operations *)

Definition with_ctx (c : C) (s : FS) : FS :=
  {| fcm_ctx := c; sequencer_predicate := sequencer_predicate s; inner_state := inner_state s |}.

Lemma on_ctx_ok {A} (m : M FcmError C A) s a c' : m (fcm_ctx s) = (Ok a, c') -> on_ctx m s = (Ok a, with_ctx c' s).
Proof. unfold on_ctx. by intros ->. Qed.

(** The manager has moved to the block [id]; storage and index are unchanged. *)
Record at_tip (s s' : FS) (id : OLBlockId) : Prop := {
  at_frame : ctx_frame (fcm_ctx s) (fcm_ctx s');
  at_canon : same_canon (fcm_ctx s) (fcm_ctx s');
  at_inner : exists st, inner_state s' = set_tip (commit id) st (inner_state s) /\
    get_toplevel_ol_state (fcm_ctx s') (commit id) = Ok (Some st);
}.

Lemma at_tip_best s s' id : at_tip s s' id -> best s' = commit id /\ tracker s' = tracker s.
Proof. intros [_ _ (st & Hi & _)]. unfold best, tracker. rewrite Hi. done. Qed.

Lemma at_tip_trans s1 s2 s3 a b : at_tip s1 s2 a -> at_tip s2 s3 b -> at_tip s1 s3 b.
Proof.
  intros [Hf1 Hc1 (st1 & Hi1 & _)] [Hf2 Hc2 (st2 & Hi2 & Hs2)]. split.
  - by etransitivity.
  - intros slot. by rewrite Hc2, Hc1.
  - exists st2. split; [|done]. by rewrite Hi2, Hi1.
Qed.

Lemma update_tip_block_run id st s :
  get_toplevel_ol_state (fcm_ctx s) (commit id) = Ok (Some st) ->
  exists s', update_tip_block (commit id) st s = (Ok tt, s') /\ at_tip s s' id.
Proof.
  intros Hst. unfold update_tip_block. rewrite mbind_mmodify.
  destruct (law_safe_tip (commit id) (fcm_ctx s)) as ([] & c' & Hu & Hf & Hc).
  eexists. split; [by apply on_ctx_ok|]. split; simpl; [done..|]. exists st. split; [done|]. by apply (cf_state _ _ Hf).
Qed.

Lemma ctx_read_ok {A} (f : C -> res FcmError A) s a : f (fcm_ctx s) = Ok a -> ctx_read f s = (Ok a, s).
Proof. unfold ctx_read, mreads_res. by intros ->. Qed.

Lemma revert_run id s :
  (exists st, get_toplevel_ol_state (fcm_ctx s) (commit id) = Ok (Some st)) ->
  exists s', revert_ol_state_to_block (commit id) s = (Ok tt, s') /\ at_tip s s' id.
Proof.
  intros [st Hst]. unfold revert_ol_state_to_block. rewrite (mbind_ok _ _ _ _ _ (ctx_read_ok _ _ _ Hst)).
  cbn [ok_or]. rewrite (mbind_ok _ _ _ st s) by done. by apply update_tip_block_run.
Qed.

Lemma get_block_slot_run id s h :
  headers_agree (fcm_ctx s) -> best s = commit (obc_blkid (best s)) -> get_ol_header (fcm_ctx s) id = Ok (Some h) ->
  get_block_slot id s = (Ok (slot_of id), s).
Proof.
  intros Ha Hb Hh. unfold get_block_slot. rewrite (mbind_ok _ _ _ (best s) s) by done.
  destruct (id =? obc_blkid (best s)) eqn:Hid; zbool; [subst; by rewrite Hb|].
  rewrite (mbind_ok _ _ _ _ _ (ctx_read_ok _ _ _ Hh)). cbn [ok_or]. rewrite (mbind_ok _ _ _ h s) by done.
  by rewrite (proj1 (Ha _ _ Hh)).
Qed.

Lemma advance_run id s b :
  headers_agree (fcm_ctx s) -> get_ol_block (fcm_ctx s) id = Ok (Some b) -> parent_of id = obc_blkid (best s) ->
  (exists st, get_toplevel_ol_state (fcm_ctx s) (commit id) = Ok (Some st)) ->
  exists s', advance_fcm_to_block id s = (Ok tt, s') /\ at_tip s s' id.
Proof.
  intros Ha Hb Hp [st Hst]. unfold advance_fcm_to_block. rewrite (mbind_ok _ _ _ _ _ (ctx_read_ok _ _ _ Hb)).
  cbn [ok_or]. rewrite (mbind_ok _ _ _ b s) by done. rewrite (mbind_ok _ _ _ (best s) s) by done.
  destruct (law_block _ _ _ Hb) as [_ Hh]. destruct (Ha _ _ Hh) as [Hs Hpar]. rewrite Hpar, Hp, Z.eqb_refl, Hs. cbn [negb].
  fold (commit id). rewrite (mbind_ok _ _ _ _ _ (ctx_read_ok _ _ _ Hst)). cbn [ok_or].
  rewrite (mbind_ok _ _ _ st s) by done. by apply update_tip_block_run.
Qed.

(** [linked p l]: the blocks [l] follow each other on top of [p]. *)
Fixpoint linked (p : OLBlockId) (l : list OLBlockId) : Prop :=
  match l with [] => True | u :: l' => parent_of u = p /\ linked u l' end.

Lemma linked_snoc p l u : linked p (l ++ [u]) <-> linked p l /\ parent_of u = default p (last l).
Proof.
  revert p. induction l as [|x l IH]; intros p; [simpl; naive_solver|].
  cbn [linked app]. rewrite IH, last_cons. destruct (last l); simpl; naive_solver.
Qed.

Lemma path_linked t x pivot base up :
  tree_ok t -> anc_path t x (rev up ++ pivot :: base) -> linked pivot up.
Proof.
  intros Ht. revert x. induction up as [|u up IH] using rev_ind; intros x Hp; [done|].
  rewrite rev_app_distr in Hp. simpl in Hp. destruct (anc_path_head _ _ _ Hp) as [? ?]. simplify_eq.
  assert (Hlx : live t x) by (by eexists).
  inversion Hp as [|? e l' Hne He Hp']; subst; [by destruct (rev up)|].
  apply linked_snoc. split; [by eapply IH|]. rewrite <- (live_parent t x e Ht Hlx Hne He).
  destruct (anc_path_head _ _ _ Hp') as [l2 Hl2]. destruct up as [|y up' _] using rev_ind; simpl in *; [congruence|].
  rewrite rev_app_distr in Hl2. simpl in Hl2. rewrite last_snoc. simpl. congruence.
Qed.

Lemma advance_all up s t pivot :
  stored (fcm_ctx s) t -> best s = commit pivot -> linked pivot up ->
  Forall (fun u => live t u /\ u <> finalized_tip t) up ->
  up = [] \/ exists s', miter advance_fcm_to_block up s = (Ok tt, s') /\ at_tip s s' (default pivot (last up)).
Proof.
  revert s pivot. induction up as [|u up IH]; intros s pivot Hst Hb Hl Hall; [by left|right].
  apply Forall_cons in Hall as [[Hlu Hut] Hall]. destruct Hl as [Hp Hl].
  destruct (st_block _ _ Hst u Hlu Hut) as [b Hblk].
  destruct (advance_run u s b (st_agree _ _ Hst) Hblk) as (s1 & H1 & Hat1); [by rewrite Hb|by apply (st_state _ _ Hst)|].
  cbn [miter]. rewrite (mbind_ok _ _ _ _ _ H1). destruct (at_tip_best _ _ _ Hat1) as [Hb1 _].
  destruct (IH s1 u) as [->|(s2 & H2 & Hat2)]; [by eapply stored_frame; [apply Hat1|]|done..| |].
  - exists s1. by split.
  - exists s2. split; [done|]. rewrite last_cons. destruct (last up); simpl in *; by eapply at_tip_trans.
Qed.

(** ** Choosing the best block *)

Lemma pick_best_new c cur b tips bt bh :
  headers_agree c -> (forall x, x ∈ tips -> exists h, get_ol_header c x = Ok (Some h)) ->
  (forall x, x ∈ tips -> x <> b -> slot_of x <= slot_of cur) ->
  get_ol_header c bt = Ok (Some bh) -> bt = cur \/ (bt = b /\ slot_of cur < slot_of b) ->
  pick_best cur c bt bh tips = Ok (if bool_decide (b ∈ tips) && (slot_of cur <? slot_of b) then b else bt).
Proof.
  intros Ha. revert bt bh. induction tips as [|x tips IH]; intros bt bh Hh Hmax Hbh Hbt; [by rewrite bool_decide_false by set_solver|].
  cbn [pick_best]. assert (Hh' : forall x, x ∈ tips -> exists h, get_ol_header c x = Ok (Some h)) by set_solver.
  assert (Hmax' : forall x, x ∈ tips -> x <> b -> slot_of x <= slot_of cur) by set_solver.
  destruct (x =? cur) eqn:Hx; zbool.
  { subst. rewrite IH by done. destruct (slot_of cur <? slot_of b) eqn:Hlt; zbool; [|by rewrite !andb_false_r].
    rewrite (bool_decide_ext (b ∈ cur :: tips) (b ∈ tips)); [done|]. assert (b <> cur) by (intros ->; lia). set_solver. }
  destruct (Hh x) as [h Hxh]; [by left|]. rewrite Hxh. cbn [ok_or res_bind].
  rewrite (proj1 (Ha _ _ Hxh)), (proj1 (Ha _ _ Hbh)). destruct (slot_of bt <? slot_of x) eqn:Hlt; zbool.
  - assert (x = b) as ->.
    { destruct (decide (x = b)) as [|Hne]; [done|]. pose proof (Hmax x ltac:(by left) Hne). destruct Hbt as [->|[-> ?]]; lia. }
    assert (bt = cur) as -> by (destruct Hbt as [|[-> _]]; [done|lia]).
    rewrite IH by (done || by right). rewrite (bool_decide_true (b ∈ b :: tips)) by (by left).
    rewrite (proj2 (Z.ltb_lt _ _) Hlt). by case_bool_decide.
  - rewrite IH by done. destruct (decide (x = b)) as [->|Hne].
    + rewrite (bool_decide_true (b ∈ b :: tips)) by (by left). destruct Hbt as [->|[-> Hcb]].
      * rewrite (proj2 (Z.ltb_ge _ _)) by lia. by rewrite !andb_false_r.
      * by destruct (_ && _), (_ && _).
    + rewrite (bool_decide_ext (b ∈ x :: tips) (b ∈ tips)); [done|set_solver].
Qed.

(** ** Moving along a fork *)

Lemma update_of_reorg start dest down pivot up :
  up <> [] -> down <> [] ->
  update_of start dest down pivot up = TipReorg {| reorg_down := down; reorg_pivot := pivot; reorg_up := up |}.
Proof. intros Hu Hd. destruct up as [|u [|]], down; done. Qed.

Section move.
Context (t : UnfinalizedBlockTracker) (Ht : tree_ok t).
Context (cur b pivot : OLBlockId) (down up base : list OLBlockId).
Context (Hcur : anc_path t cur (down ++ pivot :: base)) (Hb : anc_path t b (rev up ++ pivot :: base)).

Lemma move_slots : slot_of cur = slot_of pivot + zlen down /\ slot_of b = slot_of pivot + zlen up.
Proof.
  rewrite (path_slots t cur _ _ _ Ht Hcur), (path_slots t b _ _ _ Ht Hb). unfold zlen. rewrite length_rev. lia.
Qed.

Lemma up_live : Forall (fun u => live t u /\ u <> finalized_tip t) up.
Proof.
  apply Forall_forall. intros u Hu.
  assert (Hu' : u ∈ rev up) by (by rewrite list_elem_of_In, <- in_rev, <- list_elem_of_In).
  split; [eapply live_elem; [done|]; apply elem_of_app; by left|]. intros ->.
  pose proof (anc_path_NoDup _ _ _ Hb) as (_ & Hnd & _)%NoDup_app. apply (Hnd _ Hu').
  apply (anc_path_tip _ _ _ (anc_path_drop _ _ _ _ _ Hb)).
Qed.

Lemma up_linked : linked pivot up.
Proof. by eapply path_linked. Qed.

Lemma up_slot i id : up !! i = Some id -> slot_of id = slot_of pivot + 1 + Z.of_nat i.
Proof.
  pose proof up_live as Hl. pose proof up_linked as Hk. clear Hb Hcur. revert i pivot Hk. induction Hl as [|u up' [Hu Hut] _ IH]; intros i p Hk Hi; [done|].
  destruct Hk as [Hp Hk]. pose proof (tree_step t Ht u Hu Hut) as Hs. rewrite Hp in Hs.
  destruct i as [|i]; simpl in Hi; [simplify_eq; lia|]. rewrite (IH i u Hk Hi). lia.
Qed.

Lemma last_up : up <> [] -> last up = Some b.
Proof.
  intros Hne. destruct up as [|x up' _] using rev_ind; [done|]. rewrite last_snoc. rewrite rev_app_distr in Hb.
  simpl in Hb. destruct (anc_path_head _ _ _ Hb). congruence.
Qed.

(** The index after the suffix above the pivot has been replaced. *)
Lemma canonical_switch c c' :
  (forall id, descends t id pivot -> canon c (slot_of id) = Ok (Some (commit id))) ->
  (forall slot, canon c' slot =
     if slot <? slot_of pivot + 1 then canon c slot
     else Ok ((fun id => {| obc_slot := slot; obc_blkid := id |}) <$> up !! Z.to_nat (slot - (slot_of pivot + 1)))) ->
  canonical c' t b.
Proof.
  intros Hch Hc'. assert (Hsb : slot_of b = slot_of pivot + zlen up).
  { rewrite (path_slots t b _ _ _ Ht Hb). unfold zlen. by rewrite length_rev. }
  split.
  - intros id (l & Hl & Hid). rewrite (anc_path_fun _ _ _ _ Hl Hb) in Hid. rewrite Hc'.
    apply elem_of_app in Hid as [Hid|Hid].
    + assert (Hup : id ∈ up) by (by rewrite list_elem_of_In, in_rev, <- list_elem_of_In).
      apply list_elem_of_lookup in Hup as [i Hi]. pose proof (up_slot i id Hi) as Hs.
      rewrite (proj2 (Z.ltb_ge _ _)) by lia. replace (Z.to_nat _) with i by lia. by rewrite Hi.
    + assert (Hp : descends t id pivot) by (exists (pivot :: base); split; [by eapply anc_path_drop|done]).
      pose proof (descends_slot t id pivot Ht Hp). rewrite (proj2 (Z.ltb_lt _ _)) by lia. by apply Hch.
  - intros slot Hslot. pose proof (zlen_nonneg up). rewrite Hc', (proj2 (Z.ltb_ge _ _)) by lia.
    rewrite lookup_ge_None_2; [done|]. unfold zlen in *. lia.
Qed.

(** What it takes for the manager to move from [cur] to [b]. *)
Record moves (s s' : FS) : Prop := {
  mv_tracker : tracker s' = tracker s;
  mv_frame : ctx_frame (fcm_ctx s) (fcm_ctx s');
  mv_best : best s' = commit b;
  mv_state : get_toplevel_ol_state (fcm_ctx s') (commit b) = Ok (Some (cur_olstate (inner_state s')));
  mv_canon : canonical (fcm_ctx s') t b;
  mv_pending : epochs_pending_finalization (inner_state s') = epochs_pending_finalization (inner_state s);
}.

Lemma record_suffix_run s s1 :
  canonical (fcm_ctx s) t cur -> at_tip s s1 b -> 0 <= slot_of pivot -> slot_of b <= U64_MAX -> up <> [] ->
  exists s', record_canonical_suffix (slot_of pivot) up s1 = (Ok tt, s') /\ moves s s'.
Proof.
  intros Hcan Hat Hp Hmax Hne. destruct move_slots as [_ Hsb]. destruct (at_tip_best _ _ _ Hat) as [Hb1 Ht1].
  assert (Hlen : 0 < zlen up) by (destruct up; [done|autorewrite with zlen; pose proof (zlen_nonneg l); lia]).
  unfold record_canonical_suffix, checked_add_u64. rewrite (proj2 (Z.leb_le _ _)) by lia.
  destruct (law_replace (slot_of pivot + 1) up (fcm_ctx s1)) as (c' & Hr & Hf & Hc'); [lia|].
  destruct Hat as [Hf1 Hc1 (st & Hi & Hst)].
  eexists. split; [by apply on_ctx_ok|]. split; simpl.
  - done.
  - by etransitivity.
  - done.
  - apply (cf_state _ _ Hf). rewrite Hi. simpl. done.
  - eapply (canonical_switch (fcm_ctx s)).
    + intros id (l & Hl & Hid). apply (can_chain _ _ _ Hcan). exists (down ++ pivot :: base). split; [done|].
      rewrite (anc_path_fun _ _ _ _ Hl (anc_path_drop _ _ _ _ _ Hb)) in Hid. apply elem_of_app. by right.
    + intros slot. rewrite Hc'. by rewrite Hc1.
  - by rewrite Hi.
Qed.

Context (s : FS) (bundle : OLBlock).
Context (Hst : stored (fcm_ctx s) t) (Hbest : best s = commit cur) (Hcan : canonical (fcm_ctx s) t cur).
Context (Hstep : slot_of b = slot_of cur + 1) (Hp0 : 0 <= slot_of pivot) (Hmax : slot_of b <= U64_MAX).
Context (Hid : compute_blkid (blk_header bundle) = b) (Hsl : hdr_slot (blk_header bundle) = slot_of b).

Lemma up_single : down = [] -> up = [b].
Proof.
  intros Hdown. destruct move_slots as [Hsc Hsb]. rewrite Hdown in Hsc. autorewrite with zlen in Hsc.
  pose proof (last_up ltac:(intros Hup; rewrite Hup in Hsb; autorewrite with zlen in Hsb; lia)) as Hl. clear Hcan Hst Hb.
  destruct up as [|x [|y up']]; simpl in Hl; [done|congruence|]. autorewrite with zlen in Hsb. pose proof (zlen_nonneg up'). lia.
Qed.

Lemma extend_tip_run :
  down = [] -> exists s', apply_tip_update (ExtendTip cur b) bundle s = (Ok tt, s') /\ moves s s'.
Proof.
  intros Hdown. destruct move_slots as [Hsc Hsb]. pose proof (up_single Hdown) as Hup.
  rewrite Hdown in Hsc. autorewrite with zlen in Hsc.
  cbn [apply_tip_update]. rewrite Hid, Hsl. fold (commit b).
  assert (Hlb : live t b) by (by eexists). destruct (st_state _ _ Hst b Hlb) as [st Hstb].
  rewrite (mbind_ok _ _ _ _ _ (ctx_read_ok _ _ _ Hstb)). cbn [ok_or]. rewrite (mbind_ok _ _ _ st s) by done.
  rewrite (mbind_ok _ _ _ (obc_slot (best s)) s) by done. rewrite Hbest. cbn [obc_slot commit].
  destruct (update_tip_block_run b st s Hstb) as (s1 & Hu & Hat). rewrite (mbind_ok _ _ _ _ _ Hu).
  replace (slot_of cur) with (slot_of pivot) by lia. rewrite <- Hup. apply record_suffix_run; try done. by rewrite Hup.
Qed.

Lemma reorg_run :
  down <> [] ->
  exists s', apply_tip_update (TipReorg {| reorg_down := down; reorg_pivot := pivot; reorg_up := up |}) bundle s = (Ok tt, s') /\
    moves s s'.
Proof.
  intros Hdown. destruct move_slots as [Hsc Hsb]. pose proof (zlen_nonneg down) as Hdl.
  assert (Hne : up <> []) by (intros ->; autorewrite with zlen in Hsb; lia).
  assert (Hd1 : 0 < zlen down) by (destruct down; [done|autorewrite with zlen; pose proof (zlen_nonneg l); lia]).
  assert (Hlp : live t pivot) by (eexists; by eapply anc_path_drop). assert (Hlb : live t b) by (by eexists).
  cbn [apply_tip_update reorg_pivot reorg_down reorg_up].
  destruct (st_header _ _ Hst pivot) as [ph Hph]; [by left|].
  rewrite (mbind_ok _ _ _ _ _ (get_block_slot_run pivot s ph (st_agree _ _ Hst) ltac:(by rewrite Hbest) Hph)).
  rewrite (mbind_ok _ _ _ (best s) s) by done. fold (commit pivot).
  destruct (revert_run pivot s (st_state _ _ Hst pivot Hlp)) as (s1 & Hr & Hat1). destruct (at_tip_best _ _ _ Hat1) as [Hb1 _].
  rewrite (mbind_ok _ _ _ tt s1).
  2: { destruct down; [done|]. rewrite Hbest. cbn [obc_slot commit]. by rewrite (proj2 (Z.leb_gt _ _)) by lia. }
  destruct (advance_all up s1 t pivot) as [|(s2 & Ha & Hat2)]; [|done|apply up_linked|apply up_live|done|].
  { eapply stored_frame; [apply Hat1|done]. }
  rewrite (last_up Hne) in Hat2. simpl in Hat2. rewrite (mbind_ok _ _ _ _ _ Ha).
  pose proof (at_tip_trans _ _ _ _ _ Hat1 Hat2) as Hat. destruct (at_tip_best _ _ _ Hat2) as [Hb2 _].
  unfold Reorg_new_tip. cbn [reorg_up reorg_pivot]. rewrite (last_up Hne).
  rewrite (proj2 (Z.eqb_neq b pivot)) by (intros ->; lia).
  destruct (st_header _ _ Hst b) as [bh Hbh]; [by left|].
  assert (Hslot : get_block_slot b s2 = (Ok (slot_of b), s2)).
  { apply (get_block_slot_run b s2 bh); [|by rewrite Hb2|by rewrite (cf_header _ _ (at_frame _ _ _ Hat))].
    eapply headers_agree_frame; [apply Hat|]. apply Hst. }
  rewrite mbind_assoc, (mbind_ok _ _ _ _ _ Hslot). rewrite (mbind_ok _ _ _ (commit b) s2) by done.
  unfold ensure_final_tip. rewrite mbind_assoc, (mbind_ok _ _ _ (best s2) s2) by done. rewrite Hb2, bool_decide_true by done.
  cbn [negb]. rewrite (mbind_ok _ _ _ tt s2) by done. by apply record_suffix_run.
Qed.

Lemma move_run :
  exists s', apply_tip_update (update_of cur b down pivot up) bundle s = (Ok tt, s') /\ moves s s'.
Proof.
  destruct move_slots as [Hsc Hsb]. pose proof (zlen_nonneg down) as Hdl.
  destruct (decide (down = [])) as [Hd|Hd].
  - rewrite Hd, (up_single Hd). by apply extend_tip_run.
  - rewrite update_of_reorg; [by apply reorg_run| |done]. intros Hup. rewrite Hup in Hsb. autorewrite with zlen in Hsb. lia.
Qed.
End move.

(** ** Refusing a block *)

Lemma on_ctx_benign {A} (m : M FcmError C A) s :
  benign m -> exists a c', on_ctx m s = (Ok a, with_ctx c' s) /\ ctx_frame (fcm_ctx s) c' /\ same_canon (fcm_ctx s) c'.
Proof. intros Hm. destruct (Hm (fcm_ctx s)) as (a & c' & He & ? & ?). exists a, c'. split; [by apply on_ctx_ok|done]. Qed.

Lemma same_canon_trans a b c : same_canon a b -> same_canon b c -> same_canon a c.
Proof. intros H1 H2 slot. by rewrite H2, H1. Qed.

Lemma mark_invalid_run s bundle b :
  get_ol_block (fcm_ctx s) (obc_blkid b) = Ok (Some bundle) ->
  exists r c', set_block_status_and_clear_invalid_high_watermark bundle b Invalid s = (Ok r, with_ctx c' s) /\
    ctx_frame (fcm_ctx s) c' /\ same_canon (fcm_ctx s) c'.
Proof.
  intros Hb. destruct (law_set_status _ Invalid _ _ Hb) as (r & c1 & Hset & Hf1 & Hc1).
  unfold set_block_status_and_clear_invalid_high_watermark.
  rewrite (mbind_ok _ _ _ r (with_ctx c1 s)) by (by apply on_ctx_ok).
  assert (Hdel : exists c2, (if hdr_is_terminal (blk_header bundle) then
      let* _ := on_ctx (del_epoch_summary {| ec_epoch := hdr_epoch (blk_header bundle); ec_last_slot := obc_slot b;
                                             ec_last_blkid := obc_blkid b |}) in mret tt
      else mret tt) (with_ctx c1 s) = (Ok tt, with_ctx c2 s) /\ ctx_frame c1 c2 /\ same_canon c1 c2).
  { destruct (hdr_is_terminal _); [|by exists c1].
    match goal with |- context [del_epoch_summary ?e] =>
      destruct (on_ctx_benign _ (with_ctx c1 s) (law_del_summary e)) as (r2 & c2 & H2 & Hf2 & Hc2) end.
    exists c2. split; [|done]. by rewrite (mbind_ok _ _ _ _ _ H2). }
  destruct Hdel as (c2 & Hdel & Hf2 & Hc2). rewrite (mbind_ok _ _ _ _ _ Hdel).
  destruct (law_high_watermark c2) as [hw Hhw]. rewrite (mbind_ok _ _ _ hw (with_ctx c2 s)) by (by apply ctx_read_ok).
  case_bool_decide; cbn [negb].
  - match goal with |- context [rollback_block_state_indexing ?e ?cutoff] =>
      destruct (on_ctx_benign _ (with_ctx c2 s) (law_rollback e cutoff)) as ([] & c3 & H3 & Hf3 & Hc3) end.
    rewrite (mbind_ok _ _ _ _ _ H3).
    destruct (on_ctx_benign _ (with_ctx c3 s) (law_clear_watermark b)) as (r4 & c4 & H4 & Hf4 & Hc4).
    rewrite (mbind_ok _ _ _ _ _ H4). exists r, c4. split; [done|]. split.
    + etransitivity; [exact Hf1|]. etransitivity; [exact Hf2|]. by etransitivity.
    + eapply same_canon_trans; [exact Hc1|]. eapply same_canon_trans; [exact Hc2|]. by eapply same_canon_trans.
  - exists r, c2. split; [done|]. split; [by etransitivity|by eapply same_canon_trans].
Qed.

(** ** A new block *)

Lemma inv_frame s c' : ctx_frame (fcm_ctx s) c' -> same_canon (fcm_ctx s) c' -> fcm_inv s -> fcm_inv (with_ctx c' s).
Proof.
  intros Hf Hc [Hst Ht Hb Hbl Hs Hm [Hch Hab]]. split; simpl; try done.
  - by eapply stored_frame.
  - by apply (cf_state _ _ Hf).
  - split; [intros id; rewrite Hc; apply Hch|intros slot; rewrite Hc; apply Hab].
Qed.

Lemma fork_child t cur p e b down pivot up :
  fork t cur p down pivot up -> pending_table t !! b = Some e -> be_parent e = p -> b <> finalized_tip t -> ~ descends t b cur ->
  fork t cur b down pivot (up ++ [b]).
Proof.
  intros [(base & Hc & Hp) Hdis] He <- Hbt Hnd. split.
  - exists base. split; [done|]. rewrite rev_app_distr. simpl. by econstructor.
  - intros x Hx [Hu|Hu]%elem_of_app; [by eapply Hdis|]. apply list_elem_of_singleton in Hu as ->. apply Hnd.
    exists (down ++ pivot :: base). split; [done|]. apply elem_of_app. by left.
Qed.

Section attach_to.
Context (c : C) (t : UnfinalizedBlockTracker) (Ht : tree_ok t) (Hst : stored c t) (b : OLBlockId) (bundle : OLBlock).
Context (Hblk : get_ol_block c b = Ok (Some bundle)).
Context (Hb0 : b <> buf32_zero) (Hp : live t (parent_of b)) (Hstep : slot_of b = slot_of (parent_of b) + 1).
Context (Hstate : exists st, get_toplevel_ol_state c (commit b) = Ok (Some st)).

(** The tracker with the block. *)
Lemma attach_new :
  exists new t', attach_block (slot_of b) b (parent_of b) t = (Ok new, t') /\
    finalized_epoch t' = finalized_epoch t /\ tree_ok t' /\ stored c t' /\
    (forall id l, anc_path t id l -> anc_path t' id l) /\
    (forall id, id ∈ unfinalized_tips t' -> id ∈ unfinalized_tips t \/ id = b) /\
    (is_Some (pending_table t !! b) /\ t' = t \/
     pending_table t !! b = None /\ b ∈ unfinalized_tips t' /\ b <> finalized_tip t' /\
       exists e, pending_table t' !! b = Some e /\ be_parent e = parent_of b).
Proof.
  pose proof (tree_wf _ Ht) as Hwf. pose proof (attach_block_run _ _ _ t b Hwf Hb0) as Hrun.
  destruct (live_in_table t (wf_tip _ _ _ _ Hwf) _ Hp) as [pe Hpe].
  destruct (attach_block (slot_of b) b (parent_of b) t) as [[new|e|] t'] eqn:Ha; [|exfalso|done].
  2: { destruct Hrun as [_ Hb]. unfold attach_block in Ha. rewrite Hb, Hpe, (wf_slot _ _ _ _ Hwf _ _ Hpe) in Ha.
       rewrite (proj2 (Z.leb_gt _ _)) in Ha by lia. done. }
  exists new, t'. split; [done|]. destruct Hrun as [Hwf' [[-> Hin]|(Hb & Hlt & pe' & Hpe' & ->)]].
  { split_and!; try done; [naive_solver|by left]. }
  rewrite Hpe in Hpe'. injection Hpe' as <-.
  assert (Hlive : forall id, live (attached slot_of parent_of t b pe) id <-> live t id \/ (id = b /\ live t (parent_of b))).
  { intros id. by apply attached_live with (g := g). }
  assert (Hbt : b <> finalized_tip t) by (intros ->; destruct (wf_tip _ _ _ _ Hwf); congruence).
  split_and!; try done.
  - split; [done|]. intros id [Hl|[-> _]]%Hlive Hne; [by apply (tree_step _ Ht)|done].
  - destruct (law_block _ _ _ Hblk) as [_ Hh]. split.
    + apply Hst.
    + intros id [Hl|[-> _]]%Hlive Hne; [by apply (st_block _ _ Hst)|by exists bundle].
    + intros id Hid. rewrite Hlive in Hid. simpl in Hid. rewrite elem_of_union, elem_of_singleton, elem_of_difference in Hid.
      destruct (decide (id = b)) as [->|Hne]; [by eexists|]. apply (st_header _ _ Hst). naive_solver.
    + intros id [Hl|[-> _]]%Hlive; [by apply (st_state _ _ Hst)|done].
  - intros id l. by apply attached_path.
  - intros id. simpl. rewrite elem_of_union, elem_of_singleton, elem_of_difference. naive_solver.
  - right. split_and!; [done|simpl; set_solver|done|]. eexists. split; [apply attached_b|done].
Qed.
End attach_to.

Section new_block.
Context (s : FS) (Hinv : fcm_inv s) (bundle : OLBlock).
Let b := compute_blkid (blk_header bundle).
Let t := tracker s.
Let cur := obc_blkid (best s).
Context (Hblk : get_ol_block (fcm_ctx s) b = Ok (Some bundle)).

Lemma bundle_header : hdr_slot (blk_header bundle) = slot_of b /\ hdr_parent_blkid (blk_header bundle) = parent_of b.
Proof. destruct (law_block _ _ _ Hblk) as [_ Hh]. by apply (st_agree _ _ (fi_stored s Hinv)). Qed.

Context (Hb0 : b <> buf32_zero) (Hp : live t (parent_of b)) (Hstep : slot_of b = slot_of (parent_of b) + 1).
Context (Hstate : exists st, get_toplevel_ol_state (fcm_ctx s) (commit b) = Ok (Some st)).

(** The search depth suffices for the fork between the best block and the parent. *)
Definition fork_in_depth : Prop := forall down pivot up,
  fork t cur (parent_of b) down pivot up -> (length down < REORG_DEPTH)%nat /\ (S (length up) < REORG_DEPTH)%nat.

Context (Hdepth : fork_in_depth) (H0 : 0 <= slot_of (finalized_tip t)) (Hmax : slot_of b <= U64_MAX).

(** A block that is already there is not higher than the best one. *)
Lemma known_below : is_Some (pending_table t !! b) -> slot_of b <= slot_of cur.
Proof.
  intros [e He]. pose proof (fi_tree s Hinv) as Ht. pose proof (tree_wf _ Ht) as Hwf. fold t in Ht, Hwf.
  destruct (live_dec t (wf_tip _ _ _ _ Hwf) b) as [Hl|Hl]; [by apply live_below_best|].
  destruct (decide (b = g)) as [Hg|Hg].
  - destruct (wf_stale _ _ _ _ Hwf b e He Hl) as [Hlt|[[pe Hpe] _]].
    + pose proof (live_slot _ _ _ t _ Hwf (fi_best_live s Hinv)). unfold cur. lia.
    + rewrite (wf_parent _ _ _ _ Hwf _ _ He) in Hpe. unfold recorded_parent in Hpe.
      rewrite (proj2 (Z.eqb_eq _ _) Hg), (wf_zero _ _ _ _ Hwf) in Hpe. done.
  - destruct Hl. eapply live_step; [done|]. rewrite (wf_parent _ _ _ _ Hwf _ _ He). unfold recorded_parent.
    by rewrite (proj2 (Z.eqb_neq _ _) Hg).
Qed.

Section attached.
Context (t' : UnfinalizedBlockTracker) (Hfin : finalized_epoch t' = finalized_epoch t).
Context (Ht' : tree_ok t') (Hst' : stored (fcm_ctx s) t') (Hpath : forall id l, anc_path t id l -> anc_path t' id l).
Context (Htips : forall id, id ∈ unfinalized_tips t' -> id ∈ unfinalized_tips t \/ id = b).

Lemma attached_canon : canonical (fcm_ctx s) t' cur.
Proof.
  destruct (fi_best_live s Hinv) as [lc Hlc]. destruct (fi_canon s Hinv) as [Hch Hab]. split; [|done].
  intros id (l & Hl & Hid). apply Hch. exists lc. split; [done|].
  by rewrite <- (anc_path_fun _ _ _ _ Hl (Hpath _ _ Hlc)).
Qed.

Lemma stay_inv : slot_of b <= slot_of cur -> fcm_inv (set_inner (set_tracker t') s).
Proof.
  intros Hle. destruct Hinv as [_ _ Hb Hbl Hs Hm _]. split; try done.
  - destruct Hbl as [l Hl]. exists l. by apply Hpath.
  - intros id [Hid| ->]%Htips; [by apply Hm|done].
  - apply attached_canon.
Qed.

Lemma move_inv :
  slot_of cur < slot_of b -> b <> finalized_tip t' -> (exists e, pending_table t' !! b = Some e /\ be_parent e = parent_of b) ->
  exists u s', compute_tip_update (E := FcmError) cur b REORG_DEPTH t' = Ok (Some u) /\
    apply_tip_update u bundle (set_inner (set_tracker t') s) = (Ok tt, s') /\
    fcm_inv s' /\ tracker s' = t' /\ best s' = commit b.
Proof.
  intros Hlt Hbt (e & He & Hpe). set (s1 := set_inner (set_tracker t') s).
  pose proof (live_below_best s _ Hinv Hp) as Hpb. fold cur in Hpb. pose proof (fi_best_live s Hinv) as Hlc. fold t cur in Hlc.
  assert (Hlc' : live t' cur) by (destruct Hlc as [l Hl]; exists l; by apply Hpath).
  assert (Hnd : ~ descends t' b cur) by (intros Hd; pose proof (descends_slot t' b cur Ht' Hd); lia).
  destruct (fork_exists t cur (parent_of b) Hlc Hp) as (down & pivot & up & Hf).
  destruct (Hdepth down pivot up Hf) as [Hd1 Hd2].
  assert (Hf' : fork t' cur (parent_of b) down pivot up).
  { destruct Hf as [(base & H1 & H2) Hdis]. split; [|done]. exists base. split; by apply Hpath. }
  pose proof (fork_child t' cur (parent_of b) e b down pivot up Hf' He Hpe Hbt Hnd) as Hfb.
  pose proof (compute_tip_update_fork t' FcmError cur b REORG_DEPTH down pivot (up ++ [b]) Hfb Hbt) as Hc.
  destruct Hfb as [(base & Hcur & Hb) Hdis]. destruct bundle_header as [Hbs Hbp].
  assert (Hp0 : 0 <= slot_of pivot).
  { pose proof (live_slot _ _ _ t' pivot (tree_wf _ Ht') ltac:(eexists; by eapply anc_path_drop)) as Hs.
    unfold finalized_tip in Hs. rewrite Hfin in Hs. unfold finalized_tip in H0. lia. }
  destruct (move_run t' Ht' cur b pivot down (up ++ [b]) base Hcur Hb s1 bundle) as (s' & Hs' & [Hmt Hmf Hmb Hms Hmc _]);
    [done|exact (fi_best s Hinv)|by apply attached_canon|lia|done..|].
  exists (update_of cur b down pivot (up ++ [b])), s'. split_and!; try done.
  - rewrite Hc by (intros Heq; rewrite Heq in Hlt; lia). 
    rewrite (bool_decide_true (length down < REORG_DEPTH /\ length (up ++ [b]) < REORG_DEPTH)%nat); [by rewrite orb_true_r|].
    rewrite length_app. simpl. lia.
  - split; rewrite ?Hmt, ?Hmb; try done.
    + eapply stored_frame; [apply Hmf|done].
    + by exists (rev (up ++ [b]) ++ pivot :: base).
    + intros id [Hid| ->]%Htips; [|done]. pose proof (fi_max s Hinv id Hid). unfold cur in Hlt. cbn [obc_blkid commit]. lia.
Qed.
End attached.

(** From the attached block to the end of the handler. *)
Lemma choose_new new t' :
  attach_block (slot_of b) b (parent_of b) t = (Ok new, t') ->
  exists s',
    (let* tips := mreads (fun s => chain_tips_iter (tracker s)) in
     let* best_block := ctx_read (pick_best_block cur tips) in
     let* tip_update := mreads_res (fun s => compute_tip_update cur best_block REORG_DEPTH (tracker s)) in
     match tip_update with
     | None => mret true
     | Some tip_update => apply_tip_update tip_update bundle ;;; mret true
     end) (set_inner (set_tracker t') s) = (Ok true, s') /\
    fcm_inv s' /\ tracker s' = t' /\ best s' = (if slot_of cur <? slot_of b then commit b else best s).
Proof.
  intros Ha. destruct (attach_new (fcm_ctx s) t (fi_tree s Hinv) (fi_stored s Hinv) b bundle Hblk Hb0 Hp Hstep Hstate)
    as (new' & t2 & Ha' & Hfin & Ht' & Hst' & Hpath & Htips & Hnew).
  rewrite Ha in Ha'. injection Ha' as <- <-. set (s1 := set_inner (set_tracker t') s).
  rewrite (mbind_ok _ _ _ (chain_tips_iter t') s1) by done.
  destruct (st_header _ _ Hst' cur) as [ch Hch].
  { left. destruct (fi_best_live s Hinv) as [lc Hlc]. exists lc. by apply Hpath. }
  assert (Hpick : pick_best_block cur (chain_tips_iter t') (fcm_ctx s1) = Ok (if slot_of cur <? slot_of b then b else cur)).
  { unfold pick_best_block, chain_tips_iter. simpl. rewrite Hch. cbn [ok_or res_bind]. rewrite (pick_best_new _ _ b).
    - destruct (slot_of cur <? slot_of b) eqn:Hlt; zbool; [|by rewrite andb_false_r].
      rewrite bool_decide_true; [done|]. apply elem_of_elements.
      destruct Hnew as [[Hin _]|(_ & ? & _)]; [pose proof (known_below Hin); lia|done].
    - apply Hst'.
    - intros x Hx%elem_of_elements. apply (st_header _ _ Hst'). by right.
    - intros x Hx%elem_of_elements Hxb. destruct (Htips x Hx) as [Hx'|]; [|done]. by apply (fi_max s Hinv).
    - done.
    - by left. }
  rewrite (mbind_ok _ _ _ _ _ (ctx_read_ok _ _ _ Hpick)). unfold mbind at 1, mreads_res. change (tracker s1) with t'.
  destruct (slot_of cur <? slot_of b) eqn:Hlt; zbool.
  - destruct Hnew as [[Hin _]|(_ & _ & Hbt & He)]; [pose proof (known_below Hin); lia|].
    destruct (move_inv t' Hfin Ht' Hst' Hpath Htips Hlt Hbt He) as (u & s' & -> & Hu & Hi & Hts & Hbs).
    exists s'. split_and!; try done. by rewrite (mbind_ok _ _ _ _ _ Hu).
  - exists s1. unfold compute_tip_update. rewrite Z.eqb_refl. split_and!; try done. by apply stay_inv.
Qed.
End new_block.

(** C6: The longest-chain rule.  A block with a valid credential that is executed
    and builds on a live block is accepted; it becomes the best block exactly if
    its slot is higher than that of the best one, whether it extends the best
    chain or forks off within the search depth, and the canonical index again
    lists the chain of the best block.  A block that cannot be executed, or has no
    valid credential, is refused and changes neither tree nor best block. *)
Theorem handle_new_block_longest s bundle :
  fcm_inv s ->
  let b := compute_blkid (blk_header bundle) in
  get_ol_block (fcm_ctx s) b = Ok (Some bundle) ->
  let valid := check_ol_block_proposal_valid b bundle (sequencer_predicate s) in
  (forall c', valid = Ok tt -> try_exec_block (commit b) (fcm_ctx s) = (Ok tt, c') ->
     b <> buf32_zero -> live (tracker s) (parent_of b) -> fork_in_depth s bundle ->
     0 <= slot_of (finalized_tip (tracker s)) -> slot_of b <= U64_MAX ->
     exists s', handle_new_block bundle s = (Ok true, s') /\ fcm_inv s' /\
       is_Some (pending_table (tracker s') !! b) /\
       best s' = if slot_of (obc_blkid (best s)) <? slot_of b then commit b else best s) /\
  (forall e c', valid = Ok tt -> try_exec_block (commit b) (fcm_ctx s) = (Err e, c') ->
     exists s', handle_new_block bundle s = (Ok false, s') /\ fcm_inv s' /\ inner_state s' = inner_state s) /\
  (forall e, valid = Err e -> handle_new_block bundle s = (Ok false, s)).
Proof.
  intros Hinv b Hblk valid. destruct (bundle_header s Hinv bundle Hblk) as [Hbs Hbp]. fold b in Hbs, Hbp.
  unfold handle_new_block. fold b. rewrite Hbs, Hbp. fold (commit b). split_and!.
  - intros c1 Hv Hex Hb0 Hp Hdepth H0 Hmax. unfold mbind at 1, mreads. fold valid. rewrite Hv.
    destruct (law_exec _ _ _ _ Hex) as (_ & Hf1 & Hc1).
    destruct (law_exec_ok (commit b) _ bundle _ Hblk Hex) as [[st Hst] Hcont].
    destruct (st_header _ _ (fi_stored s Hinv) _ (or_introl Hp)) as [ph Hph].
    assert (Hstep : slot_of b = slot_of (parent_of b) + 1).
    { rewrite <- Hbs, (Hcont ph) by (by rewrite Hbp). by rewrite (proj1 (st_agree _ _ (fi_stored s Hinv) _ _ Hph)). }
    unfold mcatch. rewrite (mbind_ok _ _ _ true (with_ctx c1 s)).
    2: { by rewrite (mbind_ok _ _ _ tt (with_ctx c1 s)) by (by apply on_ctx_ok). }
    cbn [negb]. assert (Hblk1 : get_ol_block c1 b = Ok (Some bundle)) by (by rewrite (cf_block _ _ Hf1)).
    destruct (law_set_status b Valid c1 bundle Hblk1) as (r & c2 & Hset & Hf2 & Hc2).
    rewrite (mbind_ok _ _ _ r (with_ctx c2 s)) by (by apply (on_ctx_ok _ (with_ctx c1 s))).
    assert (Hi2 : fcm_inv (with_ctx c2 s)).
    { apply inv_frame; [by etransitivity| |done]. intros slot. by rewrite Hc2, Hc1. }
    assert (Hblk2 : get_ol_block c2 b = Ok (Some bundle)) by (by rewrite (cf_block _ _ Hf2)).
    assert (Hst2 : exists st, get_toplevel_ol_state c2 (commit b) = Ok (Some st)) by (exists st; by apply (cf_state _ _ Hf2)).
    rewrite (mbind_ok _ _ _ (obc_blkid (best s)) (with_ctx c2 s)) by done.
    destruct (attach_new c2 (tracker s) (fi_tree _ Hi2) (fi_stored _ Hi2) b bundle Hblk2 Hb0 Hp Hstep Hst2) as (new & t' & Ha & _ & _ & _ & _ & _ & Hnew).
    rewrite (mbind_ok _ _ _ new (set_inner (set_tracker t') (with_ctx c2 s))).
    2: { unfold on_tracker. unfold tracker in Ha. cbn [with_ctx inner_state]. by rewrite Ha. }
    destruct (choose_new (with_ctx c2 s) Hi2 bundle Hblk2 Hb0 Hp Hstep Hst2 Hdepth H0 Hmax new t' Ha)
      as (s' & Hs' & Hi' & Hts & Hbest).
    exists s'. split_and!; try done. rewrite Hts. destruct Hnew as [[? ->]|(_ & _ & _ & e & He & _)]; [done|by exists e].
  - intros e c1 Hv Hex. unfold mbind at 1, mreads. fold valid. rewrite Hv.
    destruct (law_exec _ _ _ _ Hex) as (_ & Hf1 & Hc1).
    rewrite (mbind_ok _ _ _ false (with_ctx c1 s)).
    2: { unfold mcatch. unfold mbind at 1. unfold on_ctx. by rewrite Hex. }
    cbn [negb]. assert (Hblk1 : get_ol_block c1 b = Ok (Some bundle)) by (by rewrite (cf_block _ _ Hf1)).
    destruct (mark_invalid_run (with_ctx c1 s) bundle (commit b) Hblk1) as (r & c2 & Hr & Hf2 & Hc2).
    rewrite (mbind_ok _ _ _ _ _ Hr). eexists. split; [done|]. split; [|done].
    apply (inv_frame s); [by etransitivity| |done]. intros slot. by rewrite Hc2, Hc1.
  - intros e Hv. unfold mbind at 1, mreads. fold valid. by rewrite Hv.
Qed.

(** ** Finalizing an epoch *)

Section finalize.
Context (s : FS) (Hinv : fcm_inv s) (epoch : EpochCommitment) (r : FinalizeReport) (t' : UnfinalizedBlockTracker).
Let n := ec_last_blkid epoch.
Let t := tracker s.
Context (Hwf' : tracker_wf slot_of parent_of g t') (Hf : finalizes t n epoch r t').

(** Ancestors after the finalization are ancestors before it. *)
Lemma finalized_descends x y : descends t' x y -> descends t x y.
Proof.
  pose proof (tree_wf _ (fi_tree s Hinv)) as Hwf. fold t in Hwf.
  intros (l & Hl & Hx). induction Hl as [|y e' l Hne He' Hp IH].
  - apply list_elem_of_singleton in Hx as ->. apply descends_refl.
    eapply descends_live, (fin_live _ _ _ _ _ Hf), live_tip.
  - assert (Hly : live t y).
    { eapply descends_live, (fin_live _ _ _ _ _ Hf). eapply live_step; [done|by eexists]. }
    destruct (live_in_table t (wf_tip _ _ _ _ Hwf) y Hly) as [e He].
    apply elem_of_cons in Hx as [->|Hx]; [by apply descends_refl|]. specialize (IH Hx).
    rewrite (wf_parent _ _ _ _ Hwf' _ _ He'), <- (wf_parent _ _ _ _ Hwf _ _ He) in IH.
    assert (Hyt : y <> finalized_tip t).
    { intros ->. apply descends_live in IH. by eapply old_tip_parent. }
    apply (descends_step t x y e He Hyt Hly). by right.
Qed.

Lemma finalized_not_tip id : live t' id -> id <> finalized_tip t' -> id <> finalized_tip t.
Proof.
  intros Hl Hne Heq. apply (fin_live _ _ _ _ _ Hf) in Hl. rewrite Heq in Hl. apply descends_of_tip in Hl.
  apply Hne. rewrite Heq, <- Hl. unfold finalized_tip. by rewrite (fin_epoch _ _ _ _ _ Hf).
Qed.

Lemma finalized_stored c' : ctx_frame (fcm_ctx s) c' -> stored c' t' /\ tree_ok t'.
Proof.
  intros Hfr. pose proof (stored_frame _ _ _ Hfr (fi_stored s Hinv)) as [Ha Hb Hh Hs]. fold t in Hb, Hh, Hs.
  assert (Hlive : forall id, live t' id -> live t id).
  { intros id Hl. by eapply descends_live, (fin_live _ _ _ _ _ Hf). }
  split; split; try done.
  - intros id Hl Hne. apply Hb; [by apply Hlive|by apply finalized_not_tip].
  - intros id [Hl|Hl]; apply Hh; [left; by apply Hlive|right; by apply (fin_tips_in _ _ _ _ _ Hf)].
  - intros id Hl. by apply Hs, Hlive.
  - intros id Hl Hne. apply (tree_step _ (fi_tree s Hinv)); [by apply Hlive|by apply finalized_not_tip].
Qed.

Lemma finalized_inv c' pending :
  ctx_frame (fcm_ctx s) c' -> same_canon (fcm_ctx s) c' ->
  fcm_inv {| fcm_ctx := c'; sequencer_predicate := sequencer_predicate s;
             inner_state := set_pending pending (set_tracker t' (inner_state s)) |} <->
  descends t n (obc_blkid (best s)).
Proof.
  intros Hfr Hcn. split; [intros [_ _ _ Hl _ _ _]; by apply (fin_live _ _ _ _ _ Hf)|].
  intros Hd. destruct (finalized_stored c' Hfr) as [Hst Ht]. destruct Hinv as [_ _ Hb _ Hs Hm [Hch Hab]].
  split; try done.
  - by apply (fin_live _ _ _ _ _ Hf).
  - by apply (cf_state _ _ Hfr).
  - intros id Hid. by apply Hm, (fin_tips_in _ _ _ _ _ Hf).
  - split; [intros id Hdid; rewrite Hcn; by apply Hch, finalized_descends|intros slot; rewrite Hcn; apply Hab].
Qed.
End finalize.

(** C24: Finalizing an epoch whose terminal is a live block moves the base of the
    tree there, drops the pending epochs up to it and keeps the best block; the
    invariant of the manager survives exactly if the best block descends from the
    new base.  An epoch whose terminal is not live is refused and leaves the
    manager's own state as it was. *)
Theorem finalize_epoch_spec s epoch c' :
  fcm_inv s -> ec_epoch (default epoch_null (last_finalized_epoch (fcm_ctx s))) <= ec_epoch epoch ->
  ctx_finalize_epoch epoch (fcm_ctx s) = (Ok tt, c') ->
  let n := ec_last_blkid epoch in
  (live (tracker s) n -> n <> finalized_tip (tracker s) ->
     exists s', finalize_epoch epoch s = (Ok tt, s') /\ finalized_epoch (tracker s') = epoch /\ best s' = best s /\
       (forall id, live (tracker s') id <-> descends (tracker s) n id) /\
       epochs_pending_finalization (inner_state s') = pop_pending epoch (epochs_pending_finalization (inner_state s)) /\
       (fcm_inv s' <-> descends (tracker s) n (obc_blkid (best s)))) /\
  (~ live (tracker s) n -> finalize_epoch epoch s = (Err (ChainTip (MissingBlock n)), with_ctx c' s)).
Proof.
  intros Hinv Hep Hfin n. destruct (law_finalize _ _ _ _ Hfin) as [Hfr Hcn].
  pose proof (tree_wf _ (fi_tree s Hinv)) as Hwf. unfold finalize_epoch.
  rewrite (mbind_ok _ _ _ (default epoch_null (last_finalized_epoch (fcm_ctx s))) s) by done.
  rewrite (proj2 (Z.ltb_ge _ _) Hep), (mbind_ok _ _ _ tt (with_ctx c' s)) by (by apply on_ctx_ok).
  destruct (update_finalized_epoch_run _ _ _ (tracker s) epoch Hwf) as (res & t' & Hu & Hw & Hr). fold n in Hr.
  split.
  - intros Hl Hnt. destruct Hr as [[? _]|[[? _]|(_ & _ & rep & -> & Hf)]]; [done..|].
    rewrite (mbind_ok _ _ _ rep (set_inner (set_tracker t') (with_ctx c' s))) by (unfold on_tracker; unfold tracker in Hu; simpl; by rewrite Hu).
    eexists. split; [done|]. split_and!; try done; [apply Hf..|].
    exact (finalized_inv s Hinv epoch rep t' Hw Hf c' _ Hfr Hcn).
  - intros Hl. destruct Hr as [(Ht & _)|[(_ & -> & ->)|(_ & ? & _)]]; [|clear Hl|done].
    + destruct Hl. rewrite Ht. apply live_tip.
    + unfold mbind at 1, on_tracker. unfold tracker in Hu. simpl. rewrite Hu. simpl. by destruct s as [c p []].
Qed.
End spec.
