(* ===== verification/ForkChoiceInit.v ===== *)
(** * Starting the fork choice manager

    Loading the valid blocks of the storage on top of the finalized epoch,
    choosing the highest tip and repairing the canonical index lead to a state
    that satisfies the invariant of the manager. *)

From S2P Require Import Prelude Identifiers ChainTypes Externals OLState Tracker TrackerFinal TipUpdate ForkChoice ForkChoiceSpec.

Section init.
Context `{XR : ExtRoot} `{FX : !FcmExt} {C : Type} `{FC : !FcmContext C} `{FL : !FcmLaws}.
Context (slot_of : OLBlockId -> Slot) (parent_of : OLBlockId -> OLBlockId) (g : OLBlockId).

Abbreviation canon := get_canonical_block_at.
Abbreviation commit := (commit slot_of).
Abbreviation tree_ok := (tree_ok slot_of parent_of g).
Abbreviation stored := (stored slot_of parent_of).

(** What a node finds in its storage: headers with the slots and parents of
    their blocks, valid blocks with their states, and a canonical index that
    follows the parents of the blocks it lists. *)
Record storage_ok (c : C) : Prop := {
  so_agree : headers_agree slot_of parent_of c;
  so_valid id b : get_block_status c id = Ok (Some Valid) -> get_ol_block c id = Ok (Some b) ->
    id <> buf32_zero /\ slot_of id = slot_of (parent_of id) + 1 /\
    exists st, get_toplevel_ol_state c (commit id) = Ok (Some st);
  so_max id : slot_of id < U64_MAX;
  so_height h ids id : get_blocks_at_height c h = Ok ids -> id ∈ ids -> slot_of id = h;
  so_index slot k : canon c slot = Ok (Some k) -> obc_slot k = slot;
  so_index_parent id : id <> g -> canon c (slot_of id) = Ok (Some (commit id)) ->
    canon c (slot_of (parent_of id)) = Ok (Some (commit (parent_of id)));
}.

Context (c : C) (Hso : storage_ok c).

(** A tracker loaded from the storage: all its blocks are live. *)
Record loaded (fin : EpochCommitment) (t : UnfinalizedBlockTracker) : Prop := {
  ld_fin : finalized_epoch t = fin;
  ld_tree : tree_ok t;
  ld_stored : stored c t;
  ld_live id : is_Some (pending_table t !! id) -> live t id;
}.

Lemma loaded_attach fin t id b :
  loaded fin t -> get_block_status c id = Ok (Some Valid) -> get_ol_block c id = Ok (Some b) ->
  loaded fin (snd (attach_block (hdr_slot (blk_header b)) id (hdr_parent_blkid (blk_header b)) t)).
Proof.
  intros [Hfin Ht Hst Hl] Hv Hb. destruct (so_valid c Hso id b Hv Hb) as (Hz & Hstep & Hstate).
  destruct (law_block _ _ _ Hb) as [_ Hh]. destruct (so_agree c Hso _ _ Hh) as [-> ->].
  pose proof (tree_wf _ _ _ _ Ht) as Hwf.
  destruct (pending_table t !! parent_of id) as [pe|] eqn:Hpe.
  - destruct (attach_new slot_of parent_of g c t Ht Hst id b Hb Hz (Hl _ ltac:(by eexists)) Hstep Hstate)
      as (new & t' & Ha & Hf' & Ht' & Hst' & Hpath & Htips & Hnew). rewrite Ha. simpl. split; try done; [congruence|].
    pose proof (attach_block_run slot_of parent_of g t id Hwf Hz) as Hrun. rewrite Ha in Hrun.
    destruct Hrun as [_ [[-> _]|(Hnone & Hlt & pe' & Hpe' & ->)]]; [done|].
    intros x [e He]. destruct (decide (x = id)) as [->|Hne].
    + rewrite attached_b in He. simplify_eq. eapply live_step; [apply attached_b|]. simpl.
      destruct (Hl (parent_of id)) as [l Hpl]; [by eexists|]. exists l. by apply attached_path.
    + destruct (attached_lookup slot_of parent_of t id pe' Hpe' x e Hne He) as (e0 & He0 & _).
      destruct (Hl x) as [l Hxl]; [by eexists|]. exists l. by apply attached_path.
  - replace (snd _) with t; [by split|]. unfold attach_block. rewrite Hpe. by destruct (pending_table t !! id).
Qed.

Lemma loaded_height fin blkids t cands t' cands' :
  loaded fin t -> load_height c blkids t cands = Ok (t', cands') -> loaded fin t'.
Proof.
  revert t cands. induction blkids as [|id blkids IH]; intros t cands Hl H; simpl in H; [by simplify_eq|].
  destruct (get_block_status c id) as [[[]|]|e|] eqn:Hs; [| |by apply (IH _ _ Hl H)..|done].
  - destruct (get_ol_block c id) as [o| |]; simpl in H; [|done..]. by apply (IH _ _ Hl H).
  - destruct (get_ol_block c id) as [[b|]| |] eqn:Hb; simpl in H; [|by apply (IH _ _ Hl H)|done..].
    refine (IH _ _ _ H). by apply loaded_attach.
Qed.

Lemma loaded_all fin fuel height t cands t' cands' :
  loaded fin t -> load_unfinalized_ol_blocks fuel c height t cands = Some (Ok (t', cands')) -> loaded fin t'.
Proof.
  revert height t cands. induction fuel as [|fuel IH]; intros height t cands Hl H; simpl in H; [done|].
  destruct (get_blocks_at_height c height) as [blkids| |]; simpl in H; [|done..].
  destruct blkids as [|id blkids]; [by simplify_eq|]. unfold dbind in H.
  destruct (load_height c (id :: blkids) t cands) as [[t1 c1]| |] eqn:Hh; [|done..].
  eapply IH; [|exact H]. by eapply loaded_height.
Qed.

(** ** Which blocks are loaded *)

Abbreviation has t id := (is_Some (pending_table t !! id)).

(** A block the startup attaches if its parent is there. *)
Definition good (id : OLBlockId) : Prop :=
  get_block_status c id = Ok (Some Valid) /\ exists b, get_ol_block c id = Ok (Some b).

Lemma attach_has fin t id b x :
  loaded fin t -> get_block_status c id = Ok (Some Valid) -> get_ol_block c id = Ok (Some b) ->
  has (snd (attach_block (hdr_slot (blk_header b)) id (hdr_parent_blkid (blk_header b)) t)) x <->
  has t x \/ x = id /\ has t (parent_of id).
Proof.
  intros [_ Ht _ _] Hv Hb. destruct (so_valid c Hso id b Hv Hb) as (_ & Hstep & _).
  destruct (law_block _ _ _ Hb) as [_ Hh]. destruct (so_agree c Hso _ _ Hh) as [-> ->].
  unfold attach_block. destruct (pending_table t !! id) eqn:Hid; [split; [by left|intros [?|[-> _]]; [done|by eexists]]|].
  destruct (pending_table t !! parent_of id) as [pe|] eqn:Hpe;
    [|split; [by left|intros [?|[_ Hp]]; [done|by destruct Hp]]].
  rewrite (wf_slot _ _ _ _ (tree_wf _ _ _ _ Ht) _ _ Hpe), (proj2 (Z.leb_gt _ _)) by lia. simpl.
  rewrite !lookup_insert_is_Some'. split.
  - intros [->|[<-|?]]; [right; split; [done|by eexists]|left; by eexists|by left].
  - intros [?|[-> _]]; [by right; right|by left].
Qed.

Lemma load_height_has fin blkids t cands t' cands' :
  loaded fin t -> load_height c blkids t cands = Ok (t', cands') ->
  (forall x, has t x -> has t' x) /\
  (forall x, has t' x -> has t x \/ x ∈ blkids /\ good x) /\
  (forall x, x ∈ blkids -> good x -> has t (parent_of x) -> has t' x).
Proof.
  revert t cands. induction blkids as [|id blkids IH]; intros t cands Hl H; simpl in H.
  { simplify_eq. split_and!; [done|by left|]. by intros x ?%elem_of_nil. }
  assert (Hskip : ~ good id -> forall cands, load_height c blkids t cands = Ok (t', cands') ->
    (forall x, has t x -> has t' x) /\ (forall x, has t' x -> has t x \/ x ∈ id :: blkids /\ good x) /\
    (forall x, x ∈ id :: blkids -> good x -> has t (parent_of x) -> has t' x)).
  { intros Hg k Hk. destruct (IH t k Hl Hk) as (H1 & H2 & H3). split_and!; [done|intros x Hx; destruct (H2 x Hx) as [|[? ?]]|].
    - by left.
    - right. split; [by right|done].
    - intros x [->|Hx]%elem_of_cons Hgx; [done|]. by apply H3. }
  destruct (get_block_status c id) as [[[]|]|e|] eqn:Hs; try done;
    [| |by apply (Hskip ltac:(intros [Hg _]; congruence) _ H)..].
  - destruct (get_ol_block c id) as [o| |]; simpl in H; [|done..]. by apply (Hskip ltac:(intros [Hg _]; congruence) _ H).
  - destruct (get_ol_block c id) as [[b|]| |] eqn:Hb; simpl in H; [|by apply (Hskip ltac:(intros [_ [? Hg]]; congruence) _ H)|done..].
    pose proof (attach_has fin t id b) as Ha. destruct (IH _ _ (loaded_attach fin t id b Hl Hs Hb) H) as (H1 & H2 & H3).
    assert (Hgood : good id) by (split; [done|by eexists]). split_and!.
    + intros x Hx. apply H1, Ha; [done..|by left].
    + intros x Hx. destruct (H2 x Hx) as [Hx'|[? ?]]; [|right; split; [by right|done]].
      apply Ha in Hx' as [?|[-> _]]; [by left|right; split; [by left|done]|done..].
    + intros x [->|Hx]%elem_of_cons Hg Hp; [apply H1, Ha; [done..|by right]|].
      apply H3; [done..|]. apply Ha; [done..|by left].
Qed.

Lemma load_has fin fuel height t cands t' cands' :
  loaded fin t -> load_unfinalized_ol_blocks fuel c height t cands = Some (Ok (t', cands')) ->
  0 <= height -> (forall x, has t x -> slot_of x < height) ->
  (forall x, has t x -> has t' x) /\
  (forall x, has t' x -> has t x \/ height <= slot_of x /\ good x) /\
  (forall x ids, get_blocks_at_height c (slot_of x) = Ok ids -> x ∈ ids -> height <= slot_of x -> good x ->
     has t' (parent_of x) -> has t' x).
Proof.
  revert height t cands. induction fuel as [|fuel IH]; intros height t cands Hl H H0 Hlt; simpl in H; [done|].
  destruct (get_blocks_at_height c height) as [blkids| |] eqn:Hh; simpl in H; [|done..].
  assert (Hgstep : forall x, good x -> slot_of x = slot_of (parent_of x) + 1).
  { intros x [Hv [b Hb]]. by destruct (so_valid c Hso x b Hv Hb) as (_ & ? & _). }
  destruct blkids as [|id0 blkids0].
  { simplify_eq. split_and!; [done|by left|]. intros x ids Hids Hx Hge Hg Hp.
    pose proof (Hgstep x Hg). pose proof (Hlt _ Hp). assert (slot_of x = height) as Heq by lia.
    rewrite Heq, Hh in Hids. injection Hids as <-. by apply elem_of_nil in Hx. }
  set (blkids := id0 :: blkids0) in *. unfold dbind in H.
  destruct (load_height c blkids t cands) as [[t1 c1]| |] eqn:Hload; [|done..]. cbn [fst snd] in H.
  pose proof (so_height c Hso height blkids) as Hslot. specialize (Hslot) with (1 := Hh).
  pose proof (loaded_height _ _ _ _ _ _ Hl Hload) as Hl1.
  destruct (load_height_has _ _ _ _ _ _ Hl Hload) as (A1 & A2 & A3).
  assert (Hw : wrap_u64 (height + 1) = height + 1).
  { pose proof (so_max c Hso id0). rewrite (Hslot id0) in * by (by left). unfold_widths. rewrite Z.mod_small; lia. }
  rewrite Hw in H. destruct (IH _ _ _ Hl1 H) as (B1 & B2 & B3); [lia| |].
  { intros x Hx. destruct (A2 x Hx) as [Hx'|[Hx' _]]; [apply Hlt in Hx'|apply Hslot in Hx']; lia. }
  split_and!.
  - intros x Hx. by apply B1, A1.
  - intros x Hx. destruct (B2 x Hx) as [Hx'|[? ?]]; [|right; split; [lia|done]].
    destruct (A2 x Hx') as [?|[Hx2 ?]]; [by left|]. apply Hslot in Hx2. right. split; [lia|done].
  - intros x ids Hids Hx Hge Hg Hp. destruct (decide (slot_of x = height)) as [Heq|Hne]; [|apply (B3 x ids); try done; lia].
    pose proof (Hgstep x Hg). rewrite Heq, Hh in Hids. injection Hids as <-. apply B1, A3; [done..|].
    destruct (B2 _ Hp) as [Hp1|[? _]]; [|lia]. destruct (A2 _ Hp1) as [?|[Hp2 _]]; [done|]. apply Hslot in Hp2. lia.
Qed.

(** ** The start tip *)

Lemma max_by_elem {A} (le : A -> A -> bool) x l : max_by le x l ∈ x :: l.
Proof.
  revert x. induction l as [|y l IH]; intros x; simpl; [by left|].
  specialize (IH (if le x y then y else x)). destruct (le x y); set_solver.
Qed.

Lemma max_by_leb x l y : y ∈ x :: l -> y <= max_by Z.leb x l.
Proof.
  revert x y. induction l as [|z l IH]; intros x y Hy; simpl; [apply list_elem_of_singleton in Hy; lia|].
  destruct (x <=? z) eqn:Hxz; zbool.
  - apply elem_of_cons in Hy as [->|Hy]; [|by apply IH]. pose proof (IH z z ltac:(by left)). lia.
  - apply elem_of_cons in Hy as [->|[->|Hy]%elem_of_cons]; [apply IH; by left| |apply IH; by right].
    pose proof (IH x x ltac:(by left)). lia.
Qed.

Lemma tip_blocks_spec E t ids blocks :
  tree_ok t -> tip_blocks (E := E) t ids = Ok blocks -> blocks = map commit ids.
Proof.
  intros Ht. revert blocks. induction ids as [|id ids IH]; intros blocks H; simpl in H; [by simplify_eq|].
  unfold get_slot in H. destruct (pending_table t !! id) as [e|] eqn:He; simpl in H; [|done].
  destruct (tip_blocks t ids) as [bs| |] eqn:Hb; simpl in H; [|done..]. simplify_eq.
  rewrite (wf_slot _ _ _ _ (tree_wf _ _ _ _ Ht) _ _ He), (IH bs) by done. done.
Qed.

Lemma determine_start_tip_spec t tip :
  tree_ok t -> determine_start_tip t c = Ok tip ->
  exists id, tip = commit id /\ id ∈ unfinalized_tips t /\ forall x, x ∈ unfinalized_tips t -> slot_of x <= slot_of id.
Proof.
  intros Ht. unfold determine_start_tip, chain_tip_blocks_iter, chain_tips_iter.
  destruct (tip_blocks t (elements (unfinalized_tips t))) as [tips| |] eqn:Hb; simpl; [|done..].
  apply tip_blocks_spec in Hb as ->; [|done]. rewrite map_map. simpl.
  destruct (map _ (elements (unfinalized_tips t))) as [|s0 slots] eqn:Hm; [done|]. set (m := max_by Z.leb s0 slots).
  destruct (canon c m) as [o| |]; simpl; [|done..].
  destruct (filter _ _) as [|tip0 tips0] eqn:Hf; [done|]. intros Htip. injection Htip as <-.
  match goal with |- context [max_by ?le tip0 tips0] => pose proof (max_by_elem le tip0 tips0) as Hin; set (r := max_by le tip0 tips0) in * end.
  rewrite <- Hf in Hin. apply list_elem_of_filter in Hin as [Hr (id & -> & Hid)%list_elem_of_fmap].
  exists id. split; [done|]. split; [by apply elem_of_elements in Hid|]. intros x Hx. simpl in Hr. rewrite Hr.
  apply max_by_leb. rewrite <- Hm. apply list_elem_of_fmap. exists x. split; [done|]. by apply elem_of_elements.
Qed.

(** ** The canonical index *)

Lemma parent_chain_path t tip fuel child id l :
  tree_ok t -> live t id -> parent_chain fuel t tip child id = Ok l -> anc_path t id l.
Proof.
  intros Ht. revert child id l. induction fuel as [|fuel IH]; intros child id l Hl H; simpl in H; [done|].
  destruct (tracker_slot t id) as [slot| |]; simpl in H; [|done..].
  destruct (ensure_parent_slot_descends slot child tip); simpl in H; [|done..]. unfold get_parent in H.
  destruct (id =? finalized_tip t) eqn:Hid; zbool; [simplify_eq; constructor|].
  destruct (live_inv t id Hl Hid) as (e & He & Hp). rewrite He in H. simpl in H.
  destruct (parent_chain fuel t tip (Some slot) (be_parent e)) as [rest| |] eqn:Hr; simpl in H; [|done..]. simplify_eq.
  econstructor; [done..|]. by eapply IH.
Qed.

(** The suffix ends at a block of the chain that is canonical. *)
Lemma canonical_suffix_spec t suffix chain slot up :
  tree_ok t -> canonical_suffix t c suffix chain = Ok (slot, up) ->
  exists above pivot rest, chain = above ++ pivot :: rest /\ up = rev (suffix ++ above) /\ slot = slot_of pivot /\
    canon c (slot_of pivot) = Ok (Some (commit pivot)).
Proof.
  intros Ht. revert suffix. induction chain as [|id chain IH]; intros suffix H; simpl in H; [done|].
  unfold tracker_slot, get_slot in H. destruct (pending_table t !! id) as [e|] eqn:He; simpl in H; [|done].
  rewrite (wf_slot _ _ _ _ (tree_wf _ _ _ _ Ht) _ _ He) in H.
  destruct (canon c (slot_of id)) as [o| |] eqn:Hc; simpl in H; [|done..]. case_bool_decide as Ho.
  - simplify_eq. exists [], id, chain. rewrite app_nil_r. split_and!; try done.
    destruct o as [k|]; [|done]. simpl in Ho. injection Ho as Ho. rewrite Hc. pose proof (so_index c Hso _ _ Hc) as Hk.
    destruct k as [ks kid]. simpl in *. by subst.
  - destruct (id =? finalized_tip t); [done|]. destruct (IH _ H) as (above & pivot & rest & -> & -> & ? & ?).
    exists (id :: above), pivot, rest. split_and!; try done. by rewrite <- app_assoc.
Qed.

Lemma index_chain t x id :
  tree_ok t -> canon c (slot_of x) = Ok (Some (commit x)) -> descends t id x -> canon c (slot_of id) = Ok (Some (commit id)).
Proof.
  intros Ht Hc (l & Hl & Hid). induction Hl as [|x e l Hne He Hp IH]; [by apply list_elem_of_singleton in Hid as ->|].
  assert (Hlx : live t x) by (eapply live_step; [done|by eexists]).
  apply elem_of_cons in Hid as [->|Hid]; [done|]. apply IH; [|done].
  rewrite (live_parent slot_of parent_of g t x e Ht Hlx Hne He). apply (so_index_parent c Hso); [|done].
  intros ->. apply Hne. by apply (wf_base_live slot_of parent_of g t (tree_wf _ _ _ _ Ht)).
Qed.

Lemma reconcile_index t id c' :
  tree_ok t -> live t id -> 0 <= slot_of (finalized_tip t) ->
  reconcile_canonical_blocks_index t (commit id) c = (Ok tt, c') ->
  ctx_frame c c' /\ canonical slot_of c' t id /\ forall slot, slot <= slot_of (finalized_tip t) -> canon c' slot = canon c slot.
Proof.
  intros Ht Hl H0 H. unfold reconcile_canonical_blocks_index in H.
  apply mbind_returns in H as ([slot up] & c1 & Hcan & H). unfold mreads_res in Hcan. injection Hcan as Hcan <-.
  unfold canonical_blocks_from_tip in Hcan.
  destruct (construct_validated_parent_chain t (commit id)) as [chain| |] eqn:Hch; simpl in Hcan; [|done..].
  apply parent_chain_path in Hch; [|done..]. simpl in Hch.
  destruct (negb _); [done|]. apply canonical_suffix_spec in Hcan as (above & pivot & rest & -> & -> & -> & Hpivot); [|done].
  simpl in Hch. rewrite app_nil_l in H. cbn beta iota in H.
  assert (Hup : anc_path t id (rev (rev above) ++ pivot :: rest)) by (by rewrite rev_involutive).
  assert (Hslots : slot_of id = slot_of pivot + zlen (rev above)).
  { rewrite (path_slots _ _ _ _ _ _ _ _ Ht Hch). unfold zlen. by rewrite length_rev. }
  pose proof (so_max c Hso id) as Hmax. pose proof (zlen_nonneg (rev above)) as Hlen.
  assert (Hlp : slot_of (finalized_tip t) <= slot_of pivot).
  { apply (live_slot _ _ _ _ _ (tree_wf _ _ _ _ Ht)). eapply live_elem; [exact Hch|]. apply elem_of_app. right. by left. }
  unfold checked_add_u64 in H. destruct (slot_of pivot + 1 <=? U64_MAX) eqn:Hle; zbool.
  - destruct (law_replace (slot_of pivot + 1) (rev above) c) as (c2 & Hr & Hf & Hc2); [lia|].
    rewrite Hr in H. simplify_eq. split; [done|].
    split; [|intros slot Hlow; rewrite Hc2, (proj2 (Z.ltb_lt _ _)); [done|lia]].
    eapply (canonical_switch slot_of parent_of g t Ht id pivot _ rest Hup c); [|done].
    intros x. by apply index_chain.
  - destruct (rev above) as [|a l] eqn:Hr; [|done]. unfold mret in H. injection H as <-. split; [done|]. split; [|done]. autorewrite with zlen in *.
    assert (above = []) as -> by (by rewrite <- (rev_involutive above), Hr). simpl in Hch.
    destruct (anc_path_head _ _ _ Hch) as [? ?]. simplify_eq. split; [intros y; by apply index_chain|].
    intros slot Hslot. lia.
Qed.

(** ** The state after startup *)

Lemma loaded_new fin :
  ec_last_blkid fin = g -> ec_last_slot fin = slot_of g -> g <> buf32_zero ->
  (exists h, get_ol_header c g = Ok (Some h)) -> (exists st, get_toplevel_ol_state c (commit g) = Ok (Some st)) ->
  loaded fin (new_empty fin).
Proof.
  intros Hg Hs Hz Hh Hst. pose proof (wf_new_empty slot_of parent_of g fin Hg Hs Hz) as Hwf.
  assert (Hin : forall id, is_Some (pending_table (new_empty fin) !! id) -> id = g).
  { intros id [e He]. simpl in He. rewrite Hg in He. by apply lookup_singleton_Some in He as [<- _]. }
  assert (Ht : finalized_tip (new_empty fin) = g) by done.
  assert (Hlive : forall id, live (new_empty fin) id -> id = g).
  { intros id Hl. apply Hin. apply (live_in_table _ (wf_tip _ _ _ _ Hwf)). done. }
  split; try done.
  - split; [done|]. intros id Hl%Hlive Hne. by rewrite Ht in Hne.
  - split; [apply Hso| | |].
    + intros id Hl%Hlive Hne. by rewrite Ht in Hne.
    + intros id [Hl%Hlive|Hid]; [by subst|]. simpl in Hid. apply elem_of_singleton in Hid as ->. by rewrite Hg.
    + intros id Hl%Hlive. by subst.
  - intros id ->%Hin. rewrite <- Ht. apply live_tip.
Qed.

(** The index reconciliation of the startup keeps blocks, states and the index. *)
Definition reconciler_ok : Prop := forall target c1 c2,
  reconcile_ol_mmr_index target c1 = (Ok tt, c2) -> ctx_frame c1 c2 /\ same_canon c1 c2.

(** What the startup relies on about the finalized epoch and the reconciler. *)
Record startup_ok (genesis : OLBlockCommitment) : Prop := {
  su_genesis : canon c 0 = Ok (Some genesis);
  su_base : let fin := default {| ec_epoch := 0; ec_last_slot := 0; ec_last_blkid := obc_blkid genesis |} (last_finalized_epoch c) in
    ec_last_blkid fin = g /\ ec_last_slot fin = slot_of g;
  su_nonzero : g <> buf32_zero;
  su_slot : 0 <= slot_of g;
  su_header : exists h, get_ol_header c g = Ok (Some h);
  su_state : exists st, get_toplevel_ol_state c (commit g) = Ok (Some st);
  su_reconciler : reconciler_ok;
}.

(** The tracker of the started manager. *)
Record started (fin : EpochCommitment) (t : UnfinalizedBlockTracker) : Prop := {
  sd_fin : finalized_epoch t = fin;
  sd_live x : has t x -> live t x;
  sd_sound x : has t x -> x = g \/ slot_of g < slot_of x /\ good x;
  sd_complete x ids : get_blocks_at_height c (slot_of x) = Ok ids -> x ∈ ids -> slot_of g < slot_of x -> good x ->
    has t (parent_of x) -> has t x;
}.

Lemma load_started fin fuel t cands :
  ec_last_blkid fin = g -> ec_last_slot fin = slot_of g -> 0 <= slot_of g -> loaded fin (new_empty fin) ->
  load_unfinalized_ol_blocks fuel c (wrap_u64 (ec_last_slot fin + 1)) (new_empty fin) [] = Some (Ok (t, cands)) ->
  started fin t.
Proof.
  intros Hg Hs H0 Hnew Hload. pose proof (loaded_all _ _ _ _ _ _ _ Hnew Hload) as [Hfin _ _ Hl].
  assert (Hin : forall x, has (new_empty fin) x -> x = g).
  { intros x [e He]. simpl in He. rewrite Hg in He. by apply lookup_singleton_Some in He as [<- _]. }
  assert (Hw : wrap_u64 (ec_last_slot fin + 1) = slot_of g + 1).
  { pose proof (so_max c Hso g). rewrite Hs. unfold_widths. rewrite Z.mod_small; lia. }
  rewrite Hw in Hload. destruct (load_has _ _ _ _ _ _ _ Hnew Hload) as (_ & H2 & H3); [lia|intros x ->%Hin; lia|].
  split; try done.
  - intros x Hx. destruct (H2 x Hx) as [->%Hin|[? ?]]; [by left|right; split; [lia|done]].
  - intros x ids Hids Hx Hlt. apply (H3 x ids); [done..|lia].
Qed.

Lemma init_fcm_started fuel pred genesis s :
  startup_ok genesis -> init_fcm_service_state fuel pred c = Some (Ok s) ->
  fcm_inv slot_of parent_of g s /\
  started (default {| ec_epoch := 0; ec_last_slot := 0; ec_last_blkid := obc_blkid genesis |} (last_finalized_epoch c)) (tracker s).
Proof.
  intros [Hgen [Hg Hs] Hz H0 Hh Hst Hrec] Hinit. set (fin := default _ _) in *.
  unfold init_fcm_service_state in Hinit. rewrite Hgen in Hinit. fold fin in Hinit. cbn [dbind] in Hinit.
  destruct (load_unfinalized_ol_blocks _ _ _ _ _) as [[[t cands]| |]|] eqn:Hload; cbn [dbind] in Hinit; [|done..].
  assert (Hsd : started fin t) by (apply (load_started fin fuel t cands Hg Hs H0 (loaded_new fin Hg Hs Hz Hh Hst) Hload)).
  pose proof (loaded_all _ _ _ _ _ _ _ (loaded_new fin Hg Hs Hz Hh Hst) Hload) as [Hfin Ht Hstored Hl].
  destruct (determine_start_tip t c) as [tip| |] eqn:Htip; cbn [dbind] in Hinit; [|done..].
  destruct (determine_start_tip_spec t tip Ht Htip) as (id & -> & Hid & Hmax).
  assert (Hlid : live t id) by (apply Hl, (wf_tips_in _ _ _ _ (tree_wf _ _ _ _ Ht)), Hid).
  assert (H0t : 0 <= slot_of (finalized_tip t)) by (unfold finalized_tip; by rewrite Hfin, Hg).
  unfold drun at 1 in Hinit. destruct (reconcile_canonical_blocks_index t (commit id) c) as [[[]| |] c1] eqn:Hri; cbn [dbind] in Hinit; [|done..].
  destruct (reconcile_index t id c1 Ht Hlid H0t Hri) as (Hf1 & Hcan & _). cbn [snd obc_blkid ForkChoiceSpec.commit] in Hinit.
  destruct (get_ol_header c1 id) as [[h|]| |]; cbn [dbind ok_or] in Hinit; [|done..].
  destruct (get_toplevel_ol_state c1 (commit id)) as [[st|]| |] eqn:Hcur; cbn [dbind ok_or] in Hinit; [|done..].
  destruct (get_history_base c1) as [base| |]; cbn [dbind] in Hinit; [|done..].
  destruct (collect_rejected_indexing_blocks_for_target _ _ _ _ _) as [[rejected| |]|]; cbn [dbind] in Hinit; [|done..].
  unfold drun in Hinit. destruct (reconcile_ol_mmr_index _ c1) as [[[]| |] c2] eqn:Hmmr; cbn [dbind snd] in Hinit; [|done..].
  destruct (Hrec _ _ _ Hmmr) as [Hf2 Hc2]. simplify_eq. unfold tracker. simpl. split_and!; try done. split; try done; simpl.
  - apply (stored_frame _ _ c c2); [etransitivity; [exact Hf1|exact Hf2]|exact Hstored].
  - by apply (cf_state _ _ Hf2).
  - destruct Hcan as [Hch Hab]. split; [intros x Hx; rewrite Hc2; by apply Hch|intros slot Hslot; rewrite Hc2; by apply Hab].
Qed.

(** ** The startup succeeds *)

(** A storage whose reads do not fail, and a reconciler that succeeds. *)
Record storage_reads : Prop := {
  sr_height c' h : exists ids, get_blocks_at_height c' h = Ok ids;
  sr_status c' id : get_block_status c' id <> Panic;
  sr_block c' id : exists o, get_ol_block c' id = Ok o;
  sr_canon c' slot : exists o, canon c' slot = Ok o;
  sr_base c' : exists o, get_history_base c' = Ok o;
  sr_reconcile target c' : exists c2, reconcile_ol_mmr_index target c' = (Ok tt, c2);
}.

(** Below the finalized block, the headers and the index go back to the base of
    the node's history, or to slot zero. *)
Record history_ok : Prop := {
  hi_tip : canon c (slot_of g) = Ok (Some (commit g));
  hi_slot x h : get_ol_header c x = Ok (Some h) -> 0 <= slot_of x;
  hi_parent c' base x h : ctx_frame c c' -> get_history_base c' = Ok base -> get_ol_header c x = Ok (Some h) ->
    slot_of x <= slot_of g -> slot_of x <> 0 -> canon c (slot_of x) = Ok (Some (commit x)) ->
    Some (commit x) <> to_block_commitment <$> base ->
    slot_of (parent_of x) < slot_of x /\ canon c (slot_of (parent_of x)) = Ok (Some (commit (parent_of x))) /\
    exists ph, get_ol_header c (parent_of x) = Ok (Some ph);
}.

Context (Hreads : storage_reads) (Hhist : history_ok).

Lemma load_height_ok ids t cands : exists r, load_height c ids t cands = Ok r.
Proof.
  revert t cands. induction ids as [|id ids IH]; intros t cands; simpl; [by eexists|].
  pose proof (sr_status Hreads c id) as Hs. destruct (sr_block Hreads c id) as [o Ho].
  destruct (get_block_status c id) as [[[]|]| |]; try done; rewrite ?Ho; simpl; apply IH.
Qed.

Lemma wrap_next height : 0 <= height < U64_MAX -> wrap_u64 (height + 1) = height + 1.
Proof. intros H. unfold_widths. rewrite Z.mod_small; lia. Qed.

Lemma load_ends n fuel height t cands :
  get_blocks_at_height c (height + Z.of_nat n) = Ok [] -> 0 <= height -> height + Z.of_nat n <= U64_MAX -> (n < fuel)%nat ->
  exists r, load_unfinalized_ol_blocks fuel c height t cands = Some (Ok r).
Proof.
  revert fuel height t cands. induction n as [|n IH]; intros [|fuel] height t cands He H0 Hmax Hn; simpl; try lia.
  { rewrite Z.add_0_r in He. rewrite He. simpl. by eexists. }
  destruct (sr_height Hreads c height) as [[|id ids] Hids]; rewrite Hids; simpl; [by eexists|].
  destruct (load_height_ok (id :: ids) t cands) as [[t1 c1] Hl]. simpl in Hl. rewrite Hl. cbn [dbind fst snd].
  rewrite wrap_next by lia. apply IH; [|lia..].
  by replace (height + 1 + Z.of_nat n) with (height + Z.of_nat (S n)) by lia.
Qed.

(** Nothing at or above an empty height is loaded. *)
Lemma load_below fin top fuel height t cands t' cands' :
  loaded fin t -> get_blocks_at_height c top = Ok [] -> top <= U64_MAX -> 0 <= height <= top ->
  load_unfinalized_ol_blocks fuel c height t cands = Some (Ok (t', cands')) ->
  (forall x, has t x -> slot_of x < top) -> forall x, has t' x -> slot_of x < top.
Proof.
  revert height t cands. induction fuel as [|fuel IH]; intros height t cands Hl Htop Hmax Hh H Hlt; simpl in H; [done|].
  destruct (get_blocks_at_height c height) as [blkids| |] eqn:Hb; simpl in H; [|done..].
  destruct blkids as [|id0 blkids0]; [by simplify_eq|]. unfold dbind in H.
  destruct (load_height c (id0 :: blkids0) t cands) as [[t1 c1]| |] eqn:Hload; [|done..]. cbn [fst snd] in H.
  assert (height <> top) by (intros ->; congruence). rewrite wrap_next in H by lia.
  pose proof (load_height_has _ _ _ _ _ _ Hl Hload) as (_ & A2 & _).
  refine (IH _ _ _ (loaded_height _ _ _ _ _ _ Hl Hload) Htop Hmax _ H _); [lia|].
  intros x Hx. destruct (A2 x Hx) as [Hx'|[Hx' _]]; [by apply Hlt|]. rewrite (so_height c Hso _ _ _ Hb Hx'). lia.
Qed.

Lemma tip_blocks_ok E t ids : (forall id, id ∈ ids -> has t id) -> exists bs, tip_blocks (E := E) t ids = Ok bs.
Proof.
  induction ids as [|id ids IH]; intros Hin; simpl; [by eexists|]. unfold get_slot.
  destruct (Hin id ltac:(by left)) as [e He]. rewrite He. simpl.
  destruct IH as [bs Hb]; [intros x Hx; apply Hin; by right|]. rewrite Hb. simpl. by eexists.
Qed.

Lemma determine_start_tip_ok t : tree_ok t -> exists tip, determine_start_tip t c = Ok tip.
Proof.
  intros Ht. pose proof (tree_wf _ _ _ _ Ht) as Hwf. unfold determine_start_tip, chain_tip_blocks_iter, chain_tips_iter.
  destruct (tip_blocks_ok FcmError t (elements (unfinalized_tips t))) as [tips Hb].
  { intros id Hid. apply (wf_tips_in _ _ _ _ Hwf). by apply elem_of_elements in Hid. }
  rewrite Hb. simpl. apply tip_blocks_spec in Hb as Heq; [|done].
  destruct (live_below_tip slot_of parent_of g t _ Ht (live_tip t)) as (tp & Htp & _).
  destruct (map obc_slot tips) as [|s0 slots] eqn:Hm.
  { subst tips. rewrite map_map in Hm. apply map_eq_nil in Hm. apply elem_of_elements in Htp. rewrite Hm in Htp. by apply elem_of_nil in Htp. }
  destruct (sr_canon Hreads c (max_by Z.leb s0 slots)) as [o Ho]. rewrite Ho. simpl.
  destruct (filter _ tips) as [|k ks] eqn:Hf; [|by eexists].
  pose proof (max_by_elem Z.leb s0 slots) as Hin. rewrite <- Hm in Hin. apply list_elem_of_fmap in Hin as (k & Hk & Hin).
  assert (Hkf : k ∈ filter (fun tip => obc_slot tip = max_by Z.leb s0 slots) tips) by (by apply list_elem_of_filter).
  rewrite Hf in Hkf. by apply elem_of_nil in Hkf.
Qed.

(** *** The canonical index is repaired *)

Lemma anc_path_last t id l : anc_path t id l -> last l = Some (finalized_tip t).
Proof.
  induction 1 as [|id e l Hne He Hp IH]; [done|]. destruct (anc_path_head _ _ _ Hp) as [l' ->]. by rewrite last_cons_cons.
Qed.

Lemma parent_chain_ok t tip fuel child id l :
  tree_ok t -> anc_path t id l -> (length l <= fuel)%nat -> match child with Some s => slot_of id < s | None => True end ->
  parent_chain fuel t tip child id = Ok l.
Proof.
  intros Ht Hp. pose proof (tree_wf _ _ _ _ Ht) as Hwf. revert fuel child.
  assert (Hd : forall x child, match child with Some s => slot_of x < s | None => True end ->
    ensure_parent_slot_descends (slot_of x) child tip = Ok tt).
  { intros x [s|] Hlt; simpl; [|done]. by rewrite (proj2 (Z.leb_gt _ _)). }
  induction Hp as [|id e l Hne He Hp IH]; intros [|fuel] child Hlen Hc; simpl in *; try lia.
  - destruct (wf_tip _ _ _ _ Hwf) as [e He]. unfold tracker_slot, get_slot. rewrite He. simpl.
    rewrite (wf_slot _ _ _ _ Hwf _ _ He), Hd by done. simpl. unfold get_parent. by rewrite Z.eqb_refl.
  - assert (Hlid : live t id) by (eapply live_step; [done|by eexists]).
    unfold tracker_slot, get_slot. rewrite He. simpl. rewrite (wf_slot _ _ _ _ Hwf _ _ He), Hd by done. simpl.
    unfold get_parent. rewrite (proj2 (Z.eqb_neq _ _) Hne), He. simpl. rewrite IH; [done|lia|].
    rewrite (live_parent slot_of parent_of g t id e Ht Hlid Hne He), (tree_step _ _ _ t Ht id Hlid Hne). lia.
Qed.

Lemma canonical_suffix_ok t id l suffix :
  tree_ok t -> anc_path t id l -> canon c (slot_of (finalized_tip t)) = Ok (Some (commit (finalized_tip t))) ->
  exists r, canonical_suffix t c suffix l = Ok r.
Proof.
  intros Ht Hp Hcan. pose proof (tree_wf _ _ _ _ Ht) as Hwf. revert suffix.
  induction Hp as [|id e l Hne He Hp IH]; intros suffix; simpl; unfold tracker_slot, get_slot.
  - destruct (wf_tip _ _ _ _ Hwf) as [e He]. rewrite He. simpl. rewrite (wf_slot _ _ _ _ Hwf _ _ He), Hcan. simpl.
    rewrite bool_decide_eq_true_2 by done. by eexists.
  - rewrite He. simpl. destruct (sr_canon Hreads c (be_slot e)) as [o Ho]. rewrite Ho. simpl.
    case_bool_decide; [by eexists|]. rewrite (proj2 (Z.eqb_neq _ _) Hne). apply IH.
Qed.

Lemma reconcile_ok t id :
  tree_ok t -> live t id -> canon c (slot_of (finalized_tip t)) = Ok (Some (commit (finalized_tip t))) ->
  exists c', reconcile_canonical_blocks_index t (commit id) c = (Ok tt, c').
Proof.
  intros Ht [l Hl] Hcan. pose proof (anc_path_length t (wf_tip _ _ _ _ (tree_wf _ _ _ _ Ht)) id l Hl) as Hlen.
  destruct (canonical_suffix_ok t id l [] Ht Hl Hcan) as [[slot up] Hr].
  unfold reconcile_canonical_blocks_index, mbind, mreads_res, canonical_blocks_from_tip, construct_validated_parent_chain.
  cbn [obc_blkid ForkChoiceSpec.commit]. rewrite (parent_chain_ok t _ _ None id l Ht Hl) by (done || lia). simpl.
  rewrite bool_decide_eq_true_2 by (by apply (anc_path_last t id)). simpl. rewrite Hr.
  apply canonical_suffix_spec in Hr as (above & pivot & rest & -> & -> & -> & _); [|done].
  pose proof (path_slots _ _ _ _ _ _ _ _ Ht Hl) as Hs. pose proof (so_max c Hso id). unfold checked_add_u64.
  pose proof (zlen_nonneg above). rewrite (proj2 (Z.leb_le _ _)) by lia. rewrite app_nil_l.
  destruct (law_replace (slot_of pivot + 1) (rev above) c) as (c2 & Hc2 & _); [|by exists c2].
  unfold zlen in *. rewrite length_rev. lia.
Qed.

(** *** The rejected blocks are collected *)

(** A block of the canonical chain of [b], down to the node's history. *)
Record on_chain (c1 : C) (t : UnfinalizedBlockTracker) (b x : OLBlockId) : Prop := {
  oc_header : exists h, get_ol_header c x = Ok (Some h);
  oc_canon : canon c1 (slot_of x) = Ok (Some (commit x));
  oc_where : descends t x b \/ slot_of x <= slot_of g;
}.

Lemma on_chain_parent fin c1 t b base x :
  loaded fin t -> finalized_tip t = g -> ctx_frame c c1 -> canonical slot_of c1 t b ->
  (forall slot, slot <= slot_of g -> canon c1 slot = canon c slot) -> get_history_base c1 = Ok base ->
  on_chain c1 t b x -> slot_of x <> 0 -> Some (commit x) <> to_block_commitment <$> base ->
  on_chain c1 t b (parent_of x) /\ slot_of (parent_of x) < slot_of x.
Proof.
  intros [_ Ht Hst _] Hg Hf [Hch _] Hlow Hbase [[h Hh] Hc Hw] H0 Hnb.
  assert (Hbelow : slot_of x <= slot_of g -> on_chain c1 t b (parent_of x) /\ slot_of (parent_of x) < slot_of x).
  { intros Hle. rewrite (Hlow _ Hle) in Hc. destruct (hi_parent Hhist c1 base x h Hf Hbase Hh Hle H0 Hc Hnb) as (Hlt & Hcp & Hhp).
    split; [|done]. split; [done| |right; lia]. rewrite Hlow by lia. done. }
  destruct Hw as [Hd|Hle]; [|by apply Hbelow]. destruct (decide (x = g)) as [->|Hne]; [apply Hbelow; lia|]. rewrite <- Hg in Hne.
  assert (Hlx : live t x). { destruct Hd as (l & Hl & Hin). by eapply live_elem. }
  destruct (live_inv t x Hlx Hne) as (e & He & Hlp). pose proof (live_parent slot_of parent_of g t x e Ht Hlx Hne He) as Hp.
  rewrite Hp in Hlp. pose proof (tree_step _ _ _ t Ht x Hlx Hne).
  assert (Hdp : descends t (parent_of x) b).
  { apply (descends_trans t _ x); [|done]. apply (descends_step t _ x e He Hne Hlx). right. rewrite Hp. by apply descends_refl. }
  split; [|lia]. split; [by apply (st_header _ _ _ _ Hst); left|by apply Hch|by left].
Qed.

Lemma collect_target_ok fin c1 t b base target epoch :
  loaded fin t -> finalized_tip t = g -> ctx_frame c c1 -> canonical slot_of c1 t b ->
  (forall slot, slot <= slot_of g -> canon c1 slot = canon c slot) -> get_history_base c1 = Ok base ->
  forall fuel child x, on_chain c1 t b x -> match child with Some s => slot_of x < s | None => True end -> slot_of x < Z.of_nat fuel ->
  exists l, collect_target_epoch_blocks fuel c1 target epoch (to_block_commitment <$> base) child x = Some (Ok l) /\
    Forall (fun k => canon c1 (obc_slot k) = Ok (Some k)) l.
Proof.
  intros Hl Hg Hf Hcan Hlow Hbase. induction fuel as [|fuel IH]; intros child x Hx Hc Hfuel.
  { destruct (oc_header _ _ _ _ Hx) as [h Hh]. pose proof (hi_slot Hhist x h Hh). lia. }
  destruct (oc_header _ _ _ _ Hx) as [h Hh]. pose proof (hi_slot Hhist x h Hh) as H0. cbn [collect_target_epoch_blocks].
  rewrite (cf_header _ _ Hf), Hh. cbn [dbind ok_or]. destruct (so_agree c Hso x h Hh) as [-> ->].
  replace (ensure_parent_slot_descends _ _ _) with (Ok tt : res FcmError unit)
    by (destruct child; simpl; [by rewrite (proj2 (Z.leb_gt _ _))|done]).
  cbn [dbind]. destruct (negb _); [exists []; split; [done|constructor]|]. fold (commit x).
  destruct (bool_decide (Some (commit x) = _)) eqn:Hb; simpl.
  { exists [commit x]. split; [done|]. constructor; [apply Hx|constructor]. }
  apply bool_decide_eq_false_1 in Hb. destruct (slot_of x =? 0) eqn:Hz; zbool.
  { exists [commit x]. split; [done|]. constructor; [apply Hx|constructor]. }
  destruct (on_chain_parent fin c1 t b base x Hl Hg Hf Hcan Hlow Hbase Hx Hz Hb) as [Hxp Hlt].
  destruct (IH (Some (slot_of x)) (parent_of x) Hxp Hlt) as (l & Hcol & Hall); [lia|].
  rewrite Hcol. cbn [dbind]. exists (commit x :: l). split; [done|]. constructor; [apply Hx|done].
Qed.

Lemma collect_rejected_ok c1 blocks rejected :
  Forall (fun k => canon c1 (obc_slot k) = Ok (Some k)) blocks -> exists l, collect_rejected c1 blocks rejected = Ok l.
Proof.
  intros Hall. revert rejected. induction Hall as [|k blocks Hk Hall IH]; intros rejected; simpl; [by eexists|].
  rewrite Hk. simpl. rewrite bool_decide_eq_true_2 by done. simpl.
  destruct (sr_height Hreads c1 (obc_slot k)) as [ids ->]. simpl. apply IH.
Qed.

Lemma init_fcm_returns n fuel pred genesis :
  startup_ok genesis -> get_blocks_at_height c (slot_of g + Z.of_nat n) = Ok [] -> (0 < n)%nat -> slot_of g + Z.of_nat n <= U64_MAX ->
  slot_of g + Z.of_nat n < Z.of_nat fuel ->
  exists s, init_fcm_service_state fuel pred c = Some (Ok s).
Proof.
  intros [Hgen [Hg Hs] Hz H0 Hh Hst Hrec] Htop Hn Hmax Hfuel. set (fin := default _ _) in *.
  assert (Hw : wrap_u64 (ec_last_slot fin + 1) = slot_of g + 1) by (rewrite Hs; apply wrap_next; lia).
  pose proof (loaded_new fin Hg Hs Hz Hh Hst) as Hnew.
  destruct (load_ends (Nat.pred n) fuel (slot_of g + 1) (new_empty fin) []) as [[t cands] Hload]; [|lia..|].
  { by replace (slot_of g + 1 + Z.of_nat (Nat.pred n)) with (slot_of g + Z.of_nat n) by lia. }
  pose proof (loaded_all _ _ _ _ _ _ _ Hnew Hload) as Hl. pose proof Hl as [Hfin Ht Hstored Hlive].
  assert (Hbelow : forall x, has t x -> slot_of x < slot_of g + Z.of_nat n).
  { apply (load_below fin _ fuel (slot_of g + 1) (new_empty fin) [] t cands Hnew Htop Hmax ltac:(lia) Hload).
    intros x [e He]. simpl in He. rewrite Hg in He. apply lookup_singleton_Some in He as [<- _]. lia. }
  unfold init_fcm_service_state. rewrite Hgen. cbn [dbind]. fold fin. rewrite Hw, Hload. cbn [dbind].
  destruct (determine_start_tip_ok t Ht) as [tip Htip]. rewrite Htip. cbn [dbind].
  destruct (determine_start_tip_spec t tip Ht Htip) as (id & -> & Hid & _).
  assert (Hin : has t id) by (by apply (wf_tips_in _ _ _ _ (tree_wf _ _ _ _ Ht))).
  assert (Htg : finalized_tip t = g) by (unfold finalized_tip; by rewrite Hfin).
  destruct (reconcile_ok t id Ht (Hlive id Hin)) as [c1 Hri]; [rewrite Htg; apply Hhist|].
  unfold drun at 1. rewrite Hri. cbn [dbind snd obc_blkid ForkChoiceSpec.commit].
  destruct (reconcile_index t id c1 Ht (Hlive id Hin)) as (Hf & Hcan & Hlow); [by rewrite Htg|done|]. rewrite Htg in Hlow.
  destruct (st_header _ _ _ _ Hstored id (or_introl (Hlive id Hin))) as [h Hhd]. rewrite (cf_header _ _ Hf), Hhd. cbn [dbind ok_or].
  destruct (st_state _ _ _ _ Hstored id (Hlive id Hin)) as [st Hs1]. fold (commit id).
  rewrite (cf_state _ _ Hf _ _ Hs1). cbn [dbind ok_or].
  destruct (sr_base Hreads c1) as [base Hbase]. rewrite Hbase. cbn [dbind]. unfold collect_rejected_indexing_blocks_for_target.
  cbn [obc_blkid ForkChoiceSpec.commit].
  destruct (collect_target_ok fin c1 t id base (commit id) (hdr_epoch h) Hl Htg Hf Hcan Hlow Hbase fuel None id) as (blocks & Hcol & Hall).
  { split; [by eexists|apply Hcan|left]; by apply descends_refl, Hlive. }
  { done. }
  { pose proof (Hbelow id Hin). lia. }
  fold (commit id). rewrite Hcol. cbn [dbind]. destruct (collect_rejected_ok c1 blocks [] Hall) as [rejected ->]. cbn [dbind].
  unfold drun. match goal with |- context [reconcile_ol_mmr_index ?tg c1] => destruct (sr_reconcile Hreads tg c1) as [c2 ->] end.
  cbn [dbind]. by eexists.
Qed.

(** C23: A manager that starts up from a consistent storage comes up, within fuel
    for the heights up to the first empty one, and satisfies its invariant: the
    best block is a tip with the highest slot, its state is loaded, and the
    canonical index has been repaired to list its chain.  Its tree holds the
    finalized block and exactly those valid stored blocks above it whose parent is
    in the tree. *)
Theorem init_fcm_establishes n fuel pred genesis :
  startup_ok genesis -> get_blocks_at_height c (slot_of g + Z.of_nat n) = Ok [] -> (0 < n)%nat -> slot_of g + Z.of_nat n <= U64_MAX ->
  slot_of g + Z.of_nat n < Z.of_nat fuel ->
  exists s, init_fcm_service_state fuel pred c = Some (Ok s) /\ fcm_inv slot_of parent_of g s /\
    started (default {| ec_epoch := 0; ec_last_slot := 0; ec_last_blkid := obc_blkid genesis |} (last_finalized_epoch c)) (tracker s).
Proof.
  intros Hsu Htop Hn Hmax Hfuel. destruct (init_fcm_returns n fuel pred genesis Hsu Htop Hn Hmax Hfuel) as [s Hs].
  exists s. split; [done|]. by apply (init_fcm_started fuel pred).
Qed.
End init.
