(* ===== verification/DaSize.v ===== *)
(** * The size estimate of the accumulating layer
    ([estimated_encoded_size] of [crates/ol/state-support-types/src/da_accumulating_layer.rs])

    Block assembly decides with the estimate whether an epoch still fits its
    checkpoint; the source promises that it never is below the size of the
    encoded payload.  It is not, up to the counter of the limbo funds, for which
    it reserves nine bytes where ten are needed once the change reaches
    two to the sixty-two. *)

From S2P Require Import Prelude SortedMap Identifiers AcctTypes ChainTypes Externals.
From S2P Require Import CodecTypes Varint64 DaFramework OLDaTypes LedgerTypes OLAccount OLState.
From S2P Require Import StateAccessor LedgerSpec IndexerLayer IndexerSpec DaLayer DaSim.

(** What the primitive codecs write. *)
Class CodecSizes {ET : ExtTypes} (CE : CodecExt) : Prop := {
  u8_size x bs : encode u8_codec x = Ok bs -> zlen bs = 1;
  u16_size x bs : encode u16_codec x = Ok bs -> zlen bs = 2;
  u32_size x bs : encode u32_codec x = Ok bs -> zlen bs <= 4;
  account_serial_size x bs : encode account_serial_codec x = Ok bs -> zlen bs <= 4;
  amount_size x bs : encode amount_codec x = Ok bs -> zlen bs <= 8;
  hash_size x bs : encode hash_codec x = Ok bs -> zlen bs <= 32;
  account_id_size x bs : encode account_id_codec x = Ok bs -> zlen bs <= 32;
  varint_size n v bs : n <= MAX_MSG_PAYLOAD_BYTES -> varint_new_usize n = Some v -> encode varint_codec v = Ok bs -> zlen bs <= 2;
}.

(** Splits the encodings of a sequence and adds up the lengths. *)
Ltac enc_split :=
  repeat match goal with H : (_ +++ _)%M = Ok _ |- _ => apply enc_app_inv in H as (? & ? & ? & ? & ->) end;
  rewrite ?zlen_app.

(** A change below two to the sixty-two takes nine bytes. *)
Lemma signed_varint_short {ET : ExtTypes} `{CE : !CodecExt} v bs :
  svi_magnitude v < 2 ^ 62 -> SignedVarInt_encode v = Ok bs -> zlen bs <= 9.
Proof.
  intros Hm. unfold SignedVarInt_encode. destruct (_ <? 64); [by intros [= <-]|].
  intros (b1 & b2 & [= <-] & H2 & ->)%enc_app_inv. cbn [app]. rewrite zlen_cons.
  apply (magnitude_tail_length _ _ 8) in H2; [lia|exact Hm|lia].
Qed.

Section sizes.
Context `{X : Ext} `{CE : !CodecExt} `{DE : !DaExt} `{!CodecSizes CE}.

(** ** Members *)

Lemma counter_size (S : CounterScheme) (w : DaCounter S) bs n :
  0 <= n -> (forall v b, w = Changed v -> encode (cs_codec S) v = Ok b -> zlen b <= n) ->
  member_bytes (counter_member S) w = Ok bs -> zlen bs <= n.
Proof. intros Hn Hw. unfold member_bytes. destruct w as [|v]; simpl; [by intros [= <-]|]. intros H. by eapply Hw. Qed.

Lemma register_size {T} (c : CodecOf T) (r : DaRegister T) bs n :
  0 <= n -> (forall v b, dr_new_value r = Some v -> encode c v = Ok b -> zlen b <= n) ->
  member_bytes (register_member c) r = Ok bs -> zlen bs <= n.
Proof.
  intros Hn Hr. unfold member_bytes. simpl. unfold DaRegister_is_default, DaRegister_encode_set.
  destruct (dr_new_value r) as [v|]; simpl; [|by intros [= <-]]. intros H. by eapply Hr.
Qed.

Lemma u16_counter_size (w : DaCounter CtrU64ByU16) bs : member_bytes (counter_member CtrU64ByU16) w = Ok bs -> zlen bs <= 2.
Proof. apply counter_size; [lia|]. intros v b _ H. simpl in H. apply u16_size in H. lia. Qed.

(** A counter of unsigned or signed changes of 64-bit values. *)
Lemma unsigned_counter_size a b (w : DaCounter CtrU64ByUnsignedVarInt) bs :
  in_u64 a -> in_u64 b -> build_counter CtrU64ByUnsignedVarInt a b = Ok w ->
  member_bytes (counter_member CtrU64ByUnsignedVarInt) w = Ok bs -> zlen bs <= 10.
Proof.
  intros Ha Hb Hw. apply counter_size; [lia|]. intros v e -> He.
  assert (Hv : in_u64 v).
  { unfold build_counter, DaCounterBuilder_set, DaCounterBuilder_into_write, DaCounter_new_changed in Hw. simpl in Hw.
    unfold checked_sub in Hw. destruct (a <=? b) eqn:Hle; simpl in Hw; [rewrite Hle in Hw|done]; simpl in Hw.
    destruct (b - a =? 0); [done|]. injection Hw as <-. zbool. unfold in_u64 in *. lia. }
  by apply (unsigned_varint_length v).
Qed.

Definition change_magnitude (a b : Z) : Z := Z.abs (b - a).

Lemma signed_change_size a b d bs :
  in_u64 a -> in_u64 b -> cs_compare CtrU64BySignedVarInt a b = Some d -> SignedVarInt_encode d = Ok bs ->
  zlen bs <= 10 /\ (change_magnitude a b < 2 ^ 62 -> zlen bs <= 9).
Proof.
  intros Ha Hb [= <-] He.
  assert (Hm : svi_magnitude (if a <=? b then SignedVarInt_new true (b - a) else SignedVarInt_new false (a - b)) = change_magnitude a b).
  { unfold change_magnitude, SignedVarInt_new. destruct (a <=? b) eqn:Hle; zbool;
      destruct (_ =? 0) eqn:Hz; zbool; simpl; lia. }
  split; [|intros Hlt; apply (signed_varint_short _ _ ltac:(rewrite Hm; exact Hlt) He)].
  eapply signed_varint_length; [|exact He]. rewrite Hm. unfold change_magnitude, in_u64 in *. lia.
Qed.

(** ** Snark accounts *)

Record snark_ranged (d : SnarkDelta) : Prop := {
  sr_base_idx : in_u64 (ps_next_inbox_msg_idx (sdl_base_proof_state d));
  sr_final_idx : in_u64 (ps_next_inbox_msg_idx (sdl_final_proof_state d));
}.

Lemma message_size e bs :
  small_entry e -> encode da_message_entry_codec e = Ok bs -> zlen bs <= MSG_FIXED + zlen (mp_data (dme_payload e)).
Proof.
  intros Hs H. simpl in H. unfold MsgPayload_encode in H. enc_split.
  match goal with H : res_bind (ok_or ?o _) _ = Ok _ |- _ => destruct o as [v|] eqn:Hv; [|done]; cbn [ok_or res_bind] in H end.
  repeat match goal with
  | H : encode account_id_codec _ = Ok _ |- _ => apply account_id_size in H
  | H : encode u32_codec _ = Ok _ |- _ => apply u32_size in H
  | H : encode amount_codec _ = Ok _ |- _ => apply amount_size in H
  | H : encode varint_codec _ = Ok _ |- _ => apply (varint_size _ _ _ Hs Hv) in H
  | H : Ok _ = Ok _ |- _ => injection H as <-
  end. unfold MSG_FIXED. lia.
Qed.

Lemma encode_each_size {T} (c : CodecOf T) (f : T -> Z) l bs :
  (forall x b, x ∈ l -> encode c x = Ok b -> zlen b <= f x) -> encode_each c l = Ok bs -> zlen bs <= zsum (map f l).
Proof.
  revert bs. induction l as [|x l IH]; intros bs Hf; simpl; [by intros [= <-]|]. intros H. enc_split.
  match goal with H : encode c x = Ok _ |- _ => apply Hf in H; [|by left] end.
  match goal with H : encode_each c l = Ok _ |- _ => apply IH in H; [|intros y b Hy; apply Hf; by right] end.
  unfold zsum in *. simpl. lia.
Qed.

Definition inbox_size (entries : list DaMessageEntry) : Z :=
  (if zlen entries =? 0 then 0 else 2) + zsum (map (fun e => MSG_FIXED + zlen (mp_data (dme_payload e))) entries).

Lemma inbox_member_size (l : DaLinacc InboxBuffer) bs :
  Forall small_entry (dla_new_entries l) -> member_bytes (linacc_member InboxBuffer) l = Ok bs ->
  zlen bs <= inbox_size (dla_new_entries l).
Proof.
  intros Hs. unfold member_bytes, inbox_size. simpl. unfold DaLinacc_is_default.
  destruct (dla_new_entries l) as [|e es] eqn:He; simpl negb; cbv iota; [by intros [= <-]|]. intros H.
  destruct (zlen (e :: es) =? 0) eqn:Hz; [by zbool|]. enc_split.
  match goal with H : encode_each _ _ = Ok _ |- _ =>
    apply (encode_each_size _ (fun e => MSG_FIXED + zlen (mp_data (dme_payload e)))) in H end.
  2: { intros y b Hy. apply message_size. rewrite Forall_forall in Hs. by apply Hs. }
  match goal with H : (if ?b then _ else _) = Ok _ |- _ => destruct b; [apply u16_size in H|done] end.
  cbn [la_entry InboxBuffer] in *. rewrite Hz. lia.
Qed.

Lemma proof_state_member_size d bs :
  (forall b, member_bytes (counter_member CtrU64ByUnsignedVarInt) (dpd_next_inbox_msg_idx d) = Ok b -> zlen b <= 10) ->
  member_bytes proof_state_diff_member d = Ok bs -> zlen bs <= 1 + 32 + 10.
Proof.
  intros Hidx. unfold member_bytes. simpl. destruct (DaProofStateDiff_is_default d); simpl; [by intros [= <-]|].
  unfold DaProofStateDiff_encode. intros H. enc_split.
  match goal with H : encode u8_codec _ = Ok _ |- _ => apply u8_size in H end.
  match goal with H : member_bytes (register_member _) _ = Ok _ |- _ => apply (register_size _ _ _ 32) in H;
    [|lia|intros v b _; apply hash_size] end.
  match goal with H : member_bytes (counter_member _) _ = Ok _ |- _ => apply Hidx in H end. lia.
Qed.

Lemma vk_member_size base final bs :
  member_bytes (register_member u16_len_bytes_codec) (DaRegister_compare base final) = Ok bs ->
  zlen bs <= if bytes_eqb final base then 0 else 2 + zlen final.
Proof.
  unfold DaRegister_compare, bytes_eqb. destruct (decide (final = base)) as [->|Hne].
  - rewrite bool_decide_eq_true_2 by done. unfold member_bytes. simpl. by intros [= <-].
  - rewrite bool_decide_eq_false_2 by done. apply register_size; [pose proof (zlen_nonneg final); lia|].
    intros v b [= <-] H. simpl in H. enc_split.
    match goal with H : res_bind (ok_or ?o _) _ = Ok _ |- _ => destruct o as [n|]; [|done]; cbn [ok_or res_bind] in H; apply u16_size in H end.
    match goal with H : Ok _ = Ok _ |- _ => injection H as <- end. lia.
Qed.

Lemma snark_diff_size d diff bs :
  snark_ranged d -> Forall small_entry (dla_new_entries (sdl_inbox d)) -> SnarkDelta_build_diff d = Ok diff ->
  SnarkAccountDiff_encode diff = Ok bs -> zlen bs <= 1 + 2 + 1 + 32 + 10 + snark_delta_size d.
Proof.
  intros [Hb Hf] Hs Hd He. unfold SnarkDelta_build_diff in Hd.
  destruct (build_counter CtrU64ByU16 _ _) as [seq| |]; [|done..]. cbn [res_bind] in Hd.
  destruct (build_counter CtrU64ByUnsignedVarInt _ _) as [idx| |] eqn:Hidx; [|done..]. cbn [res_bind] in Hd. injection Hd as <-.
  unfold SnarkAccountDiff_encode in He. cbn [sad_update_vk sad_proof_state sad_seq_no sad_inbox] in He. enc_split.
  repeat match goal with
  | H : encode u8_codec _ = Ok _ |- _ => apply u8_size in H
  | H : member_bytes (register_member u16_len_bytes_codec) _ = Ok _ |- _ => apply vk_member_size in H
  | H : member_bytes proof_state_diff_member _ = Ok _ |- _ =>
      apply proof_state_member_size in H; [|intros b; by apply (unsigned_counter_size _ _ _ _ Hb Hf Hidx)]
  | H : member_bytes (counter_member CtrU64ByU16) _ = Ok _ |- _ => apply u16_counter_size in H
  | H : member_bytes (linacc_member InboxBuffer) _ = Ok _ |- _ => apply (inbox_member_size _ _ Hs) in H
  end.
  unfold snark_delta_size, inbox_size in *. cbn [la_entry InboxBuffer] in *. lia.
Qed.

(** ** Accounts *)

Record delta_ranged (d : AccountDelta) : Prop := {
  dr_base : in_u64 (adl_base_balance d);
  dr_final : in_u64 (adl_final_balance d);
  dr_snark : match adl_snark d with Some sd => snark_ranged sd | None => True end;
}.

(** What the estimate reserves for an account. *)
Definition delta_size (d : AccountDelta) : Z :=
  DIFF_FIXED + match adl_snark d with Some sd => snark_delta_size sd | None => 0 end.

Lemma snark_delta_size_nonneg d : 0 <= snark_delta_size d.
Proof.
  unfold snark_delta_size. assert (0 <= zsum (map (fun e => MSG_FIXED + zlen (mp_data (dme_payload e))) (dla_new_entries (sdl_inbox d)))).
  { apply zsum_nonneg, Forall_map, Forall_forall. intros e _. unfold MSG_FIXED. pose proof (zlen_nonneg (mp_data (dme_payload e))). lia. }
  pose proof (zlen_nonneg (sdl_final_update_vk d)). repeat case_match; lia.
Qed.

Lemma delta_size_nonneg d : 0 <= delta_size d.
Proof. unfold delta_size, DIFF_FIXED. case_match; [pose proof (snark_delta_size_nonneg s)|]; lia. Qed.

Lemma snark_member_size id d diff bs :
  delta_ranged d -> delta_bounded d -> delta_diff id d = Ok diff ->
  member_bytes snark_account_diff_member (ad_snark diff) = Ok bs ->
  zlen bs <= 1 + 2 + 1 + 32 + 10 + match adl_snark d with Some sd => snark_delta_size sd | None => 0 end.
Proof.
  intros [_ _ Hs] Hb Hd H. unfold delta_diff in Hd. destruct (cs_compare _ _ _); [|done]. cbn [expect res_bind] in Hd.
  assert (Hnn : 0 <= match adl_snark d with Some sd => snark_delta_size sd | None => 0 end)
    by (destruct (adl_snark d); [apply snark_delta_size_nonneg|done]).
  unfold member_bytes in H. simpl in H. destruct (SnarkAccountDiff_is_default (ad_snark diff)) eqn:Hdf; simpl in H.
  { injection H as <-. unfold zlen. simpl. lia. }
  destruct (adl_ty d); [injection Hd as <-; done|].
  unfold delta_bounded in Hb. destruct (adl_snark d) as [sd|]; [|done]. cbn [ok_or res_bind] in Hd.
  destruct (SnarkDelta_build_diff sd) as [sdiff| |] eqn:Hsd; [|done..]. cbn [res_bind] in Hd. injection Hd as <-.
  apply (snark_diff_size sd sdiff bs Hs (proj2 Hb) Hsd H).
Qed.

Lemma account_diff_size id d diff bs :
  delta_ranged d -> delta_bounded d -> delta_diff id d = Ok diff -> encode account_diff_codec diff = Ok bs ->
  zlen bs <= delta_size d - 4.
Proof.
  intros Hr Hb Hd H. simpl in H. enc_split.
  match goal with H : member_bytes snark_account_diff_member _ = Ok _ |- _ => apply (snark_member_size id d diff _ Hr Hb Hd) in H end.
  match goal with H : encode u8_codec _ = Ok _ |- _ => apply u8_size in H end.
  match goal with H : member_bytes (counter_member CtrU64BySignedVarInt) _ = Ok _ |- _ =>
    apply (counter_size CtrU64BySignedVarInt _ _ 10) in H; [unfold delta_size, DIFF_FIXED; lia|lia|] end.
  intros v b Hv Hv'. destruct Hr as [Hb1 Hb2 _]. unfold delta_diff in Hd.
  destruct (cs_compare CtrU64BySignedVarInt _ _) as [dd|] eqn:Hc; [|done]. cbn [expect res_bind] in Hd.
  match type of Hd with res_bind ?r _ = _ => destruct r as [sn| |]; [|done..] end. cbn [res_bind] in Hd. injection Hd as <-.
  simpl in Hv. unfold DaCounter_new_changed in Hv. destruct (cs_is_zero _ _); [done|]. injection Hv as <-.
  apply (signed_change_size _ _ _ _ Hb1 Hb2 Hc Hv').
Qed.

Definition entry_size (e : AccountDiffEntry) : Z :=
  match encode account_diff_entry_codec e with Ok b => zlen b | _ => 0 end.

Lemma build_account_diffs_size ids serials seen l L :
  Forall (fun p => delta_ranged (snd p) /\ delta_bounded (snd p)) l ->
  build_account_diffs ids serials seen l = Ok L -> zsum (map entry_size L) <= zsum (map (fun p => delta_size (snd p)) l).
Proof.
  intros Hl. revert seen L. induction Hl as [|[id d] l [Hr Hb] Hl IH]; intros seen L; cbn [build_account_diffs].
  { intros [= <-]. done. }
  unfold zsum at 2. cbn [map fold_right snd] in *. fold (zsum (map (fun p : AccountId * AccountDelta => delta_size (snd p)) l)).
  pose proof (delta_size_nonneg d). destruct (decide _); [intros H'; apply IH in H'; lia|].
  destruct (delta_diff id d) as [diff| |] eqn:Hd; [|done..]. cbn [res_bind].
  destruct (AccountDiff_is_default diff); [intros H'; apply IH in H'; lia|].
  destruct (decide _); [done|]. destruct (build_account_diffs _ _ _ _) as [es| |] eqn:He; [|done..]. cbn [res_bind].
  intros [= <-]. apply IH in He. cbn [map]. unfold zsum at 1. cbn [fold_right]. fold (zsum (map entry_size es)).
  enough (entry_size {| ade_account_serial := adl_serial d; ade_diff := diff |} <= delta_size d) by lia.
  unfold entry_size. destruct (encode account_diff_entry_codec _) as [bs| |] eqn:Henc; [|lia..].
  apply (enc_app_inv (encode account_serial_codec (adl_serial d)) (encode account_diff_codec diff)) in Henc as (b1 & b2 & H1 & H2 & ->).
  apply account_serial_size in H1. apply (account_diff_size id d diff _ Hr Hb Hd) in H2. rewrite zlen_app. lia.
Qed.

(** ** The payload *)

(** The values of an accumulator have the width of their types. *)
Record acc_ranged (c : EpochDaAccumulator) : Prop := {
  ar_limbo : match acc_limbo_funds_builder c with Some b => in_u64 (dcb_original b) /\ in_u64 (dcb_new b) | None => True end;
  ar_deltas : map_Forall (fun _ d => delta_ranged d) (acc_account_deltas c);
}.

(** By how much the limbo funds changed. *)
Definition limbo_change (c : EpochDaAccumulator) : Z :=
  match acc_limbo_funds_builder c with Some b => change_magnitude (dcb_original b) (dcb_new b) | None => 0 end.

Lemma into_write_changed (S : CounterScheme) (b : DaCounterBuilder S) w v :
  DaCounterBuilder_into_write b = Ok w -> w = Changed v -> cs_compare S (dcb_original b) (dcb_new b) = Some v.
Proof.
  unfold DaCounterBuilder_into_write, DaCounter_new_changed. destruct (cs_compare _ _ _) as [d|]; [|done]. simpl.
  intros [= <-]. destruct (cs_is_zero S d) eqn:Hz; [done|]. by intros [= ->].
Qed.

Lemma global_diff_size c gd c' bs :
  acc_ranged c -> build_global_diff c = (Ok gd, c') -> encode global_state_diff_codec gd = Ok bs ->
  zlen bs <= 1 + 2 + 10 /\ (limbo_change c < 2 ^ 62 -> zlen bs <= 1 + 2 + 9).
Proof.
  intros [Hl _] Hg H. simpl in H. enc_split.
  match goal with H : encode u8_codec _ = Ok _ |- _ => apply u8_size in H end.
  match goal with H : member_bytes (counter_member CtrU64ByU16) _ = Ok _ |- _ => apply u16_counter_size in H end.
  match goal with H : member_bytes (counter_member CtrU64BySignedVarInt) _ = Ok ?b |- _ =>
    assert (Hb : zlen b <= 10 /\ (limbo_change c < 2 ^ 62 -> zlen b <= 9)); [|lia] end.
  assert (Hv : forall v b, gsd_limbo_funds_sats gd = Changed v -> SignedVarInt_encode v = Ok b ->
    zlen b <= 10 /\ (limbo_change c < 2 ^ 62 -> zlen b <= 9)).
  { intros v b Hv Hb. unfold build_global_diff in Hg.
    match type of Hg with (match ?r with Ok _ => _ | _ => _ end) = _ => destruct r as [cs| |]; [|done..] end.
    unfold limbo_change. destruct (acc_limbo_funds_builder c) as [bd|]; cbn [res_map_err res_bind] in Hg; [|by injection Hg as <- _].
    destruct (DaCounterBuilder_into_write bd) as [w| |] eqn:Hw; cbn [res_map_err res_bind] in Hg; [|done..]. injection Hg as <- _.
    cbn [gsd_limbo_funds_sats] in Hv.
    apply (signed_change_size _ _ _ _ (proj1 Hl) (proj2 Hl) (into_write_changed _ _ _ _ Hw Hv) Hb). }
  match goal with H : member_bytes (counter_member CtrU64BySignedVarInt) _ = Ok _ |- _ =>
    split; [|intros Hlt]; revert H; apply counter_size; try lia; intros v b' Hv' Hb'; apply (Hv v b' Hv' Hb'); done end.
Qed.

Lemma zsum_delta_sizes (l : list (AccountId * AccountDelta)) :
  zsum (map (fun p => delta_size (snd p)) l) =
  zlen (map snd l) * DIFF_FIXED + zsum (map (fun d => match adl_snark d with Some s => snark_delta_size s | None => 0 end) (map snd l)).
Proof.
  induction l as [|[id d] l IH]; [done|]. cbn [map snd] in *. rewrite zlen_cons. unfold zsum in *. cbn [fold_right]. rewrite IH.
  unfold delta_size. lia.
Qed.

Lemma ledger_diff_size {S} `{!IStateAccessor S} (st : S) c ld bs :
  acc_ranged c -> acc_bounded c -> build_ledger_diff st c = Ok ld -> encode ledger_diff_codec ld = Ok bs ->
  zlen bs <= 2 + 2 + zsum (map (fun p => delta_size (snd p)) (btree_iter (acc_account_deltas c))).
Proof.
  intros [_ Hr] [Hb Hrec] H Henc. unfold build_ledger_diff in H. rewrite Hrec in H. cbn in H.
  destruct (build_account_diffs _ _ _ _) as [L| |] eqn:HL; [|done..]. cbn [res_bind] in H. injection H as <-.
  apply build_account_diffs_size in HL.
  2: { apply Forall_forall. intros [id d] Hin. apply elem_of_btree_iter in Hin. split; [exact (Hr _ _ Hin)|exact (Hb _ _ Hin)]. }
  apply (enc_app_inv (encode (u16_len_list_codec new_account_entry_codec) []) (encode (u16_len_list_codec account_diff_entry_codec) _))
    in Henc as (b1 & b2 & H1 & H2 & ->).
  cbn [u16_len_list_codec encode encode_each] in H1, H2. enc_split.
  repeat match goal with H : res_bind (ok_or ?o _) _ = Ok _ |- _ => destruct o as [?|]; [|done]; cbn [ok_or res_bind] in H; apply u16_size in H end.
  match goal with H : Ok [] = Ok _ |- _ => injection H as <- end.
  match goal with H : encode_each account_diff_entry_codec _ = Ok _ |- _ => apply (encode_each_size _ entry_size) in H end.
  2: { intros e b _ He. unfold entry_size. rewrite He. done. }
  rewrite (zsum_perm _ (map entry_size L)) in * by (apply Permutation_map, sort_by_key_perm).
  change (zlen []) with 0. lia.
Qed.

(** The encoded payload is at most one byte longer than the estimate, and only if
    the limbo funds changed by two to the sixty-two or more. *)
Lemma payload_size {S} `{!IStateAccessor S} (st : S) c d c' bs :
  acc_ranged c -> acc_bounded c -> finalize st c = (Ok d, c') -> encode payload_codec {| pl_state_diff := d |} = Ok bs ->
  zlen bs <= estimated_encoded_size c + 1 /\ (limbo_change c < 2 ^ 62 -> zlen bs <= estimated_encoded_size c).
Proof.
  intros Hr Hb H Henc. unfold finalize in H. apply mbind_returns in H as (gd & c1 & Hg & H).
  apply mbind_returns in H as (ld & c2 & Hl & H). unfold mreads_res in Hl. injection Hl as Hl <-. unfold mret in H. injection H as <- <-.
  assert (Hc1 : acc_ranged c1 /\ acc_bounded c1 /\ acc_account_deltas c1 = acc_account_deltas c).
  { unfold build_global_diff in Hg. repeat match type of Hg with (match ?r with Ok _ => _ | _ => _ end) = _ => destruct r; [|done..] end.
    injection Hg as _ <-. by destruct Hr. }
  destruct Hc1 as (Hr1 & Hb1 & Hd1).
  apply (enc_app_inv (encode global_state_diff_codec gd) (encode ledger_diff_codec ld)) in Henc as (b1 & b2 & H1 & H2 & ->).
  destruct (global_diff_size c gd c1 b1 Hr Hg H1) as [Hg1 Hg2]. apply (ledger_diff_size st c1 ld b2 Hr1 Hb1 Hl) in H2.
  rewrite Hd1, zsum_delta_sizes in H2. rewrite zlen_app. unfold estimated_encoded_size. destruct Hb as [_ ->]. cbn [map].
  change (zsum []) with 0. split; [lia|]. intros Hlt. specialize (Hg2 Hlt). lia.
Qed.

(** C39: the estimate block assembly works with bounds the encoded DA payload of an
    epoch that creates no accounts (none of its transactions can): it is at most one
    byte too low, and is not below the payload unless the limbo
    funds changed by two to the sixty-two or more.  So an epoch whose estimate is
    below the limit never exceeds the limit when it is posted. *)
Theorem estimated_size_bounds {S} `{!IStateAccessor S} (st : S) c d c' bs :
  acc_ranged c -> acc_bounded c -> finalize st c = (Ok d, c') -> encode payload_codec {| pl_state_diff := d |} = Ok bs ->
  zlen bs <= estimated_encoded_size c + 1 /\
  (limbo_change c < 2 ^ 62 -> zlen bs <= estimated_encoded_size c) /\
  (estimated_encoded_size c < OL_DA_DIFF_MAX_SIZE -> encode_payload d = Ok bs).
Proof.
  intros Hr Hb Hf Henc. destruct (payload_size st c d c' bs Hr Hb Hf Henc) as [H1 H2]. split_and!; [done..|]. intros Hlt.
  unfold encode_payload. rewrite Henc. cbn [res_map_err res_bind]. by rewrite (proj2 (Z.ltb_ge _ _)) by lia.
Qed.

(** An epoch that advances one slot and moves two to the sixty-two satoshis into
    limbo. *)
Definition limbo_heavy : EpochDaAccumulator := {|
  acc_slot_builder := Some (Build_DaCounterBuilder (S := CtrU64ByU16) 0 1);
  acc_limbo_funds_builder := Some (Build_DaCounterBuilder (S := CtrU64BySignedVarInt) 0 (2 ^ 62));
  acc_expected_first_serial := None; acc_new_account_records := []; acc_new_account_ids := ∅; acc_account_deltas := ∅ |}.

Definition limbo_heavy_diff : StateDiff := {|
  sd_global := {| gsd_cur_slot := Changed (1 : cs_incr CtrU64ByU16);
                  gsd_limbo_funds_sats := Changed (SignedVarInt_new true (2 ^ 62) : cs_incr CtrU64BySignedVarInt) |};
  sd_ledger := {| ld_new_accounts := []; ld_account_diffs := [] |} |}.

(** The estimate is not an upper bound: there is an accumulator whose payload
    is longer than its estimate. *)
Theorem estimate_too_low `{!CodecLaws CE} {S} `{!IStateAccessor S} (st : S) :
  exists c' bs, acc_ranged limbo_heavy /\ acc_bounded limbo_heavy /\ finalize st limbo_heavy = (Ok limbo_heavy_diff, c') /\
    encode payload_codec {| pl_state_diff := limbo_heavy_diff |} = Ok bs /\ estimated_encoded_size limbo_heavy < zlen bs.
Proof.
  destruct (u8_roundtrips 3 ltac:(done)) as (b1 & H1 & _). destruct (u16_roundtrips 1 ltac:(done)) as (b2 & H2 & _).
  destruct (u16_roundtrips 0 ltac:(done)) as (b3 & H3 & _).
  set (b4 := [128; 128; 128; 128; 128; 128; 128; 128; 128; 1] : bytes).
  assert (H4 : SignedVarInt_encode (SignedVarInt_new true (2 ^ 62)) = Ok b4) by (vm_compute; reflexivity).
  exists (acc_with_limbo (acc_with_slot limbo_heavy None) None), ((b1 ++ b2 ++ b4) ++ (b3 ++ []) ++ b3 ++ []). split_and!.
  - split; [by vm_compute|]. apply map_Forall_empty.
  - split; [apply map_Forall_empty|done].
  - vm_compute. reflexivity.
  - apply enc_app_ok; [apply enc_app_ok; [exact H1|apply enc_app_ok; [exact H2|exact H4]]|].
    apply enc_app_ok; (apply enc_app_ok; [exact H3|done]).
  - apply u8_size in H1. apply u16_size in H2. apply u16_size in H3. rewrite !zlen_app, H1, H2, H3. by vm_compute.
Qed.
End sizes.
