(* ===== verification/EpochSealing.v ===== *)
(** * Epoch sealing
    ([crates/ol/block-assembly/src/{checkpoint_size,epoch_sealing}.rs])

    When an epoch ends: at a cadence, or when the checkpoint it leads to would
    come near the limits of its envelope, or when it has taken in as many ASM
    manifests as one epoch may.  The limit rules are a list, and verdicts keep
    the strictest action of every limit. *)

From S2P Require Import Prelude Identifiers AcctTypes ChainTypes Externals DaLayer.

(** [strata_asm_checkpoint_types::MAX_OL_LOGS_PER_CHECKPOINT] and
    [OLBlockCommitment::is_null]. *)
Class AssemblyExt := {
  MAX_OL_LOGS_PER_CHECKPOINT : Z;
  obc_is_null : OLBlockCommitment -> bool;
}.

(** ** [checkpoint_size.rs] *)

Definition MAX_CHECKPOINT_PAYLOAD_SIZE : Z := 395000.
Definition MAX_TOTAL_LOG_PAYLOAD_BYTES : Z := 16 * 1024.
Definition CHECKPOINT_FIXED_OVERHEAD : Z := 60 + 112 + 4096 + 5.
Definition SOFT_LIMIT_RATIO_NUM : Z := 9.
Definition SOFT_LIMIT_RATIO_DEN : Z := 10.

Record LogMetrics := { lm_count : Z; lm_total_payload : Z; lm_ssz_size : Z }.
Definition LogMetrics_default : LogMetrics := {| lm_count := 0; lm_total_payload := 0; lm_ssz_size := 0 |}.

Definition add_log (m : LogMetrics) (log : OLLog) : LogMetrics :=
  let payload_len := zlen (log_payload log) in
  {| lm_count := lm_count m + 1; lm_total_payload := lm_total_payload m + payload_len;
     lm_ssz_size := lm_ssz_size m + (12 + payload_len) |}.

Definition add_logs (m : LogMetrics) (logs : list OLLog) : LogMetrics := fold_left add_log logs m.

Definition LogMetrics_from_logs (logs : list OLLog) : LogMetrics := add_logs LogMetrics_default logs.

Inductive CheckpointSizeVerdict := WithinLimits | SoftLimitReached | HardLimitExceeded.

(** The position of a variant, by which the derived [Ord] compares. *)
Definition csv_rank (v : CheckpointSizeVerdict) : Z :=
  match v with WithinLimits => 0 | SoftLimitReached => 1 | HardLimitExceeded => 2 end.
Definition csv_max (v1 v2 : CheckpointSizeVerdict) : CheckpointSizeVerdict :=
  if csv_rank v2 <? csv_rank v1 then v1 else v2.

Definition dimension_verdict (value hard_limit : Z) : CheckpointSizeVerdict :=
  if hard_limit <=? value then HardLimitExceeded
  else if hard_limit * SOFT_LIMIT_RATIO_NUM / SOFT_LIMIT_RATIO_DEN <=? value then SoftLimitReached
  else WithinLimits.

Section size.
Context {ET : ExtTypes} `{DE : !DaExt} `{AX : !AssemblyExt}.

Definition checkpoint_size_verdict (state_diff_size : Z) (log_metrics : LogMetrics) : CheckpointSizeVerdict :=
  let envelope_size := CHECKPOINT_FIXED_OVERHEAD + state_diff_size + lm_ssz_size log_metrics in
  fold_left csv_max
    [ dimension_verdict (lm_count log_metrics) MAX_OL_LOGS_PER_CHECKPOINT;
      dimension_verdict (lm_total_payload log_metrics) MAX_TOTAL_LOG_PAYLOAD_BYTES;
      dimension_verdict envelope_size MAX_CHECKPOINT_PAYLOAD_SIZE ]
    (dimension_verdict state_diff_size OL_DA_DIFF_MAX_SIZE).

(** ** [epoch_sealing.rs] *)

Record EpochSealingResourceStats := { rst_da_diff_size : Z; rst_log : LogMetrics; rst_manifest_count : Z }.

Inductive EpochSealingLimitAction := ActContinue | SealAfterAdmit | RejectCandidate.

#[export] Instance EpochSealingLimitAction_eq_dec : EqDecision EpochSealingLimitAction.
Proof. solve_decision. Defined.

Definition action_rank (a : EpochSealingLimitAction) : Z :=
  match a with ActContinue => 0 | SealAfterAdmit => 1 | RejectCandidate => 2 end.
Definition action_max (a1 a2 : EpochSealingLimitAction) : EpochSealingLimitAction :=
  if action_rank a2 <? action_rank a1 then a1 else a2.

Definition action_should_seal (a : EpochSealingLimitAction) : bool := negb (bool_decide (a = ActContinue)).

Inductive EpochSealingLimit := CheckpointSize | ManifestCount.

#[export] Instance EpochSealingLimit_eq_dec : EqDecision EpochSealingLimit.
Proof. solve_decision. Defined.

Abbreviation EpochSealingLimitVerdict := (list (EpochSealingLimit * EpochSealingLimitAction)) (only parsing).

Definition within_limits : EpochSealingLimitVerdict := [].

(** Strengthens the first entry of the limit, or adds one. *)
Fixpoint record_action (limit : EpochSealingLimit) (action : EpochSealingLimitAction) (v : EpochSealingLimitVerdict)
    : EpochSealingLimitVerdict :=
  match v with
  | [] => [(limit, action)]
  | (existing_limit, existing) :: v' =>
      if decide (existing_limit = limit) then (existing_limit, action_max existing action) :: v'
      else (existing_limit, existing) :: record_action limit action v'
  end.

Definition record (limit : EpochSealingLimit) (action : EpochSealingLimitAction) (v : EpochSealingLimitVerdict)
    : EpochSealingLimitVerdict :=
  if decide (action = ActContinue) then v else record_action limit action v.

(** [merge]; [from_actions] is a merge into an empty verdict. *)
Definition merge (v other : EpochSealingLimitVerdict) : EpochSealingLimitVerdict :=
  fold_left (fun v '(limit, action) => record limit action v) other v.
Definition from_actions (actions : list (EpochSealingLimit * EpochSealingLimitAction)) : EpochSealingLimitVerdict :=
  merge within_limits actions.

Definition action_for (limit : EpochSealingLimit) (v : EpochSealingLimitVerdict) : EpochSealingLimitAction :=
  match find (fun e => bool_decide (fst e = limit)) v with Some (_, action) => action | None => ActContinue end.
Definition checkpoint_size_action (v : EpochSealingLimitVerdict) : EpochSealingLimitAction := action_for CheckpointSize v.

Definition most_restrictive_action (v : EpochSealingLimitVerdict) : EpochSealingLimitAction :=
  match map snd v with [] => ActContinue | a :: l => fold_left action_max l a end.

Inductive EpochSealTrigger := Cadence | Limits (v : EpochSealingLimitVerdict).
Inductive EpochSealingDecision := Seal (t : EpochSealTrigger) | KeepBuilding.

Definition verdict_should_seal (v : EpochSealingLimitVerdict) : bool := action_should_seal (most_restrictive_action v).
Definition seal_trigger (v : EpochSealingLimitVerdict) : option EpochSealTrigger :=
  if verdict_should_seal v then Some (Limits v) else None.
Definition decision_should_seal (d : EpochSealingDecision) : bool :=
  match d with Seal _ => true | KeepBuilding => false end.

(** *** Rules *)

Class CadencePolicy (C : Type) := { seals_at_slot : C -> Slot -> bool }.

Inductive SealingLimitRule := CheckpointSizeRule | ManifestCountRule (max_epoch_manifests : Z).

Definition rule_limit (r : SealingLimitRule) : EpochSealingLimit :=
  match r with CheckpointSizeRule => CheckpointSize | ManifestCountRule _ => ManifestCount end.

Definition rule_check (r : SealingLimitRule) (stats : EpochSealingResourceStats) : EpochSealingLimitAction :=
  match r with
  | CheckpointSizeRule =>
      match checkpoint_size_verdict (rst_da_diff_size stats) (rst_log stats) with
      | WithinLimits => ActContinue
      | SoftLimitReached => SealAfterAdmit
      | HardLimitExceeded => RejectCandidate
      end
  | ManifestCountRule max_epoch_manifests =>
      match rst_manifest_count stats ?= max_epoch_manifests with
      | Lt => ActContinue
      | Eq => SealAfterAdmit
      | Gt => RejectCandidate
      end
  end.

Definition EpochSealingPolicyContext_default : list SealingLimitRule :=
  [CheckpointSizeRule; ManifestCountRule MAX_SEALING_MANIFEST_COUNT].

Definition context_check_limits (limits : list SealingLimitRule) (stats : EpochSealingResourceStats)
    : EpochSealingLimitVerdict :=
  from_actions (map (fun rule => (rule_limit rule, rule_check rule stats)) limits).

(** *** Policies *)

Class EpochSealingPolicy (E : Type) := {
  check_limits : E -> EpochSealingResourceStats -> EpochSealingLimitVerdict;
  should_seal_epoch : E -> Slot -> EpochSealingLimitVerdict -> EpochSealingDecision;
}.

Record LimitAwareSealing (C : Type) := { las_cadence : C; las_context : list SealingLimitRule }.
Definition LimitAwareSealing_new {C} (cadence : C) : LimitAwareSealing C :=
  {| las_cadence := cadence; las_context := EpochSealingPolicyContext_default |}.

Definition las_should_seal_epoch {C} `{!CadencePolicy C} (p : LimitAwareSealing C) (slot : Slot)
    (limit_verdict : EpochSealingLimitVerdict) : EpochSealingDecision :=
  match seal_trigger limit_verdict with
  | Some trigger => Seal trigger
  | None => if seals_at_slot (las_cadence _ p) slot then Seal Cadence else KeepBuilding
  end.

#[export] Instance limit_aware_policy {C} `{!CadencePolicy C} : EpochSealingPolicy (LimitAwareSealing C) := {
  check_limits p stats := context_check_limits (las_context _ p) stats;
  should_seal_epoch := las_should_seal_epoch;
}.

Record FixedSlotSealing := { fss_slots_per_epoch : Z }.
(** Panics on an empty epoch. *)
Definition FixedSlotSealing_new {E} (slots_per_epoch : Z) : res E FixedSlotSealing :=
  if 0 <? slots_per_epoch then Ok {| fss_slots_per_epoch := slots_per_epoch |} else Panic.

#[export] Instance fixed_slot_cadence : CadencePolicy FixedSlotSealing := {
  seals_at_slot c slot := slot mod fss_slots_per_epoch c =? 0;
}.
End size.

Abbreviation EpochSealingLimitVerdict := (list (EpochSealingLimit * EpochSealingLimitAction)) (only parsing).
Arguments las_cadence {_}.
Arguments las_context {_}.
