(* ===== verification/BlockAssembly.v ===== *)
(** * Block assembly
    ([crates/ol/block-assembly/src/{error,types,context,resource_state,block_assembly}.rs])

    The sequencer's assembler: on top of a parent it stages mempool transactions
    one by one, each over a write batch and a DA accumulator that are restored
    when the transaction fails, takes in buried ASM manifests, asks the sealing
    policy whether the epoch ends, and completes a template.  The databases, the
    MMR index, the state provider and the mempool behind the context are a class;
    logging is left out. *)

From S2P Require Import Prelude SortedMap Identifiers AcctTypes ChainTypes Externals.
From S2P Require Import CodecTypes DaFramework OLDaTypes LedgerTypes Bridge OLAccount WriteBatch OLState.
From S2P Require Import StateAccessor WriteTracking IndexerLayer DaLayer SnarkSys StfContext StfTx StfManifests.
From S2P Require Import StfBlock Genesis Mempool EpochSealing.

(** ** [error.rs] *)

(** The database errors the assembler distinguishes. *)
Inductive DbError :=
| MmrLeafNotFound
| MmrLeafNotFoundForAccount
| MmrNodeNotFound
| MmrInvalidRange
| MmrPayloadNotFound
| MmrPositionOutOfBounds
| MmrIndexOutOfRange
| MmrPreconditionFailed
| MmrLeafHashMismatch (idx : Z) (expected got : Buf32)
| DbOther.

Inductive MmrId := L1BlockRefs | SnarkMsgInbox (target : AccountId).

Inductive BlockAssemblyError `{X : Ext} :=
| BaInvalidRange (from_height to_height : Z)
| BaL1BlockRefHashMismatch (idx : Z) (expected actual : Buf32)
| BaInboxEntryHashMismatch (idx : Z) (account_id : AccountId) (expected actual : Buf32)
| BaAccountNotFound (id : AccountId)
| BaInboxProofCountMismatch (expected got : Z)
| BaUnknownTemplateId (id : OLBlockId)
| BaBlockNotFound (id : OLBlockId)
| BaHeaderNotFound (id : OLBlockId)
| BaParentStateNotFound (c : OLBlockCommitment)
| BaNoPendingTemplateForParent (id : OLBlockId)
| BaTemplateAlreadyCompletedForParent (parent : OLBlockId) (block : OLBlockCommitment)
| BaInvalidSignature (id : OLBlockId)
| BaTimestampTooEarly (ts : Z)
| BaInvalidAccumulatorClaim
| BaTooManyClaims
| BaCannotBuildGenesis
| BaGenesisEpochNoBoundary
| BaInvalidEpochBoundary (blkid : OLBlockId) (expected_prev_epoch got_epoch : Epoch) (is_terminal : bool)
| BaEpochBoundaryStateNotFound (c : OLBlockCommitment)
| BaRequestChannelClosed
| BaResponseChannelClosed
| BaDb (e : DbError)
| BaAcct (e : AcctError)
| BaState (e : StateError)
| BaChainTypes (e : ChainTypesError)
| BaMempool (e : OLMempoolError)
| BaStateProvider
| BaBlockConstruction (e : ExecError)
| BaSnarkUpdatePreValidation (e : ExecError)
| BaOther.

(** ** [types.rs] *)

Section types.
Context `{X : Ext}.

Record FullBlockTemplate := { tpl_header : OLBlockHeader; tpl_body : OLBlockBody }.

Definition get_blockid (t : FullBlockTemplate) : OLBlockId := compute_blkid (tpl_header t).

Definition complete_block_template (t : FullBlockTemplate) (signature : Z) : OLBlock :=
  {| blk_header := tpl_header t; blk_signature := Some signature; blk_body := tpl_body t |}.

Record BlockGenerationConfig := { bgc_parent_block_commitment : OLBlockCommitment; bgc_ts : option Z }.

Abbreviation FailedMempoolTx := (OLTxId * MempoolTxInvalidReason)%type (only parsing).

(** ** The errors reported to the mempool *)

Definition stf_exec_error_to_mempool_reason (err : ExecError) : MempoolTxInvalidReason :=
  match err with
  | TransactionExpired _ _ => TxInvalid
  | SignatureInvalid _ | UnknownAccount _ | IncorrectTxTargetType | Codec _ | Acct _ | LogsOverflow _ _ => TxInvalid
  | TransactionNotMature _ _ | TxConditionCheckFailed | BalanceUnderflow | InsufficientAccountBalance _ _ => TxFailed
  | _ => TxFailed
  end.

Definition block_assembly_error_to_mempool_reason (err : BlockAssemblyError) : MempoolTxInvalidReason :=
  match err with
  | BaInvalidAccumulatorClaim | BaAcct _ | BaState _ | BaL1BlockRefHashMismatch _ _ _
  | BaInboxEntryHashMismatch _ _ _ _ | BaAccountNotFound _ | BaInboxProofCountMismatch _ _ => TxInvalid
  | BaSnarkUpdatePreValidation exec_err => stf_exec_error_to_mempool_reason exec_err
  | BaDb db_err =>
      match db_err with
      | MmrLeafNotFound | MmrLeafNotFoundForAccount | MmrNodeNotFound | MmrInvalidRange | MmrPayloadNotFound
      | MmrPositionOutOfBounds => TxInvalid
      | MmrIndexOutOfRange => TxFailed
      | MmrPreconditionFailed => TxFailed
      | _ => TxFailed
      end
  | _ => TxFailed
  end.
End types.

(** ** [context.rs] *)

Section context.
Context `{X : Ext}.

Class BlockAssemblyContext (C S : Type) := {
  ba_get_block_data : C -> OLBlockId -> res DbError (option OLBlock);
  ba_get_ol_header : C -> OLBlockId -> res DbError (option OLBlockHeader);
  (** [None]: an error of the provider. *)
  ba_get_state_for_tip : C -> OLBlockCommitment -> option (option S);
  (** The height of the canonical ASM state. *)
  ba_canonical_asm_height : C -> res DbError (option L1Height);
  ba_get_block_manifest_at_height : C -> L1Height -> res DbError (option AsmManifest);
  ba_generate_proofs_for_indices : C -> MmrId -> list (Z * Buf32) -> Z -> res DbError (list RawMerkleProof);
  ba_generate_proofs_for : C -> MmrId -> Z -> list Buf32 -> Z -> res DbError (list RawMerkleProof);
  ba_mempool_get_transactions : C -> Z -> res OLMempoolError (list (OLTxId * OLTransaction));
  ba_mempool_report_invalid : list (OLTxId * MempoolTxInvalidReason) -> M OLMempoolError C unit;
  (** [SystemTime::now()], in milliseconds since the Unix epoch. *)
  ba_system_time_millis : C -> Z;
  l1_reorg_safe_depth : C -> Z;
}.

Context {C S : Type} `{BC : !BlockAssemblyContext C S}.

Definition fetch_ol_block (ctx : C) (id : OLBlockId) : res BlockAssemblyError (option OLBlock) :=
  res_map_err BaDb (ba_get_block_data (S := S) ctx id).
Definition fetch_ol_header (ctx : C) (id : OLBlockId) : res BlockAssemblyError (option OLBlockHeader) :=
  res_map_err BaDb (ba_get_ol_header (S := S) ctx id).
Definition fetch_state_for_tip (ctx : C) (tip : OLBlockCommitment) : res BlockAssemblyError (option S) :=
  ok_or (ba_get_state_for_tip ctx tip) BaStateProvider.

(** The manifests of [n] heights from [height] on. *)
Fixpoint fetch_manifests (ctx : C) (height : L1Height) (n : nat) : res BlockAssemblyError (list AsmManifest) :=
  match n with
  | O => Ok []
  | Datatypes.S n' =>
      let! o := res_map_err BaDb (ba_get_block_manifest_at_height (S := S) ctx height) in
      let! manifest := ok_or o (BaDb DbOther) in
      let! rest := fetch_manifests ctx (height + 1) n' in
      Ok (manifest :: rest)
  end.

Definition fetch_asm_manifests_from (ctx : C) (start_height : L1Height) (max_count : Z)
    : res BlockAssemblyError (list AsmManifest) :=
  if max_count =? 0 then Ok [] else
  let! o := res_map_err BaDb (ba_canonical_asm_height (S := S) ctx) in
  match o with
  | None => Ok []
  | Some asm_tip_height =>
      let safe_depth := Z.max (l1_reorg_safe_depth (S := S) ctx) 1 in
      let buried_tip := Z.max 0 (asm_tip_height - (safe_depth - 1)) in
      if buried_tip <? start_height then Ok []
      else
        let end_height := Z.min buried_tip (Z.min (start_height + (max_count - 1)) U32_MAX) in
        fetch_manifests ctx start_height (Z.to_nat (end_height - start_height + 1))
  end.

Definition inbox_proof_error (target : AccountId) (err : DbError) : BlockAssemblyError :=
  match err with
  | MmrLeafHashMismatch idx expected got => BaInboxEntryHashMismatch idx target expected got
  | other => BaDb other
  end.

Definition generate_inbox_proofs_at (ctx : C) (target : AccountId) (messages : list MessageEntry) (start_idx at_leaf_count : Z)
    : res BlockAssemblyError (list RawMerkleProof) :=
  match messages with
  | [] => Ok []
  | _ =>
      let! merkle_proofs :=
        res_map_err (inbox_proof_error target)
          (ba_generate_proofs_for (S := S) ctx (SnarkMsgInbox target) start_idx (map thr_message_entry messages) at_leaf_count) in
      if negb (zlen merkle_proofs =? zlen messages) then
        Err (BaInboxProofCountMismatch (zlen messages) (zlen merkle_proofs))
      else Ok merkle_proofs
  end.

Definition generate_inbox_proofs_for_claims (ctx : C) (target : AccountId) (claims : list AccumulatorClaim)
    (at_leaf_count : Z) : res BlockAssemblyError (list RawMerkleProof) :=
  match claims with
  | [] => Ok []
  | _ =>
      res_map_err (inbox_proof_error target)
        (ba_generate_proofs_for_indices (S := S) ctx (SnarkMsgInbox target)
           (map (fun c => (claim_idx c, claim_entry_hash c)) claims) at_leaf_count)
  end.

Definition generate_l1_block_ref_proofs {T} `{!IStateAccessor T} (ctx : C) (l1_block_refs : list AccumulatorClaim) (state : T)
    : res BlockAssemblyError (list RawMerkleProof) :=
  match l1_block_refs with
  | [] => Ok []
  | _ =>
      res_map_err (fun err => match err with
                              | MmrLeafHashMismatch idx expected got => BaL1BlockRefHashMismatch idx expected got
                              | other => BaDb other
                              end)
        (ba_generate_proofs_for_indices (S := S) ctx L1BlockRefs
           (map (fun c => (claim_idx c, claim_entry_hash c)) l1_block_refs) (mmr_num_entries (l1_block_refs_mmr state)))
  end.

(** ** Proofs for a transaction *)

(** The proofs of the indexed claims, in order. *)
Fixpoint generate_proofs {T} `{!IStateAccessor T} (ctx : C) (target : AccountId) (state : T) (inbox_leaf_count : Z)
    (checks : list AccProofCheck) : res BlockAssemblyError (list RawMerkleProof) :=
  match checks with
  | [] => Ok []
  | check :: checks' =>
      let! proofs :=
        match check with
        | CheckL1BlockRef claim => generate_l1_block_ref_proofs ctx [claim] state
        | CheckInbox claim => generate_inbox_proofs_for_claims ctx target [claim] inbox_leaf_count
        end in
      let! rest := generate_proofs ctx target state inbox_leaf_count checks' in
      Ok (proofs ++ rest)
  end.

Definition add_accumulator_proofs {T} `{!IStateAccessor T} (ctx : C) (state : T) (mempool_tx : OLTransaction)
    : res BlockAssemblyError OLTransaction :=
  match txd_payload (tx_data mempool_tx) with
  | GenericAccountMessage _ => Ok mempool_tx
  | SnarkAccountUpdate sau =>
      let target := sau_target sau in
      let effects := txd_effects (tx_data mempool_tx) in
      let! o := res_map_err BaState (get_account_state state target) in
      let! account_state := ok_or o (BaAccountNotFound target) in
      let! proof_indexer := res_map_err BaSnarkUpdatePreValidation (run_verifier
        (verify_snark_acct_update_proofs target account_state (sau_operation_data sau) effects) TxProofIndexer_new_fresh) in
      let! snark := res_map_err BaState (as_snark_account account_state) in
      let! all_acc_proofs := generate_proofs ctx target state (mmr_num_entries (sas_inbox_mmr snark))
                               (ix_accumulator_checks proof_indexer) in
      Ok (with_accumulator_proofs mempool_tx (RawMerkleProofList_from_vec_nonempty all_acc_proofs))
  end.
End context.

(** ** [resource_state.rs] *)

Section assembly.
Context `{XR : ExtRoot} `{CE : !CodecExt} `{DE : !DaExt} `{AX : !AssemblyExt}.

Record AccumulatedDaData := { add_accumulator : EpochDaAccumulator; add_logs_of : list OLLog }.
Definition AccumulatedDaData_new_empty : AccumulatedDaData :=
  {| add_accumulator := EpochDaAccumulator_default; add_logs_of := [] |}.
Definition append_logs (d : AccumulatedDaData) (new_logs : list OLLog) : AccumulatedDaData :=
  {| add_accumulator := add_accumulator d; add_logs_of := add_logs_of d ++ new_logs |}.

Record EpochResourceState := { ers_da : AccumulatedDaData; ers_manifest_count : Z }.
Definition EpochResourceState_new_empty : EpochResourceState :=
  {| ers_da := AccumulatedDaData_new_empty; ers_manifest_count := 0 |}.

(** ** [block_assembly.rs] *)

(** *** ASM manifests *)

Section policy.
Context {P : Type} `{!EpochSealingPolicy P}.

Record SelectedAsmManifests := { sel_manifests : list AsmManifest; sel_sealing_limit_verdict : EpochSealingLimitVerdict }.

(** The loop of [select_asm_manifests], after [selected] with
    [selected_asm_log_count] logs. *)
Fixpoint select_manifests (policy : P) (remaining_pending_asm_log_slots epoch_cumulative_manifest_count : Z)
    (selected : list AsmManifest) (selected_asm_log_count : Z) (candidates : list AsmManifest) : SelectedAsmManifests :=
  match candidates with
  | [] => {| sel_manifests := selected; sel_sealing_limit_verdict := within_limits |}
  | candidate :: candidates' =>
      let candidate_asm_log_count := zlen (mf_logs candidate) in
      if remaining_pending_asm_log_slots <? saturating_add_u64 selected_asm_log_count candidate_asm_log_count then
        {| sel_manifests := selected; sel_sealing_limit_verdict := within_limits |}
      else
        let candidate_manifest_count := Z.min (Z.min (epoch_cumulative_manifest_count + zlen selected) U32_MAX + 1) U32_MAX in
        let verdict := check_limits policy {| rst_da_diff_size := 0; rst_log := LogMetrics_default;
                                              rst_manifest_count := candidate_manifest_count |} in
        match most_restrictive_action verdict with
        | RejectCandidate => {| sel_manifests := selected; sel_sealing_limit_verdict := merge within_limits verdict |}
        | SealAfterAdmit =>
            {| sel_manifests := selected ++ [candidate]; sel_sealing_limit_verdict := merge within_limits verdict |}
        | ActContinue =>
            select_manifests policy remaining_pending_asm_log_slots epoch_cumulative_manifest_count (selected ++ [candidate])
              (selected_asm_log_count + candidate_asm_log_count) candidates'
        end
  end.

Definition select_asm_manifests (policy : P) (candidates : list AsmManifest)
    (remaining_pending_asm_log_slots epoch_cumulative_manifest_count : Z) : SelectedAsmManifests :=
  select_manifests policy remaining_pending_asm_log_slots epoch_cumulative_manifest_count [] 0 candidates.

Context {S : Type} `{!IStateAccessorMut S, !IComputeStateRootWithWrites S, !IStateBatchApplicable S}.
Context {C : Type} `{BC : !BlockAssemblyContext C S}.

Definition fetch_asm_manifests_for_block (ctx : C) (policy : P) (parent_state : S) (epoch_cumulative_manifest_count : Z)
    : res BlockAssemblyError SelectedAsmManifests :=
  let! start_height := ok_or (checked_add_u32 (last_l1_height parent_state) 1) BaOther in
  let! fetched := fetch_asm_manifests_from ctx start_height MAX_SEALING_MANIFEST_COUNT in
  let remaining_pending_asm_log_slots := Z.max 0 (MAX_PENDING_ASM_LOGS - pending_asm_logs_len parent_state) in
  Ok (select_asm_manifests policy fetched remaining_pending_asm_log_slots epoch_cumulative_manifest_count).

(** *** Staging *)

Abbreviation StagingState := (DaAccumulatingState (WriteTrackingState S)) (only parsing).

(** [WriteTrackingState::new] under [DaAccumulatingState::new_with_accumulator]. *)
Definition staging_of (parent_state : S) (batch : WriteBatch) (acc : EpochDaAccumulator) : StagingState :=
  DaAccumulatingState_new_with_accumulator {| wt_base := parent_state; wt_batch := batch |} acc.

(** [expect] on the outcome of a phase. *)
Definition expect_phase {E A T} (o : res ExecError A * T) : res E T :=
  match o with (Ok _, s) => Ok s | _ => Panic end.

Definition execute_block_initialization {E} (parent_state : S) (block_context : BlockContext) (accumulated_da : AccumulatedDaData)
    : res E (WriteBatch * AccumulatedDaData) :=
  let da_state := DaAccumulatingState_new_with_accumulator (WriteTrackingState_new_empty parent_state)
                    (add_accumulator accumulated_da) in
  let! da_state := expect_phase (process_block_start block_context da_state) in
  let! da_state :=
    (if is_epoch_initial block_context then
       let! init_ctx := get_epoch_initial_context block_context in
       expect_phase (process_epoch_initial init_ctx da_state)
     else Ok da_state) in
  Ok (wt_batch (das_inner da_state),
      {| add_accumulator := das_epoch_acc da_state; add_logs_of := add_logs_of accumulated_da |}).

(** The variables of the loop over the mempool's transactions; [stg_output] is
    the block's output buffer. *)
Record Staging := {
  stg_state : StagingState;
  stg_output : list OLLog;
  stg_log_metrics : LogMetrics;
  stg_successful_txs : list OLTransaction;
  stg_failed_txs : list (OLTxId * MempoolTxInvalidReason);
  stg_sealing_limit_verdict : EpochSealingLimitVerdict;
}.

Definition stg_fail (st : Staging) (state : StagingState) (txid : OLTxId) (reason : MempoolTxInvalidReason) : Staging :=
  {| stg_state := state; stg_output := stg_output st; stg_log_metrics := stg_log_metrics st;
     stg_successful_txs := stg_successful_txs st; stg_failed_txs := stg_failed_txs st ++ [(txid, reason)];
     stg_sealing_limit_verdict := stg_sealing_limit_verdict st |}.

Definition stg_stop (st : Staging) (state : StagingState) (verdict : EpochSealingLimitVerdict) : Staging :=
  {| stg_state := state; stg_output := stg_output st; stg_log_metrics := stg_log_metrics st;
     stg_successful_txs := stg_successful_txs st; stg_failed_txs := stg_failed_txs st;
     stg_sealing_limit_verdict := verdict |}.

Definition stg_admit (st : Staging) (state : StagingState) (output : list OLLog) (metrics : LogMetrics) (tx : OLTransaction)
    (verdict : EpochSealingLimitVerdict) : Staging :=
  {| stg_state := state; stg_output := output; stg_log_metrics := metrics;
     stg_successful_txs := stg_successful_txs st ++ [tx]; stg_failed_txs := stg_failed_txs st;
     stg_sealing_limit_verdict := verdict |}.

Section loop.
Context (ctx : C) (policy : P) (block_context : BlockContext) (parent_state : S) (epoch_cumulative_manifest_count : Z)
  (bridge_params : BridgeParams).

(** What an executed transaction leads to: [true] continues with the next one.
    [backup] restores the state before it. *)
Definition commit_tx (st : Staging) (backup executed : StagingState) (tx : OLTransaction) (tx_logs : list OLLog)
    : Staging * bool :=
  let tentative := add_logs (stg_log_metrics st) tx_logs in
  let verdict := check_limits policy
    {| rst_da_diff_size := estimated_encoded_size (das_epoch_acc executed); rst_log := tentative;
       rst_manifest_count := epoch_cumulative_manifest_count |} in
  match checkpoint_size_action verdict with
  | RejectCandidate => (stg_stop st backup verdict, false)
  | SealAfterAdmit =>
      match buffer_emit_logs tx_logs (stg_output st) with
      | (Ok _, output) => (stg_admit st executed output (stg_log_metrics st) tx verdict, false)
      | _ => (stg_stop st backup verdict, false)
      end
  | ActContinue =>
      match buffer_emit_logs tx_logs (stg_output st) with
      | (Ok _, output) => (stg_admit st executed output tentative tx (stg_sealing_limit_verdict st), true)
      | _ => (stg_stop st backup (stg_sealing_limit_verdict st), false)
      end
  end.

Fixpoint stage_txs (st : Staging) (mempool_txs : list (OLTxId * OLTransaction)) : res BlockAssemblyError Staging :=
  match mempool_txs with
  | [] => Ok st
  | (txid, mempool_tx) :: mempool_txs' =>
      match add_accumulator_proofs (S := S) ctx (stg_state st) mempool_tx with
      | Err e => stage_txs (stg_fail st (stg_state st) txid (block_assembly_error_to_mempool_reason e)) mempool_txs'
      | Panic => Panic
      | Ok tx =>
          let backup := staging_of parent_state (wt_batch (das_inner (stg_state st))) (das_epoch_acc (stg_state st)) in
          let basic_ctx := with_bridge_params (BasicExecContext_new (bc_block_info block_context)) bridge_params in
          let tx_ctx := {| tec_basic_context := basic_ctx; tec_parent_header := bc_parent_header block_context |} in
          match process_single_tx tx tx_ctx {| xs_state := stg_state st; xs_out := [] |} with
          | (Ok _, x) =>
              let '(st', continue) := commit_tx st backup (xs_state x) tx (xs_out x) in
              if continue : bool then stage_txs st' mempool_txs' else Ok st'
          | (Err e, _) => stage_txs (stg_fail st backup txid (stf_exec_error_to_mempool_reason e)) mempool_txs'
          | (Panic, _) => Panic
          end
      end
  end.

Record ProcessTransactionsOutput := {
  pto_successful_txs : list OLTransaction;
  pto_failed_txs : list (OLTxId * MempoolTxInvalidReason);
  pto_accumulated_batch : WriteBatch;
  pto_accumulated_da : AccumulatedDaData;
  pto_sealing_limit_verdict : EpochSealingLimitVerdict;
}.

(** Next to the output, what it leaves in the block's (empty) output buffer. *)
Definition process_transactions (accumulated_batch : WriteBatch) (mempool_txs : list (OLTxId * OLTransaction))
    (accumulated_da : AccumulatedDaData) : res BlockAssemblyError (ProcessTransactionsOutput * list OLLog) :=
  let! st := stage_txs
    {| stg_state := staging_of parent_state accumulated_batch (add_accumulator accumulated_da);
       stg_output := []; stg_log_metrics := LogMetrics_from_logs (add_logs_of accumulated_da);
       stg_successful_txs := []; stg_failed_txs := []; stg_sealing_limit_verdict := within_limits |} mempool_txs in
  Ok ({| pto_successful_txs := stg_successful_txs st; pto_failed_txs := stg_failed_txs st;
         pto_accumulated_batch := wt_batch (das_inner (stg_state st));
         pto_accumulated_da := {| add_accumulator := das_epoch_acc (stg_state st); add_logs_of := add_logs_of accumulated_da |};
         pto_sealing_limit_verdict := stg_sealing_limit_verdict st |}, stg_output st).
End loop.

(** *** Completing the template *)

Definition build_block_template (ctx : C) (config : BlockGenerationConfig) (block_context : BlockContext) (parent_state : S)
    (accumulated_batch : WriteBatch) (output_buffer : list OLLog) (successful_txs : list OLTransaction) (is_terminal : bool)
    (manifest_container : option (list AsmManifest)) : res BlockAssemblyError (FullBlockTemplate * S) :=
  let '(r, final_state) := apply_batch accumulated_batch parent_state in
  let! _ := res_map_err BaState r in
  let '(r, final_state) :=
    match manifest_container with
    | Some mfs => process_block_manifests mfs final_state
    | None => (Ok tt, final_state)
    end in
  let! _ := res_map_err BaBlockConstruction r in
  let '(r, x) :=
    (if is_terminal then
       process_epoch_terminal (BasicExecContext_new (bc_block_info block_context)) {| xs_state := final_state; xs_out := output_buffer |}
     else (Ok tt, {| xs_state := final_state; xs_out := output_buffer |})) in
  let! _ := res_map_err BaBlockConstruction r in
  let final_state := xs_state x in
  let! state_root := res_map_err BaState (compute_state_root final_state) in
  let! _ := res_map_err BaBlockConstruction (verify_logs_within_block_limit (xs_out x)) in
  let exec_outputs := {| beo_state_root := state_root; beo_logs := xs_out x |} in
  let! logs_root := compute_block_logs_root exec_outputs in
  let! tx_segment := res_map_err BaChainTypes (OLTxSegment_new successful_txs) in
  let body := OLBlockBody_new_common tx_segment in
  let body := match manifest_container with Some mc => OLBlockBody_set_manifests body mc | None => body end in
  let header := {|
    hdr_timestamp := match bgc_ts config with Some ts => ts | None => ba_system_time_millis (S := S) ctx end;
    hdr_flags := BlockFlags_set_is_terminal BlockFlags_zero is_terminal;
    hdr_slot := bc_slot block_context; hdr_epoch := bc_epoch block_context;
    hdr_parent_blkid := compute_parent_blkid block_context; hdr_body_root := body_hash_commitment body;
    hdr_state_root := beo_state_root exec_outputs; hdr_logs_root := logs_root |} in
  Ok ({| tpl_header := header; tpl_body := body |}, final_state).

Record ConstructBlockOutput := {
  cbo_template : FullBlockTemplate;
  cbo_failed_txs : list (OLTxId * MempoolTxInvalidReason);
  cbo_post_state : S;
  cbo_resource_state : EpochResourceState;
}.

Definition construct_block (ctx : C) (policy : P) (config : BlockGenerationConfig) (parent_state : S) (block_slot : Slot)
    (block_epoch : Epoch) (mempool_txs : list (OLTxId * OLTransaction)) (resource_state_before_block : EpochResourceState)
    (bridge_params : BridgeParams) : res BlockAssemblyError ConstructBlockOutput :=
  let parent_commitment := bgc_parent_block_commitment config in
  if obc_is_null parent_commitment then Panic else
  let parent_blkid := obc_blkid parent_commitment in
  let! o := fetch_ol_header (S := S) ctx parent_blkid in
  let! parent_header := ok_or o (BaHeaderNotFound parent_blkid) in
  let block_info := {| bi_timestamp := 0; bi_slot := block_slot; bi_epoch := block_epoch |} in
  let! block_context := BlockContext_new block_info (Some parent_header) in
  let epoch_cumulative_manifest_count := ers_manifest_count resource_state_before_block in
  let! (accumulated_batch, accumulated_da) :=
    execute_block_initialization parent_state block_context (ers_da resource_state_before_block) in
  let! (pto, output_buffer) :=
    process_transactions ctx policy block_context parent_state epoch_cumulative_manifest_count bridge_params
      accumulated_batch mempool_txs accumulated_da in
  let! sel := fetch_asm_manifests_for_block ctx policy parent_state epoch_cumulative_manifest_count in
  let sealing_limit_verdict := merge (pto_sealing_limit_verdict pto) (sel_sealing_limit_verdict sel) in
  let selected_asm_manifest_count := zlen (sel_manifests sel) in
  let! manifest_container :=
    match sel_manifests sel with
    | [] => Ok None
    | mfs => let! mc := res_map_err BaChainTypes (OLAsmManifestContainer_new mfs) in Ok (Some mc)
    end in
  let should_seal := decision_should_seal (should_seal_epoch policy block_slot sealing_limit_verdict) in
  let! (template, post_state) :=
    build_block_template ctx config block_context parent_state (pto_accumulated_batch pto) output_buffer
      (pto_successful_txs pto) should_seal manifest_container in
  let accumulated_da := append_logs (pto_accumulated_da pto) output_buffer in
  let! manifest_count := expect (checked_add_u32 epoch_cumulative_manifest_count selected_asm_manifest_count) in
  Ok {| cbo_template := template; cbo_failed_txs := pto_failed_txs pto; cbo_post_state := post_state;
        cbo_resource_state := {| ers_da := accumulated_da; ers_manifest_count := manifest_count |} |}.

Record BlockTemplateResult := {
  btr_template : FullBlockTemplate;
  btr_failed_txs : list (OLTxId * MempoolTxInvalidReason);
  btr_resource_state : EpochResourceState;
}.

Definition calculate_block_slot_and_epoch {E} (parent_commitment : OLBlockCommitment) (parent_state : S)
    : res E (Slot * Epoch) :=
  if obc_is_null parent_commitment then Panic
  else Ok (wrap_u64 (cur_slot parent_state + 1), cur_epoch parent_state).

Definition generate_block_template_inner (ctx : C) (policy : P) (max_txs_per_block : Z) (config : BlockGenerationConfig)
    (resource_state_before_block : EpochResourceState) (bridge_params : BridgeParams)
    : res BlockAssemblyError BlockTemplateResult :=
  let parent_commitment := bgc_parent_block_commitment config in
  if obc_is_null parent_commitment then Panic else
  let! o := fetch_state_for_tip ctx parent_commitment in
  let! parent_state := ok_or o (BaParentStateNotFound parent_commitment) in
  let! (block_slot, block_epoch) := calculate_block_slot_and_epoch parent_commitment parent_state in
  let! mempool_txs := res_map_err BaMempool (ba_mempool_get_transactions (S := S) ctx max_txs_per_block) in
  let! output := construct_block ctx policy config parent_state block_slot block_epoch mempool_txs
                   resource_state_before_block bridge_params in
  Ok {| btr_template := cbo_template output; btr_failed_txs := cbo_failed_txs output;
        btr_resource_state := cbo_resource_state output |}.
End policy.
End assembly.
