(* ===== verification/BlockAssemblySpec.v ===== *)
(** * Assembled templates verify

    The assembler executes transactions over a staged write batch with buffers of
    their own, restores the stage when one fails, and runs with a placeholder
    timestamp.  What it puts into a template nevertheless executes, from the
    parent state on, exactly as block verification executes it: the phases are
    related through the abstract ledger, failed transactions leave no trace, and
    the logs of a transaction do not depend on what the block's buffer holds. *)

From S2P Require Import Prelude SortedMap Identifiers AcctTypes ChainTypes Externals.
From S2P Require Import CodecTypes DaFramework OLDaTypes LedgerTypes Bridge OLAccount WriteBatch OLState.
From S2P Require Import StateAccessor LedgerSpec MemoryLayer BatchApply WriteTracking IndexerLayer DaLayer SnarkSys StfContext.
From S2P Require Import StfTx StfManifests StfBlock StfSim DaSim StfAgreement Mempool EpochSealing BlockAssembly.

(** ** Buffers

    [framed m1 m2]: what [m1] appends to its buffer, [m2] appends to any buffer
    that has room for it, with the same effect on the state. *)
Definition framed `{X : Ext} {S A} (m1 m2 : Exec S A) : Prop := forall s o1 a s' o1',
  m1 {| xs_state := s; xs_out := o1 |} = (Ok a, {| xs_state := s'; xs_out := o1' |}) ->
  exists new, o1' = o1 ++ new /\ forall o2, zlen (o2 ++ new) <= MAX_LOGS_PER_BLOCK ->
    m2 {| xs_state := s; xs_out := o2 |} = (Ok a, {| xs_state := s'; xs_out := o2 ++ new |}).

Section framed.
Context `{X : Ext} {S : Type}.

Lemma framed_lift {A} (m : M ExecError S A) : framed (lift_exec m) (lift_exec m).
Proof.
  intros s o1 a s' o1' H. apply lift_exec_returns in H as (s2 & Hm & Heq). injection Heq as <- ->.
  exists []. rewrite app_nil_r. split; [done|]. intros o2 _. rewrite app_nil_r. unfold lift_exec. simpl in *. by rewrite Hm.
Qed.

Lemma framed_mlift {A} (r : res ExecError A) : framed (S := S) (mlift r) (mlift r).
Proof.
  intros s o1 a s' o1' H. unfold mlift in *. injection H as -> -> ->. exists []. rewrite app_nil_r.
  split; [done|]. intros o2 _. by rewrite app_nil_r.
Qed.

Lemma framed_mbind {A B} (m1 m2 : Exec S A) (k1 k2 : A -> Exec S B) :
  framed m1 m2 -> (forall a, framed (k1 a) (k2 a)) -> framed (mbind m1 k1) (mbind m2 k2).
Proof.
  intros Hm Hk s o1 b s' o1' H. apply mbind_returns in H as (a & [s2 o2] & H1 & H2).
  apply Hm in H1 as (n1 & -> & H1). apply Hk in H2 as (n2 & -> & H2).
  exists (n1 ++ n2). split; [by rewrite app_assoc|]. intros o2 Hlen. rewrite app_assoc in Hlen |- *.
  rewrite (mbind_ok _ _ _ _ _ (H1 o2 ltac:(autorewrite with zlen in *; pose proof (zlen_nonneg n2); lia))).
  by apply H2.
Qed.

Lemma framed_emit serial enc : framed (S := S) (emit_typed_log serial enc) (emit_typed_log serial enc).
Proof.
  apply framed_mbind; [apply framed_mlift|]. intros body s o1 [] s' o1' H. unfold emit_log, emit_logs, buffer_emit_logs in *.
  simpl in H |- *. destruct (_ <? _); [done|]. simplify_eq. eexists. split; [done|]. intros o2 Hlen.
  rewrite (proj2 (Z.ltb_ge _ _)); [done|]. rewrite zlen_app in Hlen. unfold saturating_add_u64. lia.
Qed.

Lemma framed_mret {A} (a : A) : framed (S := S) (mret a) (mret a).
Proof. apply (framed_mlift (Ok a)). Qed.
End framed.

(** ** Transactions under contexts that differ in the timestamp *)

Section contexts.
Context `{X : Ext} {S : Type} `{!IStateAccessorMut S}.

Definition ctx_like (c1 c2 : BasicExecContext) : Prop :=
  bec_epoch c1 = bec_epoch c2 /\ bec_bridge_params c1 = bec_bridge_params c2.

Lemma process_message_framed c1 c2 sender target msg :
  ctx_like c1 c2 -> framed (process_message c1 sender target msg) (process_message (S := S) c2 sender target msg).
Proof.
  intros [He Hb]. unfold process_message, handle_bridge_gateway_message, parse_withdrawal. rewrite Hb.
  assert (deliver_to_account c1 = deliver_to_account c2) as ->.
  { unfold deliver_to_account, handle_snark_account_message. by rewrite He. }
  repeat case_match; try apply framed_lift; apply framed_emit.
Qed.

Lemma distribute_transfers_framed ts c :
  framed (distribute_transfers ts c) (distribute_transfers (S := S) ts c).
Proof.
  revert c. induction ts as [|t ts IH]; intros c; simpl; [apply framed_mret|].
  apply framed_mbind; [apply framed_mlift|]. intros [coin rest]. apply framed_mbind; [apply framed_lift|]. intros _. apply IH.
Qed.

Lemma distribute_messages_framed c1 c2 source ms c :
  ctx_like c1 c2 -> framed (distribute_messages c1 source ms c) (distribute_messages (S := S) c2 source ms c).
Proof.
  intros Hc. revert c. induction ms as [|m ms IH]; intros c; simpl; [apply framed_mret|].
  apply framed_mbind; [apply framed_mlift|]. intros [coin rest].
  apply framed_mbind; [by apply process_message_framed|]. intros _. apply IH.
Qed.

Lemma process_update_tx_framed sau fx proofs c1 c2 :
  framed (process_update_tx sau fx proofs c1) (process_update_tx (S := S) sau fx proofs c2).
Proof.
  apply framed_mbind; [apply framed_lift|]. intros acct. apply framed_mbind; [apply framed_lift|]. intros _.
  apply framed_mbind; [apply framed_mlift|]. intros log. apply framed_emit.
Qed.

Lemma process_single_tx_framed tx c1 c2 :
  ctx_like (tec_basic_context c1) (tec_basic_context c2) ->
  framed (process_single_tx tx c1) (process_single_tx (S := S) tx c2).
Proof.
  intros Hc. unfold process_single_tx. apply framed_mbind; [apply framed_lift|]. intros _.
  apply framed_mbind.
  { destruct (txd_payload _); (apply framed_mbind; [|intros _; apply framed_mret]);
      [apply framed_mlift|apply process_update_tx_framed]. }
  intros sender. unfold apply_tx_effects, distribute_effects.
  apply framed_mbind; [apply framed_mlift|]. intros total. apply framed_mbind; [apply framed_lift|]. intros rem.
  apply framed_mbind; [|intros ?; apply framed_mlift].
  apply framed_mbind; [apply distribute_transfers_framed|]. intros ?. by apply distribute_messages_framed.
Qed.
End contexts.

(** ** The stage *)

Lemma buffer_emit_logs_ok `{X : Ext} (new logs logs' : list OLLog) u :
  buffer_emit_logs new logs = (Ok u, logs') -> logs' = logs ++ new /\ zlen (logs ++ new) <= MAX_LOGS_PER_BLOCK.
Proof.
  unfold buffer_emit_logs. destruct (_ <? _) eqn:Hlt; intros; simplify_eq. split; [done|]. zbool. rewrite zlen_app.
  unfold saturating_add_u64 in Hlt. assert (MAX_LOGS_PER_BLOCK < U64_MAX) by done. lia.
Qed.

Section staging.
Context `{XR : ExtRoot} `{CE : !CodecExt} `{DE : !DaExt} `{AX : !AssemblyExt} `{!SerialLaws X, !MsgCodecLaws X}.
Context (m : MemoryStateBaseLayer) (a : LState).

(** The stage stands for the ledger, over the parent state [m]. *)
Definition staged : DaAccumulatingState (WriteTrackingState MemoryStateBaseLayer) -> LState -> Prop :=
  da_refines (wt_refines (at_base m)) False a.

#[local] Instance staged_sim : PredrainSim staged.
Proof. unfold staged. eapply (da_predrain_sim (wt_refines (at_base m))). Unshelve. all: apply _. Qed.

Lemma staged_restore d l :
  staged d l -> staged (staging_of m (wt_batch (das_inner d)) (das_epoch_acc d)) l.
Proof.
  intros [Hr H1 H2 H3 H4 H5]. split; try done. simpl. destruct Hr as [ab [<- Hb] Hfit ->]. by exists ab.
Qed.

(** Committing the batch of a stage is being in the state it stands for. *)
Lemma staged_commit d l m1 :
  staged d l -> mem_refines m1 l -> apply_batch (wt_batch (das_inner d)) m = (Ok tt, m1).
Proof.
  intros [Hr _ _ _ _ _] Hm1. destruct Hr as [ab [Hb Hrb] Hfit ->].
  destruct (mem_apply_write_batch_refines _ ab _ Hrb Hfit) as (m' & Happ & Hr'). rewrite Hb in Happ.
  simpl. rewrite Happ. f_equal. by eapply mem_refines_inj.
Qed.

End staging.

Lemma sim_run {E T U A} (R : T -> U -> Prop) (mt : M E T A) (ml : M E U A) s l r s' :
  sim R mt ml -> R s l -> mt s = (r, s') -> r <> Panic -> exists l', ml l = (r, l') /\ R s' l'.
Proof.
  intros Hs Hr Hrun Hp. destruct (Hs s l Hr) as [He Hx]. rewrite Hrun in He, Hx. destruct (ml l) as [r2 l']. simpl in *.
  subst r2. exists l'. split; [done|]. by apply Hx.
Qed.

Lemma exec_run `{X : Ext} {T U A} (R : T -> U -> Prop) (mt : Exec T A) (mu : Exec U A) d t o r x :
  sim (xsim R) mt mu -> R d t -> mt {| xs_state := d; xs_out := o |} = (r, x) -> r <> Panic ->
  exists t', mu {| xs_state := t; xs_out := o |} = (r, {| xs_state := t'; xs_out := xs_out x |}) /\ R (xs_state x) t'.
Proof.
  intros Hs Hd Hrun Hp. assert (Hx : xsim R {| xs_state := d; xs_out := o |} {| xs_state := t; xs_out := o |}) by done.
  destruct (sim_run _ _ _ _ _ _ _ Hs Hx Hrun Hp) as ([t' o'] & H & Ht & Ho).
  simpl in *. subst o'. by exists t'.
Qed.

(** ** Staging, seen from any state the stage stands for *)

Section stages.
Context `{XR : ExtRoot} `{CE : !CodecExt} `{DE : !DaExt} `{AX : !AssemblyExt} `{!SerialLaws X, !MsgCodecLaws X}.
Context (m : MemoryStateBaseLayer) {T : Type} `{!IStateAccessorMut T}.
Context (Rel : DaAccumulatingState (WriteTrackingState MemoryStateBaseLayer) -> T -> Prop) `{!PredrainSim Rel}.
Context (Hrestore : forall d t, Rel d t -> Rel (staging_of m (wt_batch (das_inner d)) (das_epoch_acc d)) t).
Context {P : Type} `{!EpochSealingPolicy P} {C : Type} `{BC : !BlockAssemblyContext C MemoryStateBaseLayer}.
Context (ctx : C) (policy : P) (bctx : BlockContext) (count : Z) (bp : BridgeParams).

Definition assembly_tx_ctx : TxExecContext :=
  {| tec_basic_context := with_bridge_params (BasicExecContext_new (bc_block_info bctx)) bp;
     tec_parent_header := bc_parent_header bctx |}.

(** What admitting transactions amounts to on the state, in any context that
    differs from the assembler's in the timestamp at most. *)
Definition admits (tx_ctx : TxExecContext) (st st' : Staging (S := MemoryStateBaseLayer)) (t t' : T) : Prop := exists new,
  Rel (stg_state st') t' /\ stg_successful_txs st' = stg_successful_txs st ++ new /\
  zlen (stg_output st') <= MAX_LOGS_PER_BLOCK /\
  forall i, miteri (fun i tx => mmap_err (fun e => with_tx e (compute_txid tx) i) (process_single_tx tx tx_ctx)) i new
    {| xs_state := t; xs_out := stg_output st |} = (Ok tt, {| xs_state := t'; xs_out := stg_output st' |}).

Lemma admits_none tx_ctx st st' t :
  Rel (stg_state st') t -> stg_successful_txs st' = stg_successful_txs st -> stg_output st' = stg_output st ->
  zlen (stg_output st) <= MAX_LOGS_PER_BLOCK -> admits tx_ctx st st' t t.
Proof. intros Hd Hs Ho Hlen. exists []. rewrite app_nil_r, Ho. done. Qed.

Lemma admits_trans tx_ctx st1 st2 st3 t1 t2 t3 :
  admits tx_ctx st1 st2 t1 t2 -> admits tx_ctx st2 st3 t2 t3 -> admits tx_ctx st1 st3 t1 t3.
Proof.
  intros (n1 & _ & Hs1 & _ & H1) (n2 & Hd & Hs2 & Hlen & H2). exists (n1 ++ n2). rewrite Hs2, Hs1, app_assoc.
  split_and!; try done. clear Hs1 Hs2 Hd Hlen. intros i.
  assert (Happ : forall l i x, miteri (fun i tx => mmap_err (fun e => with_tx e (compute_txid tx) i) (process_single_tx tx tx_ctx)) i (l ++ n2) x =
    mbind (miteri (fun i tx => mmap_err (fun e => with_tx e (compute_txid tx) i) (process_single_tx (S := T) tx tx_ctx)) i l)
      (fun _ => miteri (fun i tx => mmap_err (fun e => with_tx e (compute_txid tx) i) (process_single_tx tx tx_ctx)) (i + zlen l) n2) x).
  { clear. induction l as [|y l IH]; intros i x; simpl; [by rewrite Z.add_0_r|].
    unfold mbind. destruct (mmap_err _ _ x) as [[]]; [|done..]. rewrite IH. unfold mbind.
    replace (i + zlen (y :: l)) with (i + 1 + zlen l); [done|]. rewrite zlen_cons. lia. }
  rewrite Happ, (mbind_ok _ _ _ _ _ (H1 i)). apply H2.
Qed.

Lemma admits_one tx_ctx st st' t t' tx logs :
  process_single_tx tx assembly_tx_ctx {| xs_state := t; xs_out := [] |} = (Ok tt, {| xs_state := t'; xs_out := logs |}) ->
  ctx_like (tec_basic_context assembly_tx_ctx) (tec_basic_context tx_ctx) ->
  Rel (stg_state st') t' -> stg_successful_txs st' = stg_successful_txs st ++ [tx] ->
  stg_output st' = stg_output st ++ logs -> zlen (stg_output st ++ logs) <= MAX_LOGS_PER_BLOCK ->
  admits tx_ctx st st' t t'.
Proof.
  intros Hrun Hc Hd Hs Ho Hlen. exists [tx]. rewrite Ho. split_and!; try done. intros i. simpl.
  destruct (process_single_tx_framed tx _ tx_ctx Hc _ _ _ _ _ Hrun) as (new & -> & Hf).
  unfold mbind, mmap_err. rewrite (Hf (stg_output st) Hlen). done.
Qed.

Lemma commit_tx_sound tx_ctx st x tx t t' st' b :
  ctx_like (tec_basic_context assembly_tx_ctx) (tec_basic_context tx_ctx) ->
  Rel (stg_state st) t -> Rel (xs_state x) t' -> zlen (stg_output st) <= MAX_LOGS_PER_BLOCK ->
  process_single_tx tx assembly_tx_ctx {| xs_state := t; xs_out := [] |} = (Ok tt, {| xs_state := t'; xs_out := xs_out x |}) ->
  commit_tx policy count st (staging_of m (wt_batch (das_inner (stg_state st))) (das_epoch_acc (stg_state st)))
    (xs_state x) tx (xs_out x) = (st', b) ->
  exists t1, admits tx_ctx st st' t t1.
Proof.
  intros Hc Hd Hx Hlen Hrun H. pose proof (Hrestore _ _ Hd) as Hb. unfold commit_tx in H.
  destruct (checkpoint_size_action _); simpl in H.
  3: { injection H as <- <-. exists t. by apply admits_none. }
  all: destruct (buffer_emit_logs _ _) as [[u|e|] out] eqn:He; injection H as <- <-;
    try (exists t; by apply admits_none).
  all: apply buffer_emit_logs_ok in He as [-> Hlen']. all: exists t'. all: by eapply admits_one.
Qed.

Lemma stage_txs_sound tx_ctx txs : forall st st' t,
  ctx_like (tec_basic_context assembly_tx_ctx) (tec_basic_context tx_ctx) ->
  Rel (stg_state st) t -> zlen (stg_output st) <= MAX_LOGS_PER_BLOCK ->
  stage_txs ctx policy bctx m count bp st txs = Ok st' ->
  exists t', admits tx_ctx st st' t t'.
Proof.
  induction txs as [|[txid mtx] txs IH]; intros st st' t Hc Hd Hlen H.
  { simpl in H. injection H as <-. exists t. by apply admits_none. }
  cbn [stage_txs] in H. destruct (add_accumulator_proofs ctx (stg_state st) mtx) as [tx|e|]; [| |done].
  2: { eapply IH in H as [t' Ha]; [exists t'; exact Ha|exact Hc|exact Hd|exact Hlen]. }
  fold assembly_tx_ctx in H.
  destruct (process_single_tx tx assembly_tx_ctx {| xs_state := stg_state st; xs_out := [] |}) as [r x] eqn:Hrun.
  destruct r as [[]|e|]; [| |done].
  - destruct (exec_run Rel _ _ _ _ _ _ _ (process_single_tx_sim Rel tx assembly_tx_ctx) Hd Hrun ltac:(done)) as (t1 & Ht & Hx).
    destruct (commit_tx _ _ _ _ _ _ _) as [st1 b] eqn:Hcm.
    destruct (commit_tx_sound tx_ctx st x tx t t1 st1 b Hc Hd Hx Hlen Ht Hcm) as (t2 & Ha).
    destruct b; [|injection H as <-; by exists t2].
    destruct Ha as (n & Hd1 & Hs1 & Hlen1 & Hrun1).
    destruct (IH _ _ _ Hc Hd1 Hlen1 H) as (t3 & Ha3). exists t3. eapply admits_trans; [|exact Ha3]. by exists n.
  - eapply IH in H as [t' Ha]; [exists t'; exact Ha|exact Hc|exact (Hrestore _ _ Hd)|exact Hlen].
Qed.

Lemma process_transactions_sound tx_ctx batch txs da pto logs t :
  ctx_like (tec_basic_context assembly_tx_ctx) (tec_basic_context tx_ctx) ->
  Rel (staging_of m batch (add_accumulator da)) t ->
  process_transactions ctx policy bctx m count bp batch txs da = Ok (pto, logs) ->
  exists t' d, Rel d t' /\ pto_accumulated_batch pto = wt_batch (das_inner d) /\
    add_accumulator (pto_accumulated_da pto) = das_epoch_acc d /\ zlen logs <= MAX_LOGS_PER_BLOCK /\
    add_logs_of (pto_accumulated_da pto) = add_logs_of da /\
    process_block_tx_segment (pto_successful_txs pto) tx_ctx {| xs_state := t; xs_out := [] |}
      = (Ok tt, {| xs_state := t'; xs_out := logs |}).
Proof.
  intros Hc Hd H. unfold process_transactions in H. set (st0 := {| stg_state := _ |}) in H.
  destruct (stage_txs _ _ _ _ _ _ st0 txs) as [st|e|] eqn:Hst; [|done..]. cbn [res_bind] in H. injection H as <- <-.
  destruct (stage_txs_sound tx_ctx txs st0 st t Hc Hd) as (t' & new & Hd' & Hs & Hlen & Hrun); [done..|].
  exists t', (stg_state st). split_and!; try done. cbn [pto_successful_txs]. rewrite Hs. apply Hrun.
Qed.
End stages.

(** ** Where the transactions come from *)

Section provenance.
Context `{XR : ExtRoot} `{CE : !CodecExt} `{DE : !DaExt} `{AX : !AssemblyExt}.
Context {P : Type} `{!EpochSealingPolicy P}.
Context {S : Type} `{!IStateAccessorMut S, !IComputeStateRootWithWrites S, !IStateBatchApplicable S}.
Context {C : Type} `{BC : !BlockAssemblyContext C S}.

Lemma add_accumulator_proofs_data {T} `{!IStateAccessor T} (ctx : C) (s : T) mtx tx :
  add_accumulator_proofs (S := S) ctx s mtx = Ok tx -> tx_data tx = tx_data mtx.
Proof.
  unfold add_accumulator_proofs. destruct (txd_payload _) as [gam|sau]; [by injection 1 as ->|].
  destruct (res_map_err BaState (get_account_state _ _)) as [o| |]; [|done..]. cbn [res_bind].
  destruct (ok_or o _) as [acct| |]; [|done..]. cbn [res_bind].
  destruct (res_map_err BaSnarkUpdatePreValidation _) as [ix| |]; [|done..]. cbn [res_bind].
  destruct (res_map_err BaState (as_snark_account _)) as [sn| |]; [|done..]. cbn [res_bind].
  destruct (generate_proofs _ _ _ _ _) as [l| |]; [|done..]. cbn [res_bind]. by intros [= <-].
Qed.

(** Admitted transactions are the mempool's, in its order. *)
Lemma stage_txs_provenance (ctx : C) (policy : P) bctx (m : S) count bp txs : forall st st',
  stage_txs ctx policy bctx m count bp st txs = Ok st' ->
  exists new, stg_successful_txs st' = stg_successful_txs st ++ new /\
    map tx_data new `sublist_of` map (fun t => tx_data t.2) txs.
Proof.
  induction txs as [|[txid mtx] txs IH]; intros st st' H.
  { simpl in H. injection H as <-. exists []. by rewrite app_nil_r. }
  cbn [stage_txs] in H. destruct (add_accumulator_proofs ctx (stg_state st) mtx) as [tx|e|] eqn:Htx; [| |done].
  2: { apply IH in H as (new & Hn & Hs). exists new. split; [done|]. by apply sublist_cons. }
  apply add_accumulator_proofs_data in Htx.
  destruct (process_single_tx _ _ _) as [[u|e|] x]; [| |done].
  2: { apply IH in H as (new & Hn & Hs). exists new. split; [done|]. by apply sublist_cons. }
  destruct (commit_tx _ _ _ _ _ _ _) as [st1 b] eqn:Hcm.
  assert (H1 : exists l, stg_successful_txs st1 = stg_successful_txs st ++ l /\ (l = [] \/ l = [tx])).
  { unfold commit_tx in Hcm. destruct (checkpoint_size_action _); [destruct (buffer_emit_logs _ _) as [[]]..|]; injection Hcm as <- _; simpl.
    all: first [exists [tx]; split; [done|by right]|exists []; rewrite app_nil_r; split; [done|by left]]. }
  destruct H1 as (l & Hl & Hcase).
  assert (Hrest : exists new, stg_successful_txs st' = stg_successful_txs st1 ++ new /\
    map tx_data new `sublist_of` map (fun t => tx_data t.2) txs).
  { destruct b; [by apply IH|]. injection H as <-. exists []. rewrite app_nil_r. split; [done|]. apply sublist_nil_l. }
  destruct Hrest as (new & -> & Hs). exists (l ++ new). rewrite Hl, app_assoc. split; [done|].
  destruct Hcase as [-> | ->]; simpl; [by apply sublist_cons|]. rewrite Htx. by apply sublist_skip.
Qed.
End provenance.

(** ** Templates *)

Section templates.
Context `{XR : ExtRoot} `{CE : !CodecExt} `{DE : !DaExt} `{AX : !AssemblyExt}.
Context `{!SerialLaws X, !MsgCodecLaws X, !EnvelopeLaws X}.
Context {P : Type} `{!EpochSealingPolicy P} {C : Type} `{BC : !BlockAssemblyContext C MemoryStateBaseLayer}.

(** Starting a block leaves the epoch alone, on the ledger. *)
Lemma process_block_start_epoch bctx (a l : LState) :
  process_block_start bctx a = (Ok tt, l) -> cur_epoch l = cur_epoch a.
Proof.
  unfold process_block_start. intros H. apply mbind_returns in H as (? & s & H1 & H). unfold mlift in H1.
  injection H1 as _ <-. apply mbind_returns in H as (e & s & H1 & H). unfold mreads in H1. injection H1 as <- <-.
  destruct (negb _); [by minv|]. unfold mmap_err in H. simpl in H. by injection H as <-.
Qed.

Lemma process_epoch_initial_same {T} `{!IStateAccessorMut T} ic (s : T) r s' :
  process_epoch_initial ic s = (r, s') -> s' = s.
Proof. unfold process_epoch_initial, mbind, mreads. destruct (negb _); by intros [= <- <-]. Qed.

Lemma expect_phase_ok {E A T} (o : res ExecError A * T) (s : T) :
  expect_phase (E := E) o = Ok s -> exists u, o = (Ok u, s).
Proof. destruct o as [[u|e|] s']; simpl; intros; simplify_eq. by exists u. Qed.

(** What initializing a block amounts to on the ledger. *)
Lemma initialization_staged m a bctx da batch da' :
  mem_refines m a -> keys_ok a -> acc_bounded (add_accumulator da) ->
  execute_block_initialization (E := BlockAssemblyError) m bctx da = Ok (batch, da') ->
  exists l, process_block_start bctx a = (Ok tt, l) /\ epoch_initial_if_needed bctx a = (Ok tt, a) /\
    staged m a (staging_of m batch (add_accumulator da')) l /\ add_logs_of da' = add_logs_of da.
Proof.
  intros Hm Hk Hb H. unfold execute_block_initialization in H.
  set (d0 := DaAccumulatingState_new_with_accumulator _ _) in H.
  assert (Hd0 : staged m a d0 a).
  { split; simpl; try done. apply (wt_refines_empty (at_base m)). by split. }
  destruct (expect_phase (process_block_start bctx d0)) as [d1|e|] eqn:H1; [|done..]. cbn [res_bind] in H.
  apply expect_phase_ok in H1 as [[] H1].
  pose proof (staged_sim m a) as Hsim.
  destruct (sim_run _ _ _ _ _ _ _ (process_block_start_sim (staged m a) bctx) Hd0 H1 ltac:(done)) as (l & Hl & Hx).
  exists l. split; [done|]. unfold epoch_initial_if_needed. unfold get_epoch_initial_context in *.
  assert (Hrest : staged m a (staging_of m (wt_batch (das_inner d1)) (das_epoch_acc d1)) l) by (by apply staged_restore).
  destruct (is_epoch_initial bctx); [|simpl in H; by injection H as <- <-].
  cbn [res_bind] in H. set (ic := {| eic_cur_epoch := _; eic_prev_terminal := _ |}) in *.
  destruct (expect_phase (process_epoch_initial ic d1)) as [d2|e|] eqn:H2; [|done..]. cbn [res_bind] in H.
  apply expect_phase_ok in H2 as [[] H2]. pose proof (process_epoch_initial_same _ _ _ _ H2) as ->.
  injection H as <- <-. split; [|done].
  destruct (sim_run _ _ _ _ _ _ _ (process_epoch_initial_sim (staged m a) ic) Hx H2 ltac:(done)) as (l2 & Hr2 & _).
  rewrite (mbind_ok _ _ _ ic a) by done. unfold process_epoch_initial, mbind, mreads in Hr2 |- *.
  pose proof (process_block_start_epoch _ _ _ Hl) as He. simpl in He, Hr2 |- *. rewrite He in Hr2. by destruct (negb _).
Qed.

(** A computation that returns on the ledger returns on the in-memory state. *)
Lemma mem_run {A} (mm : M ExecError MemoryStateBaseLayer A) (ml : M ExecError LState A) m l r l' :
  sim mem_refines mm ml -> mem_refines m l -> ml l = (Ok r, l') -> exists m', mm m = (Ok r, m') /\ mem_refines m' l'.
Proof.
  intros Hs Hm Hl. destruct (Hs m l Hm) as [Hr Hx]. rewrite Hl in Hr, Hx. destruct (mm m) as [r' m'] eqn:He. simpl in *.
  subst r'. exists m'. split; [done|]. by apply Hx.
Qed.

Lemma epoch_initial_mem bctx m a :
  mem_refines m a -> epoch_initial_if_needed bctx a = (Ok tt, a) -> epoch_initial_if_needed bctx m = (Ok tt, m).
Proof.
  intros Hm Ha. assert (Hs : sim mem_refines (epoch_initial_if_needed bctx) (epoch_initial_if_needed bctx))
    by (unfold epoch_initial_if_needed; sim_walk).
  destruct (mem_run _ _ m a tt a Hs Hm Ha) as (m' & Hm' & _).
  rewrite Hm'. f_equal. unfold epoch_initial_if_needed in Hm'. destruct (is_epoch_initial bctx); [|by minv].
  apply mbind_returns in Hm' as (ic & s & H1 & H2). unfold mlift in H1. injection H1 as _ <-.
  by eapply process_epoch_initial_same.
Qed.

(** Transactions that execute on the ledger execute on the in-memory state. *)
Lemma tx_segment_mem txs tx_ctx m1 l1 l2 logs :
  mem_refines m1 l1 ->
  process_block_tx_segment txs tx_ctx {| xs_state := l1; xs_out := [] |} = (Ok tt, {| xs_state := l2; xs_out := logs |}) ->
  exists m2, process_block_tx_segment txs tx_ctx {| xs_state := m1; xs_out := [] |} = (Ok tt, {| xs_state := m2; xs_out := logs |}) /\
    mem_refines m2 l2.
Proof.
  intros Hm1 Hseg.
  destruct (mem_run _ _ m1 l1 _ _ (sim_with_fresh_output mem_refines _ _ (process_block_tx_segment_sim mem_refines txs tx_ctx)) Hm1
    (with_fresh_output_returns _ _ _ _ _ Hseg)) as (m2 & H2 & Hm2).
  exists m2. split; [|done]. by apply with_fresh_output_inv.
Qed.

Definition template_ts (ctx : C) (config : BlockGenerationConfig) : Z :=
  match bgc_ts config with Some ts => ts | None => ba_system_time_millis (S := MemoryStateBaseLayer) ctx end.

(** The assembler completes what the STF's own assembly completes of the same
    parts. *)
Lemma build_block_template_constructs ctx config bctx ph bp m0 m1 m2 batch logs txs is_terminal mfs tpl post :
  bc_parent_header bctx = Some ph ->
  let info := {| bi_timestamp := template_ts ctx config; bi_slot := bc_slot bctx; bi_epoch := bc_epoch bctx |} in
  let ctx' := {| bc_block_info := info; bc_parent_header := Some ph |} in
  epoch_initial_if_needed ctx' m0 = (Ok tt, m0) -> process_block_start ctx' m0 = (Ok tt, m1) ->
  process_block_tx_segment txs {| tec_basic_context := with_bridge_params (BasicExecContext_new info) bp; tec_parent_header := Some ph |}
    {| xs_state := m1; xs_out := [] |} = (Ok tt, {| xs_state := m2; xs_out := logs |}) ->
  apply_batch batch m0 = (Ok tt, m2) -> zlen logs <= MAX_LOGS_PER_BLOCK ->
  build_block_template ctx config bctx m0 batch logs txs is_terminal mfs = Ok (tpl, post) ->
  exists root, StfBlock.construct_block ctx' {| bcs_tx_segment := txs; bcs_manifest_container := mfs; bcs_is_terminal := is_terminal |} bp m0
    = (Ok {| cbo_completed_block := {| cb_header := tpl_header tpl; cb_body := tpl_body tpl |};
             cbo_outputs := {| beo_state_root := root; beo_logs := logs |} |}, post).
Proof.
  intros Hph info ctx' Hi Hb Htx Hap Hlen H. unfold build_block_template in H. rewrite Hap in H. cbn [res_map_err res_bind] in H.
  set (comps := {| bcs_tx_segment := txs; bcs_manifest_container := mfs; bcs_is_terminal := is_terminal |}).
  destruct (match mfs with Some mfs => _ | None => _ end) as [[[]|e|] m3] eqn:Hmf; [|done..]. cbn [res_map_err res_bind] in H.
  assert (Hbody : exec_body info (Some ph) (assembled_body comps) bp {| xs_state := m1; xs_out := [] |}
    = (Ok tt, {| xs_state := m3; xs_out := logs |})).
  { unfold exec_body. cbn [assembled_body body_tx_segment body_manifests bcs_tx_segment bcs_manifest_container comps].
    rewrite (mbind_ok _ _ _ _ _ Htx). destruct mfs; [unfold lift_exec; simpl; by rewrite Hmf|by injection Hmf as <-]. }
  match type of H with (let '(_, _) := ?t in _) = _ => destruct t as [[[]|e|] x] eqn:Hdr; [|done..] end. cbn [res_map_err res_bind] in H.
  assert (Hdrain : xs_out x = logs /\ if is_terminal
    then process_epoch_terminal (BasicExecContext_new info) {| xs_state := m3; xs_out := [] |} = (Ok tt, {| xs_state := xs_state x; xs_out := [] |})
    else xs_state x = m3).
  { destruct is_terminal; [|injection Hdr as <-; done].
    destruct (process_epoch_terminal_quiet (S := MemoryStateBaseLayer) (BasicExecContext_new (bc_block_info bctx)) (BasicExecContext_new info)
      eq_refl m3 logs []) as (r & s' & Hq1 & Hq2).
    rewrite Hq1 in Hdr. injection Hdr as -> <-. done. }
  destruct Hdrain as [Hout Hdrain]. rewrite Hout in H.
  destruct (compute_state_root (xs_state x)) as [root|e|] eqn:Hroot; [|done..]. cbn [res_map_err res_bind] in H.
  unfold verify_logs_within_block_limit in H. rewrite (proj2 (Z.ltb_ge _ _)) in H by done. cbn [res_map_err res_bind] in H.
  destruct (compute_block_logs_root _) as [lr|e|] eqn:Hlr; [|done..]. cbn [res_bind] in H.
  unfold OLTxSegment_new in H. destruct (zlen txs <=? _); [|done]. cbn [res_map_err res_bind] in H. injection H as <- <-.
  exists root. unfold StfBlock.construct_block.
  rewrite (mbind_ok _ _ _ {| beo_state_root := root; beo_logs := logs |} (xs_state x)).
  2: { unfold execute_block_inputs. change (execute_epoch_initial_if_needed ctx') with (epoch_initial_if_needed (S := MemoryStateBaseLayer) ctx').
       rewrite (mbind_ok _ _ _ _ _ Hi), (mbind_ok _ _ _ _ _ Hb).
       rewrite (mbind_ok _ _ _ (root, logs) (xs_state x)); [done|]. apply with_fresh_output_returns.
       apply (execute_phases_join ctx' comps bp m1 m3 (xs_state x) logs root Hbody); [|done..]. simpl. by destruct is_terminal. }
  rewrite (mbind_ok _ _ _ lr (xs_state x)).
  2: { unfold mlift. f_equal. unfold compute_block_logs_root in *. simpl in *. destruct logs; [by simplify_eq|].
       by destruct (merkle_tree_root _); simplify_eq/=. }
  unfold mret. do 2 f_equal. unfold compute_parent_blkid. rewrite Hph. by destruct mfs.
Qed.

Lemma process_transactions_offered ctx policy bctx (m : MemoryStateBaseLayer) count bp batch txs da pto logs :
  process_transactions ctx policy bctx m count bp batch txs da = Ok (pto, logs) ->
  map tx_data (pto_successful_txs pto) `sublist_of` map (fun t => tx_data t.2) txs.
Proof.
  intros H. unfold process_transactions in H.
  match type of H with res_bind ?r _ = _ => destruct r as [st|e|] eqn:Hst; [|done..] end. cbn [res_bind] in H. injection H as <- <-.
  apply stage_txs_provenance in Hst as (new & -> & Hs). done.
Qed.

Lemma build_block_template_txs ctx config bctx (m : MemoryStateBaseLayer) batch logs txs is_terminal mfs tpl post :
  build_block_template ctx config bctx m batch logs txs is_terminal mfs = Ok (tpl, post) ->
  body_tx_segment (tpl_body tpl) = Some txs.
Proof.
  intros H. unfold build_block_template in H. repeat first
    [ match type of H with (let '(_, _) := ?t in _) = _ => destruct t end
    | match type of H with res_bind ?r _ = _ => destruct r eqn:?; [|done..]; cbn [res_bind] in H end ].
  injection H as <- _. unfold OLTxSegment_new in *. destruct (zlen txs <=? _); simplify_eq/=. by destruct mfs.
Qed.

(** What the assembler promises of its result: the header of the parent is known,
    the template verifies on the parent state and leads to the post state, the
    logs it emits are those added to the epoch's, and its transactions are
    offered ones in the order they were offered, with proofs of their own. *)
Definition template_verifies (ctx : C) (config : BlockGenerationConfig) (m : MemoryStateBaseLayer)
    (offered : list (OLTxId * OLTransaction)) (rs : EpochResourceState) (bp : BridgeParams) (tpl : FullBlockTemplate)
    (post : MemoryStateBaseLayer) (rs' : EpochResourceState) : Prop := exists ph logs txs,
  ba_get_ol_header (S := MemoryStateBaseLayer) ctx (obc_blkid (bgc_parent_block_commitment config)) = Ok (Some ph) /\
  verify_block (tpl_header tpl) (Some ph) (tpl_body tpl) bp m = (Ok logs, post) /\
  add_logs_of (ers_da rs') = add_logs_of (ers_da rs) ++ logs /\
  body_tx_segment (tpl_body tpl) = Some txs /\ map tx_data txs `sublist_of` map (fun t => tx_data t.2) offered.

Lemma construct_block_sound ctx policy config m a slot epoch txs rs bp out :
  mem_refines m a -> keys_ok a -> acc_bounded (add_accumulator (ers_da rs)) -> epoch <> 0 ->
  (forall id ph, ba_get_ol_header (S := MemoryStateBaseLayer) ctx id = Ok (Some ph) -> header_bounded ph) ->
  construct_block ctx policy config m slot epoch txs rs bp = Ok out ->
  template_verifies ctx config m txs rs bp (cbo_template out) (cbo_post_state out) (cbo_resource_state out).
Proof.
  intros Hm Hk Hb He Hhb H. unfold construct_block in H. destruct (obc_is_null _); [done|].
  unfold fetch_ol_header in H. destruct (ba_get_ol_header _ _) as [[ph|]|e|] eqn:Hph; [|done..]. cbn [res_map_err ok_or res_bind] in H.
  unfold BlockContext_new in H. cbn [andb res_bind] in H. set (bctx := {| bc_block_info := _; bc_parent_header := _ |}) in H.
  destruct (execute_block_initialization m bctx (ers_da rs)) as [[batch da]|e|] eqn:Hinit; [|done..]. cbn [res_bind] in H.
  destruct (initialization_staged m a bctx _ batch da Hm Hk Hb Hinit) as (l1 & Hstart & Hei & Hd & Hlogs).
  destruct (process_transactions _ _ _ _ _ _ _ _ _) as [[pto logs]|e|] eqn:Hpt; [|done..]. cbn [res_bind] in H.
  destruct (fetch_asm_manifests_for_block _ _ _ _) as [sel|e|]; [|done..]. cbn [res_bind] in H.
  match type of H with res_bind ?r _ = _ => destruct r as [mc|e|]; [|done..] end. cbn [res_bind] in H.
  destruct (build_block_template _ _ _ _ _ _ _ _ _) as [[tpl post]|e|] eqn:Hbt; [|done..]. cbn [res_bind] in H.
  destruct (expect _) as [n|e|]; [|done..]. cbn [res_bind] in H. injection H as <-.
  set (info := {| bi_timestamp := template_ts ctx config; bi_slot := bc_slot bctx; bi_epoch := bc_epoch bctx |}).
  set (ctx' := {| bc_block_info := info; bc_parent_header := Some ph |}).
  set (tx_ctx := {| tec_basic_context := with_bridge_params (BasicExecContext_new info) bp; tec_parent_header := Some ph |}).
  pose proof (staged_sim m a) as Hsim.
  destruct (process_transactions_sound m (staged m a) (staged_restore m a) ctx policy bctx (ers_manifest_count rs) bp tx_ctx batch txs da pto logs l1)
    as (l2 & d & Hd2 & Hbatch & _ & Hlen & Hlogs2 & Hseg); [done..|].
  destruct (mem_run _ _ m a tt l1 (process_block_start_sim mem_refines ctx') Hm Hstart) as (m1 & Hs1 & Hm1).
  destruct (tx_segment_mem _ tx_ctx m1 l1 l2 logs Hm1 Hseg) as (m2 & Hseg2 & Hm2).
  pose proof (epoch_initial_mem ctx' m a Hm Hei) as Hi.
  assert (Hap : apply_batch (pto_accumulated_batch pto) m = (Ok tt, m2)) by (rewrite Hbatch; by eapply staged_commit).
  destruct (build_block_template_constructs ctx config bctx ph bp m m1 m2 _ logs _ _ mc tpl post eq_refl Hi Hs1 Hseg2
    Hap Hlen Hbt) as (root & Hcb).
  pose proof (process_transactions_offered _ _ _ _ _ _ _ _ _ _ _ Hpt) as Hsub.
  exists ph, logs, (pto_successful_txs pto). split; [exact Hph|]. split.
  { refine (construct_block_run _ _ _ _ _ _ _ Hcb). split; [exact He|by eapply Hhb]. }
  split; [cbn; by rewrite Hlogs2, Hlogs|]. split; [|exact Hsub]. exact (build_block_template_txs _ _ _ _ _ _ _ _ _ _ _ Hbt).
Qed.

(** C5: block assembly on top of a parent state that a well-formed ledger stands
    behind produces templates that verify: verification accepts the header and
    body on the parent state and emits exactly the logs assembly added to the
    epoch's; the transactions are offered by the mempool, in its order. *)
Theorem generated_template_verifies ctx policy max_txs config rs bp m a r :
  ba_get_state_for_tip (S := MemoryStateBaseLayer) ctx (bgc_parent_block_commitment config) = Some (Some m) ->
  mem_refines m a -> keys_ok a -> acc_bounded (add_accumulator (ers_da rs)) -> cur_epoch m <> 0 ->
  (forall id ph, ba_get_ol_header (S := MemoryStateBaseLayer) ctx id = Ok (Some ph) -> header_bounded ph) ->
  generate_block_template_inner (S := MemoryStateBaseLayer) ctx policy max_txs config rs bp = Ok r ->
  exists offered post, ba_mempool_get_transactions (S := MemoryStateBaseLayer) ctx max_txs = Ok offered /\
    template_verifies ctx config m offered rs bp (btr_template r) post (btr_resource_state r).
Proof.
  intros Hst Hm Hk Hb He Hhb H. unfold generate_block_template_inner in H. destruct (obc_is_null _) eqn:Hnull; [done|].
  unfold fetch_state_for_tip in H. rewrite Hst in H. cbn [ok_or res_bind] in H.
  unfold calculate_block_slot_and_epoch in H. rewrite Hnull in H. cbn [res_bind] in H.
  destruct (ba_mempool_get_transactions (S := MemoryStateBaseLayer) ctx max_txs) as [offered|e|]; [|done..]. cbn [res_map_err res_bind] in H.
  destruct (construct_block _ _ _ _ _ _ _ _ _) as [out|e|] eqn:Hcb; [|done..]. cbn [res_bind] in H. injection H as <-.
  exists offered, (cbo_post_state out). split; [done|].
  exact (construct_block_sound ctx policy config m a _ _ offered rs bp out Hm Hk Hb He Hhb Hcb).
Qed.
End templates.
