(* ===== verification/AssemblyLimits.v ===== *)
(** * Assembled epochs stay within their limits

    Verdicts keep every limit that was reached, manifest selection takes what the
    pending log queue and the epoch's manifest budget have room for, and block
    assembly never lets an epoch past the hard limits of its checkpoint: a block
    that brings the epoch to a soft limit ends it. *)

From S2P Require Import Prelude SortedMap Identifiers AcctTypes ChainTypes Externals.
From S2P Require Import CodecTypes DaFramework OLDaTypes LedgerTypes Bridge OLAccount WriteBatch OLState.
From S2P Require Import StateAccessor WriteTracking IndexerLayer DaLayer SnarkSys StfContext StfTx StfManifests StfBlock.
From S2P Require Import Mempool EpochSealing BlockAssembly.

(** ** Verdicts *)

Section verdicts.
Context {ET : ExtTypes} `{DE : !DaExt} `{AX : !AssemblyExt}.

Lemma action_max_continue a b : action_max a b = ActContinue <-> a = ActContinue /\ b = ActContinue.
Proof. destruct a, b; simpl; naive_solver. Qed.

Lemma max_actions_continue l a : fold_left action_max l a = ActContinue <-> Forall (fun b => b = ActContinue) (a :: l).
Proof.
  revert a. induction l as [|b l IH]; intros a; simpl; [by rewrite Forall_singleton|]. rewrite IH, !Forall_cons, action_max_continue.
  naive_solver.
Qed.

(** A verdict asks for the end of the epoch iff some limit does. *)
Lemma verdict_seals_iff v : verdict_should_seal v = false <-> Forall (fun e => snd e = ActContinue) v.
Proof.
  unfold verdict_should_seal, action_should_seal, most_restrictive_action. rewrite negb_false_iff, bool_decide_eq_true.
  destruct v as [|[l a] v]; [done|]. cbn [map]. rewrite max_actions_continue, !Forall_cons, Forall_map. done.
Qed.

Lemma record_open limit action v :
  Forall (fun e => snd e = ActContinue) (record limit action v) -> action = ActContinue /\ Forall (fun e => snd e = ActContinue) v.
Proof.
  unfold record. destruct (decide _) as [->|Hne]; [done|]. intros H. exfalso.
  induction v as [|[l a] v IH]; simpl in H; [by apply Forall_cons in H as [H _]|].
  destruct (decide _); apply Forall_cons in H as [H1 H2]; [|by apply IH]. simpl in H1. by apply action_max_continue in H1 as [_ ?].
Qed.

Lemma merge_open v other :
  verdict_should_seal (merge v other) = false -> verdict_should_seal v = false /\ verdict_should_seal other = false.
Proof.
  rewrite !verdict_seals_iff. unfold merge. revert v. induction other as [|[l a] other IH]; intros v; simpl; [done|].
  intros H. apply IH in H as [H1 H2]. apply record_open in H1 as [-> H1]. by rewrite Forall_cons.
Qed.

Lemma rank_hard v1 v2 : csv_max v1 v2 = HardLimitExceeded <-> v1 = HardLimitExceeded \/ v2 = HardLimitExceeded.
Proof. destruct v1, v2; simpl; naive_solver. Qed.
Lemma rank_within v1 v2 : csv_max v1 v2 = WithinLimits <-> v1 = WithinLimits /\ v2 = WithinLimits.
Proof. destruct v1, v2; simpl; naive_solver. Qed.

Lemma dimension_hard value limit : dimension_verdict value limit <> HardLimitExceeded <-> value < limit.
Proof. unfold dimension_verdict. destruct (_ <=? _) eqn:H; zbool; [split; [done|lia]|]. destruct (_ <=? _); split; done || lia. Qed.

(** What not exceeding a hard limit means. *)
Lemma checkpoint_size_below d m :
  checkpoint_size_verdict d m <> HardLimitExceeded <->
  d < OL_DA_DIFF_MAX_SIZE /\ lm_count m < MAX_OL_LOGS_PER_CHECKPOINT /\ lm_total_payload m < MAX_TOTAL_LOG_PAYLOAD_BYTES /\
  CHECKPOINT_FIXED_OVERHEAD + d + lm_ssz_size m < MAX_CHECKPOINT_PAYLOAD_SIZE.
Proof.
  unfold checkpoint_size_verdict. cbn [fold_left]. rewrite !rank_hard. rewrite <- !dimension_hard. naive_solver.
Qed.

(** *** The default rules *)

Lemma default_checkpoint_action stats :
  checkpoint_size_action (context_check_limits EpochSealingPolicyContext_default stats) = rule_check CheckpointSizeRule stats.
Proof.
  unfold context_check_limits, EpochSealingPolicyContext_default, from_actions, merge, checkpoint_size_action, action_for.
  cbn [map fold_left rule_limit]. destruct (rule_check CheckpointSizeRule stats), (rule_check (ManifestCountRule _) stats); done.
Qed.

Lemma default_most_restrictive stats :
  most_restrictive_action (context_check_limits EpochSealingPolicyContext_default stats) =
  action_max (rule_check CheckpointSizeRule stats) (rule_check (ManifestCountRule MAX_SEALING_MANIFEST_COUNT) stats).
Proof.
  unfold context_check_limits, EpochSealingPolicyContext_default, from_actions, merge, most_restrictive_action.
  cbn [map fold_left rule_limit]. destruct (rule_check CheckpointSizeRule stats), (rule_check (ManifestCountRule _) stats); done.
Qed.

Lemma merge_within v : most_restrictive_action v <> ActContinue -> verdict_should_seal (merge within_limits v) = true.
Proof.
  intros H. apply not_false_iff_true. intros Hf. apply merge_open in Hf as [_ Hf]. unfold verdict_should_seal, action_should_seal in Hf.
  apply negb_false_iff, bool_decide_eq_true in Hf. done.
Qed.
End verdicts.

(** The limits leave room for anything at all. *)
Class LimitLaws {ET : ExtTypes} (DE : DaExt) (AX : AssemblyExt) : Prop := {
  da_limit_room : 2 <= OL_DA_DIFF_MAX_SIZE;
  log_limit_room : 2 <= MAX_OL_LOGS_PER_CHECKPOINT;
}.

(** ** Manifest selection *)

Section selection.
Context `{XR : ExtRoot} `{CE : !CodecExt} `{DE : !DaExt} `{AX : !AssemblyExt} `{!LimitLaws DE AX}.
Context {Cad : Type} `{!CadencePolicy Cad} (policy : LimitAwareSealing Cad).
Context (Hpolicy : las_context policy = EpochSealingPolicyContext_default).

Lemma dimension_zero limit : 2 <= limit -> dimension_verdict 0 limit = WithinLimits.
Proof.
  intros H. unfold dimension_verdict, SOFT_LIMIT_RATIO_NUM, SOFT_LIMIT_RATIO_DEN. rewrite (proj2 (Z.leb_gt _ _)) by lia.
  rewrite (proj2 (Z.leb_gt _ _)); [done|]. enough (1 <= limit * 9 / 10) by lia. apply Z.div_le_lower_bound; lia.
Qed.

Lemma no_resources_within : checkpoint_size_verdict 0 LogMetrics_default = WithinLimits.
Proof.
  unfold checkpoint_size_verdict. cbn [fold_left lm_count lm_total_payload lm_ssz_size LogMetrics_default].
  rewrite !rank_within. rewrite !dimension_zero by (apply da_limit_room || apply log_limit_room || done). done.
Qed.

(** The action for a candidate manifest that would be the [n]th of the epoch. *)
Lemma manifest_action n :
  most_restrictive_action (check_limits policy {| rst_da_diff_size := 0; rst_log := LogMetrics_default; rst_manifest_count := n |}) =
  match n ?= MAX_SEALING_MANIFEST_COUNT with Lt => ActContinue | Eq => SealAfterAdmit | Gt => RejectCandidate end.
Proof.
  simpl. rewrite Hpolicy, default_most_restrictive. unfold rule_check. cbn [rst_da_diff_size rst_log rst_manifest_count].
  rewrite no_resources_within. by destruct (n ?= _).
Qed.

Definition manifest_logs (l : list AsmManifest) : Z := zsum (map (fun mf => zlen (mf_logs mf)) l).

(** What selection from [candidates] returns, with room for [slots] logs and
    [count] manifests in the epoch already. *)
Record selects (slots count : Z) (candidates selected : list AsmManifest) (verdict : EpochSealingLimitVerdict) : Prop := {
  sel_prefix : selected `prefix_of` candidates;
  sel_fits : selected = [] \/ manifest_logs selected <= slots;
  sel_count : count + zlen selected <= MAX_SEALING_MANIFEST_COUNT;
  sel_seals : verdict_should_seal verdict = true -> count + zlen selected = MAX_SEALING_MANIFEST_COUNT;
  sel_open : count < MAX_SEALING_MANIFEST_COUNT -> verdict_should_seal verdict = false -> count + zlen selected < MAX_SEALING_MANIFEST_COUNT;
  sel_all : verdict_should_seal verdict = false -> selected = candidates \/
    exists mf rest, candidates = selected ++ mf :: rest /\ slots < manifest_logs selected + zlen (mf_logs mf);
}.

Lemma selects_none slots count candidates verdict :
  count <= MAX_SEALING_MANIFEST_COUNT ->
  (verdict_should_seal verdict = true -> count = MAX_SEALING_MANIFEST_COUNT) ->
  (verdict_should_seal verdict = false -> candidates = [] \/ exists mf rest, candidates = mf :: rest /\ slots < zlen (mf_logs mf)) ->
  selects slots count candidates [] verdict.
Proof.
  intros Hc H1 H2. split; try (change (zlen []) with 0; rewrite ?Z.add_0_r); try done.
  - apply prefix_nil.
  - by left.
  - intros Hf. destruct (H2 Hf) as [->|(mf & rest & -> & Hlt)]; [by left|]. right. exists mf, rest. by change (manifest_logs []) with 0.
Qed.

Lemma selects_cons slots count mf candidates selected verdict :
  zlen (mf_logs mf) <= slots -> count < MAX_SEALING_MANIFEST_COUNT ->
  selects (slots - zlen (mf_logs mf)) (count + 1) candidates selected verdict ->
  (verdict_should_seal verdict = false -> count + 1 < MAX_SEALING_MANIFEST_COUNT) ->
  selects slots count (mf :: candidates) (mf :: selected) verdict.
Proof.
  intros Hs Hc [H1 H2 H3 H4 H5 H6] Hlt.
  assert (Hm : manifest_logs (mf :: selected) = zlen (mf_logs mf) + manifest_logs selected) by done.
  split; rewrite ?zlen_cons; try lia.
  - by apply prefix_cons.
  - right. rewrite Hm. destruct H2 as [->|H2]; [change (manifest_logs []) with 0; lia|lia].
  - intros Hf. specialize (H4 Hf). lia.
  - intros _ Hf. specialize (H5 (Hlt Hf) Hf). lia.
  - intros Hf. destruct (H6 Hf) as [->|(mf' & rest & -> & Hl)]; [by left|]. right. exists mf', rest. split; [done|]. rewrite Hm. lia.
Qed.

Lemma select_manifests_selects slots count candidates : forall chosen n,
  0 <= count -> slots <= MAX_PENDING_ASM_LOGS -> 0 <= n -> count + zlen chosen <= MAX_SEALING_MANIFEST_COUNT ->
  let sel := select_manifests policy slots count chosen n candidates in
  exists new, sel_manifests sel = chosen ++ new /\
    selects (slots - n) (count + zlen chosen) candidates new (sel_sealing_limit_verdict sel).
Proof.
  induction candidates as [|mf candidates IH]; intros chosen n Hc Hs Hn Hm; cbn zeta; cbn [select_manifests].
  { exists []. rewrite app_nil_r. split; [done|]. apply selects_none; [done..|]. by left. }
  pose proof (zlen_nonneg (mf_logs mf)) as Hl. pose proof (zlen_nonneg chosen) as Hch.
  assert (Hmax : MAX_SEALING_MANIFEST_COUNT < U32_MAX /\ MAX_PENDING_ASM_LOGS < U64_MAX) by done.
  destruct (slots <? _) eqn:Hlt; zbool; unfold saturating_add_u64 in Hlt.
  { exists []. rewrite app_nil_r. split; [done|]. apply selects_none; [done..|]. intros _. right. exists mf, candidates. split; [done|lia]. }
  rewrite (Z.min_l (count + zlen chosen)) by lia. rewrite (Z.min_l (count + zlen chosen + 1)) by lia. rewrite manifest_action.
  destruct (Z.compare_spec (count + zlen chosen + 1) MAX_SEALING_MANIFEST_COUNT) as [He|Hlt2|Hgt]; cbn [sel_manifests sel_sealing_limit_verdict].
  - exists [mf]. split; [done|].
    assert (Hseal : verdict_should_seal (merge within_limits (check_limits policy {| rst_da_diff_size := 0; rst_log := LogMetrics_default;
      rst_manifest_count := count + zlen chosen + 1 |})) = true) by (apply merge_within; rewrite manifest_action, He, Z.compare_refl; done).
    apply selects_cons; [lia|lia| |by rewrite Hseal]. apply selects_none; [lia|done|by rewrite Hseal].
  - destruct (IH (chosen ++ [mf]) (n + zlen (mf_logs mf))) as (new & Hnew & Hsel); [done|done|lia|autorewrite with zlen; lia|].
    exists (mf :: new). rewrite Hnew, <- app_assoc. split; [done|]. autorewrite with zlen in Hsel.
    apply selects_cons; [lia|lia| |lia].
    replace (slots - n - zlen (mf_logs mf)) with (slots - (n + zlen (mf_logs mf))) by lia.
    replace (count + zlen chosen + 1) with (count + (zlen chosen + 1)) by lia. done.
  - exists []. rewrite app_nil_r. split; [done|].
    assert (Hseal : verdict_should_seal (merge within_limits (check_limits policy {| rst_da_diff_size := 0; rst_log := LogMetrics_default;
      rst_manifest_count := count + zlen chosen + 1 |})) = true).
    { apply merge_within. rewrite manifest_action. by apply Z.compare_gt_iff in Hgt as ->. }
    apply selects_none; [done|lia|by rewrite Hseal].
Qed.
End selection.

(** ** Transactions *)

Section limits.
Context `{XR : ExtRoot} `{CE : !CodecExt} `{DE : !DaExt} `{AX : !AssemblyExt} `{!LimitLaws DE AX}.
Context {Cad : Type} `{!CadencePolicy Cad} (policy : LimitAwareSealing Cad).
Context (Hpolicy : las_context policy = EpochSealingPolicyContext_default).
Context {S : Type} `{!IStateAccessorMut S, !IComputeStateRootWithWrites S, !IStateBatchApplicable S}.
Context {C : Type} `{BC : !BlockAssemblyContext C S}.

Lemma from_logs_app l1 l2 : LogMetrics_from_logs (l1 ++ l2) = add_logs (LogMetrics_from_logs l1) l2.
Proof. unfold LogMetrics_from_logs, add_logs. apply fold_left_app. Qed.

Lemma open_action limit v : verdict_should_seal v = false -> action_for limit v = ActContinue.
Proof.
  rewrite verdict_seals_iff. unfold action_for. induction 1 as [|[l a] v Ha Hv IH]; simpl; [done|].
  case_bool_decide; [exact Ha|exact IH].
Qed.

(** The checkpoint size of a stage whose epoch has had [logs] before. *)
Definition staged_verdict (logs : list OLLog) (st : Staging (S := S)) : CheckpointSizeVerdict :=
  checkpoint_size_verdict (estimated_encoded_size (das_epoch_acc (stg_state st))) (LogMetrics_from_logs (logs ++ stg_output st)).

(** Staging keeps below the hard limits, and below the soft ones or seals. *)
Definition keeps_limits (logs : list OLLog) (st st' : Staging (S := S)) : Prop :=
  staged_verdict logs st' <> HardLimitExceeded /\
  (staged_verdict logs st = WithinLimits -> verdict_should_seal (stg_sealing_limit_verdict st') = false ->
   staged_verdict logs st' = WithinLimits).

Lemma keeps_same logs st st' :
  staged_verdict logs st <> HardLimitExceeded -> das_epoch_acc (stg_state st') = das_epoch_acc (stg_state st) ->
  stg_output st' = stg_output st -> keeps_limits logs st st'.
Proof. intros Hh Ha Ho. unfold keeps_limits, staged_verdict in *. by rewrite Ha, Ho. Qed.

Lemma commit_tx_limits logs count st backup executed tx tx_logs st' b :
  stg_log_metrics st = LogMetrics_from_logs (logs ++ stg_output st) -> staged_verdict logs st <> HardLimitExceeded ->
  das_epoch_acc backup = das_epoch_acc (stg_state st) ->
  commit_tx policy count st backup executed tx tx_logs = (st', b) ->
  keeps_limits logs st st' /\
  (b = true -> stg_log_metrics st' = LogMetrics_from_logs (logs ++ stg_output st') /\ staged_verdict logs st' = WithinLimits).
Proof.
  intros Hm Hh Hb H. unfold commit_tx in H. cbn [check_limits limit_aware_policy] in H. rewrite Hpolicy in H.
  set (stats := {| rst_da_diff_size := _; rst_log := _; rst_manifest_count := _ |}) in H.
  assert (Hstats : forall out, out = stg_output st ++ tx_logs ->
    checkpoint_size_verdict (estimated_encoded_size (das_epoch_acc executed)) (LogMetrics_from_logs (logs ++ out)) =
    checkpoint_size_verdict (rst_da_diff_size stats) (rst_log stats)).
  { intros out ->. cbn [stats rst_da_diff_size rst_log]. by rewrite app_assoc, from_logs_app, Hm. }
  pose proof (default_checkpoint_action stats) as Hact. unfold rule_check in Hact.
  destruct (checkpoint_size_action _) eqn:Hca.
  3: { injection H as <- <-. split; [by apply keeps_same|done]. }
  all: destruct (buffer_emit_logs _ _) as [[u|e|] out] eqn:He; injection H as <- <-; try (split; [by apply keeps_same|done]).
  all: assert (Ho : out = stg_output st ++ tx_logs) by (unfold buffer_emit_logs in He; destruct (_ <? _); by simplify_eq).
  all: specialize (Hstats out Ho); destruct (checkpoint_size_verdict (rst_da_diff_size stats) _) eqn:Hv; try done.
  - split; [|intros _; split; [|exact Hstats]].
    + split; [|intros _ _; exact Hstats]. unfold staged_verdict. cbn [stg_admit stg_state stg_output]. by rewrite Hstats.
    + cbn [stg_admit stg_log_metrics stg_output]. by rewrite Ho, app_assoc, from_logs_app, Hm.
  - split; [|done]. unfold keeps_limits, staged_verdict. cbn [stg_admit stg_state stg_output stg_sealing_limit_verdict]. rewrite Hstats.
    split; [done|]. intros _ Hop. apply (open_action CheckpointSize) in Hop. unfold checkpoint_size_action in Hca. congruence.
Qed.

Lemma stage_txs_limits (ctx : C) bctx (m : S) count bp logs txs : forall st st',
  stg_log_metrics st = LogMetrics_from_logs (logs ++ stg_output st) -> staged_verdict logs st <> HardLimitExceeded ->
  stage_txs ctx policy bctx m count bp st txs = Ok st' -> keeps_limits logs st st'.
Proof.
  induction txs as [|[txid mtx] txs IH]; intros st st' Hm Hh H.
  { simpl in H. injection H as <-. by apply keeps_same. }
  cbn [stage_txs] in H. destruct (add_accumulator_proofs ctx (stg_state st) mtx) as [tx|e|]; [| |done].
  2: { eapply IH in H; [exact H|exact Hm|exact Hh]. }
  destruct (process_single_tx _ _ _) as [[u|e|] x]; [| |done].
  2: { eapply IH in H; [exact H|exact Hm|exact Hh]. }
  destruct (commit_tx _ _ _ _ _ _ _) as [st1 b] eqn:Hcm.
  apply (commit_tx_limits logs) in Hcm as [[Hk1 Hk2] Hb]; [|done..].
  destruct b; [|injection H as <-; by split]. destruct (Hb eq_refl) as [Hm1 Hw1].
  apply IH in H as [H1 H2]; [|done..]. split; [done|]. intros _ Hop. by apply H2.
Qed.

(** ** Blocks *)

(** Starting a block does not change the estimate. *)
Lemma block_start_estimate bctx (d d' : DaAccumulatingState (WriteTrackingState S)) u :
  process_block_start bctx d = (Ok u, d') ->
  estimated_encoded_size (das_epoch_acc d') = estimated_encoded_size (das_epoch_acc d).
Proof.
  unfold process_block_start. intros H. apply mbind_returns in H as (? & s & H1 & H). unfold mlift in H1. injection H1 as _ <-.
  apply mbind_returns in H as (e & s & H1 & H). unfold mreads in H1. injection H1 as <- <-.
  destruct (negb _); [by minv|]. unfold mmap_err in H. simpl in H. unfold da_set_cur_slot, mbind, mreads, accumulate, record_slot_change in H.
  destruct (record_change _ _ _ _) as [[[]|e|] b]; [| |done]; simpl in H; injection H as _ <-; [done|].
  unfold set_epoch_error. simpl. by destruct (das_pending_epoch_error d).
Qed.

Lemma initialization_estimate {E} (m : S) bctx da batch da' :
  execute_block_initialization (E := E) m bctx da = Ok (batch, da') ->
  estimated_encoded_size (add_accumulator da') = estimated_encoded_size (add_accumulator da) /\ add_logs_of da' = add_logs_of da.
Proof.
  intros H. unfold execute_block_initialization in H. set (d0 := DaAccumulatingState_new_with_accumulator _ _) in H.
  destruct (process_block_start bctx d0) as [[u|e|] d1] eqn:H1; [|done..]. cbn [expect_phase res_bind] in H.
  apply block_start_estimate in H1. change (das_epoch_acc d0) with (add_accumulator da) in H1. unfold get_epoch_initial_context in H.
  destruct (is_epoch_initial bctx); cbn [res_bind] in H; [|by injection H as <- <-].
  unfold process_epoch_initial, mbind, mreads in H. destruct (negb _); [done|]. cbn in H. by injection H as <- <-.
Qed.

Definition epoch_verdict (rs : EpochResourceState) : CheckpointSizeVerdict :=
  checkpoint_size_verdict (estimated_encoded_size (add_accumulator (ers_da rs))) (LogMetrics_from_logs (add_logs_of (ers_da rs))).

(** An epoch that does not exceed the hard limits, and one that reached none. *)
Definition epoch_below (rs : EpochResourceState) : Prop :=
  epoch_verdict rs <> HardLimitExceeded /\ 0 <= ers_manifest_count rs <= MAX_SEALING_MANIFEST_COUNT.
Definition epoch_open (rs : EpochResourceState) : Prop :=
  epoch_verdict rs = WithinLimits /\ ers_manifest_count rs < MAX_SEALING_MANIFEST_COUNT.

Lemma process_transactions_limits (ctx : C) bctx (m : S) count bp batch txs da pto out :
  checkpoint_size_verdict (estimated_encoded_size (add_accumulator da)) (LogMetrics_from_logs (add_logs_of da)) <> HardLimitExceeded ->
  process_transactions ctx policy bctx m count bp batch txs da = Ok (pto, out) ->
  let v := checkpoint_size_verdict (estimated_encoded_size (add_accumulator (pto_accumulated_da pto)))
             (LogMetrics_from_logs (add_logs_of da ++ out)) in
  add_logs_of (pto_accumulated_da pto) = add_logs_of da /\ v <> HardLimitExceeded /\
  (checkpoint_size_verdict (estimated_encoded_size (add_accumulator da)) (LogMetrics_from_logs (add_logs_of da)) = WithinLimits ->
   verdict_should_seal (pto_sealing_limit_verdict pto) = false -> v = WithinLimits).
Proof.
  intros Hh H. unfold process_transactions in H. set (st0 := {| stg_state := _ |}) in H.
  destruct (stage_txs _ _ _ _ _ _ st0 txs) as [st|e|] eqn:Hst; [|done..]. cbn [res_bind] in H. injection H as <- <-.
  assert (Hv0 : staged_verdict (add_logs_of da) st0 =
    checkpoint_size_verdict (estimated_encoded_size (add_accumulator da)) (LogMetrics_from_logs (add_logs_of da))).
  { unfold staged_verdict. cbn [st0 stg_state stg_output]. by rewrite app_nil_r. }
  apply (stage_txs_limits _ _ _ _ _ (add_logs_of da)) in Hst as [H1 H2]; [|cbn; by rewrite app_nil_r|by rewrite Hv0].
  rewrite Hv0 in H2. done.
Qed.

Lemma fetch_selects (ctx : C) (m : S) count sel :
  0 <= count <= MAX_SEALING_MANIFEST_COUNT -> 0 <= pending_asm_logs_len m ->
  fetch_asm_manifests_for_block ctx policy m count = Ok sel ->
  exists candidates, selects (Z.max 0 (MAX_PENDING_ASM_LOGS - pending_asm_logs_len m)) count candidates
    (sel_manifests sel) (sel_sealing_limit_verdict sel).
Proof.
  intros Hc Hp H. unfold fetch_asm_manifests_for_block in H. destruct (ok_or _ _) as [h|e|]; [|done..]. cbn [res_bind] in H.
  destruct (fetch_asm_manifests_from ctx h _) as [cands|e|]; [|done..]. cbn [res_bind] in H. injection H as <-. exists cands.
  assert (0 <= MAX_PENDING_ASM_LOGS) by done.
  destruct (select_manifests_selects policy Hpolicy (Z.max 0 (MAX_PENDING_ASM_LOGS - pending_asm_logs_len m)) count cands [] 0)
    as (new & Hnew & Hsel); [lia|lia|lia|change (zlen []) with 0; lia|].
  unfold select_asm_manifests. rewrite Hnew. change (zlen []) with 0 in Hsel. by rewrite Z.sub_0_r, Z.add_0_r in Hsel.
Qed.

Lemma build_block_template_flag (ctx : C) config bctx (m : S) batch logs txs is_terminal mfs tpl post :
  build_block_template ctx config bctx m batch logs txs is_terminal mfs = Ok (tpl, post) ->
  hdr_is_terminal (tpl_header tpl) = is_terminal.
Proof.
  intros H. unfold build_block_template in H. repeat first
    [ match type of H with (let '(_, _) := ?t in _) = _ => destruct t end
    | match type of H with res_bind ?r _ = _ => destruct r; [|done..]; cbn [res_bind] in H end ].
  injection H as <- _. apply set_is_terminal_is_terminal.
Qed.

(** C16: under the default limits, assembling a block keeps its epoch below every
    hard limit: the estimated DA size, the number and size of the logs, the
    envelope of the checkpoint and the number of manifests.  A block that is not
    terminal leaves an epoch that had reached no soft limit without reaching one. *)
Theorem assembled_epoch_limits (ctx : C) config (m : S) slot epoch txs rs bp out :
  0 <= pending_asm_logs_len m -> epoch_below rs -> construct_block ctx policy config m slot epoch txs rs bp = Ok out ->
  epoch_below (cbo_resource_state out) /\
  (epoch_open rs -> hdr_is_terminal (tpl_header (cbo_template out)) = false -> epoch_open (cbo_resource_state out)).
Proof.
  intros Hp [Hv Hc] H. unfold construct_block in H. destruct (obc_is_null _); [done|].
  destruct (fetch_ol_header _ _) as [o|e|]; [|done..]. cbn [res_bind] in H. destruct (ok_or o _) as [ph|e|]; [|done..]. cbn [res_bind] in H.
  destruct (BlockContext_new _ _) as [bctx|e|]; [|done..]. cbn [res_bind] in H.
  destruct (execute_block_initialization m bctx (ers_da rs)) as [[batch da]|e|] eqn:Hinit; [|done..]. cbn [res_bind] in H.
  apply initialization_estimate in Hinit as [He Hl].
  destruct (process_transactions _ _ _ _ _ _ _ _ _) as [[pto logs]|e|] eqn:Hpt; [|done..]. cbn [res_bind] in H.
  apply process_transactions_limits in Hpt as (Hl2 & Hh & Hw); [|by rewrite He, Hl]. rewrite He, Hl in Hw. rewrite Hl in Hh, Hl2.
  destruct (fetch_asm_manifests_for_block _ _ _ _) as [sel|e|] eqn:Hsel; [|done..]. cbn [res_bind] in H.
  apply fetch_selects in Hsel as (cands & [_ _ Hs3 Hs4 Hs5 _]); [|done..].
  match type of H with res_bind ?r _ = _ => destruct r as [mc|e|]; [|done..] end. cbn [res_bind] in H.
  destruct (build_block_template _ _ _ _ _ _ _ _ _) as [[tpl post]|e|] eqn:Hbt; [|done..]. cbn [res_bind] in H.
  apply build_block_template_flag in Hbt. unfold checked_add_u32 in H. destruct (_ <=? U32_MAX); [|done]. cbn [expect res_bind] in H.
  injection H as <-. pose proof (zlen_nonneg (sel_manifests sel)).
  unfold epoch_below, epoch_open, epoch_verdict. cbn [cbo_resource_state cbo_template ers_da ers_manifest_count append_logs add_accumulator add_logs_of].
  rewrite Hl2. split; [split; [done|lia]|]. intros [Hop1 Hop2] Ht. rewrite Hbt in Ht.
  cbn [should_seal_epoch limit_aware_policy] in Ht. unfold las_should_seal_epoch, seal_trigger in Ht.
  destruct (verdict_should_seal (merge _ _)) eqn:Hm; [done|]. apply merge_open in Hm as [Hm1 Hm2]. split; [by apply Hw|by apply Hs5].
Qed.
End limits.
