(* ===== verification/TemplateService.v ===== *)
(** * The block assembly service
    ([crates/ol/block-assembly/src/{resource_state,state,service,command,types}.rs])

    The service keeps the templates that wait for the sequencer's signature, what
    became of the template of every parent, and the epoch's resources up to every
    pending template.  [Instant::now()] is an argument: a command names the
    instants it reads the clock at.  Replies are returned; logging is left out. *)

From S2P Require Import Prelude SortedMap Identifiers AcctTypes ChainTypes Externals.
From S2P Require Import CodecTypes DaFramework OLDaTypes LedgerTypes Bridge OLAccount WriteBatch OLState.
From S2P Require Import StateAccessor WriteTracking IndexerLayer DaLayer StfContext StfBlock CheckpointWorker Mempool ForkChoice.
From S2P Require Import EpochSealing BlockAssembly.

Abbreviation Instant := Z (only parsing).

(** [Instant::duration_since], also [elapsed]: zero when the clock went back. *)
Definition duration_since (now earlier : Instant) : Z := Z.max 0 (now - earlier).

Section service.
Context `{XR : ExtRoot} `{CE : !CodecExt} `{DE : !DaExt} `{AX : !AssemblyExt} `{FX : !FcmExt}.

(** ** [resource_state.rs] *)

(** [EpochResourceTracker], the block ids with their resource state. *)
Abbreviation EpochResourceTracker := (gmap OLBlockId EpochResourceState) (only parsing).

Definition set_resource_state_and_remove_parent_entry (blkid parent : OLBlockId) (state : EpochResourceState)
    (t : EpochResourceTracker) : EpochResourceTracker := delete parent (<[blkid := state]> t).

Definition ensure_epoch_boundary (header : OLBlockHeader) (epoch : Epoch) : res BlockAssemblyError unit :=
  let expected_prev_epoch := wrap_u32 (epoch - 1) in
  if negb (hdr_is_terminal header) || negb (hdr_epoch header =? expected_prev_epoch) then
    Err (BaInvalidEpochBoundary (compute_blkid header) expected_prev_epoch (hdr_epoch header) (hdr_is_terminal header))
  else Ok tt.

Record EpochBlocks := { eb_blocks : list OLBlock; eb_epoch_parent : OLBlockHeader }.

Section rebuild.
Context {S : Type} `{!IStateAccessorMut S} {C : Type} `{BC : !BlockAssemblyContext C S}.

(** The loop, from [cur_id] back to the boundary; [blocks] come newest first.
    [None]: not at the boundary after [fuel] blocks. *)
Fixpoint collect_until (fuel : nat) (epoch : Epoch) (ctx : C) (blocks : list OLBlock) (cur_id : OLBlockId)
    : option (res BlockAssemblyError (list OLBlock * OLBlockHeader)) :=
  match fuel with
  | O => None
  | Datatypes.S fuel' =>
      let? o := Some (fetch_ol_block (S := S) ctx cur_id) in
      let? block := Some (ok_or o (BaBlockNotFound cur_id)) in
      if negb (hdr_epoch (blk_header block) =? epoch) then
        let? _ := Some (ensure_epoch_boundary (blk_header block) epoch) in
        Some (Ok (blocks, blk_header block))
      else
        let parent_id := hdr_parent_blkid (blk_header block) in
        let blocks := blocks ++ [block] in
        let? o := Some (fetch_ol_header (S := S) ctx parent_id) in
        let? parent_header := Some (ok_or o (BaHeaderNotFound parent_id)) in
        if negb (hdr_epoch parent_header =? epoch) then
          let? _ := Some (ensure_epoch_boundary parent_header epoch) in
          Some (Ok (blocks, parent_header))
        else collect_until fuel' epoch ctx blocks parent_id
  end.

Definition collect_epoch_blocks_until (fuel : nat) (target_id : OLBlockId) (epoch : Epoch) (ctx : C)
    : option (res BlockAssemblyError EpochBlocks) :=
  if epoch =? 0 then Some (Err BaGenesisEpochNoBoundary) else
  let? collected := collect_until fuel epoch ctx [] target_id in
  match rev (fst collected) with
  | [] => Some (Err BaOther)
  | blocks => Some (Ok {| eb_blocks := blocks; eb_epoch_parent := snd collected |})
  end.

Definition fetch_state (blk_header : OLBlockHeader) (ctx : C) : res BlockAssemblyError S :=
  let blkid := compute_block_commitment blk_header in
  let! o := fetch_state_for_tip ctx blkid in
  ok_or o (BaEpochBoundaryStateNotFound blkid).

(** The [try_fold] over the manifests of the blocks that have any. *)
Fixpoint count_manifests (count : Z) (blocks : list OLBlock) : res BlockAssemblyError Z :=
  match blocks with
  | [] => Ok count
  | block :: blocks' =>
      match body_manifests (blk_body block) with
      | None => count_manifests count blocks'
      | Some manifests =>
          let block_count := zlen manifests in
          if negb (block_count <=? U32_MAX) then Err BaOther
          else
            let! count := ok_or (checked_add_u32 count block_count) BaOther in
            count_manifests count blocks'
      end
  end.

Definition rebuild_epoch_resource_state_upto (fuel : nat) (blkid : OLBlockCommitment) (epoch : Epoch)
    (bridge_params : BridgeParams) (ctx : C) : option (res BlockAssemblyError EpochResourceState) :=
  let? epoch_blocks := collect_epoch_blocks_until fuel (obc_blkid blkid) epoch ctx in
  let? initial_state := Some (fetch_state (eb_epoch_parent epoch_blocks) ctx) in
  let '(r, da_state) := execute_block_batch_predrain (eb_blocks epoch_blocks) (eb_epoch_parent epoch_blocks) bridge_params
                          (DaAccumulatingState_new initial_state) in
  let? batch_logs := Some (res_map_err (fun _ => BaOther) r) in
  let? manifest_count := Some (count_manifests 0 (eb_blocks epoch_blocks)) in
  Some (Ok {| ers_da := {| add_accumulator := das_epoch_acc da_state; add_logs_of := batch_logs |};
              ers_manifest_count := manifest_count |}).
End rebuild.

(** ** [state.rs]: the template cache *)

Record CachedTemplate := { ct_template : FullBlockTemplate; ct_created_at : Instant }.

Inductive BlockTemplateStatus :=
| TsPending (template_id : OLBlockId)
| TsCompleted (block : OLBlockCommitment).

#[export] Instance BlockTemplateStatus_eq_dec : EqDecision BlockTemplateStatus.
Proof. solve_decision. Defined.

Record BlockAssemblyState := {
  bas_pending_templates : gmap OLBlockId CachedTemplate;
  bas_template_status_by_parent : gmap OLBlockId BlockTemplateStatus;
  bas_ttl : Z;
}.

Definition BlockAssemblyState_new (ttl : Z) : BlockAssemblyState :=
  {| bas_pending_templates := ∅; bas_template_status_by_parent := ∅; bas_ttl := ttl |}.

Definition bas_with (s : BlockAssemblyState) (pending : gmap OLBlockId CachedTemplate)
    (status : gmap OLBlockId BlockTemplateStatus) : BlockAssemblyState :=
  {| bas_pending_templates := pending; bas_template_status_by_parent := status; bas_ttl := bas_ttl s |}.

Definition tpl_parent (t : FullBlockTemplate) : OLBlockId := hdr_parent_blkid (tpl_header t).

(** Removes one expired template, and its status if that is still its own. *)
Definition remove_expired (s : BlockAssemblyState) (template_id : OLBlockId) : BlockAssemblyState :=
  match bas_pending_templates s !! template_id with
  | None => s
  | Some cached =>
      let parent := tpl_parent (ct_template cached) in
      let status := bas_template_status_by_parent s in
      bas_with s (delete template_id (bas_pending_templates s))
        (if decide (status !! parent = Some (TsPending template_id)) then delete parent status else status)
  end.

Definition expired (s : BlockAssemblyState) (now : Instant) (cached : CachedTemplate) : bool :=
  bas_ttl s <=? duration_since now (ct_created_at cached).

Definition cleanup_expired_templates (now : Instant) (s : BlockAssemblyState) : list OLBlockId * BlockAssemblyState :=
  let expired_ids := map fst (List.filter (fun e => expired s now (snd e)) (map_to_list (bas_pending_templates s))) in
  (expired_ids, fold_left remove_expired expired_ids s).

(** [created_at] and [now]: the clock when the template is stored and when the
    cache is cleaned up after that. *)
Definition insert_template (created_at now : Instant) (template_id : OLBlockId) (template : FullBlockTemplate)
    : M BlockAssemblyError BlockAssemblyState (list OLBlockId) := fun s =>
  let parent := tpl_parent template in
  let status := bas_template_status_by_parent s in
  match status !! parent with
  | Some (TsCompleted block) => (Err (BaTemplateAlreadyCompletedForParent parent block), s)
  | prior =>
      let '(pending, evicted) :=
        match prior with
        | Some (TsPending old_id) =>
            if negb (old_id =? template_id) then (delete old_id (bas_pending_templates s), [old_id])
            else (bas_pending_templates s, [])
        | _ => (bas_pending_templates s, [])
        end in
      let cached := {| ct_template := template; ct_created_at := created_at |} in
      let '(expired_ids, s') := cleanup_expired_templates now
        (bas_with s (<[template_id := cached]> pending) (<[parent := TsPending template_id]> status)) in
      (Ok (evicted ++ expired_ids), s')
  end.

Definition get_template_status_by_parent (s : BlockAssemblyState) (parent_block_id : OLBlockId) : option BlockTemplateStatus :=
  bas_template_status_by_parent s !! parent_block_id.

Definition prune_completed_template_statuses_for_parent (parent_block : OLBlockCommitment) (s : BlockAssemblyState)
    : BlockAssemblyState :=
  let parent_slot := obc_slot parent_block in
  bas_with s (bas_pending_templates s)
    (filter (fun e => match snd e with TsPending _ => true | TsCompleted block => parent_slot <? obc_slot block end = true)
       (bas_template_status_by_parent s)).

(** A cached template that has not expired. *)
Definition live_template (now : Instant) (s : BlockAssemblyState) (template_id : OLBlockId) : option FullBlockTemplate :=
  match bas_pending_templates s !! template_id with
  | Some cached => if duration_since now (ct_created_at cached) <? bas_ttl s then Some (ct_template cached) else None
  | None => None
  end.

Definition get_pending_block_template (now : Instant) (s : BlockAssemblyState) (template_id : OLBlockId)
    : res BlockAssemblyError FullBlockTemplate :=
  ok_or (live_template now s template_id) (BaUnknownTemplateId template_id).

Definition get_pending_block_template_by_parent (now : Instant) (s : BlockAssemblyState) (parent_block_id : OLBlockId)
    : res BlockAssemblyError FullBlockTemplate :=
  match bas_template_status_by_parent s !! parent_block_id with
  | Some (TsPending template_id) =>
      ok_or (live_template now s template_id) (BaNoPendingTemplateForParent parent_block_id)
  | _ => Err (BaNoPendingTemplateForParent parent_block_id)
  end.

Definition bas_record_persisted_block (template_id : OLBlockId) : M BlockAssemblyError BlockAssemblyState FullBlockTemplate :=
  fun s =>
  match bas_pending_templates s !! template_id with
  | None => (Err (BaUnknownTemplateId template_id), s)
  | Some cached =>
      let template := ct_template cached in
      let parent := tpl_parent template in
      if decide (bas_template_status_by_parent s !! parent = Some (TsPending template_id)) then
        (Ok template,
         bas_with s (delete template_id (bas_pending_templates s))
           (<[parent := TsCompleted (compute_block_commitment (tpl_header template))]> (bas_template_status_by_parent s)))
      else (Err (BaUnknownTemplateId template_id), s)
  end.

Definition release_completed_template_status (parent_block_id : OLBlockId) (block : OLBlockCommitment)
    (s : BlockAssemblyState) : bool * BlockAssemblyState :=
  if decide (bas_template_status_by_parent s !! parent_block_id = Some (TsCompleted block)) then
    (true, bas_with s (bas_pending_templates s) (delete parent_block_id (bas_template_status_by_parent s)))
  else (false, s).

(** ** [state.rs], [service.rs]: the service *)

Context {P : Type} `{!EpochSealingPolicy P}.
Context {S : Type} `{!IStateAccessorMut S, !IComputeStateRootWithWrites S, !IStateBatchApplicable S}.
Context {C : Type} `{BC : !BlockAssemblyContext C S}.

Record BlockasmServiceState := {
  bss_bridge_params : BridgeParams;
  bss_max_txs_per_block : Z;
  bss_sequencer_predicate : PredicateKey;
  bss_ctx : C;
  bss_epoch_sealing_policy : P;
  bss_state : BlockAssemblyState;
  bss_epoch_resource_tracker : EpochResourceTracker;
}.

Definition NANOS_PER_SEC : Z := 1000000000.

Definition BlockasmServiceState_new (bridge_params : BridgeParams) (max_txs_per_block block_template_ttl_secs : Z)
    (sequencer_predicate : PredicateKey) (ctx : C) (policy : P) : BlockasmServiceState :=
  {| bss_bridge_params := bridge_params; bss_max_txs_per_block := max_txs_per_block;
     bss_sequencer_predicate := sequencer_predicate; bss_ctx := ctx; bss_epoch_sealing_policy := policy;
     bss_state := BlockAssemblyState_new (block_template_ttl_secs * NANOS_PER_SEC); bss_epoch_resource_tracker := ∅ |}.

Definition bss_with_ctx (s : BlockasmServiceState) (ctx : C) : BlockasmServiceState :=
  {| bss_bridge_params := bss_bridge_params s; bss_max_txs_per_block := bss_max_txs_per_block s;
     bss_sequencer_predicate := bss_sequencer_predicate s; bss_ctx := ctx;
     bss_epoch_sealing_policy := bss_epoch_sealing_policy s; bss_state := bss_state s;
     bss_epoch_resource_tracker := bss_epoch_resource_tracker s |}.
Definition bss_with (s : BlockasmServiceState) (state : BlockAssemblyState) (tracker : EpochResourceTracker)
    : BlockasmServiceState :=
  {| bss_bridge_params := bss_bridge_params s; bss_max_txs_per_block := bss_max_txs_per_block s;
     bss_sequencer_predicate := bss_sequencer_predicate s; bss_ctx := bss_ctx s;
     bss_epoch_sealing_policy := bss_epoch_sealing_policy s; bss_state := state;
     bss_epoch_resource_tracker := tracker |}.

Definition remove_resource_states (ids : list OLBlockId) (t : EpochResourceTracker) : EpochResourceTracker :=
  fold_left (fun t id => delete id t) ids t.

Definition fetch_epoch_resource_state_until_parent (fuel : nat) (parent_blkid : OLBlockCommitment) (s : BlockasmServiceState)
    : option (res BlockAssemblyError EpochResourceState) :=
  let? o := Some (fetch_ol_header (S := S) (bss_ctx s) (obc_blkid parent_blkid)) in
  let? parent_header := Some (ok_or o (BaHeaderNotFound (obc_blkid parent_blkid))) in
  if hdr_is_terminal parent_header then Some (Ok EpochResourceState_new_empty)
  else
    match bss_epoch_resource_tracker s !! obc_blkid parent_blkid with
    | Some resource_state => Some (Ok resource_state)
    | None =>
        rebuild_epoch_resource_state_upto (S := S) fuel parent_blkid (hdr_epoch parent_header) (bss_bridge_params s) (bss_ctx s)
    end.

(** The instants at which a command reads the clock. *)
Record Clock := {
  ck_cleanup : Instant;
  ck_lookup : Instant;
  ck_insert : Instant;
  ck_insert_cleanup : Instant;
}.

(** Stores a generated template with its resources. *)
Definition store_template (ck : Clock) (parent_blkid : OLBlockId) (r : BlockTemplateResult)
    : M BlockAssemblyError BlockasmServiceState FullBlockTemplate := fun s =>
  let template_id := get_blockid (btr_template r) in
  match insert_template (ck_insert ck) (ck_insert_cleanup ck) template_id (btr_template r) (bss_state s) with
  | (Ok evicted_template_ids, state) =>
      (Ok (btr_template r),
       bss_with s state (remove_resource_states evicted_template_ids
         (set_resource_state_and_remove_parent_entry template_id parent_blkid (btr_resource_state r)
            (bss_epoch_resource_tracker s))))
  | (Err e, state) => (Err e, bss_with s state (bss_epoch_resource_tracker s))
  | (Panic, state) => (Panic, bss_with s state (bss_epoch_resource_tracker s))
  end.

Definition report_failed_txs (failed_txs : list (OLTxId * MempoolTxInvalidReason))
    : M BlockAssemblyError BlockasmServiceState unit := fun s =>
  match failed_txs with
  | [] => (Ok tt, s)
  | _ =>
      let '(r, ctx) := ba_mempool_report_invalid (S := S) failed_txs (bss_ctx s) in
      (res_map_err BaMempool r, bss_with_ctx s ctx)
  end.

(** [None]: the epoch has more than [fuel] blocks. *)
Definition generate_block_template (fuel : nat) (ck : Clock) (config : BlockGenerationConfig) (s : BlockasmServiceState)
    : option (res BlockAssemblyError FullBlockTemplate * BlockasmServiceState) :=
  let parent := bgc_parent_block_commitment config in
  let parent_blkid := obc_blkid parent in
  let s := bss_with s (prune_completed_template_statuses_for_parent parent (bss_state s)) (bss_epoch_resource_tracker s) in
  match get_pending_block_template_by_parent (ck_lookup ck) (bss_state s) parent_blkid with
  | Ok template => Some (Ok template, s)
  | _ =>
  match get_template_status_by_parent (bss_state s) parent_blkid with
  | Some (TsCompleted block) => Some (Err (BaTemplateAlreadyCompletedForParent parent_blkid block), s)
  | _ =>
  match fetch_epoch_resource_state_until_parent fuel parent s with
  | None => None
  | Some (Err e) => Some (Err e, s)
  | Some Panic => Some (Panic, s)
  | Some (Ok resource_state) =>
  match generate_block_template_inner (bss_ctx s) (bss_epoch_sealing_policy s) (bss_max_txs_per_block s) config
          resource_state (bss_bridge_params s) with
  | Err e => Some (Err e, s)
  | Panic => Some (Panic, s)
  | Ok r => Some ((report_failed_txs (btr_failed_txs r) ;;; store_template ck parent_blkid r) s)
  end end end end.

Definition check_completion_data (sequencer_predicate : PredicateKey) (header : OLBlockHeader) (signature : Z) : bool :=
  verify_sequencer_predicate_signature sequencer_predicate (compute_blkid header) signature.

Definition svc_complete_block_template (ck : Clock) (template_id : OLBlockId) (signature : Z) (s : BlockasmServiceState)
    : res BlockAssemblyError OLBlock :=
  let! template_ref := get_pending_block_template (ck_lookup ck) (bss_state s) template_id in
  if negb (check_completion_data (bss_sequencer_predicate s) (tpl_header template_ref) signature) then
    Err (BaInvalidSignature template_id)
  else Ok (complete_block_template template_ref signature).

Definition svc_record_persisted_block (template_id : OLBlockId) : M BlockAssemblyError BlockasmServiceState unit := fun s =>
  match bas_record_persisted_block template_id (bss_state s) with
  | (Ok _, state) => (Ok tt, bss_with s state (delete template_id (bss_epoch_resource_tracker s)))
  | (Err e, state) => (Err e, bss_with s state (bss_epoch_resource_tracker s))
  | (Panic, state) => (Panic, bss_with s state (bss_epoch_resource_tracker s))
  end.

(** [command.rs] *)
Inductive BlockasmCommand :=
| GenerateBlockTemplate (config : BlockGenerationConfig)
| GetBlockTemplate (parent_block_id : OLBlockId)
| CompleteBlockTemplate (template_id : OLBlockId) (signature : Z)
| ReleaseCompletedTemplateStatus (parent_block_id : OLBlockId) (block : OLBlockCommitment)
| RecordPersistedBlock (template_id : OLBlockId).

(** What a command's completion receives. *)
Inductive BlockasmReply :=
| ReplyTemplate (r : res BlockAssemblyError FullBlockTemplate)
| ReplyBlock (r : res BlockAssemblyError OLBlock)
| ReplyReleased (released : bool)
| ReplyRecorded (r : res BlockAssemblyError unit).

Definition svc_cleanup (now : Instant) (s : BlockasmServiceState) : BlockasmServiceState :=
  let '(ids, state) := cleanup_expired_templates now (bss_state s) in
  bss_with s state (remove_resource_states ids (bss_epoch_resource_tracker s)).

Definition svc_process_input (fuel : nat) (ck : Clock) (input : BlockasmCommand) (s : BlockasmServiceState)
    : option (BlockasmReply * BlockasmServiceState) :=
  let s := match input with RecordPersistedBlock _ => s | _ => svc_cleanup (ck_cleanup ck) s end in
  match input with
  | GenerateBlockTemplate config =>
      match generate_block_template fuel ck config s with
      | Some (r, s') => Some (ReplyTemplate r, s')
      | None => None
      end
  | GetBlockTemplate parent_block_id =>
      Some (ReplyTemplate (get_pending_block_template_by_parent (ck_lookup ck) (bss_state s) parent_block_id), s)
  | CompleteBlockTemplate template_id signature =>
      Some (ReplyBlock (svc_complete_block_template ck template_id signature s), s)
  | ReleaseCompletedTemplateStatus parent_block_id block =>
      let '(released, state) := release_completed_template_status parent_block_id block (bss_state s) in
      Some (ReplyReleased released, bss_with s state (bss_epoch_resource_tracker s))
  | RecordPersistedBlock template_id =>
      let '(r, s') := svc_record_persisted_block template_id s in
      Some (ReplyRecorded r, s')
  end.
End service.
