(* ===== verification/TemplateSpec.v ===== *)
(** * What the template cache promises

    At most one template waits for a signature per parent, what is kept for a
    parent and what is kept for a template agree, and a parent whose block has
    been persisted gets no second one while its mark stands. *)

From S2P Require Import Prelude SortedMap Identifiers AcctTypes ChainTypes Externals.
From S2P Require Import CodecTypes DaFramework OLDaTypes LedgerTypes Bridge OLAccount WriteBatch OLState.
From S2P Require Import StateAccessor WriteTracking IndexerLayer DaLayer StfContext StfBlock CheckpointWorker Mempool ForkChoice.
From S2P Require Import EpochSealing BlockAssembly TemplateService.

Section cache.
Context `{XR : ExtRoot} `{CE : !CodecExt} `{DE : !DaExt} `{AX : !AssemblyExt} `{FX : !FcmExt}.

(** ** The cache *)

Record cache_ok (s : BlockAssemblyState) : Prop := {
  co_pending id c : bas_pending_templates s !! id = Some c ->
    id = get_blockid (ct_template c) /\
    bas_template_status_by_parent s !! tpl_parent (ct_template c) = Some (TsPending id);
  co_status p id : bas_template_status_by_parent s !! p = Some (TsPending id) ->
    exists c, bas_pending_templates s !! id = Some c /\ tpl_parent (ct_template c) = p;
}.

Lemma cache_ok_new ttl : cache_ok (BlockAssemblyState_new ttl).
Proof. split; intros *; simpl; by rewrite lookup_empty. Qed.

(** Forgetting a template with its status. *)
Lemma cache_ok_forget s id c o :
  cache_ok s -> bas_pending_templates s !! id = Some c ->
  (forall id', o = Some (TsPending id') -> False) ->
  cache_ok (bas_with s (delete id (bas_pending_templates s))
    (partial_alter (fun _ => o) (tpl_parent (ct_template c)) (bas_template_status_by_parent s))).
Proof.
  intros [H1 H2] Hc Ho. destruct (H1 _ _ Hc) as [Hid Hs]. split; simpl.
  - intros id' c'. rewrite lookup_delete_Some. intros [Hne Hc']. destruct (H1 _ _ Hc') as [Hid' Hs']. split; [done|].
    destruct (decide (tpl_parent (ct_template c) = tpl_parent (ct_template c'))) as [He|Hn];
      [rewrite He in Hs; congruence|]. by rewrite lookup_partial_alter_ne.
  - intros p id' Hp. destruct (decide (tpl_parent (ct_template c) = p)) as [<-|Hn];
      [rewrite lookup_partial_alter_eq in Hp; by apply Ho in Hp|].
    rewrite lookup_partial_alter_ne in Hp by done. destruct (H2 _ _ Hp) as (c' & Hc' & Hp'). exists c'. split; [|done].
    rewrite lookup_delete_ne; [done|]. intros <-. rewrite Hc in Hc'. injection Hc' as <-. congruence.
Qed.

(** Completing a parent, or dropping its mark, that no template is for. *)
Lemma cache_ok_mark s (f : gmap OLBlockId BlockTemplateStatus -> gmap OLBlockId BlockTemplateStatus) :
  (forall p id, f (bas_template_status_by_parent s) !! p = Some (TsPending id) <->
     bas_template_status_by_parent s !! p = Some (TsPending id)) ->
  cache_ok s -> cache_ok (bas_with s (bas_pending_templates s) (f (bas_template_status_by_parent s))).
Proof.
  intros Hf [H1 H2]. split; simpl; [intros id c Hc; destruct (H1 _ _ Hc) as [Hid Hs]; split; [done|by apply Hf]|].
  intros p id Hp. apply H2, Hf, Hp.
Qed.

Lemma remove_expired_ok s id : cache_ok s -> cache_ok (remove_expired s id).
Proof.
  intros Hs. unfold remove_expired. destruct (bas_pending_templates s !! id) as [c|] eqn:Hc; [|done].
  destruct (co_pending s Hs _ _ Hc) as [_ Hst]. rewrite decide_True by done.
  by apply (cache_ok_forget s id c None).
Qed.

Lemma remove_expired_pending s id : bas_pending_templates (remove_expired s id) = delete id (bas_pending_templates s).
Proof.
  unfold remove_expired. destruct (bas_pending_templates s !! id) as [c|] eqn:Hc; [done|]. by rewrite delete_id.
Qed.

(** A mark of a persisted block survives the cleanup. *)
Lemma remove_expired_completed s id p b :
  bas_template_status_by_parent s !! p = Some (TsCompleted b) ->
  bas_template_status_by_parent (remove_expired s id) !! p = Some (TsCompleted b).
Proof.
  intros Hp. unfold remove_expired. destruct (bas_pending_templates s !! id) as [c|]; [|done]. simpl.
  case_decide; [|done]. rewrite lookup_delete_ne; [done|]. intros <-. congruence.
Qed.

Lemma cleanup_spec now s :
  let '(ids, s') := cleanup_expired_templates now s in
  (cache_ok s -> cache_ok s') /\
  (forall x, bas_pending_templates s' !! x = if decide (x ∈ ids) then None else bas_pending_templates s !! x) /\
  (forall p b, bas_template_status_by_parent s !! p = Some (TsCompleted b) ->
     bas_template_status_by_parent s' !! p = Some (TsCompleted b)).
Proof.
  unfold cleanup_expired_templates. set (ids := map fst _). clearbody ids. revert s.
  induction ids as [|id ids IH]; intros s; simpl.
  { by split_and!. }
  destruct (IH (remove_expired s id)) as (H1 & H2 & H3). split_and!.
  - intros Hs. by apply H1, remove_expired_ok.
  - intros x. rewrite H2, remove_expired_pending. destruct (decide (x ∈ ids)) as [Hx|Hx].
    + rewrite decide_True by set_solver. done.
    + destruct (decide (x = id)) as [->|Hne]; [rewrite decide_True by set_solver; by rewrite lookup_delete_eq|].
      rewrite decide_False by set_solver. by rewrite lookup_delete_ne.
  - intros p b Hp. by apply H3, remove_expired_completed.
Qed.

(** *** Insertion *)

(** Block ids commit to the parent. *)
Definition blkid_binds_parent : Prop := forall h h',
  compute_blkid h = compute_blkid h' -> hdr_parent_blkid h = hdr_parent_blkid h'.

Lemma insert_cached_ok s t at_time :
  blkid_binds_parent -> cache_ok s ->
  (forall b, bas_template_status_by_parent s !! tpl_parent t <> Some (TsCompleted b)) ->
  (forall id, bas_template_status_by_parent s !! tpl_parent t = Some (TsPending id) -> id = get_blockid t) ->
  cache_ok (bas_with s (<[get_blockid t := {| ct_template := t; ct_created_at := at_time |}]> (bas_pending_templates s))
    (<[tpl_parent t := TsPending (get_blockid t)]> (bas_template_status_by_parent s))).
Proof.
  intros Hb [H1 H2] Hnc Hsame. split; simpl.
  - intros id c. rewrite lookup_insert_Some. intros [[<- <-]|[Hne Hc]]; [by rewrite lookup_insert_eq|].
    destruct (H1 _ _ Hc) as [Hid Hst]. split; [done|]. rewrite lookup_insert_ne; [done|].
    intros He. rewrite <- He in Hst. apply Hne. symmetry. by apply Hsame.
  - intros p id. rewrite lookup_insert_Some. intros [[<- [= <-]]|[Hne Hp]]; [eexists; by rewrite lookup_insert_eq|].
    destruct (H2 _ _ Hp) as (c & Hc & Hpc). exists c. rewrite lookup_insert_ne; [done|].
    intros <-. destruct (H1 _ _ Hc) as [Hid _]. apply Hne. rewrite <- Hpc. apply Hb, Hid.
Qed.

(** What inserting a template comes to. *)
Definition inserted (s : BlockAssemblyState) (t : FullBlockTemplate) (r : res BlockAssemblyError (list OLBlockId))
    (s' : BlockAssemblyState) : Prop :=
  cache_ok s' /\
  (forall p b, bas_template_status_by_parent s !! p = Some (TsCompleted b) ->
     bas_template_status_by_parent s' !! p = Some (TsCompleted b)) /\
  match r with
  | Ok evicted =>
      (forall b, bas_template_status_by_parent s !! tpl_parent t <> Some (TsCompleted b)) /\
      (forall x, x ∉ evicted -> x = get_blockid t \/ is_Some (bas_pending_templates s !! x) -> is_Some (bas_pending_templates s' !! x))
  | _ => s' = s
  end.

(** Storing a template next to [pending] and cleaning up. *)
Lemma insert_and_clean created now t s pending evicted ids s2 :
  let s1 := bas_with s (<[get_blockid t := {| ct_template := t; ct_created_at := created |}]> pending)
              (<[tpl_parent t := TsPending (get_blockid t)]> (bas_template_status_by_parent s)) in
  cache_ok s1 -> (forall b, bas_template_status_by_parent s !! tpl_parent t <> Some (TsCompleted b)) ->
  (forall x, x ∉ evicted -> is_Some (bas_pending_templates s !! x) -> is_Some (pending !! x)) ->
  cleanup_expired_templates now s1 = (ids, s2) -> inserted s t (Ok (evicted ++ ids)) s2.
Proof.
  intros s1 Hok Hnc Hkeep Hrun. pose proof (cleanup_spec now s1) as Hcl. rewrite Hrun in Hcl.
  destruct Hcl as (C1 & C2 & C3). unfold inserted. split_and!; [by apply C1| |exact Hnc|].
  - intros p b Hp. apply C3. simpl. rewrite lookup_insert_ne; [done|]. intros <-. by eapply Hnc.
  - intros x Hx Hcase. rewrite not_elem_of_app in Hx. rewrite C2, decide_False by apply Hx. simpl.
    destruct (decide (x = get_blockid t)) as [->|Hne]; [by rewrite lookup_insert_eq|]. rewrite lookup_insert_ne by done.
    destruct Hcase as [?|Hp]; [done|]. apply Hkeep; [apply Hx|done].
Qed.

Lemma insert_template_spec created now t s r s' :
  blkid_binds_parent -> cache_ok s -> insert_template created now (get_blockid t) t s = (r, s') -> inserted s t r s'.
Proof.
  intros Hb Hs H. unfold insert_template in H.
  destruct (bas_template_status_by_parent s !! tpl_parent t) as [[old|b]|] eqn:Hst.
  - destruct (Z.eqb_spec old (get_blockid t)) as [->|Hne]; cbn [negb] in H.
    + destruct (cleanup_expired_templates _ _) as [ids s2] eqn:Hcl. injection H as <- <-.
      eapply (insert_and_clean created now t s _ []); [|congruence| |exact Hcl]; [|done].
      apply insert_cached_ok; [done..|congruence|congruence].
    + destruct (co_status s Hs _ _ Hst) as (c & Hc & Hpc).
      destruct (cleanup_expired_templates _ _) as [ids s2] eqn:Hcl.
      injection H as <- <-. eapply (insert_and_clean created now t s _ [old]); [|congruence| |exact Hcl].
      * assert (Hf : cache_ok (bas_with s (delete old (bas_pending_templates s)) (delete (tpl_parent t) (bas_template_status_by_parent s))))
          by (rewrite <- Hpc; by apply (cache_ok_forget s old c None)).
        apply (insert_cached_ok _ t created Hb) in Hf; simpl in *.
        -- by rewrite insert_delete_eq in Hf.
        -- intros b. by rewrite lookup_delete_eq.
        -- intros id. by rewrite lookup_delete_eq.
      * intros x Hx. rewrite lookup_delete_ne; [done|]. set_solver.
  - injection H as <- <-. done.
  - destruct (cleanup_expired_templates _ _) as [ids s2] eqn:Hcl. injection H as <- <-.
    eapply (insert_and_clean created now t s _ []); [|congruence| |exact Hcl]; [|done].
    apply insert_cached_ok; [done..|congruence|congruence].
Qed.

Lemma prune_completed s parent p b :
  obc_slot parent < obc_slot b -> bas_template_status_by_parent s !! p = Some (TsCompleted b) ->
  bas_template_status_by_parent (prune_completed_template_statuses_for_parent parent s) !! p = Some (TsCompleted b).
Proof. intros Hlt Hp. simpl. apply map_lookup_filter_Some. split; [done|]. simpl. by apply Z.ltb_lt. Qed.

Lemma prune_ok s parent : cache_ok s -> cache_ok (prune_completed_template_statuses_for_parent parent s).
Proof.
  apply (cache_ok_mark s (filter _)). intros p id. rewrite map_lookup_filter_Some. split; [by intros [? _]|by intros ?].
Qed.

(** A live template is for the parent it is looked up by. *)
Lemma pending_by_parent now s p t :
  cache_ok s -> get_pending_block_template_by_parent now s p = Ok t ->
  tpl_parent t = p /\ exists id, bas_template_status_by_parent s !! p = Some (TsPending id).
Proof.
  intros Hs. unfold get_pending_block_template_by_parent.
  destruct (bas_template_status_by_parent s !! p) as [[id|b]|] eqn:Hst; [|done..].
  destruct (co_status s Hs _ _ Hst) as (c & Hc & Hpc). unfold live_template. rewrite Hc.
  destruct (_ <? _); simpl; [|done]. intros [= <-]. split; [done|by eexists].
Qed.

Lemma pending_by_id now s id t :
  cache_ok s -> get_pending_block_template now s id = Ok t ->
  bas_template_status_by_parent s !! tpl_parent t = Some (TsPending id).
Proof.
  intros Hs. unfold get_pending_block_template, live_template.
  destruct (bas_pending_templates s !! id) as [c|] eqn:Hc; [|done]. destruct (_ <? _); [|done]. simpl. intros [= <-].
  apply (co_pending s Hs _ _ Hc).
Qed.

Lemma record_persisted_ok id s r s' :
  cache_ok s -> bas_record_persisted_block id s = (r, s') ->
  cache_ok s' /\
  (forall p b, bas_template_status_by_parent s !! p = Some (TsCompleted b) ->
     bas_template_status_by_parent s' !! p = Some (TsCompleted b)) /\
  match r with
  | Ok t => bas_pending_templates s' = delete id (bas_pending_templates s) /\
      bas_template_status_by_parent s' !! tpl_parent t = Some (TsCompleted (compute_block_commitment (tpl_header t)))
  | _ => s' = s
  end.
Proof.
  intros Hs H. unfold bas_record_persisted_block in H.
  destruct (bas_pending_templates s !! id) as [c|] eqn:Hc; [|by injection H as <- <-].
  case_decide as Hst; [|by injection H as <- <-]. injection H as <- <-. split_and!.
  - by apply (cache_ok_forget s id c (Some (TsCompleted _))).
  - intros p b Hp. simpl. rewrite lookup_insert_ne; [done|]. intros <-. congruence.
  - done.
  - simpl. by rewrite lookup_insert_eq.
Qed.
End cache.

(** ** The service *)

Section service.
Context `{XR : ExtRoot} `{CE : !CodecExt} `{DE : !DaExt} `{AX : !AssemblyExt} `{FX : !FcmExt}.
Context {P : Type} `{!EpochSealingPolicy P}.
Context {S : Type} `{!IStateAccessorMut S, !IComputeStateRootWithWrites S, !IStateBatchApplicable S}.
Context {C : Type} `{BC : !BlockAssemblyContext C S}.
Context (Hblkid : blkid_binds_parent).

Abbreviation Svc := (BlockasmServiceState (P := P) (C := C)) (only parsing).
Abbreviation pending s := (bas_pending_templates (bss_state s)) (only parsing).
Abbreviation status s := (bas_template_status_by_parent (bss_state s)) (only parsing).

(** Resources are kept for pending templates only. *)
Record service_ok (s : Svc) : Prop := {
  so_cache : cache_ok (bss_state s);
  so_resources id : is_Some (bss_epoch_resource_tracker s !! id) -> is_Some (pending s !! id);
}.

(** What every command keeps. *)
Record evolves (s s' : Svc) : Prop := {
  ev_ok : service_ok s';
  ev_completed p b : status s !! p = Some (TsCompleted b) -> status s' !! p = Some (TsCompleted b);
}.

Lemma evolves_refl s : service_ok s -> evolves s s.
Proof. by split. Qed.

Lemma evolves_trans s1 s2 s3 : evolves s1 s2 -> evolves s2 s3 -> evolves s1 s3.
Proof. intros [A1 A2] [B1 B2]. split; [done|]. intros p b Hp. by apply B2, A2. Qed.

Lemma remove_resource_states_lookup ids (t : gmap OLBlockId EpochResourceState) x :
  is_Some (remove_resource_states ids t !! x) -> (x ∉ ids) /\ is_Some (t !! x).
Proof.
  revert t. unfold remove_resource_states. induction ids as [|id ids IH]; intros t; simpl.
  { intros Hx. split; [apply not_elem_of_nil|done]. }
  intros Hx. apply IH in Hx as [Hn [v Hv]]. apply lookup_delete_Some in Hv as [Hne Hv].
  split; [set_solver|by eexists].
Qed.

Lemma svc_cleanup_evolves now (s : Svc) : service_ok s -> evolves s (svc_cleanup now s).
Proof.
  intros [Hc Hr]. unfold svc_cleanup. pose proof (cleanup_spec now (bss_state s)) as Hcl.
  destruct (cleanup_expired_templates now (bss_state s)) as [ids st]. destruct Hcl as (C1 & C2 & C3).
  split; [split; simpl; [by apply C1|]|done]. intros id Hid. apply remove_resource_states_lookup in Hid as [Hn Hid].
  rewrite C2, decide_False by done. by apply Hr.
Qed.

Lemma report_evolves l (s s' : Svc) r : report_failed_txs (S := S) l s = (r, s') ->
  bss_state s' = bss_state s /\ bss_epoch_resource_tracker s' = bss_epoch_resource_tracker s.
Proof. unfold report_failed_txs. destruct l; [by intros [= <- <-]|]. destruct (ba_mempool_report_invalid _ _). by intros [= <- <-]. Qed.

Lemma store_template_evolves ck parent (res : BlockTemplateResult) (s s' : Svc) r :
  service_ok s -> store_template ck parent res s = (r, s') ->
  evolves s s' /\ forall t, r = Ok t -> forall b, status s !! tpl_parent t <> Some (TsCompleted b).
Proof.
  intros [Hc Hr] H. unfold store_template in H.
  destruct (insert_template _ _ _ _ _) as [ri st] eqn:Hi.
  apply (insert_template_spec _ _ _ _ _ _ Hblkid Hc) in Hi as (I1 & I2 & I3).
  destruct ri as [ev|e|]; injection H as <- <-; (split; [split; [split; [exact I1|]|exact I2]|]); simpl.
  - destruct I3 as [_ I3]. intros id Hid. apply remove_resource_states_lookup in Hid as [Hn [v Hv]].
    unfold set_resource_state_and_remove_parent_entry in Hv. apply lookup_delete_Some in Hv as [_ Hv].
    apply I3; [done|]. apply lookup_insert_Some in Hv as [[<- _]|[_ Hv]]; [by left|right]. apply Hr. by eexists.
  - intros t [= <-]. apply I3.
  - subst st. exact Hr.
  - done.
  - subst st. exact Hr.
  - done.
Qed.

(** The marks a command must not drop for them to stand. *)
Definition keeps_mark (p : OLBlockId) (b : OLBlockCommitment) (cmd : BlockasmCommand) : Prop :=
  match cmd with
  | GenerateBlockTemplate config => obc_slot (bgc_parent_block_commitment config) < obc_slot b
  | ReleaseCompletedTemplateStatus p' b' => p' <> p \/ b' <> b
  | _ => True
  end.

(** The parent a reply hands out a template or a block for. *)
Definition reply_parent (r : BlockasmReply) : option OLBlockId :=
  match r with
  | ReplyTemplate (Ok t) => Some (tpl_parent t)
  | ReplyBlock (Ok b) => Some (hdr_parent_blkid (blk_header b))
  | _ => None
  end.

(** A step of the service: the invariant is kept, marks that the command keeps
    stand, and nothing is handed out for a marked parent. *)
Record step_ok (cmd : BlockasmCommand) (s : Svc) (reply : BlockasmReply) (s' : Svc) : Prop := {
  st_ok : service_ok s';
  st_mark p b : keeps_mark p b cmd -> status s !! p = Some (TsCompleted b) ->
    status s' !! p = Some (TsCompleted b) /\ reply_parent reply <> Some p;
}.

Lemma generate_step fuel ck config (s s' : Svc) r :
  service_ok s -> generate_block_template fuel ck config s = Some (r, s') ->
  step_ok (GenerateBlockTemplate config) s (ReplyTemplate r) s'.
Proof.
  intros Hs H. unfold generate_block_template in H. set (s1 := bss_with s _ _) in H.
  assert (Hs1 : service_ok s1) by (destruct Hs as [Hc Hr]; split; [by apply prune_ok|exact Hr]).
  assert (Hm1 : forall p b, keeps_mark p b (GenerateBlockTemplate config) -> status s !! p = Some (TsCompleted b) ->
    status s1 !! p = Some (TsCompleted b)) by (intros p b Hk Hp; by apply prune_completed).
  clearbody s1. cut (forall r s', evolves s1 s' -> (forall t, r = Ok t -> forall b, status s1 !! tpl_parent t <> Some (TsCompleted b)) ->
    step_ok (GenerateBlockTemplate config) s (ReplyTemplate r) s').
  2: { clear H r s'. intros r s' [Hok Hcm] Hr. split; [done|]. intros p b Hk Hp. pose proof (Hm1 p b Hk Hp) as Hp1.
       split; [by apply Hcm|]. destruct r as [t|e|]; [|done..]. cbn. intros [= <-]. by eapply Hr. }
  intros Hgo. pose proof (evolves_refl s1 Hs1) as Hev.
  destruct (get_pending_block_template_by_parent _ _ _) as [t|e|] eqn:Hg.
  { injection H as <- <-. apply Hgo; [done|]. intros t' [= <-] b Hb.
    apply (pending_by_parent _ _ _ _ (so_cache _ Hs1)) in Hg as [<- [id Hid]]. congruence. }
  all: destruct (get_template_status_by_parent _ _) as [[id|b]|] eqn:Hst; [|injection H as <- <-; by apply Hgo|].
  all: destruct (fetch_epoch_resource_state_until_parent _ _ _) as [[rs|e'|]|]; [|injection H as <- <-; by apply Hgo..|done].
  all: destruct (generate_block_template_inner _ _ _ _ _ _) as [res|e'|]; [|injection H as <- <-; by apply Hgo..].
  all: injection H as H; unfold mbind in H; destruct (report_failed_txs _ s1) as [[u|e'|] s2] eqn:Hrep.
  all: apply report_evolves in Hrep as [Hb Ht].
  all: assert (Hs2 : service_ok s2) by (destruct Hs1 as [Hc Hr]; split; [by rewrite Hb|by rewrite Hb, Ht]).
  all: assert (Hev2 : evolves s1 s2) by (split; [done|by rewrite Hb]).
  all: try (injection H as <- <-; by apply Hgo).
  all: apply (store_template_evolves _ _ _ _ _ _ Hs2) in H as [Hev3 Hr3]; rewrite Hb in Hr3; apply Hgo; [by eapply evolves_trans|done].
Qed.

Lemma release_step parent block (s : Svc) released st :
  service_ok s -> release_completed_template_status parent block (bss_state s) = (released, st) ->
  step_ok (ReleaseCompletedTemplateStatus parent block) s (ReplyReleased released) (bss_with s st (bss_epoch_resource_tracker s)).
Proof.
  intros [Hc Hr] H. unfold release_completed_template_status in H. case_decide as Hst.
  - injection H as <- <-. split; [split; simpl; [|exact Hr]|].
    + apply (cache_ok_mark (bss_state s) (delete parent)); [|exact Hc]. intros p id. rewrite lookup_delete_Some.
      split; [by intros [_ ?]|]. intros Hp. split; [|done]. intros <-. congruence.
    + intros p b Hk Hp. split; [|done]. simpl. rewrite lookup_delete_ne; [done|]. intros <-.
      rewrite Hst in Hp. injection Hp as ->. simpl in Hk. tauto.
  - injection H as <- <-. split; [by split|]. intros p b Hk Hp. by split.
Qed.

Lemma record_step id (s s' : Svc) r :
  service_ok s -> svc_record_persisted_block id s = (r, s') ->
  step_ok (RecordPersistedBlock id) s (ReplyRecorded r) s'.
Proof.
  intros [Hc Hr] H. unfold svc_record_persisted_block in H.
  destruct (bas_record_persisted_block id (bss_state s)) as [rr st] eqn:Hrec.
  apply record_persisted_ok in Hrec as (R1 & R2 & R3); [|done].
  destruct rr as [t|e|]; injection H as <- <-; split; try (intros p b _ Hp; by split; [apply R2|]); split; simpl; try done.
  - destruct R3 as [-> _]. intros x [v Hv]. apply lookup_delete_Some in Hv as [Hne Hv]. rewrite lookup_delete_ne by done.
    apply Hr. by eexists.
  - by subst st.
  - by subst st.
Qed.

Lemma svc_step fuel ck cmd (s s' : Svc) reply :
  service_ok s -> svc_process_input fuel ck cmd s = Some (reply, s') -> step_ok cmd s reply s'.
Proof.
  intros Hs H. unfold svc_process_input in H.
  assert (Hcl : forall s1, evolves s s1 -> step_ok cmd s1 reply s' -> step_ok cmd s reply s').
  { intros s1 [_ Hcm] [A1 A2]. split; [done|]. intros p b Hk Hp. by apply A2, Hcm. }
  pose proof (svc_cleanup_evolves (ck_cleanup ck) s Hs) as Hev. pose proof (ev_ok _ _ Hev) as Hok.
  destruct cmd as [config|parent|id sig|parent block|id].
  - apply (Hcl _ Hev). destruct (generate_block_template _ _ _ _) as [[r s2]|] eqn:Hg; [|done]. injection H as <- <-.
    by eapply generate_step.
  - apply (Hcl _ Hev). injection H as <- <-. split; [done|]. intros p b _ Hp. split; [done|].
    destruct (get_pending_block_template_by_parent _ _ _) as [t|e|] eqn:Hg; [|done..]. cbn. intros [= <-].
    apply (pending_by_parent _ _ _ _ (so_cache _ Hok)) in Hg as [<- [id Hid]]. congruence.
  - apply (Hcl _ Hev). injection H as <- <-. split; [done|]. intros p b _ Hp. split; [done|].
    unfold svc_complete_block_template. destruct (get_pending_block_template _ _ _) as [t|e|] eqn:Hg; [|done..].
    cbn [res_bind]. destruct (negb _); [done|]. cbn. intros [= <-]. apply (pending_by_id _ _ _ _ (so_cache _ Hok)) in Hg.
    unfold tpl_parent in Hg. congruence.
  - apply (Hcl _ Hev). destruct (release_completed_template_status _ _ _) as [released st] eqn:Hrl. injection H as <- <-.
    by apply release_step.
  - destruct (svc_record_persisted_block id s) as [r s2] eqn:Hrec. injection H as <- <-. by apply record_step.
Qed.

(** ** Runs of the service *)

Fixpoint svc_run (fuel : nat) (cmds : list (Clock * BlockasmCommand)) (s : Svc) : option (list BlockasmReply * Svc) :=
  match cmds with
  | [] => Some ([], s)
  | (ck, cmd) :: cmds' =>
      match svc_process_input fuel ck cmd s with
      | None => None
      | Some (reply, s1) =>
          match svc_run fuel cmds' s1 with
          | None => None
          | Some (replies, s2) => Some (reply :: replies, s2)
          end
      end
  end.

Lemma svc_run_steps fuel cmds : forall (s s' : Svc) replies,
  service_ok s -> svc_run fuel cmds s = Some (replies, s') ->
  service_ok s' /\
  forall p b, Forall (fun c => keeps_mark p b c.2) cmds -> status s !! p = Some (TsCompleted b) ->
    status s' !! p = Some (TsCompleted b) /\ Forall (fun r => reply_parent r <> Some p) replies.
Proof.
  induction cmds as [|[ck cmd] cmds IH]; intros s s' replies Hs H; simpl in H.
  { injection H as <- <-. by split. }
  destruct (svc_process_input fuel ck cmd s) as [[reply s1]|] eqn:Hp; [|done].
  apply svc_step in Hp as [A1 A2]; [|done].
  destruct (svc_run fuel cmds s1) as [[rs s2]|] eqn:Hr; [|done]. injection H as <- <-.
  apply IH in Hr as [B1 B2]; [|done]. split; [done|]. intros p b Hk Hp. apply Forall_cons in Hk as [Hk1 Hk2].
  destruct (A2 p b Hk1 Hp) as [Hp1 Hr1]. destruct (B2 p b Hk2 Hp1) as [Hp2 Hr2]. split; [done|]. by constructor.
Qed.

(** A request for a marked parent is refused. *)
Lemma generate_refused fuel ck config (s : Svc) b :
  status s !! obc_blkid (bgc_parent_block_commitment config) = Some (TsCompleted b) ->
  obc_slot (bgc_parent_block_commitment config) < obc_slot b ->
  exists s', svc_process_input fuel ck (GenerateBlockTemplate config) s =
    Some (ReplyTemplate (Err (BaTemplateAlreadyCompletedForParent (obc_blkid (bgc_parent_block_commitment config)) b)), s').
Proof.
  intros Hp Hlt. unfold svc_process_input.
  assert (Hc : status (svc_cleanup (ck_cleanup ck) s) !! obc_blkid (bgc_parent_block_commitment config) = Some (TsCompleted b)).
  { unfold svc_cleanup. pose proof (cleanup_spec (ck_cleanup ck) (bss_state s)) as Hcl.
    destruct (cleanup_expired_templates _ _) as [ids st]. destruct Hcl as (_ & _ & C3). by apply C3. }
  generalize dependent (svc_cleanup (ck_cleanup ck) s). intros s1 Hc. unfold generate_block_template.
  pose proof (prune_completed _ _ _ _ Hlt Hc) as Hpr. set (s2 := bss_with s1 _ _).
  assert (Hs2 : bas_template_status_by_parent (bss_state s2) !! obc_blkid (bgc_parent_block_commitment config) = Some (TsCompleted b)) by exact Hpr.
  clearbody s2. unfold get_pending_block_template_by_parent, get_template_status_by_parent. rewrite Hs2. by eexists.
Qed.

(** C32: however the commands of the service are interleaved, and whatever the
    clock shows, the template cache stays consistent: every pending template is
    stored under its block id and is the one its parent's status names, so that a
    parent has at most one, every pending status has its template, and resources
    are kept for pending templates only. *)
Theorem template_cache_invariant fuel cmds bp max_txs ttl pred (ctx : C) (policy : P) replies s' :
  svc_run fuel cmds (BlockasmServiceState_new bp max_txs ttl pred ctx policy) = Some (replies, s') ->
  service_ok s' /\
  forall id1 id2 c1 c2, pending s' !! id1 = Some c1 -> pending s' !! id2 = Some c2 ->
    tpl_parent (ct_template c1) = tpl_parent (ct_template c2) -> id1 = id2.
Proof.
  intros H. apply svc_run_steps in H as [Hok _].
  - split; [done|]. intros id1 id2 c1 c2 H1 H2 Hp. destruct (co_pending _ (so_cache _ Hok) _ _ H1) as [_ S1].
    destruct (co_pending _ (so_cache _ Hok) _ _ H2) as [_ S2]. congruence.
  - split; [apply cache_ok_new|]. simpl. intros id. rewrite lookup_empty. by intros [].
Qed.

(** C33: once the block built from a template is recorded as persisted, its parent
    is not built on again: over any run that neither releases that mark nor asks
    for a template at or above the block's slot, no reply hands out a template or
    a signed block with this parent, and a request for one is refused. *)
Theorem persisted_parent_not_reused fuel id (s s1 s2 : Svc) cached cmds replies :
  service_ok s -> pending s !! id = Some cached ->
  let parent := tpl_parent (ct_template cached) in
  let block := compute_block_commitment (tpl_header (ct_template cached)) in
  svc_record_persisted_block id s = (Ok tt, s1) ->
  Forall (fun c => keeps_mark parent block c.2) cmds -> svc_run fuel cmds s1 = Some (replies, s2) ->
  Forall (fun r => reply_parent r <> Some parent) replies /\
  forall ck ts slot, slot < obc_slot block ->
    exists s3, svc_process_input fuel ck
      (GenerateBlockTemplate {| bgc_parent_block_commitment := {| obc_slot := slot; obc_blkid := parent |}; bgc_ts := ts |}) s2
      = Some (ReplyTemplate (Err (BaTemplateAlreadyCompletedForParent parent block)), s3).
Proof.
  intros Hs Hc parent block Hrec Hk Hrun. pose proof (record_step id s s1 _ Hs Hrec) as [Hok _].
  assert (Hm : status s1 !! parent = Some (TsCompleted block)).
  { unfold svc_record_persisted_block in Hrec. destruct (bas_record_persisted_block id (bss_state s)) as [[t|e|] st] eqn:Hr; [|done..].
    injection Hrec as <-. pose proof Hr as Hr'. apply record_persisted_ok in Hr as (_ & _ & _ & Hst); [|apply Hs].
    unfold bas_record_persisted_block in Hr'. rewrite Hc in Hr'. case_decide; [|done].
    injection Hr' as <- _. exact Hst. }
  apply svc_run_steps in Hrun as [_ Hst]; [|done]. destruct (Hst _ _ Hk Hm) as [Hm2 Hrep].
  split; [done|]. intros ck ts slot Hlt. by apply generate_refused.
Qed.
End service.
