(* ===== verification/ResourceReplay.v ===== *)
(** * The resources of an epoch, threaded and rebuilt

    DA accumulation does not depend on the layer below: over two layers that
    stand for the same ledger, the transition function accumulates the same data,
    also when accumulation fails.  So the resource state that block assembly
    threads from block to block, over a staged write batch that failed
    transactions are rolled back from, is the one that replaying the blocks of the
    epoch rebuilds. *)

From S2P Require Import Prelude SortedMap Identifiers AcctTypes ChainTypes Externals.
From S2P Require Import CodecTypes DaFramework OLDaTypes LedgerTypes Bridge OLAccount WriteBatch OLState.
From S2P Require Import StateAccessor LedgerSpec MemoryLayer BatchApply WriteTracking IndexerLayer DaLayer StfContext.
From S2P Require Import StfTx StfManifests StfBlock StfSim DaSim StfAgreement CheckpointWorker Mempool ForkChoice.
From S2P Require Import EpochSealing BlockAssembly BlockAssemblySpec TemplateService.

(** ** Wrapped accounts that keep their serial *)

Section accounts.
Context `{X : Ext}.

Definition same_wrapper (n : AccountSerial) (w1 w2 : IndexerAccountStateMut OLAccountState) : Prop :=
  w1 = w2 /\ acct_serial (iam_inner w1) = n.

#[local] Instance wrapper_snark_sim : SnarkSim (@eq (IndexerSnarkAccountStateMut OLSnarkAccountState)).
Proof.
  split; [by intros s1 s2 root idx seqno ->| |by intros s1 s2 vk ->].
  intros s1 s2 msg ->. by destruct (snark_insert_inbox_message s2 msg).
Qed.

#[export] Instance same_wrapper_sim n : AccountSim (same_wrapper n).
Proof.
  split.
  - intros E c w1 w2 [-> Hn]. split; [done|]. intros _. split; [done|]. simpl. unfold on_inner_account, acct_add_balance. simpl.
    unfold add_balance. by destruct (amt_checked_add _ _).
  - intros amt w1 w2 [-> Hn]. split; [done|]. intros _. split; [done|]. simpl. unfold on_inner_account, acct_take_balance. simpl.
    unfold take_balance. by destruct (amt_checked_sub _ _).
  - intros w1 w2 [-> Hn]. simpl. destruct (iam_snark_wrapper w2) as [s|].
    + eapply borrow_sim_ok; [apply wrapper_snark_sim|done|]. by intros s1 s2 ->.
    + destruct (acct_state (iam_inner w2)) as [|s]; simpl; [apply borrow_sim_err|].
      eapply borrow_sim_ok; [apply wrapper_snark_sim|done|]. by intros s1 s2 ->.
Qed.

(** Computations that agree leave the same account and the same records. *)
Lemma indexed_same {E Q V} id (f1 f2 : M E (IndexerAccountStateMut OLAccountState) Q)
    (out : res E Q -> OLAccountState * IndexerWrites * bool -> V) a :
  acct_agree f1 f2 ->
  indexed id f1 out a = indexed id f2 out a /\ acct_serial (snd (indexed id f1 out a)) = acct_serial a.
Proof.
  intros Hf. set (w := IndexerAccountStateMut_new a id).
  destruct (Hf (same_wrapper (acct_serial a)) _ w w) as [Hr Hs]; [done|]. unfold indexed. fold w.
  destruct (f1 w) as [r1 w1], (f2 w) as [r2 w2]. simpl in Hr, Hs. subst r2.
  destruct r1 as [q|e|]; [| |done]; destruct (Hs ltac:(done)) as [<- Hn]; (split; [done|]).
  all: unfold IndexerAccountStateMut_into_parts; destruct (iam_snark_wrapper w1) as [[inner aid ws []]|]; simpl.
  all: first [by destruct (acct_state (iam_inner w1))|by destruct (iam_modified w1)].
Qed.
End accounts.

(** ** Twins *)

Section twin.
Context `{XR : ExtRoot} `{CE : !CodecExt} `{DE : !DaExt} `{!SerialLaws X, !MsgCodecLaws X}.
Context (m : MemoryStateBaseLayer).

Abbreviation Staged := (DaAccumulatingState (WriteTrackingState MemoryStateBaseLayer)) (only parsing).
Abbreviation Replayed := (DaAccumulatingState MemoryStateBaseLayer) (only parsing).

Definition twin (d : Staged) (w : Replayed) : Prop :=
  das_epoch_acc d = das_epoch_acc w /\
  exists l, wt_refines (at_base m) (das_inner d) l /\ mem_refines (das_inner w) l.

#[local] Instance twin_read_sim : ReadSim twin.
Proof.
  pose proof (@ss_read _ _ _ _ _ _ (wt_refines (at_base m)) _) as H1.
  pose proof (@ss_read _ _ _ _ _ _ mem_refines _) as H2.
  split; intros d w; [| | | | | | | | |intros i| |intros i|intros i|intros i| |]; intros [_ (l & Hd & Hw)].
  10: { intros Hi. etransitivity; [by apply H1|symmetry; by apply H2]. }
  all: etransitivity; [by apply H1|symmetry; by apply H2].
Qed.

(** What the accumulator does not see. *)
Lemma on_da_twin {E Q} (m1 : M E (WriteTrackingState MemoryStateBaseLayer) Q) (m2 : M E MemoryStateBaseLayer Q) (ml : M E LState Q) :
  sim (wt_refines (at_base m)) m1 ml -> sim mem_refines m2 ml -> sim twin (on_da m1) (on_da m2).
Proof.
  intros H1 H2 d w [Ha (l & Hd & Hw)]. unfold on_da. destruct (H1 _ _ Hd) as [Hr1 Hs1], (H2 _ _ Hw) as [Hr2 Hs2].
  destruct (m1 (das_inner d)) as [r1 d'], (m2 (das_inner w)) as [r2 w'], (ml l) as [r l']. simpl in *. subst r r2.
  split; [done|]. intros Hp. split; [done|]. exists l'. auto.
Qed.

(** What the accumulator does: the same, with an error or without. *)
Lemma accumulate_twin {E} (op1 op2 : M DaAccumulationError EpochDaAccumulator unit) :
  (forall c, op1 c = op2 c) -> sim twin (accumulate (E := E) op1) (accumulate op2).
Proof.
  intros Hop d w [Ha Hl]. unfold accumulate. rewrite Hop, Ha. destruct (op2 (das_epoch_acc w)) as [[u|e|] c]; [done| |done].
  split; [done|]. intros _. unfold set_epoch_error. simpl. split; [|]; by destruct (das_pending_epoch_error d), (das_pending_epoch_error w).
Qed.

Lemma update_delta_ext {S1 S2} `{!IStateAccessor S1, !IStateAccessor S2} (s1 : S1) (s2 : S2) id a w d :
  (forall id, check_account_exists s1 id = check_account_exists s2 id) ->
  update_delta s1 id a w d = update_delta s2 id a w d.
Proof.
  intros Hx. unfold update_delta. destruct (negb _); [done|].
  match goal with |- match ?r with _ => _ end = _ => destruct r as [d'|e|]; [|done..] end.
  revert d'. induction (iw_inbox_messages w) as [|msg l IH]; intros d'; simpl; [done|]. unfold mbind.
  assert (Hm : record_message s1 id msg d' = record_message s2 id msg d').
  { unfold record_message, check_message_source. by rewrite Hx. }
  rewrite Hm. destruct (record_message s2 id msg d') as [[]]; [apply IH|done..].
Qed.

Lemma record_account_update_ext {S1 S2} `{!IStateAccessor S1, !IStateAccessor S2} (s1 : S1) (s2 : S2) id a w c :
  (forall id, check_account_exists s1 id = check_account_exists s2 id) ->
  record_account_update s1 id a w c = record_account_update s2 id a w c.
Proof.
  intros Hx. unfold record_account_update. destruct (acc_account_deltas c !! id) as [d|]; [|done].
  by rewrite (update_delta_ext s1 s2 id a w d Hx).
Qed.

(** Updating an account over both layers. *)
Lemma update_twin {E Q} id (f1 f2 : M E OLAccountState Q) :
  (forall a, f1 a = f2 a /\ acct_serial (snd (f1 a)) = acct_serial a) ->
  sim twin (on_da (update_account (S := WriteTrackingState MemoryStateBaseLayer) id f1))
    (on_da (update_account (S := MemoryStateBaseLayer) id f2)).
Proof.
  intros Hf d w [Ha (l & Hd & Hw)]. unfold on_da.
  pose proof (ll_update (LedgerLayer := wt_ledger_layer (at_base m)) id f1 _ _ Hd) as H1.
  pose proof (ll_update (LedgerLayer := mem_ledger_layer) id f2 _ _ Hw) as H2. unfold updates_like in H1, H2.
  destruct (ls_accts l !! id) as [a|].
  - destruct H1 as (a1 & put1 & -> & -> & Hp1), H2 as (a2 & put2 & -> & -> & Hp2). destruct (Hf a) as [He Hn]. unfold run_account.
    rewrite <- He. destruct (f1 a) as [[q|e|] a']; simpl in *; (split; [done|]); intros Hp; try done.
    all: split; [done|]; exists (ls_set_accts l (<[id := a']> (ls_accts l))); simpl; split; [by apply Hp1|by apply Hp2].
  - destruct H1 as (s1 & -> & Hs1), H2 as (s2 & -> & Hs2). simpl. split; [done|]. intros _. split; [done|]. by exists l.
Qed.

Lemma da_update_twin {E Q} id (f1 f2 : M E (IndexerAccountStateMut OLAccountState) Q) :
  acct_agree f1 f2 -> sim twin (da_update_account (S := WriteTrackingState MemoryStateBaseLayer) id f1)
    (da_update_account (S := MemoryStateBaseLayer) id f2).
Proof.
  intros Hf. unfold da_update_account. apply sim_mbind.
  { apply sim_mreads_res. intros d w Hdw. exact (rs_get_account_state _ _ id Hdw). }
  intros o. apply sim_mbind; [destruct o; [by apply accumulate_twin|apply sim_mret]|]. intros _.
  apply sim_mbind; [apply update_twin; intros a; by apply indexed_same|].
  intros [[[r ws] post]|e|]; [|apply sim_mret|by intros d w Hdw].
  apply sim_mbind; [|intros _; apply sim_mret]. destruct post as [post|]; [|apply sim_mret].
  intros d w Hdw. apply accumulate_twin; [|exact Hdw]. intros c. apply record_account_update_ext. intros id'.
  exact (rs_check_account_exists _ _ id' Hdw).
Qed.

#[export] Instance twin_sim : PredrainSim twin.
Proof.
  split; [apply _|..].
  - intros v. apply sim_mbind; [apply sim_mreads, rs_cur_slot|]. intros prior.
    apply sim_mbind; [by apply accumulate_twin|]. intros _. eapply on_da_twin; apply ss_set_cur_slot.
  - intros c. apply sim_mbind; [apply sim_mreads, rs_limbo_funds|]. intros prior.
    apply sim_mbind; [eapply on_da_twin; apply ss_add_limbo_funds_coin|]. intros _.
    apply sim_mbind; [apply sim_mreads, rs_limbo_funds|]. intros new. by apply accumulate_twin.
  - intros h r. eapply on_da_twin; apply ss_append_l1_block_rec.
  - intros e. eapply on_da_twin; apply ss_try_append_pending_asm_log.
  - intros E Q id f1 f2 Hf. by apply da_update_twin.
Qed.

Lemma twin_restore d w :
  twin d w -> twin (staging_of m (wt_batch (das_inner d)) (das_epoch_acc d)) w.
Proof.
  intros [Ha (l & Hd & Hw)]. split; [done|]. exists l. split; [|done]. simpl. destruct Hd as [ab [<- Hb] Hfit ->]. by exists ab.
Qed.
End twin.

(** ** A block, assembled and replayed *)

Section replay.
Context `{XR : ExtRoot} `{CE : !CodecExt} `{DE : !DaExt} `{AX : !AssemblyExt} `{FX : !FcmExt}.
Context `{!SerialLaws X, !MsgCodecLaws X, !EnvelopeLaws X}.

(** A computation that returns below returns above. *)
Lemma sim_run_back {E T U A} (R : T -> U -> Prop) (mt : M E T A) (mu : M E U A) t u r u' :
  sim R mt mu -> R t u -> mu u = (Ok r, u') -> exists t', mt t = (Ok r, t') /\ R t' u'.
Proof.
  intros Hs Hr Hu. destruct (Hs t u Hr) as [He Hx]. rewrite Hu in He, Hx. destruct (mt t) as [r' t']. simpl in *. subst r'.
  exists t'. split; [done|]. by apply Hx.
Qed.

(** Buffering manifests accumulates nothing. *)
Definition same_acc (d d' : DaAccumulatingState MemoryStateBaseLayer) : Prop := das_epoch_acc d' = das_epoch_acc d.

#[local] Instance same_acc_preorder : PreOrder same_acc.
Proof. split; [done|]. intros x y z. unfold same_acc. congruence. Qed.

Lemma on_da_same_acc {E A} (mm : M E MemoryStateBaseLayer A) : keeps same_acc (on_da mm).
Proof. intros d. unfold on_da. by destruct (mm (das_inner d)). Qed.

Lemma manifests_same_acc mfs : keeps same_acc (process_block_manifests mfs).
Proof.
  unfold process_block_manifests. apply keeps_mbind; [apply _|apply keeps_mreads, _|]. intros h.
  apply keeps_miteri; [apply _|]. intros i mf. apply keeps_mbind; [apply _|apply keeps_mlift, _|]. intros real.
  destruct (negb _); [apply keeps_merr, _|]. unfold handle_asm_manifest. apply keeps_mbind; [apply _| |intros _].
  - apply keeps_miter; [apply _|]. intros log. apply keeps_mmap_err, on_da_same_acc.
  - apply keeps_mmap_err, on_da_same_acc.
Qed.

Lemma block_start_coords {S} `{!IStateAccessorMut S} c1 c2 (s : S) :
  bc_slot c1 = bc_slot c2 -> bc_epoch c1 = bc_epoch c2 -> bc_parent_header c1 = bc_parent_header c2 ->
  process_block_start c1 s = process_block_start c2 s.
Proof. intros H1 H2 H3. unfold process_block_start, check_block_coords. by rewrite H1, H2, H3. Qed.

Context {P : Type} `{!EpochSealingPolicy P} {C : Type} `{BC : !BlockAssemblyContext C MemoryStateBaseLayer}.

Lemma build_block_template_header (ctx : C) config bctx ph (m : MemoryStateBaseLayer) batch logs txs is_terminal mfs tpl post :
  bc_parent_header bctx = Some ph ->
  build_block_template ctx config bctx m batch logs txs is_terminal mfs = Ok (tpl, post) ->
  hdr_slot (tpl_header tpl) = bc_slot bctx /\ hdr_epoch (tpl_header tpl) = bc_epoch bctx /\
  hdr_parent_blkid (tpl_header tpl) = compute_blkid ph /\ body_manifests (tpl_body tpl) = mfs.
Proof.
  intros Hph H. unfold build_block_template in H. repeat first
    [ match type of H with (let '(_, _) := ?t in _) = _ => destruct t end
    | match type of H with res_bind ?r _ = _ => destruct r eqn:?; [|done..]; cbn [res_bind] in H end ].
  injection H as <- _. unfold compute_parent_blkid. rewrite Hph. by destruct mfs.
Qed.

(** Initializing a block over the stage and over the replay. *)
Lemma initialization_twin m a (d0 : DaAccumulatingState MemoryStateBaseLayer) bctx da batch da' :
  mem_refines m a -> das_inner d0 = m -> das_epoch_acc d0 = add_accumulator da ->
  execute_block_initialization (E := BlockAssemblyError) m bctx da = Ok (batch, da') ->
  exists w, process_block_start bctx d0 = (Ok tt, w) /\ twin m (staging_of m batch (add_accumulator da')) w /\
    add_logs_of da' = add_logs_of da.
Proof.
  intros Hm Hi Hacc H. unfold execute_block_initialization in H. set (dw := DaAccumulatingState_new_with_accumulator _ _) in H.
  assert (Hd0 : twin m dw d0).
  { split; [done|]. exists a. rewrite Hi. split; [|done]. simpl. apply (wt_refines_empty (at_base m)). by split. }
  destruct (expect_phase (process_block_start bctx dw)) as [d1|e|] eqn:H1; [|done..]. cbn [res_bind] in H.
  apply expect_phase_ok in H1 as [[] H1].
  destruct (sim_run _ _ _ _ _ _ _ (process_block_start_sim (twin m) bctx) Hd0 H1 ltac:(done)) as (w & Hw & Hx).
  exists w. split; [done|]. apply twin_restore in Hx. unfold get_epoch_initial_context in H.
  destruct (is_epoch_initial bctx); cbn [res_bind] in H; [|by injection H as <- <-].
  destruct (expect_phase (process_epoch_initial _ d1)) as [d2|e|] eqn:H2; [|done..]. cbn [res_bind] in H.
  apply expect_phase_ok in H2 as [[] H2]. apply process_epoch_initial_same in H2 as ->. by injection H as <- <-.
Qed.

Lemma epoch_initial_same {S} `{!IStateAccessorMut S} bctx (s s' : S) u :
  epoch_initial_if_needed bctx s = (Ok u, s') -> s' = s.
Proof.
  unfold epoch_initial_if_needed. destruct (is_epoch_initial bctx); [|by intros [= _ <-]].
  intros H. apply mbind_returns in H as (ic & s1 & H1 & H2). unfold mlift in H1. injection H1 as _ <-.
  by eapply process_epoch_initial_same.
Qed.

Lemma check_state_root_same {S} `{!IStateAccessorMut S} root (s s' : S) u :
  check_state_root root s = (Ok u, s') -> s' = s.
Proof.
  unfold check_state_root. intros H. apply mbind_returns in H as (r & s1 & H1 & H2). unfold mreads_res in H1. injection H1 as _ <-.
  destruct (negb _); [done|]. by injection H2 as _ <-.
Qed.

(** What a replay of a block accumulates is what its transactions accumulate. *)
Lemma predrain_accumulates (d0 w1 w2 d1 : DaAccumulatingState MemoryStateBaseLayer) header ph body bp txs logs logs' :
  let bctx := {| bc_block_info := BlockInfo_from_header header; bc_parent_header := Some ph |} in
  process_block_start bctx d0 = (Ok tt, w1) -> body_tx_segment body = Some txs ->
  process_block_tx_segment txs
    {| tec_basic_context := with_bridge_params (BasicExecContext_new (BlockInfo_from_header header)) bp; tec_parent_header := Some ph |}
    {| xs_state := w1; xs_out := [] |} = (Ok tt, {| xs_state := w2; xs_out := logs |}) ->
  verify_block_predrain header (Some ph) body bp d0 = (Ok logs', d1) ->
  logs' = logs /\ das_epoch_acc d1 = das_epoch_acc w2.
Proof.
  intros bctx Hst Htx Hseg H. unfold verify_block_predrain in H.
  apply mbind_returns in H as (? & s & H1 & H). unfold mlift in H1. injection H1 as _ <-.
  apply mbind_returns in H as (? & s & H1 & H). unfold mlift in H1. injection H1 as _ <-.
  apply mbind_returns in H as (c & s & H1 & H). unfold mlift, BlockContext_new in H1. simpl in H1. injection H1 as <- <-.
  apply mbind_returns in H as (? & s & H1 & H). apply epoch_initial_same in H1 as ->.
  fold bctx in H. rewrite (mbind_ok _ _ _ _ _ Hst) in H. apply mbind_returns in H as ([? lg] & s & H1 & H).
  apply with_fresh_output_inv in H1. unfold exec_body in H1. rewrite Htx in H1. rewrite (mbind_ok _ _ _ _ _ Hseg) in H1.
  assert (Hl : lg = logs /\ das_epoch_acc s = das_epoch_acc w2).
  { destruct (body_manifests body) as [mfs|]; [|by injection H1 as _ <- <-].
    apply lift_exec_returns in H1 as (s2 & Hm & Heq). injection Heq as -> ->. split; [done|].
    exact (keeps_ok _ _ _ _ _ (manifests_same_acc mfs) Hm). }
  destruct Hl as [-> Hs]. apply mbind_returns in H as (? & s3 & H1' & H). injection H as <- <-. split; [done|].
  rewrite <- Hs. destruct (negb _); [by apply check_state_root_same in H1' as ->|by injection H1' as _ <-].
Qed.

(** What replaying the assembled block on the parent's replay gives. *)
Record replays_as (ctx : C) (config : BlockGenerationConfig) (bp : BridgeParams) (d0 : DaAccumulatingState MemoryStateBaseLayer)
    (rs : EpochResourceState) (epoch : Epoch) (ph : OLBlockHeader) (tpl : FullBlockTemplate) (rs' : EpochResourceState) : Prop := {
  ra_header : ba_get_ol_header (S := MemoryStateBaseLayer) ctx (obc_blkid (bgc_parent_block_commitment config)) = Ok (Some ph);
  ra_parent : hdr_parent_blkid (tpl_header tpl) = compute_blkid ph;
  ra_epoch : hdr_epoch (tpl_header tpl) = epoch /\ epoch = hdr_epoch ph + b2z (hdr_is_terminal ph);
  ra_count : ers_manifest_count rs' = ers_manifest_count rs + zlen (default [] (body_manifests (tpl_body tpl)));
  ra_u32 : ers_manifest_count rs' <= U32_MAX;
  ra_run : exists logs d1, verify_block_predrain (tpl_header tpl) (Some ph) (tpl_body tpl) bp d0 = (Ok logs, d1) /\
    das_epoch_acc d1 = add_accumulator (ers_da rs') /\ add_logs_of (ers_da rs') = add_logs_of (ers_da rs) ++ logs;
}.

Lemma verify_block_predrain_ok {S} `{!IStateAccessorMut S} header parent body bp (s s' : S) logs :
  verify_block header parent body bp s = (Ok logs, s') ->
  exists l1 s1, verify_block_predrain header parent body bp s = (Ok l1, s1).
Proof. unfold verify_block. intros H. apply mbind_returns in H as (l1 & s1 & H1 & _). by exists l1, s1. Qed.

(** A block that verifies on the in-memory state is replayed over it. *)
Lemma replay_runs m a (d0 : DaAccumulatingState MemoryStateBaseLayer) header parent body bp logs m1 :
  mem_refines m a -> keys_ok a -> das_inner d0 = m -> das_pending_epoch_diffs d0 = [] -> das_pending_epoch_blobs d0 = [] ->
  acc_bounded (das_epoch_acc d0) ->
  verify_block_predrain header parent body bp m = (Ok logs, m1) ->
  exists d1, verify_block_predrain header parent body bp d0 = (Ok logs, d1).
Proof.
  intros Hm Hk Hi Hd Hbl Hb H.
  destruct (sim_run _ _ _ _ _ _ _ (verify_block_predrain_sim mem_refines header parent body bp) Hm H ltac:(done)) as (a1 & Ha & _).
  assert (Hr : da_refines mem_refines False a d0 a) by (split; try done; by rewrite Hi).
  pose proof (da_predrain_sim mem_refines eq eq False a) as Hsim.
  destruct (sim_run_back _ _ _ _ _ _ _ (verify_block_predrain_sim (da_refines mem_refines False a) header parent body bp) Hr Ha) as (d1 & Hd1 & _).
  by exists d1.
Qed.

Lemma block_start_epoch {S} `{!IStateAccessorMut S} bctx ph (s s' : S) u :
  bc_parent_header bctx = Some ph -> process_block_start bctx s = (Ok u, s') ->
  bc_epoch bctx = hdr_epoch ph + b2z (hdr_is_terminal ph).
Proof.
  unfold process_block_start. intros Hph H. apply mbind_returns in H as (? & s1 & H1 & _). unfold mlift in H1. injection H1 as H1 _.
  unfold check_block_coords in H1. rewrite Hph in H1. unfold checked_add_u32 in H1. destruct (_ <=? U32_MAX); [|done].
  cbn [ok_or res_bind] in H1. destruct (Z.eqb_spec (bc_epoch bctx) (hdr_epoch ph + b2z (hdr_is_terminal ph))); [done|]. done.
Qed.

Lemma construct_block_replays (ctx : C) (policy : P) config m a (d0 : DaAccumulatingState MemoryStateBaseLayer) slot epoch txs rs bp out :
  mem_refines m a -> keys_ok a -> das_inner d0 = m -> das_pending_epoch_diffs d0 = [] -> das_pending_epoch_blobs d0 = [] ->
  acc_bounded (das_epoch_acc d0) -> add_accumulator (ers_da rs) = das_epoch_acc d0 -> epoch <> 0 ->
  (forall id ph, ba_get_ol_header (S := MemoryStateBaseLayer) ctx id = Ok (Some ph) -> header_bounded ph) ->
  construct_block ctx policy config m slot epoch txs rs bp = Ok out ->
  exists ph, replays_as ctx config bp d0 rs epoch ph (cbo_template out) (cbo_resource_state out).
Proof.
  intros Hm Hk Hi Hdf Hbl Hb Hacc He Hhb H. rewrite <- Hacc in Hb.
  pose proof (construct_block_sound ctx policy config m a slot epoch txs rs bp out Hm Hk Hb He Hhb H) as (ph' & vlogs & vtxs & Hph' & Hver & _).
  apply verify_block_predrain_ok in Hver as (tlogs & m1 & Hpre).
  destruct (replay_runs m a d0 _ _ _ bp _ _ Hm Hk Hi Hdf Hbl ltac:(by rewrite <- Hacc) Hpre) as (d1 & Hd1).
  unfold construct_block in H. destruct (obc_is_null _); [done|]. unfold fetch_ol_header in H. rewrite Hph' in H.
  cbn [res_map_err ok_or res_bind] in H. unfold BlockContext_new in H. cbn [andb res_bind] in H. set (bctx := {| bc_block_info := _; bc_parent_header := _ |}) in H.
  destruct (execute_block_initialization m bctx (ers_da rs)) as [[batch da]|e|] eqn:Hinit; [|done..]. cbn [res_bind] in H.
  destruct (initialization_twin m a d0 bctx _ batch da Hm Hi (eq_sym Hacc) Hinit) as (w1 & Hstart & Htw & Hlogs).
  destruct (process_transactions _ _ _ _ _ _ _ _ _) as [[pto logs]|e|] eqn:Hpt; [|done..]. cbn [res_bind] in H.
  destruct (fetch_asm_manifests_for_block _ _ _ _) as [sel|e|]; [|done..]. cbn [res_bind] in H.
  match type of H with res_bind ?r _ = _ => destruct r as [mc|e|] eqn:Hmc; [|done..] end. cbn [res_bind] in H.
  destruct (build_block_template _ _ _ _ _ _ _ _ _) as [[tpl post]|e|] eqn:Hbt; [|done..]. cbn [res_bind] in H.
  unfold checked_add_u32 in H. destruct (Z.leb_spec (ers_manifest_count rs + zlen (sel_manifests sel)) U32_MAX) as [Hle|]; [|done].
  cbn [expect res_bind] in H. injection H as <-. cbn [cbo_template cbo_resource_state] in *.
  destruct (build_block_template_header ctx config bctx ph' _ _ _ _ _ _ _ _ eq_refl Hbt) as (B1 & B2 & B3 & B4).
  pose proof (build_block_template_txs _ _ _ _ _ _ _ _ _ _ _ Hbt) as Btx.
  set (tx_ctx := {| tec_basic_context := with_bridge_params (BasicExecContext_new (BlockInfo_from_header (tpl_header tpl))) bp; tec_parent_header := Some ph' |}).
  destruct (process_transactions_sound m (twin m) (twin_restore m) ctx policy bctx (ers_manifest_count rs) bp tx_ctx batch txs da pto logs w1)
    as (w2 & d & Hd2 & _ & Hda & _ & Hlogs2 & Hseg); [by split; [symmetry; exact B2|]|done..|].
  assert (Hstart' : process_block_start {| bc_block_info := BlockInfo_from_header (tpl_header tpl); bc_parent_header := Some ph' |} d0 = (Ok tt, w1))
    by (rewrite <- Hstart; by apply block_start_coords).
  destruct (predrain_accumulates d0 w1 w2 d1 (tpl_header tpl) ph' (tpl_body tpl) bp _ logs tlogs Hstart' Btx Hseg Hd1) as [-> Hacc1].
  assert (Hcount : zlen (sel_manifests sel) = zlen (default [] mc)).
  { destruct (sel_manifests sel) as [|x l]; [by injection Hmc as <-|]. unfold OLAsmManifestContainer_new in Hmc.
    destruct (_ <=? _) in Hmc; [|done]. by injection Hmc as <-. }
  exists ph'. split; cbn [ers_da ers_manifest_count append_logs add_accumulator add_logs_of]; try done.
  - split; [done|]. exact (block_start_epoch bctx ph' d0 w1 tt eq_refl Hstart).
  - by rewrite B4, Hcount.
  - exists logs, d1. split; [done|]. rewrite Hacc1, Hda, Hlogs2, Hlogs. split; [|done]. destruct Hd2 as [Heq _]. by rewrite Heq.
Qed.

(** ** Epochs *)

Definition last_header (parent : OLBlockHeader) (blocks : list OLBlock) : OLBlockHeader :=
  match last blocks with Some b => blk_header b | None => parent end.

Lemma batch_predrain_snoc {S} `{!IStateAccessorMut S} bp b blocks : forall parent (s s1 s2 : S) l1 l2,
  execute_block_batch_predrain blocks parent bp s = (Ok l1, s1) ->
  verify_block_predrain (blk_header b) (Some (last_header parent blocks)) (blk_body b) bp s1 = (Ok l2, s2) ->
  execute_block_batch_predrain (blocks ++ [b]) parent bp s = (Ok (l1 ++ l2), s2).
Proof.
  induction blocks as [|b0 blocks IH]; intros parent s s1 s2 l1 l2 H1 H2; simpl in *.
  - injection H1 as <- <-. rewrite (mbind_ok _ _ _ _ _ H2). unfold mbind, mret. by rewrite app_nil_r.
  - apply mbind_returns in H1 as (lg & t & Hb & H1). apply mbind_returns in H1 as (rest & t' & Hr & H1). injection H1 as <- <-.
    rewrite (mbind_ok _ _ _ _ _ Hb). erewrite (mbind_ok _ _ _ (rest ++ l2)); [unfold mret; by rewrite app_assoc|].
    eapply IH; [exact Hr|]. unfold last_header in *. destruct blocks as [|b1 blocks]; [done|].
    change (last (b0 :: b1 :: blocks)) with (last (b1 :: blocks)) in H2. destruct (last (b1 :: blocks)) as [b'|] eqn:Hl; [done|].
    by apply last_None in Hl.
Qed.

(** The storage of [ctx] grew to that of [ctx']. *)
Record knows (ctx ctx' : C) : Prop := {
  kn_block id b : ba_get_block_data (S := MemoryStateBaseLayer) ctx id = Ok (Some b) ->
    ba_get_block_data (S := MemoryStateBaseLayer) ctx' id = Ok (Some b);
  kn_header id h : ba_get_ol_header (S := MemoryStateBaseLayer) ctx id = Ok (Some h) ->
    ba_get_ol_header (S := MemoryStateBaseLayer) ctx' id = Ok (Some h);
  kn_state tip (s : MemoryStateBaseLayer) : ba_get_state_for_tip ctx tip = Some (Some s) ->
    ba_get_state_for_tip ctx' tip = Some (Some s);
}.

(** A walk that reached the boundary is the same walk over a grown storage; the
    newest block it found is the one it started from. *)
Lemma collect_until_knows ctx ctx' epoch fuel : forall acc id bs eph,
  knows ctx ctx' -> collect_until (S := MemoryStateBaseLayer) fuel epoch ctx acc id = Some (Ok (bs, eph)) ->
  exists l, bs = acc ++ l /\
    (exists b, ba_get_block_data (S := MemoryStateBaseLayer) ctx id = Ok (Some b) /\ (hdr_epoch (blk_header b) = epoch -> head l = Some b)) /\
    forall acc', collect_until (S := MemoryStateBaseLayer) fuel epoch ctx' acc' id = Some (Ok (acc' ++ l, eph)).
Proof.
  induction fuel as [|fuel IH]; intros acc id bs eph Hk H; [done|]. cbn [collect_until] in H |- *.
  unfold fetch_ol_block, fetch_ol_header in *.
  destruct (ba_get_block_data (S := MemoryStateBaseLayer) ctx id) as [[b|]|e|] eqn:Hb; [|done..]. rewrite (kn_block _ _ Hk _ _ Hb).
  cbn [res_map_err dbind ok_or] in H |- *.
  destruct (Z.eqb_spec (hdr_epoch (blk_header b)) epoch) as [He|He]; cbn [negb] in H |- *.
  2: { destruct (ensure_epoch_boundary _ _) as [u|e|]; [|done..]. cbn [dbind] in H |- *. injection H as <- <-.
       exists []. split_and!; [by rewrite app_nil_r|by exists b|]. intros acc'. by rewrite app_nil_r. }
  destruct (ba_get_ol_header _ _) as [[ph|]|e|] eqn:Hh; [|done..]. rewrite (kn_header _ _ Hk _ _ Hh).
  cbn [res_map_err dbind ok_or] in H |- *.
  destruct (negb (hdr_epoch ph =? epoch)).
  - destruct (ensure_epoch_boundary _ _) as [u|e|]; [|done..]. cbn [dbind] in H |- *. injection H as <- <-.
    exists [b]. split_and!; [done|by exists b|done].
  - apply IH in H as (l & -> & _ & Hc); [|done]. exists (b :: l). split_and!; [by rewrite <- app_assoc|by exists b|].
    intros acc'. by rewrite Hc, <- app_assoc.
Qed.

Lemma count_manifests_snoc b blocks : forall n n',
  0 <= n -> count_manifests n blocks = Ok n' ->
  n' + zlen (default [] (body_manifests (blk_body b))) <= U32_MAX ->
  0 <= n' /\ count_manifests n (blocks ++ [b]) = Ok (n' + zlen (default [] (body_manifests (blk_body b)))).
Proof.
  induction blocks as [|b0 blocks IH]; intros n n' Hn H Hle; simpl in *.
  - injection H as <-. split; [done|]. destruct (body_manifests (blk_body b)) as [mfs|]; simpl in *.
    + pose proof (zlen_nonneg mfs). rewrite (proj2 (Z.leb_le _ _)) by lia. unfold checked_add_u32.
      rewrite (proj2 (Z.leb_le _ _)) by lia. done.
    + f_equal. unfold zlen. simpl. lia.
  - destruct (body_manifests (blk_body b0)) as [mfs|]; [|by apply IH]. destruct (negb _); [done|].
    unfold checked_add_u32 in *. destruct (_ <=? U32_MAX); [|done]. cbn [ok_or res_bind] in *.
    apply IH; [|done..]. pose proof (zlen_nonneg mfs). lia.
Qed.

(** The parent [ph] with its state [m], as the storage has them. *)
Record stored_parent (fuel : nat) (ctx : C) (bp : BridgeParams) (ph : OLBlockHeader) (m : MemoryStateBaseLayer) : Prop := {
  sp_header : ba_get_ol_header (S := MemoryStateBaseLayer) ctx (compute_blkid ph) = Ok (Some ph);
  sp_block b : ba_get_block_data (S := MemoryStateBaseLayer) ctx (compute_blkid ph) = Ok (Some b) -> blk_header b = ph;
  sp_state : ba_get_state_for_tip ctx (compute_block_commitment ph) = Some (Some m);
  (** The state of a block is the one its epoch's replay leads to. *)
  sp_replayed eb m0 logs d : collect_epoch_blocks_until (S := MemoryStateBaseLayer) fuel (compute_blkid ph) (hdr_epoch ph) ctx = Some (Ok eb) ->
    fetch_state (eb_epoch_parent eb) ctx = Ok m0 ->
    execute_block_batch_predrain (eb_blocks eb) (eb_epoch_parent eb) bp (DaAccumulatingState_new m0) = (Ok logs, d) -> das_inner d = m;
  (** Stored states stand for ledgers. *)
  sp_ledger tip (s : MemoryStateBaseLayer) : ba_get_state_for_tip ctx tip = Some (Some s) -> exists a, mem_refines s a /\ keys_ok a;
}.

(** The resources the service builds on [ph] with. *)
Definition resources_at (fuel : nat) (ctx : C) (bp : BridgeParams) (ph : OLBlockHeader) (rs : EpochResourceState) : Prop :=
  if hdr_is_terminal ph then rs = EpochResourceState_new_empty
  else rebuild_epoch_resource_state_upto (S := MemoryStateBaseLayer) fuel (compute_block_commitment ph) (hdr_epoch ph) bp ctx = Some (Ok rs).

(** The replay of an epoch up to [ph], and how the walk of a child ends in it. *)
Record epoch_replay (fuel : nat) (ctx' : C) (bp : BridgeParams) (ph : OLBlockHeader) (m : MemoryStateBaseLayer) (rs : EpochResourceState)
    (blocks : list OLBlock) (eph : OLBlockHeader) (m0 : MemoryStateBaseLayer) (d : DaAccumulatingState MemoryStateBaseLayer) : Prop := {
  er_collect id b epoch : epoch = hdr_epoch ph + b2z (hdr_is_terminal ph) -> hdr_epoch (blk_header b) = epoch ->
    hdr_parent_blkid (blk_header b) = compute_blkid ph -> ba_get_block_data (S := MemoryStateBaseLayer) ctx' id = Ok (Some b) ->
    collect_until (S := MemoryStateBaseLayer) (Datatypes.S fuel) epoch ctx' [] id = Some (Ok (b :: rev blocks, eph));
  er_state : fetch_state eph ctx' = Ok m0;
  er_run : execute_block_batch_predrain blocks eph bp (DaAccumulatingState_new m0) = (Ok (add_logs_of (ers_da rs)), d);
  er_last : last_header eph blocks = ph;
  er_inner : das_inner d = m;
  er_acc : das_epoch_acc d = add_accumulator (ers_da rs);
  er_count : count_manifests 0 blocks = Ok (ers_manifest_count rs);
  er_refines : exists a0 a, da_refines mem_refines False a0 d a;
}.

Lemma fetch_state_knows ctx ctx' h (s : MemoryStateBaseLayer) : knows ctx ctx' -> fetch_state h ctx = Ok s -> fetch_state h ctx' = Ok s.
Proof.
  intros Hk. unfold fetch_state, fetch_state_for_tip. destruct (ba_get_state_for_tip ctx _) as [[s'|]|] eqn:H; [|done..].
  rewrite (kn_state _ _ Hk _ _ H). done.
Qed.

(** One step of the walk, from a child to its parent. *)
Lemma collect_child (ctx : C) fuel epoch id b ph :
  ba_get_block_data (S := MemoryStateBaseLayer) ctx id = Ok (Some b) -> hdr_epoch (blk_header b) = epoch ->
  hdr_parent_blkid (blk_header b) = compute_blkid ph -> ba_get_ol_header (S := MemoryStateBaseLayer) ctx (compute_blkid ph) = Ok (Some ph) ->
  collect_until (S := MemoryStateBaseLayer) (Datatypes.S fuel) epoch ctx [] id =
    if negb (hdr_epoch ph =? epoch) then
      let? _ := Some (ensure_epoch_boundary ph epoch) in Some (Ok ([b], ph))
    else collect_until (S := MemoryStateBaseLayer) fuel epoch ctx [b] (compute_blkid ph).
Proof.
  intros Hb He Hp Hh. cbn [collect_until]. unfold fetch_ol_block, fetch_ol_header. rewrite Hb. cbn [res_map_err dbind ok_or].
  rewrite He, Z.eqb_refl. cbn [negb]. rewrite Hp, Hh. done.
Qed.

Lemma epoch_replay_terminal fuel ctx ctx' bp ph m rs :
  stored_parent fuel ctx bp ph m -> knows ctx ctx' -> header_bounded ph -> hdr_is_terminal ph = true ->
  rs = EpochResourceState_new_empty -> epoch_replay fuel ctx' bp ph m rs [] ph m (DaAccumulatingState_new m).
Proof.
  intros [P1 P2 P3 P4 P5] Hk Hb Ht ->. split; try done.
  - intros id b epoch -> He Hp Hbl. rewrite (collect_child ctx' fuel _ id b ph Hbl He Hp (kn_header _ _ Hk _ _ P1)).
    rewrite Ht. unfold b2z. rewrite (proj2 (Z.eqb_neq _ _)) by lia. cbn [negb]. unfold ensure_epoch_boundary. rewrite Ht. cbn [negb orb].
    replace (hdr_epoch ph + 1 - 1) with (hdr_epoch ph) by lia.
    assert (wrap_u32 (hdr_epoch ph) = hdr_epoch ph) as -> by (destruct Hb as (_ & _ & _ & Hb); apply Z.mod_small; unfold_widths; lia). by rewrite Z.eqb_refl.
  - apply (fetch_state_knows ctx); [done|]. unfold fetch_state, fetch_state_for_tip. by rewrite P3.
  - destruct (P5 _ _ P3) as (a & Hm & Hka). exists a, a. by apply da_refines_new.
Qed.

Lemma epoch_replay_open fuel ctx ctx' bp ph m rs :
  stored_parent fuel ctx bp ph m -> knows ctx ctx' -> hdr_is_terminal ph = false -> 
  rebuild_epoch_resource_state_upto (S := MemoryStateBaseLayer) fuel (compute_block_commitment ph) (hdr_epoch ph) bp ctx = Some (Ok rs) ->
  exists blocks eph m0 d, epoch_replay fuel ctx' bp ph m rs blocks eph m0 d.
Proof.
  intros [P1 P2 P3 P4 P5] Hk Ht H. unfold rebuild_epoch_resource_state_upto in H. cbn [obc_blkid compute_block_commitment] in H.
  destruct (collect_epoch_blocks_until _ _ _ _) as [[eb|e|]|] eqn:Hc; [|done..]. cbn [dbind] in H.
  destruct (fetch_state (eb_epoch_parent eb) ctx) as [m0|e|] eqn:Hst; [|done..]. cbn [dbind] in H.
  destruct (execute_block_batch_predrain _ _ _ _) as [[logs|e|] d] eqn:Hrun; [|done..]. cbn [res_map_err dbind] in H.
  destruct (count_manifests 0 (eb_blocks eb)) as [n|e|] eqn:Hn; [|done..]. cbn [dbind] in H. injection H as <-.
  exists (eb_blocks eb), (eb_epoch_parent eb), m0, d. pose proof (P4 _ _ _ _ eq_refl Hst Hrun) as Hinner.
  unfold collect_epoch_blocks_until in Hc. destruct (_ =? 0); [done|].
  destruct (collect_until _ _ _ _ _) as [[[bs eph]|e|]|] eqn:Hcu; [|done..]. cbn [dbind fst snd] in Hc.
  apply (collect_until_knows ctx ctx') in Hcu as (l & -> & (b & Hb & Hhead) & Hcol); [|done]. simpl in Hc.
  destruct (rev l) as [|b0 bs] eqn:Hrev; [done|]. injection Hc as <-. cbn [eb_blocks eb_epoch_parent] in *.
  assert (Hl : l = rev (b0 :: bs)) by (by rewrite <- Hrev, rev_involutive).
  split; try done; cbn [ers_da ers_manifest_count add_logs_of add_accumulator].
  - intros id c epoch -> He Hp Hbl. rewrite (collect_child ctx' fuel _ id c ph Hbl He Hp (kn_header _ _ Hk _ _ P1)).
    rewrite Ht. unfold b2z. rewrite Z.add_0_r, Z.eqb_refl. cbn [negb]. rewrite Hcol, Hl. done.
  - by apply (fetch_state_knows ctx).
  - pose proof (P2 _ Hb) as Hph. rewrite Hph in Hhead. specialize (Hhead eq_refl).
    destruct l as [|b' l]; [done|]. injection Hhead as ->. unfold last_header. rewrite <- Hrev. simpl. by rewrite last_snoc.
  - unfold fetch_state, fetch_state_for_tip in Hst. destruct (ba_get_state_for_tip ctx (compute_block_commitment eph)) as [[s'|]|] eqn:Htip; [|done..].
    cbn [ok_or res_bind] in Hst. injection Hst as ->. destruct (P5 _ _ Htip) as (a & Hm & Hka).
    pose proof (da_predrain_sim mem_refines eq eq False a) as Hsim.
    destruct (sim_run _ _ _ _ _ _ _ (execute_block_batch_predrain_sim (da_refines mem_refines False a) _ _ bp)
      (da_refines_new mem_refines False m0 a Hm Hka) Hrun ltac:(done)) as (a' & _ & Hr).
    by exists a, a'.
Qed.

(** C17: the resource state that block assembly threads on from its parent's is the
    one that replaying the epoch rebuilds, once the block is stored: the DA
    accumulator, the logs and the manifest count agree, whatever transactions were
    rolled back on the way and whether or not accumulation met an error. *)
Theorem threaded_resources_rebuilt fuel (ctx ctx' : C) (policy : P) config ph m slot epoch txs rs bp out signature :
  bgc_parent_block_commitment config = compute_block_commitment ph ->
  stored_parent fuel ctx bp ph m -> epoch <> 0 ->
  (forall id h, ba_get_ol_header (S := MemoryStateBaseLayer) ctx id = Ok (Some h) -> header_bounded h) ->
  resources_at fuel ctx bp ph rs ->
  construct_block ctx policy config m slot epoch txs rs bp = Ok out ->
  let block := complete_block_template (cbo_template out) signature in
  knows ctx ctx' -> ba_get_block_data (S := MemoryStateBaseLayer) ctx' (compute_blkid (blk_header block)) = Ok (Some block) ->
  rebuild_epoch_resource_state_upto (S := MemoryStateBaseLayer) (Datatypes.S fuel) (compute_block_commitment (blk_header block)) epoch bp ctx'
    = Some (Ok (cbo_resource_state out)).
Proof.
  intros Hcfg Hsp He Hhb Hrs Hcb block Hk Hblk. pose proof (sp_header _ _ _ _ _ Hsp) as Hph.
  assert (Hrep : exists blocks eph m0 d, epoch_replay fuel ctx' bp ph m rs blocks eph m0 d).
  { unfold resources_at in Hrs. destruct (hdr_is_terminal ph) eqn:Ht; [|by eapply epoch_replay_open].
    eexists _, _, _, _. eapply epoch_replay_terminal; [exact Hsp|exact Hk|by eapply Hhb|done|exact Hrs]. }
  destruct Hrep as (blocks & eph & m0 & d & [R1 R2 R3 R4 R5 R6 R7 (a0 & a & [D1 D2 D3 D4 D5 _])]). rewrite R5 in D1.
  destruct (construct_block_replays ctx policy config m a d slot epoch txs rs bp out D1 D4 R5 D2 D3 D5 (eq_sym R6) He Hhb Hcb)
    as (ph' & [A1 A2 [A3 A4] A5 A6 (logs & d1 & A7 & A8 & A9)]).
  rewrite Hcfg in A1. simpl in A1. rewrite Hph in A1. injection A1 as <-.
  unfold rebuild_epoch_resource_state_upto, collect_epoch_blocks_until. rewrite (proj2 (Z.eqb_neq epoch 0)) by done.
  cbn [obc_blkid compute_block_commitment]. rewrite (R1 _ block epoch A4 A3 A2 Hblk). cbn [dbind fst snd].
  assert (Hrev : rev (block :: rev blocks) = blocks ++ [block]) by (simpl; by rewrite rev_involutive). rewrite Hrev.
  assert (Hne : forall (k : list OLBlock -> option (res BlockAssemblyError EpochBlocks)),
    match blocks ++ [block] with [] => Some (Err BaOther) | l => k l end = k (blocks ++ [block])) by (intros k; by destruct blocks).
  rewrite (Hne (fun l => Some (Ok {| eb_blocks := l; eb_epoch_parent := eph |}))). cbn [dbind eb_epoch_parent eb_blocks].
  rewrite R2. cbn [dbind]. rewrite <- R4 in A7.
  rewrite (batch_predrain_snoc bp block blocks eph _ _ _ _ _ R3 A7). cbn [res_map_err dbind].
  rewrite A5 in A6. destruct (count_manifests_snoc block blocks 0 _ ltac:(done) R7 A6) as [_ ->]. cbn [dbind].
  rewrite A8. do 2 f_equal. destruct (cbo_resource_state out) as [[acc lg] n]. simpl in *. by rewrite A9, A5.
Qed.
End replay.
