(* ===== verification/SnarkRuntime.v ===== *)
(** * The snark account runtime ([crates/snark-acct-runtime])

    A snark account is driven by a program: its state, the messages it
    recognizes, and what an update does.  Inside a proof an update is verified
    message by message with secret inputs; outside, its effect is reconstructed
    from the data the ledger publishes.  The update builder prepares both.  A
    program is an instance of two classes, as it implements two traits in the
    source; the archived forms of the private inputs have the same content as the
    inputs themselves and are not told apart.  What decoders report is not
    modelled beyond success. *)

From S2P Require Import Prelude Identifiers AcctTypes ChainTypes Externals CodecTypes.

(** An operation on one component of a pair of states. *)
Definition on_fst {E A B R} (m : M E A R) : M E (A * B) R := fun s => let '(r, a) := m (fst s) in (r, (a, snd s)).
Definition on_snd {E A B R} (m : M E B R) : M E (A * B) R := fun s => let '(r, b) := m (snd s) in (r, (fst s, b)).

(** ** [errors.rs] *)

Inductive ProgramError {ET : ExtTypes} (I : Type) :=
| PeMismatchedPreState
| PeMismatchedPostState
| PeInconsistentMessageCount
| PeMismatchedCoinputCount (expected actual : Z)
| PeMalformedCoinput
| PeMismatchedCoinput
| PeInvalidCoinput
| PeMalformedExtraData
| PeInvalidExtraData
| PeUnsatisfiedObligations
| PeAtMessage (idx : Z) (inner : ProgramError I)
| PeCodec (e : CodecError)
| PeSszDecode
| PeInternal (e : I).
Arguments PeMismatchedPreState {_ _}.
Arguments PeMismatchedPostState {_ _}.
Arguments PeInconsistentMessageCount {_ _}.
Arguments PeMismatchedCoinputCount {_ _} _ _.
Arguments PeMalformedCoinput {_ _}.
Arguments PeMismatchedCoinput {_ _}.
Arguments PeInvalidCoinput {_ _}.
Arguments PeMalformedExtraData {_ _}.
Arguments PeInvalidExtraData {_ _}.
Arguments PeUnsatisfiedObligations {_ _}.
Arguments PeAtMessage {_ _} _ _.
Arguments PeCodec {_ _} _.
Arguments PeSszDecode {_ _}.
Arguments PeInternal {_ _} _.

(** ** [message.rs], [ledger.rs], [private_input.rs] *)

Record MsgMeta := { mm_source : AccountId; mm_incl_epoch : Epoch; mm_value : BitcoinAmount }.

Record InputMessage (Msg : Type) := { im_meta : MsgMeta; im_decoded : option Msg }.
Arguments im_meta {_} _.
Arguments im_decoded {_} _.

Definition im_is_valid {Msg} (m : InputMessage Msg) : bool :=
  match im_decoded m with Some _ => true | None => false end.

Record Coinput := { ci_raw_data : bytes }.

Record PrivateInput := {
  pi_update_pub_params_ssz : bytes;
  pi_raw_pre_state : bytes;
  pi_coinputs : list Coinput;
}.

Section ledger_info.
Context {ET : ExtTypes}.

Record UpdateLedgerInfo := { uli_ledger_refs : LedgerRefs; uli_outputs : UpdateOutputs }.

Definition UpdateLedgerInfo_from_update (u : UpdateProofPubParams) : UpdateLedgerInfo :=
  {| uli_ledger_refs := upp_ledger_refs u; uli_outputs := upp_outputs u |}.

(** [snark-acct-types]: what the ledger holds and publishes. *)
Record SnarkAccountState := {
  sa_update_vk : bytes;
  sa_proof_state : ProofState;
  sa_seq_no : Seqno;
  sa_inbox_mmr : Mmr64;
}.

Record UpdateManifest := {
  um_new_state_root : option Buf32;
  um_extra_data : bytes;
  um_messages : list MessageEntry;
}.

Record UpdateStateData := { usd_proof_state : ProofState; usd_extra_data : bytes }.
Record UpdateInputData := { uid_seq_no : Z; uid_messages : list MessageEntry; uid_update_state : UpdateStateData }.
Record UpdateOperationData := { uod_input : UpdateInputData; uod_ledger_refs : LedgerRefs; uod_outputs : UpdateOutputs }.

(** The constructors panic if the lists exceed their bounds. *)
Definition UpdateStateData_new {E} (proof_state : ProofState) (extra_data : bytes) : res E UpdateStateData :=
  if negb (zlen extra_data <=? MAX_EXTRA_DATA_BYTES) then Panic
  else Ok {| usd_proof_state := proof_state; usd_extra_data := extra_data |}.

Definition UpdateInputData_new {E} (seq_no : Z) (messages : list MessageEntry) (update_state : UpdateStateData) : res E UpdateInputData :=
  if negb (zlen messages <=? MAX_PROCESSED_MESSAGES) then Panic
  else Ok {| uid_seq_no := seq_no; uid_messages := messages; uid_update_state := update_state |}.

Definition UpdateOperationData_new {E} (seq_no : Z) (proof_state : ProofState) (processed_messages : list MessageEntry)
    (ledger_refs : LedgerRefs) (outputs : UpdateOutputs) (extra_data : bytes) : res E UpdateOperationData :=
  let! update_state := UpdateStateData_new proof_state extra_data in
  let! input := UpdateInputData_new seq_no processed_messages update_state in
  Ok {| uod_input := input; uod_ledger_refs := ledger_refs; uod_outputs := outputs |}.

Definition uod_seq_no (op : UpdateOperationData) : Z := uid_seq_no (uod_input op).
Definition uod_new_proof_state (op : UpdateOperationData) : ProofState := usd_proof_state (uid_update_state (uod_input op)).
Definition uod_processed_messages (op : UpdateOperationData) : list MessageEntry := uid_messages (uod_input op).
Definition uod_extra_data (op : UpdateOperationData) : bytes := usd_extra_data (uid_update_state (uod_input op)).
End ledger_info.

(** The SSZ decoder of the public parameters. *)
Class RuntimeExt {ET : ExtTypes} := {
  pub_params_from_ssz_bytes : bytes -> option UpdateProofPubParams;
}.

(** ** [traits.rs] *)

(** [SnarkAccountProgram], with the traits of its state, messages and extra data. *)
Class SnarkAccountProgram {ET : ExtTypes} (P St Msg XD Er : Type) := {
  compute_state_root : St -> Buf32;
  state_as_ssz_bytes : St -> bytes;
  state_from_ssz_bytes : bytes -> option St;
  try_parse : bytes -> option Msg;
  extra_data_codec : CodecOf XD;
  start_update : P -> M (ProgramError Er) St unit;
  process_message : P -> InputMessage Msg -> M (ProgramError Er) St unit;
  pre_finalize_state : P -> XD -> M (ProgramError Er) St unit;
  finalize_state : P -> XD -> M (ProgramError Er) St unit;
}.

Class SnarkAccountProgramVerification {ET : ExtTypes} (P St Msg XD Er VS VI : Type) := {
  start_verification : P -> St -> VI -> UpdateLedgerInfo -> res (ProgramError Er) VS;
  verify_coinput : P -> St -> InputMessage Msg -> bytes -> M (ProgramError Er) VS unit;
  finalize_verification : P -> St -> VS -> XD -> res (ProgramError Er) unit;
}.

Section runtime.
Context {ET : ExtTypes} `{X : !Ext} `{CE : !CodecExt} `{RX : !RuntimeExt}.
Context {P St Msg XD Er : Type} `{SP : !SnarkAccountProgram P St Msg XD Er}.

Definition PrivateInput_new (update_pub_params : UpdateProofPubParams) (raw_pre_state : bytes) (coinputs : list Coinput)
    : PrivateInput :=
  {| pi_update_pub_params_ssz := ssz_pub_params update_pub_params; pi_raw_pre_state := raw_pre_state; pi_coinputs := coinputs |}.

Definition InputMessage_from_msg_entry (entry : MessageEntry) : InputMessage Msg :=
  {| im_meta := {| mm_source := me_source entry; mm_incl_epoch := me_incl_epoch entry; mm_value := mp_value (me_payload entry) |};
     im_decoded := try_parse (mp_data (me_payload entry)) |}.

(** ** [program_processing.rs]: reconstruction *)

Definition apply_update_unconditionally (program : P) (manifest : UpdateManifest) : M (ProgramError Er) St unit :=
  let* extra_data := mlift (res_map_err (fun _ => PeMalformedExtraData) (decode_buf_exact extra_data_codec (um_extra_data manifest))) in
  start_update program ;;;
  miteri (fun idx msg_entry =>
      mmap_err (PeAtMessage idx) (process_message program (InputMessage_from_msg_entry msg_entry)))
    0 (um_messages manifest) ;;;
  pre_finalize_state program extra_data ;;;
  finalize_state program extra_data ;;;
  let* root := mreads compute_state_root in
  match um_new_state_root manifest with
  | Some expected_root => if negb (root =? expected_root) then merr PeMismatchedPostState else mret tt
  | None => mret tt
  end.

(** ** [program_processing.rs]: verification *)

Context {VS VI : Type} `{SV : !SnarkAccountProgramVerification P St Msg XD Er VS VI}.

(** The account state and the verification state are changed together. *)
Definition on_vstate {A} (m : St -> M (ProgramError Er) VS A) : M (ProgramError Er) (St * VS) A :=
  let* st := mreads fst in on_snd (m st).

Definition verify_coinput_and_process_message (program : P) (msg_entry : MessageEntry) (raw_coinput : bytes)
    : M (ProgramError Er) (St * VS) unit :=
  let inp_msg := InputMessage_from_msg_entry msg_entry in
  if negb (im_is_valid inp_msg) && negb (bool_decide (raw_coinput = [])) then merr PeInvalidCoinput
  else
    on_vstate (fun st => verify_coinput program st inp_msg raw_coinput) ;;;
    on_fst (process_message program inp_msg).

(** The loop over the messages from index [i]; indexing past the coinputs panics. *)
Fixpoint verify_messages (program : P) (i : Z) (messages : list MessageEntry) (coinputs : list Coinput)
    : M (ProgramError Er) (St * VS) unit :=
  match messages, coinputs with
  | [], _ => mret tt
  | _ :: _, [] => mpanic
  | msg :: messages', ci :: coinputs' =>
      mmap_err (PeAtMessage i) (verify_coinput_and_process_message program msg (ci_raw_data ci)) ;;;
      verify_messages program (i + 1) messages' coinputs'
  end.

Definition verify_update_inner (program : P) (vinput : VI) (messages : list MessageEntry) (coinputs : list Coinput)
    (extra_data : XD) (ulinfo : UpdateLedgerInfo) : M (ProgramError Er) St unit := fun st =>
  match start_verification program st vinput ulinfo with
  | Err e => (Err e, st)
  | Panic => (Panic, st)
  | Ok vstate =>
      let '(r, s) :=
        (on_fst (start_update program) ;;;
         verify_messages program 0 messages coinputs ;;;
         on_fst (pre_finalize_state program extra_data) ;;;
         mreads_res (fun s => finalize_verification program (fst s) (snd s) extra_data) ;;;
         on_fst (finalize_state program extra_data)) (st, vstate) in
      (r, fst s)
  end.

Definition verify_and_process_update (program : P) (private_input : PrivateInput) (vinput : VI) : res (ProgramError Er) unit :=
  let! update := ok_or (pub_params_from_ssz_bytes (pi_update_pub_params_ssz private_input)) PeSszDecode in
  let! state := ok_or (state_from_ssz_bytes (pi_raw_pre_state private_input)) PeSszDecode in
  if negb (compute_state_root state =? ps_inner_state (upp_cur_state update)) then Err PeMismatchedPreState
  else
    let msg_count := zlen (upp_message_inputs update) in
    if negb (zlen (pi_coinputs private_input) =? msg_count) then
      Err (PeMismatchedCoinputCount msg_count (zlen (pi_coinputs private_input)))
    else if negb (wrap_u64 (ps_next_inbox_msg_idx (upp_cur_state update) + msg_count)
                  =? ps_next_inbox_msg_idx (upp_new_state update)) then Err PeInconsistentMessageCount
    else
      let! extra_data := res_map_err (fun _ => PeMalformedExtraData) (decode_buf_exact extra_data_codec (upp_extra_data update)) in
      let '(r, state) := verify_update_inner program vinput (upp_message_inputs update) (pi_coinputs private_input)
                           extra_data (UpdateLedgerInfo_from_update update) state in
      let! _ := r in
      if negb (compute_state_root state =? ps_inner_state (upp_new_state update)) then Err PeMismatchedPostState
      else Ok tt.

(** ** [update_builder.rs] *)

Record UpdateBuilder := {
  ub_program : P;
  ub_snark_state : SnarkAccountState;
  ub_pre_state : St;
  ub_cur_state : St;
  ub_vstate : VS;
  ub_messages : list MessageEntry;
  ub_coinputs : list bytes;
  ub_next_msg_idx : nat;
  ub_ledger_refs : LedgerRefs;
  ub_outputs : UpdateOutputs;
  ub_override_seq_no : option Seqno;
}.

Abbreviation B := (M (ProgramError Er) UpdateBuilder).

Definition UpdateBuilder_new (program : P) (snark_state : SnarkAccountState) (state : St) (vinput : VI)
    (ledger_refs : LedgerRefs) (outputs : UpdateOutputs) : res (ProgramError Er) UpdateBuilder :=
  if negb (compute_state_root state =? ps_inner_state (sa_proof_state snark_state)) then Err PeMismatchedPreState
  else
    let ulinfo := {| uli_ledger_refs := ledger_refs; uli_outputs := outputs |} in
    let! vstate := start_verification program state vinput ulinfo in
    let '(r, current_state) := start_update program state in
    let! _ := r in
    Ok {| ub_program := program; ub_snark_state := snark_state; ub_pre_state := state; ub_cur_state := current_state;
          ub_vstate := vstate; ub_messages := []; ub_coinputs := []; ub_next_msg_idx := 0;
          ub_ledger_refs := ledger_refs; ub_outputs := outputs; ub_override_seq_no := None |}.

Definition resolved_seq_no (b : UpdateBuilder) : Seqno := default (sa_seq_no (ub_snark_state b)) (ub_override_seq_no b).

Definition ub_with (b : UpdateBuilder) (st : St) (vs : VS) (messages : list MessageEntry) (coinputs : list bytes) (next : nat)
    : UpdateBuilder := {|
  ub_program := ub_program b; ub_snark_state := ub_snark_state b; ub_pre_state := ub_pre_state b; ub_cur_state := st;
  ub_vstate := vs; ub_messages := messages; ub_coinputs := coinputs; ub_next_msg_idx := next;
  ub_ledger_refs := ub_ledger_refs b; ub_outputs := ub_outputs b; ub_override_seq_no := ub_override_seq_no b |}.

Definition set_override_seq_no (seq_no : option Seqno) (b : UpdateBuilder) : UpdateBuilder := {|
  ub_program := ub_program b; ub_snark_state := ub_snark_state b; ub_pre_state := ub_pre_state b; ub_cur_state := ub_cur_state b;
  ub_vstate := ub_vstate b; ub_messages := ub_messages b; ub_coinputs := ub_coinputs b; ub_next_msg_idx := ub_next_msg_idx b;
  ub_ledger_refs := ub_ledger_refs b; ub_outputs := ub_outputs b; ub_override_seq_no := seq_no |}.

(** A write through [outputs_mut]. *)
Definition set_outputs (outputs : UpdateOutputs) (b : UpdateBuilder) : UpdateBuilder := {|
  ub_program := ub_program b; ub_snark_state := ub_snark_state b; ub_pre_state := ub_pre_state b; ub_cur_state := ub_cur_state b;
  ub_vstate := ub_vstate b; ub_messages := ub_messages b; ub_coinputs := ub_coinputs b; ub_next_msg_idx := ub_next_msg_idx b;
  ub_ledger_refs := ub_ledger_refs b; ub_outputs := outputs; ub_override_seq_no := ub_override_seq_no b |}.

(** A write through [cur_state_mut]. *)
Definition set_cur_state (st : St) (b : UpdateBuilder) : UpdateBuilder :=
  ub_with b st (ub_vstate b) (ub_messages b) (ub_coinputs b) (ub_next_msg_idx b).

Definition ub_add_message (msg : MessageEntry) (b : UpdateBuilder) : UpdateBuilder :=
  ub_with b (ub_cur_state b) (ub_vstate b) (ub_messages b ++ [msg]) (ub_coinputs b) (ub_next_msg_idx b).

Definition provide_coinput (coinput : bytes) : B unit := fun b =>
  let idx := ub_next_msg_idx b in
  match ub_messages b !! idx with
  | None => (Err (PeMismatchedCoinputCount (zlen (ub_messages b)) (Z.of_nat idx + 1)), b)
  | Some msg_entry =>
      let inp_msg := InputMessage_from_msg_entry msg_entry in
      if negb (im_is_valid inp_msg) && negb (bool_decide (coinput = [])) then (Err (PeAtMessage (Z.of_nat idx) PeInvalidCoinput), b)
      else
        let '(r, s) :=
          mmap_err (PeAtMessage (Z.of_nat idx))
            (on_vstate (fun st => verify_coinput (ub_program b) st inp_msg coinput) ;;;
             on_fst (process_message (ub_program b) inp_msg)) (ub_cur_state b, ub_vstate b) in
        match r with
        | Ok _ => (Ok tt, ub_with b (fst s) (snd s) (ub_messages b) (ub_coinputs b ++ [coinput]) (Datatypes.S idx))
        | _ => (r, ub_with b (fst s) (snd s) (ub_messages b) (ub_coinputs b) idx)
        end
  end.

Definition add_message_with_coinput (msg : MessageEntry) (coinput : bytes) : B unit :=
  mmodify (ub_add_message msg) ;;; provide_coinput coinput.

Definition remaining_messages (b : UpdateBuilder) : nat := length (ub_messages b) - ub_next_msg_idx b.

(** The loop runs once per remaining message: a round that succeeds advances
    [next_msg_idx] by one, and one that fails ends it. *)
Definition provide_empty_coinputs : B unit := fun b =>
  miter (fun _ => provide_coinput []) (repeat tt (remaining_messages b)) b.

Definition assert_all_coinputs_provided (b : UpdateBuilder) : res (ProgramError Er) unit :=
  if negb (ub_next_msg_idx b =? length (ub_messages b))%nat then
    Err (PeMismatchedCoinputCount (zlen (ub_messages b)) (Z.of_nat (ub_next_msg_idx b)))
  else Ok tt.

Record FinalizedUpdate := {
  fu_pre_state : St;
  fu_post_state : St;
  fu_snark_state : SnarkAccountState;
  fu_extra_data : XD;
  fu_messages : list MessageEntry;
  fu_coinputs : list bytes;
  fu_ledger_refs : LedgerRefs;
  fu_outputs : UpdateOutputs;
  fu_seq_no : Seqno;
}.

Definition finalized_of (b : UpdateBuilder) (post_state : St) (extra_data : XD) : FinalizedUpdate := {|
  fu_pre_state := ub_pre_state b; fu_post_state := post_state; fu_snark_state := ub_snark_state b; fu_extra_data := extra_data;
  fu_messages := ub_messages b; fu_coinputs := ub_coinputs b; fu_ledger_refs := ub_ledger_refs b; fu_outputs := ub_outputs b;
  fu_seq_no := resolved_seq_no b |}.

Definition finalize_verified (extra_data : XD) (b : UpdateBuilder) : res (ProgramError Er) FinalizedUpdate :=
  let! _ := assert_all_coinputs_provided b in
  let '(r, post_state) := pre_finalize_state (ub_program b) extra_data (ub_cur_state b) in
  let! _ := r in
  let! _ := finalize_verification (ub_program b) post_state (ub_vstate b) extra_data in
  let '(r, post_state) := finalize_state (ub_program b) extra_data post_state in
  let! _ := r in
  Ok (finalized_of b post_state extra_data).

Definition finalize_unverified (extra_data : XD) (b : UpdateBuilder) : res (ProgramError Er) FinalizedUpdate :=
  let! _ := assert_all_coinputs_provided b in
  let '(r, post_state) := pre_finalize_state (ub_program b) extra_data (ub_cur_state b) in
  let! _ := r in
  let '(r, post_state) := finalize_state (ub_program b) extra_data post_state in
  let! _ := r in
  Ok (finalized_of b post_state extra_data).

Definition pre_inbox_idx (f : FinalizedUpdate) : Z := ps_next_inbox_msg_idx (sa_proof_state (fu_snark_state f)).

Definition new_proof_state (f : FinalizedUpdate) : ProofState :=
  {| ps_inner_state := compute_state_root (fu_post_state f);
     ps_next_inbox_msg_idx := wrap_u64 (pre_inbox_idx f + zlen (fu_messages f)) |}.

Definition encode_extra_data (f : FinalizedUpdate) : res (ProgramError Er) bytes :=
  res_map_err PeCodec (encode extra_data_codec (fu_extra_data f)).

Definition into_private_input (f : FinalizedUpdate) : res (ProgramError Er) PrivateInput :=
  let! extra_data_buf := encode_extra_data f in
  let cur := {| ps_inner_state := compute_state_root (fu_pre_state f); ps_next_inbox_msg_idx := pre_inbox_idx f |} in
  let! pub_params := UpdateProofPubParams_new (fu_seq_no f) cur (new_proof_state f) (fu_messages f) (fu_ledger_refs f)
                       (fu_outputs f) extra_data_buf in
  Ok (PrivateInput_new pub_params (state_as_ssz_bytes (fu_pre_state f)) (map (fun c => {| ci_raw_data := c |}) (fu_coinputs f))).

Definition into_manifest (f : FinalizedUpdate) : res (ProgramError Er) UpdateManifest :=
  let! extra_data_buf := encode_extra_data f in
  Ok {| um_new_state_root := Some (ps_inner_state (new_proof_state f)); um_extra_data := extra_data_buf; um_messages := fu_messages f |}.

Definition into_operation_data (f : FinalizedUpdate) : res (ProgramError Er) (UpdateOperationData * list bytes) :=
  let! extra_data_buf := encode_extra_data f in
  let! op := UpdateOperationData_new (fu_seq_no f) (new_proof_state f) (fu_messages f) (fu_ledger_refs f) (fu_outputs f) extra_data_buf in
  Ok (op, fu_coinputs f).

Definition build_private_input (extra_data : XD) (b : UpdateBuilder) : res (ProgramError Er) PrivateInput :=
  let! finalized := finalize_verified extra_data b in into_private_input finalized.
Definition build_manifest (extra_data : XD) (b : UpdateBuilder) : res (ProgramError Er) UpdateManifest :=
  let! finalized := finalize_unverified extra_data b in into_manifest finalized.
Definition build_operation_data (extra_data : XD) (b : UpdateBuilder) : res (ProgramError Er) (UpdateOperationData * list bytes) :=
  let! finalized := finalize_verified extra_data b in into_operation_data finalized.
Definition build_operation_data_unverified (extra_data : XD) (b : UpdateBuilder)
    : res (ProgramError Er) (UpdateOperationData * list bytes) :=
  let! finalized := finalize_unverified extra_data b in into_operation_data finalized.
End runtime.

(** * What the runtime guarantees *)

(** Decoding recovers what was encoded. *)
Class RuntimeLaws {ET : ExtTypes} (X : Ext) (RX : RuntimeExt) : Prop := {
  pub_params_ssz_roundtrip u : pub_params_from_ssz_bytes (ssz_pub_params u) = Some u;
}.

Class ProgramCodecLaws {ET : ExtTypes} {CE : CodecExt} {P St Msg XD Er : Type} (SP : SnarkAccountProgram P St Msg XD Er) : Prop := {
  extra_data_roundtrip (xd : XD) bs : encode extra_data_codec xd = Ok bs -> decode_buf_exact extra_data_codec bs = Ok xd;
}.

Lemma on_fst_returns {E A B R} (m : M E A R) (s : A * B) r s' :
  on_fst m s = (Ok r, s') <-> m (fst s) = (Ok r, fst s') /\ snd s' = snd s.
Proof. destruct s as [a b], s' as [a' b']. unfold on_fst. simpl. destruct (m a) as [r0 a0]. naive_solver. Qed.

Lemma on_snd_returns {E A B R} (m : M E B R) (s : A * B) r s' :
  on_snd m s = (Ok r, s') <-> m (snd s) = (Ok r, snd s') /\ fst s' = fst s.
Proof. destruct s as [a b], s' as [a' b']. unfold on_snd. simpl. destruct (m b) as [r0 b0]. naive_solver. Qed.

Lemma mmap_err_ok {E F S A} (f : E -> F) (m : M E S A) s a s' : m s = (Ok a, s') -> mmap_err f m s = (Ok a, s').
Proof. unfold mmap_err. by intros ->. Qed.

Section runtime_spec.
Context {ET : ExtTypes} `{X : !Ext} `{CE : !CodecExt} `{RX : !RuntimeExt}.
Context {P St Msg XD Er : Type} `{SP : !SnarkAccountProgram P St Msg XD Er}.
Context {VS VI : Type} `{SV : !SnarkAccountProgramVerification P St Msg XD Er VS VI}.
Implicit Types (program : P) (st : St) (vs : VS) (vinput : VI).

(** ** Verification and reconstruction agree on the messages *)

Lemma verify_coinput_processes program msg ci st vs st' vs' :
  verify_coinput_and_process_message program msg ci (st, vs) = (Ok tt, (st', vs')) ->
  process_message program (InputMessage_from_msg_entry msg) st = (Ok tt, st').
Proof.
  unfold verify_coinput_and_process_message. case_match; [by intros [=]|]. intros Hv. minv.
  unfold on_vstate in Hm. minv. destruct st0 as [st1 vs1]. apply on_snd_returns in Hm as [_ Hf]. simpl in *. subst.
  by apply on_fst_returns in Hv as [Hp _].
Qed.

Lemma verify_messages_process program i msgs cis st vs st' vs' :
  verify_messages program i msgs cis (st, vs) = (Ok tt, (st', vs')) ->
  miteri (fun idx msg => mmap_err (PeAtMessage idx) (process_message program (InputMessage_from_msg_entry msg))) i msgs st = (Ok tt, st').
Proof.
  revert i cis st vs. induction msgs as [|msg msgs IH]; intros i [|ci cis] st vs; simpl; intros Hv; minv; [done..|].
  destruct st0 as [st1 vs1]. apply mmap_err_returns in Hm. destruct a. apply verify_coinput_processes in Hm.
  rewrite (mbind_ok _ _ _ _ _ (mmap_err_ok _ _ _ _ _ Hm)). by apply IH in Hv.
Qed.

Lemma verify_messages_app program i m1 c1 m2 c2 s : length m1 = length c1 ->
  verify_messages program i (m1 ++ m2) (c1 ++ c2) s
  = (verify_messages program i m1 c1 ;;; verify_messages program (i + zlen m1) m2 c2) s.
Proof.
  revert i c1 s. induction m1 as [|m m1 IH]; intros i [|c c1] s Hl; simplify_eq/=.
  { unfold mbind, mret. by rewrite zlen_nil, Z.add_0_r. }
  replace (i + zlen (m :: m1)) with (i + 1 + zlen m1) by (rewrite zlen_cons; lia).
  rewrite mbind_assoc. unfold mbind at 1. destruct (mmap_err _ _ s) as [[[]|e|] s1] eqn:He.
  - rewrite IH by done. by rewrite (mbind_ok _ _ _ _ _ He).
  - unfold mbind. by rewrite He.
  - unfold mbind. by rewrite He.
Qed.

(** The whole of a verified update. *)
Lemma verify_update_inner_spec program vinput msgs cis xd uli st st' :
  verify_update_inner program vinput msgs cis xd uli st = (Ok tt, st') ->
  exists vs0 st0 st1 vs1 st2,
    start_verification program st vinput uli = Ok vs0 /\ start_update program st = (Ok tt, st0) /\
    verify_messages program 0 msgs cis (st0, vs0) = (Ok tt, (st1, vs1)) /\
    pre_finalize_state program xd st1 = (Ok tt, st2) /\ finalize_verification program st2 vs1 xd = Ok tt /\
    finalize_state program xd st2 = (Ok tt, st').
Proof.
  unfold verify_update_inner. destruct (start_verification _ _ _ _) as [vs0| |]; [|by intros [=]..].
  destruct (mbind _ _ _) as [r s] eqn:Hr. intros [= -> <-]. minv.
  destruct a, st0 as [sa va], a0, st1 as [sb vb], a1, st2 as [sc vc].
  apply on_fst_returns in Hm as [Hs0 Hv0], Hm1 as [Hp Hv1], Hr as [Hf Hv2]. simpl in *. subst.
  unfold mreads_res in Hm2. simplify_eq/=. destruct a2. eauto 11.
Qed.

Lemma verify_update_inner_intro program vinput msgs cis xd uli st vs0 st0 st1 vs1 st2 st' :
  start_verification program st vinput uli = Ok vs0 -> start_update program st = (Ok tt, st0) ->
  verify_messages program 0 msgs cis (st0, vs0) = (Ok tt, (st1, vs1)) ->
  pre_finalize_state program xd st1 = (Ok tt, st2) -> finalize_verification program st2 vs1 xd = Ok tt ->
  finalize_state program xd st2 = (Ok tt, st') ->
  verify_update_inner program vinput msgs cis xd uli st = (Ok tt, st').
Proof.
  intros H1 H2 H3 H4 H5 H6. unfold verify_update_inner. rewrite H1.
  unfold mbind, on_fst, mreads_res. simpl. rewrite H2; simpl. rewrite H3; simpl. rewrite H4; simpl. rewrite H5; simpl. by rewrite H6.
Qed.

(** Reconstruction follows the same path without the checks. *)
Lemma apply_unconditionally_follows program vinput msgs cis xd uli st st' buf root :
  verify_update_inner program vinput msgs cis xd uli st = (Ok tt, st') ->
  decode_buf_exact extra_data_codec buf = Ok xd -> compute_state_root st' = root ->
  apply_update_unconditionally program {| um_new_state_root := Some root; um_extra_data := buf; um_messages := msgs |} st
  = (Ok tt, st').
Proof.
  intros (vs0 & st0 & st1 & vs1 & st2 & _ & Hs & Hm & Hp & _ & Hf)%verify_update_inner_spec Hx Hroot.
  apply verify_messages_process in Hm. unfold apply_update_unconditionally. simpl. rewrite Hx.
  unfold mbind at 1. simpl. rewrite (mbind_ok _ _ _ _ _ Hs), (mbind_ok _ _ _ _ _ Hm), (mbind_ok _ _ _ _ _ Hp), (mbind_ok _ _ _ _ _ Hf).
  unfold mbind, mreads. rewrite Hroot, Z.eqb_refl. done.
Qed.

(** What acceptance says, unfolded. *)
Lemma verify_and_process_update_spec program pi vinput :
  verify_and_process_update program pi vinput = Ok tt ->
  exists u st xd st',
    pub_params_from_ssz_bytes (pi_update_pub_params_ssz pi) = Some u /\
    state_from_ssz_bytes (pi_raw_pre_state pi) = Some st /\
    compute_state_root st = ps_inner_state (upp_cur_state u) /\
    zlen (pi_coinputs pi) = zlen (upp_message_inputs u) /\
    wrap_u64 (ps_next_inbox_msg_idx (upp_cur_state u) + zlen (upp_message_inputs u)) = ps_next_inbox_msg_idx (upp_new_state u) /\
    decode_buf_exact extra_data_codec (upp_extra_data u) = Ok xd /\
    verify_update_inner program vinput (upp_message_inputs u) (pi_coinputs pi) xd (UpdateLedgerInfo_from_update u) st = (Ok tt, st') /\
    compute_state_root st' = ps_inner_state (upp_new_state u).
Proof.
  unfold verify_and_process_update. destruct (pub_params_from_ssz_bytes _) as [u|]; [|done]. simpl.
  destruct (state_from_ssz_bytes _) as [st|]; [|done]. simpl.
  case_match eqn:H1; [done|]. case_match eqn:H2; [done|]. case_match eqn:H3; [done|].
  destruct (decode_buf_exact _ _) as [xd| |] eqn:Hx; [|done..]. simpl.
  destruct (verify_update_inner _ _ _ _ _ _ _) as [[[]| |] st'] eqn:Hi; [|done..]. simpl.
  case_match eqn:H4; [done|]. intros _. exists u, st, xd, st'. zbool. naive_solver.
Qed.

(** C19: a verified update is the update that is reconstructed: applying the published
    manifest (the extra data and messages of the public parameters, with the
    root the proof claims) to the state the proof started from succeeds and
    reaches a state with that root. *)
Theorem verified_update_reconstructs program pi vinput :
  verify_and_process_update program pi vinput = Ok tt ->
  exists u st st',
    pub_params_from_ssz_bytes (pi_update_pub_params_ssz pi) = Some u /\
    state_from_ssz_bytes (pi_raw_pre_state pi) = Some st /\
    compute_state_root st = ps_inner_state (upp_cur_state u) /\
    apply_update_unconditionally program
      {| um_new_state_root := Some (ps_inner_state (upp_new_state u)); um_extra_data := upp_extra_data u;
         um_messages := upp_message_inputs u |} st = (Ok tt, st') /\
    compute_state_root st' = ps_inner_state (upp_new_state u) /\
    ps_next_inbox_msg_idx (upp_new_state u)
    = wrap_u64 (ps_next_inbox_msg_idx (upp_cur_state u) + zlen (upp_message_inputs u)).
Proof.
  intros (u & st & xd & st' & Hu & Hst & Hr & _ & Hidx & Hx & Hi & Hr')%verify_and_process_update_spec.
  exists u, st, st'. repeat split; try done. by eapply apply_unconditionally_follows.
Qed.

(** ** The builder *)

(** The operations a caller drives the builder with. *)
Inductive builder_op :=
| OpAddMessage (msg : MessageEntry)
| OpProvideCoinput (coinput : bytes)
| OpAddMessageWithCoinput (msg : MessageEntry) (coinput : bytes)
| OpProvideEmptyCoinputs
| OpSetOverrideSeqNo (seq_no : option Seqno)
| OpSetOutputs (outputs : UpdateOutputs)
| OpSetCurState (st : St).

Definition run_op (op : builder_op) : M (ProgramError Er) (UpdateBuilder (P := P) (St := St) (VS := VS)) unit :=
  match op with
  | OpAddMessage msg => mmodify (ub_add_message msg)
  | OpProvideCoinput coinput => provide_coinput coinput
  | OpAddMessageWithCoinput msg coinput => add_message_with_coinput msg coinput
  | OpProvideEmptyCoinputs => provide_empty_coinputs
  | OpSetOverrideSeqNo seq_no => mmodify (set_override_seq_no seq_no)
  | OpSetOutputs outputs => mmodify (set_outputs outputs)
  | OpSetCurState st => mmodify (set_cur_state st)
  end.

(** A caller may go on after an operation that failed. *)
Definition drive (ops : list builder_op) (b : UpdateBuilder (P := P) (St := St) (VS := VS)) : UpdateBuilder :=
  fold_left (fun b op => snd (run_op op b)) ops b.

(** All operations succeeded, and none wrote the account state directly. *)
Definition ran_clean (ops : list builder_op) (b b' : UpdateBuilder (P := P) (St := St) (VS := VS)) : Prop :=
  Forall (fun op => match op with OpSetCurState _ => False | _ => True end) ops /\ miter run_op ops b = (Ok tt, b').

Implicit Types (b : UpdateBuilder (P := P) (St := St) (VS := VS)).

Definition as_coinputs (l : list bytes) : list Coinput := map (fun c => {| ci_raw_data := c |}) l.

(** The states the builder carries are those verification has after the messages
    with a coinput; [o] are the outputs verification was started with. *)
Definition builder_ok (vinput : VI) (o : UpdateOutputs) b : Prop := exists vs0 st0,
  compute_state_root (ub_pre_state b) = ps_inner_state (sa_proof_state (ub_snark_state b)) /\
  start_verification (ub_program b) (ub_pre_state b) vinput {| uli_ledger_refs := ub_ledger_refs b; uli_outputs := o |} = Ok vs0 /\
  start_update (ub_program b) (ub_pre_state b) = (Ok tt, st0) /\
  ub_next_msg_idx b = length (ub_coinputs b) /\ (ub_next_msg_idx b <= length (ub_messages b))%nat /\
  verify_messages (ub_program b) 0 (take (ub_next_msg_idx b) (ub_messages b)) (as_coinputs (ub_coinputs b)) (st0, vs0)
  = (Ok tt, (ub_cur_state b, ub_vstate b)).

(** What no operation touches, and that there is a coinput per processed message. *)
Definition same_origin b b' : Prop :=
  (ub_program b' = ub_program b /\ ub_snark_state b' = ub_snark_state b /\ ub_pre_state b' = ub_pre_state b /\
   ub_ledger_refs b' = ub_ledger_refs b) /\
  (ub_next_msg_idx b = length (ub_coinputs b) -> ub_next_msg_idx b' = length (ub_coinputs b')).

#[local] Instance same_origin_preorder : PreOrder same_origin.
Proof. split; [done|]. intros x y z [(?&?&?&?) ?] [(?&?&?&?) ?]. split; [split_and!; congruence|auto]. Qed.

Lemma provide_coinput_origin coinput : keeps same_origin (provide_coinput (P := P) (St := St) (VS := VS) coinput).
Proof.
  intros b. unfold provide_coinput. destruct (_ !! _); [|done]. case_match; [done|].
  destruct (mmap_err _ _ _) as [[]]; (split; [done|]); simpl; rewrite ?length_app; simpl; lia.
Qed.

Lemma run_op_origin op : keeps same_origin (run_op op).
Proof.
  destruct op; simpl; try (by intros b); try (apply provide_coinput_origin).
  - unfold add_message_with_coinput. apply keeps_mbind; [apply _|by intros b|]. intros _. apply provide_coinput_origin.
  - intros b. apply (keeps_miter same_origin). intros _. apply provide_coinput_origin.
Qed.

Lemma drive_origin ops b : same_origin b (drive ops b).
Proof.
  unfold drive. revert b. induction ops as [|op ops IH]; intros b; simpl; [done|]. etransitivity; [apply run_op_origin|apply IH].
Qed.

(** A clean run is where [drive] ends. *)
Lemma ran_clean_drive ops b b' : ran_clean ops b b' -> drive ops b = b'.
Proof.
  intros [_ H]. revert b H. unfold drive. induction ops as [|op ops IH]; intros b H; simpl in *; [by injection H|].
  apply mbind_returns in H as ([] & b1 & Hop & H). rewrite Hop. by apply IH.
Qed.

(** What providing coinputs does not touch. *)
Definition same_base b b' : Prop :=
  ub_program b' = ub_program b /\ ub_snark_state b' = ub_snark_state b /\ ub_pre_state b' = ub_pre_state b /\
  ub_ledger_refs b' = ub_ledger_refs b /\ ub_outputs b' = ub_outputs b.

#[local] Instance same_base_preorder : PreOrder same_base.
Proof. split; [done|]. intros x y z (?&?&?&?&?) (?&?&?&?&?). repeat split; congruence. Qed.

Lemma UpdateBuilder_new_ok program snark_state st vinput refs o b :
  UpdateBuilder_new program snark_state st vinput refs o = Ok b ->
  builder_ok vinput o b /\ ub_program b = program /\ ub_snark_state b = snark_state /\ ub_pre_state b = st /\
  ub_ledger_refs b = refs /\ ub_outputs b = o.
Proof.
  unfold UpdateBuilder_new. case_match eqn:Hroot; [done|]. zbool.
  destruct (start_verification _ _ _ _) as [vs0| |] eqn:Hv; [|done..]. simpl.
  destruct (start_update _ _) as [[[]| |] st0] eqn:Hs; [|done..]. simpl. intros [= <-]. simpl.
  split; [|done]. exists vs0, st0. simpl. auto 7 with lia.
Qed.

Lemma ub_add_message_ok vinput o msg b : builder_ok vinput o b -> builder_ok vinput o (ub_add_message msg b).
Proof.
  intros (vs0 & st0 & Hr & Hv & Hs & Hn & Hle & Hm). exists vs0, st0. simpl. rewrite length_app, take_app_le by done. auto 7 with lia.
Qed.

(** One more coinput verified and one more message processed. *)
Lemma provide_coinput_ok vinput o coinput b b' :
  builder_ok vinput o b -> provide_coinput coinput b = (Ok tt, b') ->
  builder_ok vinput o b' /\ same_base b b' /\ ub_messages b' = ub_messages b /\ ub_next_msg_idx b' = S (ub_next_msg_idx b) /\
  ub_coinputs b' = ub_coinputs b ++ [coinput].
Proof.
  intros (vs0 & st0 & Hr & Hv & Hs & Hn & Hle & Hm). unfold provide_coinput.
  destruct (ub_messages b !! ub_next_msg_idx b) as [msg|] eqn:Hmsg; [|by intros [=]].
  case_match eqn:Hci; [by intros [=]|]. destruct (mmap_err _ _ _) as [[[]| |] [st1 vs1]] eqn:Hstep; [|by intros [=]..].
  intros [= <-]. simpl. split; [|done]. exists vs0, st0. simpl. unfold as_coinputs. rewrite map_app, length_app, <- Hn. simpl.
  pose proof (lookup_lt_Some _ _ _ Hmsg) as Hlt. repeat split; try done; [lia..|].
  rewrite (take_S_r _ _ _ Hmsg), verify_messages_app by (rewrite length_map, length_take; lia).
  rewrite (mbind_ok _ _ _ _ _ Hm). simpl. apply mmap_err_returns in Hstep.
  refine (mbind_ok _ _ _ _ _ (mmap_err_ok _ _ _ _ _ _)).
  unfold verify_coinput_and_process_message. simpl. by rewrite Hci.
Qed.

Lemma miter_provide_ok {A} vinput o coinput (l : list A) b b' :
  builder_ok vinput o b -> miter (fun _ => provide_coinput coinput) l b = (Ok tt, b') -> builder_ok vinput o b' /\ same_base b b'.
Proof.
  revert b. induction l as [|x l IH]; intros b Hb; simpl; intros H; minv; [done|]. destruct a.
  eapply provide_coinput_ok in Hm as (Hb1 & Hs1 & _); [|done]. apply IH in H as [Hb2 Hs2]; [|done]. split; [done|]. by etrans.
Qed.

Lemma run_op_ok vinput o op b b' :
  match op with OpSetCurState _ => False | _ => True end ->
  builder_ok vinput o b -> run_op op b = (Ok tt, b') -> builder_ok vinput o b'.
Proof.
  intros Hc Hb. destruct op as [msg|c|msg c| |s|o'|st]; simpl; intros H; minv; try done.
  - by apply ub_add_message_ok.
  - by eapply provide_coinput_ok in H as (Hb' & _).
  - unfold add_message_with_coinput in H. rewrite mbind_mmodify in H.
    by eapply provide_coinput_ok in H as (Hb' & _); [|apply ub_add_message_ok].
  - unfold provide_empty_coinputs in H. by eapply miter_provide_ok in H as [? _].
Qed.

Lemma ran_clean_ok vinput o ops b b' : builder_ok vinput o b -> ran_clean ops b b' -> builder_ok vinput o b'.
Proof.
  intros Hb [Hc H]. revert b Hb H. induction Hc as [|op ops Hop _ IH]; intros b Hb H; simpl in H; minv; [done|]. destruct a.
  eapply IH; [|done]. by eapply run_op_ok.
Qed.

(** The public parameters an operation stands for, on the account's proof state. *)
Definition op_pub_params (cur : ProofState) (op : UpdateOperationData) : UpdateProofPubParams := {|
  upp_seq_no := uod_seq_no op; upp_cur_state := cur; upp_new_state := uod_new_proof_state op;
  upp_message_inputs := uod_processed_messages op; upp_ledger_refs := uod_ledger_refs op; upp_outputs := uod_outputs op;
  upp_extra_data := uod_extra_data op |}.

(** The private input of an operation with its coinputs. *)
Definition op_private_input (cur : ProofState) (st : St) (op : UpdateOperationData) (coinputs : list bytes) : PrivateInput :=
  PrivateInput_new (op_pub_params cur op) (state_as_ssz_bytes st) (as_coinputs coinputs).

Lemma finalize_unverified_spec xd b f :
  finalize_unverified xd b = Ok f -> exists st2 post,
    ub_next_msg_idx b = length (ub_messages b) /\ pre_finalize_state (ub_program b) xd (ub_cur_state b) = (Ok tt, st2) /\
    finalize_state (ub_program b) xd st2 = (Ok tt, post) /\ f = finalized_of b post xd.
Proof.
  unfold finalize_unverified, assert_all_coinputs_provided. case_match eqn:Hn; [done|]. simpl.
  destruct (pre_finalize_state _ _ _) as [[[]| |] st2] eqn:Hp; [|done..]. simpl.
  destruct (finalize_state _ _ _) as [[[]| |] post] eqn:Hf; [|done..]. simpl. intros [= <-].
  apply negb_false_iff, Nat.eqb_eq in Hn. eauto 9.
Qed.

(** A verified finalization is an unverified one that passes the last check. *)
Lemma finalize_verified_spec xd b f :
  finalize_verified xd b = Ok f <-> finalize_unverified xd b = Ok f /\
    exists st2, pre_finalize_state (ub_program b) xd (ub_cur_state b) = (Ok tt, st2) /\
                finalize_verification (ub_program b) st2 (ub_vstate b) xd = Ok tt.
Proof.
  unfold finalize_verified, finalize_unverified.
  destruct (assert_all_coinputs_provided b) as [[]| |]; simpl; [|by split; [|intros [? _]]..].
  destruct (pre_finalize_state _ _ _) as [[[]| |] st2]; simpl; [|by split; [|intros [? _]]..].
  destruct (finalize_verification _ _ _ _) as [[]| |] eqn:Hfv; simpl.
  - split; [eauto|by intros [? _]].
  - split; [done|]. intros (_ & st & [= <-] & ?). congruence.
  - split; [done|]. intros (_ & st & [= <-] & ?). congruence.
Qed.

Lemma into_operation_data_spec (f : FinalizedUpdate (St := St) (XD := XD)) op cis :
  into_operation_data (P := P) f = Ok (op, cis) ->
  encode extra_data_codec (fu_extra_data f) = Ok (uod_extra_data op) /\ cis = fu_coinputs f /\
  op = {| uod_input := {| uid_seq_no := fu_seq_no f; uid_messages := fu_messages f;
                          uid_update_state := {| usd_proof_state := new_proof_state (P := P) f; usd_extra_data := uod_extra_data op |} |};
          uod_ledger_refs := fu_ledger_refs f; uod_outputs := fu_outputs f |}.
Proof.
  unfold into_operation_data, encode_extra_data. destruct (encode _ _) as [buf| |]; [|done..]. simpl.
  unfold UpdateOperationData_new, UpdateStateData_new, UpdateInputData_new.
  do 2 (destruct (negb _); simpl; [done|]). intros [= <- <-]. done.
Qed.

(** The private input of a finalized update is that of its operation data. *)
Lemma into_private_input_op (f : FinalizedUpdate (St := St) (XD := XD)) pi :
  into_private_input (P := P) f = Ok pi ->
  compute_state_root (fu_pre_state f) = ps_inner_state (sa_proof_state (fu_snark_state f)) ->
  exists op, into_operation_data (P := P) f = Ok (op, fu_coinputs f) /\
    pi = op_private_input (sa_proof_state (fu_snark_state f)) (fu_pre_state f) op (fu_coinputs f).
Proof.
  unfold into_private_input, into_operation_data, encode_extra_data. intros Hpi Hroot.
  destruct (encode _ _) as [buf| |]; [|done..]. simpl in *. 
  unfold UpdateProofPubParams_new, UpdateOperationData_new, UpdateStateData_new, UpdateInputData_new in *.
  destruct (negb (zlen (fu_messages f) <=? _)) eqn:Hl; [done|]. destruct (negb (zlen buf <=? _)) eqn:Hl2; [done|]. simpl in *.
  eexists. split; [done|]. simplify_eq. unfold op_private_input, op_pub_params. simpl. do 2 f_equal.
  unfold pre_inbox_idx. rewrite Hroot. by destruct (sa_proof_state _).
Qed.

Context `{!RuntimeLaws X RX} `{!ProgramCodecLaws SP}.

(** An operation whose update passes the steps of verification has a private
    input that is accepted. *)
Lemma op_private_input_verifies program vinput vinput0 o b xd f op cis vs1 st0 vs0 st2 :
  state_from_ssz_bytes (state_as_ssz_bytes (ub_pre_state b)) = Some (ub_pre_state b) ->
  builder_ok vinput0 o b -> ub_program b = program -> finalize_unverified xd b = Ok f -> into_operation_data (P := P) f = Ok (op, cis) ->
  start_verification program (ub_pre_state b) vinput {| uli_ledger_refs := ub_ledger_refs b; uli_outputs := ub_outputs b |} = Ok vs0 ->
  start_update program (ub_pre_state b) = (Ok tt, st0) ->
  verify_messages program 0 (ub_messages b) (as_coinputs (ub_coinputs b)) (st0, vs0) = (Ok tt, (ub_cur_state b, vs1)) ->
  pre_finalize_state program xd (ub_cur_state b) = (Ok tt, st2) -> finalize_verification program st2 vs1 xd = Ok tt ->
  verify_and_process_update program (op_private_input (sa_proof_state (ub_snark_state b)) (ub_pre_state b) op cis) vinput = Ok tt.
Proof.
  intros Hssz (vs0' & st0' & Hroot & _ & _ & Hn & _ & _) Hprog (st2' & post & Hall & Hp & Hf & ->)%finalize_unverified_spec
    (Henc & -> & ->)%into_operation_data_spec Hv Hs Hm Hp' Hfv. subst program.
  rewrite Hp in Hp'. simplify_eq.
  unfold verify_and_process_update, op_private_input, op_pub_params, uod_new_proof_state, uod_processed_messages, uod_extra_data in *.
  simpl in *. rewrite pub_params_ssz_roundtrip, Hssz. simpl.
  rewrite Hroot, Z.eqb_refl. simpl.
  rewrite (proj2 (Z.eqb_eq _ _)) by (unfold zlen, as_coinputs; rewrite length_map; lia). simpl.
  rewrite Z.eqb_refl. simpl. rewrite (extra_data_roundtrip _ _ Henc). simpl.
  unfold UpdateLedgerInfo_from_update. simpl.
  rewrite (verify_update_inner_intro _ _ _ _ _ _ _ _ _ _ _ _ _ Hv Hs Hm Hp Hfv Hf). simpl. by rewrite Z.eqb_refl.
Qed.

(** What an undisturbed builder makes of the messages, coinputs, outputs and
    sequence number of [b]. *)
Definition rebuild program (snark_state : SnarkAccountState) st vinput refs xd b : res (ProgramError Er) PrivateInput :=
  let! b0 := UpdateBuilder_new program snark_state st vinput refs (ub_outputs b) in
  let '(r, b1) := miter (fun p => add_message_with_coinput (fst p) (snd p)) (zip (ub_messages b) (ub_coinputs b)) b0 in
  let! _ := r in build_private_input xd (set_override_seq_no (ub_override_seq_no b) b1).

(** Verification of messages with their coinputs, as operations of a builder that
    has processed all it has. *)
Lemma replay_messages msgs cis b st1 vs1 :
  length msgs = length cis -> ub_next_msg_idx b = length (ub_messages b) ->
  verify_messages (ub_program b) (Z.of_nat (ub_next_msg_idx b)) msgs (as_coinputs cis) (ub_cur_state b, ub_vstate b)
    = (Ok tt, (st1, vs1)) ->
  miter (fun p => add_message_with_coinput (fst p) (snd p)) (zip msgs cis) b
    = (Ok tt, ub_with b st1 vs1 (ub_messages b ++ msgs) (ub_coinputs b ++ cis) (ub_next_msg_idx b + length msgs)).
Proof.
  revert cis b. induction msgs as [|msg msgs IH]; intros [|c cis] b Hl Hn H; simplify_eq/=.
  { injection H as <- <-. unfold mret. rewrite !app_nil_r, Nat.add_0_r. by destruct b. }
  apply mbind_returns in H as ([] & [st2 vs2] & Hstep & H). apply mmap_err_returns in Hstep.
  assert (Hadd : add_message_with_coinput msg c b =
    (Ok tt, ub_with b st2 vs2 (ub_messages b ++ [msg]) (ub_coinputs b ++ [c]) (Datatypes.S (ub_next_msg_idx b)))).
  { unfold add_message_with_coinput. rewrite mbind_mmodify. unfold provide_coinput. simpl.
    rewrite Hn, list_lookup_middle by done. unfold verify_coinput_and_process_message in Hstep. simpl in Hstep.
    case_match; [by simplify_eq|]. by rewrite (mmap_err_ok _ _ _ _ _ Hstep). }
  rewrite (mbind_ok _ _ _ _ _ Hadd). simpl. rewrite IH with (b := ub_with _ _ _ _ _ _); simpl; [|lia|rewrite length_app; simpl; lia|].
  - unfold ub_with. simpl. by rewrite <- !app_assoc, Nat.add_succ_r.
  - rewrite Nat2Z.inj_succ, <- Z.add_1_r. exact H.
Qed.

Lemma replay_clean vinput o l b b' :
  builder_ok vinput o b -> miter (fun p => add_message_with_coinput (fst p) (snd p)) l b = (Ok tt, b') ->
  builder_ok vinput o b' /\ same_base b b'.
Proof.
  revert b. induction l as [|[msg c] l IH]; intros b Hb H; simpl in H; minv; [done|]. destruct a.
  unfold add_message_with_coinput in Hm. rewrite mbind_mmodify in Hm.
  eapply provide_coinput_ok in Hm as (Hb1 & Hs1 & _); [|by apply ub_add_message_ok].
  apply IH in H as [Hb2 Hs2]; [|done]. split; [done|]. by etransitivity.
Qed.

(** A private input the builder makes is that of its operation data. *)
Lemma build_private_input_op xd b pi :
  compute_state_root (ub_pre_state b) = ps_inner_state (sa_proof_state (ub_snark_state b)) -> build_private_input xd b = Ok pi ->
  exists op st2 post, build_operation_data xd b = Ok (op, ub_coinputs b) /\ finalize_unverified xd b = Ok (finalized_of b post xd) /\
    pre_finalize_state (ub_program b) xd (ub_cur_state b) = (Ok tt, st2) /\
    finalize_verification (ub_program b) st2 (ub_vstate b) xd = Ok tt /\ finalize_state (ub_program b) xd st2 = (Ok tt, post) /\
    into_operation_data (P := P) (finalized_of b post xd) = Ok (op, ub_coinputs b) /\
    pi = op_private_input (sa_proof_state (ub_snark_state b)) (ub_pre_state b) op (ub_coinputs b).
Proof.
  intros Hroot Hpi. unfold build_private_input in Hpi. destruct (finalize_verified xd b) as [f| |] eqn:Hfin; [|done..]. simpl in Hpi.
  pose proof (proj1 (finalize_verified_spec _ _ _) Hfin) as (Hun & st2 & Hp & Hfv).
  pose proof (finalize_unverified_spec _ _ _ Hun) as (st2' & post & _ & Hp' & Hf & ->). rewrite Hp in Hp'. simplify_eq.
  apply into_private_input_op in Hpi as (op & Hop & ->); [|done].
  exists op, st2', post. unfold build_operation_data. rewrite Hfin. by split_and!.
Qed.

(** A builder run without failures or direct writes makes private inputs that
    verify, if it ends with the outputs it was started with. *)
Lemma clean_build_verifies vinput b xd pi :
  state_from_ssz_bytes (state_as_ssz_bytes (ub_pre_state b)) = Some (ub_pre_state b) ->
  builder_ok vinput (ub_outputs b) b -> build_private_input xd b = Ok pi ->
  verify_and_process_update (ub_program b) pi vinput = Ok tt.
Proof.
  intros Hssz Hb Hpi. pose proof Hb as (vs0 & st0 & Hroot & Hv & Hs & Hn & Hle & Hm).
  apply build_private_input_op in Hpi as (op & st2 & post & _ & Hun & Hp & Hfv & _ & Hop & ->); [|done].
  pose proof (finalize_unverified_spec _ _ _ Hun) as (_ & _ & Hall & _). rewrite Hall, firstn_all in Hm.
  by eapply (op_private_input_verifies _ _ _ _ _ _ _ _ _ _ _ _ _ Hssz Hb eq_refl Hun Hop).
Qed.

(** What the verifier accepts is what an undisturbed builder would have made. *)
Lemma verified_rebuilds program snark_state st vinput refs xd b pi :
  ub_program b = program -> ub_snark_state b = snark_state -> ub_pre_state b = st -> ub_ledger_refs b = refs ->
  state_from_ssz_bytes (state_as_ssz_bytes st) = Some st ->
  compute_state_root st = ps_inner_state (sa_proof_state snark_state) -> ub_next_msg_idx b = length (ub_coinputs b) ->
  build_private_input xd b = Ok pi -> verify_and_process_update program pi vinput = Ok tt ->
  rebuild program snark_state st vinput refs xd b = Ok pi.
Proof.
  intros <- <- <- <- Hssz Hroot Hn Hpi Hver. pose proof Hpi as Hop.
  apply build_private_input_op in Hop as (op & st2 & post & _ & Hun & _ & _ & _ & Hop & Heq); [|done].
  pose proof (finalize_unverified_spec _ _ _ Hun) as (_ & _ & Hall & _).
  apply into_operation_data_spec in Hop as (Henc & _ & Hopd). simpl in Henc.
  rewrite Heq in Hver. apply verify_and_process_update_spec in Hver as (u & st & xd' & st' & Hu & Hst & _ & _ & _ & Hx & Hi & Hr').
  simpl in Hu, Hst. rewrite pub_params_ssz_roundtrip in Hu. injection Hu as <-. rewrite Hssz in Hst. injection Hst as <-.
  simpl in Hx. rewrite (extra_data_roundtrip _ _ Henc) in Hx. injection Hx as <-.
  apply verify_update_inner_spec in Hi as (vs0 & st0 & st1 & vs1 & st3 & Hv & Hs & Hm & Hp & Hfv & Hf).
  rewrite Hopd in Hv, Hm, Hr'. unfold UpdateLedgerInfo_from_update in Hv. simpl in Hv, Hm, Hr'.
  unfold rebuild, UpdateBuilder_new. rewrite Hroot, Z.eqb_refl. simpl. rewrite Hv. simpl. rewrite Hs. simpl.
  match goal with |- context [miter _ _ ?b0] => rewrite (replay_messages (ub_messages b) (ub_coinputs b) b0 st1 vs1) end;
    [|lia|done|exact Hm].
  simpl. rewrite <- Hpi. unfold build_private_input, finalize_verified, assert_all_coinputs_provided. simpl.
  rewrite Nat.eqb_refl, Hall, Nat.eqb_refl. simpl. rewrite Hp. simpl. rewrite Hfv. simpl. rewrite Hf. simpl.
  unfold finalize_unverified in Hun. revert Hun Hpi. unfold build_private_input, finalize_verified.
  destruct (assert_all_coinputs_provided b) as [[]| |]; [|done..]. simpl.
  destruct (pre_finalize_state (ub_program b) xd (ub_cur_state b)) as [[[]| |] stb]; [|done..]. simpl.
  destruct (finalize_verification (ub_program b) stb (ub_vstate b) xd) as [[]| |]; simpl; [|done..].
  destruct (finalize_state (ub_program b) xd stb) as [[[]| |] pb]; [|done..]. simpl. intros [= ->] _.
  unfold into_private_input, new_proof_state, encode_extra_data, pre_inbox_idx, finalized_of. simpl. by rewrite Hr'.
Qed.

(** C18: what the builder prepares for the prover.  A caller drives the builder with
    any of its operations, including writes through [outputs_mut] and
    [cur_state_mut], and may go on after one that fails.  If the builder then builds
    a private input, that is the private input of the operation data it builds, on
    the account's proof state.  The verifier accepts it exactly if an undisturbed
    builder, started with the outputs the update declares and given only its
    messages with their coinputs, builds the same private input.  In particular it
    accepts it when all operations succeeded, none wrote the account state, and the
    outputs are those the builder was started with.  In that case, and also with
    other outputs, applying the manifest the builder publishes to the pre-state
    gives the state the new proof state commits to. *)
Theorem built_update_verifies program snark_state st vinput refs o ops b0 xd pi :
  state_from_ssz_bytes (state_as_ssz_bytes st) = Some st ->
  UpdateBuilder_new program snark_state st vinput refs o = Ok b0 ->
  let b := drive ops b0 in
  build_private_input xd b = Ok pi ->
  (exists op cis, build_operation_data xd b = Ok (op, cis) /\ pi = op_private_input (sa_proof_state snark_state) st op cis /\
     uod_outputs op = ub_outputs b /\ uod_processed_messages op = ub_messages b) /\
  (verify_and_process_update program pi vinput = Ok tt <-> rebuild program snark_state st vinput refs xd b = Ok pi) /\
  (ran_clean ops b0 b -> ub_outputs b = o -> verify_and_process_update program pi vinput = Ok tt) /\
  (ran_clean ops b0 b -> exists manifest st', build_manifest xd b = Ok manifest /\
     apply_update_unconditionally program manifest st = (Ok tt, st') /\
     um_new_state_root manifest = Some (compute_state_root st') /\ um_messages manifest = ub_messages b).
Proof.
  intros Hssz Hnew b Hpi. pose proof (UpdateBuilder_new_ok _ _ _ _ _ _ _ Hnew) as (Hb0 & Hprog & Hsn & Hst & Hrefs & Ho).
  destruct (drive_origin ops b0) as [(Hprog' & Hsn' & Hst' & Hrefs') Hcount]. fold b in Hprog', Hsn', Hst', Hrefs', Hcount.
  rewrite Hprog in Hprog'. rewrite Hsn in Hsn'. rewrite Hst in Hst'. rewrite Hrefs in Hrefs'.
  pose proof Hb0 as (_ & _ & Hroot & _ & _ & Hn0 & _). rewrite Hst, Hsn in Hroot. specialize (Hcount Hn0).
  pose proof Hpi as Hop. apply build_private_input_op in Hop as (op & st2 & post & Hbo & Hun & Hp & Hfv & Hf & Hop & Heq); [|congruence].
  rewrite Hsn', Hst' in Heq. split_and!.
  - exists op, (ub_coinputs b). apply into_operation_data_spec in Hop as (_ & _ & Hopd). split_and!; [done..|by rewrite Hopd|by rewrite Hopd].
  - split; [by apply verified_rebuilds|]. unfold rebuild. intros Hre.
    destruct (UpdateBuilder_new _ _ _ _ _ (ub_outputs b)) as [b1| |] eqn:Hnew1; [|done..]. simpl in Hre.
    apply UpdateBuilder_new_ok in Hnew1 as (Hb1 & Hprog1 & Hsn1 & Hst1 & _ & Ho1).
    match type of Hre with context [miter ?f ?l b1] => destruct (miter f l b1) as [[[]| |] b2] eqn:Hrun end; [|done..]. simpl in Hre. rewrite <- Hprog1, <- Hst1 in *.
    apply (replay_clean vinput (ub_outputs b)) in Hrun as (Hb2 & Hpr & _ & Hpre & _ & Ho2); [|done]. rewrite <- Hpr.
    apply (clean_build_verifies vinput (set_override_seq_no (ub_override_seq_no b) b2) xd pi); simpl; [by rewrite Hpre| |done].
    by rewrite Ho2, Ho1.
  - intros Hclean Hout. apply (ran_clean_ok vinput o) in Hclean; [|done]. rewrite <- Hprog', <- Hst' in *.
    apply (clean_build_verifies vinput b xd pi); [done|by rewrite Hout|done].
  - intros Hclean. apply (ran_clean_ok vinput o) in Hclean as (vs0 & st0 & _ & Hv & Hs & _ & _ & Hm); [|done].
    pose proof (finalize_unverified_spec _ _ _ Hun) as (_ & _ & Hall & _). rewrite Hall, firstn_all in Hm.
    apply into_operation_data_spec in Hop as (Henc & _ & _). simpl in Henc. rewrite Hprog', Hst' in *.
    eexists _, post. unfold build_manifest. rewrite Hun. simpl. unfold into_manifest, encode_extra_data. simpl. rewrite Henc. simpl.
    split; [done|]. split; [|done]. eapply apply_unconditionally_follows; [|by apply extra_data_roundtrip|done].
    by eapply verify_update_inner_intro.
Qed.
End runtime_spec.
