(* ===== verification/EeRuntime.v ===== *)
(** * Execution environments as snark accounts

    [crates/ee-chain-types]: deposits into an execution environment, outputs of
    its blocks, chunk transitions and the tracker that compares a sequence of
    entries with the expected one.  [crates/ee-acct-types]: the account state of
    an environment with its queue of pending inputs, the messages it recognizes,
    the extra data of an update and the trait of execution environments.
    [crates/ee-chunk-runtime]: the statement a chunk proof is about.
    [crates/ee-acct-runtime]: the snark account program of an environment, the
    verification of its updates from chunk proofs, and the update builder.

    SSZ encodings, tree hashes and the codecs of the field types are outside
    [src/] or generated: they are the fields of [EeExt].  The execution
    environment itself is an instance of the class [ExecutionEnvironment]. *)

From S2P Require Import Prelude Identifiers AcctTypes ChainTypes Externals CodecTypes SnarkRuntime.

Abbreviation SubjectId := Z (only parsing).

#[export] Instance MsgPayload_eq_dec : EqDecision MsgPayload.
Proof. solve_decision. Defined.
#[export] Instance OutputTransfer_eq_dec : EqDecision OutputTransfer.
Proof. solve_decision. Defined.
#[export] Instance OutputMessage_eq_dec : EqDecision OutputMessage.
Proof. solve_decision. Defined.

(** * [ee-chain-types] *)

(** ** [io.rs], [chunk.rs] *)

Record SubjectDepositData := { sdd_dest : SubjectId; sdd_value : BitcoinAmount }.
Record ExecInputs := { ei_subject_deposits : list SubjectDepositData }.
Record ExecOutputTransfer := { eot_dest : AccountId; eot_value : BitcoinAmount }.
Record ExecOutputMessage := { eom_dest : AccountId; eom_payload : MsgPayload }.
Record ExecOutputs := { eo_output_transfers : list ExecOutputTransfer; eo_output_messages : list ExecOutputMessage }.

#[export] Instance SubjectDepositData_eq_dec : EqDecision SubjectDepositData.
Proof. solve_decision. Defined.
#[export] Instance ExecOutputTransfer_eq_dec : EqDecision ExecOutputTransfer.
Proof. solve_decision. Defined.
#[export] Instance ExecOutputMessage_eq_dec : EqDecision ExecOutputMessage.
Proof. solve_decision. Defined.
#[export] Instance ExecOutputs_eq_dec : EqDecision ExecOutputs.
Proof. solve_decision. Defined.

Record ExecHeaderSummary := { ehs_opaque_bytes : bytes }.
#[export] Instance ExecHeaderSummary_eq_dec : EqDecision ExecHeaderSummary.
Proof. solve_decision. Defined.

Record ChunkTransition := {
  ct_parent_exec_blkid : Buf32;
  ct_tip_exec_blkid : Buf32;
  ct_tip_state_root : Buf32;
  ct_tip_exec_header_summary : ExecHeaderSummary;
  ct_inputs : ExecInputs;
  ct_outputs : ExecOutputs;
}.

(** ** [sequence_tracker.rs] *)

Inductive SeqError := SeqMismatch (i : nat) | SeqOverrun.

Record SequenceTracker (T : Type) := { seq_expected_inputs : list T; seq_consumed : nat }.
Arguments seq_expected_inputs {_} _.
Arguments seq_consumed {_} _.

Section tracker.
Context {T : Type}.

Definition SequenceTracker_new (expected : list T) : SequenceTracker T :=
  {| seq_expected_inputs := expected; seq_consumed := 0 |}.

Definition expected_next_rel (t : SequenceTracker T) (off : nat) : option T :=
  seq_expected_inputs t !! (seq_consumed t + off)%nat.

Definition advance_unchecked (count : nat) (t : SequenceTracker T) : SequenceTracker T :=
  {| seq_expected_inputs := seq_expected_inputs t; seq_consumed := seq_consumed t + count |}.

Definition consume_input_with (f : T -> bool) : M SeqError (SequenceTracker T) unit := fun t =>
  match expected_next_rel t 0 with
  | None => (Err SeqOverrun, t)
  | Some exp_next => if negb (f exp_next) then (Err (SeqMismatch (seq_consumed t)), t) else (Ok tt, advance_unchecked 1 t)
  end.

(** Slicing past the end panics. *)
Definition seq_remaining {E} (t : SequenceTracker T) : res E (list T) :=
  if (length (seq_expected_inputs t) <? seq_consumed t)%nat then Panic else Ok (drop (seq_consumed t) (seq_expected_inputs t)).

Definition is_fully_consumed (t : SequenceTracker T) : bool := (length (seq_expected_inputs t) <=? seq_consumed t)%nat.

Context `{EqDecision T}.

Fixpoint check_inputs_from (t : SequenceTracker T) (i : nat) (inputs : list T) : res SeqError unit :=
  match inputs with
  | [] => Ok tt
  | input :: inputs' =>
      let! exp_next := expect (expected_next_rel t i) in
      if negb (bool_decide (input = exp_next)) then Err (SeqMismatch (seq_consumed t + i)) else check_inputs_from t (S i) inputs'
  end.

Definition check_inputs (inputs : list T) (t : SequenceTracker T) : res SeqError unit :=
  let! rest := seq_remaining t in
  if (length rest <? length inputs)%nat then Err SeqOverrun else check_inputs_from t 0 inputs.

Definition consume_inputs (inputs : list T) : M SeqError (SequenceTracker T) unit :=
  mreads_res (check_inputs inputs) ;;; mmodify (advance_unchecked (length inputs)).
Definition consume_input (input : T) : M SeqError (SequenceTracker T) unit := consume_inputs [input].
End tracker.

(** * [ee-acct-types] *)

(** ** [errors.rs] *)

Inductive EnvError {ET : ExtTypes} :=
| EnvMalformedChainState
| EnvMalformedExtraData
| EnvMalformedChainSegment
| EnvMismatchedChainSegment
| EnvUncommittedChainSegment
| EnvConflictingPublicState
| EnvMismatchedCurStateData
| EnvMismatchedIntermediateState
| EnvMismatchedTerminalState
| EnvUnsatisfiedObligations
| EnvInsufficientPartialState
| EnvInvalidBlock
| EnvInvalidBlockTx
| EnvInvalidDepositAddress (s : SubjectId)
| EnvInconsistentChunkIo
| EnvOutputOverflow
| EnvInvalidChunkProof
| EnvCodec (e : CodecError).

Inductive MessageDecodeError := InvalidFormat | InvalidBody | UnsupportedType (ty : Z).

(** [From<EnvError> for ProgramError<EnvError>]: codec errors pass through. *)
Definition env_into_program {ET : ExtTypes} (e : EnvError) : ProgramError EnvError :=
  match e with EnvCodec c => PeCodec c | _ => PeInternal e end.

(** ** [state.rs] *)

Definition MAX_PENDING_INPUTS : Z := Z.shiftl 1 16.
Definition MAX_PENDING_FINCLS : Z := Z.shiftl 1 16.

Inductive PendingInputEntry := PendDeposit (d : SubjectDepositData).
Record PendingFinclEntry := { pf_epoch : Z; pf_raw_tx_hash : Buf32 }.

Record EeAccountState := {
  ee_last_exec_blkid : Buf32;
  ee_last_exec_state_root : Buf32;
  ee_pending_inputs : list PendingInputEntry;
  ee_pending_fincls : list PendingFinclEntry;
}.

Definition set_last_exec_blkid (blkid : Buf32) (s : EeAccountState) : EeAccountState := {|
  ee_last_exec_blkid := blkid; ee_last_exec_state_root := ee_last_exec_state_root s;
  ee_pending_inputs := ee_pending_inputs s; ee_pending_fincls := ee_pending_fincls s |}.
Definition set_last_exec_state_root (root : Buf32) (s : EeAccountState) : EeAccountState := {|
  ee_last_exec_blkid := ee_last_exec_blkid s; ee_last_exec_state_root := root;
  ee_pending_inputs := ee_pending_inputs s; ee_pending_fincls := ee_pending_fincls s |}.
Definition set_pending_inputs (l : list PendingInputEntry) (s : EeAccountState) : EeAccountState := {|
  ee_last_exec_blkid := ee_last_exec_blkid s; ee_last_exec_state_root := ee_last_exec_state_root s;
  ee_pending_inputs := l; ee_pending_fincls := ee_pending_fincls s |}.
Definition set_pending_fincls (l : list PendingFinclEntry) (s : EeAccountState) : EeAccountState := {|
  ee_last_exec_blkid := ee_last_exec_blkid s; ee_last_exec_state_root := ee_last_exec_state_root s;
  ee_pending_inputs := ee_pending_inputs s; ee_pending_fincls := l |}.

(** Reports whether there was room. *)
Definition add_pending_input (inp : PendingInputEntry) (s : EeAccountState) : bool * EeAccountState :=
  if zlen (ee_pending_inputs s) <? MAX_PENDING_INPUTS then (true, set_pending_inputs (ee_pending_inputs s ++ [inp]) s)
  else (false, s).

(** Removes nothing when fewer than [n] are pending. *)
Definition remove_pending_inputs (n : nat) (s : EeAccountState) : list PendingInputEntry * EeAccountState :=
  if (length (ee_pending_inputs s) <? n)%nat then ([], s)
  else (take n (ee_pending_inputs s), set_pending_inputs (drop n (ee_pending_inputs s)) s).

Definition add_pending_fincl (inp : PendingFinclEntry) (s : EeAccountState) : bool * EeAccountState :=
  if zlen (ee_pending_fincls s) <? MAX_PENDING_FINCLS then (true, set_pending_fincls (ee_pending_fincls s ++ [inp]) s)
  else (false, s).

Definition remove_pending_fincls (n : nat) (s : EeAccountState) : list PendingFinclEntry * EeAccountState :=
  if (length (ee_pending_fincls s) <? n)%nat then ([], s)
  else (take n (ee_pending_fincls s), set_pending_fincls (drop n (ee_pending_fincls s)) s).

(** ** External encodings *)

Class EeExt {ET : ExtTypes} := {
  (** Comparison of predicate keys. *)
  predicate_key_eqb : PredicateKey -> PredicateKey -> bool;

  (** Codecs of [SubjectId] and of [VarVec<u8, MAX_TRANSFER_DATA_BYTES>]. *)
  subject_id_codec : CodecOf SubjectId;
  transfer_data_codec : CodecOf bytes;

  (** SSZ and tree hashes of the generated types. *)
  chunk_transition_as_ssz_bytes : ChunkTransition -> bytes;
  chunk_transition_from_ssz_bytes : bytes -> option ChunkTransition;
  exec_inputs_as_ssz_bytes : ExecInputs -> bytes;
  exec_inputs_from_ssz_bytes : bytes -> option ExecInputs;
  exec_outputs_as_ssz_bytes : ExecOutputs -> bytes;
  exec_outputs_from_ssz_bytes : bytes -> option ExecOutputs;
  ee_state_as_ssz_bytes : EeAccountState -> bytes;
  ee_state_from_ssz_bytes : bytes -> option EeAccountState;
  ee_state_tree_hash_root : EeAccountState -> Buf32;
}.

(** ** [messages.rs] *)

Definition DEPOSIT_MSG_TYPE : Z := 2.
Definition SUBJ_TRANSFER_MSG_TYPE : Z := 1.
Definition COMMIT_MSG_TYPE : Z := 16.

Record DepositMsgData := { dm_dest_subject : SubjectId }.
Record SubjTransferMsgData := { stm_source_subject : SubjectId; stm_dest_subject : SubjectId; stm_transfer_data : bytes }.
Record CommitMsgData := { cm_new_tip_exec_blkid : Buf32 }.

Inductive DecodedEeMessageData :=
| EeDeposit (d : DepositMsgData)
| EeSubjTransfer (d : SubjTransferMsgData)
| EeCommit (d : CommitMsgData).

(** ** [extra_data.rs] *)

Record UpdateExtraData := {
  xd_new_tip_blkid : Buf32;
  xd_new_tip_state_root : Buf32;
  xd_processed_inputs : Z;
  xd_processed_fincls : Z;
}.

Section messages.
Context {ET : ExtTypes} `{X : !Ext} `{CE : !CodecExt} `{EX : !EeExt}.

Definition deposit_msg_codec : CodecOf DepositMsgData := {|
  encode := fun d => encode subject_id_codec (dm_dest_subject d);
  decode := let* s := decode subject_id_codec in mret {| dm_dest_subject := s |} |}.

Definition subj_transfer_msg_codec : CodecOf SubjTransferMsgData := {|
  encode := fun d =>
    encode subject_id_codec (stm_source_subject d) +++ encode subject_id_codec (stm_dest_subject d) +++
    encode transfer_data_codec (stm_transfer_data d);
  decode :=
    let* s := decode subject_id_codec in let* d := decode subject_id_codec in let* b := decode transfer_data_codec in
    mret {| stm_source_subject := s; stm_dest_subject := d; stm_transfer_data := b |} |}.

Definition commit_msg_codec : CodecOf CommitMsgData := {|
  encode := fun d => encode hash_codec (cm_new_tip_exec_blkid d);
  decode := let* h := decode hash_codec in mret {| cm_new_tip_exec_blkid := h |} |}.

Definition decode_codec_msg_body {T} (c : CodecOf T) (buf : bytes) : res MessageDecodeError T :=
  res_map_err (fun _ => InvalidBody) (decode_buf_exact c buf).

Definition decode_raw (buf : bytes) : res MessageDecodeError DecodedEeMessageData :=
  let! (ty, body) := ok_or (msg_ref_parse buf) InvalidFormat in
  if ty =? DEPOSIT_MSG_TYPE then let! d := decode_codec_msg_body deposit_msg_codec body in Ok (EeDeposit d)
  else if ty =? SUBJ_TRANSFER_MSG_TYPE then let! d := decode_codec_msg_body subj_transfer_msg_codec body in Ok (EeSubjTransfer d)
  else if ty =? COMMIT_MSG_TYPE then let! d := decode_codec_msg_body commit_msg_codec body in Ok (EeCommit d)
  else Err (UnsupportedType ty).

Definition update_extra_data_codec : CodecOf UpdateExtraData := {|
  encode := fun d =>
    encode hash_codec (xd_new_tip_blkid d) +++ encode hash_codec (xd_new_tip_state_root d) +++
    encode u32_codec (xd_processed_inputs d) +++ encode u32_codec (xd_processed_fincls d);
  decode :=
    let* b := decode hash_codec in let* r := decode hash_codec in
    let* i := decode u32_codec in let* f := decode u32_codec in
    mret {| xd_new_tip_blkid := b; xd_new_tip_state_root := r; xd_processed_inputs := i; xd_processed_fincls := f |} |}.
End messages.

(** ** [traits.rs], [outputs.rs] *)

Record ExecBlockOutput (WB BO : Type) := { ebo_write_batch : WB; ebo_block_output : BO; ebo_outputs : ExecOutputs }.
Arguments ebo_write_batch {_ _} _.
Arguments ebo_block_output {_ _} _.
Arguments ebo_outputs {_ _} _.

Class ExecutionEnvironment {ET : ExtTypes} (E : Type) := {
  PartialState : Type;
  Block : Type;
  Header : Type;
  Body : Type;
  Intrinsics : Type;
  WriteBatch : Type;
  BlockOutput : Type;

  partial_state_codec : CodecOf PartialState;
  partial_state_root : PartialState -> res EnvError Buf32;

  header_codec : CodecOf Header;
  get_intrinsics : Header -> Intrinsics;
  get_parent_id : Header -> Buf32;
  get_state_root : Header -> Buf32;
  get_exec_header_summary : Header -> ExecHeaderSummary;
  compute_block_id : Header -> Buf32;

  block_codec : CodecOf Block;
  get_header : Block -> Header;
  get_body : Block -> Body;
  check_header_matches_body : Header -> Body -> bool;

  execute_block_body : E -> PartialState -> Intrinsics * Body -> ExecInputs -> res EnvError (ExecBlockOutput WriteBatch BlockOutput);
  verify_outputs_against_header : E -> Header -> ExecBlockOutput WriteBatch BlockOutput -> res EnvError unit;
  merge_write_into_state : E -> WriteBatch -> M EnvError PartialState unit;
  update_partial_state_after_block : E -> Header -> M EnvError PartialState unit;
}.

(** * [ee-chunk-runtime] *)

Section chunk.
Context {ET : ExtTypes} `{X : !Ext} `{CE : !CodecExt} `{EX : !EeExt}.
Context {E : Type} `{EE : !ExecutionEnvironment E}.

Record ChunkBlock := { cb_inputs : ExecInputs; cb_outputs : ExecOutputs; cb_exec_block : Block }.

Definition cb_header (b : ChunkBlock) : Header := get_header (cb_exec_block b).

(** ** [chunk_processing.rs] *)

Definition process_block (ee : E) (block : ChunkBlock) : M EnvError PartialState unit :=
  let eb := cb_exec_block block in
  if negb (check_header_matches_body (get_header eb) (get_body eb)) then merr EnvInvalidBlock
  else
    let epl := (get_intrinsics (get_header eb), get_body eb) in
    let* exec_outp := mreads_res (fun st => execute_block_body ee st epl (cb_inputs block)) in
    mlift (verify_outputs_against_header ee (get_header eb) exec_outp) ;;;
    if negb (bool_decide (ebo_outputs exec_outp = cb_outputs block)) then merr EnvInvalidBlock
    else
      merge_write_into_state ee (ebo_write_batch exec_outp) ;;;
      let* computed_state_root := mreads_res partial_state_root in
      if negb (computed_state_root =? get_state_root (get_header eb)) then merr EnvInvalidBlock
      else update_partial_state_after_block ee (get_header eb).

Record IoTracker := {
  io_deposits_tracker : SequenceTracker SubjectDepositData;
  io_out_msg_tracker : SequenceTracker ExecOutputMessage;
  io_out_xfr_tracker : SequenceTracker ExecOutputTransfer;
}.

Definition IoTracker_from_io (expected_inputs : ExecInputs) (expected_outputs : ExecOutputs) : IoTracker := {|
  io_deposits_tracker := SequenceTracker_new (ei_subject_deposits expected_inputs);
  io_out_msg_tracker := SequenceTracker_new (eo_output_messages expected_outputs);
  io_out_xfr_tracker := SequenceTracker_new (eo_output_transfers expected_outputs) |}.

Definition check_update (inps : ExecInputs) (outps : ExecOutputs) (t : IoTracker) : res EnvError IoTracker :=
  let! _ := res_map_err (fun _ => EnvInconsistentChunkIo) (check_inputs (ei_subject_deposits inps) (io_deposits_tracker t)) in
  let! _ := res_map_err (fun _ => EnvInconsistentChunkIo) (check_inputs (eo_output_messages outps) (io_out_msg_tracker t)) in
  let! _ := res_map_err (fun _ => EnvInconsistentChunkIo) (check_inputs (eo_output_transfers outps) (io_out_xfr_tracker t)) in
  Ok {| io_deposits_tracker := advance_unchecked (length (ei_subject_deposits inps)) (io_deposits_tracker t);
        io_out_msg_tracker := advance_unchecked (length (eo_output_messages outps)) (io_out_msg_tracker t);
        io_out_xfr_tracker := advance_unchecked (length (eo_output_transfers outps)) (io_out_xfr_tracker t) |}.

Definition is_all_consumed (t : IoTracker) : bool :=
  is_fully_consumed (io_deposits_tracker t) && is_fully_consumed (io_out_msg_tracker t)
  && is_fully_consumed (io_out_xfr_tracker t).

Definition verify_all_consumed (t : IoTracker) : res EnvError unit :=
  if is_all_consumed t then Ok tt else Err EnvInconsistentChunkIo.

(** The loop over the blocks, from the tip verified so far. *)
Fixpoint process_blocks (ee : E) (tip : Buf32) (t : IoTracker) (blocks : list ChunkBlock) : M EnvError PartialState IoTracker :=
  match blocks with
  | [] => mret t
  | cb :: blocks' =>
      let header := cb_header cb in
      if negb (get_parent_id header =? tip) then merr EnvMismatchedChainSegment
      else
        process_block ee cb ;;;
        let* t' := mlift (check_update (cb_inputs cb) (cb_outputs cb) t) in
        process_blocks ee (compute_block_id header) t' blocks'
  end.

Definition process_chunk_blocks (ee : E) (chunk : list ChunkBlock) (verified_tip : Buf32) (expected_inputs : ExecInputs)
    (expected_outputs : ExecOutputs) : M EnvError PartialState unit :=
  if bool_decide (length chunk = 0%nat) then merr EnvMalformedChainSegment
  else
    let* t := process_blocks ee verified_tip (IoTracker_from_io expected_inputs expected_outputs) chunk in
    mlift (verify_all_consumed t).

Definition verify_chunk_transition (tsn : ChunkTransition) (ee : E) (prev_header : Header) (chunk : list ChunkBlock)
    : M EnvError PartialState unit :=
  if negb (compute_block_id prev_header =? ct_parent_exec_blkid tsn) then merr EnvMismatchedChainSegment
  else match last chunk with
  | None => merr EnvMalformedChainSegment
  | Some b =>
      let new_tip_header := cb_header b in
      if negb (compute_block_id new_tip_header =? ct_tip_exec_blkid tsn) then merr EnvMismatchedChainSegment
      else if negb (bool_decide (get_exec_header_summary new_tip_header = ct_tip_exec_header_summary tsn)) then
        merr EnvMismatchedChainSegment
      else
        let* computed_pre_sr := mreads_res partial_state_root in
        if negb (computed_pre_sr =? get_state_root prev_header) then merr EnvMismatchedCurStateData
        else
          process_chunk_blocks ee chunk (ct_parent_exec_blkid tsn) (ct_inputs tsn) (ct_outputs tsn) ;;;
          let* computed_post_sr := mreads_res partial_state_root in
          if negb (computed_post_sr =? get_state_root new_tip_header) then merr EnvMismatchedChainSegment
          else if negb (computed_post_sr =? ct_tip_state_root tsn) then merr EnvMismatchedChainSegment
          else mret tt
  end.

(** ** [private_inputs.rs], [runtime.rs] *)

Record RawBlockData := { rbd_raw_block : bytes; rbd_exec_inputs_ssz : bytes; rbd_exec_outputs_ssz : bytes }.
Record RawChunkData := { rcd_blocks : list RawBlockData; rcd_prev_exec_blkid : Buf32 }.

Record ChunkPrivateInput := {
  cpi_chunk_transition_ssz : bytes;
  cpi_raw_chunk : RawChunkData;
  cpi_raw_prev_header : bytes;
  cpi_raw_partial_pre_state : bytes;
}.

Definition RawBlockData_new (raw_block : bytes) (exec_inputs : ExecInputs) (exec_outputs : ExecOutputs) : RawBlockData :=
  {| rbd_raw_block := raw_block; rbd_exec_inputs_ssz := exec_inputs_as_ssz_bytes exec_inputs;
     rbd_exec_outputs_ssz := exec_outputs_as_ssz_bytes exec_outputs |}.

Definition RawBlockData_from_block (block : Block) (exec_inputs : ExecInputs) (exec_outputs : ExecOutputs)
    : res CodecError RawBlockData :=
  let! raw := encode block_codec block in Ok (RawBlockData_new raw exec_inputs exec_outputs).

Definition ChunkPrivateInput_new (chunk_transition : ChunkTransition) (raw_chunk : RawChunkData)
    (raw_prev_header raw_partial_pre_state : bytes) : ChunkPrivateInput :=
  {| cpi_chunk_transition_ssz := chunk_transition_as_ssz_bytes chunk_transition; cpi_raw_chunk := raw_chunk;
     cpi_raw_prev_header := raw_prev_header; cpi_raw_partial_pre_state := raw_partial_pre_state |}.

Fixpoint decode_block_io (blocks : list RawBlockData) : res EnvError (list (ExecInputs * ExecOutputs)) :=
  match blocks with
  | [] => Ok []
  | b :: blocks' =>
      let! i := ok_or (exec_inputs_from_ssz_bytes (rbd_exec_inputs_ssz b)) EnvMalformedChainSegment in
      let! o := ok_or (exec_outputs_from_ssz_bytes (rbd_exec_outputs_ssz b)) EnvMalformedChainSegment in
      let! l := decode_block_io blocks' in Ok ((i, o) :: l)
  end.

Fixpoint decode_blocks (blocks : list RawBlockData) (io : list (ExecInputs * ExecOutputs)) : res EnvError (list ChunkBlock) :=
  match blocks, io with
  | [], _ => Ok []
  | b :: blocks', (i, o) :: io' =>
      let! block := res_map_err (fun _ => EnvMalformedChainSegment) (decode_buf_exact block_codec (rbd_raw_block b)) in
      let! l := decode_blocks blocks' io' in Ok ({| cb_inputs := i; cb_outputs := o; cb_exec_block := block |} :: l)
  | _ :: _, [] => Panic
  end.

Definition verify_input (ee : E) (input : ChunkPrivateInput) : res EnvError unit :=
  let! tsn := ok_or (chunk_transition_from_ssz_bytes (cpi_chunk_transition_ssz input)) EnvMalformedChainSegment in
  let! prev_header := res_map_err (fun _ => EnvMalformedChainSegment) (decode_buf_exact header_codec (cpi_raw_prev_header input)) in
  let! pre_state :=
    res_map_err (fun _ => EnvMalformedChainState) (decode_buf_exact partial_state_codec (cpi_raw_partial_pre_state input)) in
  let! io := decode_block_io (rcd_blocks (cpi_raw_chunk input)) in
  let! chunk := decode_blocks (rcd_blocks (cpi_raw_chunk input)) io in
  fst (verify_chunk_transition tsn ee prev_header chunk pre_state).
End chunk.

(** * [ee-acct-runtime] *)

(** ** [private_input.rs] *)

Record ChunkInput := { chi_chunk_transition_ssz : bytes; chi_proof : bytes }.

Record EePrivateInput := {
  epi_raw_prev_header : bytes;
  epi_raw_partial_pre_state : bytes;
  epi_chunks : list ChunkInput;
}.

Inductive EeSnarkAccountProgram (E : Type) := EeProgram.
Arguments EeProgram {_}.

Section account.
Context {ET : ExtTypes} `{X : !Ext} `{CE : !CodecExt} `{EX : !EeExt} `{RX : !RuntimeExt}.
Context {E : Type} `{EE : !ExecutionEnvironment E}.

Definition ChunkInput_new (chunk_transition : ChunkTransition) (proof : bytes) : ChunkInput :=
  {| chi_chunk_transition_ssz := chunk_transition_as_ssz_bytes chunk_transition; chi_proof := proof |}.

(** ** [verification_state.rs] *)

Record EeVerificationInput := {
  evi_ee : E;
  evi_chunk_predicate_key : PredicateKey;
  evi_input_chunks : list ChunkInput;
  evi_raw_partial_pre_state : bytes;
}.

Record EeVerificationState := {
  evs_ee : E;
  evs_chunk_predicate_key : PredicateKey;
  evs_cur_verified_exec_blkid : Buf32;
  evs_cur_verified_exec_state_root : Buf32;
  evs_expected_outputs : UpdateOutputs;
  evs_accumulated_outputs : UpdateOutputs;
  evs_input_chunks : list ChunkInput;
  evs_raw_partial_pre_state : bytes;
}.

Definition evs_new_from_state (ee : E) (chunk_predicate_key : PredicateKey) (state : EeAccountState)
    (expected_outputs : UpdateOutputs) (input_chunks : list ChunkInput) (raw_partial_pre_state : bytes) : EeVerificationState := {|
  evs_ee := ee; evs_chunk_predicate_key := chunk_predicate_key;
  evs_cur_verified_exec_blkid := ee_last_exec_blkid state; evs_cur_verified_exec_state_root := ee_last_exec_state_root state;
  evs_expected_outputs := expected_outputs; evs_accumulated_outputs := UpdateOutputs_new_empty;
  evs_input_chunks := input_chunks; evs_raw_partial_pre_state := raw_partial_pre_state |}.

Definition evs_set_outputs (o : UpdateOutputs) (v : EeVerificationState) : EeVerificationState := {|
  evs_ee := evs_ee v; evs_chunk_predicate_key := evs_chunk_predicate_key v;
  evs_cur_verified_exec_blkid := evs_cur_verified_exec_blkid v; evs_cur_verified_exec_state_root := evs_cur_verified_exec_state_root v;
  evs_expected_outputs := evs_expected_outputs v; evs_accumulated_outputs := o;
  evs_input_chunks := evs_input_chunks v; evs_raw_partial_pre_state := evs_raw_partial_pre_state v |}.
Definition evs_set_tip (blkid root : Buf32) (v : EeVerificationState) : EeVerificationState := {|
  evs_ee := evs_ee v; evs_chunk_predicate_key := evs_chunk_predicate_key v;
  evs_cur_verified_exec_blkid := blkid; evs_cur_verified_exec_state_root := root;
  evs_expected_outputs := evs_expected_outputs v; evs_accumulated_outputs := evs_accumulated_outputs v;
  evs_input_chunks := evs_input_chunks v; evs_raw_partial_pre_state := evs_raw_partial_pre_state v |}.

Definition into_output_transfer (t : ExecOutputTransfer) : OutputTransfer := {| ot_dest := eot_dest t; ot_value := eot_value t |}.
Definition into_output_message (m : ExecOutputMessage) : OutputMessage := {| om_dest := eom_dest m; om_payload := eom_payload m |}.

(** A failure leaves the transfers merged. *)
Definition merge_new_outputs (outputs : ExecOutputs) : M EnvError EeVerificationState unit :=
  let* o := mreads_res (fun v => res_map_err (fun _ => EnvOutputOverflow)
    (UpdateOutputs_try_extend_transfers (evs_accumulated_outputs v) (map into_output_transfer (eo_output_transfers outputs)))) in
  mmodify (evs_set_outputs o) ;;;
  let* o := mreads_res (fun v => res_map_err (fun _ => EnvOutputOverflow)
    (UpdateOutputs_try_extend_messages (evs_accumulated_outputs v) (map into_output_message (eo_output_messages outputs)))) in
  mmodify (evs_set_outputs o).

Definition deposit_matches (deposit : SubjectDepositData) (pending : PendingInputEntry) : bool :=
  match pending with PendDeposit expected => bool_decide (deposit = expected) end.

(** The verification state with the tracker of the pending inputs. *)
Abbreviation C := (M EnvError (EeVerificationState * SequenceTracker PendingInputEntry)).

Definition process_decoded_transition (transition : ChunkTransition) : C unit :=
  let* tip := mreads (fun s => evs_cur_verified_exec_blkid (fst s)) in
  if negb (ct_parent_exec_blkid transition =? tip) then merr EnvMismatchedChainSegment
  else
    miter (fun deposit => on_snd (mmap_err (fun _ => EnvInconsistentChunkIo) (consume_input_with (deposit_matches deposit))))
      (ei_subject_deposits (ct_inputs transition)) ;;;
    on_fst (merge_new_outputs (ct_outputs transition)) ;;;
    on_fst (mmodify (evs_set_tip (ct_tip_exec_blkid transition) (ct_tip_state_root transition))).

Definition verify_chunk (chunk : ChunkInput) : C unit :=
  let* ok := mreads (fun s =>
    verify_claim_witness (evs_chunk_predicate_key (fst s)) (chi_chunk_transition_ssz chunk) (chi_proof chunk)) in
  if negb ok then merr EnvInvalidChunkProof
  else
    let* transition := mlift (ok_or (chunk_transition_from_ssz_bytes (chi_chunk_transition_ssz chunk)) EnvMalformedChainSegment) in
    process_decoded_transition transition.

Definition process_chunks_on_acct (state : EeAccountState) (extra_data : UpdateExtraData) : M EnvError EeVerificationState unit := fun v =>
  let '(r, (v', tracker)) := miter verify_chunk (evs_input_chunks v) (v, SequenceTracker_new (ee_pending_inputs state)) in
  match r with
  | Ok _ => if negb (Z.of_nat (seq_consumed tracker) =? xd_processed_inputs extra_data) then (Err EnvInconsistentChunkIo, v') else (Ok tt, v')
  | _ => (r, v')
  end.

Definition opt_predicate_eqb (a b : option PredicateKey) : bool :=
  match a, b with Some x, Some y => predicate_key_eqb x y | None, None => true | _, _ => false end.

Definition update_outputs_eqb (a b : UpdateOutputs) : bool :=
  bool_decide (uo_transfers a = uo_transfers b) && bool_decide (uo_messages a = uo_messages b)
  && opt_predicate_eqb (uo_new_predicate a) (uo_new_predicate b).

Definition check_obligations (v : EeVerificationState) : res EnvError unit :=
  if negb (update_outputs_eqb (evs_expected_outputs v) (evs_accumulated_outputs v)) then Err EnvUnsatisfiedObligations else Ok tt.

(** ** [ee_program.rs] *)

(** The result of [add_pending_input] is ignored. *)
Definition apply_decoded_message (msg : DecodedEeMessageData) (value : BitcoinAmount) : M (ProgramError EnvError) EeAccountState unit :=
  match msg with
  | EeDeposit data =>
      mmodify (fun s => snd (add_pending_input (PendDeposit {| sdd_dest := dm_dest_subject data; sdd_value := value |}) s))
  | EeSubjTransfer _ => mret tt
  | EeCommit _ => mret tt
  end.

Definition process_input_message (msg : InputMessage DecodedEeMessageData) : M (ProgramError EnvError) EeAccountState unit :=
  match im_decoded msg with
  | Some decoded_msg => apply_decoded_message decoded_msg (mm_value (im_meta msg))
  | None => mret tt
  end.

Definition ee_pre_finalize_state (extra_data : UpdateExtraData) : M (ProgramError EnvError) EeAccountState unit :=
  mmodify (set_last_exec_blkid (xd_new_tip_blkid extra_data)) ;;;
  mmodify (set_last_exec_state_root (xd_new_tip_state_root extra_data)).

Definition ee_finalize_state (extra_data : UpdateExtraData) : M (ProgramError EnvError) EeAccountState unit :=
  mmodify (fun s => snd (remove_pending_inputs (Z.to_nat (xd_processed_inputs extra_data)) s)) ;;;
  mmodify (fun s => snd (remove_pending_fincls (Z.to_nat (xd_processed_fincls extra_data)) s)).

Definition ee_start_verification (state : EeAccountState) (vinput : EeVerificationInput) (ulinfo : UpdateLedgerInfo)
    : res (ProgramError EnvError) EeVerificationState :=
  Ok (evs_new_from_state (evi_ee vinput) (evi_chunk_predicate_key vinput) state (uli_outputs ulinfo) (evi_input_chunks vinput)
        (evi_raw_partial_pre_state vinput)).

Definition ee_verify_coinput (coinput : bytes) : M (ProgramError EnvError) EeVerificationState unit :=
  if negb (bool_decide (length coinput = 0%nat)) then merr PeMalformedCoinput else mret tt.

Definition ee_finalize_verification (state : EeAccountState) (vstate : EeVerificationState) (extra_data : UpdateExtraData)
    : res (ProgramError EnvError) unit :=
  let '(r, vstate) := process_chunks_on_acct state extra_data vstate in
  let! _ := res_map_err env_into_program r in
  if negb (xd_new_tip_blkid extra_data =? evs_cur_verified_exec_blkid vstate) then Err PeInvalidExtraData
  else if negb (xd_new_tip_state_root extra_data =? evs_cur_verified_exec_state_root vstate) then Err PeInvalidExtraData
  else if negb (ee_last_exec_blkid state =? evs_cur_verified_exec_blkid vstate) then Err PeInvalidExtraData
  else if negb (ee_last_exec_state_root state =? evs_cur_verified_exec_state_root vstate) then Err PeInvalidExtraData
  else res_map_err (fun _ => PeUnsatisfiedObligations) (check_obligations vstate).

#[export] Instance EeSnarkAccountProgram_program
    : SnarkAccountProgram (EeSnarkAccountProgram E) EeAccountState DecodedEeMessageData UpdateExtraData EnvError := {|
  compute_state_root := ee_state_tree_hash_root;
  state_as_ssz_bytes := ee_state_as_ssz_bytes;
  state_from_ssz_bytes := ee_state_from_ssz_bytes;
  try_parse buf := match decode_raw buf with Ok m => Some m | _ => None end;
  extra_data_codec := update_extra_data_codec;
  start_update _ := mret tt;
  process_message _ := process_input_message;
  pre_finalize_state _ := ee_pre_finalize_state;
  finalize_state _ := ee_finalize_state;
|}.

#[export] Instance EeSnarkAccountProgram_verification
    : SnarkAccountProgramVerification (EeSnarkAccountProgram E) EeAccountState DecodedEeMessageData UpdateExtraData EnvError
        EeVerificationState EeVerificationInput := {|
  start_verification _ := ee_start_verification;
  verify_coinput _ _ _ := ee_verify_coinput;
  finalize_verification _ := ee_finalize_verification;
|}.

(** ** [update_processing.rs], [block_assembly.rs] *)

Definition ee_verify_and_process_update (ee : E) (chunk_predicate_key : PredicateKey) (ee_priv_input : EePrivateInput)
    (upd_priv_input : PrivateInput) : res (ProgramError EnvError) unit :=
  let vinput := {| evi_ee := ee; evi_chunk_predicate_key := chunk_predicate_key; evi_input_chunks := epi_chunks ee_priv_input;
                   evi_raw_partial_pre_state := epi_raw_partial_pre_state ee_priv_input |} in
  verify_and_process_update (EeProgram (E := E)) upd_priv_input vinput.

Definition ee_process_update_unconditionally (update_manifest : UpdateManifest) : M (ProgramError EnvError) EeAccountState unit :=
  apply_update_unconditionally (EeProgram (E := E)) update_manifest.

Definition apply_input_messages (msgs : list MessageEntry) : M EnvError EeAccountState unit :=
  miter (fun entry => mmap_err (fun _ => EnvInvalidBlock)
    (process_input_message (InputMessage_from_msg_entry (P := EeSnarkAccountProgram E) entry))) msgs.

(** ** [builder_errors.rs], [update_builder.rs] *)

Inductive BuilderError :=
| BeCodec (e : CodecError)
| BeEnv (e : EnvError)
| BeMessageDecode (e : MessageDecodeError)
| BeProgram (e : ProgramError EnvError)
| BeChainLinkage (expected parent : Buf32)
| BeInputMismatch (position : nat)
| BeOutputOverflow.

Abbreviation GenericUpdateBuilder :=
  (UpdateBuilder (P := EeSnarkAccountProgram E) (St := EeAccountState) (VS := EeVerificationState)).

Record EeUpdateBuilder := {
  eub_inner : GenericUpdateBuilder;
  eub_cur_tip_blkid : Buf32;
  eub_cur_tip_state_root : Buf32;
  eub_pending_inputs : list PendingInputEntry;
  eub_inputs_consumed : nat;
  eub_fincls_processed : Z;
}.

Definition eub_set_inner (b : EeUpdateBuilder) (inner : GenericUpdateBuilder) : EeUpdateBuilder := {|
  eub_inner := inner; eub_cur_tip_blkid := eub_cur_tip_blkid b; eub_cur_tip_state_root := eub_cur_tip_state_root b;
  eub_pending_inputs := eub_pending_inputs b; eub_inputs_consumed := eub_inputs_consumed b;
  eub_fincls_processed := eub_fincls_processed b |}.
Definition eub_set_pending (l : list PendingInputEntry) (b : EeUpdateBuilder) : EeUpdateBuilder := {|
  eub_inner := eub_inner b; eub_cur_tip_blkid := eub_cur_tip_blkid b; eub_cur_tip_state_root := eub_cur_tip_state_root b;
  eub_pending_inputs := l; eub_inputs_consumed := eub_inputs_consumed b; eub_fincls_processed := eub_fincls_processed b |}.
Definition eub_advance (blkid root : Buf32) (n : nat) (b : EeUpdateBuilder) : EeUpdateBuilder := {|
  eub_inner := eub_inner b; eub_cur_tip_blkid := blkid; eub_cur_tip_state_root := root;
  eub_pending_inputs := eub_pending_inputs b; eub_inputs_consumed := eub_inputs_consumed b + n;
  eub_fincls_processed := eub_fincls_processed b |}.
Definition with_processed_fincls (count : Z) (b : EeUpdateBuilder) : EeUpdateBuilder := {|
  eub_inner := eub_inner b; eub_cur_tip_blkid := eub_cur_tip_blkid b; eub_cur_tip_state_root := eub_cur_tip_state_root b;
  eub_pending_inputs := eub_pending_inputs b; eub_inputs_consumed := eub_inputs_consumed b; eub_fincls_processed := count |}.

Definition EeUpdateBuilder_new (snark_state : SnarkAccountState) (initial_state : EeAccountState) (vinput : EeVerificationInput)
    : res BuilderError EeUpdateBuilder :=
  let! ledger_refs := LedgerRefs_new_empty in
  let! inner := res_map_err BeProgram
    (UpdateBuilder_new (EeProgram (E := E)) snark_state initial_state vinput ledger_refs UpdateOutputs_new_empty) in
  Ok {| eub_inner := inner; eub_cur_tip_blkid := ee_last_exec_blkid initial_state;
        eub_cur_tip_state_root := ee_last_exec_state_root initial_state;
        eub_pending_inputs := ee_pending_inputs initial_state; eub_inputs_consumed := 0; eub_fincls_processed := 0 |}.

(** An operation of the inner builder. *)
Definition on_inner {A} (m : M (ProgramError EnvError) GenericUpdateBuilder A) : M BuilderError EeUpdateBuilder A := fun b =>
  let '(r, inner) := m (eub_inner b) in (res_map_err BeProgram r, eub_set_inner b inner).

Definition eub_set_override_seq_no (seq_no : option Seqno) (b : EeUpdateBuilder) : EeUpdateBuilder :=
  eub_set_inner b (set_override_seq_no seq_no (eub_inner b)).

Definition eub_add_message (msg : MessageEntry) : M BuilderError EeUpdateBuilder unit :=
  on_inner (add_message_with_coinput msg []) ;;;
  mmodify (fun b =>
    let state_pending := ee_pending_inputs (ub_cur_state (eub_inner b)) in
    if (length (eub_pending_inputs b) <? length state_pending)%nat then
      eub_set_pending (eub_pending_inputs b ++ drop (length (eub_pending_inputs b)) state_pending) b
    else b).

Definition eub_add_messages (msgs : list MessageEntry) : M BuilderError EeUpdateBuilder unit := miter eub_add_message msgs.

Definition remaining_pending_inputs {Er} (b : EeUpdateBuilder) : res Er (list PendingInputEntry) :=
  if (length (eub_pending_inputs b) <? eub_inputs_consumed b)%nat then Panic
  else Ok (drop (eub_inputs_consumed b) (eub_pending_inputs b)).

(** The loop over the deposits from index [i]. *)
Fixpoint match_deposits (consumed i : nat) (deposits : list SubjectDepositData) (remaining : list PendingInputEntry)
    : res BuilderError unit :=
  match deposits with
  | [] => Ok tt
  | deposit :: deposits' =>
      let! pending := expect (remaining !! i) in
      if deposit_matches deposit pending then match_deposits consumed (S i) deposits' remaining
      else Err (BeInputMismatch (consumed + i))
  end.

Definition accept_chunk_transition (transition : ChunkTransition) : M BuilderError EeUpdateBuilder unit :=
  let* tip := mreads eub_cur_tip_blkid in
  if negb (ct_parent_exec_blkid transition =? tip) then merr (BeChainLinkage tip (ct_parent_exec_blkid transition))
  else
    let deposits := ei_subject_deposits (ct_inputs transition) in
    let* remaining := mreads_res remaining_pending_inputs in
    if (length remaining <? length deposits)%nat then merr (BeInputMismatch (length remaining))
    else
      mreads_res (fun b => match_deposits (eub_inputs_consumed b) 0 deposits remaining) ;;;
      let outputs := ct_outputs transition in
      let* o := mreads_res (fun b => res_map_err (fun _ => BeOutputOverflow)
        (UpdateOutputs_try_extend_transfers (ub_outputs (eub_inner b)) (map into_output_transfer (eo_output_transfers outputs)))) in
      mmodify (fun b => eub_set_inner b (set_outputs o (eub_inner b))) ;;;
      let* o := mreads_res (fun b => res_map_err (fun _ => BeOutputOverflow)
        (UpdateOutputs_try_extend_messages (ub_outputs (eub_inner b)) (map into_output_message (eo_output_messages outputs)))) in
      mmodify (fun b => eub_set_inner b (set_outputs o (eub_inner b))) ;;;
      mmodify (eub_advance (ct_tip_exec_blkid transition) (ct_tip_state_root transition) (length deposits)).

(** The extra data both builds use. *)
Definition eub_extra_data (b : EeUpdateBuilder) : UpdateExtraData := {|
  xd_new_tip_blkid := eub_cur_tip_blkid b; xd_new_tip_state_root := eub_cur_tip_state_root b;
  xd_processed_inputs := wrap_u32 (Z.of_nat (eub_inputs_consumed b));
  xd_processed_fincls := wrap_u32 (eub_fincls_processed b) |}.

Definition eub_build (b : EeUpdateBuilder) : res BuilderError (UpdateOperationData * list bytes) :=
  res_map_err BeProgram (build_operation_data_unverified (eub_extra_data b) (eub_inner b)).

Definition eub_build_private_input (b : EeUpdateBuilder) : res BuilderError PrivateInput :=
  res_map_err BeProgram (build_private_input (eub_extra_data b) (eub_inner b)).
End account.
