(* ===== verification/EeSpec.v ===== *)
(** * What verified updates of an execution environment mean

    A chunk proof is about blocks that were executed one after the other; an
    update accepted from chunk proofs is an execution of the environment from the
    account's last block to the new one, consuming pending inputs in order and
    sending exactly the outputs the update declares.  What the update builder
    builds is accepted. *)

From S2P Require Import Prelude Identifiers AcctTypes ChainTypes Externals CodecTypes SnarkRuntime EeRuntime.

(** ** Sequence trackers *)

Section tracker_spec.
Context {T : Type}.
Implicit Types (t : SequenceTracker T) (l : list T).

(** The entries consumed so far. *)
Definition seq_prefix t l : Prop := seq_consumed t = length l /\ exists rest, seq_expected_inputs t = l ++ rest.

Lemma seq_prefix_new l : seq_prefix (SequenceTracker_new l) [].
Proof. split; [done|]. by exists l. Qed.

Lemma seq_prefix_consumed t l : seq_prefix t l -> is_fully_consumed t = true <-> seq_expected_inputs t = l.
Proof.
  intros [Hc [rest He]]. unfold is_fully_consumed. rewrite He, Hc, length_app, Nat.leb_le. split.
  - intros Hl. destruct rest; simpl in *; [by rewrite app_nil_r|lia].
  - intros Hr. apply (f_equal length) in Hr. rewrite length_app in Hr. lia.
Qed.

Lemma seq_prefix_split t t' l l1 l2 :
  seq_prefix t l -> seq_prefix t' ((l ++ l1) ++ l2) -> seq_expected_inputs t' = seq_expected_inputs t ->
  seq_prefix (advance_unchecked (length l1) t) (l ++ l1).
Proof.
  intros [Hc _] [_ [rest Hr]] He. split; simpl; [by rewrite Hc, length_app|]. exists (l2 ++ rest). by rewrite <- He, Hr, <- !app_assoc.
Qed.

Lemma consume_input_with_ok (f : T -> bool) t t' :
  consume_input_with f t = (Ok tt, t') <-> exists x, seq_expected_inputs t !! seq_consumed t = Some x /\ f x = true /\ t' = advance_unchecked 1 t.
Proof.
  unfold consume_input_with, expected_next_rel. rewrite Nat.add_0_r. split.
  - destruct (_ !! _) as [x|]; [|by intros [=]]. destruct (f x) eqn:Hf; simpl; intros [=]; subst; eauto.
  - intros (x & -> & -> & ->). done.
Qed.

Context `{EqDecision T}.

Lemma check_inputs_from_ok t i l :
  check_inputs_from t i l = Ok tt <-> exists rest, drop (seq_consumed t + i) (seq_expected_inputs t) = l ++ rest.
Proof.
  revert i. induction l as [|x l IH]; intros i; simpl; [by split; eauto|].
  unfold expected_next_rel. destruct (seq_expected_inputs t !! (seq_consumed t + i)%nat) as [y|] eqn:Hy; simpl.
  - rewrite (drop_S _ _ _ Hy). case_bool_decide as Hxy; simpl.
    + subst y. rewrite IH, Nat.add_succ_r. split; intros [rest Hr]; exists rest; [by rewrite Hr|by simplify_eq].
    + split; [done|]. intros [rest Hr]. by simplify_eq.
  - apply lookup_ge_None in Hy. rewrite drop_ge by done. split; [done|by intros [rest ?]].
Qed.

Lemma check_inputs_ok t l l' : seq_prefix t l ->
  check_inputs l' t = Ok tt <-> seq_prefix (advance_unchecked (length l') t) (l ++ l').
Proof.
  intros [Hc [rest He]]. unfold check_inputs, seq_remaining, seq_prefix. simpl. rewrite He, Hc, length_app.
  rewrite (proj2 (Nat.ltb_ge _ _)) by lia. simpl. rewrite drop_app_length, length_app.
  assert (check_inputs_from t 0 l' = Ok tt <-> exists rest', rest = l' ++ rest') as Hfrom.
  { rewrite check_inputs_from_ok, Nat.add_0_r, He, Hc, drop_app_length. done. }
  destruct (length rest <? length l')%nat eqn:Hl.
  - apply Nat.ltb_lt in Hl. split; [done|]. intros [_ [r Hr]]. rewrite <- app_assoc in Hr. apply app_inv_head in Hr. subst.
    rewrite length_app in Hl. lia.
  - rewrite Hfrom. split.
    + intros [r ->]. split; [done|]. exists r. by rewrite app_assoc.
    + intros [_ [r Hr]]. rewrite <- app_assoc in Hr. apply app_inv_head in Hr. eauto.
Qed.
End tracker_spec.

(** ** Chunks *)

Section chunk_spec.
Context {ET : ExtTypes} `{X : !Ext} `{CE : !CodecExt} `{EX : !EeExt}.
Context {E : Type} `{EE : !ExecutionEnvironment E}.
Implicit Types (ee : E) (blocks : list ChunkBlock) (st : PartialState).

(** Blocks executed one on top of the other. *)
Inductive run_blocks ee : Buf32 -> list ChunkBlock -> Buf32 -> PartialState -> PartialState -> Prop :=
| run_blocks_nil tip st : run_blocks ee tip [] tip st st
| run_blocks_cons cb blocks tip st st1 st2 :
    process_block ee cb st = (Ok tt, st1) ->
    run_blocks ee (compute_block_id (cb_header cb)) blocks tip st1 st2 ->
    run_blocks ee (get_parent_id (cb_header cb)) (cb :: blocks) tip st st2.

Definition blocks_deposits blocks : list SubjectDepositData := concat (map (fun b => ei_subject_deposits (cb_inputs b)) blocks).
Definition blocks_transfers blocks : list ExecOutputTransfer := concat (map (fun b => eo_output_transfers (cb_outputs b)) blocks).
Definition blocks_messages blocks : list ExecOutputMessage := concat (map (fun b => eo_output_messages (cb_outputs b)) blocks).

Definition io_prefix (t : IoTracker) ds ms xs : Prop :=
  seq_prefix (io_deposits_tracker t) ds /\ seq_prefix (io_out_msg_tracker t) ms /\ seq_prefix (io_out_xfr_tracker t) xs.

(** The tracker after a block, when its entries are the next ones expected. *)
Definition io_advance (cb : ChunkBlock) (t : IoTracker) : IoTracker :=
  {| io_deposits_tracker := advance_unchecked (length (ei_subject_deposits (cb_inputs cb))) (io_deposits_tracker t);
     io_out_msg_tracker := advance_unchecked (length (eo_output_messages (cb_outputs cb))) (io_out_msg_tracker t);
     io_out_xfr_tracker := advance_unchecked (length (eo_output_transfers (cb_outputs cb))) (io_out_xfr_tracker t) |}.

Lemma check_update_ok cb t t' ds ms xs : io_prefix t ds ms xs ->
  check_update (cb_inputs cb) (cb_outputs cb) t = Ok t' <->
  t' = io_advance cb t /\
  io_prefix t' (ds ++ ei_subject_deposits (cb_inputs cb)) (ms ++ eo_output_messages (cb_outputs cb)) (xs ++ eo_output_transfers (cb_outputs cb)).
Proof.
  intros (H1 & H2 & H3). unfold check_update.
  pose proof (check_inputs_ok _ _ (ei_subject_deposits (cb_inputs cb)) H1) as C1.
  pose proof (check_inputs_ok _ _ (eo_output_messages (cb_outputs cb)) H2) as C2.
  pose proof (check_inputs_ok _ _ (eo_output_transfers (cb_outputs cb)) H3) as C3.
  destruct (check_inputs (ei_subject_deposits _) _) as [[]| |]; simpl; [|by split; [|intros [-> [?%C1 _]]]..].
  destruct (check_inputs (eo_output_messages _) _) as [[]| |]; simpl; [|by split; [|intros [-> [_ [?%C2 _]]]]..].
  destruct (check_inputs (eo_output_transfers _) _) as [[]| |]; simpl; [|by split; [|intros [-> [_ [_ ?%C3]]]]..].
  split; [|by intros [-> _]]. intros [= <-]. split; [done|]. split; [by apply C1|]. split; [by apply C2|by apply C3].
Qed.

(** The last tip of a chain of blocks. *)
Definition tip_of (tip : Buf32) blocks : Buf32 := match last blocks with Some b => compute_block_id (cb_header b) | None => tip end.

Lemma tip_of_cons tip cb blocks : tip_of tip (cb :: blocks) = tip_of (compute_block_id (cb_header cb)) blocks.
Proof. unfold tip_of. rewrite last_cons. by destruct (last blocks). Qed.

Definition io_same (t t' : IoTracker) : Prop :=
  seq_expected_inputs (io_deposits_tracker t') = seq_expected_inputs (io_deposits_tracker t) /\
  seq_expected_inputs (io_out_msg_tracker t') = seq_expected_inputs (io_out_msg_tracker t) /\
  seq_expected_inputs (io_out_xfr_tracker t') = seq_expected_inputs (io_out_xfr_tracker t).

Lemma io_advance_fold blocks t : io_same t (fold_left (fun t cb => io_advance cb t) blocks t).
Proof. revert t. induction blocks as [|cb blocks IH]; intros t; simpl; [done|]. apply (IH (io_advance cb t)). Qed.

Lemma io_advance_consumed blocks t t' : t' = fold_left (fun t cb => io_advance cb t) blocks t ->
  seq_consumed (io_deposits_tracker t') = (seq_consumed (io_deposits_tracker t) + length (blocks_deposits blocks))%nat /\
  seq_consumed (io_out_msg_tracker t') = (seq_consumed (io_out_msg_tracker t) + length (blocks_messages blocks))%nat /\
  seq_consumed (io_out_xfr_tracker t') = (seq_consumed (io_out_xfr_tracker t) + length (blocks_transfers blocks))%nat.
Proof.
  intros ->. unfold blocks_deposits, blocks_messages, blocks_transfers. revert t.
  induction blocks as [|cb blocks IH]; intros t; simpl; [auto with lia|]. rewrite !length_app.
  destruct (IH (io_advance cb t)) as (-> & -> & ->). simpl. lia.
Qed.

Lemma io_prefix_split cb t t' ds ms xs ds' ms' xs' :
  io_prefix t ds ms xs -> io_same t t' ->
  io_prefix t' ((ds ++ ei_subject_deposits (cb_inputs cb)) ++ ds') ((ms ++ eo_output_messages (cb_outputs cb)) ++ ms')
    ((xs ++ eo_output_transfers (cb_outputs cb)) ++ xs') ->
  io_prefix (io_advance cb t) (ds ++ ei_subject_deposits (cb_inputs cb)) (ms ++ eo_output_messages (cb_outputs cb))
    (xs ++ eo_output_transfers (cb_outputs cb)).
Proof. intros (?&?&?) (?&?&?) (?&?&?). split; [|split]; by eapply seq_prefix_split. Qed.

Lemma process_blocks_ok ee tip t t' blocks st st' ds ms xs : io_prefix t ds ms xs ->
  process_blocks ee tip t blocks st = (Ok t', st') <->
  run_blocks ee tip blocks (tip_of tip blocks) st st' /\ t' = fold_left (fun t cb => io_advance cb t) blocks t /\
  io_prefix t' (ds ++ blocks_deposits blocks) (ms ++ blocks_messages blocks) (xs ++ blocks_transfers blocks).
Proof.
  revert tip t st ds ms xs. induction blocks as [|cb blocks IH]; intros tip t st ds ms xs Ht; simpl.
  { unfold blocks_deposits, blocks_messages, blocks_transfers. simpl. rewrite !app_nil_r. unfold mret. split.
    - intros [= -> ->]. by repeat split; try constructor; apply Ht.
    - intros (Hr & -> & _). by inversion Hr. }
  rewrite tip_of_cons. unfold blocks_deposits, blocks_messages, blocks_transfers in *. simpl. rewrite !app_assoc. split.
  - case_match eqn:Hp; [by intros [=]|]. intros H. minv. zbool. subst tip. destruct a.
    destruct (check_update _ _ _) as [t1| |] eqn:Hc; simplify_eq.
    eapply check_update_ok in Hc as [-> Hio]; [|done]. apply (IH _ _ _ _ _ _ Hio) in H as (Hr & Ht' & Hio').
    split; [by econstructor|]. done.
  - intros (Hr & -> & Hio). inversion Hr as [|? ? ? ? st1 ? Hb Hr' Hpar]; subst. rewrite Z.eqb_refl. simpl.
    rewrite (mbind_ok _ _ _ _ _ Hb).
    assert (io_prefix (io_advance cb t) (ds ++ ei_subject_deposits (cb_inputs cb)) (ms ++ eo_output_messages (cb_outputs cb))
              (xs ++ eo_output_transfers (cb_outputs cb))) as Hio1.
    { eapply io_prefix_split; [done| |done]. apply (io_advance_fold (cb :: blocks)). }
    rewrite (mbind_ok _ _ _ (io_advance cb t) st1).
    2: { unfold mlift. f_equal. by eapply check_update_ok. }
    by apply (IH _ _ _ _ _ _ Hio1).
Qed.

Lemma process_chunk_blocks_ok ee chunk tip ins outs st st' :
  process_chunk_blocks ee chunk tip ins outs st = (Ok tt, st') <->
  chunk <> [] /\ run_blocks ee tip chunk (tip_of tip chunk) st st' /\
  ei_subject_deposits ins = blocks_deposits chunk /\ eo_output_messages outs = blocks_messages chunk /\
  eo_output_transfers outs = blocks_transfers chunk.
Proof.
  unfold process_chunk_blocks. case_bool_decide as Hl.
  { apply nil_length_inv in Hl. subst. split; [by intros [=]|by intros [? _]]. }
  assert (io_prefix (IoTracker_from_io ins outs) [] [] []) as Hio by (repeat split; apply seq_prefix_new).
  pose proof (io_advance_fold chunk (IoTracker_from_io ins outs)) as (E1 & E2 & E3). simpl in E1, E2, E3.
  assert (forall t, io_prefix t (blocks_deposits chunk) (blocks_messages chunk) (blocks_transfers chunk) ->
    io_same (IoTracker_from_io ins outs) t -> verify_all_consumed t = Ok tt <->
    ei_subject_deposits ins = blocks_deposits chunk /\ eo_output_messages outs = blocks_messages chunk /\
    eo_output_transfers outs = blocks_transfers chunk) as Hv.
  { intros t (P1 & P2 & P3) (S1 & S2 & S3). simpl in *. unfold verify_all_consumed, is_all_consumed.
    rewrite <- S1, <- S2, <- S3, <- (seq_prefix_consumed _ _ P1), <- (seq_prefix_consumed _ _ P2), <- (seq_prefix_consumed _ _ P3).
    case_match eqn:Hc; rewrite ?andb_true_iff in Hc; [naive_solver|]. split; [done|]. intros (H1 & H2 & H3). by rewrite H1, H2, H3 in Hc. }
  split.
  - intros H. minv. eapply process_blocks_ok in Hm as (Hr & -> & Hp); [|done].
    destruct (verify_all_consumed _) as [[]| |] eqn:Hc; simplify_eq. apply Hv in Hc; [|done|done].
    split; [by intros ->|]. done.
  - intros (_ & Hr & D1 & D2 & D3). set (t' := fold_left (fun t cb => io_advance cb t) chunk (IoTracker_from_io ins outs)).
    assert (io_prefix t' (blocks_deposits chunk) (blocks_messages chunk) (blocks_transfers chunk)) as Hp.
    { destruct (io_advance_consumed chunk _ t' eq_refl) as (C1 & C2 & C3). simpl in C1, C2, C3. fold t' in E1, E2, E3.
      split; [|split]; (split; [done|]); exists []; rewrite app_nil_r; congruence. }
    rewrite (mbind_ok _ _ _ t' st').
    + unfold mlift. f_equal. by apply Hv.
    + by eapply process_blocks_ok.
Qed.

(** What a chunk transition claims of the blocks [chunk] on top of [prev_header],
    from the partial state [st] to [st']. *)
Definition chunk_valid ee (tsn : ChunkTransition) (prev_header : Header) (chunk : list ChunkBlock) st st' : Prop :=
  compute_block_id prev_header = ct_parent_exec_blkid tsn /\
  partial_state_root st = Ok (get_state_root prev_header) /\
  run_blocks ee (ct_parent_exec_blkid tsn) chunk (ct_tip_exec_blkid tsn) st st' /\
  partial_state_root st' = Ok (ct_tip_state_root tsn) /\
  (exists b, last chunk = Some b /\ compute_block_id (cb_header b) = ct_tip_exec_blkid tsn /\
     get_state_root (cb_header b) = ct_tip_state_root tsn /\ get_exec_header_summary (cb_header b) = ct_tip_exec_header_summary tsn) /\
  ei_subject_deposits (ct_inputs tsn) = blocks_deposits chunk /\
  eo_output_messages (ct_outputs tsn) = blocks_messages chunk /\
  eo_output_transfers (ct_outputs tsn) = blocks_transfers chunk.

(** C20: a transition is accepted exactly when it is what executing the blocks one
    after the other on the parent's state gives, with the deposits, messages and
    transfers of the blocks in order. *)
Theorem verify_chunk_transition_spec tsn ee prev_header chunk st st' :
  verify_chunk_transition tsn ee prev_header chunk st = (Ok tt, st') <-> chunk_valid ee tsn prev_header chunk st st'.
Proof.
  unfold verify_chunk_transition, chunk_valid. split.
  - case_match eqn:H1; [by intros [=]|]. destruct (last chunk) as [b|] eqn:Hlast; [|by intros [=]].
    case_match eqn:H2; [by intros [=]|]. case_match eqn:H3; [by intros [=]|]. intros H. minv. unfold mreads_res in Hm. simplify_eq.
    case_match eqn:H4; [by minv|]. minv. destruct a0. apply process_chunk_blocks_ok in Hm as (_ & Hr & D1 & D2 & D3).
    unfold mreads_res in Hm0. simplify_eq. 
    destruct (negb (a1 =? get_state_root _)) eqn:R5; [by minv|]. destruct (negb (a1 =? ct_tip_state_root _)) eqn:R6; [by minv|]. minv.
    apply negb_false_iff, bool_decide_eq_true in H3. zbool. unfold tip_of in Hr. rewrite Hlast in Hr.
    split; [done|]. split; [congruence|]. split.
    { rewrite <- H2. exact Hr. }
    split; [congruence|]. split; [|done].
    exists b. repeat split; congruence.
  - intros (H1 & Hpre & Hr & Hpost & (b & Hlast & H2 & H5 & H3) & D1 & D2 & D3). rewrite H1, Z.eqb_refl, Hlast, H2, Z.eqb_refl. simpl.
    rewrite bool_decide_eq_true_2 by done. simpl. unfold mbind at 1. unfold mreads_res at 1. rewrite Hpre, Z.eqb_refl. simpl.
    rewrite (mbind_ok _ _ _ tt st').
    2: { apply process_chunk_blocks_ok. split; [by intros ->|]. unfold tip_of. by rewrite Hlast, H2. }
    unfold mbind, mreads_res. rewrite Hpost, H5, !Z.eqb_refl. done.
Qed.

(** The statement of a chunk proof: the committed transition describes blocks that
    execute. *)
Lemma verify_input_sound ee input :
  verify_input ee input = Ok tt ->
  exists tsn prev_header chunk st st', chunk_transition_from_ssz_bytes (cpi_chunk_transition_ssz input) = Some tsn /\
    chunk_valid ee tsn prev_header chunk st st'.
Proof.
  unfold verify_input. destruct (chunk_transition_from_ssz_bytes _) as [tsn|]; [|done]. simpl.
  destruct (decode_buf_exact header_codec _) as [h| |]; [|done..]. simpl.
  destruct (decode_buf_exact partial_state_codec _) as [st| |]; [|done..]. simpl.
  destruct (decode_block_io _) as [io| |]; [|done..]. simpl. destruct (decode_blocks _ _) as [chunk| |]; [|done..]. simpl.
  destruct (verify_chunk_transition _ _ _ _ _) as [r st'] eqn:Hv. simpl. intros ->. apply verify_chunk_transition_spec in Hv. eauto 8.
Qed.
End chunk_spec.

(** ** Accounts *)

(** The bounds of the lists of a state. *)
Definition ee_bounded (s : EeAccountState) : Prop :=
  zlen (ee_pending_inputs s) <= MAX_PENDING_INPUTS /\ zlen (ee_pending_fincls s) <= MAX_PENDING_FINCLS.

(** The encoders have left inverses, and a decoded state respects the bounds of
    its lists. *)
Class EeLaws {ET : ExtTypes} (EX : EeExt) : Prop := {
  chunk_transition_ssz_roundtrip ct : chunk_transition_from_ssz_bytes (chunk_transition_as_ssz_bytes ct) = Some ct;
  ee_state_ssz_roundtrip s : ee_bounded s -> ee_state_from_ssz_bytes (ee_state_as_ssz_bytes s) = Some s;
  ee_state_ssz_bounded b s : ee_state_from_ssz_bytes b = Some s -> ee_bounded s;
}.

Section account_spec.
Context {ET : ExtTypes} `{X : !Ext} `{CE : !CodecExt} `{EX : !EeExt} `{RX : !RuntimeExt}.
Context {E : Type} `{EE : !ExecutionEnvironment E}.
Implicit Types (v : EeVerificationState (E := E)) (t : SequenceTracker PendingInputEntry) (ct : ChunkTransition).

Abbreviation prog := (EeProgram (E := E)).

(** *** Outputs *)

Definition outputs_app (o : UpdateOutputs) (e : ExecOutputs) : UpdateOutputs := {|
  uo_transfers := uo_transfers o ++ map into_output_transfer (eo_output_transfers e);
  uo_messages := uo_messages o ++ map into_output_message (eo_output_messages e);
  uo_new_predicate := uo_new_predicate o |}.

Definition outputs_fit (o : UpdateOutputs) : Prop :=
  zlen (uo_transfers o) <= OUT_MAX_TRANSFERS /\ zlen (uo_messages o) <= OUT_MAX_MESSAGES.

Definition outputs_of (o : UpdateOutputs) (cts : list ChunkTransition) : UpdateOutputs :=
  fold_left (fun o ct => outputs_app o (ct_outputs ct)) cts o.

Lemma outputs_of_fit o cts : outputs_fit (outputs_of o cts) -> outputs_fit o.
Proof.
  revert o. induction cts as [|ct cts IH]; intros o; simpl; [done|]. intros H%IH. destruct H as [H1 H2].
  unfold outputs_app in H1, H2. simpl in *. autorewrite with zlen in H1, H2.
  split; [pose proof (zlen_nonneg (map into_output_transfer (eo_output_transfers (ct_outputs ct))))
         |pose proof (zlen_nonneg (map into_output_message (eo_output_messages (ct_outputs ct))))]; lia.
Qed.

Lemma outputs_of_predicate o cts : uo_new_predicate (outputs_of o cts) = uo_new_predicate o.
Proof. revert o. induction cts as [|ct cts IH]; intros o; simpl; [done|]. by rewrite IH. Qed.

Lemma outputs_of_lists o cts :
  uo_transfers (outputs_of o cts) = uo_transfers o ++ map into_output_transfer (concat (map (fun ct => eo_output_transfers (ct_outputs ct)) cts)) /\
  uo_messages (outputs_of o cts) = uo_messages o ++ map into_output_message (concat (map (fun ct => eo_output_messages (ct_outputs ct)) cts)).
Proof.
  revert o. induction cts as [|ct cts IH]; intros o; simpl; [by rewrite !app_nil_r|]. destruct (IH (outputs_app o (ct_outputs ct))) as [-> ->].
  unfold outputs_app. simpl. by rewrite !map_app, !app_assoc.
Qed.

Lemma merge_new_outputs_ok e v v' :
  merge_new_outputs e v = (Ok tt, v') <->
  outputs_fit (outputs_app (evs_accumulated_outputs v) e) /\ v' = evs_set_outputs (outputs_app (evs_accumulated_outputs v) e) v.
Proof.
  unfold merge_new_outputs, UpdateOutputs_try_extend_transfers, UpdateOutputs_try_extend_messages, outputs_fit.
  unfold mbind, mreads_res, mmodify. simpl. autorewrite with zlen.
  destruct (OUT_MAX_TRANSFERS <? _) eqn:Ht; simpl; zbool; [split; [by intros [=]|intros [[? _] _]; lia]|].
  destruct (OUT_MAX_MESSAGES <? _) eqn:Hm; simpl; zbool; [split; [by intros [=]|intros [[_ ?] _]; lia]|].
  split; [intros [= <-]; split; [lia|done]|by intros [_ ->]].
Qed.

(** *** Chunks of an account *)

Definition ct_deposits ct : list SubjectDepositData := ei_subject_deposits (ct_inputs ct).
Definition cts_deposits (cts : list ChunkTransition) : list SubjectDepositData := concat (map ct_deposits cts).


Lemma seq_prefix_det t1 t2 l : seq_prefix t1 l -> seq_prefix t2 l -> seq_expected_inputs t1 = seq_expected_inputs t2 -> t1 = t2.
Proof. intros [H1 _] [H2 _]. destruct t1, t2. simpl in *. by intros ->; subst. Qed.

Lemma consume_deposits_ok v t v' t' l ds : seq_prefix t l ->
  miter (fun d => on_snd (mmap_err (fun _ => EnvInconsistentChunkIo) (consume_input_with (deposit_matches d)))) ds (v, t) = (Ok tt, (v', t')) <->
  v' = v /\ seq_prefix t' (l ++ map PendDeposit ds) /\ seq_expected_inputs t' = seq_expected_inputs t.
Proof.
  revert t l. induction ds as [|d ds IH]; intros t l Hl; simpl.
  { rewrite app_nil_r. unfold mret. split; [by intros [= <- <-]|]. intros (-> & Hp & He). by rewrite (seq_prefix_det _ _ _ Hp Hl He). }
  rewrite (cons_middle (PendDeposit d)), (app_assoc l). pose proof Hl as [Hc [rest He]]. split.
  - intros H. minv. destruct a, st as [v1 t1]. apply on_snd_returns in Hm as [Hm Hv]. simpl in *. subst v1.
    apply mmap_err_returns, consume_input_with_ok in Hm as (x & Hx & Hd & ->). destruct x as [d']. simpl in Hd.
    apply bool_decide_eq_true in Hd. subst d'. rewrite He, Hc, lookup_app_r, Nat.sub_diag in Hx by done.
    destruct rest as [|x rest]; simplify_eq/=. apply (IH _ (l ++ [PendDeposit d])) in H; [done|].
    split; simpl; [rewrite length_app; simpl; lia|]. exists rest. by rewrite He, <- app_assoc.
  - intros (-> & Hp & He').
    assert (seq_prefix (advance_unchecked 1 t) (l ++ [PendDeposit d])) as Hp1 by (by eapply (seq_prefix_split t t' l [PendDeposit d])).
    rewrite (mbind_ok _ _ _ tt (v, advance_unchecked 1 t)); [by apply (IH _ _ Hp1)|].
    apply on_snd_returns. split; [|done]. apply mmap_err_ok, consume_input_with_ok. exists (PendDeposit d). simpl.
    rewrite bool_decide_eq_true_2 by done. split; [|done]. destruct Hp1 as [_ [r Hr]]. simpl in Hr.
    rewrite Hr, Hc, <- app_assoc. by apply list_lookup_middle.
Qed.

Definition evs_with (o : UpdateOutputs) (tip root : Buf32) v : EeVerificationState := evs_set_tip tip root (evs_set_outputs o v).

Lemma process_decoded_transition_ok ct v t v' t' l : seq_prefix t l ->
  process_decoded_transition ct (v, t) = (Ok tt, (v', t')) <->
  ct_parent_exec_blkid ct = evs_cur_verified_exec_blkid v /\ seq_prefix t' (l ++ map PendDeposit (ct_deposits ct)) /\
  seq_expected_inputs t' = seq_expected_inputs t /\ outputs_fit (outputs_app (evs_accumulated_outputs v) (ct_outputs ct)) /\
  v' = evs_with (outputs_app (evs_accumulated_outputs v) (ct_outputs ct)) (ct_tip_exec_blkid ct) (ct_tip_state_root ct) v.
Proof.
  intros Hl. unfold process_decoded_transition. unfold mbind at 1. unfold mreads at 1. simpl.
  destruct (_ =? _) eqn:Hp; simpl; zbool; [|split; [by intros [=]|by intros [? _]]].
  split.
  - intros H. minv. destruct a, a0, st as [v1 t1], st0 as [v2 t2]. apply (consume_deposits_ok _ _ _ _ _ _ Hl) in Hm as (-> & Hp1 & He1).
    apply on_fst_returns in Hm0 as [Hm0 Ht2]. apply on_fst_returns in H as [H Ht']. simpl in *. subst t2 t1.
    apply merge_new_outputs_ok in Hm0 as [Hfit ->]. minv. done.
  - intros (_ & Hp1 & He1 & Hfit & ->).
    rewrite (mbind_ok _ _ _ tt (v, t')) by (by apply (consume_deposits_ok _ _ _ _ _ _ Hl)).
    rewrite (mbind_ok _ _ _ tt (evs_set_outputs (outputs_app (evs_accumulated_outputs v) (ct_outputs ct)) v, t')); [done|].
    apply on_fst_returns. split; [|done]. by apply merge_new_outputs_ok.
Qed.

(** A chunk whose proof verifies and whose claim decodes. *)
Definition chunk_proven (key : PredicateKey) (c : ChunkInput) ct : Prop :=
  verify_claim_witness key (chi_chunk_transition_ssz c) (chi_proof c) = true /\
  chunk_transition_from_ssz_bytes (chi_chunk_transition_ssz c) = Some ct.

Fixpoint linked (tip : Buf32) (cts : list ChunkTransition) : Prop :=
  match cts with
  | [] => True
  | ct :: cts' => ct_parent_exec_blkid ct = tip /\ linked (ct_tip_exec_blkid ct) cts'
  end.

Fixpoint last_tip (tip root : Buf32) (cts : list ChunkTransition) : Buf32 * Buf32 :=
  match cts with [] => (tip, root) | ct :: cts' => last_tip (ct_tip_exec_blkid ct) (ct_tip_state_root ct) cts' end.

Lemma evs_with_same v : evs_with (evs_accumulated_outputs v) (evs_cur_verified_exec_blkid v) (evs_cur_verified_exec_state_root v) v = v.
Proof. by destruct v. Qed.

Lemma verify_chunks_ok chunks v t v' t' l : seq_prefix t l -> outputs_fit (evs_accumulated_outputs v) ->
  miter verify_chunk chunks (v, t) = (Ok tt, (v', t')) <->
  exists cts, Forall2 (chunk_proven (evs_chunk_predicate_key v)) chunks cts /\ linked (evs_cur_verified_exec_blkid v) cts /\
    seq_prefix t' (l ++ map PendDeposit (cts_deposits cts)) /\ seq_expected_inputs t' = seq_expected_inputs t /\
    outputs_fit (outputs_of (evs_accumulated_outputs v) cts) /\
    v' = evs_with (outputs_of (evs_accumulated_outputs v) cts)
           (fst (last_tip (evs_cur_verified_exec_blkid v) (evs_cur_verified_exec_state_root v) cts))
           (snd (last_tip (evs_cur_verified_exec_blkid v) (evs_cur_verified_exec_state_root v) cts)) v.
Proof.
  revert v t l. induction chunks as [|c chunks IH]; intros v t l Hl Hfit; simpl.
  { unfold mret. split.
    - intros [= <- <-]. exists []. simpl. rewrite app_nil_r, evs_with_same. done.
    - intros (cts & Hf & _ & Hp & He & _ & ->). inversion Hf; subst. simpl in *. rewrite app_nil_r in Hp.
      by rewrite evs_with_same, (seq_prefix_det _ _ _ Hp Hl He). }
  split.
  - intros H. minv. destruct a, st as [v1 t1]. unfold verify_chunk in Hm. minv.
    destruct (verify_claim_witness _ _ _) eqn:Hw; simpl in Hm; [|by minv]. minv.
    destruct (chunk_transition_from_ssz_bytes _) as [ct'|] eqn:Hct; simplify_eq/=. rename a into ct.
    apply (process_decoded_transition_ok _ _ _ _ _ _ Hl) in Hm as (Hpar & Hp1 & He1 & Hfit1 & ->).
    apply (IH (evs_with _ _ _ v) _ _ Hp1 Hfit1) in H as (cts & Hf & Hlk & Hp' & He' & Hfit' & ->). simpl in *.
    exists (ct :: cts). unfold cts_deposits. simpl. rewrite map_app, app_assoc.
    split; [by constructor|]. split; [done|]. split; [done|]. split; [congruence|done].
  - intros (cts & Hf & Hlk & Hp & He & Hfit' & ->). inversion Hf as [|? ct ? cts' [Hw Hct] Hf']; subst. simpl in *.
    destruct Hlk as [Hpar Hlk]. unfold cts_deposits in Hp. simpl in Hp. rewrite map_app, app_assoc in Hp.
    pose proof (outputs_of_fit _ _ Hfit') as Hfit1.
    set (t1 := advance_unchecked (length (map PendDeposit (ct_deposits ct))) t).
    assert (seq_prefix t1 (l ++ map PendDeposit (ct_deposits ct))) as Hp1 by (by eapply seq_prefix_split).
    set (v1 := evs_with (outputs_app (evs_accumulated_outputs v) (ct_outputs ct)) (ct_tip_exec_blkid ct) (ct_tip_state_root ct) v).
    rewrite (mbind_ok _ _ _ tt (v1, t1)).
    + apply (IH v1 t1 _ Hp1 Hfit1). by exists cts'.
    + unfold verify_chunk, mbind at 1, mreads at 1. simpl. rewrite Hw. simpl. unfold mbind, mlift. rewrite Hct. simpl.
      by apply (process_decoded_transition_ok _ _ _ _ _ _ Hl).
Qed.

Lemma update_outputs_eqb_ok a b : uo_new_predicate b = None -> update_outputs_eqb a b = true <-> a = b.
Proof.
  intros Hb. unfold update_outputs_eqb. rewrite !andb_true_iff, !bool_decide_eq_true. destruct a as [ta ma pa], b as [tb mb pb].
  simpl in *. subst pb. split; [|by intros [= -> -> ->]]. intros [[-> ->] Hp]. by destruct pa.
Qed.

(** What the last check of an update accepts. *)
Definition chunks_accepted (key : PredicateKey) (chunks : list ChunkInput) (pre : EeAccountState) (pending : list PendingInputEntry)
    (o : UpdateOutputs) (xd : UpdateExtraData) (cts : list ChunkTransition) : Prop :=
  Forall2 (chunk_proven key) chunks cts /\ linked (ee_last_exec_blkid pre) cts /\
  last_tip (ee_last_exec_blkid pre) (ee_last_exec_state_root pre) cts = (xd_new_tip_blkid xd, xd_new_tip_state_root xd) /\
  map PendDeposit (cts_deposits cts) `prefix_of` pending /\ zlen (cts_deposits cts) = xd_processed_inputs xd /\
  outputs_fit o /\ o = outputs_of UpdateOutputs_new_empty cts.

Lemma ee_finalize_verification_ok ee key chunks raw pre o st xd :
  ee_last_exec_blkid st = xd_new_tip_blkid xd -> ee_last_exec_state_root st = xd_new_tip_state_root xd ->
  ee_finalize_verification st (evs_new_from_state (E := E) ee key pre o chunks raw) xd = Ok tt <->
  exists cts, chunks_accepted key chunks pre (ee_pending_inputs st) o xd cts.
Proof.
  intros Htip Hroot. unfold ee_finalize_verification, process_chunks_on_acct. simpl.
  set (v := evs_new_from_state ee key pre o chunks raw). set (t := SequenceTracker_new (ee_pending_inputs st)).
  assert (outputs_fit (evs_accumulated_outputs v)) as Hfit by (split; done).
  pose proof (verify_chunks_ok chunks v t) as Hok. specialize (fun v' t' => Hok v' t' [] (seq_prefix_new _) Hfit). simpl in Hok.
  split.
  - destruct (miter _ _ _) as [r [v' t']]. destruct r as [[]| |]; simpl; [|by destruct e|done].
    destruct (proj1 (Hok v' t') eq_refl) as (cts & Hf & Hlk & [Hc [rest Hr]] & He & Hfo & ->). clear Hok. simpl in *.
    destruct (Z.of_nat _ =? _) eqn:Hn; simpl; [|done]. destruct (xd_new_tip_blkid xd =? _) eqn:H1; simpl; [|done].
    destruct (xd_new_tip_state_root xd =? _) eqn:H2; simpl; [|done]. do 2 (case_match; [done|]).
    unfold check_obligations. simpl. destruct (update_outputs_eqb _ _) eqn:Ho; simpl; [|done]. intros _.
    apply update_outputs_eqb_ok in Ho; [|by rewrite outputs_of_predicate]. zbool. exists cts. subst o.
    split; [done|]. split; [done|]. split; [by rewrite (surjective_pairing (last_tip _ _ _)); f_equal|].
    split; [exists rest; congruence|]. split; [|done]. rewrite <- Hn, Hc, length_map. done.
  - intros (cts & Hf & Hlk & Hlast & [rest Hpre] & Hn & Hfo & Ho).
    set (t' := advance_unchecked (length (cts_deposits cts)) t).
    assert (miter verify_chunk chunks (v, t) = (Ok tt, (evs_with o (xd_new_tip_blkid xd) (xd_new_tip_state_root xd) v, t'))) as ->.
    { apply Hok. exists cts. rewrite Hlast. simpl. split; [done|]. split; [done|]. split; [|split; [done|]; by subst o].
      split; simpl; [by rewrite length_map|]. by exists rest. }
    simpl. unfold zlen in Hn. rewrite Hn, !Z.eqb_refl. simpl. rewrite !Z.eqb_refl, Htip, Hroot, !Z.eqb_refl. simpl.
    unfold check_obligations. simpl. assert (uo_new_predicate o = None) as Hnone by (subst o; apply outputs_of_predicate).
    by rewrite (proj2 (update_outputs_eqb_ok o o Hnone) eq_refl).
Qed.

(** *** Messages *)

Definition msg_deposits (msgs : list MessageEntry) : list PendingInputEntry :=
  flat_map (fun m => match im_decoded (InputMessage_from_msg_entry (P := EeSnarkAccountProgram E) m) with
    | Some (EeDeposit d) => [PendDeposit {| sdd_dest := dm_dest_subject d; sdd_value := mp_value (me_payload m) |}]
    | _ => []
    end) msgs.

(** Deposits join the queue as long as it has room. *)
Definition enqueue (pending ds : list PendingInputEntry) : list PendingInputEntry :=
  take (Z.to_nat MAX_PENDING_INPUTS) (pending ++ ds).

Lemma enqueue_nil l : zlen l <= MAX_PENDING_INPUTS -> enqueue l [] = l.
Proof. intros Hl. unfold enqueue. rewrite app_nil_r. apply take_ge. unfold zlen in Hl. lia. Qed.

Lemma enqueue_enqueue l a b : enqueue (enqueue l a) b = enqueue l (a ++ b).
Proof.
  unfold enqueue. generalize (Z.to_nat MAX_PENDING_INPUTS) as n. intros n. rewrite (app_assoc l).
  destruct (decide (n <= length (l ++ a))%nat).
  - rewrite (take_app_le (take n (l ++ a))), (take_app_le (l ++ a)) by (rewrite ?length_take; lia).
    by rewrite take_take, Nat.min_id.
  - by rewrite (take_ge (l ++ a)) by lia.
Qed.

Lemma enqueue_bounded l a : zlen (enqueue l a) <= MAX_PENDING_INPUTS.
Proof. unfold zlen, enqueue. rewrite length_take. assert (0 <= MAX_PENDING_INPUTS) by done. lia. Qed.

Lemma enqueue_one l x : zlen l <= MAX_PENDING_INPUTS ->
  enqueue l [x] = if zlen l <? MAX_PENDING_INPUTS then l ++ [x] else l.
Proof.
  intros Hl. unfold enqueue. unfold zlen in *. destruct (_ <? _) eqn:Hb; zbool.
  - apply take_ge. rewrite length_app. simpl. lia.
  - rewrite take_app_le by lia. apply take_ge. lia.
Qed.

Lemma enqueue_prefix l a : zlen l <= MAX_PENDING_INPUTS -> exists rest, enqueue l a = l ++ rest.
Proof.
  intros Hl. unfold enqueue. rewrite take_app_ge by (unfold zlen in Hl; lia). eauto.
Qed.

#[local] Opaque enqueue.
#[local] Arguments msg_deposits : simpl never.

Lemma msg_deposits_cons m msgs : msg_deposits (m :: msgs) = msg_deposits [m] ++ msg_deposits msgs.
Proof. unfold msg_deposits. simpl. by rewrite app_nil_r. Qed.

Lemma msg_deposits_app l1 l2 : msg_deposits (l1 ++ l2) = msg_deposits l1 ++ msg_deposits l2.
Proof. apply flat_map_app. Qed.

Lemma set_pending_same (st : EeAccountState) : set_pending_inputs (ee_pending_inputs st) st = st.
Proof. by destruct st. Qed.

Lemma process_input_message_ok m (st : EeAccountState) : zlen (ee_pending_inputs st) <= MAX_PENDING_INPUTS ->
  process_input_message (InputMessage_from_msg_entry (P := EeSnarkAccountProgram E) m) st
  = (Ok tt, set_pending_inputs (enqueue (ee_pending_inputs st) (msg_deposits [m])) st).
Proof.
  intros Hb. unfold process_input_message, msg_deposits. simpl. rewrite app_nil_r.
  destruct (match decode_raw _ with Ok m => Some m | _ => None end) as [[d|d|d]|]; simpl;
    rewrite ?enqueue_nil, ?set_pending_same by done; [|done..].
  unfold mmodify, add_pending_input. rewrite enqueue_one by done. destruct (_ <? _); simpl; [done|by rewrite set_pending_same].
Qed.

(** Verification of the messages: empty coinputs, and the deposits queued. *)
Lemma ee_verify_messages_ok i msgs cis (st st' : EeAccountState) v v' : zlen (ee_pending_inputs st) <= MAX_PENDING_INPUTS ->
  verify_messages prog i msgs cis (st, v) = (Ok tt, (st', v')) ->
  v' = v /\ st' = set_pending_inputs (enqueue (ee_pending_inputs st) (msg_deposits msgs)) st.
Proof.
  revert i cis st. induction msgs as [|m msgs IH]; intros i cis st Hb.
  { simpl. intros H. minv. unfold msg_deposits. simpl. rewrite enqueue_nil by done. by rewrite set_pending_same. }
  destruct cis as [|c cis]; simpl; [by intros [=]|]. intros H. minv. destruct a, st0 as [st1 v1]. apply mmap_err_returns in Hm.
  unfold verify_coinput_and_process_message in Hm. case_match; [by minv|]. minv. destruct st0 as [st2 v2].
  unfold on_vstate in Hm0. minv. apply on_snd_returns in Hm0 as [Hc Hs2]. simpl in *. subst st2.
  unfold ee_verify_coinput in Hc. case_match; minv. apply on_fst_returns in Hm as [Hm Hv]. simpl in *. subst v2.
  rewrite process_input_message_ok in Hm by done. simplify_eq. apply IH in H as [-> ->]; [|apply enqueue_bounded]. split; [done|].
  rewrite (msg_deposits_cons m msgs), <- enqueue_enqueue. done.
Qed.

(** Empty coinputs are accepted for all messages. *)
Lemma ee_verify_messages_intro i msgs cis (st : EeAccountState) v : zlen (ee_pending_inputs st) <= MAX_PENDING_INPUTS ->
  length cis = length msgs -> Forall (fun c => ci_raw_data c = []) cis ->
  verify_messages prog i msgs cis (st, v)
  = (Ok tt, (set_pending_inputs (enqueue (ee_pending_inputs st) (msg_deposits msgs)) st, v)).
Proof.
  revert i cis st. induction msgs as [|m msgs IH]; intros i [|c cis] st Hb Hl Hc; simplify_eq/=.
  { unfold msg_deposits. simpl. by rewrite enqueue_nil, set_pending_same by done. }
  apply Forall_cons_1 in Hc as [Hc0 Hc]. rewrite (mbind_ok _ _ _ tt (set_pending_inputs (enqueue (ee_pending_inputs st) (msg_deposits [m])) st, v)).
  - rewrite IH; [|apply enqueue_bounded|done..]. by rewrite (msg_deposits_cons m msgs), <- enqueue_enqueue.
  - apply mmap_err_ok. unfold verify_coinput_and_process_message. rewrite Hc0, andb_comm. simpl.
    unfold on_vstate, on_snd, on_fst, mbind, mreads. simpl. by rewrite process_input_message_ok.
Qed.

(** Block assembly applies messages to the account as an update does. *)
Lemma apply_input_messages_spec msgs (st : EeAccountState) : zlen (ee_pending_inputs st) <= MAX_PENDING_INPUTS ->
  apply_input_messages (E := E) msgs st = (Ok tt, set_pending_inputs (enqueue (ee_pending_inputs st) (msg_deposits msgs)) st).
Proof.
  unfold apply_input_messages. revert st. induction msgs as [|m msgs IH]; intros st Hb; simpl.
  { unfold msg_deposits. simpl. by rewrite enqueue_nil, set_pending_same by done. }
  rewrite (mbind_ok _ _ _ _ _ (mmap_err_ok _ _ _ _ _ (process_input_message_ok m st Hb))), IH by apply enqueue_bounded.
  by rewrite (msg_deposits_cons m msgs), <- enqueue_enqueue.
Qed.

(** *** Soundness of updates *)

(** A chunk of blocks takes a state with root [root] to one with root [root']. *)
Definition executes (ee : E) (parent root : Buf32) (blocks : list ChunkBlock) (tip root' : Buf32) : Prop :=
  blocks <> [] /\ exists st st', partial_state_root st = Ok root /\ run_blocks ee parent blocks tip st st' /\ partial_state_root st' = Ok root'.

(** Chunks one after the other, each from the block and state root the previous one
    ended with. *)
Inductive chunks_run (ee : E) : Buf32 -> Buf32 -> list (list ChunkBlock) -> Buf32 -> Buf32 -> Prop :=
| chunks_run_nil tip root : chunks_run ee tip root [] tip root
| chunks_run_cons parent root blocks tip1 root1 chunks tip2 root2 :
    executes ee parent root blocks tip1 root1 -> chunks_run ee tip1 root1 chunks tip2 root2 ->
    chunks_run ee parent root (blocks :: chunks) tip2 root2.

(** The state root an account holds is that of the block it names. *)
Definition tip_consistent (tip root : Buf32) : Prop := forall h : Header, compute_block_id h = tip -> get_state_root h = root.

(** A chunk proof that verifies is one of a chunk that was verified. *)
Definition chunk_proofs_sound (ee : E) (key : PredicateKey) : Prop := forall claim proof,
  verify_claim_witness key claim proof = true ->
  exists input, cpi_chunk_transition_ssz input = claim /\ verify_input ee input = Ok tt.

Lemma proven_chunks_run (ee : E) key chunks cts tip root tip' root' :
  Inj (=) (=) (compute_block_id (E := E)) -> chunk_proofs_sound ee key ->
  Forall2 (chunk_proven key) chunks cts -> linked tip cts -> tip_consistent tip root -> last_tip tip root cts = (tip', root') ->
  tip_consistent tip' root' /\ exists bss, chunks_run ee tip root bss tip' root' /\
    cts_deposits cts = blocks_deposits (concat bss) /\
    concat (map (fun ct => eo_output_transfers (ct_outputs ct)) cts) = blocks_transfers (concat bss) /\
    concat (map (fun ct => eo_output_messages (ct_outputs ct)) cts) = blocks_messages (concat bss).
Proof.
  intros Hinj Hsound Hf. revert tip root. induction Hf as [|c ct chunks cts [Hw Hct] Hf IH]; intros tip root; simpl.
  { intros _ Hc [= <- <-]. split; [done|]. exists []. split; [constructor|done]. }
  intros [Hpar Hlk] Hc Hlast. destruct (Hsound _ _ Hw) as (input & Hin & Hv).
  apply verify_input_sound in Hv as (tsn & prev & blocks & st & st' & Hts & Hval). rewrite Hin, Hct in Hts. simplify_eq.
  destruct Hval as (Hprev & Hpre & Hr & Hpost & (b & Hb & Hid & Hroot & _) & D1 & D2 & D3).
  destruct (IH (ct_tip_exec_blkid tsn) (ct_tip_state_root tsn)) as (Hc' & bss & Hrun & Hd & Hx & Hm); [done| |done|].
  { intros h Hh. rewrite <- Hid in Hh. apply Hinj in Hh. by subst h. }
  split; [done|]. exists (blocks :: bss). split.
  { econstructor; [|done]. split; [by intros ->|]. exists st, st'. by rewrite <- (Hc _ Hprev). }
  unfold cts_deposits, ct_deposits, blocks_deposits, blocks_transfers, blocks_messages in *. simpl.
  rewrite !map_app, !concat_app. by rewrite D1, D2, D3, Hd, Hx, Hm.
Qed.

(** The outputs of blocks, as an update declares them. *)
Definition outputs_of_blocks (blocks : list ChunkBlock) : UpdateOutputs := {|
  uo_transfers := map into_output_transfer (blocks_transfers blocks);
  uo_messages := map into_output_message (blocks_messages blocks);
  uo_new_predicate := None |}.

(** The account after an update: the new tip, and the queues without what was
    processed. *)
Definition ee_after (st : EeAccountState) (msgs : list MessageEntry) (xd : UpdateExtraData) : EeAccountState :=
  snd (remove_pending_fincls (Z.to_nat (xd_processed_fincls xd)) {|
    ee_last_exec_blkid := xd_new_tip_blkid xd; ee_last_exec_state_root := xd_new_tip_state_root xd;
    ee_pending_inputs := drop (Z.to_nat (xd_processed_inputs xd)) (enqueue (ee_pending_inputs st) (msg_deposits msgs));
    ee_pending_fincls := ee_pending_fincls st |}).

Context `{!EeLaws EX}.

(** Everything an accepted update went through. *)
Lemma ee_accepted_spec (ee : E) key epi upi :
  ee_verify_and_process_update ee key epi upi = Ok tt ->
  exists u st xd cts,
    pub_params_from_ssz_bytes (pi_update_pub_params_ssz upi) = Some u /\ ee_state_from_ssz_bytes (pi_raw_pre_state upi) = Some st /\
    decode_buf_exact update_extra_data_codec (upp_extra_data u) = Ok xd /\
    ee_state_tree_hash_root st = ps_inner_state (upp_cur_state u) /\
    chunks_accepted key (epi_chunks epi) st (enqueue (ee_pending_inputs st) (msg_deposits (upp_message_inputs u))) (upp_outputs u) xd cts /\
    ee_state_tree_hash_root (ee_after st (upp_message_inputs u) xd) = ps_inner_state (upp_new_state u).
Proof.
  intros (u & st & xd & st' & Hu & Hst & Hr & _ & _ & Hx & Hi & Hr')%verify_and_process_update_spec. simpl in *.
  apply verify_update_inner_spec in Hi as (vs0 & st0 & st1 & vs1 & st2 & Hv & Hs & Hm & Hp & Hfv & Hf). simpl in *.
  unfold mret in Hs. simplify_eq. pose proof (ee_state_ssz_bounded _ _ Hst) as [Hb _].
  apply ee_verify_messages_ok in Hm as [-> ->]; [|done]. unfold ee_start_verification in Hv. simplify_eq.
  unfold ee_pre_finalize_state, mbind, mmodify in Hp. simplify_eq. unfold ee_finalize_state, mbind, mmodify in Hf. simplify_eq.
  apply ee_finalize_verification_ok in Hfv as [cts Hcts]; [|done..]. simpl in *. exists u, st0, xd, cts.
  do 5 (split; [done|]). rewrite <- Hr'. f_equal. unfold ee_after. do 2 f_equal. unfold remove_pending_inputs. simpl.
  destruct Hcts as (_ & _ & _ & [rest Hpre] & Hn & _). rewrite Hpre, length_app, length_map.
  unfold zlen in Hn. rewrite (proj2 (Nat.ltb_ge _ _)) by lia. done.
Qed.

(** C7: an accepted update of an execution environment is an execution of it.  If chunk
    proofs are sound and block ids do not collide, an update accepted on an account
    whose state root is that of its last block has executed chunks of blocks from
    that block and root to the tip and root the update claims.  The deposits the
    blocks took in are, in order, the first pending inputs of the queue with the
    deposits of the update's messages added, as many as the update says it
    processed; the declared outputs are exactly those of the blocks and rotate no
    predicate; and the new state root is that of the account moved to the new tip
    with those inputs removed, whose root is again that of its last block. *)
Theorem ee_update_sound (ee : E) key epi upi :
  Inj (=) (=) (compute_block_id (E := E)) -> chunk_proofs_sound ee key ->
  ee_verify_and_process_update ee key epi upi = Ok tt ->
  exists u st xd,
    pub_params_from_ssz_bytes (pi_update_pub_params_ssz upi) = Some u /\ ee_state_from_ssz_bytes (pi_raw_pre_state upi) = Some st /\
    decode_buf_exact update_extra_data_codec (upp_extra_data u) = Ok xd /\
    ee_state_tree_hash_root st = ps_inner_state (upp_cur_state u) /\
    ee_state_tree_hash_root (ee_after st (upp_message_inputs u) xd) = ps_inner_state (upp_new_state u) /\
    (tip_consistent (ee_last_exec_blkid st) (ee_last_exec_state_root st) ->
     tip_consistent (xd_new_tip_blkid xd) (xd_new_tip_state_root xd) /\
     exists bss,
       chunks_run ee (ee_last_exec_blkid st) (ee_last_exec_state_root st) bss (xd_new_tip_blkid xd) (xd_new_tip_state_root xd) /\
       map PendDeposit (blocks_deposits (concat bss))
       = take (Z.to_nat (xd_processed_inputs xd)) (enqueue (ee_pending_inputs st) (msg_deposits (upp_message_inputs u))) /\
       zlen (blocks_deposits (concat bss)) = xd_processed_inputs xd /\
       upp_outputs u = outputs_of_blocks (concat bss)).
Proof.
  intros Hinj Hsound (u & st & xd & cts & Hu & Hst & Hx & Hr & (Hf & Hlk & Hlast & [rest Hpre] & Hn & _ & Ho) & Hr')%ee_accepted_spec.
  exists u, st, xd. do 5 (split; [done|]). intros Hc.
  destruct (proven_chunks_run _ _ _ _ _ _ _ _ Hinj Hsound Hf Hlk Hc Hlast) as (Hc' & bss & Hrun & Hd & Hxs & Hms).
  split; [done|]. exists bss. split; [done|]. rewrite <- Hd. split; [|split; [done|]].
  - rewrite Hpre. unfold zlen in Hn. rewrite <- Hn, Nat2Z.id, <- (length_map PendDeposit). by rewrite take_app_length.
  - rewrite Ho. unfold outputs_of_blocks. destruct (outputs_of_lists UpdateOutputs_new_empty cts) as [H1 H2].
    pose proof (outputs_of_predicate UpdateOutputs_new_empty cts) as H3. rewrite Hxs in H1. rewrite Hms in H2.
    destruct (outputs_of _ cts). simpl in *. congruence.
Qed.

(** *** The builder *)

Inductive ee_op :=
| EeOpAddMessages (msgs : list MessageEntry)
| EeOpAcceptChunk (ct : ChunkTransition)
| EeOpProcessedFincls (count : Z)
| EeOpOverrideSeqNo (seq_no : option Seqno).

Definition run_ee_op (op : ee_op) : M BuilderError (EeUpdateBuilder (E := E)) unit :=
  match op with
  | EeOpAddMessages msgs => eub_add_messages msgs
  | EeOpAcceptChunk ct => accept_chunk_transition ct
  | EeOpProcessedFincls count => mmodify (with_processed_fincls count)
  | EeOpOverrideSeqNo seq_no => mmodify (eub_set_override_seq_no seq_no)
  end.

(** The chunks a run of operations hands to the builder. *)
Definition accepted_chunks (ops : list ee_op) : list ChunkTransition :=
  flat_map (fun op => match op with EeOpAcceptChunk ct => [ct] | _ => [] end) ops.

Implicit Types (b : EeUpdateBuilder (E := E)).

(** The builder after the chunks [cts], started with [vinput] on the state [st]. *)
Record ee_builder_ok vinput (snark_state : SnarkAccountState) (st : EeAccountState) (cts : list ChunkTransition) b : Prop := {
  ebk_inner : builder_ok vinput UpdateOutputs_new_empty (eub_inner b);
  ebk_program : ub_program (eub_inner b) = prog;
  ebk_snark : ub_snark_state (eub_inner b) = snark_state;
  ebk_pre : ub_pre_state (eub_inner b) = st;
  ebk_all : ub_next_msg_idx (eub_inner b) = length (ub_messages (eub_inner b));
  ebk_empty : Forall (fun c => c = []) (ub_coinputs (eub_inner b));
  ebk_pending : eub_pending_inputs b = ee_pending_inputs (ub_cur_state (eub_inner b));
  ebk_linked : linked (ee_last_exec_blkid st) cts;
  ebk_tip : last_tip (ee_last_exec_blkid st) (ee_last_exec_state_root st) cts = (eub_cur_tip_blkid b, eub_cur_tip_state_root b);
  ebk_prefix : map PendDeposit (cts_deposits cts) `prefix_of` eub_pending_inputs b;
  ebk_consumed : eub_inputs_consumed b = length (cts_deposits cts);
  ebk_outputs : ub_outputs (eub_inner b) = outputs_of UpdateOutputs_new_empty cts;
  ebk_fit : outputs_fit (ub_outputs (eub_inner b));
}.

(** The state and the verification state of the inner builder. *)
Lemma builder_ok_states vinput o (ub : UpdateBuilder (P := EeSnarkAccountProgram E)) :
  builder_ok vinput o ub -> ub_program ub = prog -> ub_next_msg_idx ub = length (ub_messages ub) -> ee_bounded (ub_pre_state ub) ->
  ub_cur_state ub = set_pending_inputs (enqueue (ee_pending_inputs (ub_pre_state ub)) (msg_deposits (ub_messages ub))) (ub_pre_state ub) /\
  ub_vstate ub = evs_new_from_state (evi_ee vinput) (evi_chunk_predicate_key vinput) (ub_pre_state ub) o (evi_input_chunks vinput)
                   (evi_raw_partial_pre_state vinput).
Proof.
  intros (vs0 & st0 & _ & Hv & Hs & _ & _ & Hm) Hprog Hall [Hb _]. rewrite Hprog in *. rewrite Hall, firstn_all in Hm. simpl in Hs, Hv.
  unfold mret in Hs. unfold ee_start_verification in Hv. simplify_eq. simpl in *.
  apply ee_verify_messages_ok in Hm as [-> ->]; [|congruence]. by subst.
Qed.

Lemma EeUpdateBuilder_new_ok vinput snark_state st b :
  EeUpdateBuilder_new snark_state st vinput = Ok b -> ee_builder_ok vinput snark_state st [] b.
Proof.
  unfold EeUpdateBuilder_new. simpl. destruct (UpdateBuilder_new _ _ _ _ _ _) as [inner| |] eqn:Hnew; [|done..]. simpl. intros [= <-].
  pose proof (UpdateBuilder_new_ok _ _ _ _ _ _ _ Hnew) as (Hb & Hprog & Hsn & Hst & _ & Ho).
  unfold UpdateBuilder_new in Hnew. case_match; [done|]. simpl in Hnew. injection Hnew as <-.
  split; simpl; try done. by exists (ee_pending_inputs st).
Qed.

Lemma eub_add_message_ok vinput snark_state st cts msg b b' : ee_bounded st ->
  ee_builder_ok vinput snark_state st cts b -> eub_add_message msg b = (Ok tt, b') -> ee_builder_ok vinput snark_state st cts b'.
Proof.
  intros Hbd Hb H. unfold eub_add_message in H. apply mbind_returns in H as ([] & b1 & Hadd & H).
  unfold on_inner, add_message_with_coinput in Hadd. rewrite mbind_mmodify in Hadd.
  destruct (provide_coinput _ _) as [[[]| |] ub1] eqn:Hp; simplify_eq/=. destruct Hb.
  eapply provide_coinput_ok in Hp as (Hok & (Hpr & Hsn & Hpre & _ & Ho) & Hms & Hn & Hci); [|by apply ub_add_message_ok]. simpl in *.
  assert (Forall (fun c => c = []) (ub_coinputs ub1)) as Hem by (rewrite Hci; by apply Forall_app; split; [|constructor]).
  assert (ub_next_msg_idx ub1 = length (ub_messages ub1)) as Hall1 by (rewrite Hn, Hms, length_app; simpl; lia).
  destruct (builder_ok_states _ _ _ Hok) as [Hcur _]; [congruence|done|by rewrite Hpre, ebk_pre0|].
  destruct (builder_ok_states _ _ _ ebk_inner0) as [Hcur0 _]; [done|done|by rewrite ebk_pre0|].
  assert (exists rest, ee_pending_inputs (ub_cur_state ub1) = eub_pending_inputs b ++ rest) as [rest Hrest].
  { rewrite ebk_pending0, Hcur, Hcur0, Hpre, Hms. simpl. rewrite msg_deposits_app, <- enqueue_enqueue.
    apply enqueue_prefix, enqueue_bounded. }
  assert (eub_pending_inputs b' = ee_pending_inputs (ub_cur_state ub1) /\ eub_inner b' = ub1 /\ eub_cur_tip_blkid b' = eub_cur_tip_blkid b /\
    eub_cur_tip_state_root b' = eub_cur_tip_state_root b /\ eub_inputs_consumed b' = eub_inputs_consumed b) as (Hpend & Hin & Ht & Hr & Hcons).
  { unfold mmodify in H. simplify_eq. simpl. rewrite Hrest. destruct (_ <? _)%nat eqn:Hl; simpl.
    - by rewrite drop_app_length.
    - apply Nat.ltb_ge in Hl. rewrite length_app in Hl. destruct rest; [by rewrite app_nil_r|simpl in Hl; lia]. }
  split; rewrite ?Hin, ?Ht, ?Hr, ?Hcons, ?Hpend; try done; try congruence.
  rewrite Hrest. by apply prefix_app_r.
Qed.

Lemma match_deposits_ok consumed i ds remaining :
  match_deposits consumed i ds remaining = Ok tt -> exists rest, drop i remaining = map PendDeposit ds ++ rest.
Proof.
  revert i. induction ds as [|d ds IH]; intros i; simpl; [eauto|].
  destruct (remaining !! i) as [[d']|] eqn:Hi; simpl; [|done]. case_bool_decide; simpl; [|done]. subst d'. intros [rest Hr]%IH.
  exists rest. by rewrite (drop_S _ _ _ Hi), Hr.
Qed.

(** What accepting a chunk checks and changes. *)
Lemma accept_chunk_transition_spec ct b b' : accept_chunk_transition ct b = (Ok tt, b') ->
  ct_parent_exec_blkid ct = eub_cur_tip_blkid b /\
  (exists rest, drop (eub_inputs_consumed b) (eub_pending_inputs b) = map PendDeposit (ct_deposits ct) ++ rest) /\
  outputs_fit (outputs_app (ub_outputs (eub_inner b)) (ct_outputs ct)) /\
  b' = eub_advance (ct_tip_exec_blkid ct) (ct_tip_state_root ct) (length (ct_deposits ct))
         (eub_set_inner b (set_outputs (outputs_app (ub_outputs (eub_inner b)) (ct_outputs ct)) (eub_inner b))).
Proof.
  intros H. unfold accept_chunk_transition in H. unfold mbind at 1, mreads at 1 in H.
  destruct (_ =? _) eqn:Hp; simpl in H; [|by minv]. apply mbind_returns in H as (remaining & b1 & Hrem & H).
  unfold mreads_res, remaining_pending_inputs in Hrem. case_match; simplify_eq. case_match; [by minv|].
  apply mbind_returns in H as ([] & b2 & Hmd & H). unfold mreads_res in Hmd. injection Hmd as Hmd <-.
  unfold mbind, mreads_res, mmodify, UpdateOutputs_try_extend_transfers, UpdateOutputs_try_extend_messages in H. simpl in H.
  destruct (OUT_MAX_TRANSFERS <? _) eqn:Ht; simpl in H; [done|]. destruct (OUT_MAX_MESSAGES <? _) eqn:Hm; simpl in H; [done|]. zbool.
  apply match_deposits_ok in Hmd as [rest Hr]. rewrite drop_0 in Hr. simplify_eq. split; [done|]. split; [eauto|]. split; [|done].
  unfold outputs_fit, outputs_app. simpl. autorewrite with zlen. lia.
Qed.

Lemma chunks_linked_snoc tip cts ct : linked tip (cts ++ [ct]) <-> linked tip cts /\ ct_parent_exec_blkid ct = fst (last_tip tip 0 cts).
Proof. revert tip. induction cts as [|c cts IH]; intros tip; simpl; [naive_solver|]. rewrite IH. destruct cts; simpl; naive_solver. Qed.

Lemma last_tip_snoc tip root cts ct : last_tip tip root (cts ++ [ct]) = (ct_tip_exec_blkid ct, ct_tip_state_root ct).
Proof. revert tip root. induction cts as [|c cts IH]; intros tip root; simpl; [done|]. apply IH. Qed.

Lemma last_tip_root tip root root' cts : fst (last_tip tip root cts) = fst (last_tip tip root' cts).
Proof. by destruct cts. Qed.

Lemma accept_chunk_ok vinput snark_state st cts ct b b' :
  ee_builder_ok vinput snark_state st cts b -> accept_chunk_transition ct b = (Ok tt, b') ->
  ee_builder_ok vinput snark_state st (cts ++ [ct]) b'.
Proof.
  intros [] (Hpar & [rest Hd] & Hfit & ->)%accept_chunk_transition_spec. destruct ebk_prefix0 as [r Hpre].
  assert (cts_deposits (cts ++ [ct]) = cts_deposits cts ++ ct_deposits ct) as Hdep.
  { unfold cts_deposits. rewrite map_app, concat_app. simpl. by rewrite app_nil_r. }
  rewrite Hpre, ebk_consumed0, <- (length_map PendDeposit), drop_app_length in Hd. subst r.
  split; simpl; rewrite ?Hdep; try done.
  - apply chunks_linked_snoc. split; [done|]. by rewrite (last_tip_root _ _ (ee_last_exec_state_root st)), ebk_tip0.
  - apply last_tip_snoc.
  - exists rest. by rewrite Hpre, map_app, app_assoc.
  - by rewrite length_app, ebk_consumed0.
  - unfold outputs_of. by rewrite fold_left_app, ebk_outputs0.
Qed.

Lemma run_ee_op_ok vinput snark_state st cts op b b' : ee_bounded st ->
  ee_builder_ok vinput snark_state st cts b -> run_ee_op op b = (Ok tt, b') ->
  ee_builder_ok vinput snark_state st (cts ++ accepted_chunks [op]) b'.
Proof.
  intros Hbd Hb. destruct op as [msgs|ct|n|s]; simpl; rewrite ?app_nil_r.
  - unfold eub_add_messages. revert b Hb. induction msgs as [|m msgs IH]; intros b Hb H; simpl in H; minv; [done|].
    destruct a. eapply IH; [|done]. by eapply eub_add_message_ok.
  - by apply accept_chunk_ok.
  - unfold mmodify. intros [= <-]. by destruct Hb; split.
  - unfold mmodify. intros [= <-]. destruct Hb. by split.
Qed.

Lemma run_ee_ops_ok vinput snark_state st cts ops b b' : ee_bounded st ->
  ee_builder_ok vinput snark_state st cts b -> miter run_ee_op ops b = (Ok tt, b') ->
  ee_builder_ok vinput snark_state st (cts ++ accepted_chunks ops) b'.
Proof.
  intros Hbd. revert cts b. induction ops as [|op ops IH]; intros cts b Hb; simpl; intros H; minv; [by rewrite app_nil_r|].
  destruct a. eapply run_ee_op_ok in Hm; [|done..]. apply (IH _ _ Hm) in H. simpl in H. by rewrite app_nil_r, <- app_assoc in H.
Qed.

(** *** What the builder builds *)

Context `{!CodecLaws CE} `{!RuntimeLaws X RX}.

Lemma update_extra_data_roundtrip xd bs :
  encode update_extra_data_codec xd = Ok bs -> decode_buf_exact update_extra_data_codec bs = Ok xd.
Proof.
  simpl. intros (b1 & bs1 & H1 & (b2 & bs2 & H2 & (b3 & b4 & H3 & H4 & ->)%enc_app_inv & ->)%enc_app_inv & ->)%enc_app_inv.
  destruct (hash_roundtrips (xd_new_tip_blkid xd) I) as (c1 & E1 & D1). destruct (hash_roundtrips (xd_new_tip_state_root xd) I) as (c2 & E2 & D2).
  destruct (u32_roundtrips _ (u32_encodes_only _ _ H3)) as (c3 & E3 & D3). destruct (u32_roundtrips _ (u32_encodes_only _ _ H4)) as (c4 & E4 & D4).
  rewrite H1 in E1. rewrite H2 in E2. rewrite H3 in E3. rewrite H4 in E4. simplify_eq. apply decode_buf_exact_all. simpl.
  rewrite (mbind_ok _ _ _ _ _ (D1 _)), (mbind_ok _ _ _ _ _ (D2 _)), (mbind_ok _ _ _ _ _ (D3 _)).
  rewrite <- (app_nil_r c4), (mbind_ok _ _ _ _ _ (D4 _)). by destruct xd.
Qed.

#[export] Instance ee_program_codec_laws : ProgramCodecLaws (EeSnarkAccountProgram_program (E := E)).
Proof. split. apply update_extra_data_roundtrip. Qed.

Lemma wrap_consumed (l pending : list PendingInputEntry) : zlen pending <= MAX_PENDING_INPUTS -> l `prefix_of` pending ->
  wrap_u32 (Z.of_nat (length l)) = Z.of_nat (length l).
Proof.
  intros Hp Hl%prefix_length. apply Z.mod_small. unfold zlen in Hp. assert (MAX_PENDING_INPUTS < U32_MAX) by done. lia.
Qed.

(** C8: the operation an execution environment's builder builds is provable.  Messages
    may be added and chunks accepted in any order; whatever the builder was given to
    verify, if it builds an operation and the chunks it accepted come with proofs
    that verify, the update is accepted with the private input of that operation and
    these chunks. *)
Theorem ee_built_update_verifies (ee : E) key vinput snark_state st ops b0 b op cis proofs raw_header raw_state :
  ee_bounded st ->
  EeUpdateBuilder_new snark_state st vinput = Ok b0 ->
  miter run_ee_op ops b0 = (Ok tt, b) ->
  eub_build b = Ok (op, cis) ->
  Forall2 (fun ct proof => verify_claim_witness key (chunk_transition_as_ssz_bytes ct) proof = true) (accepted_chunks ops) proofs ->
  ee_verify_and_process_update ee key
    {| epi_raw_prev_header := raw_header; epi_raw_partial_pre_state := raw_state;
       epi_chunks := zip_with ChunkInput_new (accepted_chunks ops) proofs |}
    (op_private_input (P := EeSnarkAccountProgram E) (sa_proof_state snark_state) st op cis) = Ok tt.
Proof.
  intros Hbd Hnew%EeUpdateBuilder_new_ok Hrun Hbuild Hproofs. apply (run_ee_ops_ok _ _ _ _ _ _ _ Hbd Hnew) in Hrun. simpl in Hrun.
  revert Hproofs Hrun. generalize (accepted_chunks ops) as cts. intros cts Hproofs [].
  unfold eub_build, build_operation_data_unverified in Hbuild.
  destruct (finalize_unverified _ _) as [f| |] eqn:Hun; [|done..]. simpl in Hbuild.
  destruct (into_operation_data _) as [[op' cis']| |] eqn:Hop; simplify_eq/=.
  destruct (builder_ok_states _ _ _ ebk_inner0 ebk_program0 ebk_all0 Hbd) as [Hcur _].
  unfold ee_verify_and_process_update. match goal with |- context [verify_and_process_update _ _ ?v] => set (vinput' := v) end.
  pose proof ebk_inner0 as (_ & _ & _ & _ & _ & Hn & _ & _).
  eapply op_private_input_verifies;
    [by apply ee_state_ssz_roundtrip|exact ebk_inner0|exact ebk_program0|exact Hun|exact Hop|done|done| |done| ].
  - rewrite Hcur. apply ee_verify_messages_intro; [apply Hbd|unfold as_coinputs; rewrite length_map; congruence|].
    unfold as_coinputs. apply Forall_map. eapply Forall_impl; [done|]. by intros c ->.
  - simpl. apply ee_finalize_verification_ok; [done..|]. exists cts. simpl. split; [|split; [done|split; [done|split]]].
    + clear -Hproofs EeLaws0. induction Hproofs as [|ct pr cts proofs Hp _ IH]; simpl; constructor; [|done].
      split; [done|]. apply chunk_transition_ssz_roundtrip.
    + by rewrite <- ebk_pending0.
    + split; [|done]. unfold eub_extra_data. simpl.
      rewrite ebk_consumed0, <- (length_map PendDeposit), (wrap_consumed _ (eub_pending_inputs b)), length_map; [done| |done].
      rewrite ebk_pending0, Hcur. apply enqueue_bounded.
Qed.

(** The chunk input is that of a transition without outputs. *)
Definition chunk_without_outputs (c : ChunkInput) : Prop := exists ct,
  chunk_transition_from_ssz_bytes (chi_chunk_transition_ssz c) = Some ct /\
  ct_outputs ct = {| eo_output_transfers := []; eo_output_messages := [] |}.

Lemma outputs_of_empty cts :
  outputs_of UpdateOutputs_new_empty cts = UpdateOutputs_new_empty <->
  Forall (fun ct => ct_outputs ct = {| eo_output_transfers := []; eo_output_messages := [] |}) cts.
Proof.
  split.
  - intros Ho. destruct (outputs_of_lists UpdateOutputs_new_empty cts) as [Hx Hm]. rewrite Ho in Hx, Hm. simpl in Hx, Hm. clear Ho.
    induction cts as [|ct cts IH]; simpl in *; constructor.
    + by destruct (ct_outputs ct) as [[|] [|]].
    + apply IH; by destruct (eo_output_transfers (ct_outputs ct)), (eo_output_messages (ct_outputs ct)).
  - induction 1 as [|ct cts Hct _ IH]; simpl; [done|]. unfold outputs_app. by rewrite Hct.
Qed.

(** Chunk inputs and the transitions they decode to. *)
Lemma chunks_without_outputs chunks cts (R : ChunkInput -> ChunkTransition -> Prop) :
  (forall c ct, R c ct -> chunk_transition_from_ssz_bytes (chi_chunk_transition_ssz c) = Some ct) -> Forall2 R chunks cts ->
  Forall chunk_without_outputs chunks <-> outputs_of UpdateOutputs_new_empty cts = UpdateOutputs_new_empty.
Proof.
  intros HR Hf. rewrite outputs_of_empty. induction Hf as [|c ct chunks cts Hc _ IH]; [by split|].
  rewrite !Forall_cons, IH. apply HR in Hc. unfold chunk_without_outputs. rewrite Hc. naive_solver.
Qed.

(** C40: the private input the environment's builder makes itself, rather than from
    the operation it builds.  It declares the outputs of the chunks the builder
    accepted, but is checked while it is built against the empty outputs that
    verification was started with: if it is built, none of the chunks given for
    verification has an output.  The verifier accepts it for these chunks exactly if
    it declares no outputs either; and when the chunks the builder accepted are
    those given for verification, it declares none, so that building it fails as
    soon as one of them has an output. *)
Theorem ee_private_input_outputs vinput snark_state st ops b0 b pi :
  ee_bounded st ->
  EeUpdateBuilder_new snark_state st vinput = Ok b0 ->
  miter run_ee_op ops b0 = (Ok tt, b) ->
  eub_build_private_input b = Ok pi ->
  exists u, pub_params_from_ssz_bytes (pi_update_pub_params_ssz pi) = Some u /\
    upp_outputs u = outputs_of UpdateOutputs_new_empty (accepted_chunks ops) /\
    Forall chunk_without_outputs (evi_input_chunks vinput) /\
    (verify_and_process_update (EeProgram (E := E)) pi vinput = Ok tt <-> upp_outputs u = UpdateOutputs_new_empty) /\
    (map (fun c => chunk_transition_from_ssz_bytes (chi_chunk_transition_ssz c)) (evi_input_chunks vinput)
       = map Some (accepted_chunks ops) -> upp_outputs u = UpdateOutputs_new_empty).
Proof.
  intros Hbd Hnew%EeUpdateBuilder_new_ok Hrun Hbuild. apply (run_ee_ops_ok _ _ _ _ _ _ _ Hbd Hnew) in Hrun. simpl in Hrun. destruct Hrun.
  unfold eub_build_private_input in Hbuild. destruct (build_private_input _ _) as [pi'| |] eqn:Hpi; [|done..]. injection Hbuild as ->.
  pose proof ebk_inner0 as (_ & _ & Hroot & _).
  pose proof Hpi as Hop. apply build_private_input_op in Hop as (op & st2 & post & _ & _ & Hp & Hfv & _ & Hop & Heq); [|done].
  apply into_operation_data_spec in Hop as (_ & _ & Hopd).
  exists (op_pub_params (sa_proof_state (ub_snark_state (eub_inner b))) op). subst pi. split; [apply pub_params_ssz_roundtrip|].
  assert (Hout : upp_outputs (op_pub_params (sa_proof_state (ub_snark_state (eub_inner b))) op) = ub_outputs (eub_inner b)) by (by rewrite Hopd).
  rewrite Hout. split; [done|].
  destruct (builder_ok_states _ _ _ ebk_inner0 ebk_program0 ebk_all0) as [_ Hvs]; [by rewrite ebk_pre0|].
  rewrite Hvs, ebk_program0 in Hfv. rewrite ebk_program0 in Hp. simpl in Hp, Hfv. unfold ee_pre_finalize_state, mbind, mmodify in Hp. simplify_eq.
  apply ee_finalize_verification_ok in Hfv as (cts & Hf & _ & _ & _ & _ & _ & Ho); [|done..].
  assert (Hnone : Forall chunk_without_outputs (evi_input_chunks vinput)) by (eapply chunks_without_outputs; [|exact Hf|done]; by intros c ct [_ ?]).
  split; [done|]. split; [split|].
  - intros Hver. destruct vinput as [ee key chunks raw].
    apply (ee_accepted_spec ee key {| epi_raw_prev_header := []; epi_raw_partial_pre_state := raw; epi_chunks := chunks |})
      in Hver as (u & st' & xd & cts' & Hu & _ & _ & _ & (Hf' & _ & _ & _ & _ & _ & Ho') & _).
    simpl in Hu. rewrite pub_params_ssz_roundtrip in Hu. injection Hu as <-. rewrite <- Hout, Ho'.
    eapply chunks_without_outputs; [|exact Hf'|exact Hnone]. by intros c ct [_ ?].
  - intros Hempty. rewrite <- ebk_program0. apply (clean_build_verifies vinput (eub_inner b) (eub_extra_data b)); [|by rewrite Hempty|done].
    by apply ee_state_ssz_roundtrip.
  - intros Hsame. rewrite ebk_outputs0. eapply (chunks_without_outputs _ _ (fun c ct => chunk_transition_from_ssz_bytes (chi_chunk_transition_ssz c) = Some ct));
      [done| |exact Hnone]. clear -Hsame. revert Hsame. generalize (accepted_chunks ops) as cts. generalize (evi_input_chunks vinput) as chunks.
    induction chunks as [|c chunks IH]; intros [|ct cts] Hs; simplify_eq/=; constructor; auto.
Qed.
End account_spec.
