(* ===== verification/Concrete.v ===== *)
(** * A concrete instance of the external functions

    A small executable choice for every function outside [src/], with proofs
    that it satisfies all the laws the theorems assume: MMRs are lists of their
    leaves, a Merkle proof carries nothing and is checked by looking the leaf
    up, encodings are lists of the encoded fields, and hashes are polynomial,
    with the parent in front of the hash of a block.  The witnesses evaluate the
    transition function over it. *)

From S2P Require Import Prelude SortedMap Identifiers AcctTypes ChainTypes Externals.
From S2P Require Import LedgerTypes Bridge OLAccount WriteBatch OLState.

(** ** Types *)

Inductive ToyLog :=
| ToyDeposit (d : DepositLog)
| ToyTipUpdate (u : CheckpointTipUpdate)
| ToyKeyUpdate (account : AccountSerial) (key : Z)
| ToyOther (ty : Z).

(** Subject bytes: at most 32 of them. *)
Definition toy_subject : Type := { l : list Z | (zlen l <=? 32) = true }.

#[export] Instance toy_types : ExtTypes := {
  Mmr64 := list Z;
  RawMerkleProof := unit;
  PredicateKey := Z;
  AsmLogEntry := ToyLog;
  SubjectIdBytes := toy_subject;
  CodecError := unit;
}.

(** ** Serializers

    A serializer with the parser that undoes it in front of whatever follows. *)
Record Ser (A : Type) := {
  ser : A -> list Z;
  par : list Z -> option (A * list Z);
  par_ser x rest : par (ser x ++ rest) = Some (x, rest);
}.
Arguments ser {_} _ _.
Arguments par {_} _ _.
Arguments par_ser {_} _ _ _.

Definition parse_all {A} (c : Ser A) (b : list Z) : option A :=
  match par c b with Some (x, []) => Some x | _ => None end.

Lemma parse_all_ser {A} (c : Ser A) x : parse_all c (ser c x) = Some x.
Proof. unfold parse_all. by rewrite <- (app_nil_r (ser c x)), par_ser. Qed.

Definition ser_z : Ser Z.
Proof.
  refine {| ser x := [x]; par b := match b with x :: b' => Some (x, b') | [] => None end |}. done.
Defined.

Definition ser_pair {A B} (a : Ser A) (b : Ser B) : Ser (A * B).
Proof.
  refine {| ser p := ser a (fst p) ++ ser b (snd p);
            par l := '(x, l') ← par a l; '(y, l'') ← par b l'; Some ((x, y), l'') |}.
  intros [x y] rest. simpl. by rewrite <- app_assoc, par_ser; simpl; rewrite par_ser.
Defined.

(** Along a bijection. *)
Definition ser_iso {A B} (f : A -> B) (g : B -> A) (Hgf : forall x, g (f x) = x) (b : Ser B) : Ser A.
Proof.
  refine {| ser x := ser b (f x); par l := '(y, l') ← par b l; Some (g y, l') |}.
  intros x rest. rewrite par_ser. simpl. by rewrite Hgf.
Defined.

Fixpoint par_n {A} (a : Ser A) (n : nat) (l : list Z) : option (list A * list Z) :=
  match n with
  | O => Some ([], l)
  | S n' => '(x, l') ← par a l; '(xs, l'') ← par_n a n' l'; Some (x :: xs, l'')
  end.

Definition ser_list {A} (a : Ser A) : Ser (list A).
Proof.
  refine {| ser xs := zlen xs :: concat (map (ser a) xs);
            par l := match l with n :: l' => par_n a (Z.to_nat n) l' | [] => None end |}.
  intros xs rest. simpl. unfold zlen. rewrite Nat2Z.id. induction xs as [|x xs IH]; simpl; [done|].
  rewrite <- app_assoc, par_ser. simpl. by rewrite IH.
Defined.

Definition ser_option {A} (a : Ser A) : Ser (option A).
Proof.
  refine {| ser o := match o with Some x => 1 :: ser a x | None => [0] end;
            par l := match l with
                     | n :: l' => if n =? 0 then Some (None, l') else '(x, l'') ← par a l'; Some (Some x, l'')
                     | [] => None end |}.
  intros [x|] rest; simpl; [by rewrite par_ser|done].
Defined.

(** ** Functions *)

Definition toy_hash (l : list Z) : Z :=
  fold_left (fun acc x => (acc * 1000003 + x + 1) mod 2 ^ 256) l 7.

Lemma toy_hash_nonneg l : 0 <= toy_hash l.
Proof.
  unfold toy_hash. assert (H : 0 <= 7) by lia. revert H. generalize 7. induction l as [|x l IH]; intros a Ha; [done|].
  apply IH, Z.mod_pos_bound. lia.
Qed.

(** A digest that commits to the last element. *)
Definition toy_digest (l : list Z) : Z := default 0 (last l) * 2 ^ 256 + toy_hash l.

Definition toy_subject_new (l : list Z) : option toy_subject :=
  match decide ((zlen l <=? 32) = true) with
  | left H => Some (exist _ l H)
  | right _ => None
  end.

Definition toy_payload_fields (p : MsgPayload) : list Z := mp_value p :: zlen (mp_data p) :: mp_data p.

Definition toy_effects_fields (fx : TxEffects) : list Z :=
  concat (map (fun t => [st_dest t; st_value t]) (transfers_iter fx)) ++
  concat (map (fun m => sm_dest m :: toy_payload_fields (sm_payload m)) (messages_iter fx)).

Definition toy_entry_fields (e : MessageEntry) : list Z :=
  me_source e :: me_incl_epoch e :: toy_payload_fields (me_payload e).

Definition toy_tx_fields (d : OLTransactionData) : list Z :=
  match txd_payload d with
  | GenericAccountMessage gam => [1; gam_target gam]
  | SnarkAccountUpdate sau =>
      let upd := sod_update_data (sau_operation_data sau) in
      [2; sau_target sau; sud_seq_no upd; sps_new_next_msg_idx (sud_proof_state upd);
       sps_inner_state_root (sud_proof_state upd)] ++ sud_extra_data upd ++
      concat (map toy_entry_fields (sod_messages (sau_operation_data sau)))
  end ++ toy_effects_fields (txd_effects d).

Definition toy_header_fields (h : OLBlockHeader) : list Z :=
  [hdr_timestamp h; hdr_flags h; hdr_slot h; hdr_epoch h; hdr_body_root h; hdr_state_root h; hdr_logs_root h;
   hdr_parent_blkid h].

Definition toy_body_fields (b : OLBlockBody) : list Z :=
  map (fun tx => toy_hash (toy_tx_fields (tx_data tx))) (default [] (body_tx_segment b)) ++
  concat (map (fun m => [mf_height m; mf_blkid m; mf_wtxids_root m; zlen (mf_logs m)])
            (default [] (body_manifests b))).

Definition ser_payload : Ser MsgPayload.
Proof.
  refine (ser_iso (fun p => (mp_value p, mp_data p)) (fun p => {| mp_value := fst p; mp_data := snd p |}) _ (ser_pair ser_z (ser_list ser_z))).
  by intros [].
Defined.
Definition ser_entry : Ser MessageEntry.
Proof.
  refine (ser_iso (fun e => (me_source e, (me_incl_epoch e, me_payload e)))
    (fun p => {| me_source := fst p; me_incl_epoch := fst (snd p); me_payload := snd (snd p) |}) _
    (ser_pair ser_z (ser_pair ser_z ser_payload))).
  by intros [].
Defined.
Definition ser_claim : Ser AccumulatorClaim.
Proof.
  refine (ser_iso (fun c => (claim_idx c, claim_entry_hash c)) (fun p => {| claim_idx := fst p; claim_entry_hash := snd p |}) _
    (ser_pair ser_z ser_z)).
  by intros [].
Defined.
Definition ser_refs : Ser LedgerRefs.
Proof.
  refine (ser_iso lr_l1_block_refs (fun l => {| lr_l1_block_refs := l |}) _ (ser_list ser_claim)). by intros [].
Defined.
Definition ser_proof_state : Ser ProofState.
Proof.
  refine (ser_iso (fun s => (ps_inner_state s, ps_next_inbox_msg_idx s)) (fun p => {| ps_inner_state := fst p; ps_next_inbox_msg_idx := snd p |}) _
    (ser_pair ser_z ser_z)).
  by intros [].
Defined.
Definition ser_transfer : Ser OutputTransfer.
Proof.
  refine (ser_iso (fun t => (ot_dest t, ot_value t)) (fun p => {| ot_dest := fst p; ot_value := snd p |}) _ (ser_pair ser_z ser_z)).
  by intros [].
Defined.
Definition ser_message : Ser OutputMessage.
Proof.
  refine (ser_iso (fun m => (om_dest m, om_payload m)) (fun p => {| om_dest := fst p; om_payload := snd p |}) _ (ser_pair ser_z ser_payload)).
  by intros [].
Defined.
Definition ser_outputs : Ser UpdateOutputs.
Proof.
  refine (ser_iso (fun o : UpdateOutputs => (uo_transfers o, (uo_messages o, uo_new_predicate o)))
    (fun p => {| uo_transfers := fst p; uo_messages := fst (snd p); uo_new_predicate := snd (snd p) |}) _
    (ser_pair (ser_list ser_transfer) (ser_pair (ser_list ser_message) (ser_option ser_z)))).
  by intros [].
Defined.
Definition ser_pub_params : Ser UpdateProofPubParams.
Proof.
  refine (ser_iso (fun u : UpdateProofPubParams => (upp_seq_no u, (upp_cur_state u, (upp_new_state u, (upp_message_inputs u, (upp_ledger_refs u, (upp_outputs u, upp_extra_data u)))))))
    (fun '(a, (b, (c, (d, (e, (f, g)))))) => {| upp_seq_no := a; upp_cur_state := b; upp_new_state := c; upp_message_inputs := d;
       upp_ledger_refs := e; upp_outputs := f; upp_extra_data := g |}) _
    (ser_pair ser_z (ser_pair ser_proof_state (ser_pair ser_proof_state (ser_pair (ser_list ser_entry) (ser_pair ser_refs
       (ser_pair ser_outputs (ser_list ser_z)))))))).
  by intros [].
Defined.

(** The functions, for a choice of the proofs that verify. *)
Definition toy_ext_with (verify : Z -> list Z -> list Z -> bool) : Ext := {|
  amt_checked_add := checked_add_u64;
  amt_checked_sub := checked_sub;
  acct_special n := n;
  acct_is_special id := id <? 256;
  serial_reserved n := n;
  serial_incr s := wrap_u32 (s + 1);
  system_reserved_accts := 128;
  mmr_empty := ([] : list Z);
  mmr_new_repeated h n := replicate (Z.to_nat n) h;
  mmr_add_leaf m h := if zlen m <? U64_MAX then Some (m ++ [h]) else None;
  mmr_num_entries m := zlen m;
  mmr_verify m _ idx leaf := bool_decide ((m : list Z) !! Z.to_nat idx = Some leaf);
  merkle_tree_root l := match l with [] => None | _ => Some (toy_hash l) end;
  verify_claim_witness := verify;
  pred_try_as_buf key := if (key : Z) <? 1000 then Some key else None;
  pred_as_buf_bytes key := if (key : Z) <? 1000 then Some [key : Z] else None;
  hash_raw := toy_digest;
  ssz_header := toy_header_fields;
  ssz_body := toy_body_fields;
  ssz_pub_params := ser ser_pub_params;
  thr_message_entry e := 1 + toy_hash (toy_entry_fields e);
  thr_l1_block_record r := 1 + toy_hash [l1r_block_hash r; l1r_wtxids_root r];
  thr_tx_data d := toy_hash (toy_tx_fields d);
  log_hash_commitment l := toy_hash (log_account_serial l :: log_payload l);
  owned_msg_to_vec ty body := Some (ty :: body);
  msg_ref_parse data := match data with [] => None | ty :: body => Some (ty, body) end;
  subject_id_encode s := Ok [s];
  predicate_update_encode b := Ok b;
  withdrawal_msg_decode b :=
    match b with
    | fees :: op :: dest => Some {| wmd_fees := fees; wmd_selected_operator := op; wmd_dest_desc := dest |}
    | _ => None
    end;
  descriptor_from_bytes_ok b := negb (zlen b =? 0);
  subject_try_new := toy_subject_new;
  subject_as_bytes s := proj1_sig s;
  subject_to_id s := toy_hash (proj1_sig s);
  withdrawal_log_encode i := Ok (swi_amt i :: swi_selected_operator i :: swi_dest i);
  sau_log_new idx data :=
    if zlen data <=? SAU_MAX_EXTRA_DATA_BYTES
    then Some {| sau_log_new_msg_idx := idx; sau_log_extra_data := data |} else None;
  sau_log_encode l := Ok (sau_log_new_msg_idx l :: sau_log_extra_data l);
  asm_log_msg_ty l :=
    Some (match l with ToyDeposit _ => 1 | ToyTipUpdate _ => 2 | ToyKeyUpdate _ _ => 3 | ToyOther ty => ty end);
  asm_log_type_id ty :=
    Some (if ty =? 1 then AsmDeposit else if ty =? 2 then AsmCheckpointTipUpdate
          else if ty =? 3 then AsmEePredicateKeyUpdate else AsmOtherLog ty);
  asm_log_as_deposit l :=
    match l with
    | ToyDeposit d => if (0 <=? dl_amount d) && (dl_amount d <=? U64_MAX) then Some d else None
    | _ => None
    end;
  asm_log_as_tip_update l := match l with ToyTipUpdate u => Some u | _ => None end;
  asm_log_as_predicate_update l :=
    match l with
    | ToyKeyUpdate a k => Some {| epku_account := a; epku_new_predicate := k |}
    | _ => None
    end;
  epoch_commitment_from_terminal e c :=
    {| ec_epoch := e; ec_last_slot := obc_slot c; ec_last_blkid := obc_blkid c |};
|}.

#[export] Instance toy_ext : Ext := toy_ext_with (fun key claim w => bool_decide (w = [key; toy_hash claim])).

Definition toy_account_fields (e : TsnlAccountEntry) : list Z :=
  [ent_id e; acct_serial (ent_state e); acct_balance (ent_state e)] ++
  match acct_state (ent_state e) with
  | TyEmpty => []
  | TySnark s => [sas_seqno s; ps_inner_state (sas_proof_state s); ps_next_inbox_msg_idx (sas_proof_state s);
                  toy_hash (sas_inbox_mmr s)]
  end.

#[export] Instance toy_root : ExtRoot := {
  thr_ol_state s :=
    toy_hash ([es_total_ledger_funds (ol_epoch s); es_cur_epoch (ol_epoch s);
               l1c_height (es_last_l1_block (ol_epoch s)); gs_cur_slot (ol_global s);
               gs_next_avail_serial (ol_global s); gs_limbo_funds_sats (ol_global s);
               zlen (is_pending_asm_logs (ol_intraepoch s))] ++
              concat (map toy_account_fields (tbl_accounts (ol_ledger s))));
}.

(** ** Laws *)

#[export] Instance toy_amount_laws : AmountLaws toy_ext.
Proof. by split. Qed.

#[export] Instance toy_mmr_laws : MmrLaws toy_ext.
Proof.
  split.
  - intros m h m' _. simpl. case_match; intros; simplify_eq. by rewrite zlen_app.
  - intros h n _ Hn. simpl. unfold zlen. rewrite length_replicate. lia.
  - intros e. simpl. pose proof (toy_hash_nonneg (toy_entry_fields e)). lia.
  - intros r. cbn [thr_l1_block_record toy_ext toy_ext_with]. pose proof (toy_hash_nonneg [l1r_block_hash r; l1r_wtxids_root r]). lia.
Qed.

#[export] Instance toy_envelope_laws : EnvelopeLaws toy_ext.
Proof. split. intros ty body data. simpl. by intros [= <-]. Qed.

#[export] Instance toy_merkle_laws : MerkleLaws toy_ext.
Proof.
  split. intros [|x l] k Hl; simpl in *; [|by eexists].
  symmetry in Hl. by apply Nat.pow_nonzero in Hl.
Qed.

#[export] Instance toy_serial_laws : SerialLaws toy_ext.
Proof. split. intros s Hs. simpl. unfold wrap_u32. apply Z.mod_small. unfold_widths. lia. Qed.

#[export] Instance toy_subject_laws : SubjectLaws toy_ext.
Proof.
  split; simpl; unfold toy_subject_new.
  - intros l s. case_match; intros; simplify_eq. done.
  - intros [l H]. simpl. case_match; [|done]. do 2 f_equal. apply (proof_irrel _).
Qed.

#[export] Instance toy_asm_log_laws : AsmLogLaws toy_ext.
Proof.
  split. intros l d. simpl. case_match; [|done..]. case_match; intros; simplify_eq.
  unfold in_u64. apply andb_true_iff in H0 as [? ?]. zbool. lia.
Qed.

#[export] Instance toy_mmr_capacity : MmrCapacity toy_ext.
Proof. split. intros m h Hm. simpl in *. apply Z.ltb_lt in Hm. rewrite Hm. eauto. Qed.

#[export] Instance toy_log_codec_laws : LogCodecLaws toy_ext.
Proof.
  split; [done..|]. intros idx data Hd. simpl. apply Z.leb_le in Hd. rewrite Hd. eauto.
Qed.

#[export] Instance toy_msg_codec_laws : MsgCodecLaws toy_ext.
Proof.
  split; simpl.
  - intros s. by exists [s].
  - intros k k'. case_match; [|done]. intros [= <-]. rewrite H. by exists [k].
  - intros b _. exists b. split; [done|lia].
  - intros ty body _ _. exists (ty :: body). split; [done|]. autorewrite with zlen. lia.
Qed.

(** ** Block ids *)

Lemma toy_hash_bound l x : 0 <= toy_hash (l ++ [x]) < 2 ^ 256.
Proof. unfold toy_hash. rewrite fold_left_app. cbn [fold_left]. by apply Z.mod_pos_bound. Qed.

Lemma toy_blkid_parent (h : OLBlockHeader) : compute_blkid h / 2 ^ 256 = hdr_parent_blkid h.
Proof.
  change (compute_blkid h) with (hdr_parent_blkid h * 2 ^ 256 + toy_hash (toy_header_fields h)).
  pose proof (toy_hash_bound [hdr_timestamp h; hdr_flags h; hdr_slot h; hdr_epoch h; hdr_body_root h; hdr_state_root h; hdr_logs_root h]
    (hdr_parent_blkid h)) as Hb. change (_ ++ [hdr_parent_blkid h]) with (toy_header_fields h) in Hb.
  rewrite Z.add_comm, Z.div_add by done. by rewrite Z.div_small.
Qed.
