(* ===== verification/ConcreteDa.v ===== *)
(** * A concrete instance for data availability and checkpoints

    Executable codecs that write one element per primitive value, predicate keys
    that are their own bytes, queues as a front and a list, checkpoint types as
    tuples, and a node storage made of association lists; with proofs that they
    satisfy the laws the theorems assume. *)

From Stdlib Require Import String.
From S2P Require Import Prelude SortedMap Identifiers AcctTypes ChainTypes Externals.
From S2P Require Import CodecTypes Varint64 DaFramework DaQueue OLDaTypes LedgerTypes Bridge OLAccount OLState.
From S2P Require Import StateAccessor OLDaApply IndexerLayer DaLayer MemoryLayer StfContext StfBlock.
From S2P Require Import Genesis CheckpointWorker CheckpointService Concrete.

(** ** Codecs *)

(** One element, between [lo] and [hi] when written. *)
Definition toy_int_codec (lo hi : Z) : CodecOf Z := {|
  encode x := if (lo <=? x) && (x <=? hi) then Ok [x] else Err tt;
  decode b := match b with x :: b' => (Ok x, b') | [] => (Err tt, []) end;
|}.

(** Two bytes, the high one first. *)
Definition toy_u16_codec : CodecOf Z := {|
  encode x := if (0 <=? x) && (x <=? U16_MAX) then Ok [x / 256; x mod 256] else Err tt;
  decode b := match b with h :: l :: b' => (Ok (h * 256 + l), b') | _ => (Err tt, []) end;
|}.

Definition toy_any_codec : CodecOf Z := {|
  encode x := Ok [x];
  decode b := match b with x :: b' => (Ok x, b') | [] => (Err tt, []) end;
|}.

Definition toy_read_buf (n : Z) : M CodecError bytes bytes := fun b =>
  if (0 <=? n) && (n <=? zlen b) then (Ok (take (Z.to_nat n) b), drop (Z.to_nat n) b) else (Err tt, b).

#[export] Instance toy_codec : CodecExt := {
  malformed_field _ := tt;
  overflow_container := tt;
  invalid_variant _ := tt;
  read_byte b := match b with x :: b' => (Ok x, b') | [] => (Err tt, []) end;
  read_buf := toy_read_buf;
  u8_codec := toy_int_codec 0 255;
  u16_codec := toy_u16_codec;
  u32_codec := toy_int_codec 0 U32_MAX;
  u64_codec := toy_int_codec 0 U64_MAX;
  i8_codec := toy_int_codec (-128) 127;
  i16_codec := toy_int_codec (-32768) 32767;
  bool_codec := {|
    encode (x : bool) := Ok [if x then 1 else 0];
    decode b := match b with x :: b' => (Ok (negb (x =? 0)), b') | [] => (Err tt, []) end |};
  hash_codec := toy_any_codec;
  account_id_codec := toy_any_codec;
  account_serial_codec := toy_int_codec 0 U32_MAX;
  amount_codec := toy_int_codec 0 U64_MAX;
  varint_new_usize n := if (0 <=? n) && (n <=? U32_MAX) then Some n else None;
  varint_codec := toy_int_codec 0 U32_MAX;
  decode_buf_exact T c b := match decode c b with (Ok x, []) => Ok x | (Panic, _) => Panic | _ => Err tt end;
}.

Lemma toy_int_roundtrips lo hi : roundtrips (toy_int_codec lo hi) (fun x => lo <= x <= hi).
Proof.
  intros x [H1 H2]. exists [x]. simpl. by rewrite (proj2 (Z.leb_le _ _) H1), (proj2 (Z.leb_le _ _) H2).
Qed.

Lemma toy_int_only lo hi x bs : encode (toy_int_codec lo hi) x = Ok bs -> lo <= x <= hi.
Proof. simpl. destruct (_ && _) eqn:H; [|done]. zbool. lia. Qed.

Lemma toy_u16_roundtrips : roundtrips toy_u16_codec (fun x => 0 <= x <= U16_MAX).
Proof.
  intros x [H1 H2]. exists [x / 256; x mod 256]. simpl. rewrite (proj2 (Z.leb_le _ _) H1), (proj2 (Z.leb_le _ _) H2).
  split; [done|]. intros rest. simpl. do 2 f_equal. pose proof (Z.div_mod x 256). lia.
Qed.

Lemma toy_u16_only x bs : encode toy_u16_codec x = Ok bs -> 0 <= x <= U16_MAX.
Proof. simpl. destruct (_ && _) eqn:H; [|done]. zbool. lia. Qed.

Lemma toy_any_roundtrips : roundtrips toy_any_codec (fun _ => True).
Proof. intros x _. by exists [x]. Qed.

#[export] Instance toy_codec_laws : CodecLaws toy_codec.
Proof.
  split; try apply toy_int_roundtrips; try apply toy_u16_roundtrips; try apply toy_any_roundtrips; try (intros x bs H; by apply toy_u16_only in H); simpl; try done.
  - by exists tt.
  - intros l rest. unfold toy_read_buf. rewrite zlen_app. pose proof (zlen_nonneg l). pose proof (zlen_nonneg rest).
    rewrite (proj2 (Z.leb_le _ _)), (proj2 (Z.leb_le _ _)) by lia. simpl. unfold zlen. rewrite Nat2Z.id.
    by rewrite take_app_length, drop_app_length.
  - intros [] _; by eexists.
  - intros x bs H. by apply toy_int_only in H.
  - intros x bs H. by apply toy_int_only in H.
  - intros n [H1 H2]. rewrite (proj2 (Z.leb_le _ _) H1), (proj2 (Z.leb_le _ _)); [done|].
    unfold MAX_MSG_PAYLOAD_DATA_BYTES in H2. change (Z.shiftl 1 20) with 1048576 in H2. unfold U32_MAX. lia.
  - eapply roundtrips_impl; [|apply toy_int_roundtrips]. intros n [H1 H2].
    unfold MAX_MSG_PAYLOAD_DATA_BYTES in H2. change (Z.shiftl 1 20) with 1048576 in H2. unfold U32_MAX. lia.
  - intros T c bs x ->. done.
Qed.

(** ** Predicate keys, limits *)

#[export] Instance toy_predicate : PredicateExt := {
  PredicateKeyBuf := Z;
  PredicateError := unit;
  pkb_try_from b := match b with [k] => if k <? 1000 then Ok k else Err tt | _ => Err tt end;
  pkb_condition_len _ := 1;
  pkb_to_owned k := Some (k : Z);
  condition_parsing_failed _ := tt;
  MAX_CONDITION_LEN := 1024;
}.

#[export] Instance toy_predicate_laws : PredicateLaws toy_ext toy_predicate.
Proof.
  split. intros k b. simpl. destruct (k <? 1000) eqn:Hk; [|done]. intros [= <-]. exists k. simpl. rewrite Hk.
  split_and!; [done|lia|done].
Qed.

#[export] Instance toy_da : DaExt := { OL_DA_DIFF_MAX_SIZE := 262144; pred_condition_len _ := 1 }.

(** ** Queues *)

Definition toy_queue : DaQueueTarget := {|
  dqt_state := nat * list Z; dqt_entry := Z;
  cur_front t := Z.of_nat (fst t);
  cur_next t := Z.of_nat (fst t) + zlen (snd t);
  increment_front t n := ((fst t + Z.to_nat n)%nat, drop (Z.to_nat n) (snd t));
  dqt_get t i := if i <? Z.of_nat (fst t) then None else snd t !! Z.to_nat (i - Z.of_nat (fst t));
  insert_entries t l := (fst t, snd t ++ l);
  dqt_entry_codec := toy_any_codec;
|}.

#[export] Instance toy_queue_laws : QueueLaws toy_queue.
Proof.
  refine {| q_front := fun t : dqt_state toy_queue => Z.of_nat (fst t); q_entries := fun t : dqt_state toy_queue => snd t |};
    simpl; try done.
  - intros t. lia.
  - intros t n Hn. split; [lia|done].
Defined.

(** ** Checkpoints *)

#[export] Instance toy_checkpoint : CheckpointExt := {
  L2BlockRange := OLBlockCommitment * OLBlockCommitment;
  L2BlockRange_new := pair;
  TerminalHeaderComplement := list Z;
  TerminalHeaderComplement_new ts parent body logs := [ts; parent; body; logs];
  thc_compute_hash := toy_hash;
  CheckpointClaim := list Z;
  CheckpointClaim_new epoch range mfs diff logs thc :=
    [epoch; obc_slot (fst range); obc_slot (snd range); mfs; diff; logs; thc];
  compute_asm_manifests_hash mfs := toy_hash (map mf_blkid mfs);
  ssz_logs logs := concat (map (fun l => log_account_serial l :: log_payload l) logs);
  CheckpointTip := Epoch * L1Height * OLBlockCommitment;
  CheckpointTip_new e h c := (e, h, c);
  CheckpointOLLog := AccountSerial * bytes;
  CheckpointOLLog_new := pair;
  CheckpointSidecar := bytes * list (AccountSerial * bytes) * list Z;
  CheckpointSidecar_new b l t := Some (b, l, t);
  CheckpointPayload := (Epoch * L1Height * OLBlockCommitment) * (bytes * list (AccountSerial * bytes) * list Z) * bytes;
  CheckpointPayload_new t s p := Some (t, s, p);
}.

(** The storage: the first entry of an association list counts. *)
Record ToyStore := {
  ts_summarized : option Epoch;
  ts_commitments : list (Epoch * EpochCommitment);
  ts_summaries : list (EpochCommitment * EpochSummary);
  ts_payloads : list (EpochCommitment * CheckpointPayload);
  ts_blocks : list (OLBlockId * OLBlock);
  ts_states : list (OLBlockId * OLState);
}.

Fixpoint assoc {K V} `{!EqDecision K} (k : K) (l : list (K * V)) : option V :=
  match l with
  | [] => None
  | (k', v) :: l' => if decide (k' = k) then Some v else assoc k l'
  end.

Definition ts_put (ec : EpochCommitment) (p : CheckpointPayload) (c : ToyStore) : ToyStore := {|
  ts_summarized := ts_summarized c; ts_commitments := ts_commitments c; ts_summaries := ts_summaries c;
  ts_payloads := (ec, p) :: ts_payloads c; ts_blocks := ts_blocks c; ts_states := ts_states c |}.

Definition toy_context_with (fetch : ToyStore -> EpochSummary -> res WorkerError (bytes * list OLLog))
    : CheckpointWorkerContext ToyStore := {|
  get_last_summarized_epoch c := Ok (ts_summarized c);
  get_canonical_epoch_commitment_at c n := Ok (assoc n (ts_commitments c));
  get_epoch_summary c ec := Ok (assoc ec (ts_summaries c));
  get_checkpoint_payload c ec := Ok (assoc ec (ts_payloads c));
  get_last_checkpoint_payload_epoch c := Ok (match ts_payloads c with (ec, _) :: _ => Some ec | [] => None end);
  get_history_base_epoch _ := Ok None;
  put_checkpoint_payload ec p := mmodify (ts_put ec p);
  get_proof _ _ := Ok [];
  get_block_header c b := Ok (option_map blk_header (assoc (obc_blkid b) (ts_blocks c)));
  get_block c id := Ok (assoc id (ts_blocks c));
  get_ol_state c b := Ok (assoc (obc_blkid b) (ts_states c));
  fetch_da_for_epoch := fetch;
|}.

(** The replay only reads the storage, so it can be run over a context whose
    own replay is not there yet. *)
Definition toy_fetch (bp : BridgeParams) (c : ToyStore) (summary : EpochSummary) : res WorkerError (bytes * list OLLog) :=
  match impl_fetch_da_for_epoch (CheckpointWorkerContext0 := toy_context_with (fun _ _ => Err WorkerFailed)) 10 bp c summary with
  | Some r => r
  | None => Err WorkerFailed
  end.

Lemma toy_storage_laws bp : StorageLaws (CheckpointWorkerContext0 := toy_context_with (toy_fetch bp)).
Proof.
  split. intros ec p c. exists (ts_put ec p c). split; [done|]. split; [by split|]. split.
  - simpl. by rewrite decide_True.
  - intros ec' Hne. simpl. by rewrite decide_False.
Qed.
