(* ===== verification/Witnesses.v ===== *)
(** * A scenario and its witnesses

    A short chain over the concrete instance: genesis with two snark accounts,
    a block with an update transaction that transfers, messages and withdraws
    next to a generic account message, and an epoch terminal whose manifests
    carry a deposit, a tip update and a key update.  The theorems about the
    transition function are applied to it. *)

From S2P Require Import Prelude SortedMap Identifiers AcctTypes ChainTypes Externals LedgerTypes Bridge.
From S2P Require Import OLAccount WriteBatch OLState StateAccessor LedgerSpec MemoryLayer BatchApply.
From S2P Require Import WriteTracking BatchDiff SnarkSys StfContext StfTx StfManifests StfBlock StfSim.
From S2P Require Import LayerProps StfAgreement StfLedger StfUpdates StfManifestSpec DaReplay StfValue.
From S2P Require Import StfProgress Genesis StfSafety BlockSafety SnarkProofs Concrete.

Definition demo_bridge : BridgeParams :=
  {| bp_denomination := 100; bp_max_withdrawal_amount := Some 1000; bp_max_withdrawal_descriptor_len := 80 |}.

Definition demo_params : OLParams := {|
  olp_slot := 0; olp_epoch := 0; olp_parent_blkid := 0; olp_timestamp := 1000;
  olp_accounts := <[1000 := {| gsd_predicate := (7 : Z); gsd_inner_state := 11; gsd_balance := 5000 |}]>
                  {[2000 := {| gsd_predicate := (8 : Z); gsd_inner_state := 12; gsd_balance := 300 |}]};
  olp_last_l1_block := {| l1c_height := 9; l1c_blkid := 99 |};
  olp_bridge_params := demo_bridge |}.

Definition demo_no_header : OLBlockHeader :=
  {| hdr_timestamp := 0; hdr_flags := 0; hdr_slot := 0; hdr_epoch := 0; hdr_parent_blkid := 0;
     hdr_body_root := 0; hdr_state_root := 0; hdr_logs_root := 0 |}.
Definition demo_no_state : OLState := {|
  ol_epoch := {| es_total_ledger_funds := 0; es_cur_epoch := 0;
                 es_last_l1_block := {| l1c_height := 0; l1c_blkid := 0 |};
                 es_checkpointed_epoch := {| ec_epoch := 0; ec_last_slot := 0; ec_last_blkid := 0 |};
                 es_l1_block_refs_mmr := ([] : list Z) |};
  ol_global := GlobalState_new 0 0; ol_intraepoch := {| is_pending_asm_logs := [] |};
  ol_ledger := TsnlLedgerAccountsTable_new_empty |}.

(** The state and header genesis ends with. *)
Definition demo_state : OLState :=
  match build_genesis_artifacts demo_params with Ok g => ga_ol_state g | _ => demo_no_state end.
Definition demo_parent : OLBlockHeader :=
  match build_genesis_artifacts demo_params with Ok g => blk_header (ga_ol_block g) | _ => demo_no_header end.
Definition demo_mem : MemoryStateBaseLayer :=
  match MemoryStateBaseLayer_new (E := unit) demo_state with
  | Ok m => m
  | _ => {| mem_state := demo_no_state; mem_serials := ∅ |}
  end.
Definition demo_ledger : LState := ol_abs (mem_state demo_mem) (mem_serials demo_mem).

(** ** The transactions of the first block *)

Definition demo_effects : TxEffects := {|
  fx_transfers := Some [{| st_dest := 2000; st_value := 250 |}];
  fx_messages := Some
    [{| sm_dest := 16; sm_payload := {| mp_value := 200; mp_data := [3; 0; 1; 42; 43] |} |};
     {| sm_dest := 16; sm_payload := {| mp_value := 5; mp_data := [3] |} |};
     {| sm_dest := 2000; sm_payload := {| mp_value := 10; mp_data := [77] |} |}] |}.

Definition demo_operation : SauTxOperationData := {|
  sod_update_data := {| sud_seq_no := 0; sud_proof_state := {| sps_new_next_msg_idx := 0; sps_inner_state_root := 21 |};
                        sud_extra_data := [5; 6]; sud_new_predicate := Some (9 : Z) |};
  sod_messages := [];
  sod_ledger_refs := {| slr_l1_block_ref_claims := Some [{| claim_idx := 3; claim_entry_hash := MMR_SENTINEL_DUMMY_LEAF |}] |} |}.

Definition demo_sau : SauTxPayload := {| sau_target := 1000; sau_operation_data := demo_operation |}.

(** The claims the update makes, and proofs for them. *)
Definition demo_account : OLAccountState := genesis_account
  {| gsd_predicate := (7 : Z); gsd_inner_state := 11; gsd_balance := 5000 |} 128.
Definition demo_account' : OLAccountState := genesis_account
  {| gsd_predicate := (8 : Z); gsd_inner_state := 12; gsd_balance := 300 |} 129.
Definition demo_index : TxProofIndexer :=
  snd (verify_snark_acct_update_proofs 1000 demo_account demo_operation demo_effects TxProofIndexer_new_fresh).
Definition demo_proofs : TxProofs := {|
  txp_predicate_satisfiers := Some (map (fun c => [7; toy_hash c]) (ix_predicate_checks demo_index));
  txp_accumulator_proofs := Some (map (fun _ => tt) (ix_accumulator_checks demo_index)) |}.

Definition demo_update : OLTransaction := {|
  tx_data := {| txd_payload := SnarkAccountUpdate demo_sau; txd_constraints := TxConstraints_default;
                txd_effects := demo_effects |};
  tx_proofs := demo_proofs |}.
Definition demo_gam : OLTransaction :=
  {| tx_data := OLTransactionData_new_gam 2000 [1; 2; 3]; tx_proofs := TxProofs_new_empty |}.
Definition demo_txs : list OLTransaction := [demo_update; demo_gam].

(** ** The blocks *)

Definition demo_ctx1 : BlockContext := {|
  bc_block_info := {| bi_timestamp := 2000; bi_slot := 1; bi_epoch := 1 |};
  bc_parent_header := Some demo_parent |}.
Definition demo_components1 : BlockComponents :=
  {| bcs_tx_segment := demo_txs; bcs_manifest_container := None; bcs_is_terminal := false |}.

Definition demo_built1 := construct_block demo_ctx1 demo_components1 demo_bridge demo_ledger.
Definition demo_out1 : ConstructBlockOutput :=
  match fst demo_built1 with
  | Ok out => out
  | _ => {| cbo_completed_block := {| cb_header := demo_no_header; cb_body := OLBlockBody_new_common [] |};
            cbo_outputs := {| beo_state_root := 0; beo_logs := [] |} |}
  end.
Definition demo_ledger1 : LState := snd demo_built1.
Definition demo_header1 : OLBlockHeader := cb_header (cbo_completed_block demo_out1).
Definition demo_body1 : OLBlockBody := cb_body (cbo_completed_block demo_out1).
Definition demo_logs1 : list OLLog := beo_logs (cbo_outputs demo_out1).
Definition demo_block1 : OLBlock := {| blk_header := demo_header1; blk_signature := Some 0; blk_body := demo_body1 |}.

Definition demo_deposit : DepositLog := {| dl_destination := [0; 128; 1; 2; 3]; dl_amount := 700 |}.
Definition demo_manifests : list AsmManifest := [
  {| mf_height := 10; mf_blkid := 100; mf_wtxids_root := 1; mf_logs := [ToyDeposit demo_deposit] |};
  {| mf_height := 11; mf_blkid := 101; mf_wtxids_root := 2;
     mf_logs := [ToyTipUpdate {| ctu_epoch := 0; ctu_l2_commitment := {| obc_slot := 0; obc_blkid := 5 |} |};
                 ToyKeyUpdate 129 33] |}].

Definition demo_ctx2 : BlockContext := {|
  bc_block_info := {| bi_timestamp := 3000; bi_slot := 2; bi_epoch := 1 |};
  bc_parent_header := Some demo_header1 |}.
Definition demo_components2 : BlockComponents :=
  {| bcs_tx_segment := []; bcs_manifest_container := Some demo_manifests; bcs_is_terminal := true |}.
Definition demo_built2 := construct_block demo_ctx2 demo_components2 demo_bridge demo_ledger1.
Definition demo_out2 : ConstructBlockOutput :=
  match fst demo_built2 with Ok out => out | _ => demo_out1 end.
Definition demo_ledger2 : LState := snd demo_built2.
Definition demo_header2 : OLBlockHeader := cb_header (cbo_completed_block demo_out2).
Definition demo_body2 : OLBlockBody := cb_body (cbo_completed_block demo_out2).
Definition demo_block2 : OLBlock := {| blk_header := demo_header2; blk_signature := Some 0; blk_body := demo_body2 |}.

(** ** Facts *)

(** The in-memory state after genesis refines its abstraction. *)
Lemma demo_mem_new : MemoryStateBaseLayer_new (E := unit) demo_state = Ok demo_mem.
Proof. vm_compute. reflexivity. Qed.

Lemma demo_table : tbl_accounts (ol_ledger demo_state) =
  [{| ent_id := 1000; ent_state := demo_account |}; {| ent_id := 2000; ent_state := demo_account' |}].
Proof. vm_compute. reflexivity. Qed.

Lemma demo_table_wf : tbl_wf (ol_ledger demo_state).
Proof. unfold tbl_wf, keys_sorted, tbl_iter_account_states. rewrite demo_table. repeat constructor. Qed.

Lemma demo_accounts id acct :
  tbl_map (ol_ledger demo_state) !! id = Some acct -> acct = demo_account \/ acct = demo_account'.
Proof.
  unfold tbl_map, tbl_iter_account_states. rewrite demo_table. intros Hl%elem_of_list_to_map_2.
  apply list_elem_of_In in Hl. destruct Hl as [[= _ <-]|[[= _ <-]|[]]]; auto.
Qed.

Lemma demo_next_serial : gs_next_avail_serial (ol_global demo_state) = 130.
Proof. vm_compute. reflexivity. Qed.

Lemma demo_refines : mem_refines demo_mem demo_ledger.
Proof.
  destruct (MemoryStateBaseLayer_new_refines (E := unit) demo_state) as (m & Hm & _ & Hr).
  - apply demo_table_wf.
  - rewrite demo_table. apply NoDup_ListNoDup. repeat constructor; simpl; intuition lia.
  - intros id acct Hl. rewrite demo_next_serial.
    destruct (demo_accounts id acct Hl) as [->| ->]; simpl; lia.
  - rewrite demo_next_serial. unfold in_u32, U32_MAX. lia.
  - rewrite demo_table. vm_compute. discriminate.
  - vm_compute. discriminate.
  - assert (m = demo_mem) as -> by (rewrite demo_mem_new in Hm; congruence). exact Hr.
Qed.

Lemma demo_ledger_wf : ls_wf demo_ledger.
Proof. apply (mr_wf _ _ demo_refines). Qed.

(** * Witnesses

    Every theorem with hypotheses, applied to the scenario over the concrete
    instance: the hypotheses hold there, and the transition function computes. *)

(** The first block verifies with the two logs its update emits. *)
Lemma demo_verifies1 :
  verify_block demo_header1 (Some demo_parent) demo_body1 demo_bridge demo_ledger = (Ok demo_logs1, demo_ledger1).
Proof. vm_compute. reflexivity. Qed.

Lemma demo_verifies2 :
  verify_block demo_header2 (Some demo_header1) demo_body2 demo_bridge demo_ledger1 = (Ok [], demo_ledger2).
Proof. vm_compute. reflexivity. Qed.

Lemma demo_batch_verifies :
  execute_block_batch [demo_block1; demo_block2] demo_parent demo_bridge demo_ledger
    = (Ok demo_logs1, demo_ledger2).
Proof. vm_compute. reflexivity. Qed.

Lemma demo_amounts_ok : amounts_ok demo_ledger.
Proof.
  split.
  - vm_compute. split; discriminate.
  - intros id acct Hl. assert (Hl' : tbl_map (ol_ledger demo_state) !! id = Some acct) by exact Hl.
    destruct (demo_accounts id acct Hl') as [->| ->]; vm_compute; split; discriminate.
Qed.

Lemma demo_txs_bounded : Forall tx_bounded demo_txs.
Proof.
  unfold demo_txs, tx_bounded, effects_bounded, operation_bounded, in_u64, U64_MAX.
  repeat constructor; vm_compute; discriminate.
Qed.

Lemma verify_block_tracked_commit_witness :
  let '(r, w') := verify_block demo_header1 (Some demo_parent) demo_body1 demo_bridge
                    (WriteTrackingState_new_empty demo_mem) in
  r = Ok demo_logs1 /\
  fst (verify_block demo_header1 (Some demo_parent) demo_body1 demo_bridge demo_mem) = r /\
  apply_batch (wt_batch w') demo_mem =
    (Ok tt, snd (verify_block demo_header1 (Some demo_parent) demo_body1 demo_bridge demo_mem)).
Proof.
  pose proof (verify_block_tracked_commit demo_mem demo_ledger demo_header1 (Some demo_parent) demo_body1
    demo_bridge demo_refines) as H.
  assert (Hr : fst (verify_block demo_header1 (Some demo_parent) demo_body1 demo_bridge
    (WriteTrackingState_new_empty demo_mem)) = Ok demo_logs1) by (vm_compute; reflexivity).
  destruct (verify_block _ _ _ _ (WriteTrackingState_new_empty demo_mem)) as [r w'].
  simpl in Hr. subst r. destruct H as [H1 H2]. split; [reflexivity|]. split; [exact H1|].
  apply H2. discriminate.
Defined.

Lemma construct_block_verifies_witness :
  verify_block demo_header1 (Some demo_parent) demo_body1 demo_bridge demo_ledger = (Ok demo_logs1, demo_ledger1).
Proof.
  apply (construct_block_verifies demo_ctx1 demo_components1 demo_bridge demo_ledger demo_out1 demo_ledger1).
  - split; [discriminate|]. vm_compute. repeat split; discriminate.
  - vm_compute. reflexivity.
Defined.

Definition demo_tx_ctx : TxExecContext :=
  {| tec_basic_context := with_bridge_params (BasicExecContext_new (bc_block_info demo_ctx1)) demo_bridge;
     tec_parent_header := Some demo_parent |}.
Definition demo_x : XState LState := {| xs_state := demo_ledger; xs_out := [] |}.
Definition demo_x' : XState LState := snd (process_update_tx demo_sau demo_effects demo_proofs demo_tx_ctx demo_x).

Lemma process_update_tx_effect_witness :
  exists acct sa sa' log,
    ls_accts demo_ledger !! 1000 = Some acct /\ acct_state acct = TySnark sa /\
    update_accepted demo_sau sa /\ updated_snark sa (sod_update_data demo_operation) sa' /\
    xs_state demo_x' = ls_set_accts demo_ledger
      (<[1000 := acct_with_state acct (TySnark sa')]> (ls_accts demo_ledger)) /\
    xs_out demo_x' = [] ++ [log] /\ log_account_serial log = acct_serial acct.
Proof.
  apply (process_update_tx_effect demo_sau demo_effects demo_proofs demo_tx_ctx demo_x demo_x').
  vm_compute. reflexivity.
Defined.

Lemma verify_block_preserves_ledger_witness :
  ls_wf demo_ledger1 /\ ledger_step demo_ledger demo_ledger1.
Proof.
  pose proof (verify_block_preserves_ledger demo_header1 (Some demo_parent) demo_body1 demo_bridge demo_ledger
    demo_ledger_wf) as H.
  cbv zeta in H. rewrite demo_verifies1 in H. cbn [snd] in H. exact H.
Defined.

Lemma execute_block_batch_no_replay_witness :
  keys_between demo_ledger demo_ledger2 (concat (map block_keys [demo_block1; demo_block2])).
Proof.
  apply (execute_block_batch_no_replay [demo_block1; demo_block2] demo_parent demo_bridge demo_ledger
    demo_ledger2 demo_logs1 demo_batch_verifies).
Defined.

Lemma demo_block_txs1 : block_txs demo_body1 = demo_txs.
Proof. vm_compute. reflexivity. Qed.
Lemma demo_block_txs1_bounded : Forall tx_bounded (block_txs demo_body1).
Proof. rewrite demo_block_txs1. exact demo_txs_bounded. Qed.

Lemma demo_withdrawn :
  zsum (map (tx_withdrawn (tec_basic_context (tx_context demo_header1 (Some demo_parent) demo_bridge)))
    (block_txs demo_body1)) = 200.
Proof. vm_compute. reflexivity. Qed.

Lemma verify_block_conserves_value_witness :
  amounts_ok demo_ledger1 /\ total_value demo_ledger1 = total_value demo_ledger - 200.
Proof.
  destruct (verify_block_conserves_value demo_header1 (Some demo_parent) demo_body1 demo_bridge demo_ledger
    demo_ledger1 demo_logs1 demo_amounts_ok demo_block_txs1_bounded demo_verifies1) as [H1 H2].
  split; [exact H1|]. rewrite H2.
  rewrite demo_withdrawn.
  assert (hdr_is_terminal demo_header1 = false) as -> by (vm_compute; reflexivity).
  unfold zsum. simpl. lia.
Defined.

Lemma verify_block_logs_witness :
  exists logss, demo_logs1 = concat logss /\
    Forall2 (tx_logs (tec_basic_context (tx_context demo_header1 (Some demo_parent) demo_bridge))) demo_txs logss.
Proof.
  rewrite <- demo_block_txs1.
  apply (verify_block_logs demo_header1 (Some demo_parent) demo_body1 demo_bridge demo_ledger demo_ledger1
    demo_logs1 demo_amounts_ok demo_block_txs1_bounded demo_verifies1).
Defined.

Lemma verify_block_advances_witness : chain_advance demo_header2 demo_body2 demo_ledger1 demo_ledger2.
Proof.
  apply (verify_block_advances demo_header2 (Some demo_header1) demo_body2 demo_bridge demo_ledger1 demo_ledger2
    [] demo_verifies2).
Defined.

Lemma execute_block_batch_chain_witness :
  chain_linked demo_parent [demo_block1; demo_block2] /\ on_top demo_ledger2 demo_header2 /\
  cur_slot demo_ledger2 = cur_slot demo_ledger + 2 /\ cur_epoch demo_ledger2 = cur_epoch demo_ledger + 1.
Proof.
  assert (num_terminals [demo_block1; demo_block2] = 1) as <- by (vm_compute; reflexivity).
  apply (execute_block_batch_chain [demo_block1; demo_block2] demo_parent demo_bridge demo_ledger demo_ledger2
    demo_logs1).
  - vm_compute. repeat split; discriminate.
  - repeat constructor; vm_compute; discriminate.
  - vm_compute. split; reflexivity.
  - exact demo_batch_verifies.
Defined.

Lemma demo_params_ok : genesis_params_ok demo_params.
Proof.
  split; [reflexivity|discriminate|discriminate|vm_compute; discriminate|vm_compute; discriminate| |
    vm_compute; discriminate].
  intros id a Hl. unfold in_u64, U64_MAX. unfold demo_params in Hl. cbn [olp_accounts] in Hl.
  apply lookup_insert_Some in Hl as [[_ <-]|[_ Hl]]; [simpl; lia|].
  apply lookup_singleton_Some in Hl as [_ <-]. simpl. lia.
Qed.

Lemma build_genesis_artifacts_valid_witness :
  exists g a1, build_genesis_artifacts demo_params = Ok g /\
    on_top a1 (blk_header (ga_ol_block g)) /\ cur_epoch a1 = 1 /\ total_value a1 = 5300.
Proof.
  destruct (build_genesis_artifacts_valid demo_params demo_params_ok)
    as (g & m0 & m1 & a0 & a1 & Hg & _ & _ & _ & _ & _ & Ht & He & Hv).
  exists g, a1. split; [exact Hg|]. split; [exact Ht|]. split; [exact He|]. rewrite Hv. vm_compute. reflexivity.
Defined.


Definition demo_subject : SubjectIdBytes := exist _ [1; 2; 3] eq_refl.

Lemma deposit_descriptor_roundtrip_witness :
  exists bs, DepositDescriptor_encode_to_vec (E := DepositDescriptorError)
      {| dd_dest_acct_serial := 70000; dd_dest_subject := demo_subject |} = Ok bs /\
    DepositDescriptor_decode_from_slice bs
      = Ok {| dd_dest_acct_serial := 70000; dd_dest_subject := demo_subject |}.
Proof. apply (deposit_descriptor_roundtrip 70000 demo_subject); [lia|reflexivity]. Defined.

Lemma deposit_descriptor_decode_bounded_witness :
  0 <= 128 /\ DepositDescriptor_new 128 demo_subject
    = Ok {| dd_dest_acct_serial := 128; dd_dest_subject := demo_subject |}.
Proof.
  apply (deposit_descriptor_decode_bounded [0; 128; 1; 2; 3]
    {| dd_dest_acct_serial := 128; dd_dest_subject := demo_subject |}).
  - repeat constructor; vm_compute; first [reflexivity|discriminate].
  - vm_compute. reflexivity.
Defined.

Lemma bridge_params_policy_witness :
  validate_withdrawal_amount demo_bridge 100 = true /\ validate_withdrawal_amount demo_bridge 1000 = true.
Proof.
  destruct (bridge_params_policy 100 (Some 1000) 80 demo_bridge) as (_ & H1 & H2).
  - unfold in_u64, U64_MAX. lia.
  - reflexivity.
  - split; [exact H1|]. apply H2. reflexivity.
Defined.

(** ** Layers *)

(** The batch tracked while the first block is verified. *)
Definition demo_batch1 : WriteBatch :=
  wt_batch (snd (verify_block demo_header1 (Some demo_parent) demo_body1 demo_bridge
    (WriteTrackingState_new_empty demo_mem))).

Lemma demo_batch_fits : batch_fits demo_ledger demo_batch1.
Proof.
  destruct (verify_block_sim (wt_refines (at_base demo_mem)) demo_header1 (Some demo_parent) demo_body1
    demo_bridge (WriteTrackingState_new_empty demo_mem) demo_ledger) as [Hr Hs].
  { apply (wt_refines_empty (at_base demo_mem)). split; [reflexivity|exact demo_refines]. }
  unfold demo_batch1.
  assert (Hp : fst (verify_block demo_header1 (Some demo_parent) demo_body1 demo_bridge
    (WriteTrackingState_new_empty demo_mem)) <> Panic) by (vm_compute; discriminate).
  destruct (verify_block _ _ _ _ (WriteTrackingState_new_empty demo_mem)) as [r w'].
  destruct Hs as [ab [Hb Hrb] Hfit Ha]; [exact Hp|]. cbn [snd] in *. rewrite Hb in Hrb.
  destruct Hrb as [_ Hab _]. destruct demo_refines as [_ Hd _]. rewrite Hd, <- Hab. exact Hfit.
Qed.

Lemma demo_batches_fit : batches_fit demo_ledger [demo_batch1].
Proof. split; [exact demo_batch_fits|exact I]. Qed.

Lemma batch_diff_reads_witness :
  exists m', apply_batch demo_batch1 demo_mem = (Ok tt, m') /\ same_reads (BatchDiffState_new demo_mem [demo_batch1]) m'.
Proof.
  destruct (batch_diff_reads demo_mem demo_ledger [demo_batch1] demo_refines demo_batches_fit) as (m' & Hm & Hr).
  exists m'. split; [|exact Hr]. cbn [miter] in Hm. unfold mbind in Hm.
  destruct (apply_batch demo_batch1 demo_mem) as [[[]| |] m1]; unfold mret in Hm; congruence.
Defined.

Lemma verify_block_over_diff_witness :
  fst (verify_block demo_header2 (Some demo_header1) demo_body2 demo_bridge
    (WriteTrackingState_new_empty (BatchDiffState_new demo_mem [demo_batch1]))) = Ok [] /\
  exists m', miter apply_batch [demo_batch1] demo_mem = (Ok tt, m') /\
    fst (verify_block demo_header2 (Some demo_header1) demo_body2 demo_bridge m') = Ok [].
Proof.
  destruct (verify_block_over_diff demo_mem demo_ledger [demo_batch1] demo_header2 (Some demo_header1) demo_body2
    demo_bridge demo_refines demo_batches_fit) as (m' & Hm & H).
  assert (Hr : fst (verify_block demo_header2 (Some demo_header1) demo_body2 demo_bridge
    (WriteTrackingState_new_empty (BatchDiffState_new demo_mem [demo_batch1]))) = Ok [])
    by (vm_compute; reflexivity).
  split; [exact Hr|]. exists m'. split; [exact Hm|].
  destruct (verify_block _ _ _ _ (WriteTrackingState_new_empty _)) as [r w']. cbn [fst] in Hr. subst r. apply H.
Defined.

Lemma apply_write_batch_commits_witness :
  exists m', apply_batch demo_batch1 demo_mem = (Ok tt, m') /\ mem_refines m' (ls_apply demo_ledger demo_batch1).
Proof.
  destruct (apply_write_batch_commits demo_mem demo_ledger demo_batch1 demo_refines demo_batch_fits)
    as (m' & H1 & H2 & _). exists m'. split; [exact H1|exact H2].
Defined.

(** A batch that writes an account the ledger does not have. *)
Definition demo_bad_batch : WriteBatch :=
  wb_set_ledger WriteBatch_default
    {| lwb_account_writes := {[3000 := demo_account]}; lwb_serial_to_id := SerialMap_new |}.

Lemma apply_write_batch_atomic_witness :
  snd (apply_batch demo_bad_batch demo_mem) = demo_mem /\
  exists e, fst (apply_batch demo_bad_batch demo_mem) = Err e.
Proof.
  assert (Hr : exists e, fst (apply_batch demo_bad_batch demo_mem) = Err e)
    by (eexists; vm_compute; reflexivity).
  split; [|exact Hr]. destruct Hr as [e He].
  destruct (apply_batch demo_bad_batch demo_mem) as [r m'] eqn:Hrun. cbn [fst snd] in *. subst r.
  exact (apply_write_batch_atomic demo_bad_batch demo_mem m' e Hrun).
Defined.

Lemma demo_has_room : has_room demo_ledger.
Proof. split; vm_compute; reflexivity. Qed.

Definition demo_new_account : NewAccountData := NewAccountData_new_snark 40 (7 : Z) 13.

Lemma create_new_account_agrees_witness :
  exists m' w', create_new_account 3000 demo_new_account demo_mem = (Ok 130, m') /\
    create_new_account 3000 demo_new_account (WriteTrackingState_new_empty demo_mem) = (Ok 130, w').
Proof.
  destruct (create_new_account_agrees demo_mem (WriteTrackingState_new_empty demo_mem) demo_ledger 3000
    demo_new_account demo_refines) as (r & a' & m' & w' & H1 & H2 & _ & H3 & _).
  - apply (wt_refines_empty mem_refines). exact demo_refines.
  - exact demo_has_room.
  - assert (r = Ok 130) as -> by (assert (fst (create_new_account 3000 demo_new_account demo_ledger) = Ok 130)
      by (vm_compute; reflexivity); rewrite H1 in *; assumption).
    exists m', w'. split; [exact H2|exact H3].
Defined.

Lemma accounts_table_refines_map_witness :
  tbl_get_account_state (ol_ledger demo_state) 1000 = tbl_map (ol_ledger demo_state) !! 1000.
Proof. apply (accounts_table_refines_map (ol_ledger demo_state) 1000 demo_account demo_table_wf). Defined.

Definition demo_serials : SerialMap := {| smap_first := 128; smap_ids := [1000; 2000] |}.

Lemma serial_map_insert_lookup_witness :
  exists m', insert_next (E := StateError) 130 3000 demo_serials = (Ok true, m') /\ SerialMap_get m' 130 = Some 3000.
Proof.
  destruct (serial_map_insert_lookup demo_serials 130 3000) as (b & m' & Hi & _ & Hb & H).
  - split; [simpl; lia|]. intros _. vm_compute. discriminate.
  - unfold U32_MAX. lia.
  - assert (b = true) as -> by (apply Hb; right; reflexivity). exists m'. split; [exact Hi|]. apply H.
Defined.

(** ** Totals, panics, replay *)

Lemma total_ledger_balance_not_maintained_witness :
  total_ledger_balance demo_ledger = total_value demo_ledger /\ total_ledger_balance demo_ledger1 <> total_value demo_ledger1.
Proof.
  assert (Heq : total_ledger_balance demo_ledger = total_value demo_ledger) by (vm_compute; reflexivity).
  destruct (total_ledger_balance_not_maintained demo_header1 (Some demo_parent) demo_body1 demo_bridge demo_ledger
    demo_ledger1 demo_logs1 demo_amounts_ok demo_block_txs1_bounded demo_verifies1 Heq) as [_ [H _]].
  split; [exact Heq|]. intros Hc. specialize (H Hc). rewrite demo_withdrawn in H.
  assert (hdr_is_terminal demo_header1 = false) as Ht by (vm_compute; reflexivity). rewrite Ht in H. discriminate H.
Defined.

Lemma demo_block_capacity : block_capacity demo_ledger demo_body1.
Proof.
  split.
  - exact demo_amounts_ok.
  - exact demo_block_txs1_bounded.
  - vm_compute. discriminate.
  - intros id acct sa Hl Hs. assert (Hl' : tbl_map (ol_ledger demo_state) !! id = Some acct) by exact Hl.
    destruct (demo_accounts id acct Hl') as [->| ->]; vm_compute in Hs; injection Hs as <-; vm_compute; discriminate.
  - vm_compute. discriminate.
Qed.

Lemma verify_block_never_panics_witness :
  fst (verify_block demo_header2 (Some demo_parent) demo_body1 demo_bridge demo_ledger) <> Panic.
Proof.
  apply (verify_block_never_panics demo_header2 (Some demo_parent) demo_body1 demo_bridge demo_ledger).
  exact demo_block_capacity.
Defined.

(** The first epoch as one diff: the sections of the state the diff covers. *)
Definition demo_predrain : LState :=
  snd (execute_block_batch_predrain [demo_block1; demo_block2] demo_parent demo_bridge demo_ledger).
Definition demo_apply_diff (d : LState) : M unit LState unit := mmodify (fun s => with_da s d).
Definition demo_epoch_info : EpochInfo :=
  {| ei_terminal_info := BlockInfo_from_header demo_header2;
     ei_prev_terminal := {| obc_slot := 0; obc_blkid := hdr_parent_blkid demo_header1 |} |}.

Lemma verify_epoch_with_diff_agrees_witness :
  verify_epoch_with_diff demo_apply_diff demo_epoch_info demo_predrain demo_manifests
    {| eee_epoch_post_state_root := hdr_state_root demo_header2 |} demo_ledger = (Ok tt, demo_ledger2).
Proof.
  apply (verify_epoch_with_diff_agrees demo_apply_diff demo_predrain demo_epoch_info [demo_block1] demo_block2
    demo_parent demo_bridge demo_ledger demo_ledger2 demo_logs1 demo_ledger_wf).
  - vm_compute. discriminate.
  - split; [repeat constructor; vm_compute; reflexivity|vm_compute; reflexivity].
  - exact demo_batch_verifies.
  - reflexivity.
  - vm_compute. reflexivity.
  - intros s1 Hs. unfold demo_apply_diff, mmodify, demo_predrain.
    assert (snd (execute_block_batch_predrain [demo_block1; demo_block2] demo_parent demo_bridge demo_ledger) = s1) as ->
      by (change ([demo_block1] ++ [demo_block2]) with [demo_block1; demo_block2] in Hs; rewrite Hs; reflexivity).
    reflexivity.
Defined.
