(* ===== verification/DaWitnesses.v ===== *)
(** * Witnesses for data availability and checkpoints

    The theorems about the DA codecs and queues, the indexer and the checkpoint
    worker, applied to the scenario over the concrete instance. *)

From Stdlib Require Import String.
From S2P Require Import Prelude SortedMap Identifiers AcctTypes ChainTypes Externals.
From S2P Require Import CodecTypes Varint64 DaFramework DaQueue OLDaTypes OLDaSpec LedgerTypes Bridge.
From S2P Require Import OLAccount OLState StateAccessor OLDaApply LedgerSpec MemoryLayer WriteTracking IndexerLayer DaLayer.
From S2P Require Import StfContext StfTx StfManifests StfBlock IndexerSpec DaSim StfAgreement DaReplay StfValue.
From S2P Require Import StfProgress Genesis CheckpointWorker CheckpointSpec CheckpointService.
From S2P Require Import StfManifestSpec Concrete ConcreteDa Witnesses.

(** ** Varints *)

Lemma varint_roundtrip_witness :
  (exists bs, UnsignedVarInt_encode U64_MAX = Ok bs /\ 1 <= zlen bs <= 10 /\
     UnsignedVarInt_decode (bs ++ [9]) = (Ok U64_MAX, [9])) /\
  (exists bs, SignedVarInt_encode (SignedVarInt_new false 300) = Ok bs /\ 1 <= zlen bs <= 10 /\
     SignedVarInt_decode (bs ++ [9]) = (Ok (SignedVarInt_new false 300), [9])).
Proof.
  apply (varint_roundtrip U64_MAX (SignedVarInt_new false 300) [9]).
  - vm_compute. split; discriminate.
  - split; vm_compute; [split; discriminate|discriminate].
Defined.

(** The law on the decoder's bytes holds; a tail whose last group lies beyond bit 64
    decodes if the group is zero and not otherwise. *)
Lemma varint_decode_spec_witness :
  UnsignedVarInt_decode (repeat 255 9 ++ [129; 0; 5]) = (Ok U64_MAX, [5]) /\
  (forall v rest, UnsignedVarInt_decode (repeat 255 9 ++ [129; 1; 5]) <> (Ok v, rest)).
Proof.
  destruct varint_decode_spec as (_ & Hu & _). split.
  - apply Hu. exists 255, (repeat 255 8 ++ [129; 0]). split; [reflexivity|]. split; [reflexivity|].
    split; [|vm_compute; reflexivity]. repeat split; vm_compute; congruence.
  - intros v rest (first & l & [= <- Hl] & Ht & Hf & _)%Hu. vm_compute in Ht.
    do 10 (destruct l as [|? l]; [done|]; injection Hl as <- Hl; vm_compute in Ht; try (destruct Ht; fail)).
    subst l. vm_compute in Hf. destruct_and! Hf. naive_solver.
Defined.

Lemma unsigned_varint_drops_bits_witness :
  UnsignedVarInt_encode U64_MAX = Ok (repeat 255 9 ++ [1]) /\
  UnsignedVarInt_decode (repeat 255 9 ++ [2 * 63 + 1] ++ []) = (Ok U64_MAX, []).
Proof. apply (unsigned_varint_drops_bits 63 []). lia. Defined.

(** ** Queues *)

Definition demo_ops : list (QueueOp toy_queue) :=
  [QAppend toy_queue 10; QIncr toy_queue 1; QAppend toy_queue 11].

Lemma queue_write_matches_view_witness :
  let b := fold_left (run_op toy_queue) demo_ops (DaQueueBuilder_from_source (Q := toy_queue) (3%nat, [1; 2])) in
  exists w t', DaQueueBuilder_into_write b = Ok w /\
    DaQueue_apply (E := unit) w (3%nat, [1; 2]) = (Ok tt, t') /\ cur_front toy_queue t' = 4 /\ cur_next toy_queue t' = 7.
Proof.
  destruct (queue_write_matches_view toy_queue (3%nat, [1; 2]) demo_ops) as (w & t' & H1 & H2 & H3 & H4 & _).
  - repeat constructor; vm_compute; discriminate.
  - vm_compute. discriminate.
  - vm_compute. discriminate.
  - exists w, t'. split; [exact H1|]. split; [exact H2|]. split; [exact H3|exact H4].
Defined.

Lemma queue_write_loses_entries_witness :
  let b := fold_left (run_op toy_queue) [QAppend toy_queue 10; QAppend toy_queue 11; QIncr toy_queue 1]
             (DaQueueBuilder_from_source (Q := toy_queue) (3%nat, [])) in
  view_get (Q := toy_queue) (3%nat, []) b 4 = Some 11 /\
  exists w t', DaQueueBuilder_into_write b = Ok w /\
    DaQueue_apply (E := unit) w (3%nat, []) = (Ok tt, t') /\ forall i, dqt_get toy_queue t' i = None.
Proof.
  destruct (queue_write_loses_entries toy_queue (3%nat, []) 10 11) as (_ & _ & H3 & w & t' & H4 & H5 & _ & _ & H6).
  - reflexivity.
  - vm_compute. discriminate.
  - split; [exact H3|]. exists w, t'. split; [exact H4|]. split; [exact H5|exact H6].
Defined.

(** ** Payloads *)

Definition demo_payload : OLDaPayloadV1 := {| pl_state_diff := {|
  sd_global := {| gsd_cur_slot := Changed (S := CtrU64ByU16) 2;
                  gsd_limbo_funds_sats := Changed (S := CtrU64BySignedVarInt) (SignedVarInt_new false 40) |};
  sd_ledger := {|
    ld_new_accounts := [{| nae_account_id := 5000; nae_init := {| ai_balance := 17; ai_type_state :=
      InitSnark {| sai_initial_state_root := 3; sai_update_vk := [44] |} |} |}];
    ld_account_diffs := [{| ade_account_serial := 128; ade_diff := {|
      ad_balance := Changed (S := CtrU64BySignedVarInt) (SignedVarInt_new true 1000);
      ad_snark := {| sad_update_vk := DaRegister_new_set [9];
                     sad_proof_state := {| dpd_inner_state := DaRegister_new_set 21; dpd_next_inbox_msg_idx := Unchanged |};
                     sad_seq_no := Changed (S := CtrU64ByU16) 1;
                     sad_inbox := Build_DaLinacc InboxBuffer [{| dme_source := 1000; dme_incl_epoch := 1;
                       dme_payload := {| mp_value := 10; mp_data := [77] |} |}] |} |} |}] |} |} |}.

Lemma da_payload_roundtrip_witness :
  exists bs, encode payload_codec demo_payload = Ok bs /\ decode_ol_da_payload_bytes bs = Ok demo_payload.
Proof.
  apply (da_payload_roundtrip demo_payload).
  repeat split; repeat constructor; try (vm_compute; first [reflexivity|discriminate]).
Defined.

(** ** The indexer and the machine types *)

Lemma verify_block_indexed_witness :
  let '(r, x') := verify_block demo_header1 (Some demo_parent) demo_body1 demo_bridge
                    (IndexerState_new (WriteTrackingState_new_empty demo_mem)) in
  r = Ok demo_logs1 /\ exists a', index_tracks demo_ledger (ixs_writes x') a'.
Proof.
  pose proof (verify_block_indexed demo_mem demo_ledger demo_header1 (Some demo_parent) demo_body1 demo_bridge demo_refines) as H.
  assert (Hr : fst (verify_block demo_header1 (Some demo_parent) demo_body1 demo_bridge
    (IndexerState_new (WriteTrackingState_new_empty demo_mem))) = Ok demo_logs1) by (vm_compute; reflexivity).
  destruct (verify_block _ _ _ _ (IndexerState_new _)) as [r x'].
  destruct (verify_block demo_header1 (Some demo_parent) demo_body1 demo_bridge demo_mem) as [r2 m2].
  simpl in Hr. subst r. destruct H as [_ H]. split; [reflexivity|]. destruct H as [_ (a' & _ & Ht)]; [discriminate|].
  exists a'. exact Ht.
Defined.

Lemma demo_snarks_typed : snarks_typed demo_ledger.
Proof.
  intros id acct sa Hl Hs. assert (Hl' : tbl_map (ol_ledger demo_state) !! id = Some acct) by exact Hl.
  destruct (demo_accounts id acct Hl') as [->| ->]; simpl in Hs; injection Hs as <-; split; vm_compute; split; discriminate.
Qed.

Lemma demo_da_typed : da_typed demo_ledger.
Proof. split; [vm_compute; split; discriminate|exact demo_amounts_ok|exact demo_snarks_typed]. Qed.

Lemma demo_header1_bounded : header_bounded demo_header1.
Proof. vm_compute. repeat split; discriminate. Qed.

Lemma demo_header2_bounded : header_bounded demo_header2.
Proof. vm_compute. repeat split; discriminate. Qed.

Lemma verify_block_typed_witness : ls_typed demo_ledger1.
Proof.
  apply (verify_block_typed demo_header1 (Some demo_parent) demo_body1 demo_bridge demo_ledger demo_ledger1 demo_logs1).
  - split; [exact demo_ledger_wf|exact demo_da_typed|vm_compute; split; discriminate..].
  - exact demo_header1_bounded.
  - exact demo_block_txs1_bounded.
  - exact demo_verifies1.
Defined.

(** ** The checkpoint of the epoch *)

Definition demo_genesis : OLBlock :=
  {| blk_header := demo_parent; blk_signature := Some 0; blk_body := OLBlockBody_new_common [] |}.
Definition demo_prev_terminal : OLBlockCommitment := {| obc_slot := 0; obc_blkid := compute_blkid demo_parent |}.
Definition demo_terminal : OLBlockCommitment := {| obc_slot := 2; obc_blkid := compute_blkid demo_header2 |}.
Definition demo_summary : EpochSummary := {|
  esm_epoch := 1; esm_terminal := demo_terminal; esm_prev_terminal := demo_prev_terminal;
  esm_new_l1 := {| l1c_height := 11; l1c_blkid := 101 |}; esm_final_state := hdr_state_root demo_header2 |}.
Definition demo_commitment : EpochCommitment := get_epoch_commitment demo_summary.

Definition demo_store : ToyStore := {|
  ts_summarized := Some 1; ts_commitments := [(1, demo_commitment)]; ts_summaries := [(demo_commitment, demo_summary)];
  ts_payloads := [];
  ts_blocks := [(compute_blkid demo_parent, demo_genesis); (compute_blkid demo_header1, demo_block1);
                (compute_blkid demo_header2, demo_block2)];
  ts_states := [(compute_blkid demo_parent, demo_state)] |}.

#[local] Instance demo_context : CheckpointWorkerContext ToyStore := toy_context_with (toy_fetch demo_bridge).
#[local] Instance demo_storage : StorageLaws := toy_storage_laws demo_bridge.

Definition demo_replay := replay_epoch_and_compute_da 5 demo_store demo_summary demo_bridge.
Definition demo_blob : bytes := match demo_replay with Some (Ok (blob, _, _)) => blob | _ => [] end.

Lemma demo_replayed :
  replay_epoch_and_compute_da 5 demo_store demo_summary demo_bridge = Some (Ok (demo_blob, demo_logs1, demo_header2)).
Proof. vm_compute. reflexivity. Qed.

Lemma demo_mem_new' : MemoryStateBaseLayer_new (E := WorkerError) demo_state = Ok demo_mem.
Proof. vm_compute. reflexivity. Qed.

Definition demo_mem2 : MemoryStateBaseLayer :=
  snd (execute_block_batch [demo_block1; demo_block2] demo_parent demo_bridge demo_mem).

Lemma demo_batch_mem :
  execute_block_batch ([demo_block1] ++ [demo_block2]) demo_parent demo_bridge demo_mem = (Ok demo_logs1, demo_mem2).
Proof. vm_compute. reflexivity. Qed.

Lemma demo_keys_ok : keys_ok demo_ledger.
Proof.
  intros id acct Hl. assert (Hl' : tbl_map (ol_ledger demo_state) !! id = Some acct) by exact Hl.
  destruct (demo_accounts id acct Hl') as [->| ->]; vm_compute; eexists; reflexivity.
Qed.

Lemma demo_epoch_start : epoch_start demo_ledger demo_parent.
Proof.
  split; [exact demo_da_typed|exact demo_keys_ok|vm_compute; discriminate|vm_compute; repeat split; discriminate|
          vm_compute; reflexivity|split; vm_compute; reflexivity|vm_compute; reflexivity].
Qed.

Lemma demo_block_txs2 : block_txs demo_body2 = [].
Proof. vm_compute. reflexivity. Qed.

Lemma demo_blocks_typed : Forall block_typed ([demo_block1] ++ [demo_block2]).
Proof.
  cbn [app]. unfold block_typed, demo_block1, demo_block2.
  constructor; [|constructor; [|constructor]]; cbn [blk_header blk_body].
  - split; [exact demo_header1_bounded|exact demo_block_txs1_bounded].
  - split; [exact demo_header2_bounded|]. rewrite demo_block_txs2. constructor.
Qed.

Lemma demo_blocks_canonical : Forall block_canonical ([demo_block1] ++ [demo_block2]).
Proof. repeat constructor; vm_compute; first [reflexivity|eexists; reflexivity]. Qed.

Lemma demo_epoch_blocks : epoch_blocks [demo_block1] demo_block2.
Proof. split; [repeat constructor; vm_compute; reflexivity|vm_compute; reflexivity]. Qed.

Lemma demo_collected : collect_epoch_blocks 5 demo_summary demo_store = Some (Ok ([demo_block1] ++ [demo_block2])).
Proof. vm_compute. reflexivity. Qed.

Lemma demo_parent_stored : get_block_header demo_store (esm_prev_terminal demo_summary) = Ok (Some demo_parent).
Proof. vm_compute. reflexivity. Qed.

Lemma demo_state_stored : get_ol_state demo_store (esm_prev_terminal demo_summary) = Ok (Some demo_state).
Proof. vm_compute. reflexivity. Qed.

Lemma checkpoint_provable_witness :
  process_ol_stf_core demo_state ([demo_block1] ++ [demo_block2]) demo_parent demo_blob demo_bridge
    = Ok (E := WorkerError) (epoch_claim ([demo_block1] ++ [demo_block2]) demo_parent demo_header2 demo_blob demo_logs1).
Proof.
  exact (proj2 (proj2 (checkpoint_provable 5 demo_store demo_summary demo_bridge [demo_block1] demo_block2 demo_parent demo_state
    demo_mem demo_mem2 demo_ledger demo_logs1 demo_blob demo_logs1 demo_header2
    demo_collected demo_parent_stored demo_state_stored demo_mem_new' demo_refines demo_epoch_start demo_epoch_blocks
    demo_blocks_typed demo_blocks_canonical demo_batch_mem demo_replayed))).
Defined.

Definition demo_claim : CheckpointClaim :=
  match process_ol_stf_core (E := WorkerError) demo_state [demo_block1; demo_block2] demo_parent demo_blob demo_bridge with
  | Ok claim => claim
  | _ => []
  end.

Lemma demo_provable : Forall provable_block [demo_block1; demo_block2].
Proof.
  unfold provable_block, demo_block1, demo_block2. constructor; [|constructor; [|constructor]]; cbn [blk_header blk_body].
  - split; [exact demo_header1_bounded|split; [vm_compute; discriminate|vm_compute; eexists; reflexivity]].
  - split; [exact demo_header2_bounded|split; [vm_compute; discriminate|vm_compute; eexists; reflexivity]].
Qed.

Lemma demo_claimed :
  process_ol_stf_core (E := WorkerError) demo_state [demo_block1; demo_block2] demo_parent demo_blob demo_bridge = Ok demo_claim.
Proof. vm_compute. reflexivity. Qed.

Lemma proof_program_sound_witness :
  exists final logs, last [demo_block1; demo_block2] = Some final /\
    demo_claim = epoch_claim [demo_block1; demo_block2] demo_parent (blk_header final) demo_blob logs.
Proof.
  destruct (proof_program_sound demo_state [demo_block1; demo_block2] demo_parent demo_blob demo_bridge demo_claim)
    as (m & final & logs & m' & p & t & _ & _ & _ & H1 & _ & _ & _ & _ & _ & _ & _ & H2).
  - exact (eps_bounded _ _ demo_epoch_start).
  - exact demo_provable.
  - exact demo_claimed.
  - exists final, logs. split; [exact H1|exact H2].
Defined.

(** ** The service *)

Definition demo_service : OLCheckpointServiceState ToyStore := initialize (OLCheckpointServiceState_new demo_store).

Lemma demo_built : build_checkpoint_payload demo_commitment demo_summary demo_store = Ok (
  (1, 11, demo_terminal), (demo_blob, map (fun l => (log_account_serial l, log_payload l)) demo_logs1,
     terminal_complement demo_header2), []).
Proof. vm_compute. reflexivity. Qed.

Lemma demo_ready : ready (ocs_ctx demo_service) 1.
Proof.
  exists demo_commitment, demo_summary. split; [vm_compute; reflexivity..|exists None; vm_compute; reflexivity|].
  eexists. exact demo_built.
Qed.

Lemma process_input_catches_up_witness :
  exists s', process_input (Some demo_commitment) demo_service = (Ok tt, s') /\
    checkpointed (ocs_ctx s') 1 /\ ocs_last_processed_epoch s' = Some 1.
Proof.
  destruct (process_input_catches_up demo_commitment demo_service 1) as (s' & H1 & H2 & H3 & _).
  - vm_compute. reflexivity.
  - vm_compute. reflexivity.
  - intros n Hn. assert (start_epoch demo_service = 1) as Hs by (vm_compute; reflexivity). rewrite Hs in Hn.
    assert (n = 1) as -> by lia. exact demo_ready.
  - exists s'. assert (start_epoch demo_service = 1) as Hs by (vm_compute; reflexivity). rewrite Hs in H2, H3.
    split; [exact H1|]. split; [apply H2; lia|apply H3; lia].
Defined.

(** A summary has been announced for epoch 2, but its commitment is missing. *)
Definition demo_store_ahead : ToyStore := {|
  ts_summarized := Some 2; ts_commitments := ts_commitments demo_store; ts_summaries := ts_summaries demo_store;
  ts_payloads := []; ts_blocks := ts_blocks demo_store; ts_states := ts_states demo_store |}.
Definition demo_service_ahead : OLCheckpointServiceState ToyStore :=
  initialize (OLCheckpointServiceState_new demo_store_ahead).

Lemma demo_built_ahead : exists p, build_checkpoint_payload demo_commitment demo_summary (ocs_ctx demo_service_ahead) = Ok p.
Proof. vm_compute. eexists. reflexivity. Qed.

Lemma demo_ready_ahead : ready (ocs_ctx demo_service_ahead) 1.
Proof.
  exists demo_commitment, demo_summary. split; [vm_compute; reflexivity..|exists None; vm_compute; reflexivity|].
  exact demo_built_ahead.
Qed.

Lemma process_input_waits_witness :
  exists s', process_input (Some demo_commitment) demo_service_ahead = (Ok tt, s') /\
    checkpointed (ocs_ctx s') 1 /\ start_epoch s' = 2.
Proof.
  assert (start_epoch demo_service_ahead = 1) as Hs by (vm_compute; reflexivity).
  destruct (process_input_waits demo_commitment demo_service_ahead 2 2) as (s' & H1 & H2 & H3 & _).
  - vm_compute. reflexivity.
  - vm_compute. reflexivity.
  - rewrite Hs. lia.
  - unfold U32_MAX. lia.
  - intros n Hn. rewrite Hs in Hn. assert (n = 1) as -> by lia.
    exact demo_ready_ahead.
  - left. vm_compute. reflexivity.
  - exists s'. rewrite Hs in H2. split; [exact H1|]. split; [apply H2; lia|exact H3].
Defined.
