(* ===== verification/FcmWitnesses.v ===== *)
(** * A concrete node for the fork choice manager, and witnesses

    A storage made of lists whose execution runs the state transition function
    on the state of the parent, with proofs that it satisfies the laws the
    manager relies on; the theorems about tracker, tip updates and fork choice,
    applied to it. *)

From S2P Require Import Prelude Identifiers ChainTypes Externals Bridge OLState StateAccessor MemoryLayer.
From S2P Require Import StfContext StfBlock Genesis Tracker TrackerFinal TipUpdate ForkChoice ForkChoiceSpec.
From S2P Require Import ForkChoiceInit Concrete ConcreteDa Witnesses DaWitnesses.

#[export] Instance toy_fcm_ext : FcmExt := {
  predicate_id k := k;
  predicate_type_u8 t := match t with NeverAccept => 0 | AlwaysAccept => 1 | Bip340Schnorr => 10 | Sp1Groth16 => 20 end;
  predicate_type_try_from n :=
    if n =? 0 then Some NeverAccept else if n =? 1 then Some AlwaysAccept
    else if n =? 10 then Some Bip340Schnorr else if n =? 20 then Some Sp1Groth16 else None;
  condition_as_buf32 k := Some k;
  verify_schnorr_sig sig msg key := sig =? msg + key;
  epoch_null := {| ec_epoch := 0; ec_last_slot := 0; ec_last_blkid := buf32_zero |};
  epoch_is_null e := ec_last_blkid e =? buf32_zero;
}.

(** The canonical index is the list of its suffix replacements, the last first. *)
Record ToyNode := {
  tn_bridge : BridgeParams;
  tn_blocks : list OLBlock;
  tn_states : list (OLBlockCommitment * OLState);
  tn_status : list (OLBlockId * BlockStatus);
  tn_canon : list (Slot * list OLBlockId);
  tn_final : option EpochCommitment;
}.

Fixpoint block_with (id : OLBlockId) (l : list OLBlock) : option OLBlock :=
  match l with
  | [] => None
  | b :: l' => if compute_blkid (blk_header b) =? id then Some b else block_with id l'
  end.

Fixpoint canon_at (l : list (Slot * list OLBlockId)) (slot : Slot) : option OLBlockCommitment :=
  match l with
  | [] => None
  | (start, ids) :: l' =>
      if slot <? start then canon_at l' slot
      else (fun id => {| obc_slot := slot; obc_blkid := id |}) <$> ids !! Z.to_nat (slot - start)
  end.

Definition tn_put_state (b : OLBlockCommitment) (st : OLState) (c : ToyNode) : ToyNode := {|
  tn_bridge := tn_bridge c; tn_blocks := tn_blocks c; tn_states := tn_states c ++ [(b, st)];
  tn_status := tn_status c; tn_canon := tn_canon c; tn_final := tn_final c |}.
Definition tn_put_status (id : OLBlockId) (s : BlockStatus) (c : ToyNode) : ToyNode := {|
  tn_bridge := tn_bridge c; tn_blocks := tn_blocks c; tn_states := tn_states c;
  tn_status := (id, s) :: tn_status c; tn_canon := tn_canon c; tn_final := tn_final c |}.
Definition tn_put_canon (start : Slot) (ids : list OLBlockId) (c : ToyNode) : ToyNode := {|
  tn_bridge := tn_bridge c; tn_blocks := tn_blocks c; tn_states := tn_states c;
  tn_status := tn_status c; tn_canon := (start, ids) :: tn_canon c; tn_final := tn_final c |}.

(** The state after [blk], from that of its parent. *)
Definition toy_execute (c : ToyNode) (blk parent : OLBlock) : option OLState :=
  let header := blk_header blk in
  let parent_block := {| obc_slot := hdr_slot (blk_header parent); obc_blkid := hdr_parent_blkid header |} in
  if negb (hdr_slot header =? hdr_slot (blk_header parent) + 1) then None
  else
    match assoc parent_block (tn_states c) with
    | None => None
    | Some st =>
        match MemoryStateBaseLayer_new (E := unit) st with
        | Ok m =>
            match verify_block header (Some (blk_header parent)) (blk_body blk) (tn_bridge c) m with
            | (Ok _, m') => Some (mem_state m')
            | _ => None
            end
        | _ => None
        end
    end.

Definition toy_try_exec (b : OLBlockCommitment) : M FcmError ToyNode unit := fun c =>
  match block_with (obc_blkid b) (tn_blocks c) with
  | None => (Err ContextError, c)
  | Some blk =>
      match block_with (hdr_parent_blkid (blk_header blk)) (tn_blocks c) with
      | None => (Err ContextError, c)
      | Some parent =>
          match toy_execute c blk parent with
          | None => (Err ContextError, c)
          | Some st => (Ok tt, tn_put_state b st c)
          end
      end
  end.

#[export] Instance toy_fcm_context : FcmContext ToyNode := {
  get_blocks_at_height c slot :=
    Ok (map (fun b => compute_blkid (blk_header b)) (List.filter (fun b => hdr_slot (blk_header b) =? slot) (tn_blocks c)));
  get_block_status c id := Ok (assoc id (tn_status c));
  get_ol_block c id := Ok (block_with id (tn_blocks c));
  get_ol_header c id := Ok (blk_header <$> block_with id (tn_blocks c));
  try_exec_block := toy_try_exec;
  update_safe_tip _ := mret tt;
  ctx_finalize_epoch _ := mret tt;
  last_finalized_epoch := tn_final;
  last_confirmed_epoch := tn_final;
  set_block_status id s := mmodify (tn_put_status id s) ;;; mret true;
  clear_block_high_watermark _ := mret false;
  get_block_high_watermark _ := Ok None;
  get_history_base _ := Ok None;
  rollback_block_state_indexing _ _ := mret tt;
  del_epoch_summary _ := mret false;
  get_toplevel_ol_state c b := Ok (assoc b (tn_states c));
  get_canonical_block_at c slot := Ok (canon_at (tn_canon c) slot);
  replace_canonical_suffix_from start ids := mmodify (tn_put_canon start ids);
  fcm_canonical_epoch_commitment_at c _ := Ok (tn_final c);
  reconcile_ol_mmr_index _ := mret tt;
  ctx_publish_sync_status _ c := c;
}.

Lemma block_with_some id l b : block_with id l = Some b -> b ∈ l /\ compute_blkid (blk_header b) = id.
Proof.
  induction l as [|x l IH]; cbn [block_with]; [discriminate|].
  destruct (Z.eqb_spec (compute_blkid (blk_header x)) id) as [H|H]; intros Hb.
  - injection Hb as <-. split; [by left|exact H].
  - destruct (IH Hb) as [Hl Hid]. split; [by right|exact Hid].
Qed.

Lemma assoc_app {K V} `{!EqDecision K} (k : K) (l1 l2 : list (K * V)) :
  assoc k (l1 ++ l2) = match assoc k l1 with Some v => Some v | None => assoc k l2 end.
Proof. induction l1 as [|[k' v] l1 IH]; simpl; [done|]. by destruct (decide (k' = k)). Qed.

Lemma put_state_frame b st c : ctx_frame c (tn_put_state b st c).
Proof.
  split; try done. intros b' st' Hs. cbn [get_toplevel_ol_state toy_fcm_context tn_states tn_put_state] in Hs |- *.
  injection Hs as Hs. by rewrite assoc_app, Hs.
Qed.

Lemma toy_exec_run b c r c' :
  toy_try_exec b c = (r, c') ->
  (exists e, r = Err e /\ c' = c) \/
  exists blk parent st, r = Ok tt /\ c' = tn_put_state b st c /\ block_with (obc_blkid b) (tn_blocks c) = Some blk /\
    block_with (hdr_parent_blkid (blk_header blk)) (tn_blocks c) = Some parent /\
    hdr_slot (blk_header blk) = hdr_slot (blk_header parent) + 1.
Proof.
  unfold toy_try_exec. destruct (block_with (obc_blkid b) _) as [blk|] eqn:Hb; [|intros [= <- <-]; left; by eexists].
  destruct (block_with (hdr_parent_blkid _) _) as [parent|] eqn:Hp; [|intros [= <- <-]; left; by eexists].
  destruct (toy_execute c blk parent) as [st|] eqn:He; intros [= <- <-]; [right|left; by eexists].
  exists blk, parent, st. split_and!; try done. unfold toy_execute in He.
  destruct (hdr_slot (blk_header blk) =? _) eqn:Hs; [by apply Z.eqb_eq in Hs|done].
Qed.

#[export] Instance toy_fcm_laws : FcmLaws.
Proof.
  split; try (intros; intros c; do 2 eexists; by split_and!).
  - intros id st c b _. do 2 eexists. split; [done|]. by split.
  - intros c. by eexists.
  - intros c id b Hb. cbn [get_ol_block get_ol_header toy_fcm_context] in *. injection Hb as Hb.
    rewrite Hb. split; [|done]. by apply block_with_some in Hb as [_ ?].
  - intros b c r c' H. apply toy_exec_run in H as [(e & -> & ->)|(blk & p & st & -> & -> & _)].
    + by split_and!.
    + split_and!; [done|apply put_state_frame|done].
  - intros b c blk c' Hb H. apply toy_exec_run in H as [(e & ? & _)|(blk' & p & st & _ & -> & Hb' & Hp & Hs)]; [done|].
    cbn [get_ol_block get_ol_header get_toplevel_ol_state toy_fcm_context tn_states tn_put_state] in *. split.
    + rewrite assoc_app. simpl. rewrite decide_True by done. destruct (assoc b _); by eexists.
    + assert (blk' = blk) as -> by congruence. intros ph Hph. rewrite Hp in Hph. simpl in Hph. congruence.
  - intros e c r c' [= <- <-]. by split.
  - intros start ids c _. exists (tn_put_canon start ids c). split_and!; [done|done|].
    intros slot. simpl. by destruct (slot <? start).
Qed.

(** * Witnesses for the fork choice manager

    A small tree for the tracker, and a node that starts with the first block of
    the scenario and receives the second. *)

(** ** The tracker

    1 is the base, 2 and 4 are its children, 3 follows 2 and 5 follows 4. *)

Definition tree_slot (id : OLBlockId) : Slot :=
  if (id =? 2) || (id =? 4) || (id =? 6) then 1 else if (id =? 3) || (id =? 5) then 2 else 0.
Definition tree_parent (id : OLBlockId) : OLBlockId :=
  if (id =? 2) || (id =? 4) || (id =? 6) then 1 else if id =? 3 then 2 else if id =? 5 then 4 else 0.
Definition tree_fin : EpochCommitment := {| ec_epoch := 0; ec_last_slot := 0; ec_last_blkid := 1 |}.
Definition tree_epoch : EpochCommitment := {| ec_epoch := 1; ec_last_slot := 1; ec_last_blkid := 2 |}.

Definition tree_attach (t : UnfinalizedBlockTracker) (id : OLBlockId) : UnfinalizedBlockTracker :=
  snd (attach_block (tree_slot id) id (tree_parent id) t).
Definition demo_tree : UnfinalizedBlockTracker := fold_left tree_attach [2; 3; 4; 5] (new_empty tree_fin).

Lemma tree_attach_reachable t id :
  tracker_reachable tree_slot tree_parent tree_fin t -> id <> buf32_zero ->
  tracker_reachable tree_slot tree_parent tree_fin (tree_attach t id).
Proof.
  intros Ht Hid. unfold tree_attach. destruct (attach_block _ _ _ t) as [r t'] eqn:Ha. by eapply reach_attach.
Qed.

Lemma demo_tree_reachable : tracker_reachable tree_slot tree_parent tree_fin demo_tree.
Proof. unfold demo_tree. simpl. repeat (apply tree_attach_reachable; [|done]). apply reach_new. Qed.

Lemma demo_tree_wf : tracker_wf tree_slot tree_parent 1 demo_tree.
Proof. by apply (tracker_reachable_wf tree_slot tree_parent 1 tree_fin), demo_tree_reachable. Qed.

(** A check that [l] leads from its head to the finalized tip. *)
Fixpoint path_ok (t : UnfinalizedBlockTracker) (id : OLBlockId) (l : list OLBlockId) : bool :=
  match l with
  | [] => id =? finalized_tip t
  | p :: l' => match get_parent t id with Some p' => (p' =? p) && path_ok t p l' | None => false end
  end.

Lemma path_ok_path t id l : path_ok t id l = true -> anc_path t id (id :: l).
Proof.
  revert id. induction l as [|p l IH]; intros id H; cbn [path_ok] in H.
  - apply Z.eqb_eq in H as ->. constructor.
  - destruct (get_parent t id) as [p'|] eqn:Hp; [|done]. apply andb_true_iff in H as [Heq H]. apply Z.eqb_eq in Heq as ->.
    unfold get_parent in Hp. destruct (Z.eqb_spec id (finalized_tip t)) as [|Hne]; [done|].
    destruct (pending_table t !! id) as [e|] eqn:He; [|done]. simpl in Hp. injection Hp as <-.
    econstructor; [exact Hne|exact He|]. by apply IH.
Qed.

Lemma path_ok_live t id l : path_ok t id l = true -> live t id.
Proof. intros H. exists (id :: l). by apply path_ok_path. Qed.

Lemma demo_tree_live2 : live demo_tree 2.
Proof. apply (path_ok_live demo_tree 2 [1]). vm_compute. reflexivity. Qed.

Lemma demo_tree_live3 : live demo_tree 3.
Proof. apply (path_ok_live demo_tree 3 [2; 1]). vm_compute. reflexivity. Qed.

Lemma demo_tree_live5 : live demo_tree 5.
Proof. apply (path_ok_live demo_tree 5 [4; 1]). vm_compute. reflexivity. Qed.

Lemma tracker_invariant_witness :
  tracker_wf tree_slot tree_parent 1 demo_tree /\ forall epoch, fst (update_finalized_epoch epoch demo_tree) <> Panic.
Proof. apply (tracker_invariant tree_slot tree_parent 1 tree_fin demo_tree); [done..|exact demo_tree_reachable]. Defined.

Lemma update_finalized_epoch_spec_witness :
  exists r t', update_finalized_epoch tree_epoch demo_tree = (Ok r, t') /\ forall x, live t' x <-> descends demo_tree 2 x.
Proof.
  destruct (proj1 (update_finalized_epoch_spec tree_slot tree_parent 1 demo_tree tree_epoch demo_tree_wf))
    as (r & t' & H & _ & Hf); [exact demo_tree_live2|discriminate|].
  exists r, t'. split; [exact H|]. apply Hf.
Defined.

Lemma attach_to_old_tip_witness :
  let t' := snd (update_finalized_epoch tree_epoch demo_tree) in
  exists new t'', attach_block 1 6 1 t' = (Ok new, t'') /\ 6 ∈ chain_tips_iter t'' /\ ~ live t'' 6.
Proof.
  refine (attach_to_old_tip tree_slot tree_parent 1 demo_tree tree_epoch _ _ 6 demo_tree_wf demo_tree_live2 _ _ _ _ _ _);
    try discriminate; vm_compute; reflexivity.
Defined.

(** From 3 to 5: two blocks down, two up. *)
Lemma compute_tip_update_spec_witness :
  exists down pivot up, fork demo_tree 3 5 down pivot up /\
    compute_tip_update (E := unit) 3 5 100 demo_tree =
      Ok (if bool_decide (down = [] /\ up = [5]) || bool_decide (length down < 100 /\ length up < 100)%nat
          then Some (update_of 3 5 down pivot up) else None).
Proof.
  apply (proj2 (proj2 (compute_tip_update_spec demo_tree unit 3 5 100 demo_tree_live3 demo_tree_live5)));
    discriminate.
Defined.

(** ** A node *)

Definition g_id : OLBlockId := Eval vm_compute in compute_blkid demo_parent.
Definition b1_id : OLBlockId := Eval vm_compute in compute_blkid demo_header1.
Definition b2_id : OLBlockId := Eval vm_compute in compute_blkid demo_header2.

Lemma g_id_eq : compute_blkid demo_parent = g_id.
Proof. vm_compute. reflexivity. Qed.
Lemma b1_id_eq : compute_blkid demo_header1 = b1_id.
Proof. vm_compute. reflexivity. Qed.
Lemma b2_id_eq : compute_blkid demo_header2 = b2_id.
Proof. vm_compute. reflexivity. Qed.

Definition node_slot (id : OLBlockId) : Slot := if id =? b1_id then 1 else if id =? b2_id then 2 else 0.
Definition node_parent (id : OLBlockId) : OLBlockId :=
  if id =? b1_id then g_id else if id =? b2_id then b1_id else hdr_parent_blkid demo_parent.

(** Before the first block. *)
Definition demo_node0 : ToyNode := {|
  tn_bridge := demo_bridge; tn_blocks := []; tn_canon := []; tn_status := []; tn_final := None;
  tn_states := [(commit node_slot g_id, demo_state)] |}.
Definition demo_exec1 : option OLState := toy_execute demo_node0 demo_block1 demo_genesis.
Definition demo_state1 : OLState := default demo_no_state demo_exec1.

(** All three blocks are stored; the first one has been executed. *)
Definition demo_node : ToyNode := {|
  tn_bridge := demo_bridge;
  tn_blocks := [demo_genesis; demo_block1; demo_block2];
  tn_states := [(commit node_slot g_id, demo_state); (commit node_slot b1_id, demo_state1)];
  tn_status := [(b1_id, Valid)];
  tn_canon := [(0, [g_id])];
  tn_final := None;
|}.

Definition demo_genesis_block : OLBlockCommitment := {| obc_slot := 0; obc_blkid := g_id |}.

Definition run_or {E A} (d : A) (o : option (res E A)) : A := match o with Some (Ok a) => a | _ => d end.
Definition demo_unstarted : FcmServiceState := {|
  fcm_ctx := demo_node; sequencer_predicate := (1 : Z);
  inner_state := FcmInnerState_new (new_empty tree_fin) demo_genesis_block demo_no_state [] |}.
Definition demo_init : option (res FcmError FcmServiceState) := init_fcm_service_state 10 (1 : Z) demo_node.
Definition demo_started : FcmServiceState := run_or demo_unstarted demo_init.

Lemma demo_starts : init_fcm_service_state 10 1 demo_node = Some (Ok demo_started).
Proof. vm_compute. reflexivity. Qed.

Lemma Ok_inj {E A} (a b : A) : Ok (E := E) a = Ok b -> a = b.
Proof. by intros [=]. Qed.

Lemma demo_stored id b :
  get_ol_block demo_node id = Ok (Some b) ->
  id = g_id /\ b = demo_genesis \/ id = b1_id /\ b = demo_block1 \/ id = b2_id /\ b = demo_block2.
Proof.
  intros H. apply Ok_inj, block_with_some in H as [Hb <-]. cbn [demo_node tn_blocks] in Hb.
  apply elem_of_cons in Hb as [->|[->|[->|[]%elem_of_nil]%elem_of_cons]%elem_of_cons].
  - left. split; [exact g_id_eq|reflexivity].
  - right. left. split; [exact b1_id_eq|reflexivity].
  - right. right. split; [exact b2_id_eq|reflexivity].
Qed.

Lemma demo_canon slot k :
  canon_at (tn_canon demo_node) slot = Some k -> k = {| obc_slot := slot; obc_blkid := g_id |} /\ slot = 0.
Proof.
  cbn [demo_node tn_canon canon_at]. destruct (slot <? 0) eqn:Hs; [done|]. zbool. rewrite Z.sub_0_r.
  destruct (Z.to_nat slot) as [|[|n]] eqn:Hn; cbn; try discriminate. intros H. injection H as <-. split; [done|lia].
Qed.

Lemma demo_storage_ok : storage_ok node_slot node_parent g_id demo_node.
Proof.
  split.
  - intros id h Hh. assert (exists b, get_ol_block demo_node id = Ok (Some b) /\ blk_header b = h) as (b & Hb & <-).
    { cbn [get_ol_header get_ol_block toy_fcm_context] in *. destruct (block_with id _) as [b|]; [|discriminate].
      exists b. split; [done|]. cbn in Hh. by injection Hh. }
    destruct (demo_stored id b Hb) as [[-> ->]|[[-> ->]|[-> ->]]]; vm_compute; split; reflexivity.
  - intros id b Hv _. cbn [get_block_status toy_fcm_context demo_node tn_status assoc] in Hv.
    destruct (decide (b1_id = id)) as [<-|]; [|discriminate].
    split; [discriminate|]. split; [reflexivity|]. exists demo_state1. vm_compute. reflexivity.
  - intros id. unfold node_slot. destruct (id =? b1_id); [done|]. by destruct (id =? b2_id).
  - intros h ids id Hids. apply Ok_inj in Hids as <-. intros Hid. apply list_elem_of_In, in_map_iff in Hid as (b & <- & Hb).
    apply filter_In in Hb as [Hb Hslot]. apply Z.eqb_eq in Hslot as <-.
    destruct Hb as [<-|[<-|[<-|[]]]]; vm_compute; reflexivity.
  - intros slot k Hk. apply Ok_inj in Hk. by apply demo_canon in Hk as [-> _].
  - intros id Hne Hk. apply Ok_inj in Hk. apply demo_canon in Hk as [Hk _]. unfold commit in Hk. by injection Hk.
Qed.

Lemma demo_startup_ok : startup_ok node_slot g_id demo_node demo_genesis_block.
Proof.
  split; try done.
  - exists demo_parent. vm_compute. reflexivity.
  - exists demo_state. vm_compute. reflexivity.
  - intros target c1 c2 H. injection H as <-. split; [reflexivity|done].
Qed.

Lemma demo_inv : fcm_inv node_slot node_parent g_id demo_started.
Proof.
  apply (init_fcm_started node_slot node_parent g_id demo_node demo_storage_ok 10 1 demo_genesis_block demo_started).
  - exact demo_startup_ok.
  - exact demo_starts.
Qed.

Lemma toy_storage_reads : storage_reads (C := ToyNode).
Proof. split; intros; try (eexists; reflexivity). discriminate. Qed.

Lemma demo_history_ok : history_ok node_slot node_parent g_id demo_node.
Proof.
  split.
  - reflexivity.
  - intros x h _. unfold node_slot. destruct (x =? b1_id); [lia|]. destruct (x =? b2_id); lia.
  - intros c' base x h _ _ _ Hle H0. exfalso. revert Hle H0. unfold node_slot.
    change (g_id =? b1_id) with false. change (g_id =? b2_id) with false. cbn [andb].
    destruct (x =? b1_id); [lia|]. destruct (x =? b2_id); lia.
Qed.

Lemma init_fcm_establishes_witness :
  exists s, init_fcm_service_state 10 1 demo_node = Some (Ok s) /\ fcm_inv node_slot node_parent g_id s /\
    started node_slot node_parent g_id demo_node {| ec_epoch := 0; ec_last_slot := 0; ec_last_blkid := g_id |} (tracker s).
Proof.
  apply (init_fcm_establishes node_slot node_parent g_id demo_node demo_storage_ok toy_storage_reads demo_history_ok 3 10 1
    demo_genesis_block demo_startup_ok); vm_compute; first [reflexivity|discriminate|lia].
Defined.

Lemma demo_path1 : anc_path (tracker demo_started) b1_id [b1_id; g_id].
Proof. apply path_ok_path. vm_compute. reflexivity. Qed.

Lemma demo_live1 : live (tracker demo_started) b1_id.
Proof. by exists [b1_id; g_id]; apply demo_path1. Qed.

Lemma demo_best : obc_blkid (best demo_started) = b1_id.
Proof. vm_compute. reflexivity. Qed.

Lemma demo_parent2 : node_parent (compute_blkid (blk_header demo_block2)) = b1_id.
Proof. vm_compute. reflexivity. Qed.

(** The new block directly follows the best one, which has two ancestors. *)
Lemma demo_fork_in_depth : fork_in_depth node_parent demo_started demo_block2.
Proof.
  intros down pivot up [(base & Hs & Hd) _]. rewrite demo_best in Hs. rewrite demo_parent2 in Hd.
  apply (anc_path_fun _ _ _ _ demo_path1) in Hs, Hd. apply (f_equal length) in Hs, Hd.
  rewrite length_app in Hs, Hd. rewrite length_rev in Hd. simpl in Hs, Hd. unfold REORG_DEPTH. lia.
Qed.

Definition demo_exec2 : res FcmError unit * ToyNode := try_exec_block (commit node_slot b2_id) (fcm_ctx demo_started).

Lemma handle_new_block_longest_witness :
  exists s', handle_new_block demo_block2 demo_started = (Ok true, s') /\ fcm_inv node_slot node_parent g_id s' /\
    best s' = commit node_slot (compute_blkid (blk_header demo_block2)).
Proof.
  destruct (handle_new_block_longest node_slot node_parent g_id demo_started demo_block2 demo_inv) as [H _];
    [vm_compute; reflexivity|].
  destruct (H (snd demo_exec2)) as (s' & Hs & Hi & _ & Hb).
  - vm_compute. reflexivity.
  - vm_compute. reflexivity.
  - vm_compute. discriminate.
  - rewrite demo_parent2. exact demo_live1.
  - exact demo_fork_in_depth.
  - vm_compute. discriminate.
  - vm_compute. discriminate.
  - exists s'. split; [exact Hs|]. split; [exact Hi|]. rewrite Hb. rewrite demo_best. vm_compute. reflexivity.
Defined.

Lemma finalize_epoch_spec_witness :
  exists s', finalize_epoch {| ec_epoch := 1; ec_last_slot := 1; ec_last_blkid := b1_id |} demo_started = (Ok tt, s') /\
    best s' = best demo_started /\ fcm_inv node_slot node_parent g_id s'.
Proof.
  destruct (finalize_epoch_spec node_slot node_parent g_id demo_started
    {| ec_epoch := 1; ec_last_slot := 1; ec_last_blkid := b1_id |} (fcm_ctx demo_started) demo_inv) as [H _];
    [vm_compute; discriminate|reflexivity|].
  destruct H as (s' & Hs & _ & Hb & _ & _ & Hinv); [exact demo_live1|vm_compute; discriminate|].
  exists s'. split; [exact Hs|]. split; [exact Hb|]. apply Hinv. cbn [ec_last_blkid]. rewrite demo_best.
  destruct demo_live1 as [l Hl]. exists l. split; [exact Hl|]. by destruct (anc_path_head _ _ _ Hl) as [l' ->]; left.
Defined.
