(* ===== verification/MempoolWitnesses.v ===== *)
(** * Witnesses for the mempool

    A mempool over the scenario's genesis state, with an account message and an
    update pending, a restart of the service, and the chain moving on to the block
    that includes both. *)

From S2P Require Import Prelude SortedMap Identifiers AcctTypes ChainTypes Externals LedgerTypes Bridge.
From S2P Require Import OLAccount WriteBatch OLState StateAccessor MemoryLayer SnarkSys StfContext StfTx StfBlock.
From S2P Require Import Mempool MempoolSpec MempoolOps MempoolProps Concrete Witnesses.

(** ** Transactions as bytes *)

Definition ser_unit : Ser unit.
Proof. refine {| ser _ := []; par l := Some (tt, l) |}. by intros []. Defined.
Definition ser_sent_message : Ser SentMessage.
Proof.
  refine (ser_iso (fun m => (sm_dest m, sm_payload m)) (fun p => {| sm_dest := fst p; sm_payload := snd p |}) _ (ser_pair ser_z ser_payload)).
  by intros [].
Defined.
Definition ser_sent_transfer : Ser SentTransfer.
Proof.
  refine (ser_iso (fun m => (st_dest m, st_value m)) (fun p => {| st_dest := fst p; st_value := snd p |}) _ (ser_pair ser_z ser_z)).
  by intros [].
Defined.
Definition ser_effects : Ser TxEffects.
Proof.
  refine (ser_iso (fun e => (fx_transfers e, fx_messages e)) (fun p => {| fx_transfers := fst p; fx_messages := snd p |}) _
    (ser_pair (ser_option (ser_list ser_sent_transfer)) (ser_option (ser_list ser_sent_message)))).
  by intros [].
Defined.
Definition ser_update_data : Ser SauTxUpdateData.
Proof.
  refine (ser_iso (fun u : SauTxUpdateData => (sud_seq_no u, (sps_new_next_msg_idx (sud_proof_state u), (sps_inner_state_root (sud_proof_state u),
                     (sud_extra_data u, sud_new_predicate u)))))
    (fun '(n, (i, (r, (d, p)))) => {| sud_seq_no := n; sud_proof_state := {| sps_new_next_msg_idx := i; sps_inner_state_root := r |};
                                      sud_extra_data := d; sud_new_predicate := p |}) _
    (ser_pair ser_z (ser_pair ser_z (ser_pair ser_z (ser_pair (ser_list ser_z) (ser_option ser_z)))))).
  by intros [? [] ? ?].
Defined.
Definition ser_operation : Ser SauTxOperationData.
Proof.
  refine (ser_iso (fun o => (sod_update_data o, (sod_messages o, slr_l1_block_ref_claims (sod_ledger_refs o))))
    (fun '(u, (m, r)) => {| sod_update_data := u; sod_messages := m; sod_ledger_refs := {| slr_l1_block_ref_claims := r |} |}) _
    (ser_pair ser_update_data (ser_pair (ser_list ser_entry) (ser_option (ser_list ser_claim))))).
  by intros [? ? []].
Defined.
Definition ser_tx_payload : Ser TransactionPayload.
Proof.
  refine (ser_iso (fun p => match p with
                            | GenericAccountMessage gam => (gam_target gam, None)
                            | SnarkAccountUpdate sau => (sau_target sau, Some (sau_operation_data sau))
                            end)
    (fun '(t, o) => match o with
                    | None => GenericAccountMessage {| gam_target := t |}
                    | Some op => SnarkAccountUpdate {| sau_target := t; sau_operation_data := op |}
                    end) _ (ser_pair ser_z (ser_option ser_operation))).
  by intros [[]|[]].
Defined.
Definition ser_tx : Ser OLTransaction.
Proof.
  refine (ser_iso (fun tx => (txd_payload (tx_data tx), (tc_min_slot (txd_constraints (tx_data tx)), (tc_max_slot (txd_constraints (tx_data tx)),
                     (txd_effects (tx_data tx), (txp_predicate_satisfiers (tx_proofs tx), txp_accumulator_proofs (tx_proofs tx)))))))
    (fun '(p, (mn, (mx, (e, (s, a))))) =>
       {| tx_data := {| txd_payload := p; txd_constraints := {| tc_min_slot := mn; tc_max_slot := mx |}; txd_effects := e |};
          tx_proofs := {| txp_predicate_satisfiers := s; txp_accumulator_proofs := a |} |}) _
    (ser_pair ser_tx_payload (ser_pair (ser_option ser_z) (ser_pair (ser_option ser_z) (ser_pair ser_effects
       (ser_pair (ser_option (ser_list (ser_list ser_z))) (ser_option (ser_list ser_unit)))))))).
  by intros [[? [] ?] []].
Defined.

(** ** The database *)

(** The stored transactions, the blocks, and the state of every tip. *)
Record ToyMempoolDb := {
  tmd_txs : gmap OLTxId MempoolTxData;
  tmd_blocks : list OLBlock;
  tmd_states : list (OLBlockCommitment * MemoryStateBaseLayer);
}.

Fixpoint find_block (id : OLBlockId) (l : list OLBlock) : option OLBlock :=
  match l with
  | [] => None
  | b :: l' => if compute_blkid (blk_header b) =? id then Some b else find_block id l'
  end.
Fixpoint find_state {S} (tip : OLBlockCommitment) (l : list (OLBlockCommitment * S)) : option S :=
  match l with
  | [] => None
  | (c, s) :: l' => if bool_decide (c = tip) then Some s else find_state tip l'
  end.

#[export] Instance toy_mempool_storage : MempoolStorage (S := MemoryStateBaseLayer) ToyMempoolDb := {
  mp_get_all_txs c := Ok (map_to_list (tmd_txs c)).*2;
  mp_put_tx d c := (Some tt, {| tmd_txs := <[mtd_txid d := d]> (tmd_txs c); tmd_blocks := tmd_blocks c; tmd_states := tmd_states c |});
  mp_del_tx t c := (Some (bool_decide (is_Some (tmd_txs c !! t))),
                    {| tmd_txs := delete t (tmd_txs c); tmd_blocks := tmd_blocks c; tmd_states := tmd_states c |});
  mp_get_block_data c id := Ok (find_block id (tmd_blocks c));
  get_state_for_tip c tip := Ok (find_state tip (tmd_states c));
  tx_as_ssz_bytes := ser ser_tx;
  tx_from_ssz_bytes := parse_all ser_tx;
}.

#[export] Instance toy_mempool_laws : MempoolLaws (S := MemoryStateBaseLayer) (C := ToyMempoolDb).
Proof. split; intros; simpl; eexists; [eexists|]; by split. Qed.

#[export] Instance toy_mempool_contents : MempoolContents (S := MemoryStateBaseLayer) (C := ToyMempoolDb).
Proof.
  refine {| stored := tmd_txs |}; try done; [by intros c l [= <-]|]. intros tx. apply parse_all_ser.
Defined.

(** ** The pool *)

Definition demo_tip0 : OLBlockCommitment := {| obc_slot := 0; obc_blkid := compute_blkid demo_parent |}.
Definition demo_tip1 : OLBlockCommitment := {| obc_slot := 1; obc_blkid := compute_blkid demo_header1 |}.
Definition demo_mem1 : MemoryStateBaseLayer :=
  snd (verify_block demo_header1 (Some demo_parent) demo_body1 demo_bridge demo_mem).
Definition demo_db : ToyMempoolDb :=
  {| tmd_txs := ∅; tmd_blocks := [demo_block1]; tmd_states := [(demo_tip0, demo_mem); (demo_tip1, demo_mem1)] |}.
Definition demo_mempool_config : OLMempoolConfig :=
  {| max_tx_count := 10; max_tx_size := 1000; max_mempool_bytes := 5000; max_reorg_depth := 10; command_buffer_size := 16 |}.

Definition demo_pool0 : MempoolServiceState (S := MemoryStateBaseLayer) (C := ToyMempoolDb) :=
  {| mp_config := demo_mempool_config; mp_storage := demo_db; entries := ∅; ordering_index := []; account_state := ∅;
     state_accessor := demo_mem; stats := OLMempoolStats_default |}.
Definition demo_pool1 := snd (handle_submit_transaction 10 demo_gam demo_pool0).
Definition demo_pool2 := snd (handle_submit_transaction 20 demo_update demo_pool1).

Lemma demo_pool0_launched : launch demo_mempool_config demo_db demo_tip0 = Ok demo_pool0.
Proof. reflexivity. Qed.

Lemma demo_limits_ok : limits_ok 10 5000 demo_mempool_config.
Proof. split; vm_compute; [split; discriminate..|discriminate|discriminate|discriminate]. Qed.

Lemma mem_readable (a : MemoryStateBaseLayer) : accounts_readable a.
Proof. by intros id. Qed.

Lemma demo_gam_in_order : submitted_in_order demo_pool0 10 demo_gam.
Proof. intros t e. simpl. by rewrite lookup_empty. Qed.

Lemma demo_pool1_entries : entries demo_pool1 = {[compute_txid demo_gam := new_entry (DB := toy_mempool_storage) 10 demo_gam]}.
Proof. vm_compute. reflexivity. Qed.

Lemma demo_update_in_order : submitted_in_order demo_pool1 20 demo_update.
Proof.
  intros t e. rewrite demo_pool1_entries. intros [<- <-]%lookup_singleton_Some. split; [by vm_compute|].
  intros Ht. vm_compute in Ht. discriminate.
Qed.

Lemma submit_step now tx (s : MempoolServiceState (S := MemoryStateBaseLayer) (C := ToyMempoolDb)) :
  mp_process_input (SubmitTransaction now tx) s =
    (fst (mp_process_input (SubmitTransaction now tx) s), snd (handle_submit_transaction now tx s)).
Proof. simpl. by destruct (handle_submit_transaction now tx s) as [[]]. Qed.

(** The message and the update are submitted in order. *)
Lemma demo_life1 : mp_life (cc := 10) (cb := 5000) input_in_order demo_pool1.
Proof.
  apply (life_input _ demo_pool0 (SubmitTransaction 10 demo_gam) (fst (mp_process_input (SubmitTransaction 10 demo_gam) demo_pool0))).
  - apply (life_first _ demo_mempool_config demo_db demo_tip0); [exact demo_limits_ok|reflexivity|exact demo_pool0_launched].
  - exact demo_gam_in_order.
  - apply submit_step.
Qed.

Lemma demo_life2 : mp_life (cc := 10) (cb := 5000) input_in_order demo_pool2.
Proof.
  apply (life_input _ demo_pool1 (SubmitTransaction 20 demo_update) (fst (mp_process_input (SubmitTransaction 20 demo_update) demo_pool1))).
  - exact demo_life1.
  - exact demo_update_in_order.
  - apply submit_step.
Qed.

Lemma demo_pool_ok s : mp_life (cc := 10) (cb := 5000) input_in_order s -> mp_wf 10 5000 s /\ idx_ok s.
Proof. intros [Hi Hidx]%life_inv. split; [apply Hi|by apply Hidx]. Qed.

Lemma demo_pool1_seqs : seqs_bounded demo_pool1.
Proof. intros t e n. rewrite demo_pool1_entries. by intros [<- <-]%lookup_singleton_Some. Qed.

Lemma demo_pool2_entries :
  entries demo_pool2 = {[compute_txid demo_gam := new_entry (DB := toy_mempool_storage) 10 demo_gam;
                         compute_txid demo_update := new_entry (DB := toy_mempool_storage) 20 demo_update]}.
Proof. vm_compute. reflexivity. Qed.

Lemma demo_pool2_seqs : seqs_bounded demo_pool2.
Proof.
  intros t e n. rewrite demo_pool2_entries. intros [[<- <-]|[_ [<- <-]%lookup_singleton_Some]]%lookup_insert_Some; [done|].
  intros [= <-]. by vm_compute.
Qed.

(** The pool after a restart. *)
Definition demo_pool3 : MempoolServiceState (S := MemoryStateBaseLayer) (C := ToyMempoolDb) :=
  match launch demo_mempool_config (mp_storage demo_pool2) demo_tip0 with Ok s => s | _ => demo_pool2 end.

Lemma demo_life3 : mp_life (cc := 10) (cb := 5000) input_in_order demo_pool3.
Proof.
  apply (life_restart _ demo_pool2 demo_mempool_config (mp_storage demo_pool2) demo_tip0);
    [exact demo_life2|exact demo_limits_ok|reflexivity|]. unfold demo_pool3.
  assert (H : is_ok (launch demo_mempool_config (mp_storage demo_pool2) demo_tip0) = true) by (vm_compute; reflexivity).
  by destruct (launch _ _ _).
Qed.

(** ** The witnesses *)

(** The update is accepted next to the message. *)
Lemma submit_spec_witness :
  exists s', handle_submit_transaction 20 demo_update demo_pool1 = (Ok (compute_txid demo_update), s') /\ mp_wf 10 5000 s' /\ idx_ok s'.
Proof.
  destruct (demo_pool_ok _ demo_life1) as (Hw & Hi). pose proof demo_pool1_seqs as Hb.
  destruct (submit_spec 20 demo_update demo_pool1 Hw Hb) as (_ & Hacc & _); [discriminate|].
  destruct Hacc as (s' & Hrun & Hw' & _ & Hidx).
  - vm_compute. reflexivity.
  - split; vm_compute; first [reflexivity|discriminate].
  - exists demo_account. split.
    + split; intros m Hm; discriminate Hm.
    + vm_compute. reflexivity.
    + intros n [= <-]. split; [intros _; eexists; split; vm_compute; reflexivity|]. intros Hne. by destruct Hne; vm_compute.
  - exists s'. split; [exact Hrun|]. split; [exact Hw'|]. apply Hidx; [exact Hi|exact demo_update_in_order].
Defined.

(** Reporting the update invalid leaves the message. *)
Lemma report_invalid_spec_witness :
  let s' := handle_report_invalid_transactions [(compute_txid demo_update, TxInvalid); (compute_txid demo_gam, TxFailed)] demo_pool2 in
  mp_wf 10 5000 s' /\ idx_ok s' /\ contains s' (compute_txid demo_update) = false /\ contains s' (compute_txid demo_gam) = true.
Proof.
  destruct (demo_pool_ok _ demo_life2) as (Hw & Hi). pose proof demo_pool2_seqs as Hb.
  destruct (report_invalid_spec [(compute_txid demo_update, TxInvalid); (compute_txid demo_gam, TxFailed)] demo_pool2 Hw Hb)
    as (Hw' & Hi' & _).
  intros s'. split; [exact Hw'|]. split; [exact (Hi' Hi)|]. split; vm_compute; reflexivity.
Defined.

(** After the restart both transactions are handed out, the message first. *)
Lemma get_transactions_by_age_witness :
  exists l, by_age demo_pool3 l /\ length l = 2%nat /\
    mp_process_input (GetTransactions 5) demo_pool3
      = (Ok (Transactions [(compute_txid demo_gam, demo_gam); (compute_txid demo_update, demo_update)]), demo_pool3).
Proof.
  destruct (get_transactions_by_age (cc := 10) (cb := 5000) 5 demo_pool3 demo_life3) as (l & Hl & Hget).
  exists l. split; [exact Hl|]. split; [|vm_compute; reflexivity].
  destruct Hl as [Hp _]. apply Permutation_length in Hp. rewrite Hp. vm_compute. reflexivity.
Defined.

(** The block that includes both empties the pool. *)
Lemma chain_update_spec_witness :
  exists s', handle_chain_update demo_tip1 demo_pool2 = (Ok tt, s') /\ mp_wf 10 5000 s' /\ entries s' !! compute_txid demo_update = None.
Proof.
  destruct (demo_pool_ok _ demo_life2) as (Hw & Hi). pose proof demo_pool2_seqs as Hb.
  destruct (chain_update_spec demo_tip1 demo_pool2 demo_mem1 [demo_tip1] Hw Hb (mem_readable _)) as (s' & Hrun & Hw' & _ & _ & _ & _ & Hinc & _).
  - vm_compute. discriminate.
  - vm_compute. discriminate.
  - vm_compute. reflexivity.
  - vm_compute. reflexivity.
  - exists s'. split; [exact Hrun|]. split; [exact Hw'|]. apply (Hinc demo_tip1 demo_block1 demo_update).
    + left.
    + vm_compute. reflexivity.
    + vm_compute. left.
Defined.

Lemma mempool_life_invariant_witness :
  mp_wf 10 5000 demo_pool3 /\ stored (mp_storage demo_pool3) = entry_record <$> entries demo_pool3 /\ size (entries demo_pool3) = 2%nat.
Proof.
  destruct (mempool_life_invariant (cc := 10) (cb := 5000) input_in_order demo_pool3 demo_life3) as (Hw & Hst & _).
  split; [exact Hw|]. split; [exact Hst|]. vm_compute. reflexivity.
Defined.
