(* ===== verification/AssemblyWitnesses.v ===== *)
(** * Witnesses for block assembly

    A node with the scenario's genesis state, two pending transactions and two
    buried manifests assembles a block, and a second one on top of it. *)

From S2P Require Import Prelude SortedMap Identifiers AcctTypes ChainTypes Externals CodecTypes DaFramework OLDaTypes LedgerTypes Bridge.
From S2P Require Import OLAccount WriteBatch OLState StateAccessor LedgerSpec MemoryLayer BatchApply WriteTracking IndexerLayer DaLayer.
From S2P Require Import SnarkSys StfContext StfTx StfBlock StfSim DaSim CheckpointWorker Mempool ForkChoice DaSize EpochSealing BlockAssembly.
From S2P Require Import BlockAssemblySpec AssemblyLimits TemplateService TemplateSpec ResourceReplay.
From S2P Require Import Concrete ConcreteDa Witnesses DaWitnesses FcmWitnesses MempoolWitnesses.

(** ** The instances *)

#[export] Instance toy_assembly : AssemblyExt := {
  MAX_OL_LOGS_PER_CHECKPOINT := 16384;
  obc_is_null c := bool_decide (c = obc_null);
}.

#[export] Instance toy_limit_laws : LimitLaws toy_da toy_assembly.
Proof. by split. Qed.

#[export] Instance toy_codec_sizes : CodecSizes toy_codec.
Proof.
  split; simpl; intros x.
  all: try (intros bs; first [intros [= <-]|destruct (_ && _); intros [= <-]]; unfold zlen; simpl; lia).
  intros v bs Hx _. destruct (_ && _); intros [= <-]. unfold zlen. simpl. lia.
Qed.

Record ToyAssemblyNode := {
  tan_blocks : list OLBlock;
  tan_states : list (OLBlockCommitment * MemoryStateBaseLayer);
  tan_pool : list (OLTxId * OLTransaction);
  tan_manifests : list AsmManifest;
}.

#[export] Instance toy_assembly_context : BlockAssemblyContext ToyAssemblyNode MemoryStateBaseLayer := {
  ba_get_block_data c id := Ok (find_block id (tan_blocks c));
  ba_get_ol_header c id := Ok (blk_header <$> find_block id (tan_blocks c));
  ba_get_state_for_tip c tip := Some (find_state tip (tan_states c));
  ba_canonical_asm_height c := Ok (mf_height <$> last (tan_manifests c));
  ba_get_block_manifest_at_height c h := Ok (List.find (fun mf => mf_height mf =? h) (tan_manifests c));
  ba_generate_proofs_for_indices c _ claims _ := Ok (map (fun _ => tt : RawMerkleProof) claims);
  ba_generate_proofs_for c _ _ hashes _ := Ok (map (fun _ => tt : RawMerkleProof) hashes);
  ba_mempool_get_transactions c limit := Ok (take (Z.to_nat limit) (tan_pool c));
  ba_mempool_report_invalid _ c := (Ok tt, c);
  ba_system_time_millis _ := 2000;
  l1_reorg_safe_depth _ := 1;
}.

(** ** The first block *)

Definition res_or {E A} (d : A) (r : res E A) : A := match r with Ok a => a | _ => d end.

Lemma res_or_ok {E A} (d : A) (r : res E A) : is_ok r = true -> r = Ok (res_or d r).
Proof. by destruct r. Qed.

Lemma run_or_ok {E S A} (d : A) (p : res E A * S) : is_ok (fst p) = true -> p = (Ok (res_or d (fst p)), snd p).
Proof. by destruct p as [[] ?]. Qed.

Lemma dres_or_ok {E A} (d : A) (o : option (res E A)) : is_ok (default Panic o) = true -> o = Some (Ok (res_or d (default Panic o))).
Proof. by destruct o as [[]|]. Qed.

Definition node0 : ToyAssemblyNode := {|
  tan_blocks := [demo_genesis]; tan_states := [(demo_tip0, demo_mem)];
  tan_pool := [(compute_txid demo_update, demo_update); (compute_txid demo_gam, demo_gam)]; tan_manifests := demo_manifests |}.
Definition demo_policy : LimitAwareSealing FixedSlotSealing := LimitAwareSealing_new {| fss_slots_per_epoch := 10 |}.
Definition config0 : BlockGenerationConfig := {| bgc_parent_block_commitment := demo_tip0; bgc_ts := None |}.
Definition no_template : FullBlockTemplate := {| tpl_header := demo_no_header; tpl_body := OLBlockBody_new_common [] |}.

Definition demo_generated := generate_block_template_inner (S := MemoryStateBaseLayer) node0 demo_policy 10 config0 EpochResourceState_new_empty demo_bridge.
Definition no_result : BlockTemplateResult :=
  {| btr_template := no_template; btr_failed_txs := []; btr_resource_state := EpochResourceState_new_empty |}.
Definition demo_result : BlockTemplateResult := res_or no_result demo_generated.

Lemma demo_generates : demo_generated = Ok demo_result.
Proof. apply res_or_ok. vm_compute. reflexivity. Qed.

Lemma demo_parent_bounded : header_bounded demo_parent.
Proof. vm_compute. repeat split; discriminate. Qed.

Lemma toy_header_found (c : ToyAssemblyNode) id ph :
  ba_get_ol_header (S := MemoryStateBaseLayer) c id = Ok (Some ph) ->
  exists b, find_block id (tan_blocks c) = Some b /\ blk_header b = ph.
Proof. simpl. destruct (find_block id (tan_blocks c)) as [b|]; [|done]. simpl. intros [= <-]. by exists b. Qed.

Lemma find_block_all (P : OLBlock -> Prop) id l b : Forall P l -> find_block id l = Some b -> P b.
Proof.
  induction 1 as [|b0 l Hb Hl IH]; simpl; [done|]. destruct (_ =? _); [|done]. by intros [= <-].
Qed.

Lemma headers_bounded (c : ToyAssemblyNode) :
  Forall (fun b => header_bounded (blk_header b)) (tan_blocks c) ->
  forall id ph, ba_get_ol_header (S := MemoryStateBaseLayer) c id = Ok (Some ph) -> header_bounded ph.
Proof.
  intros Hall id ph H. apply toy_header_found in H as (b & Hb & <-). exact (find_block_all _ _ _ _ Hall Hb).
Qed.

Lemma node0_headers : Forall (fun b => header_bounded (blk_header b)) (tan_blocks node0).
Proof. constructor; [exact demo_parent_bounded|constructor]. Qed.

Lemma default_acc_bounded : acc_bounded EpochDaAccumulator_default.
Proof. split; [apply map_Forall_empty|done]. Qed.

(** Both transactions and both manifests are in the template. *)
Lemma generated_template_verifies_witness :
  exists offered post, template_verifies node0 config0 demo_mem offered EpochResourceState_new_empty demo_bridge
    (btr_template demo_result) post (btr_resource_state demo_result) /\
    zlen (default [] (body_tx_segment (tpl_body (btr_template demo_result)))) = 2 /\
    zlen (default [] (body_manifests (tpl_body (btr_template demo_result)))) = 2.
Proof.
  destruct (generated_template_verifies node0 demo_policy 10 config0 EpochResourceState_new_empty demo_bridge demo_mem demo_ledger demo_result)
    as (offered & post & _ & H).
  - vm_compute. reflexivity.
  - exact demo_refines.
  - exact demo_keys_ok.
  - exact default_acc_bounded.
  - vm_compute. discriminate.
  - exact (headers_bounded node0 node0_headers).
  - exact demo_generates.
  - exists offered, post. split; [exact H|]. split; vm_compute; reflexivity.
Defined.

(** ** The size of its DA data *)

Definition demo_acc : EpochDaAccumulator := add_accumulator (ers_da (btr_resource_state demo_result)).

Definition small_u64 (x : Z) : bool := (0 <=? x) && (x <=? U64_MAX).

Definition check_delta (d : AccountDelta) : bool :=
  small_u64 (adl_base_balance d) && small_u64 (adl_final_balance d) &&
  match adl_snark d with
  | Some sd =>
      small_u64 (ps_next_inbox_msg_idx (sdl_base_proof_state sd)) && small_u64 (ps_next_inbox_msg_idx (sdl_final_proof_state sd)) &&
      (zlen (dla_new_entries (sdl_inbox sd)) <=? U16_MAX) &&
      forallb (fun e => zlen (mp_data (dme_payload e)) <=? MAX_MSG_PAYLOAD_BYTES) (dla_new_entries (sdl_inbox sd))
  | None => true
  end.

Lemma small_u64_ok x : small_u64 x = true -> in_u64 x.
Proof. unfold small_u64, in_u64. intros H. zbool. lia. Qed.

Lemma check_delta_ok d : check_delta d = true -> delta_bounded d /\ delta_ranged d.
Proof.
  unfold check_delta, delta_bounded. intros H. apply andb_true_iff in H as [H Hs]. apply andb_true_iff in H as [H1 H2].
  apply small_u64_ok in H1, H2. destruct (adl_snark d) as [sd|] eqn:Hd; [|split; [done|]; split; [done..|by rewrite Hd]].
  apply andb_true_iff in Hs as [Hs Hf]. apply andb_true_iff in Hs as [Hs Hl]. apply andb_true_iff in Hs as [Hb Hn].
  apply small_u64_ok in Hb, Hn. apply Z.leb_le in Hl. split; [split; [done|]|split; [done..|rewrite Hd; by split]].
  apply Forall_forall. intros e He. apply Z.leb_le. rewrite forallb_forall in Hf. apply Hf. by apply list_elem_of_In.
Qed.

Lemma deltas_ok (c : EpochDaAccumulator) :
  forallb (fun p => check_delta p.2) (map_to_list (acc_account_deltas c)) = true ->
  map_Forall (fun _ d => delta_bounded d /\ delta_ranged d) (acc_account_deltas c).
Proof.
  intros H id d Hd. apply check_delta_ok. rewrite forallb_forall in H. apply (H (id, d)). apply list_elem_of_In.
  by apply elem_of_map_to_list.
Qed.

Lemma demo_deltas : map_Forall (fun _ d => delta_bounded d /\ delta_ranged d) (acc_account_deltas demo_acc).
Proof. apply deltas_ok. vm_compute. reflexivity. Qed.

Lemma demo_acc_bounded : acc_bounded demo_acc.
Proof. split; [intros id d Hd; by apply (demo_deltas id d)|vm_compute; reflexivity]. Qed.

Lemma demo_acc_ranged : acc_ranged demo_acc.
Proof. split; [vm_compute; repeat split; discriminate|intros id d Hd; by apply (demo_deltas id d)]. Qed.

Definition demo_finalized := finalize demo_mem demo_acc.
Definition demo_epoch_diff : StateDiff := res_or limbo_heavy_diff (fst demo_finalized).
Definition demo_encoded : bytes := res_or [] (encode payload_codec {| pl_state_diff := demo_epoch_diff |}).

Lemma demo_finalizes : finalize demo_mem demo_acc = (Ok demo_epoch_diff, snd demo_finalized).
Proof. apply (run_or_ok limbo_heavy_diff demo_finalized). vm_compute. reflexivity. Qed.

Lemma demo_encodes : encode payload_codec {| pl_state_diff := demo_epoch_diff |} = Ok demo_encoded.
Proof. apply res_or_ok. vm_compute. reflexivity. Qed.

Lemma estimated_size_bounds_witness :
  zlen demo_encoded <= estimated_encoded_size demo_acc /\ encode_payload demo_epoch_diff = Ok demo_encoded.
Proof.
  destruct (estimated_size_bounds demo_mem demo_acc demo_epoch_diff (snd demo_finalized) demo_encoded demo_acc_ranged demo_acc_bounded
    demo_finalizes demo_encodes) as (_ & H2 & H3).
  split; [apply H2|apply H3]; vm_compute; reflexivity.
Defined.

(** ** Limits *)

Lemma demo_below : epoch_below EpochResourceState_new_empty.
Proof. vm_compute. repeat split; discriminate. Qed.

Lemma demo_open : epoch_open EpochResourceState_new_empty.
Proof. vm_compute. split; reflexivity. Qed.

Definition demo_constructed :=
  construct_block (S := MemoryStateBaseLayer) node0 demo_policy config0 demo_mem 1 1 (tan_pool node0) EpochResourceState_new_empty demo_bridge.
Definition no_output : BlockAssembly.ConstructBlockOutput (S := MemoryStateBaseLayer) :=
  {| cbo_template := no_template; cbo_failed_txs := []; cbo_post_state := demo_mem; cbo_resource_state := EpochResourceState_new_empty |}.
Definition demo_output : BlockAssembly.ConstructBlockOutput (S := MemoryStateBaseLayer) := res_or no_output demo_constructed.

Lemma demo_constructs : demo_constructed = Ok demo_output.
Proof. apply res_or_ok. vm_compute. reflexivity. Qed.

Lemma assembled_epoch_limits_witness :
  epoch_below (cbo_resource_state demo_output) /\ epoch_open (cbo_resource_state demo_output).
Proof.
  destruct (assembled_epoch_limits demo_policy eq_refl node0 config0 demo_mem 1 1 (tan_pool node0) EpochResourceState_new_empty demo_bridge demo_output)
    as [H1 H2].
  - vm_compute. discriminate.
  - exact demo_below.
  - exact demo_constructs.
  - split; [exact H1|]. apply H2; [exact demo_open|vm_compute; reflexivity].
Defined.

(** ** The second block *)

Definition blockA : OLBlock := complete_block_template (cbo_template demo_output) 0.
Definition headerA : OLBlockHeader := blk_header blockA.
Definition memA : MemoryStateBaseLayer := cbo_post_state demo_output.
Definition node1 : ToyAssemblyNode := {|
  tan_blocks := [blockA; demo_genesis]; tan_states := [(compute_block_commitment headerA, memA); (demo_tip0, demo_mem)];
  tan_pool := []; tan_manifests := demo_manifests |}.
Definition config1 : BlockGenerationConfig := {| bgc_parent_block_commitment := compute_block_commitment headerA; bgc_ts := None |}.

Definition demo_rebuilt := rebuild_epoch_resource_state_upto (S := MemoryStateBaseLayer) 5 (compute_block_commitment headerA) 1 demo_bridge node1.
Definition rsA : EpochResourceState := res_or EpochResourceState_new_empty (default Panic demo_rebuilt).

Lemma demo_rebuilds : demo_rebuilt = Some (Ok rsA).
Proof. apply dres_or_ok. vm_compute. reflexivity. Qed.

Definition demo_constructed2 :=
  construct_block (S := MemoryStateBaseLayer) node1 demo_policy config1 memA 2 1 [] rsA demo_bridge.
Definition demo_output2 : BlockAssembly.ConstructBlockOutput (S := MemoryStateBaseLayer) := res_or no_output demo_constructed2.

Lemma demo_constructs2 : demo_constructed2 = Ok demo_output2.
Proof. apply res_or_ok. vm_compute. reflexivity. Qed.

Definition blockB : OLBlock := complete_block_template (cbo_template demo_output2) 0.
Definition node2 : ToyAssemblyNode := {|
  tan_blocks := [blockB; blockA; demo_genesis]; tan_states := tan_states node1; tan_pool := []; tan_manifests := demo_manifests |}.

(** *** The storage of the second node *)

Definition demo_replayedA := verify_block_predrain headerA (Some demo_parent) (blk_body blockA) demo_bridge (DaAccumulatingState_new demo_mem).

Lemma demo_replayedA_ok :
  verify_block_predrain headerA (Some demo_parent) (blk_body blockA) demo_bridge (DaAccumulatingState_new demo_mem)
    = (Ok (res_or [] (fst demo_replayedA)), snd demo_replayedA).
Proof. apply (run_or_ok [] demo_replayedA). vm_compute. reflexivity. Qed.

Lemma demo_replayedA_state : das_inner (snd demo_replayedA) = memA.
Proof. vm_compute. reflexivity. Qed.

Lemma memA_ledger : exists a, mem_refines memA a /\ keys_ok a.
Proof.
  pose proof (da_predrain_sim mem_refines eq eq False demo_ledger) as Hsim.
  pose proof (verify_block_predrain_sim (da_refines mem_refines False demo_ledger) headerA (Some demo_parent) (blk_body blockA) demo_bridge) as Hs.
  pose proof (da_refines_new mem_refines False demo_mem demo_ledger demo_refines demo_keys_ok) as Hr.
  destruct (sim_run _ _ _ _ _ _ _ Hs Hr demo_replayedA_ok) as (a & _ & [H1 _ _ H4 _ _]); [discriminate|].
  rewrite demo_replayedA_state in H1. exists a. split; [exact H1|exact H4].
Qed.

Lemma find_block_grown b l id b' :
  find_block (compute_blkid (blk_header b)) l = None -> find_block id l = Some b' -> find_block id (b :: l) = Some b'.
Proof.
  intros Hn Hf. cbn [find_block]. destruct (compute_blkid (blk_header b) =? id) eqn:E; [|exact Hf].
  apply Z.eqb_eq in E as <-. rewrite Hn in Hf. discriminate Hf.
Qed.

Lemma find_block_head b l : find_block (compute_blkid (blk_header b)) (b :: l) = Some b.
Proof. cbn [find_block]. by rewrite Z.eqb_refl. Qed.

Lemma find_block_none2 id b1 b2 :
  (compute_blkid (blk_header b1) =? id) = false -> (compute_blkid (blk_header b2) =? id) = false -> find_block id [b1; b2] = None.
Proof. intros H1 H2. cbn [find_block]. by rewrite H1, H2. Qed.

Lemma toy_knows (c c' : ToyAssemblyNode) b :
  tan_blocks c' = b :: tan_blocks c -> tan_states c' = tan_states c ->
  find_block (compute_blkid (blk_header b)) (tan_blocks c) = None -> knows c c'.
Proof.
  intros Hb Hs Hn. split; intros ??; cbn [ba_get_block_data ba_get_ol_header ba_get_state_for_tip toy_assembly_context]; rewrite ?Hb, ?Hs.
  - intros [= Hf]. by rewrite (find_block_grown _ _ _ _ Hn Hf).
  - destruct (find_block id (tan_blocks c)) as [b'|] eqn:Hf; [|done]. by rewrite (find_block_grown _ _ _ _ Hn Hf).
  - done.
Qed.

(** A walk of one block. *)
Lemma collects_one (c : ToyAssemblyNode) fuel id b g epoch :
  find_block id (tan_blocks c) = Some b -> hdr_epoch (blk_header b) = epoch ->
  find_block (hdr_parent_blkid (blk_header b)) (tan_blocks c) = Some g ->
  (hdr_epoch (blk_header g) =? epoch) = false ->
  hdr_is_terminal (blk_header g) = true -> (hdr_epoch (blk_header g) =? wrap_u32 (epoch - 1)) = true -> epoch <> 0 ->
  collect_epoch_blocks_until (S := MemoryStateBaseLayer) (Datatypes.S fuel) id epoch c
    = Some (Ok {| eb_blocks := [b]; eb_epoch_parent := blk_header g |}).
Proof.
  intros Hb He Hg Hne Ht Hp H0. unfold collect_epoch_blocks_until. rewrite (proj2 (Z.eqb_neq epoch 0)) by done. cbn [collect_until].
  unfold fetch_ol_block, fetch_ol_header. cbn [ba_get_block_data ba_get_ol_header toy_assembly_context res_map_err]. rewrite Hb.
  cbn [dbind ok_or]. rewrite He, Z.eqb_refl. cbn [negb]. rewrite Hg. cbn [fmap option_fmap option_map res_map_err dbind ok_or].
  rewrite Hne. unfold ensure_epoch_boundary. rewrite Ht, Hp. reflexivity.
Qed.

Lemma blockA_new : find_block (compute_blkid headerA) [demo_genesis] = None.
Proof. cbn [find_block]. replace (_ =? _) with false by (symmetry; vm_compute; reflexivity). reflexivity. Qed.

Lemma blockA_epoch : hdr_epoch headerA = 1.
Proof. vm_compute. reflexivity. Qed.

Lemma blockA_parent : hdr_parent_blkid headerA = compute_blkid (blk_header demo_genesis).
Proof. vm_compute. reflexivity. Qed.

Lemma node1_collects :
  collect_epoch_blocks_until (S := MemoryStateBaseLayer) 5 (compute_blkid headerA) (hdr_epoch headerA) node1
  = Some (Ok {| eb_blocks := [blockA]; eb_epoch_parent := demo_parent |}).
Proof.
  apply (collects_one node1 4 (compute_blkid headerA) blockA demo_genesis).
  - apply find_block_head.
  - reflexivity.
  - unfold node1. cbn [tan_blocks]. fold headerA. rewrite blockA_parent. apply find_block_grown; [exact blockA_new|apply find_block_head].
  - vm_compute. reflexivity.
  - vm_compute. reflexivity.
  - vm_compute. reflexivity.
  - vm_compute. discriminate.
Qed.

Lemma node1_state0 : fetch_state demo_parent node1 = Ok demo_mem.
Proof.
  unfold fetch_state, fetch_state_for_tip. cbn [ba_get_state_for_tip toy_assembly_context tan_states node1 find_state].
  replace (bool_decide _) with false by (symmetry; vm_compute; reflexivity).
  replace (bool_decide _) with true by (symmetry; vm_compute; reflexivity). reflexivity.
Qed.

Lemma node1_state1 : ba_get_state_for_tip node1 (compute_block_commitment headerA) = Some (Some memA).
Proof.
  cbn [ba_get_state_for_tip toy_assembly_context tan_states node1 find_state].
  by rewrite (bool_decide_eq_true_2 _ (eq_refl (compute_block_commitment headerA))).
Qed.

Lemma find_state_all {S} (P : S -> Prop) tip l s : Forall (fun p => P (snd p)) l -> find_state tip l = Some s -> P s.
Proof.
  induction 1 as [|[c s0] l Hs Hl IH]; [discriminate|]. cbn [find_state].
  destruct (bool_decide (c = tip)); [intros H; injection H as <-; exact Hs|exact IH].
Qed.

Lemma toy_state_found (c : ToyAssemblyNode) (P : MemoryStateBaseLayer -> Prop) tip s :
  Forall (fun p => P (snd p)) (tan_states c) -> ba_get_state_for_tip c tip = Some (Some s) -> P s.
Proof. intros Hall H. injection H as H. exact (find_state_all P tip (tan_states c) s Hall H). Qed.

(** A replay of one block ends where its predrain verification does. *)
Lemma replays_one b ph bp (d : DaAccumulatingState MemoryStateBaseLayer) logs logs' d' d1 :
  verify_block_predrain (blk_header b) (Some ph) (blk_body b) bp d = (Ok logs, d1) ->
  execute_block_batch_predrain [b] ph bp d = (Ok logs', d') -> d' = d1.
Proof.
  intros Hv Hx. cbn [execute_block_batch_predrain] in Hx. unfold mbind at 1 in Hx. rewrite Hv in Hx.
  cbn in Hx. by injection Hx as _ <-.
Qed.

Lemma ok_same {E A} (r : res E A) a b : r = Ok a -> r = Ok b -> a = b.
Proof. congruence. Qed.

Lemma some_ok_same {E A} (o : option (res E A)) a b : o = Some (Ok a) -> o = Some (Ok b) -> a = b.
Proof. congruence. Qed.

Lemma toy_block_head (c : ToyAssemblyNode) b l :
  tan_blocks c = b :: l -> ba_get_block_data (S := MemoryStateBaseLayer) c (compute_blkid (blk_header b)) = Ok (Some b).
Proof. intros Hc. cbn [ba_get_block_data toy_assembly_context]. by rewrite Hc, find_block_head. Qed.

Lemma toy_header_head (c : ToyAssemblyNode) b l :
  tan_blocks c = b :: l -> ba_get_ol_header (S := MemoryStateBaseLayer) c (compute_blkid (blk_header b)) = Ok (Some (blk_header b)).
Proof. intros Hc. cbn [ba_get_ol_header toy_assembly_context]. by rewrite Hc, find_block_head. Qed.

Lemma toy_block_same (c : ToyAssemblyNode) b l b' :
  tan_blocks c = b :: l -> ba_get_block_data (S := MemoryStateBaseLayer) c (compute_blkid (blk_header b)) = Ok (Some b') -> b' = b.
Proof. intros Hc Hb. rewrite (toy_block_head _ _ _ Hc) in Hb. by injection Hb as <-. Qed.

Lemma node1_stored : stored_parent 5 node1 demo_bridge headerA memA.
Proof.
  split.
  - exact (toy_header_head node1 blockA [demo_genesis] eq_refl).
  - intros b H. rewrite (toy_block_same node1 blockA [demo_genesis] b eq_refl H). reflexivity.
  - exact node1_state1.
  - intros eb m0 logs d Hc Hf Hx. pose proof (some_ok_same _ _ _ node1_collects Hc) as <-. cbn [eb_blocks eb_epoch_parent] in *.
    pose proof (ok_same _ _ _ node1_state0 Hf) as <-.
    rewrite (replays_one _ _ _ _ _ _ _ _ demo_replayedA_ok Hx). exact demo_replayedA_state.
  - intros tip s. apply (toy_state_found node1 (fun s => exists a, mem_refines s a /\ keys_ok a)).
    constructor; [exact memA_ledger|]. constructor; [exists demo_ledger; split; [exact demo_refines|exact demo_keys_ok]|constructor].
Qed.

Lemma node1_headers : Forall (fun b => header_bounded (blk_header b)) (tan_blocks node1).
Proof. constructor; [vm_compute; repeat split; discriminate|exact node0_headers]. Qed.

Lemma blockB_new : find_block (compute_blkid (blk_header blockB)) (tan_blocks node1) = None.
Proof.
  assert (HA : (compute_blkid (blk_header blockA) =? compute_blkid (blk_header blockB)) = false) by (vm_compute; reflexivity).
  assert (HG : (compute_blkid (blk_header demo_genesis) =? compute_blkid (blk_header blockB)) = false) by (vm_compute; reflexivity).
  exact (find_block_none2 _ _ _ HA HG).
Qed.

(** The second block of the epoch: its resources are those of both blocks. *)
Lemma threaded_resources_rebuilt_witness :
  rebuild_epoch_resource_state_upto (S := MemoryStateBaseLayer) 6 (compute_block_commitment (blk_header blockB)) 1 demo_bridge node2
    = Some (Ok (cbo_resource_state demo_output2)).
Proof.
  apply (threaded_resources_rebuilt 5 node1 node2 demo_policy config1 headerA memA 2 1 [] rsA demo_bridge demo_output2 0).
  - reflexivity.
  - exact node1_stored.
  - discriminate.
  - exact (headers_bounded node1 node1_headers).
  - unfold resources_at. replace (hdr_is_terminal headerA) with false by (symmetry; vm_compute; reflexivity).
    rewrite blockA_epoch. exact demo_rebuilds.
  - exact demo_constructs2.
  - exact (toy_knows node1 node2 blockB eq_refl eq_refl blockB_new).
  - exact (toy_block_head node2 blockB (tan_blocks node1) eq_refl).
Defined.

(** ** The service *)

Abbreviation demo_svc_state := (BlockasmServiceState (P := LimitAwareSealing FixedSlotSealing) (C := ToyAssemblyNode)) (only parsing).

Definition some_or {A} (d : A) (o : option A) : A := match o with Some a => a | None => d end.
Definition is_some {A} (o : option A) : bool := match o with Some _ => true | None => false end.

Lemma some_or_ok {A B} (d : A * B) (o : option (A * B)) : is_some o = true -> o = Some (fst (some_or d o), snd (some_or d o)).
Proof. by destruct o as [[]|]. Qed.

Lemma some_or_some {A} (d : A) (o : option A) : is_some o = true -> o = Some (some_or d o).
Proof. by destruct o. Qed.

Lemma toy_binds_parent : blkid_binds_parent.
Proof. intros h h' H. by rewrite <- !toy_blkid_parent, H. Qed.

Definition demo_clock (t : Z) : Clock := {| ck_cleanup := t; ck_lookup := t + 1; ck_insert := t + 2; ck_insert_cleanup := t + 3 |}.
Definition svc0 : demo_svc_state := BlockasmServiceState_new demo_bridge 10 60 (1 : Z) node0 demo_policy.

(** A template is built, handed out again, and signed. *)
Definition demo_cmds : list (Clock * BlockasmCommand) := [
  (demo_clock 0, GenerateBlockTemplate config0);
  (demo_clock 10, GetBlockTemplate (obc_blkid demo_tip0));
  (demo_clock 20, CompleteBlockTemplate (compute_blkid headerA) 0)].
Definition svc_run1 : option (list BlockasmReply * demo_svc_state) := svc_run (S := MemoryStateBaseLayer) 5 demo_cmds svc0.
Definition svc_ran : list BlockasmReply * demo_svc_state := some_or ([], svc0) svc_run1.
Definition svc1 : demo_svc_state := snd svc_ran.

Lemma svc_runs : svc_run1 = Some (fst svc_ran, svc1).
Proof.
  assert (H : is_some svc_run1 = true) by (vm_compute; reflexivity). unfold svc1, svc_ran. exact (some_or_ok ([], svc0) svc_run1 H).
Qed.

Definition reply_ok (r : BlockasmReply) : bool :=
  match r with ReplyTemplate r => is_ok r | ReplyBlock r => is_ok r | ReplyReleased _ => true | ReplyRecorded r => is_ok r end.

Lemma template_cache_invariant_witness :
  service_ok svc1 /\ size (bas_pending_templates (bss_state svc1)) = 1%nat /\ map reply_ok (fst svc_ran) = [true; true; true].
Proof.
  destruct (template_cache_invariant (S := MemoryStateBaseLayer) toy_binds_parent 5 demo_cmds demo_bridge 10 60 (1 : Z) node0 demo_policy
    (fst svc_ran) svc1 svc_runs) as [H _].
  split; [exact H|]. split; vm_compute; reflexivity.
Defined.

(** Its block is persisted; afterwards the parent is asked for again. *)
Definition svc_recorded := svc_record_persisted_block (compute_blkid headerA) svc1.
Definition svc2 : demo_svc_state := snd svc_recorded.
Definition demo_cached : CachedTemplate :=
  some_or {| ct_template := no_template; ct_created_at := 0 |} (bas_pending_templates (bss_state svc1) !! compute_blkid headerA).
Definition demo_cmds2 : list (Clock * BlockasmCommand) := [
  (demo_clock 30, GenerateBlockTemplate config0); (demo_clock 40, GetBlockTemplate (obc_blkid demo_tip0))].
Definition svc_run2 : option (list BlockasmReply * demo_svc_state) := svc_run (S := MemoryStateBaseLayer) 5 demo_cmds2 svc2.
Definition svc_ran2 : list BlockasmReply * demo_svc_state := some_or ([], svc0) svc_run2.

Lemma svc_runs2 : svc_run2 = Some (fst svc_ran2, snd svc_ran2).
Proof.
  assert (H : is_some svc_run2 = true) by (vm_compute; reflexivity). unfold svc_ran2. exact (some_or_ok ([], svc0) svc_run2 H).
Qed.

Lemma svc0_ok : service_ok svc0.
Proof. split; [apply cache_ok_new|]. intros id [x Hx]. cbn in Hx. by rewrite lookup_empty in Hx. Qed.

Lemma unit_ok {E S} (p : res E unit * S) : is_ok (fst p) = true -> p = (Ok tt, snd p).
Proof. by destruct p as [[[]| |] s]. Qed.

Lemma svc_records : svc_recorded = (Ok tt, svc2).
Proof. apply (unit_ok svc_recorded). vm_compute. reflexivity. Qed.

Lemma persisted_parent_not_reused_witness :
  Forall (fun r => reply_parent r <> Some (tpl_parent (ct_template demo_cached))) (fst svc_ran2) /\ length (fst svc_ran2) = 2%nat.
Proof.
  destruct (persisted_parent_not_reused (S := MemoryStateBaseLayer) toy_binds_parent 5 (compute_blkid headerA) svc1 svc2 (snd svc_ran2)
    demo_cached demo_cmds2 (fst svc_ran2)) as [H _].
  - exact (proj1 (svc_run_steps (S := MemoryStateBaseLayer) toy_binds_parent 5 demo_cmds svc0 svc1 (fst svc_ran) svc0_ok svc_runs)).
  - apply some_or_some. vm_compute. reflexivity.
  - exact svc_records.
  - constructor; [vm_compute; reflexivity|]. constructor; [exact I|constructor].
  - exact svc_runs2.
  - split; [exact H|]. vm_compute. reflexivity.
Defined.
