(* ===== verification/EeWitnesses.v ===== *)
(** * Witnesses for execution environments

    A toy environment whose state is a balance: a block adds its deposits and pays
    out its body.  A header carries its parent in the high and the state root in the
    low digits.  A chunk proof is the private input of the chunk, checked by running
    the chunk statement on it, so that proofs are sound.  The scenario is an account
    that takes two deposits and executes one chunk for the first of them and one
    that pays out. *)

From S2P Require Import Prelude Identifiers AcctTypes ChainTypes Externals CodecTypes.
From S2P Require Import SnarkRuntime EeRuntime EeSpec Concrete ConcreteDa Witnesses.

(** ** Encodings *)

Definition ser_deposit : Ser SubjectDepositData.
Proof.
  refine (ser_iso (fun d => (sdd_dest d, sdd_value d)) (fun p => {| sdd_dest := fst p; sdd_value := snd p |}) _ (ser_pair ser_z ser_z)).
  by intros [].
Defined.
Definition ser_exec_inputs : Ser ExecInputs.
Proof. refine (ser_iso ei_subject_deposits (fun l => {| ei_subject_deposits := l |}) _ (ser_list ser_deposit)). by intros []. Defined.
Definition ser_exec_transfer : Ser ExecOutputTransfer.
Proof.
  refine (ser_iso (fun t => (eot_dest t, eot_value t)) (fun p => {| eot_dest := fst p; eot_value := snd p |}) _ (ser_pair ser_z ser_z)).
  by intros [].
Defined.
Definition ser_exec_message : Ser ExecOutputMessage.
Proof.
  refine (ser_iso (fun m => (eom_dest m, eom_payload m)) (fun p => {| eom_dest := fst p; eom_payload := snd p |}) _ (ser_pair ser_z ser_payload)).
  by intros [].
Defined.
Definition ser_exec_outputs : Ser ExecOutputs.
Proof.
  refine (ser_iso (fun o => (eo_output_transfers o, eo_output_messages o))
    (fun p => {| eo_output_transfers := fst p; eo_output_messages := snd p |}) _ (ser_pair (ser_list ser_exec_transfer) (ser_list ser_exec_message))).
  by intros [].
Defined.
Definition ser_summary : Ser ExecHeaderSummary.
Proof. refine (ser_iso ehs_opaque_bytes (fun l => {| ehs_opaque_bytes := l |}) _ (ser_list ser_z)). by intros []. Defined.
Definition ser_transition : Ser ChunkTransition.
Proof.
  refine (ser_iso (fun t => (ct_parent_exec_blkid t, (ct_tip_exec_blkid t, (ct_tip_state_root t, (ct_tip_exec_header_summary t, (ct_inputs t, ct_outputs t))))))
    (fun '(a, (b, (c, (d, (e, f))))) => {| ct_parent_exec_blkid := a; ct_tip_exec_blkid := b; ct_tip_state_root := c;
       ct_tip_exec_header_summary := d; ct_inputs := e; ct_outputs := f |}) _
    (ser_pair ser_z (ser_pair ser_z (ser_pair ser_z (ser_pair ser_summary (ser_pair ser_exec_inputs ser_exec_outputs)))))).
  by intros [].
Defined.
Definition ser_pending : Ser PendingInputEntry.
Proof. refine (ser_iso (fun '(PendDeposit d) => d) PendDeposit _ ser_deposit). by intros []. Defined.
Definition ser_fincl : Ser PendingFinclEntry.
Proof.
  refine (ser_iso (fun t => (pf_epoch t, pf_raw_tx_hash t)) (fun p => {| pf_epoch := fst p; pf_raw_tx_hash := snd p |}) _ (ser_pair ser_z ser_z)).
  by intros [].
Defined.
Definition ser_ee_state : Ser EeAccountState.
Proof.
  refine (ser_iso (fun s => (ee_last_exec_blkid s, (ee_last_exec_state_root s, (ee_pending_inputs s, ee_pending_fincls s))))
    (fun '(a, (b, (c, d))) => {| ee_last_exec_blkid := a; ee_last_exec_state_root := b; ee_pending_inputs := c; ee_pending_fincls := d |}) _
    (ser_pair ser_z (ser_pair ser_z (ser_pair (ser_list ser_pending) (ser_list ser_fincl))))).
  by intros [].
Defined.
Definition ser_raw_block : Ser RawBlockData.
Proof.
  refine (ser_iso (fun b => (rbd_raw_block b, (rbd_exec_inputs_ssz b, rbd_exec_outputs_ssz b)))
    (fun p => {| rbd_raw_block := fst p; rbd_exec_inputs_ssz := fst (snd p); rbd_exec_outputs_ssz := snd (snd p) |}) _
    (ser_pair (ser_list ser_z) (ser_pair (ser_list ser_z) (ser_list ser_z)))).
  by intros [].
Defined.
Definition ser_chunk_input : Ser ChunkPrivateInput.
Proof.
  refine (ser_iso (fun i => (cpi_chunk_transition_ssz i, (rcd_blocks (cpi_raw_chunk i), (rcd_prev_exec_blkid (cpi_raw_chunk i),
      (cpi_raw_prev_header i, cpi_raw_partial_pre_state i)))))
    (fun '(a, (b, (c, (d, e)))) => {| cpi_chunk_transition_ssz := a; cpi_raw_chunk := {| rcd_blocks := b; rcd_prev_exec_blkid := c |};
       cpi_raw_prev_header := d; cpi_raw_partial_pre_state := e |}) _
    (ser_pair (ser_list ser_z) (ser_pair (ser_list ser_raw_block) (ser_pair ser_z (ser_pair (ser_list ser_z) (ser_list ser_z)))))).
  by intros [? []].
Defined.

Definition codec_of_ser {A} (c : Ser A) : CodecOf A := {|
  encode x := Ok (ser c x);
  decode l := match par c l with Some (x, l') => (Ok x, l') | None => (Err tt, l) end |}.

Definition toy_state_bounded (s : EeAccountState) : bool :=
  (zlen (ee_pending_inputs s) <=? MAX_PENDING_INPUTS) && (zlen (ee_pending_fincls s) <=? MAX_PENDING_FINCLS).

#[export] Instance toy_ee_encodings : EeExt := {
  predicate_key_eqb := Z.eqb;
  subject_id_codec := toy_any_codec;
  transfer_data_codec := codec_of_ser (ser_list ser_z);
  chunk_transition_as_ssz_bytes := ser ser_transition;
  chunk_transition_from_ssz_bytes := parse_all ser_transition;
  exec_inputs_as_ssz_bytes := ser ser_exec_inputs;
  exec_inputs_from_ssz_bytes := parse_all ser_exec_inputs;
  exec_outputs_as_ssz_bytes := ser ser_exec_outputs;
  exec_outputs_from_ssz_bytes := parse_all ser_exec_outputs;
  ee_state_as_ssz_bytes := ser ser_ee_state;
  ee_state_from_ssz_bytes b := match parse_all ser_ee_state b with
    | Some s => if toy_state_bounded s then Some s else None
    | None => None
    end;
  ee_state_tree_hash_root s := toy_hash (ser ser_ee_state s);
}.

#[export] Instance toy_ee_laws : EeLaws toy_ee_encodings.
Proof.
  split.
  - intros ct. exact (parse_all_ser ser_transition ct).
  - intros s [H1 H2]. cbv [ee_state_from_ssz_bytes ee_state_as_ssz_bytes toy_ee_encodings]. rewrite parse_all_ser. unfold toy_state_bounded.
    by rewrite (proj2 (Z.leb_le _ _) H1), (proj2 (Z.leb_le _ _) H2).
  - intros b s. simpl. destruct (parse_all _ _) as [s'|]; [|done]. destruct (toy_state_bounded s') eqn:Hb; [|done]. intros [= <-].
    unfold toy_state_bounded in Hb. zbool. done.
Qed.

(** ** The environment *)

Definition BASE : Z := 2 ^ 20.

#[export] Instance toy_env : ExecutionEnvironment unit := {
  PartialState := Z;
  Block := Z * list (Z * Z);
  Header := Z;
  Body := list (Z * Z);
  Intrinsics := Z;
  WriteBatch := Z;
  BlockOutput := unit;
  partial_state_codec := toy_any_codec;
  partial_state_root st := Ok st;
  header_codec := toy_any_codec;
  get_intrinsics h := h;
  get_parent_id h := h / BASE;
  get_state_root h := h mod BASE;
  get_exec_header_summary h := {| ehs_opaque_bytes := [h mod 256] |};
  compute_block_id h := h;
  block_codec := codec_of_ser (ser_pair ser_z (ser_list (ser_pair ser_z ser_z)));
  get_header := fst;
  get_body := snd;
  check_header_matches_body h body := 0 <=? h;
  execute_block_body _ st p inputs :=
    let total := st + zsum (map sdd_value (ei_subject_deposits inputs)) - zsum (map snd (snd p)) in
    if total <? 0 then Err EnvInvalidBlock
    else Ok {| ebo_write_batch := total; ebo_block_output := tt;
               ebo_outputs := {| eo_output_transfers := map (fun t => {| eot_dest := fst t; eot_value := snd t |}) (snd p);
                                 eo_output_messages := [] |} |};
  verify_outputs_against_header _ _ _ := Ok tt;
  merge_write_into_state _ wb := mmodify (fun _ => wb);
  update_partial_state_after_block _ _ := mret tt;
}.

#[export] Instance toy_block_id_inj : Inj (=) (=) (compute_block_id (E := unit)).
Proof. by intros h h'. Qed.

(** ** Chunk proofs *)

Definition chunk_key : Z := 77.
Definition chunk_pred : PredicateKey (ExtTypes := toy_types) := chunk_key.

Definition toy_verify_chunk (key : Z) (claim proof : list Z) : bool :=
  if key =? chunk_key then
    match parse_all ser_chunk_input proof with
    | Some input => bool_decide (cpi_chunk_transition_ssz input = claim) && is_ok (verify_input tt input)
    | None => false
    end
  else false.

#[export] Instance ee_ext : Ext := toy_ext_with toy_verify_chunk.

#[export] Instance toy_runtime : RuntimeExt := { pub_params_from_ssz_bytes := parse_all ser_pub_params }.

#[export] Instance toy_runtime_laws : RuntimeLaws ee_ext toy_runtime.
Proof. split. intros u. exact (parse_all_ser ser_pub_params u). Qed.

Lemma toy_proofs_sound : chunk_proofs_sound tt chunk_pred.
Proof.
  intros claim proof. simpl. unfold toy_verify_chunk. simpl. destruct (parse_all _ _) as [input|]; [|done].
  intros [Hc Hv]%andb_true_iff. exists input. apply bool_decide_eq_true in Hc. split; [done|].
  destruct (verify_input _ _) as [[]| |]; done.
Qed.

(** ** The scenario *)

Definition ee_start : EeAccountState :=
  {| ee_last_exec_blkid := 0; ee_last_exec_state_root := 0; ee_pending_inputs := []; ee_pending_fincls := [] |}.

Definition ee_snark : SnarkAccountState := {|
  sa_update_vk := []; sa_proof_state := {| ps_inner_state := ee_state_tree_hash_root ee_start; ps_next_inbox_msg_idx := 4 |};
  sa_seq_no := 3; sa_inbox_mmr := [] |}.

Definition deposit_entry (subject value : Z) : MessageEntry := {|
  me_source := 1; me_incl_epoch := 2; me_payload := {| mp_value := value; mp_data := [DEPOSIT_MSG_TYPE; subject] |} |}.

Definition no_outputs : ExecOutputs := {| eo_output_transfers := []; eo_output_messages := [] |}.
Definition pay_out : ExecOutputs := {| eo_output_transfers := [{| eot_dest := 300; eot_value := 2 |}]; eo_output_messages := [] |}.
Definition take_in : ExecInputs := {| ei_subject_deposits := [{| sdd_dest := 7; sdd_value := 5 |}] |}.
Definition no_inputs : ExecInputs := {| ei_subject_deposits := [] |}.

(** The first block takes five in, the second pays two out. *)
Definition block1 : Z * list (Z * Z) := (5, []).
Definition block2 : Z * list (Z * Z) := (5 * BASE + 3, [(300, 2)]).

Definition chunk1 : ChunkTransition := {|
  ct_parent_exec_blkid := 0; ct_tip_exec_blkid := 5; ct_tip_state_root := 5;
  ct_tip_exec_header_summary := {| ehs_opaque_bytes := [5] |}; ct_inputs := take_in; ct_outputs := no_outputs |}.
Definition chunk2 : ChunkTransition := {|
  ct_parent_exec_blkid := 5; ct_tip_exec_blkid := 5 * BASE + 3; ct_tip_state_root := 3;
  ct_tip_exec_header_summary := {| ehs_opaque_bytes := [3] |}; ct_inputs := no_inputs; ct_outputs := pay_out |}.

Definition prove_chunk (ct : ChunkTransition) (block : Z * list (Z * Z)) (prev_header pre_state : Z) : bytes :=
  ser ser_chunk_input (ChunkPrivateInput_new ct
    {| rcd_blocks := [RawBlockData_new (ser (ser_pair ser_z (ser_list (ser_pair ser_z ser_z))) block) (ct_inputs ct) (ct_outputs ct)];
       rcd_prev_exec_blkid := ct_parent_exec_blkid ct |} [prev_header] [pre_state]).

Definition proof1 : bytes := prove_chunk chunk1 block1 0 0.
Definition proof2 : bytes := prove_chunk chunk2 block2 5 5.

Definition chunk_vinput (chunks : list ChunkInput) : EeVerificationInput (E := unit) := {|
  evi_ee := tt; evi_chunk_predicate_key := chunk_pred; evi_input_chunks := chunks; evi_raw_partial_pre_state := [] |}.


Definition get_ok {E A} (d : A) (r : res E A) : A := match r with Ok x => x | _ => d end.
Lemma get_ok_ok {E A} (d : A) (r : res E A) : is_ok r = true -> r = Ok (get_ok d r).
Proof. by destruct r. Qed.

Lemma ran_ok {E S} (p : res E unit * S) : is_ok (fst p) = true -> p = (Ok tt, snd p).
Proof. by destruct p as [[[]| |] s]. Qed.

(** A builder as it is created. *)
Definition generic_start (vinput : EeVerificationInput (E := unit)) : UpdateBuilder (P := EeSnarkAccountProgram unit) := {|
  ub_program := EeProgram; ub_snark_state := ee_snark; ub_pre_state := ee_start; ub_cur_state := ee_start;
  ub_vstate := evs_new_from_state tt chunk_pred ee_start UpdateOutputs_new_empty (evi_input_chunks vinput) [];
  ub_messages := []; ub_coinputs := []; ub_next_msg_idx := 0; ub_ledger_refs := {| lr_l1_block_refs := [] |};
  ub_outputs := UpdateOutputs_new_empty; ub_override_seq_no := None |}.

Definition ee_builder (vinput : EeVerificationInput (E := unit)) : EeUpdateBuilder (E := unit) := {|
  eub_inner := generic_start vinput; eub_cur_tip_blkid := 0; eub_cur_tip_state_root := 0; eub_pending_inputs := [];
  eub_inputs_consumed := 0; eub_fincls_processed := 0 |}.

Definition ee_ops : list ee_op :=
  [EeOpAddMessages [deposit_entry 7 5]; EeOpAcceptChunk chunk1; EeOpAddMessages [deposit_entry 8 6]; EeOpAcceptChunk chunk2;
   EeOpOverrideSeqNo (Some 9)].

Definition ee_built : EeUpdateBuilder (E := unit) := snd (miter run_ee_op ee_ops (ee_builder (chunk_vinput []))).
Definition no_op : UpdateOperationData := {|
  uod_input := {| uid_seq_no := 0; uid_messages := [];
                  uid_update_state := {| usd_proof_state := {| ps_inner_state := 0; ps_next_inbox_msg_idx := 0 |}; usd_extra_data := [] |} |};
  uod_ledger_refs := {| lr_l1_block_refs := [] |}; uod_outputs := UpdateOutputs_new_empty |}.
Definition ee_operation : UpdateOperationData * list bytes := get_ok (no_op, []) (eub_build ee_built).

Definition ee_chunks : list ChunkInput := [ChunkInput_new chunk1 proof1; ChunkInput_new chunk2 proof2].
Definition ee_private : EePrivateInput := {| epi_raw_prev_header := []; epi_raw_partial_pre_state := []; epi_chunks := ee_chunks |}.
Definition ee_update : PrivateInput :=
  op_private_input (P := EeSnarkAccountProgram unit) (sa_proof_state ee_snark) ee_start (fst ee_operation) (snd ee_operation).

Lemma ee_start_bounded : ee_bounded ee_start.
Proof. split; done. Qed.

Lemma ee_built_update_verifies_witness :
  ee_verify_and_process_update tt chunk_pred ee_private ee_update = Ok tt /\ length (eub_pending_inputs ee_built) = 2%nat.
Proof.
  split; [|vm_compute; reflexivity].
  apply (ee_built_update_verifies tt chunk_pred (chunk_vinput []) ee_snark ee_start ee_ops (ee_builder (chunk_vinput []))
           ee_built (fst ee_operation) (snd ee_operation) [proof1; proof2] [] []).
  - exact ee_start_bounded.
  - vm_compute. reflexivity.
  - apply (ran_ok (miter run_ee_op ee_ops (ee_builder (chunk_vinput [])))). vm_compute. reflexivity.
  - rewrite <- surjective_pairing. apply get_ok_ok. vm_compute. reflexivity.
  - constructor; [vm_compute; reflexivity|]. constructor; [vm_compute; reflexivity|]. constructor.
Defined.

Lemma ee_update_accepted : ee_verify_and_process_update tt chunk_pred ee_private ee_update = Ok tt.
Proof. vm_compute. reflexivity. Qed.

Lemma decoded_state s st : ee_bounded s -> ee_state_from_ssz_bytes (ee_state_as_ssz_bytes s) = Some st -> st = s.
Proof. intros Hs Hst. rewrite (ee_state_ssz_roundtrip _ Hs) in Hst. by injection Hst as <-. Qed.

Lemma decoded_params u u' : pub_params_from_ssz_bytes (ssz_pub_params u) = Some u' -> u' = u.
Proof. intros Hu. rewrite pub_params_ssz_roundtrip in Hu. by injection Hu as <-. Qed.

Lemma start_consistent : tip_consistent (E := unit) (ee_last_exec_blkid ee_start) (ee_last_exec_state_root ee_start).
Proof. intros h Hh. cbn in *. by subst h. Qed.

Lemma ee_update_sound_witness :
  exists u xd bss, pub_params_from_ssz_bytes (pi_update_pub_params_ssz ee_update) = Some u /\
    chunks_run tt 0 0 bss (xd_new_tip_blkid xd) (xd_new_tip_state_root xd) /\ upp_outputs u = outputs_of_blocks (concat bss) /\
    length (uo_transfers (upp_outputs u)) = 1%nat.
Proof.
  destruct (ee_update_sound tt chunk_pred ee_private ee_update toy_block_id_inj toy_proofs_sound ee_update_accepted)
    as (u & st & xd & Hu & Hst & _ & _ & _ & Hrun).
  pose proof (decoded_state ee_start st ee_start_bounded Hst) as Hst'.
  pose proof (decoded_params (op_pub_params (sa_proof_state ee_snark) (fst ee_operation)) u Hu) as Hu'.
  clear Hst. subst st. destruct Hrun as (_ & bss & Hrun & _ & _ & Ho); [exact start_consistent|].
  exists u, xd, bss. split; [exact Hu|]. split; [exact Hrun|]. split; [exact Ho|].
  clear -Hu'. subst u. vm_compute. reflexivity.
Defined.

Lemma verified_update_reconstructs_witness :
  exists u st st', pub_params_from_ssz_bytes (pi_update_pub_params_ssz ee_update) = Some u /\
    apply_update_unconditionally (EeProgram (E := unit))
      {| um_new_state_root := Some (ps_inner_state (upp_new_state u)); um_extra_data := upp_extra_data u; um_messages := upp_message_inputs u |} st
    = (Ok tt, st').
Proof.
  destruct (verified_update_reconstructs (EeProgram (E := unit)) ee_update (chunk_vinput ee_chunks) ee_update_accepted)
    as (u & st & st' & Hu & _ & _ & Happly & _).
  exists u, st, st'. split; [exact Hu|exact Happly].
Defined.

(** The first chunk alone, which has no outputs. *)
Definition vinput1 : EeVerificationInput (E := unit) := chunk_vinput [ChunkInput_new chunk1 proof1].

Definition generic_ops : list (builder_op (St := EeAccountState)) :=
  [OpAddMessage (deposit_entry 7 5); OpProvideEmptyCoinputs; OpAddMessageWithCoinput (deposit_entry 8 6) []].
Definition extra1 : UpdateExtraData :=
  {| xd_new_tip_blkid := 5; xd_new_tip_state_root := 5; xd_processed_inputs := 1; xd_processed_fincls := 0 |}.
Definition generic_built : UpdateBuilder (P := EeSnarkAccountProgram unit) := drive generic_ops (generic_start vinput1).
Definition no_private : PrivateInput := {| pi_update_pub_params_ssz := []; pi_raw_pre_state := []; pi_coinputs := [] |}.
Definition private1 : PrivateInput := get_ok no_private (build_private_input extra1 generic_built).

(** The same run with an output written in at the end. *)
Definition generic_outputs : UpdateOutputs :=
  {| uo_transfers := [{| ot_dest := 300; ot_value := 1 |}]; uo_messages := []; uo_new_predicate := None |}.
Definition generic_built2 : UpdateBuilder (P := EeSnarkAccountProgram unit) :=
  drive (generic_ops ++ [OpSetOutputs generic_outputs]) (generic_start vinput1).
Definition private2 : PrivateInput := get_ok no_private (build_private_input extra1 generic_built2).

(** The private input of the undisturbed run is accepted; with the output written in,
    one is still built, but no undisturbed builder would have built it, and it is
    refused. *)
Lemma built_update_verifies_witness :
  verify_and_process_update (EeProgram (E := unit)) private1 vinput1 = Ok tt /\ length (pi_coinputs private1) = 2%nat /\
  verify_and_process_update (EeProgram (E := unit)) private2 vinput1 <> Ok tt /\ length (pi_coinputs private2) = 2%nat.
Proof.
  split; [|split; [vm_compute; reflexivity|split; [|vm_compute; reflexivity]]].
  - refine (proj1 (proj2 (proj2 (built_update_verifies (EeProgram (E := unit)) ee_snark ee_start vinput1 {| lr_l1_block_refs := [] |}
             UpdateOutputs_new_empty generic_ops (generic_start vinput1) extra1 private1 _ _ _))) _ _).
    + exact (ee_state_ssz_roundtrip ee_start ee_start_bounded).
    + vm_compute. reflexivity.
    + apply (get_ok_ok no_private (build_private_input extra1 generic_built)). vm_compute. reflexivity.
    + split; [repeat constructor|]. vm_compute. reflexivity.
    + vm_compute. reflexivity.
  - intros Hver.
    refine (_ (proj1 (proj1 (proj2 (built_update_verifies (EeProgram (E := unit)) ee_snark ee_start vinput1 {| lr_l1_block_refs := [] |}
             UpdateOutputs_new_empty (generic_ops ++ [OpSetOutputs generic_outputs]) (generic_start vinput1) extra1 private2 _ _ _))) Hver)).
    + vm_compute. discriminate.
    + exact (ee_state_ssz_roundtrip ee_start ee_start_bounded).
    + vm_compute. reflexivity.
    + apply (get_ok_ok no_private (build_private_input extra1 generic_built2)). vm_compute. reflexivity.
Defined.

Definition ops1 : list ee_op := [EeOpAddMessages [deposit_entry 7 5]; EeOpAcceptChunk chunk1].
Definition built1 : EeUpdateBuilder (E := unit) := snd (miter run_ee_op ops1 (ee_builder vinput1)).
Definition ee_private1 : PrivateInput := get_ok no_private (eub_build_private_input built1).

(** A chunk that claims the steps of the first one and an output. *)
Definition chunk1_out : ChunkTransition := {|
  ct_parent_exec_blkid := ct_parent_exec_blkid chunk1; ct_tip_exec_blkid := ct_tip_exec_blkid chunk1;
  ct_tip_state_root := ct_tip_state_root chunk1; ct_tip_exec_header_summary := ct_tip_exec_header_summary chunk1;
  ct_inputs := ct_inputs chunk1;
  ct_outputs := {| eo_output_transfers := [{| eot_dest := 300; eot_value := 1 |}]; eo_output_messages := [] |} |}.
Definition ops1_out : list ee_op := [EeOpAddMessages [deposit_entry 7 5]; EeOpAcceptChunk chunk1_out].
Definition built1_out : EeUpdateBuilder (E := unit) := snd (miter run_ee_op ops1_out (ee_builder vinput1)).
Definition ee_private1_out : PrivateInput := get_ok no_private (eub_build_private_input built1_out).

(** With the chunk that is verified the private input is accepted; with one accepted
    in its place that has an output it is built all the same and refused. *)
Lemma ee_private_input_outputs_witness :
  verify_and_process_update (EeProgram (E := unit)) ee_private1 vinput1 = Ok tt /\
  verify_and_process_update (EeProgram (E := unit)) ee_private1_out vinput1 <> Ok tt.
Proof.
  split.
  - destruct (ee_private_input_outputs vinput1 ee_snark ee_start ops1 (ee_builder vinput1) built1 ee_private1) as (u & _ & _ & _ & Hiff & Hsame).
    + exact ee_start_bounded.
    + vm_compute. reflexivity.
    + apply (ran_ok (miter run_ee_op ops1 (ee_builder vinput1))). vm_compute. reflexivity.
    + apply get_ok_ok. vm_compute. reflexivity.
    + apply Hiff, Hsame. vm_compute. reflexivity.
  - destruct (ee_private_input_outputs vinput1 ee_snark ee_start ops1_out (ee_builder vinput1) built1_out ee_private1_out) as (u & _ & Ho & _ & Hiff & _).
    + exact ee_start_bounded.
    + vm_compute. reflexivity.
    + apply (ran_ok (miter run_ee_op ops1_out (ee_builder vinput1))). vm_compute. reflexivity.
    + apply get_ok_ok. vm_compute. reflexivity.
    + rewrite Hiff, Ho. vm_compute. discriminate.
Defined.
